(* ===== verification/_CoqProject ===== *)
-Q . S2P
Prelude.v
GoIO.v
GoStrings.v
GoText.v
CryptoLib.v
Stream.v
StreamProofs.v
Token.v
Keys.v
Coordinator.v
LocalServices.v
CryptoTheorems.v
Bolt.v
IamTypes.v
IamMatch.v
IamStore.v
IamEval.v
IamGlob.v
IamEvalProofs.v
IamService.v
IamTheorems.v
IamServiceProofs.v
IamProperties.v
GoFloat.v
RateLimit.v
RateLimitTheorems.v
Concurrency.v
GoJson.v
TaskStore.v
TaskQueue.v
TaskQueueProofs.v
TaskQueueTheorems.v
Cache.v
CacheTheorems.v
PluginFsm.v
PluginTrust.v
PluginManifest.v
PluginManifestTheorems.v
PluginTopology.v
PluginNet.v
PluginPool.v
PluginRegistry.v
PluginRegistryTheorems.v
SystemScheduler.v
SystemSchedulerTheorems.v
PluginCalls.v
PluginHost.v
PluginHostTheorems.v
PluginInvoke.v
Integrity.v
IntegrityTheorems.v
MetadataStore.v
MetadataTheorems.v
Storage.v
StorageTheorems.v
GatewayHttp.v
SigV4.v
SigV4Theorems.v
GatewayAuth.v
GatewayProvider.v
GatewayIdentityTheorems.v
IamAdmin.v
IamAdminTheorems.v
AdminAuth.v
GatewayCore.v
GatewayObjects.v
GatewayBuckets.v
GatewayUploads.v
GatewayS3.v
GatewayObjectsTheorems.v
GatewayTheorems.v
GatewayUploadsTheorems.v
Fts.v
FtsTheorems.v
Events.v
EventsTheorems.v
Kms.v
Tiering.v
Flow.v
FlowTheorems.v
