(* ===== verification/Prelude.v ===== *)
(** * CipherLake: a verification library

    CipherLake is an S3-compatible object store in Go: a gateway that speaks
    the S3 protocol, envelope encryption, its own identity and access
    management, tiered storage on files, a bbolt metadata store, background
    work, and plugins that run as WebAssembly modules.  This library models
    the parts that decide who may do what, where data goes and under which key,
    and how work is admitted, ordered and retried, as executable definitions,
    and proves what holds of them.  Names follow the sources; every file opens
    with the Go files it models.

    ** The program and where it is modelled

    A request comes in at gateway/s3.go.  The rate limiter admits it, the
    authentication provider turns its credential into an identity, the router
    picks a handler, and the handler asks the IAM bridge for access, then works
    on the metadata store, the tiers, the object cache and the encryption
    coordinator, whose services keep the keys.  Accepted objects leave tasks
    for the queue.  Plugins hook into requests, events, tasks and pipelines
    through the plugin loader.

    - Shared: Prelude (results of Go calls, machine integers, lists and maps),
      GoIO (io.Reader with arbitrary short reads), GoStrings, GoText (base64),
      GoFloat (binary64), GoJson (what text and times are after encoding/json),
      Bolt (bbolt, a parameter with laws and a finite-map instance).
    - Encryption (src/internal/services): CryptoLib (primitives, a parameter
      with laws), Stream (the chunked AES-GCM readers, on a heap of slices,
      since readers share the key slice that the operation wipes when it
      returns), Token and Keys (the services), Coordinator (over the interface
      CryptoServices), LocalServices (the embedded deployment as its
      instance); StreamProofs, CryptoTheorems.  Kms (src/internal/kms): the
      interface of key managers with its laws, the local one, the fallback
      over any of them.
    - Identity and access management (src/internal/iam): IamTypes, IamMatch
      (globs, principals, conditions), IamStore, IamEval (Evaluate and its
      variants), IamService (every operation of the service, in a
      state-and-error monad), IamAdmin (admin_api.go); the check of
      gateway/iam_bridge.go is in IamEval; IamGlob, IamEvalProofs, IamTheorems,
      IamServiceProofs, IamProperties, IamAdminTheorems.
    - Gateway (src/internal/gateway): GatewayHttp (headers and queries), SigV4,
      GatewayAuth (auth.go), GatewayProvider (auth_provider.go and the user
      endpoints), AdminAuth (admin_auth.go), GatewayCore (names, ranges,
      customer keys, response headers, replies), GatewayObjects
      (object_service.go, in a monad whose state is the whole gateway and whose
      computations end in a value or a reply), GatewayBuckets, GatewayUploads
      (multipart.go, resumable.go), GatewayS3 (routing);
      SigV4Theorems, GatewayIdentityTheorems, GatewayObjectsTheorems,
      GatewayTheorems, GatewayUploadsTheorems.
    - Metadata and storage: MetadataStore (metadata/store.go),
      Integrity (checksums and scrubbing), Storage (storage/store.go: the file
      backend on a tree of files and directories, the tiers over the interface
      BackendStorage, migration, locks of objects), Cache (cache/cache.go: the
      list of elements on a heap); MetadataTheorems, IntegrityTheorems,
      StorageTheorems, CacheTheorems.  Tiering (tiering/manager.go): histories,
      scores, decisions and concurrent migrations over the interface TierStore,
      which the tiers of Storage implement.
    - Search (src/internal/fts): Fts (tokens, stemming, segments, the index,
      ranking, hybrid search); FtsTheorems.
    - Events (src/internal/events): Events (rules, webhooks, failed deliveries,
      the bus as a step function over its channels); EventsTheorems.
    - Pipelines (src/internal/pipeline, src/internal/flow): Flow (filters,
      compiler, both executors, plugins, event bus, resources, timeline,
      secrets); FlowTheorems.
    - Rate limiting (src/internal/ratelimit): RateLimit, Concurrency (the
      concurrency limiter as a step relation on atomic loads and
      compare-and-swaps); RateLimitTheorems.
    - Background work: TaskStore and TaskQueue (src/internal/taskqueue; the
      interface Store with two instances, processOne in the parts between which
      other workers may run), SystemScheduler (src/internal/scheduler);
      TaskQueueProofs, TaskQueueTheorems, SystemSchedulerTheorems.
    - Plugins (src/internal/pluginloader): PluginFsm (the replicated state),
      PluginTrust (capabilities and trust), PluginManifest (with resources),
      PluginTopology, PluginNet, PluginPool, PluginRegistry (hooks, events,
      schedules, pipeline steps, handles), PluginCalls and PluginInvoke (calling
      into a plugin), PluginHost (the imports a plugin can call, over the
      interface GuestMemory); PluginManifestTheorems, PluginRegistryTheorems,
      PluginHostTheorems.

    ** Conventions

    A Go call that can fail returns [res]: a value, an error (its message) or
    a panic.  State is passed explicitly; an operation that fails half-way
    returns the state it leaves.  Integers are [Z], with [wrap64] and its kin
    where the sources can overflow; times are nanoseconds since the zero time.
    Clock readings, random draws, outcomes of file operations and of system
    calls, and the order in which a Go map is iterated are arguments.  An
    operation under a mutex is one step; the code that works between locks (the
    concurrency limiter, the queue's workers, runs of the scheduler, borrowers
    of plugin instances, locks of objects, the event bus, migrations between
    tiers, the resource manager) is a step relation, and the theorems about it
    hold for every interleaving.

    ** What the theorems show

    - Encryption: the chunked stream and both ways of encrypting an object
      round-trip for every pattern of short reads; announced sizes are exact
      for customer keys; the key store is a map while its disk works.  Envelope
      encryption really uses the all-zero key, because the data key is wiped
      before the lazy reader runs, up to the bytes the gateway stores.
    - IAM: Evaluate implements the documented rules; the glob matcher equals
      its specification; evaluation terminates for attributes without a closing
      brace and does not in general; no operation leaves a dangling policy
      reference; membership stays symmetric; created access keys authenticate.
      The administration API asks nobody who they are; the gateway looks users
      up by resource name, so their own policies play no part.
    - Identity: an identity rests on a credential; the lock-out bounds guesses;
      a signed request verifies, and a signature binds what it covers up to
      collisions; only administrators change the user table.
    - Gateway: without cache and encryption, puts, gets and deletes through the
      handlers are operations on a map; whoever may only read changes nothing,
      whatever the request; files of routed requests stay in their bucket's
      directory; a completed upload is the concatenation of its parts.  Refused
      uploads, stale caches, presigned reads, aborted and resumed uploads and
      listings past a page behave as the theorems of those names say.
    - Metadata and storage: usage counters are exact and quotas hold after
      every sequence of operations; the file backend is a map; migration moves
      an object or leaves it; checksums stream; the scrub loop does not end; the
      object cache is a bounded LRU cache.
    - Admission and background work: a window admits at most its limit; holders
      never exceed theirs; no accepted task is lost or worked on twice at once;
      serial tasks do not overlap.
    - Events, keys, tiers, search, pipelines: deliveries of a key keep their
      order and none vanishes; webhooks do not reach inside; a data key is only
      decrypted to itself and recent ones survive an outage; migrations exclude
      each other and histories are right; searches find exactly the documents
      that are there; executions report what happened, compilation is all or
      nothing, redaction only blanks.
    - Plugins: a compare-and-swap succeeds once; the trust tier needs a
      signature; Validate accepts exactly the well-formed manifests; the
      dependency order is right; pools are bounded and exclusive; an import
      touches only what belongs to the calling plugin.

    ** Fuel and bounds

    - [globLoop] gets [globFuel m n] steps for a pattern of length m and a
      text of length n: the scan advances or backtracks at most n times over
      m + n positions; IamGlob proves that this is always enough.
    - [resolveVariableSubstitution] may loop in the source.  Definitions that
      use it take fuel and return [None] when it runs out; [returns] (in
      IamEvalProofs) says some fuel gives a result, and more fuel gives the
      same one, so results do not depend on it.
    - [encRead] needs three iterations and [decRead] two per call of Read
      ([encRead_spec], [decRead_spec]); the theorems show that the calls
      return.  Copies drain a stream with as many reads as its length allows.
    - [scrubRounds] counts rounds of a loop that has no end of its own: the
      theorem is that no number of rounds is enough.
    - The queue theorems ask for MaxAttempts up to 2^32 and at most 2^62
      restarts, so that the 64-bit attempt counter cannot wrap.
    - [explore] enumerates the states of two calls on a lock; its result is
      checked to be closed under steps, so 200 rounds are enough.

    ** Parameters

    Code outside src/ is a class: CryptoLib, Sha256, JwtLib (with bcrypt),
    SigTime, NetLib, HttpLib, GoUnicode, GoQuote, GoParsers, AnyJson, MetaText,
    IamJson, HostJson, TrustLib, ManifestLib, UrlLib, Cron, Bolt, BoltNested,
    BoltDB, GuestMemory, EventLib, RuneTables, FloatMath, TierMath, FlowLib.
    What a theorem relies on is a class of laws (CryptoLaws, JwtLaws, BoltLaws,
    BoltNestedLaws, GuestMemoryLaws, CronLaws); the witnesses instantiate each
    with concrete functions.

    ** What is not modelled

    - Cryptographic primitives, bbolt, Unicode tables, number, date and address
      parsing, and the text of JSON and XML documents are parameters.
    - Construction and shutdown of the gateway, access log, tracing, metrics,
      gRPC servers and clients and their proxies: plumbing and I/O.
    - The vector search engine (approximate indexes on floats, SIMD and CUDA
      kernels), erasure coding and cloud backends (third-party libraries), the
      Vault and AWS key managers (HTTP clients), raft (a wrapper of a library),
      replication and backup (network and archives), image codecs,
      configuration loading, command line tools, generated code.
    - Of the modelled parts: CleanupExpiredTempCreds (it deletes from a bucket
      inside ForEach, which bbolt leaves undefined), BandwidthLimiter.Wait (a
      sleep loop), installation of plugins, and read-only statistics. *)

From stdpp Require Export base gmap strings list fin_maps sorting pretty.
From Stdlib Require Export ZArith Lia.
From Stdlib Require Import Ascii.

#[global] Open Scope Z_scope.

(** ** Go results

    A Go call either returns a value, returns a non-nil [error] (modelled by
    its message), or panics (a run-time fault such as a nil dereference). *)

Inductive res (A : Type) : Type :=
| Ok (a : A)
| Err (e : string)
| Panic (why : string).
Arguments Ok {A} a.
Arguments Err {A} e.
Arguments Panic {A} why.

#[global] Instance res_ret : MRet res := fun A a => Ok a.
#[global] Instance res_bind : MBind res := fun A B f m =>
  match m with
  | Ok a => f a
  | Err e => Err e
  | Panic w => Panic w
  end.
#[global] Instance res_fmap : FMap res := fun A B f m =>
  match m with
  | Ok a => Ok (f a)
  | Err e => Err e
  | Panic w => Panic w
  end.

(** [fmt.Errorf("<ctx>: %w", err)]: the error path prefixes a context. *)
Definition wrapErr {A} (ctx : string) (m : res A) : res A :=
  match m with
  | Ok a => Ok a
  | Err e => Err (ctx +:+ ": " +:+ e)
  | Panic w => Panic w
  end.

Definition is_ok {A} (m : res A) : bool :=
  match m with Ok _ => true | _ => false end.
Definition is_err {A} (m : res A) : bool :=
  match m with Err _ => true | _ => false end.

(** ** Machine integers

    Values of Go's fixed-width types are kept as [Z]; arithmetic that can
    leave the range is followed by the wrap-around of its width. *)

Definition wrapU (w : Z) (x : Z) : Z := x mod 2 ^ w.
Definition wrapS (w : Z) (x : Z) : Z := (x + 2 ^ (w - 1)) mod 2 ^ w - 2 ^ (w - 1).

Definition wrap64 : Z -> Z := wrapS 64.
Definition wrapU32 : Z -> Z := wrapU 32.
Definition wrapU64 : Z -> Z := wrapU 64.

Definition int64_min : Z := - 2 ^ 63.
Definition int64_max : Z := 2 ^ 63 - 1.
Definition in_int64 (x : Z) : Prop := int64_min <= x <= int64_max.

Lemma wrapS_id w x : 0 < w -> - 2 ^ (w - 1) <= x < 2 ^ (w - 1) -> wrapS w x = x.
Proof.
  intros Hw Hx. unfold wrapS.
  assert (2 ^ w = 2 * 2 ^ (w - 1)) as E.
  { rewrite <- (Z.pow_succ_r 2 (w - 1)) by lia. f_equal. lia. }
  rewrite Z.mod_small by lia. lia.
Qed.

Lemma wrap64_id x : in_int64 x -> wrap64 x = x.
Proof.
  unfold in_int64, int64_min, int64_max, wrap64. intros.
  apply wrapS_id; [lia|]. change (2 ^ (64 - 1)) with (2 ^ 63). lia.
Qed.

Lemma wrapU_id w x : 0 <= x < 2 ^ w -> wrapU w x = x.
Proof. intros. by apply Z.mod_small. Qed.

(** ** Time

    [time.Time] is the number of nanoseconds since the zero time (January 1 of
    year 1), so [IsZero] is equality with 0; [time.Duration] is an [int64]
    number of nanoseconds. *)

Definition Time := Z.
Definition Duration := Z.

Definition Nanosecond : Duration := 1.
Definition Millisecond : Duration := 1000000.
Definition Second : Duration := 1000000000.
Definition Minute : Duration := 60 * Second.

Definition IsZero (t : Time) : bool := t =? 0.
Definition After (t u : Time) : bool := u <? t.
Definition Before (t u : Time) : bool := t <? u.
(** [t.Add(d)]. *)
Definition Add (t : Time) (d : Duration) : Time := t + d.
(** [t.Sub(u)] saturates at the limits of [Duration]. *)
Definition Sub (t u : Time) : Duration := Z.max int64_min (Z.min int64_max (t - u)).

(** ** Bytes *)

Definition byte := Z.
Definition bytes := list byte.

(** [clearBytes] overwrites every byte with zero. *)
Definition zeros (n : nat) : bytes := repeat 0 n.

(** ** Automation *)

Create HintDb cipherlake.

(** [lia] after replacing division and remainder by their equations. *)
Ltac zlia := Z.div_mod_to_equations; lia.

(** Case analysis on the innermost scrutinee of a [match] or [if]. *)
Ltac inner_match t :=
  lazymatch t with
  | context [match ?x with _ => _ end] => inner_match x
  | _ => t
  end.

Ltac case_match_goal :=
  match goal with
  | |- context [match ?x with _ => _ end] =>
      let y := inner_match x in destruct y eqn:?
  end.

Ltac case_match_hyp H :=
  match type of H with
  | context [match ?x with _ => _ end] =>
      let y := inner_match x in destruct y eqn:?
  end.

(** Inversion of a bind of [res], one step at a time. *)
Lemma bind_Ok {A B} (m : res A) (f : A -> res B) b :
  m ≫= f = Ok b -> exists a, m = Ok a /\ f a = Ok b.
Proof. destruct m; simpl; try done. eauto. Qed.
Lemma bind_Panic {A B} (m : res A) (f : A -> res B) w :
  m ≫= f = Panic w -> m = Panic w \/ exists a, m = Ok a /\ f a = Panic w.
Proof. destruct m as [a| |v]; simpl; [eauto|done|]. intros [= ->]. by left. Qed.
Ltac bind_inv H :=
  repeat match type of H with
  | _ ≫= _ = Ok _ => let E := fresh "E" in apply bind_Ok in H as (? & E & H)
  end.
Ltac bind_panic H :=
  repeat match type of H with
  | _ ≫= _ = Panic _ => let E := fresh "E" in apply bind_Panic in H as [H|(? & E & H)]
  end.

(** Turn boolean tests in the context into propositions. *)
Ltac boolify :=
  repeat match goal with
  | H : _ && _ = true |- _ => apply andb_true_iff in H as [? ?]
  | H : _ || _ = false |- _ => apply orb_false_iff in H as [? ?]
  | H : negb _ = true |- _ => apply negb_true_iff in H
  | H : negb _ = false |- _ => apply negb_false_iff in H
  | H : (_ <? _) = true |- _ => apply Z.ltb_lt in H
  | H : (_ <? _) = false |- _ => apply Z.ltb_ge in H
  | H : (_ <=? _) = true |- _ => apply Z.leb_le in H
  | H : (_ <=? _) = false |- _ => apply Z.leb_gt in H
  | H : (_ =? _) = true |- _ => apply Z.eqb_eq in H
  | H : (_ =? _) = false |- _ => apply Z.eqb_neq in H
  | H : bool_decide _ = true |- _ => apply bool_decide_eq_true in H
  | H : bool_decide _ = false |- _ => apply bool_decide_eq_false in H
  end.

(** ** Lists *)

Section Lists.
Context {A : Type}.
Implicit Types l : list A.

(** [l[len(l)-n:]]: the last [n] elements. *)
Definition lastn (n : nat) l : list A := drop (length l - n) l.

Lemma length_lastn n l : (n <= length l)%nat -> length (lastn n l) = n.
Proof. intros. unfold lastn. rewrite length_drop. lia. Qed.

(** Append with a bound on the length: keep the most recent [max]. *)
Definition boundedAppend (max : nat) l (x : A) : list A :=
  let l' := l ++ [x] in
  if (max <? length l')%nat then lastn max l' else l'.

Lemma boundedAppend_bound max l x :
  (length l <= max)%nat -> (length (boundedAppend max l x) <= max)%nat.
Proof.
  intros H. unfold boundedAppend. case_match_goal; [|apply Nat.ltb_ge in Heqb; lia].
  apply Nat.ltb_lt in Heqb. rewrite length_lastn; lia.
Qed.

Lemma boundedAppend_last max l x :
  (0 < max)%nat -> last (boundedAppend max l x) = Some x.
Proof.
  intros H. unfold boundedAppend. case_match_goal; [|apply last_snoc].
  unfold lastn. rewrite length_app in *. simpl in *.
  apply Nat.ltb_lt in Heqb. rewrite drop_app_le by lia. apply last_snoc.
Qed.
End Lists.

(** One element of a list that is flattened changes. *)
Lemma bind_insert {A B} (f : A -> list B) (l : list A) i x y : l !! i = Some x ->
  exists rest, (l ≫= f) ≡ₚ f x ++ rest /\ (<[i:=y]> l ≫= f) ≡ₚ f y ++ rest.
Proof.
  intros L. exists ((take i l ≫= f) ++ (drop (S i) l ≫= f)).
  rewrite insert_take_drop by by eapply lookup_lt_Some.
  rewrite <- (take_drop_middle l i x L) at 1. rewrite !bind_app. split; symmetry; apply Permutation_app_swap_app.
Qed.
Lemma filter_split {A} (P : A -> Prop) `{!forall x, Decision (P x)} (l : list A) :
  l ≡ₚ filter P l ++ filter (fun x => ~ P x) l.
Proof.
  induction l as [|x l IH]; [done|]. rewrite !filter_cons. destruct (decide (P x)).
  - rewrite decide_False by tauto. simpl. by apply perm_skip.
  - rewrite decide_True by done. rewrite IH at 1. apply Permutation_middle.
Qed.
