(* ===== verification/GoIO.v ===== *)
(** * io.Reader, io.ReadFull and bytes.Buffer

    The part of Go's [io] and [bytes] packages the streaming cipher uses.  A
    source is the bytes it still has to deliver, the error it ends with
    ([io.EOF] or a failure) and a fragmentation schedule: the i-th call to
    [Read] delivers at most the i-th entry (at least one byte), so a reader
    that returns short reads is covered. *)

From S2P Require Import Prelude.

(** The errors a read can end with. *)
Inductive rerr :=
| EOF
| ErrUnexpectedEOF
| EFail (msg : string).

#[global] Instance rerr_eq_dec : EqDecision rerr.
Proof. solve_decision. Defined.

Record reader := mkReader {
  rd_data : bytes;       (** bytes not delivered yet *)
  rd_end  : rerr;        (** what [Read] reports once they are *)
  rd_frag : list nat     (** sizes of the next fragments *)
}.

(** A reader over a byte slice, as [bytes.NewReader]. *)
Definition newReader (b : bytes) : reader := mkReader b EOF [].

Definition fragment (r : reader) (n : nat) : nat :=
  match rd_frag r with
  | [] => n
  | f :: _ => Nat.min n (Nat.max 1 f)
  end.

(** [r.Read(p)] with [len(p) = n]: the bytes delivered, the error, and the
    reader afterwards. *)
Definition Read (r : reader) (n : nat) : bytes * option rerr * reader :=
  match rd_data r with
  | [] => ([], Some (rd_end r), r)
  | _ =>
    let m := fragment r n in
    (take m (rd_data r), None,
     mkReader (drop m (rd_data r)) (rd_end r) (tail (rd_frag r)))
  end.

(** The loop of [io.ReadAtLeast] with [min = len(buf) = n]: read until the
    buffer is full or the source reports an error.  [fuel] bounds the calls;
    every call delivers a byte or an error, so [S n] is enough. *)
Fixpoint readLoop (fuel : nat) (r : reader) (n : nat) (acc : bytes)
  : bytes * option rerr * reader :=
  match fuel with
  | O => (acc, None, r)
  | S fuel =>
    if decide (n <= length acc)%nat then (acc, None, r)
    else
      let '(got, err, r') := Read r (n - length acc) in
      match err with
      | Some e => (acc ++ got, Some e, r')
      | None => readLoop fuel r' n (acc ++ got)
      end
  end.

(** [io.ReadFull(r, buf)] with [len(buf) = n]. *)
Definition ReadFull (r : reader) (n : nat) : bytes * option rerr * reader :=
  let '(got, err, r') := readLoop (S n) r n [] in
  if decide (n <= length got)%nat then (got, None, r')
  else match err with
       | Some EOF => if decide (0 < length got)%nat
                     then (got, Some ErrUnexpectedEOF, r')
                     else (got, Some EOF, r')
       | e => (got, e, r')
       end.

(** ** What [ReadFull] delivers does not depend on the fragmentation *)

Section ReadFull.
Implicit Types r : reader.

Lemma Read_nonempty r n :
  rd_data r <> [] -> (0 < n)%nat ->
  exists m, (0 < m <= n)%nat /\
    Read r n = (take m (rd_data r), None,
                mkReader (drop m (rd_data r)) (rd_end r) (tail (rd_frag r))).
Proof.
  intros Hd Hn. unfold Read. destruct (rd_data r) as [|b d] eqn:E; [done|].
  exists (fragment r n). split; [|done].
  unfold fragment. destruct (rd_frag r); lia.
Qed.

(** Enough bytes left: the loop fills the buffer. *)
Lemma readLoop_full fuel r n acc :
  (n - length acc < fuel)%nat -> (length acc <= n)%nat ->
  (n - length acc <= length (rd_data r))%nat ->
  exists frag, readLoop fuel r n acc =
    (acc ++ take (n - length acc) (rd_data r), None,
     mkReader (drop (n - length acc) (rd_data r)) (rd_end r) frag).
Proof.
  revert r acc. induction fuel as [|fuel IH]; intros r acc Hf Hle Hlen; [lia|].
  simpl. case_decide.
  - exists (rd_frag r). replace (n - length acc)%nat with 0%nat by lia.
    rewrite take_0, drop_0, app_nil_r. by destruct r.
  - destruct (Read_nonempty r (n - length acc)) as (m & Hm & ->);
      [intros E; rewrite E in Hlen; simpl in Hlen; lia | lia |].
    destruct (IH (mkReader (drop m (rd_data r)) (rd_end r) (tail (rd_frag r)))
                 (acc ++ take m (rd_data r))) as [frag ->].
    1-3: simpl; rewrite ?length_app, ?length_take, ?length_drop; lia.
    exists frag. simpl. rewrite length_app, length_take.
    replace (length acc + m `min` length (rd_data r))%nat with (length acc + m)%nat by lia.
    rewrite <- app_assoc, drop_drop.
    replace (m + (n - (length acc + m)))%nat with (n - length acc)%nat by lia.
    replace (n - length acc)%nat with (m + (n - (length acc + m)))%nat at 2 by lia.
    by rewrite take_take_drop.
Qed.

(** Too few bytes left: the loop drains the source and reports its end. *)
Lemma readLoop_short fuel r n acc :
  (S (length (rd_data r)) <= fuel)%nat ->
  (length (rd_data r) < n - length acc)%nat ->
  exists frag, readLoop fuel r n acc =
    (acc ++ rd_data r, Some (rd_end r), mkReader [] (rd_end r) frag).
Proof.
  revert r acc. induction fuel as [|fuel IH]; intros r acc Hf Hlen; [lia|].
  simpl. rewrite decide_False by lia.
  destruct (decide (rd_data r = [])) as [E|E].
  - exists (rd_frag r). unfold Read. rewrite E. destruct r; simpl in *; by subst.
  - destruct (Read_nonempty r (n - length acc)) as (m & Hm & ->); [done|lia|].
    destruct (IH (mkReader (drop m (rd_data r)) (rd_end r) (tail (rd_frag r)))
                 (acc ++ take m (rd_data r))) as [frag ->].
    1-2: simpl; rewrite ?length_app, ?length_take, ?length_drop.
    1: destruct (rd_data r); simpl in *; [done|lia].
    1: lia.
    exists frag. simpl. by rewrite <- app_assoc, take_drop.
Qed.

Lemma ReadFull_full r n :
  (n <= length (rd_data r))%nat ->
  exists frag, ReadFull r n =
    (take n (rd_data r), None, mkReader (drop n (rd_data r)) (rd_end r) frag).
Proof.
  intros H. unfold ReadFull.
  destruct (readLoop_full (S n) r n []) as [frag E]; [simpl; lia..|].
  rewrite Nat.sub_0_r, app_nil_l in E. exists frag. rewrite E.
  rewrite decide_True; [done|]. rewrite length_take. lia.
Qed.

Lemma ReadFull_short r n :
  (0 < length (rd_data r) < n)%nat -> rd_end r = EOF ->
  exists frag, ReadFull r n =
    (rd_data r, Some ErrUnexpectedEOF, mkReader [] EOF frag).
Proof.
  intros H He. unfold ReadFull.
  destruct (readLoop_short (S n) r n []) as [frag E]; [simpl; lia..|].
  rewrite He, app_nil_l in E. exists frag. rewrite E.
  rewrite decide_False by lia. by rewrite decide_True by lia.
Qed.

Lemma ReadFull_empty r n :
  rd_data r = [] -> rd_end r = EOF -> (0 < n)%nat ->
  exists frag, ReadFull r n = ([], Some EOF, mkReader [] EOF frag).
Proof.
  intros Hd He Hn. unfold ReadFull.
  destruct (readLoop_short (S n) r n []) as [frag E]; [rewrite Hd; simpl; lia..|].
  rewrite Hd, He, app_nil_l in E. exists frag. rewrite E. simpl.
  by rewrite decide_False by lia.
Qed.
End ReadFull.
