(* ===== verification/GoStrings.v ===== *)
(** * The functions of Go's [strings] package the sources use

    A Go string is a byte sequence, here a [string] of 8-bit characters.
    Case mapping is computed for ASCII strings, as [strings.ToLower] does on
    its fast path; on other strings Go consults the Unicode tables, which are
    a parameter ([GoUnicode]). *)

From S2P Require Import Prelude.
From Stdlib Require Import Ascii String.
Import base.

Class GoUnicode := {
  (** [strings.Map(unicode.ToLower, s)] and [strings.EqualFold] beyond ASCII. *)
  unicode_ToLower : string -> string;
  unicode_EqualFold : string -> string -> bool;
  unicode_TrimSpace : string -> string;
}.

(** strconv.Quote, the verb %q (it needs Unicode's table of printable
    characters). *)
Class GoQuote := { Quote : string -> string }.

(** [s[n:]] and [s[:n]]. *)
Fixpoint sdrop (n : nat) (s : string) : string :=
  match n, s with
  | O, _ => s
  | S n, String _ s => sdrop n s
  | S _, EmptyString => EmptyString
  end.

Fixpoint stake (n : nat) (s : string) : string :=
  match n, s with
  | O, _ => EmptyString
  | S n, String c s => String c (stake n s)
  | S _, EmptyString => EmptyString
  end.

(** [strings.HasPrefix(s, p)], [HasSuffix], [TrimPrefix], [TrimSuffix]. *)
Definition HasPrefix (s p : string) : bool := String.prefix p s.
Definition HasSuffix (s p : string) : bool :=
  (String.length p <=? String.length s)%nat &&
  bool_decide (sdrop (String.length s - String.length p) s = p).
Definition TrimPrefix (s p : string) : string :=
  if HasPrefix s p then sdrop (String.length p) s else s.
Definition TrimSuffix (s p : string) : string :=
  if HasSuffix s p then stake (String.length s - String.length p) s else s.

(** [strings.Index(s, sub)]: [None] for -1. *)
Fixpoint Index (s sub : string) : option nat :=
  if HasPrefix s sub then Some O
  else match s with
       | EmptyString => None
       | String _ s' => S <$> Index s' sub
       end.
Definition Contains (s sub : string) : bool := bool_decide (is_Some (Index s sub)).

(** [strings.SplitN(s, sep, 2)] for a one-byte separator: the text before the
    first separator and, if there is one, the text after it. *)
Fixpoint cut (sep : ascii) (s : string) : string * option string :=
  match s with
  | EmptyString => (EmptyString, None)
  | String c s' =>
    if decide (c = sep) then (EmptyString, Some s')
    else let '(a, b) := cut sep s' in (String c a, b)
  end.

(** [strings.Split(s, sep)] for a one-byte separator. *)
Fixpoint Split (sep : ascii) (s : string) : list string :=
  match s with
  | EmptyString => [EmptyString]
  | String c s' =>
    if decide (c = sep) then EmptyString :: Split sep s'
    else match Split sep s' with
         | h :: t => String c h :: t
         | [] => [String c EmptyString]
         end
  end.

Definition slash : ascii := "/"%char.

(** ** Case mapping *)

Definition isASCIIc (c : ascii) : bool := (nat_of_ascii c <? 128)%nat.
Fixpoint isASCII (s : string) : bool :=
  match s with
  | EmptyString => true
  | String c s => isASCIIc c && isASCII s
  end.

Definition lowerc (c : ascii) : ascii :=
  let n := nat_of_ascii c in
  if ((65 <=? n) && (n <=? 90))%nat then ascii_of_nat (n + 32) else c.
Definition upperc (c : ascii) : ascii :=
  let n := nat_of_ascii c in
  if ((97 <=? n) && (n <=? 122))%nat then ascii_of_nat (n - 32) else c.

Fixpoint smap (f : ascii -> ascii) (s : string) : string :=
  match s with
  | EmptyString => EmptyString
  | String c s => String (f c) (smap f s)
  end.

Definition ToLower `{GoUnicode} (s : string) : string :=
  if isASCII s then smap lowerc s else unicode_ToLower s.

Definition EqualFold `{GoUnicode} (s t : string) : bool :=
  if isASCII s && isASCII t then bool_decide (smap lowerc s = smap lowerc t)
  else unicode_EqualFold s t.

(** Go's [<] on strings: bytewise lexicographic. *)
Fixpoint sltb (s t : string) : bool :=
  match s, t with
  | EmptyString, EmptyString => false
  | EmptyString, String _ _ => true
  | String _ _, EmptyString => false
  | String a s, String b t =>
    if (nat_of_ascii a <? nat_of_ascii b)%nat then true
    else if (nat_of_ascii b <? nat_of_ascii a)%nat then false
    else sltb s t
  end.

(** ** Hexadecimal *)

Definition hexDigit (n : Z) : ascii :=
  if (n <? 10)%Z then ascii_of_nat (48 + Z.to_nat n) else ascii_of_nat (87 + Z.to_nat n).
(** [hex.EncodeToString]. *)
Fixpoint hexEncode (b : bytes) : string :=
  match b with
  | [] => ""
  | x :: b => String (hexDigit (x / 16)%Z) (String (hexDigit (x mod 16)%Z) (hexEncode b))
  end.

(** ** Bytes *)

(** [[]byte(s)] and [string(b)]. *)
Definition bytes_of_string (s : string) : bytes :=
  map (fun c => Z.of_nat (nat_of_ascii c)) (list_ascii_of_string s).
Definition string_of_bytes (b : bytes) : string :=
  string_of_list_ascii (map (fun x => ascii_of_nat (Z.to_nat x)) b).
(** [strings.TrimSpace]; beyond ASCII it consults Unicode's table of spaces. *)
Definition isSpacec (c : ascii) : bool :=
  let n := nat_of_ascii c in ((9 <=? n) && (n <=? 13) || (n =? 32))%nat.
Fixpoint trimLeft (s : string) : string :=
  match s with
  | EmptyString => EmptyString
  | String c s' => if isSpacec c then trimLeft s' else s
  end.
Fixpoint trimRight (s : string) : string :=
  match s with
  | EmptyString => EmptyString
  | String c s' =>
    match trimRight s' with
    | EmptyString => if isSpacec c then EmptyString else String c EmptyString
    | t => String c t
    end
  end.
Definition TrimSpace `{GoUnicode} (s : string) : string :=
  if isASCII s then trimRight (trimLeft s) else unicode_TrimSpace s.

(** [strings.Split(s, sep)] for a separator that is not empty; every piece but
    the last consumes it, so the length of [s] bounds the rounds. *)
Fixpoint splitLoop (fuel : nat) (sep s : string) : list string :=
  match fuel with
  | O => [s]
  | S fuel =>
    match Index s sep with
    | None => [s]
    | Some i => stake i s :: splitLoop fuel sep (sdrop (i + String.length sep) s)
    end
  end.
Definition SplitOn (sep s : string) : list string := splitLoop (String.length s) sep s.

(** [strings.Join(l, sep)]. *)
Fixpoint strJoin (sep : string) (l : list string) : string :=
  match l with
  | [] => EmptyString
  | [x] => x
  | x :: l => x +:+ sep +:+ strJoin sep l
  end.

(** The case tables of an ASCII-only world, to run examples. *)
Module AsciiOnly.
#[export] Instance ascii_unicode : GoUnicode := {|
  unicode_ToLower := smap lowerc;
  unicode_EqualFold s t := bool_decide (smap lowerc s = smap lowerc t);
  unicode_TrimSpace s := trimRight (trimLeft s);
|}.
End AsciiOnly.

(** ** Lemmas *)

Lemma HasPrefix_app p t : HasPrefix (p +:+ t) p = true.
Proof.
  unfold HasPrefix. induction p as [|c p IH]; simpl; [by destruct t|].
  destruct (ascii_dec c c); [done|congruence].
Qed.

Lemma sapp_assoc (a b c : string) : a +:+ b +:+ c = (a +:+ b) +:+ c.
Proof. induction a as [|x a IH]; [done|]. change (String x (a +:+ b +:+ c) = String x ((a +:+ b) +:+ c)). by rewrite IH. Qed.

Lemma sdrop_app p t : sdrop (String.length p) (p +:+ t) = t.
Proof. by induction p. Qed.

Lemma TrimPrefix_app p t : TrimPrefix (p +:+ t) p = t.
Proof. unfold TrimPrefix. by rewrite HasPrefix_app, sdrop_app. Qed.

(** No occurrence of a character. *)
Fixpoint nochar (c : ascii) (s : string) : bool :=
  match s with
  | EmptyString => true
  | String d s => bool_decide (d <> c) && nochar c s
  end.

Lemma cut_app sep a b : nochar sep a = true ->
  cut sep (a +:+ String sep b) = (a, Some b).
Proof.
  induction a as [|c a IH]; simpl; intros Ha.
  - by rewrite decide_True.
  - boolify. rewrite decide_False by done. by rewrite IH.
Qed.

Lemma cut_none sep a : nochar sep a = true -> cut sep a = (a, None).
Proof.
  induction a as [|c a IH]; simpl; intros Ha; [done|].
  boolify. rewrite decide_False by done. by rewrite IH.
Qed.

(** Two slash-free heads followed by a slash split the same way. *)
Lemma join_slash_inj sep a a' b b' :
  nochar sep a = true -> nochar sep a' = true ->
  a +:+ String sep b = a' +:+ String sep b' -> a = a' /\ b = b'.
Proof.
  intros Ha Ha' E. apply (f_equal (cut sep)) in E.
  rewrite !cut_app in E by done. by simplify_eq.
Qed.

(** [n<sep>id] starts with [p<sep>] exactly when [n] is [p], for names without
    the separator. *)
Lemma HasPrefix_sep sep n p id : nochar sep n = true -> nochar sep p = true ->
  HasPrefix (n +:+ String sep id) (p +:+ String sep "") = bool_decide (n = p).
Proof.
  intros N P. destruct (decide (n = p)) as [->|NE].
  { rewrite bool_decide_true by done.
    change (String sep id) with (String sep "" +:+ id). rewrite sapp_assoc. apply HasPrefix_app. }
  rewrite bool_decide_false by done. unfold HasPrefix. revert p NE P.
  induction n as [|c n IH]; intros [|d p] NE P; [done|..].
  - simpl in P. boolify.
    change (String.prefix (String d (p +:+ String sep "")) (String sep id) = false). simpl.
    by destruct (ascii_dec d sep).
  - simpl in N. boolify.
    change (String.prefix (String sep "") (String c (n +:+ String sep id)) = false). cbn [String.prefix].
    by destruct (ascii_dec sep c) as [<-|].
  - simpl in N, P. boolify.
    change (String.prefix (String d (p +:+ String sep "")) (String c (n +:+ String sep id)) = false).
    simpl. destruct (ascii_dec d c) as [->|]; [|done]. apply IH; [done|congruence|done].
Qed.

Lemma HasPrefix_spec s p : HasPrefix s p = true <-> exists t, s = p +:+ t.
Proof.
  split; [|intros [t ->]; apply HasPrefix_app]. unfold HasPrefix.
  revert s. induction p as [|c p IH]; intros s; [by exists s|].
  destruct s as [|d s]; simpl; [done|]. destruct (ascii_dec c d) as [->|]; [|done].
  intros [t ->]%IH. by exists t.
Qed.

Lemma string_bytes_roundtrip x : string_of_bytes (bytes_of_string x) = x.
Proof.
  unfold string_of_bytes, bytes_of_string. rewrite map_map.
  rewrite <- (string_of_list_ascii_of_string x) at 2. f_equal.
  induction (list_ascii_of_string x) as [|c l IH]; [done|]. simpl.
  by rewrite IH, Nat2Z.id, ascii_nat_embedding.
Qed.
