(* ===== verification/GoText.v ===== *)
(** * Text encodings and facts about strings

    encoding/base64 with the standard alphabet and padding: [EncodeToString]
    and [DecodeString] of [base64.StdEncoding].  The decoder
    skips line breaks anywhere and ignores the bits a last group does not
    use; the offset in its error message is left out. *)

From S2P Require Import Prelude GoStrings.
From Stdlib Require Import Ascii String.
From stdpp Require Import base list strings.

#[local] Open Scope Z_scope.

Definition digit64 (n : Z) : ascii :=
  ascii_of_nat (Z.to_nat
    (if n <? 26 then n + 65 else if n <? 52 then n + 71 else if n <? 62 then n - 4
     else if n =? 62 then 43 else 47)).
Definition value64 (c : ascii) : option Z :=
  let n := Z.of_nat (nat_of_ascii c) in
  if (65 <=? n) && (n <=? 90) then Some (n - 65)
  else if (97 <=? n) && (n <=? 122) then Some (n - 71)
  else if (48 <=? n) && (n <=? 57) then Some (n + 4)
  else if n =? 43 then Some 62 else if n =? 47 then Some 63 else None.

Fixpoint encode64 (b : bytes) : string :=
  match b with
  | [] => ""
  | [x] => String (digit64 (x / 4)) (String (digit64 (x mod 4 * 16)) "==")
  | [x; y] =>
    String (digit64 (x / 4)) (String (digit64 (x mod 4 * 16 + y / 16)) (String (digit64 (y mod 16 * 4)) "="))
  | x :: y :: z :: b =>
    String (digit64 (x / 4)) (String (digit64 (x mod 4 * 16 + y / 16))
      (String (digit64 (y mod 16 * 4 + z / 64)) (String (digit64 (z mod 64)) (encode64 b))))
  end.

Definition pad : ascii := "="%char.
Fixpoint decodeGroups (s : string) : option bytes :=
  match s with
  | EmptyString => Some []
  | String a (String b (String c (String d s))) =>
    x ← value64 a; y ← value64 b;
    if bool_decide (d = pad) then
      if bool_decide (s <> ""%string) then None
      else if bool_decide (c = pad) then Some [x * 4 + y / 16]
      else z ← value64 c; Some [x * 4 + y / 16; y mod 16 * 16 + z / 4]
    else
      z ← value64 c; t ← value64 d; rest ← decodeGroups s;
      Some (x * 4 + y / 16 :: y mod 16 * 16 + z / 4 :: z mod 4 * 64 + t :: rest)
  | _ => None
  end.

Definition isBreak (c : ascii) : bool := let n := nat_of_ascii c in ((n =? 10) || (n =? 13))%nat.
Fixpoint dropBreaks (s : string) : string :=
  match s with
  | EmptyString => EmptyString
  | String c s => if isBreak c then dropBreaks s else String c (dropBreaks s)
  end.

Definition DecodeString (s : string) : res bytes :=
  match decodeGroups (dropBreaks s) with
  | Some b => Ok b
  | None => Err "illegal base64 data"
  end.

(** ** Round trip *)

Definition is_byte (x : Z) : Prop := 0 <= x < 256.

Lemma digit64_spec n : 0 <= n < 64 ->
  value64 (digit64 n) = Some n /\ bool_decide (digit64 n = pad) = false /\ isBreak (digit64 n) = false.
Proof.
  intros B. assert (exists k, (k < 64)%nat /\ n = Z.of_nat k) as (k & K & ->) by (exists (Z.to_nat n); lia).
  do 64 (destruct k as [|k]; [by vm_compute|]). lia.
Qed.

Lemma value64_digit n : 0 <= n < 64 -> value64 (digit64 n) = Some n.
Proof. apply digit64_spec. Qed.
Lemma digit64_nopad n : 0 <= n < 64 -> bool_decide (digit64 n = pad) = false.
Proof. apply digit64_spec. Qed.
Lemma digit64_nobreak n : 0 <= n < 64 -> isBreak (digit64 n) = false.
Proof. apply digit64_spec. Qed.

Lemma encode64_nobreak b : Forall is_byte b -> dropBreaks (encode64 b) = encode64 b.
Proof.
  assert (forall n b, (length b <= n)%nat -> Forall is_byte b -> dropBreaks (encode64 b) = encode64 b) as G; [|by apply (G (length b))].
  clear b. intros n. induction n as [|n IH]; intros b L F; [by destruct b; [|simpl in L; lia]|].
  destruct b as [|x [|y [|z b]]]; [done|..]; repeat (apply Forall_cons in F as [? F]); unfold is_byte in *.
  - cbn [encode64 dropBreaks]. by rewrite !digit64_nobreak by zlia.
  - cbn [encode64 dropBreaks]. by rewrite !digit64_nobreak by zlia.
  - cbn [encode64 dropBreaks]. rewrite !digit64_nobreak by zlia.
    rewrite IH; [done| |done]. simpl in L. lia.
Qed.

Lemma decode_encode64 b : Forall is_byte b -> decodeGroups (encode64 b) = Some b.
Proof.
  assert (forall n b, (length b <= n)%nat -> Forall is_byte b -> decodeGroups (encode64 b) = Some b) as G; [|by apply (G (length b))].
  clear b. intros n. induction n as [|n IH]; intros b L F; [by destruct b; [|simpl in L; lia]|].
  destruct b as [|x [|y [|z b]]]; [done|..]; repeat (apply Forall_cons in F as [? F]); unfold is_byte in *.
  - cbn [encode64 decodeGroups]. rewrite !value64_digit by zlia. cbn. do 2 f_equal. zlia.
  - cbn [encode64 decodeGroups]. rewrite !value64_digit by zlia.
    rewrite digit64_nopad by zlia. cbn. repeat f_equal; zlia.
  - cbn [encode64 decodeGroups]. rewrite !value64_digit by zlia.
    rewrite digit64_nopad by zlia.
    rewrite IH; [|simpl in L; lia|done]. cbn. repeat f_equal; zlia.
Qed.

Lemma DecodeString_encode b : Forall is_byte b -> DecodeString (encode64 b) = Ok b.
Proof. intros F. unfold DecodeString. by rewrite encode64_nobreak, decode_encode64. Qed.

Example base64_examples :
  (encode64 (bytes_of_string "admin:pw"), DecodeString "YWRtaW46cHc=", DecodeString "YWR",
   DecodeString "YW==YW==") =
  ("YWRtaW46cHc="%string, Ok (bytes_of_string "admin:pw"), Err "illegal base64 data", Err "illegal base64 data").
Proof. vm_compute. reflexivity. Qed.

(** ** Facts about Go's string functions

    Splitting undoes joining, and trimming leaves a text without spaces alone. *)

(** ** Strings without a character *)

Lemma nochar_app c a b : nochar c (a +:+ b) = nochar c a && nochar c b.
Proof. induction a as [|d a IH]; [done|]. simpl. by rewrite IH, andb_assoc. Qed.
Lemma nochar_cons c d s : nochar c (String d s) = negb (bool_decide (d = c)) && nochar c s.
Proof. simpl. by rewrite bool_decide_not. Qed.

Lemma nochar_join c sep l : nochar c sep = true -> Forall (fun s => nochar c s = true) l ->
  nochar c (strJoin sep l) = true.
Proof.
  intros S. induction 1 as [|x l X F IH]; [done|]. destruct l as [|y l]; [done|].
  change (strJoin sep (x :: y :: l)) with (x +:+ sep +:+ strJoin sep (y :: l)).
  by rewrite !nochar_app, X, S, IH.
Qed.

(** ** Splitting and trimming *)

Lemma Split_nochar c s : nochar c s = true -> Split c s = [s].
Proof.
  induction s as [|d s IH]; simpl; intros N; [done|]. boolify. rewrite decide_False, IH by done. done.
Qed.
Lemma Split_app c a b : nochar c a = true -> Split c (a +:+ String c b) = a :: Split c b.
Proof.
  induction a as [|d a IH]; simpl; intros N; [by rewrite decide_True|].
  boolify. change (String c b) with (EmptyString +:+ String c b) in IH |- *.
  rewrite decide_False, IH by done. done.
Qed.
Lemma Split_join c l : l <> [] -> Forall (fun s => nochar c s = true) l ->
  Split c (strJoin (String c "") l) = l.
Proof.
  intros NE. induction 1 as [|x l X F IH]; [done|]. destruct l as [|y l]; [by apply Split_nochar|].
  change (strJoin (String c "") (x :: y :: l)) with (x +:+ String c (strJoin (String c "") (y :: l))).
  by rewrite Split_app, IH.
Qed.

Lemma Index_cons d s sub : Index (String d s) sub =
  if HasPrefix (String d s) sub then Some O else S <$> Index s sub.
Proof. done. Qed.
Lemma HasPrefix_head c d s sub : d <> c -> HasPrefix (String d s) (String c sub) = false.
Proof. intros N. unfold HasPrefix. simpl. destruct (ascii_dec c d); congruence. Qed.

Lemma Index_sep c sep a b : nochar c a = true ->
  Index (a +:+ String c sep +:+ b) (String c sep) = Some (String.length a).
Proof.
  induction a as [|d a IH]; intros N.
  - change (Index (String c sep +:+ b) (String c sep) = Some O).
    pose proof (HasPrefix_app (String c sep) b) as P. unfold Index.
    destruct (String c sep +:+ b); by rewrite P.
  - simpl in N. boolify. change (String d a +:+ ?x) with (String d (a +:+ x)).
    by rewrite Index_cons, HasPrefix_head, IH.
Qed.
Lemma Index_none c sep a : nochar c a = true -> Index a (String c sep) = None.
Proof.
  induction a as [|d a IH]; intros N; [done|]. simpl in N. boolify.
  by rewrite Index_cons, HasPrefix_head, IH.
Qed.
Lemma stake_app a b : stake (String.length a) (a +:+ b) = a.
Proof. induction a as [|c a IH]; [by destruct b|]. change (String c (stake (String.length a) (a +:+ b)) = String c a). by rewrite IH. Qed.
Lemma length_sapp a b : String.length (a +:+ b) = (String.length a + String.length b)%nat.
Proof. induction a as [|c a IH]; [done|]. change (S (String.length (a +:+ b)) = S (String.length a + String.length b)). by rewrite IH. Qed.
Lemma sdrop_app_more n a b : sdrop (String.length a + n) (a +:+ b) = sdrop n b.
Proof. by induction a. Qed.

Lemma SplitOn_join c sep l : l <> [] -> Forall (fun s => nochar c s = true) l ->
  SplitOn (String c sep) (strJoin (String c sep) l) = l.
Proof.
  intros NE F. unfold SplitOn. generalize (Nat.le_refl (String.length (strJoin (String c sep) l))).
  generalize (String.length (strJoin (String c sep) l)) at 2 3. revert NE.
  induction F as [|x l X F IH]; intros NE n L; [done|]. destruct l as [|y l].
  - destruct n; [done|]. cbn [splitLoop strJoin]. by rewrite Index_none.
  - change (strJoin (String c sep) (x :: y :: l))
      with (x +:+ String c sep +:+ strJoin (String c sep) (y :: l)) in L |- *.
    rewrite !length_sapp in L. change (String.length (String c sep)) with (S (String.length sep)) in L.
    destruct n as [|n]; [lia|].
    cbn [splitLoop]. rewrite Index_sep, stake_app, sdrop_app_more, sdrop_app by done.
    f_equal. apply IH; [done|]. lia.
Qed.

(** ** Texts without spaces *)

(** ASCII without white space. *)
Fixpoint solid (s : string) : bool :=
  match s with
  | EmptyString => true
  | String c s => isASCIIc c && negb (isSpacec c) && solid s
  end.

Lemma solid_app a b : solid (a +:+ b) = solid a && solid b.
Proof. induction a as [|c a IH]; [done|]. change (isASCIIc c && negb (isSpacec c) && solid (a +:+ b) = isASCIIc c && negb (isSpacec c) && solid a && solid b). by rewrite IH, andb_assoc. Qed.
Lemma solid_join sep l : solid sep = true -> Forall (fun s => solid s = true) l ->
  solid (strJoin sep l) = true.
Proof.
  intros S. induction 1 as [|x l X F IH]; [done|]. destruct l as [|y l]; [done|].
  change (strJoin sep (x :: y :: l)) with (x +:+ sep +:+ strJoin sep (y :: l)).
  by rewrite !solid_app, X, S, IH.
Qed.
Lemma trimRight_solid s : solid s = true -> trimRight s = s.
Proof.
  induction s as [|c s IH]; intros S; [done|]. cbn [solid] in S. boolify. cbn [trimRight].
  rewrite IH by done. destruct s; [|done]. by destruct (isSpacec c).
Qed.
Lemma solid_ascii s : solid s = true -> isASCII s = true.
Proof. induction s as [|c s IH]; intros S; [done|]. cbn [solid] in S. boolify. cbn [isASCII]. rewrite IH by done. by destruct (isASCIIc c). Qed.
Lemma TrimSpace_solid `{GoUnicode} s : solid s = true -> TrimSpace s = s.
Proof.
  intros S. unfold TrimSpace. rewrite solid_ascii by done.
  assert (trimLeft s = s) as ->; [|by apply trimRight_solid].
  destruct s as [|c s]; [done|]. cbn [solid] in S. cbn [trimLeft]. boolify. by destruct (isSpacec c).
Qed.

(** A solid text has no given space or control character. *)
Lemma solid_nochar c s : isSpacec c = true -> solid s = true -> nochar c s = true.
Proof.
  intros C. induction s as [|d s IH]; intros S; [done|]. cbn [solid] in S. rewrite nochar_cons.
  apply andb_true_iff in S as [[_ S]%andb_true_iff S']. rewrite IH by done.
  rewrite bool_decide_false; [done|]. intros ->. by rewrite C in S.
Qed.
