(* ===== verification/CryptoLib.v ===== *)
(** * The cryptographic primitives the services call

    AES-256-GCM, HMAC-SHA256, HKDF-SHA256, P-256 ECDH and Ed25519 come from
    Go's [crypto] packages; they are a parameter of the model, a class
    [CryptoLib] of functions, with the documented behaviour the code relies on
    in a second class [CryptoLaws].  The checks those packages make before
    they compute (key and nonce lengths) are modelled as they are documented:
    [aes.NewCipher] reports an error on a key of the wrong size and GCM panics
    on a nonce of the wrong size.  [ToyCrypto] is a concrete instance, used
    only to show that the laws are satisfiable and to run examples. *)

From S2P Require Import Prelude.

(** GCM's standard nonce and tag sizes. *)
Definition gcmNonceSize : nat := 12.
Definition gcmTagSize : nat := 16.

(** [buf := make([]byte, n); rand.Read(buf)]: the buffer has [n] bytes whatever
    the generator delivers; [draw] is its output or its error. *)
Definition randBuf (n : nat) (draw : res bytes) : res bytes :=
  (fun b => take n (b ++ zeros n)) <$> draw.

Lemma randBuf_length n draw b : randBuf n draw = Ok b -> length b = n.
Proof.
  destruct draw; simpl; intros E; simplify_eq.
  unfold zeros. rewrite length_take, length_app, repeat_length. lia.
Qed.

(** The NIST curves of [crypto/elliptic] and the size of an uncompressed point. *)
Inductive Curve := P256 | P384 | P521.
Definition pointSize (c : Curve) : nat :=
  match c with P256 => 65 | P384 => 97 | P521 => 133 end.

#[global] Instance Curve_eq_dec : EqDecision Curve.
Proof. solve_decision. Defined.

Class CryptoLib := {
  (** [hmac.New(sha256.New, key)] fed with [msg], then [Sum(nil)]. *)
  hmac_sha256 : bytes -> bytes -> bytes;
  (** The first 32 bytes of [hkdf.New(sha256.New, secret, nil, info)]. *)
  hkdf_sha256 : bytes -> bytes -> bytes;
  (** AES-GCM with a valid key and a 12-byte nonce. *)
  aes_gcm_seal : bytes -> bytes -> bytes -> bytes;
  aes_gcm_open : bytes -> bytes -> bytes -> option bytes;
  (** EC key pairs: the uncompressed public point of a private key. *)
  ecPriv : Type;
  ecPub : Curve -> ecPriv -> bytes;
  (** Whether [ecdh.P256().NewPublicKey] / [elliptic.Unmarshal] accept an encoding. *)
  ecOnCurve : Curve -> bytes -> bool;
  (** The x coordinate of [priv * point]. *)
  ecdh : Curve -> ecPriv -> bytes -> bytes;
  (** Ed25519 key pairs. *)
  edPriv : Type;
  edPub : edPriv -> bytes;
  (** The private key whose bytes are all zero. *)
  edZero : edPriv;
  ed_sign : edPriv -> bytes -> bytes;
  ed_verify : bytes -> bytes -> bytes -> bool;
}.

(** Documented behaviour of the primitives. *)
Class CryptoLaws `{CryptoLib} := {
  hmac_size : forall k m, length (hmac_sha256 k m) = 32%nat;
  hkdf_size : forall s i, length (hkdf_sha256 s i) = 32%nat;
  seal_size : forall k n p, length (aes_gcm_seal k n p) = (length p + gcmTagSize)%nat;
  open_seal : forall k n p, aes_gcm_open k n (aes_gcm_seal k n p) = Some p;
  pub_on_curve : forall c k, ecOnCurve c (ecPub c k) = true;
  on_curve_size : forall c b, ecOnCurve c b = true -> length b = pointSize c;
  ecdh_comm : forall c a b, ecdh c a (ecPub c b) = ecdh c b (ecPub c a);
  verify_sign : forall k m, ed_verify (edPub k) m (ed_sign k m) = true;
}.

Section GCM.
Context `{CryptoLib}.

Lemma pub_size `{!CryptoLaws} c k : length (ecPub c k) = pointSize c.
Proof. apply on_curve_size, pub_on_curve. Qed.

(** [aes.NewCipher]: 16, 24 or 32 byte keys. *)
Definition aes_NewCipher (key : bytes) : res unit :=
  if decide (length key = 16 \/ length key = 24 \/ length key = 32)%nat
  then Ok tt
  else Err ("crypto/aes: invalid key size " +:+ pretty (length key)).

(** [gcm.Seal(nil, nonce, plaintext, nil)] panics on a wrong nonce length. *)
Definition gcm_Seal (key nonce plaintext : bytes) : res bytes :=
  if decide (length nonce = gcmNonceSize)
  then Ok (aes_gcm_seal key nonce plaintext)
  else Panic "crypto/cipher: incorrect nonce length given to GCM".

(** [gcm.Open(nil, nonce, ciphertext, nil)]. *)
Definition gcm_Open (key nonce ciphertext : bytes) : res bytes :=
  if decide (length nonce = gcmNonceSize)
  then match aes_gcm_open key nonce ciphertext with
       | Some p => Ok p
       | None => Err "cipher: message authentication failed"
       end
  else Panic "crypto/cipher: incorrect nonce length given to GCM".

Lemma aes_NewCipher_32 key : length key = 32%nat -> aes_NewCipher key = Ok tt.
Proof. intros E. unfold aes_NewCipher. rewrite decide_True by lia. done. Qed.

Lemma gcm_Seal_ok key nonce p :
  length nonce = 12%nat -> gcm_Seal key nonce p = Ok (aes_gcm_seal key nonce p).
Proof. intros E. unfold gcm_Seal. by rewrite decide_True. Qed.

Lemma gcm_Open_Seal `{!CryptoLaws} key nonce p :
  length nonce = 12%nat -> gcm_Open key nonce (aes_gcm_seal key nonce p) = Ok p.
Proof. intros E. unfold gcm_Open. rewrite decide_True by done. by rewrite open_seal. Qed.
End GCM.

(** ** A concrete instance

    Not secure, but it satisfies every law: "encryption" appends a constant
    tag, key agreement multiplies, signatures are empty. *)

Module ToyCrypto.
Definition pad (n : nat) (b : bytes) : bytes := take n (b ++ zeros n).

#[export] Instance toy : CryptoLib := {|
  hmac_sha256 k m := pad 32 (k ++ m);
  hkdf_sha256 s i := pad 32 (s ++ i);
  aes_gcm_seal k n p := p ++ zeros 16;
  aes_gcm_open k n c := Some (take (length c - 16) c);
  ecPriv := Z;
  ecPub c k := k :: zeros (pointSize c - 1);
  ecOnCurve c b := bool_decide (length b = pointSize c);
  ecdh c k b := [k * default 0 (head b)];
  edPriv := Z;
  edPub k := [k];
  edZero := 0;
  ed_sign k m := k :: m;
  ed_verify pub m s := bool_decide (s = pub ++ m);
|}.

#[export] Instance toy_laws : CryptoLaws.
Proof.
  split; simpl; intros.
  1-2: unfold pad, zeros; rewrite length_take, !length_app, repeat_length; lia.
  - unfold gcmTagSize. by rewrite length_app.
  - rewrite length_app. simpl. rewrite Nat.add_sub. by rewrite take_app_length.
  - by destruct c.
  - by apply bool_decide_eq_true in H.
  - f_equal. lia.
  - by apply bool_decide_eq_true.
Qed.
End ToyCrypto.
