(* ===== verification/Stream.v ===== *)
(** * The chunked AES-256-GCM stream cipher of the encryption coordinator

    Models [streamingEncryptReader] and [streamingDecryptReader] of
    src/internal/services/coordinator.go: key and nonce derivation per chunk,
    the chunk format, and both [Read] methods with their buffers.  The key of
    a reader is a slice, i.e. a reference into memory shared with its creator,
    so it is a location of a heap and every chunk reads the key that is in
    memory at the time of the [Read]. *)

From S2P Require Import Prelude GoIO CryptoLib.

(** ** Byte-level encodings *)

Definition byteOf (z : Z) : byte := z mod 256.

(** [binary.BigEndian.PutUint32] and [AppendUint32]. *)
Definition be32 (v : Z) : bytes :=
  [byteOf (Z.shiftr v 24); byteOf (Z.shiftr v 16); byteOf (Z.shiftr v 8); byteOf v].

(** [binary.BigEndian.PutUint64]. *)
Definition be64 (v : Z) : bytes := be32 (Z.shiftr v 32) ++ be32 v.

(** [binary.BigEndian.Uint32]. *)
Definition be32dec (b : bytes) : Z :=
  match b with
  | b0 :: b1 :: b2 :: b3 :: _ =>
      Z.lor b3 (Z.lor (Z.shiftl b2 8) (Z.lor (Z.shiftl b1 16) (Z.shiftl b0 24)))
  | _ => 0
  end.

(** ** Constants *)

Definition ssecChunkSize : nat := Z.to_nat 32768.
Definition ssecNonceSize : nat := 12.
Definition ssecAuthTagSize : nat := 16.
Definition ssecCiphertextLenSize : nat := 4.
Definition ssecLastChunkMarker : Z := 2 ^ 31.
Definition envelopeMetadataVersion : byte := 1.

#[global] Arguments ssecChunkSize : simpl never.

Lemma ssecChunkSize_Z : Z.of_nat ssecChunkSize = 32768.
Proof. unfold ssecChunkSize. lia. Qed.

Lemma ssecChunkSize_pos : (0 < ssecChunkSize)%nat.
Proof. pose proof ssecChunkSize_Z. lia. Qed.

#[global] Opaque ssecChunkSize.

(** ** Shared memory: a slice is a location *)

Abbreviation heap := (gmap nat bytes).

(** The bytes a slice refers to now. *)
Definition slice (h : heap) (l : nat) : bytes := default [] (h !! l).

(** [clearBytes(b)]: zero the array behind a slice. *)
Definition clearBytes (h : heap) (l : nat) : heap :=
  match h !! l with
  | Some b => <[l := zeros (length b)]> h
  | None => h
  end.

Section Stream.
Context `{CryptoLib}.

(** [deriveChunkKey]: HKDF with [info = nonce || chunk_index]. *)
Definition deriveChunkKey (key nonce : bytes) (chunkIdx : Z) : bytes :=
  let info := nonce ++ be32 chunkIdx in
  let prk := hmac_sha256 key nonce in
  hmac_sha256 prk (info ++ [1]).

(** The chunk nonce: the base nonce with the chunk index XORed into its
    first four bytes. *)
Definition chunkNonce (nonce : bytes) (chunkIdx : Z) : bytes :=
  let base := take ssecNonceSize (nonce ++ zeros ssecNonceSize) in
  imap (fun i b => if decide (i < 4)%nat
                   then Z.lxor b (byteOf (Z.shiftr chunkIdx (24 - 8 * Z.of_nat i)))
                   else b) base.

(** [encryptChunk]: [[len(4), MSB = last][ciphertext][authTag(16)]]. *)
Definition encryptChunk (plaintext key nonce : bytes) (chunkIdx : Z) (isLast : bool)
  : res bytes :=
  let derivedKey := deriveChunkKey key nonce chunkIdx in
  _ ← wrapErr ("failed to create AES cipher for chunk " +:+ pretty chunkIdx)
        (aes_NewCipher derivedKey);
  sealed ← gcm_Seal derivedKey (chunkNonce nonce chunkIdx) plaintext;
  if decide (length sealed < ssecAuthTagSize)%nat then Err "sealed chunk too short"
  else
    let ciphertext := take (length sealed - ssecAuthTagSize) sealed in
    let authTag := drop (length sealed - ssecAuthTagSize) sealed in
    let ctLen := wrapU32 (Z.of_nat (length ciphertext)) in
    let ctLen := if isLast then Z.lor ctLen ssecLastChunkMarker else ctLen in
    Ok (be32 ctLen ++ ciphertext ++ authTag).

(** ** The encrypting reader *)

Record streamingEncryptReader := mkEnc {
  er_source : reader;
  er_key : nat;            (** location of the key slice *)
  er_nonce : bytes;
  er_chunkIdx : Z;
  er_outBuf : bytes;
  er_done : bool
}.

Definition newStreamingEncryptReader (source : reader) (key : nat) (nonce : bytes)
  : streamingEncryptReader := mkEnc source key nonce 0 [] false.

(** One [Read(p)] with [len(p) = n], in a memory [h].  [fuel] bounds the
    iterations of the loop; three are always enough ([encRead_spec]). *)
Fixpoint encRead (fuel : nat) (h : heap) (r : streamingEncryptReader) (n : nat)
  : res (bytes * option rerr * streamingEncryptReader) :=
  match fuel with
  | O => Panic "fuel"
  | S fuel =>
    if decide (0 < length (er_outBuf r))%nat then
      Ok (take n (er_outBuf r), None,
          mkEnc (er_source r) (er_key r) (er_nonce r) (er_chunkIdx r)
                (drop n (er_outBuf r)) (er_done r))
    else if er_done r then Ok ([], Some EOF, r)
    else
      let '(buf, readErr, src) := ReadFull (er_source r) ssecChunkSize in
      let fail e := Ok ([], Some e,
            mkEnc src (er_key r) (er_nonce r) (er_chunkIdx r) (er_outBuf r) (er_done r)) in
      let continue out idx done :=
        encRead fuel h (mkEnc src (er_key r) (er_nonce r) idx out done) n in
      match readErr with
      | Some (EFail m) => fail (EFail m)
      | _ =>
        let isLast := bool_decide (readErr = Some EOF \/ readErr = Some ErrUnexpectedEOF
                                   \/ length buf = 0%nat) in
        if decide (length buf = 0%nat /\ isLast = true) then
          if er_chunkIdx r =? 0 then
            match encryptChunk [] (slice h (er_key r)) (er_nonce r) (er_chunkIdx r) true with
            | Ok c => continue (er_outBuf r ++ c) (er_chunkIdx r) true
            | Err e => fail (EFail e)
            | Panic w => Panic w
            end
          else continue (er_outBuf r) (er_chunkIdx r) true
        else
          match encryptChunk buf (slice h (er_key r)) (er_nonce r) (er_chunkIdx r) isLast with
          | Ok c => continue (er_outBuf r ++ c) (wrapU32 (er_chunkIdx r + 1))
                             (if isLast then true else er_done r)
          | Err e => fail (EFail e)
          | Panic w => Panic w
          end
      end
  end.

(** ** The decrypting reader *)

Record streamingDecryptReader := mkDec {
  dr_source : reader;
  dr_key : nat;
  dr_nonce : bytes;
  dr_chunkIdx : Z;
  dr_outBuf : bytes;
  dr_done : bool;
  dr_lenBuf : bytes        (** the bytes of the length prefix read so far *)
}.

Definition newStreamingDecryptReader (source : reader) (key : nat) (nonce : bytes)
  : streamingDecryptReader := mkDec source key nonce 0 [] false [].

(** The loop that reads the 4-byte length prefix. *)
Fixpoint readHeader (fuel : nat) (src : reader) (lenBuf : bytes)
  : bytes * option rerr * reader :=
  match fuel with
  | O => (lenBuf, None, src)
  | S fuel =>
    if decide (ssecCiphertextLenSize <= length lenBuf)%nat then (lenBuf, None, src)
    else
      let '(got, err, src) := Read src (ssecCiphertextLenSize - length lenBuf) in
      let lenBuf := lenBuf ++ got in
      match err with
      | Some EOF => if decide (0 < length lenBuf)%nat
                    then (lenBuf, Some (EFail "truncated chunk header"), src)
                    else (lenBuf, Some EOF, src)
      | Some e => (lenBuf, Some e, src)
      | None => readHeader fuel src lenBuf
      end
  end.

Definition rerr_msg (e : rerr) : string :=
  match e with
  | EOF => "EOF"
  | ErrUnexpectedEOF => "unexpected EOF"
  | EFail m => m
  end.

(** Opening one chunk once its bytes are read: any failure is reported as
    "decryption failed". *)
Definition decryptChunk (key nonce : bytes) (chunkIdx : Z) (chunkData : bytes) (ctLen : nat)
  : res bytes :=
  let ciphertext := take ctLen chunkData in
  let authTag := drop ctLen chunkData in
  let derivedKey := deriveChunkKey key nonce chunkIdx in
  match aes_NewCipher derivedKey with
  | Err _ => Err "decryption failed"
  | Panic w => Panic w
  | Ok _ =>
    match gcm_Open derivedKey (chunkNonce nonce chunkIdx) (ciphertext ++ authTag) with
    | Err _ => Err "decryption failed"
    | r => r
    end
  end.

(** One [Read(p)] with [len(p) = n].  Every iteration that does not return
    consumes at least one byte of the source or sets [done]. *)
Fixpoint decRead (fuel : nat) (h : heap) (r : streamingDecryptReader) (n : nat)
  : res (bytes * option rerr * streamingDecryptReader) :=
  match fuel with
  | O => Panic "fuel"
  | S fuel =>
    if decide (0 < length (dr_outBuf r))%nat then
      Ok (take n (dr_outBuf r), None,
          mkDec (dr_source r) (dr_key r) (dr_nonce r) (dr_chunkIdx r)
                (drop n (dr_outBuf r)) (dr_done r) (dr_lenBuf r))
    else if dr_done r then Ok ([], Some EOF, r)
    else
      let '(lenBuf, err, src) :=
        readHeader (S ssecCiphertextLenSize) (dr_source r) (dr_lenBuf r) in
      match err with
      | Some e => Ok ([], Some e,
          mkDec src (dr_key r) (dr_nonce r) (dr_chunkIdx r) (dr_outBuf r) (dr_done r) lenBuf)
      | None =>
        let ctLenField := be32dec lenBuf in
        let isLast := negb (Z.land ctLenField ssecLastChunkMarker =? 0) in
        let ctLen := Z.to_nat (Z.land ctLenField (Z.lnot ssecLastChunkMarker mod 2 ^ 32)) in
        let '(chunkData, err, src) := ReadFull src (ctLen + ssecAuthTagSize) in
        let fail src e := Ok ([], Some (EFail e),
          mkDec src (dr_key r) (dr_nonce r) (dr_chunkIdx r) (dr_outBuf r) (dr_done r) []) in
        match err with
        | Some e => fail src ("failed to read chunk data: " +:+ rerr_msg e)
        | None =>
          match decryptChunk (slice h (dr_key r)) (dr_nonce r) (dr_chunkIdx r)
                             chunkData ctLen with
          | Err e => fail src e
          | Panic w => Panic w
          | Ok plaintext =>
            decRead fuel h
              (mkDec src (dr_key r) (dr_nonce r) (wrapU32 (dr_chunkIdx r + 1))
                     (dr_outBuf r ++ plaintext) (if isLast then true else dr_done r) []) n
          end
        end
      end
  end.

(** ** Draining a reader, as [io.ReadAll] or an [io.Copy] does

    [bufs] are the sizes of the buffers the consumer passes to [Read]; [None]
    when they run out before the reader reports its end. *)
Section Drain.
Context {R : Type} (read : R -> nat -> res (bytes * option rerr * R)).

Fixpoint drain (bufs : list nat) (r : R) (acc : bytes) : option (res bytes) :=
  match bufs with
  | [] => None
  | n :: bufs =>
    match read r n with
    | Panic w => Some (Panic w)
    | Err e => Some (Err e)
    | Ok (got, None, r') => drain bufs r' (acc ++ got)
    | Ok (got, Some EOF, _) => Some (Ok (acc ++ got))
    | Ok (got, Some e, _) => Some (Err (rerr_msg e))
    end
  end.
End Drain.
End Stream.
