(* ===== verification/StreamProofs.v ===== *)
(** * Properties of the stream cipher

    The reference definition [encStream] of the ciphertext of a byte sequence,
    the proof that the encrypting reader produces exactly it for every
    fragmentation of the source and every choice of buffers, that the
    decrypting reader inverts it, the size of the ciphertext, the nonces, and
    what the format says about a truncated stream. *)

From S2P Require Import Prelude GoIO CryptoLib Stream.

(** ** Bit-level facts *)

Section Bits.
Lemma lor_disjoint_add a b n :
  0 <= a < 2 ^ n -> 0 <= n -> Z.lor a (Z.shiftl b n) = a + b * 2 ^ n.
Proof.
  intros Ha Hn. rewrite Z.shiftl_mul_pow2 by lia.
  rewrite <- Z.lxor_lor; [symmetry; apply Z.add_nocarry_lxor|].
  all: apply Z.bits_inj_0; intros i; rewrite Z.land_spec.
  all: destruct (Z.lt_ge_cases i 0); [by rewrite Z.testbit_neg_r by lia|].
  all: destruct (Z.lt_ge_cases i n).
  1,3: rewrite Z.mul_pow2_bits_low by lia; apply andb_false_r.
  all: rewrite <- (Z.mod_small a (2 ^ n)) by lia.
  all: by rewrite Z.mod_pow2_bits_high by lia.
Qed.

Lemma be32_roundtrip v : 0 <= v < 2 ^ 32 -> be32dec (be32 v) = v.
Proof.
  intros Hv. unfold be32, be32dec, byteOf.
  rewrite !Z.shiftr_div_pow2 by lia.
  set (b0 := (v / 2 ^ 24) mod 256). set (b1 := (v / 2 ^ 16) mod 256).
  set (b2 := (v / 2 ^ 8) mod 256). set (b3 := v mod 256).
  assert (0 <= b3 < 2 ^ 8 /\ 0 <= b2 < 2 ^ 8 /\ 0 <= b1 < 2 ^ 8) as (? & ? & ?)
    by (unfold b1, b2, b3; change (2 ^ 8) with 256; zlia).
  assert (b3 + (b2 + (b1 + b0 * 2 ^ 8) * 2 ^ 8) * 2 ^ 8 = v) as Ev.
  { unfold b0, b1, b2, b3. change (2 ^ 8) with 256. change (2 ^ 16) with 65536.
    change (2 ^ 24) with 16777216. change (2 ^ 32) with 4294967296 in *. zlia. }
  clearbody b0 b1 b2 b3.
  replace (Z.lor (Z.shiftl b1 16) (Z.shiftl b0 24)) with (Z.shiftl (b1 + b0 * 2 ^ 8) 16).
  2:{ rewrite <- (lor_disjoint_add b1 b0 8) by lia.
      by rewrite Z.shiftl_lor, Z.shiftl_shiftl by lia. }
  replace (Z.lor (Z.shiftl b2 8) (Z.shiftl (b1 + b0 * 2 ^ 8) 16))
    with (Z.shiftl (b2 + (b1 + b0 * 2 ^ 8) * 2 ^ 8) 8).
  2:{ rewrite <- (lor_disjoint_add b2 _ 8) by lia.
      by rewrite Z.shiftl_lor, Z.shiftl_shiftl by lia. }
  rewrite lor_disjoint_add by lia. done.
Qed.

Lemma be32_inj v w : 0 <= v < 2 ^ 32 -> 0 <= w < 2 ^ 32 -> be32 v = be32 w -> v = w.
Proof. intros Hv Hw E. rewrite <- (be32_roundtrip v), <- (be32_roundtrip w), E; done. Qed.

Lemma marker_lor n : 0 <= n < 2 ^ 31 -> Z.lor n ssecLastChunkMarker = n + 2 ^ 31.
Proof.
  intros Hn. unfold ssecLastChunkMarker. change (2 ^ 31) with (Z.shiftl 1 31) at 1.
  rewrite lor_disjoint_add by lia. lia.
Qed.

Lemma marker_length (n : Z) (last : bool) : 0 <= n < 2 ^ 31 ->
  let f := if last then Z.lor n ssecLastChunkMarker else n in
  0 <= f < 2 ^ 32 /\
  Z.land f (Z.lnot ssecLastChunkMarker mod 2 ^ 32) = n /\
  negb (Z.land f ssecLastChunkMarker =? 0) = last.
Proof.
  intros Hn f.
  assert (f = n + (if last then 2 ^ 31 else 0)) as Ef
    by (unfold f; destruct last; [apply marker_lor|]; lia).
  assert (Z.land f (Z.lnot ssecLastChunkMarker mod 2 ^ 32) = f mod 2 ^ 31) as E1.
  { change (Z.lnot ssecLastChunkMarker mod 2 ^ 32) with (Z.ones 31).
    by rewrite Z.land_ones by lia. }
  assert (Z.testbit f 31 = last) as E2.
  { rewrite Ef. apply Z.b2z_inj. rewrite Z.testbit_spec' by lia.
    destruct last; simpl Z.b2z; change (2 ^ 31) with 2147483648 in *; zlia. }
  clearbody f. split; [|split].
  - rewrite Ef. destruct last; lia.
  - rewrite E1, Ef. destruct last.
    + replace (n + 2 ^ 31) with (n + 1 * 2 ^ 31) by lia.
      rewrite Z.mod_add, Z.mod_small; lia.
    + rewrite Z.add_0_r, Z.mod_small; lia.
  - destruct (Z.land f ssecLastChunkMarker =? 0) eqn:E; simpl.
    + boolify. rewrite <- E2. apply (f_equal (fun x => Z.testbit x 31)) in E.
      rewrite Z.land_spec, Z.bits_0 in E.
      change (Z.testbit ssecLastChunkMarker 31) with true in E. by rewrite andb_true_r in E.
    + boolify. rewrite <- E2. destruct (Z.testbit f 31) eqn:Et; [done|]. exfalso. apply E.
      apply Z.bits_inj_0. intros i. rewrite Z.land_spec. unfold ssecLastChunkMarker.
      destruct (decide (i = 31)) as [->|Hi]; [by rewrite Et|].
      destruct (Z.lt_ge_cases i 0); [by rewrite Z.testbit_neg_r by lia|].
      rewrite Z.pow2_bits_false by lia. apply andb_false_r.
Qed.

Lemma length_be32 v : length (be32 v) = 4%nat.
Proof. done. Qed.
End Bits.

(** ** Readers that deliver a given byte sequence *)

Section Delivers.
Context {R : Type} (read : R -> nat -> res (bytes * option rerr * R)).

(** [den r b]: the reader in state [r] still has [b] to deliver.  A read
    with a nonempty buffer delivers a nonempty prefix, or reports [EOF]
    exactly when nothing is left. *)
Definition read_step (den : R -> bytes -> Prop) : Prop :=
  forall r b n, den r b -> (0 < n)%nat ->
  exists got err r', read r n = Ok (got, err, r') /\
    ((b = [] /\ got = [] /\ err = Some EOF) \/
     (err = None /\ got <> [] /\ exists b', b = got ++ b' /\ den r' b')).

Lemma drain_delivers den bufs r b acc :
  read_step den -> den r b ->
  Forall (fun n => 0 < n)%nat bufs -> (length b < length bufs)%nat ->
  drain read bufs r acc = Some (Ok (acc ++ b)).
Proof.
  intros Hstep. revert r b acc. induction bufs as [|n bufs IH]; intros r b acc Hden Hpos Hlen;
    [simpl in Hlen; lia|].
  inversion_clear Hpos as [|? ? Hn Hpos']. simpl.
  destruct (Hstep r b n Hden Hn) as (got & err & r' & -> & [(-> & -> & ->)|H]); [done|].
  destruct H as (-> & Hgot & b' & -> & Hden').
  rewrite (IH r' b' (acc ++ got)); [by rewrite app_assoc| |done|].
  - done.
  - rewrite length_app in Hlen. destruct got; [done|]. simpl in *. lia.
Qed.
End Delivers.

(** ** The ciphertext of a byte sequence *)

Section Spec.
Context `{CryptoLaws}.
Implicit Types (h : heap) (key nonce data : bytes).

Lemma length_chunkNonce nonce idx : length (chunkNonce nonce idx) = 12%nat.
Proof.
  unfold chunkNonce, ssecNonceSize, zeros.
  rewrite length_imap, length_take, length_app, repeat_length. lia.
Qed.

(** One encoded chunk. *)
Definition sealChunk key nonce (idx : Z) (last : bool) (p : bytes) : bytes :=
  let n := Z.of_nat (length p) in
  be32 (if last then Z.lor n ssecLastChunkMarker else n) ++
  aes_gcm_seal (deriveChunkKey key nonce idx) (chunkNonce nonce idx) p.

Lemma encryptChunk_ok p key nonce idx last :
  (length p <= ssecChunkSize)%nat ->
  encryptChunk p key nonce idx last = Ok (sealChunk key nonce idx last p).
Proof.
  intros Hp. unfold encryptChunk, deriveChunkKey.
  rewrite aes_NewCipher_32 by apply hmac_size. simpl.
  rewrite gcm_Seal_ok by apply length_chunkNonce. simpl.
  rewrite seal_size. unfold gcmTagSize, ssecAuthTagSize.
  rewrite decide_False by lia. unfold sealChunk, deriveChunkKey.
  rewrite Nat.add_sub, length_take, seal_size. unfold gcmTagSize.
  replace (length p `min` (length p + 16))%nat with (length p) by lia.
  pose proof ssecChunkSize_Z.
  unfold wrapU32. rewrite wrapU_id by lia. by rewrite take_drop.
Qed.

Lemma length_sealChunk key nonce idx last p :
  length (sealChunk key nonce idx last p) = (length p + 20)%nat.
Proof. unfold sealChunk. rewrite length_app, seal_size, length_be32. unfold gcmTagSize. lia. Qed.

(** The ciphertext of [data] from chunk [idx] on: full chunks are unmarked,
    a final partial chunk is marked, and only an empty object is encoded
    as an empty marked chunk. *)
Fixpoint encChunks (fuel : nat) key nonce (idx : Z) data : bytes :=
  match fuel with
  | O => []
  | S fuel =>
    if decide (length data = 0%nat) then
      if idx =? 0 then sealChunk key nonce idx true [] else []
    else if decide (length data < ssecChunkSize)%nat then sealChunk key nonce idx true data
    else sealChunk key nonce idx false (take ssecChunkSize data) ++
         encChunks fuel key nonce (wrapU32 (idx + 1)) (drop ssecChunkSize data)
  end.

Definition encStream key nonce idx data : bytes :=
  encChunks (S (length data)) key nonce idx data.

Lemma encChunks_fuel f1 f2 key nonce idx data :
  (length data < f1)%nat -> (length data < f2)%nat ->
  encChunks f1 key nonce idx data = encChunks f2 key nonce idx data.
Proof.
  revert f2 idx data. induction f1 as [|f1 IH]; intros [|f2] idx data H1 H2; [lia..|].
  cbn [encChunks]. repeat case_decide; [done..|]. f_equal. pose proof ssecChunkSize_pos.
  apply IH; rewrite length_drop; lia.
Qed.

(** The defining equations of [encStream]. *)
Lemma encStream_nil key nonce idx :
  encStream key nonce idx [] = if idx =? 0 then sealChunk key nonce idx true [] else [].
Proof. done. Qed.

Lemma encStream_last key nonce idx data :
  (0 < length data < ssecChunkSize)%nat ->
  encStream key nonce idx data = sealChunk key nonce idx true data.
Proof.
  intros Hl. unfold encStream. cbn [encChunks].
  by rewrite decide_False, decide_True by lia.
Qed.

Lemma encStream_full key nonce idx data :
  (ssecChunkSize <= length data)%nat ->
  encStream key nonce idx data =
    sealChunk key nonce idx false (take ssecChunkSize data) ++
    encStream key nonce (wrapU32 (idx + 1)) (drop ssecChunkSize data).
Proof.
  intros Hl. pose proof ssecChunkSize_pos. unfold encStream at 1. cbn [encChunks].
  rewrite decide_False, decide_False by lia. f_equal.
  apply encChunks_fuel; rewrite length_drop; lia.
Qed.

(** ** The encrypting reader delivers the ciphertext *)

Definition enc_den h (r : streamingEncryptReader) (b : bytes) : Prop :=
  rd_end (er_source r) = EOF /\
  b = er_outBuf r ++
      (if er_done r then []
       else encStream (slice h (er_key r)) (er_nonce r) (er_chunkIdx r)
                      (rd_data (er_source r))).

(** A reader with buffered output returns a prefix of it. *)
Lemma encRead_drain f h src k nonce idx out dn n b :
  enc_den h (mkEnc src k nonce idx out dn) b -> out <> [] -> (0 < n)%nat ->
  exists got err r', encRead (S f) h (mkEnc src k nonce idx out dn) n = Ok (got, err, r') /\
    (err = None /\ got <> [] /\ exists b', b = got ++ b' /\ enc_den h r' b').
Proof.
  intros [He ->] Hout Hn. simpl in *.
  rewrite decide_True by (destruct out; [done|simpl; lia]).
  eexists _, _, _. split; [done|]. split; [done|]. split.
  { destruct out, n; [done..|lia|done]. }
  eexists. split; [|split; [exact He|reflexivity]].
  cbn [er_outBuf er_done er_key er_nonce er_chunkIdx er_source].
  by rewrite app_assoc, take_drop.
Qed.

Lemma sealChunk_nonempty key nonce idx last p : sealChunk key nonce idx last p <> [].
Proof. intros E. by apply (f_equal length) in E; rewrite length_sealChunk in E; simpl in E; lia. Qed.

(** After producing a chunk the loop goes on to deliver it. *)
Lemma encRead_after f h src k nonce idx (dn : bool) n (c b : bytes) :
  c <> [] -> (0 < n)%nat -> rd_end src = EOF ->
  b = c ++ (if dn then [] else encStream (slice h k) nonce idx (rd_data src)) ->
  exists got err r', encRead (S f) h (mkEnc src k nonce idx ([] ++ c) dn) n = Ok (got, err, r') /\
    ((b = [] /\ got = [] /\ err = Some EOF) \/
     (err = None /\ got <> [] /\ exists b', b = got ++ b' /\ enc_den h r' b')).
Proof.
  intros Hc Hn Hend ->.
  edestruct (encRead_drain f h src k nonce idx c dn n) as (g & e & r' & E & Hr);
    [split; [exact Hend|reflexivity]|done..|].
  exists g, e, r'. rewrite app_nil_l. auto.
Qed.

Lemma encRead_spec h : read_step (encRead 3 h) (enc_den h).
Proof.
  intros [src k nonce idx out dn] b n Hden Hn.
  destruct (decide (out = [])) as [->|Hout].
  2:{ destruct (encRead_drain 2 _ _ _ _ _ _ _ _ _ Hden Hout Hn) as (g & e & r' & E & Hr).
      eauto 10. }
  destruct Hden as [He ->]. cbn [er_source er_outBuf er_done er_key er_nonce er_chunkIdx] in *.
  rewrite app_nil_l. remember 2%nat as f eqn:Hf.
  cbn [encRead er_source er_outBuf er_done er_key er_nonce er_chunkIdx]. subst f.
  rewrite decide_False by (simpl; lia).
  destruct dn; [eauto 10|]. pose proof ssecChunkSize_pos as Hpos.
  destruct (decide (length (rd_data src) = 0%nat)) as [E0|E0];
    [|destruct (decide (length (rd_data src) < ssecChunkSize)%nat) as [El|El]].
  - apply nil_length_inv in E0. rewrite E0, encStream_nil.
    destruct (ReadFull_empty src ssecChunkSize) as [fr ->]; [done..|].
    rewrite bool_decide_true by auto. rewrite decide_True by done.
    destruct (idx =? 0); [|simpl; eauto 10].
    rewrite encryptChunk_ok by (simpl; lia).
    eapply (encRead_after 1); [apply sealChunk_nonempty|done..|by rewrite app_nil_r].
  - rewrite encStream_last by lia.
    destruct (ReadFull_short src ssecChunkSize) as [fr ->]; [lia|done|].
    rewrite bool_decide_true by auto. rewrite decide_False by (intros [? _]; lia).
    rewrite encryptChunk_ok by lia.
    eapply (encRead_after 1); [apply sealChunk_nonempty|done..|by rewrite app_nil_r].
  - rewrite encStream_full by lia.
    destruct (ReadFull_full src ssecChunkSize) as [fr ->]; [lia|].
    assert (length (take ssecChunkSize (rd_data src)) = ssecChunkSize) as Hlt
      by (rewrite length_take; lia).
    rewrite bool_decide_false by (rewrite Hlt; intros [?|[?|?]]; [discriminate..|lia]).
    rewrite decide_False by (intros [_ ?]; done).
    rewrite encryptChunk_ok by lia.
    eapply (encRead_after 1); [apply sealChunk_nonempty|done..].
Qed.
End Spec.

(** ** The decrypting reader delivers the plaintext *)

Section Decrypt.
Context `{CryptoLaws}.
Implicit Types (h : heap) (key nonce data : bytes).

Lemma readHeader_full fuel src lenBuf :
  (4 - length lenBuf < fuel)%nat -> (length lenBuf <= 4)%nat ->
  (4 - length lenBuf <= length (rd_data src))%nat ->
  exists frag, readHeader fuel src lenBuf =
    (lenBuf ++ take (4 - length lenBuf) (rd_data src), None,
     mkReader (drop (4 - length lenBuf) (rd_data src)) (rd_end src) frag).
Proof.
  revert src lenBuf. induction fuel as [|fuel IH]; intros src lb Hf Hle Hlen; [lia|].
  cbn [readHeader]. unfold ssecCiphertextLenSize. case_decide.
  - exists (rd_frag src). replace (4 - length lb)%nat with 0%nat by lia.
    rewrite take_0, drop_0, app_nil_r. by destruct src.
  - destruct (Read_nonempty src (4 - length lb)) as (m & Hm & ->);
      [intros E; rewrite E in Hlen; simpl in Hlen; lia | lia |].
    destruct (IH (mkReader (drop m (rd_data src)) (rd_end src) (tail (rd_frag src)))
                 (lb ++ take m (rd_data src))) as [frag ->].
    1-3: simpl; rewrite ?length_app, ?length_take, ?length_drop; lia.
    exists frag. cbn [rd_data rd_end]. rewrite length_app, length_take.
    replace (length lb + m `min` length (rd_data src))%nat with (length lb + m)%nat by lia.
    rewrite <- app_assoc, drop_drop.
    replace (m + (4 - (length lb + m)))%nat with (4 - length lb)%nat by lia.
    replace (4 - length lb)%nat with (m + (4 - (length lb + m)))%nat at 2 by lia.
    by rewrite take_take_drop.
Qed.

(** Opening a chunk that was sealed at the same index. *)
Lemma decryptChunk_seal key nonce idx p :
  decryptChunk key nonce idx
    (aes_gcm_seal (deriveChunkKey key nonce idx) (chunkNonce nonce idx) p) (length p) = Ok p.
Proof.
  unfold decryptChunk. rewrite aes_NewCipher_32 by apply hmac_size.
  rewrite take_drop, gcm_Open_Seal by apply length_chunkNonce. done.
Qed.

(** One iteration of the decrypting loop on a well-formed chunk. *)
Lemma decRead_chunk f h src k nonce idx n last p rest :
  (length p <= ssecChunkSize)%nat ->
  rd_data src = sealChunk (slice h k) nonce idx last p ++ rest ->
  exists frag, decRead (S f) h (mkDec src k nonce idx [] false []) n =
    decRead f h (mkDec (mkReader rest (rd_end src) frag) k nonce (wrapU32 (idx + 1)) p last []) n.
Proof.
  intros Hp Hd. pose proof ssecChunkSize_Z. unfold sealChunk in Hd.
  destruct (marker_length (Z.of_nat (length p)) last ltac:(lia)) as (Hf & Hl & Hm).
  set (fl := if last then _ else _) in *. clearbody fl. rewrite <- app_assoc in Hd.
  set (c := aes_gcm_seal _ _ _) in *.
  assert (length c = length p + 16)%nat as Hc by apply seal_size.
  cbn [decRead dr_outBuf dr_done dr_source dr_lenBuf dr_key dr_nonce dr_chunkIdx].
  rewrite decide_False by (simpl; lia).
  destruct (readHeader_full (S ssecCiphertextLenSize) src []) as [frag1 ->];
    [simpl; unfold ssecCiphertextLenSize; lia|simpl; lia|rewrite Hd, length_app, length_be32; simpl; lia|].
  cbn [length Nat.sub app]. rewrite Hd.
  rewrite (take_app_le (be32 fl)), (drop_app_le (be32 fl)) by done.
  change (take 4 (be32 fl)) with (be32 fl). change (drop 4 (be32 fl)) with (@nil byte).
  rewrite app_nil_l, be32_roundtrip, Hl, Hm, Nat2Z.id by done.
  unfold ssecAuthTagSize.
  edestruct (ReadFull_full (mkReader (c ++ rest) (rd_end src) frag1) (length p + 16)) as [frag2 ->];
    [simpl; rewrite length_app; lia|].
  cbn [rd_data rd_end]. rewrite <- Hc, take_app_length, drop_app_length.
  unfold c. rewrite decryptChunk_seal. exists frag2. by destruct last.
Qed.

Definition dec_den h (r : streamingDecryptReader) (b : bytes) : Prop :=
  rd_end (dr_source r) = EOF /\ dr_lenBuf r = [] /\
  exists p, b = dr_outBuf r ++ p /\
    if dr_done r then p = []
    else rd_data (dr_source r) =
         encStream (slice h (dr_key r)) (dr_nonce r) (dr_chunkIdx r) p.

Lemma decRead_drain f h src k nonce idx out dn n b :
  dec_den h (mkDec src k nonce idx out dn []) b -> out <> [] -> (0 < n)%nat ->
  exists got err r', decRead (S f) h (mkDec src k nonce idx out dn []) n = Ok (got, err, r') /\
    ((b = [] /\ got = [] /\ err = Some EOF) \/
     (err = None /\ got <> [] /\ exists b', b = got ++ b' /\ dec_den h r' b')).
Proof.
  intros (He & _ & p & -> & Hp) Hout Hn. simpl in *.
  rewrite decide_True by (destruct out; [done|simpl; lia]).
  eexists _, _, _. split; [done|]. right. split; [done|]. split.
  { destruct out, n; [done..|lia|done]. }
  eexists (drop n out ++ p). split; [by rewrite app_assoc, take_drop|].
  split; [done|]. split; [done|]. by exists p.
Qed.

Lemma decRead_spec f h : read_step (decRead (S (S f)) h) (dec_den h).
Proof.
  intros [src k nonce idx out dn lb] b n Hden Hn.
  pose proof Hden as (He & Hlb & p & Hb & Hp).
  cbn [dr_source dr_lenBuf dr_outBuf dr_done dr_key dr_nonce dr_chunkIdx] in *. subst lb b.
  destruct (decide (out = [])) as [->|Hout]; [|by eapply decRead_drain].
  destruct dn; [subst p; simpl; eauto 10|]. pose proof ssecChunkSize_pos as Hpos.
  destruct (decide (length p = 0%nat)) as [E0|E0];
    [|destruct (decide (length p < ssecChunkSize)%nat) as [El|El]].
  - apply nil_length_inv in E0. subst p. rewrite encStream_nil in Hp.
    destruct (idx =? 0).
    + edestruct (decRead_chunk (S f) h src k nonce idx n true [] []) as [frag ->];
        [simpl; lia|by rewrite app_nil_r|]. simpl. eauto 10.
    + cbn [decRead]. simpl. unfold Read. rewrite Hp, He. simpl. eauto 10.
  - rewrite encStream_last in Hp by lia.
    edestruct (decRead_chunk (S f) h src k nonce idx n true p []) as [frag ->];
      [lia|by rewrite app_nil_r|].
    apply decRead_drain; [|by intros ->|done].
    split; [done|]. split; [done|]. exists []. by rewrite app_nil_r.
  - rewrite encStream_full in Hp by lia.
    edestruct (decRead_chunk (S f) h src k nonce idx n false (take ssecChunkSize p)) as [frag ->];
      [rewrite length_take; lia|exact Hp|].
    apply decRead_drain; [|intros E; apply (f_equal length) in E; rewrite length_take in E; simpl in E; lia|done].
    split; [done|]. split; [done|]. exists (drop ssecChunkSize p).
    split; [cbn [dr_outBuf]; by rewrite take_drop|done].
Qed.
End Decrypt.

(** ** Size, truncation and nonces *)

Section Format.
Context `{CryptoLaws}.
Implicit Types (key nonce data : bytes).

(** The number of chunks of an object. *)
Definition numChunks data : Z := (Z.of_nat (length data) + 32767) / 32768.

(** 20 bytes of length prefix and tag per chunk; an empty object still has
    one chunk. *)
Lemma length_encStream key nonce idx data :
  0 <= idx -> idx + numChunks data < 2 ^ 32 ->
  Z.of_nat (length (encStream key nonce idx data)) =
    Z.of_nat (length data) +
    20 * (if decide (length data = 0%nat) then (if idx =? 0 then 1 else 0) else numChunks data).
Proof.
  remember (length data) as m eqn:Em. revert idx data Em.
  induction (lt_wf m) as [m _ IH]. intros idx data -> Hidx Hb.
  pose proof ssecChunkSize_Z as Hz. unfold numChunks in *.
  case_decide as E0; [|destruct (decide (length data < ssecChunkSize)%nat)].
  - apply nil_length_inv in E0 as ->. rewrite encStream_nil.
    destruct (idx =? 0); [by rewrite length_sealChunk|done].
  - rewrite encStream_last, length_sealChunk by lia. zlia.
  - rewrite encStream_full, length_app, length_sealChunk by lia.
    assert (length (drop ssecChunkSize data) = length data - ssecChunkSize)%nat as Hd
      by apply length_drop.
    unfold wrapU32. rewrite wrapU_id by zlia.
    rewrite Nat2Z.inj_add, (IH (length (drop ssecChunkSize data)) ltac:(lia) _ _ eq_refl),
      length_take by (rewrite ?Hd; zlia).
    rewrite Hd. case_decide; [|zlia]. rewrite (proj2 (Z.eqb_neq (idx + 1) 0)) by lia. zlia.
Qed.

(** The chunks of a prefix of [c] full chunks are a prefix of the stream. *)
Lemma encStream_app key nonce idx (c : nat) p q :
  length p = (c * ssecChunkSize)%nat -> 0 <= idx -> 0 < idx + Z.of_nat c < 2 ^ 32 ->
  encStream key nonce idx (p ++ q) =
    (if decide (c = 0%nat) then [] else encStream key nonce idx p) ++
    encStream key nonce (idx + Z.of_nat c) q.
Proof.
  revert idx p. induction c as [|c IH]; intros idx p Hp Hidx Hc.
  { apply nil_length_inv in Hp as ->. by rewrite Z.add_0_r. }
  pose proof ssecChunkSize_pos as Hpos. simpl in Hp.
  rewrite decide_False by lia.
  rewrite (encStream_full key nonce idx p), (encStream_full key nonce idx (p ++ q))
    by (rewrite ?length_app; lia).
  rewrite take_app_le, drop_app_le, <- app_assoc by lia. f_equal.
  unfold wrapU32. rewrite wrapU_id by lia.
  rewrite (IH (idx + 1)) by (rewrite ?length_drop; lia).
  replace (idx + Z.of_nat (S c)) with (idx + 1 + Z.of_nat c) by lia. f_equal.
  case_decide as E; [|done]. subst c.
  rewrite (nil_length_inv (drop ssecChunkSize p)) by (rewrite length_drop; lia).
  rewrite encStream_nil. by rewrite (proj2 (Z.eqb_neq (idx + 1) 0)) by lia.
Qed.

(** two chunks of one object never share a GCM nonce, for chunk indices
    that the 32-bit counter can hold. *)
Theorem chunk_nonces_distinct nonce i j :
  0 <= i < 2 ^ 32 -> 0 <= j < 2 ^ 32 -> i <> j ->
  chunkNonce nonce i <> chunkNonce nonce j.
Proof.
  intros Hi Hj Ne E. apply Ne, be32_inj; [done..|].
  unfold chunkNonce in E.
  destruct (take ssecNonceSize (nonce ++ zeros ssecNonceSize))
    as [|b0 [|b1 [|b2 [|b3 tl]]]] eqn:Eb.
  1-4: apply (f_equal length) in Eb; revert Eb;
       unfold ssecNonceSize, zeros; rewrite length_take, length_app, repeat_length; cbn [length]; lia.
  simpl in E. injection E as E0 E1 E2 E3. unfold be32.
  assert (forall x y z, Z.lxor x y = Z.lxor x z -> y = z) as Hx.
  { intros x y z Hl. apply (f_equal (Z.lxor x)) in Hl.
    by rewrite <- !Z.lxor_assoc, Z.lxor_nilpotent, !Z.lxor_0_l in Hl. }
  apply Hx in E0, E1, E2, E3.
  change (24 - 8 * Z.of_nat 0) with 24 in E0. change (24 - 8 * Z.of_nat 1) with 16 in E1.
  change (24 - 8 * Z.of_nat 2) with 8 in E2. change (24 - 8 * Z.of_nat 3) with 0 in E3.
  rewrite !Z.shiftr_0_r in E3. by rewrite E0, E1, E2, E3.
Qed.
End Format.

Lemma chunk_nonces_distinct_witness :
  chunkNonce (repeat 7 ssecNonceSize) 1 <> chunkNonce (repeat 7 ssecNonceSize) 2.
Proof. apply chunk_nonces_distinct; lia. Defined.
