(* ===== verification/Token.v ===== *)
(** * The token service

    src/internal/services/token_service/service.go: delegation tokens are
    issued with an expiry, signed with Ed25519 over their JSON encoding,
    recorded, validated and revoked; every call appends to a bounded audit
    log.  [marshalToken] stands for [json.Marshal] of a token.  A random token
    id and the clock readings of a call are arguments. *)

From S2P Require Import Prelude CryptoLib.

Inductive TokenType := TokenTypeWrite | TokenTypeRead | TokenTypeDelete.

#[global] Instance TokenType_eq_dec : EqDecision TokenType.
Proof. solve_decision. Defined.

Definition TokenType_num (t : TokenType) : string :=
  match t with TokenTypeWrite => "0" | TokenTypeRead => "1" | TokenTypeDelete => "2" end.

Record TokenRecord := mkTokenRecord {
  tr_TokenID : string;
  tr_TokenType : TokenType;
  tr_UserID : string;
  tr_Bucket : string;
  tr_ObjectKey : string;
  tr_IssuedAt : Time;
  tr_ExpiresAt : Time;
  tr_Revoked : bool
}.

Record DelegationToken := mkToken {
  tk_TokenID : string;
  tk_TokenType : TokenType;
  tk_UserID : string;
  tk_Bucket : string;
  tk_ObjectKey : string;
  tk_Expiry : Time;
  tk_CreatedAt : Time;
  tk_Operations : list string;
  tk_ContentHash : string;
  tk_Signature : option bytes      (** [nil] before signing *)
}.

Record AuditEntry := mkAudit {
  au_Timestamp : Time;
  au_Operation : string;
  au_TokenID : string;
  au_UserID : string;
  au_Bucket : string;
  au_ObjectKey : string;
  au_Result : string
}.

(** [clone := *token; clone.Signature = sig]. *)
Definition with_signature (sig : option bytes) (t : DelegationToken) : DelegationToken :=
  mkToken (tk_TokenID t) (tk_TokenType t) (tk_UserID t) (tk_Bucket t) (tk_ObjectKey t)
          (tk_Expiry t) (tk_CreatedAt t) (tk_Operations t) (tk_ContentHash t) sig.

Lemma with_signature_twice a b t : with_signature a (with_signature b t) = with_signature a t.
Proof. done. Qed.

Lemma tk_Signature_set a t : tk_Signature (with_signature a t) = a.
Proof. done. Qed.

Definition revoked (r : TokenRecord) : TokenRecord :=
  mkTokenRecord (tr_TokenID r) (tr_TokenType r) (tr_UserID r) (tr_Bucket r) (tr_ObjectKey r)
                (tr_IssuedAt r) (tr_ExpiresAt r) true.

Section TokenService.
Context `{CryptoLib} (marshalToken : DelegationToken -> res bytes).

Record TokenService := mkTokenService {
  ts_signingPrivKey : edPriv;
  ts_signingPubKey : bytes;
  ts_keyID : string;
  ts_issuedTokens : gmap string TokenRecord;
  ts_audit : list AuditEntry;
  ts_auditMax : nat
}.

(** [NewTokenService], once the signing key and the key id are loaded or
    generated: empty tables, and 10000 audit entries by default. *)
Definition NewTokenService (priv : edPriv) (keyID : string) (AuditSize : Z) : TokenService :=
  let auditSize := if AuditSize <=? 0 then 10000 else AuditSize in
  mkTokenService priv (edPub priv) keyID ∅ [] (Z.to_nat auditSize).

Definition set_issued (m : gmap string TokenRecord) (s : TokenService) : TokenService :=
  mkTokenService (ts_signingPrivKey s) (ts_signingPubKey s) (ts_keyID s) m
                 (ts_audit s) (ts_auditMax s).

Definition logAudit (now : Time) (operation tokenID userID bucket objectKey result : string)
    (s : TokenService) : TokenService :=
  let entry := mkAudit now operation tokenID userID bucket objectKey result in
  mkTokenService (ts_signingPrivKey s) (ts_signingPubKey s) (ts_keyID s) (ts_issuedTokens s)
                 (boundedAppend (ts_auditMax s) (ts_audit s) entry) (ts_auditMax s).

(** [GetAuditLog(limit)]. *)
Definition GetAuditLog (s : TokenService) (limit : Z) : list AuditEntry :=
  let n := length (ts_audit s) in
  let limit := if decide (limit <= 0 \/ limit > Z.of_nat n) then n else Z.to_nat limit in
  lastn limit (ts_audit s).

Definition signToken (s : TokenService) (token : DelegationToken) : res DelegationToken :=
  data ← wrapErr "failed to marshal token" (marshalToken (with_signature None token));
  Ok (with_signature (Some (ed_sign (ts_signingPrivKey s) data)) token).

Definition verifyToken (s : TokenService) (token : DelegationToken) : res unit :=
  match tk_Signature token with
  | None => Err "token has no signature"
  | Some sig =>
    data ← wrapErr "failed to marshal token" (marshalToken (with_signature None token));
    if ed_verify (ts_signingPubKey s) data sig then Ok tt
    else Err "signature verification failed"
  end.

Definition recordToken (token : DelegationToken) (s : TokenService) : TokenService :=
  set_issued (<[tk_TokenID token :=
    mkTokenRecord (tk_TokenID token) (tk_TokenType token) (tk_UserID token) (tk_Bucket token)
                  (tk_ObjectKey token) (tk_CreatedAt token) (tk_Expiry token) false]>
    (ts_issuedTokens s)) s.

(** The common body of the three [Issue...Token] methods; [t1] and [t2] are
    the two clock readings ([Expiry], [CreatedAt]), [t3] the audit one. *)
Definition issueToken (ty : TokenType) (op auditOp : string) (id userID bucket objectKey
    contentHash : string) (ttlSeconds : Z) (t1 t2 t3 : Time) (s : TokenService)
  : TokenService * res DelegationToken :=
  let ttlSeconds := if ttlSeconds <=? 0 then 30 else ttlSeconds in
  let token := mkToken id ty userID bucket objectKey
                 (Add t1 (wrap64 (ttlSeconds * Second))) t2 [op] contentHash None in
  match wrapErr "failed to sign token" (signToken s token) with
  | Ok token =>
    (logAudit t3 auditOp id userID bucket objectKey "success" (recordToken token s), Ok token)
  | Err e => (s, Err e)
  | Panic w => (s, Panic w)
  end.

Definition IssueWriteToken id userID bucket objectKey ttl t1 t2 t3 s :=
  issueToken TokenTypeWrite "encrypt" "issue_write" id userID bucket objectKey "" ttl t1 t2 t3 s.
Definition IssueReadToken id userID bucket objectKey contentHash ttl t1 t2 t3 s :=
  issueToken TokenTypeRead "decrypt" "issue_read" id userID bucket objectKey contentHash ttl t1 t2 t3 s.
Definition IssueDeleteToken id userID bucket objectKey ttl t1 t2 t3 s :=
  issueToken TokenTypeDelete "delete" "issue_delete" id userID bucket objectKey "" ttl t1 t2 t3 s.

(** [ValidateToken]: expiry, signature, type, revocation, in this order. *)
Definition ValidateToken (token : DelegationToken) (expectedType : TokenType) (now : Time)
    (s : TokenService) : TokenService * res unit :=
  let audit r := logAudit now "validate" (tk_TokenID token) (tk_UserID token)
                          (tk_Bucket token) (tk_ObjectKey token) r s in
  if After now (tk_Expiry token) then (audit "expired", Err "token expired")
  else match verifyToken s token with
  | Err e => (audit "invalid_signature", Err ("invalid signature: " +:+ e))
  | Panic w => (s, Panic w)
  | Ok _ =>
    if decide (tk_TokenType token = expectedType) then
      match ts_issuedTokens s !! tk_TokenID token with
      | Some r => if tr_Revoked r then (audit "revoked", Err "token revoked")
                  else (audit "valid", Ok tt)
      | None => (audit "valid", Ok tt)
      end
    else (audit "wrong_type",
          Err ("wrong token type: expected " +:+ TokenType_num expectedType +:+
               ", got " +:+ TokenType_num (tk_TokenType token)))
  end.

Definition RevokeToken (tokenID : string) (now : Time) (s : TokenService)
  : TokenService * res unit :=
  match ts_issuedTokens s !! tokenID with
  | None => (s, Err "token not found")
  | Some r =>
    (logAudit now "revoke" tokenID (tr_UserID r) (tr_Bucket r) (tr_ObjectKey r) "success"
       (set_issued (<[tokenID := revoked r]> (ts_issuedTokens s)) s), Ok tt)
  end.

(** [GetPublicKey] and [Close], which zeroes the private key. *)
Definition GetPublicKey (s : TokenService) : bytes * string := (ts_signingPubKey s, ts_keyID s).
Definition Close (s : TokenService) : TokenService :=
  mkTokenService edZero (ts_signingPubKey s) (ts_keyID s) (ts_issuedTokens s)
                 (ts_audit s) (ts_auditMax s).

(** ** The service as a state machine *)

Inductive token_step : TokenService -> TokenService -> Prop :=
| step_issue ty op aop id u b k h ttl t1 t2 t3 s :
    ts_issuedTokens s !! id = None ->        (** 128 random bits: ids do not repeat *)
    token_step s (issueToken ty op aop id u b k h ttl t1 t2 t3 s).1
| step_validate tok ty now s : token_step s (ValidateToken tok ty now s).1
| step_revoke id now s : token_step s (RevokeToken id now s).1
| step_close s : token_step s (Close s).

(** Well-formedness: the audit log is bounded, records sit under their id. *)
Definition token_inv (s : TokenService) : Prop :=
  (length (ts_audit s) <= ts_auditMax s)%nat /\
  map_Forall (fun id r => tr_TokenID r = id) (ts_issuedTokens s).

Lemma logAudit_inv now o i u b k r s : token_inv s -> token_inv (logAudit now o i u b k r s).
Proof. intros [Hb Hi]. split; [by apply boundedAppend_bound|done]. Qed.
Hint Resolve logAudit_inv : cipherlake.

Lemma recordToken_inv t s : token_inv s -> token_inv (recordToken t s).
Proof. intros [Hb Hi]. split; [done|]. by apply map_Forall_insert_2. Qed.
Hint Resolve recordToken_inv : cipherlake.

Lemma revoke_record_inv id r s :
  ts_issuedTokens s !! id = Some r -> token_inv s ->
  token_inv (set_issued (<[id := revoked r]> (ts_issuedTokens s)) s).
Proof.
  intros Hr [Hb Hi]. split; [done|]. apply map_Forall_insert_2; [|done]. exact (Hi _ _ Hr).
Qed.
Hint Resolve revoke_record_inv : cipherlake.

Lemma issueToken_inv ty op aop id u b k h ttl t1 t2 t3 s :
  token_inv s -> token_inv (issueToken ty op aop id u b k h ttl t1 t2 t3 s).1.
Proof. intros Hs. unfold issueToken. repeat case_match_goal; cbn [fst]; auto with cipherlake. Qed.

Lemma ValidateToken_inv tok ty now s : token_inv s -> token_inv (ValidateToken tok ty now s).1.
Proof. intros Hs. unfold ValidateToken. repeat case_match_goal; cbn [fst]; auto with cipherlake. Qed.

Lemma RevokeToken_inv id now s : token_inv s -> token_inv (RevokeToken id now s).1.
Proof. intros Hs. unfold RevokeToken. case_match_goal; cbn [fst]; eauto with cipherlake. Qed.

Lemma token_step_inv s s' : token_step s s' -> token_inv s -> token_inv s'.
Proof.
  intros [] Hs; [by apply issueToken_inv|by apply ValidateToken_inv|by apply RevokeToken_inv|].
  exact Hs.
Qed.

(** A revoked id stays revoked under every step. *)
Definition is_revoked (id : string) (s : TokenService) : Prop :=
  exists r, ts_issuedTokens s !! id = Some r /\ tr_Revoked r = true.

Lemma token_step_revoked id s s' : token_step s s' -> is_revoked id s -> is_revoked id s'.
Proof.
  intros Hstep (r & Hr & Hrev). unfold is_revoked.
  destruct Hstep as [? ? ? id' ? ? ? ? ? ? ? ? ? Hfresh| | |]; [| | |by eauto].
  - unfold issueToken, signToken. destruct (marshalToken _); simpl; [|by eauto..].
    rewrite lookup_insert_ne by congruence. eauto.
  - unfold ValidateToken. repeat case_match_goal; simpl; eauto.
  - unfold RevokeToken. destruct (ts_issuedTokens s !! id0) as [r0|] eqn:E0; simpl; [|by eauto].
    destruct (decide (id0 = id)) as [->|Hne].
    + rewrite lookup_insert_eq. eauto.
    + rewrite lookup_insert_ne by done. eauto.
Qed.

Lemma ValidateToken_revoked tok ty now s :
  is_revoked (tk_TokenID tok) s -> (ValidateToken tok ty now s).2 <> Ok tt.
Proof.
  intros (r & Hr & Hrev). unfold ValidateToken. rewrite Hr, Hrev.
  repeat case_match_goal; simpl; done.
Qed.

End TokenService.
