(* ===== verification/Keys.v ===== *)
(** * The key store service

    src/internal/services/keystore_service/service.go: encrypted DEKs are
    cached in memory under "bucket/objectKey" and written to one file per key.
    A file is identified by its bucket directory and its base64-encoded object
    key, so the disk is a map from (bucket, objectKey) to the decoded content
    of the file ([None]: not valid JSON).  The outcome of file operations that
    depend on the machine (disk full, permissions) is an argument. *)

From S2P Require Import Prelude GoStrings CryptoLib Stream.

(** [services.EncryptedDEK]. *)
Record EncryptedDEK := mkEncryptedDEK {
  ed_EncryptedKey : bytes;
  ed_Algorithm : string;
  ed_KeyID : string;
  ed_KeyVersion : Z
}.

Record KeyEntry := mkKeyEntry {
  ke_KeyID : string;
  ke_Bucket : string;
  ke_ObjectKey : string;
  ke_EncryptedKey : bytes;
  ke_Algorithm : string;
  ke_KeyVersion : Z;
  ke_CreatedAt : Time;
  ke_ObjectSize : Z
}.

Record KeyAudit := mkKeyAudit {
  ka_Timestamp : Time;
  ka_Operation : string;
  ka_KeyID : string;
  ka_Bucket : string;
  ka_ObjectKey : string;
  ka_Result : string
}.

Record KeyStoreService := mkKeyStore {
  ks_keys : gmap string KeyEntry;
  ks_disk : gmap (string * string) (option KeyEntry);
  ks_audit : list KeyAudit;
  ks_auditMax : nat
}.

Definition set_keys (m : gmap string KeyEntry) (k : KeyStoreService) : KeyStoreService :=
  mkKeyStore m (ks_disk k) (ks_audit k) (ks_auditMax k).
Definition set_disk (d : gmap (string * string) (option KeyEntry)) (k : KeyStoreService)
  : KeyStoreService := mkKeyStore (ks_keys k) d (ks_audit k) (ks_auditMax k).

Definition ks_logAudit (now : Time) (operation keyID bucket objectKey result : string)
    (k : KeyStoreService) : KeyStoreService :=
  mkKeyStore (ks_keys k) (ks_disk k)
    (boundedAppend (ks_auditMax k) (ks_audit k)
                   (mkKeyAudit now operation keyID bucket objectKey result))
    (ks_auditMax k).

(** [fmt.Sprintf("%s/%s", bucket, objectKey)]. *)
Definition makeKeyIndex (bucket objectKey : string) : string := bucket +:+ "/" +:+ objectKey.

(** [loadAllKeys] over the files the directory listing enumerates. *)
Definition loadAllKeys (files : list (option KeyEntry)) (k : KeyStoreService) : KeyStoreService :=
  fold_left (fun k f =>
    match f with
    | Some e => set_keys (<[makeKeyIndex (ke_Bucket e) (ke_ObjectKey e) := e]> (ks_keys k)) k
    | None => k
    end) files k.

Definition NewKeyStoreService (AuditSize : Z) (disk : gmap (string * string) (option KeyEntry))
  : KeyStoreService :=
  let auditSize := if AuditSize <=? 0 then 10000 else AuditSize in
  loadAllKeys (snd <$> map_to_list disk) (mkKeyStore ∅ disk [] (Z.to_nat auditSize)).

(** [persistKey]: on success the file holds the entry. *)
Definition persistKey (io : res unit) (entry : KeyEntry) (k : KeyStoreService)
  : KeyStoreService * res unit :=
  match io with
  | Ok _ => (set_disk (<[(ke_Bucket entry, ke_ObjectKey entry) := Some entry]> (ks_disk k)) k, Ok tt)
  | e => (k, e)
  end.

(** [StoreKey]; [freshID] is the random id used when the DEK has none. *)
Definition StoreKey (bucket objectKey : string) (dek : EncryptedDEK) (objectSize : Z)
    (freshID : string) (now : Time) (io : res unit) (k : KeyStoreService)
  : KeyStoreService * res string :=
  let keyID := if decide (ed_KeyID dek = "") then freshID else ed_KeyID dek in
  let entry := mkKeyEntry keyID bucket objectKey (ed_EncryptedKey dek) (ed_Algorithm dek)
                          (ed_KeyVersion dek) now objectSize in
  let keyIndex := makeKeyIndex bucket objectKey in
  let k := set_keys (<[keyIndex := entry]> (ks_keys k)) k in
  match persistKey io entry k with
  | (k, Ok _) => (ks_logAudit now "store" keyID bucket objectKey "success" k, Ok keyID)
  | (k, Err e) => (set_keys (delete keyIndex (ks_keys k)) k, Err ("failed to persist key: " +:+ e))
  | (k, Panic w) => (k, Panic w)
  end.

(** [loadKey]: read and decode the file. *)
Definition loadKey (bucket objectKey : string) (k : KeyStoreService) : res KeyEntry :=
  match ks_disk k !! (bucket, objectKey) with
  | None => Err "failed to read key file"
  | Some None => Err "failed to unmarshal key entry"
  | Some (Some e) => Ok e
  end.

Definition dekOf (e : KeyEntry) : EncryptedDEK :=
  mkEncryptedDEK (ke_EncryptedKey e) (ke_Algorithm e) (ke_KeyID e) (ke_KeyVersion e).

(** [GetKey].  In the branch that loads the file the source declares a new
    variable [entry] ([entry, err := k.loadKey(...)]) that shadows the outer
    one; after the block the outer [entry] is still nil and [entry.KeyID]
    faults. *)
Definition GetKey (bucket objectKey : string) (now : Time) (k : KeyStoreService)
  : KeyStoreService * res EncryptedDEK :=
  let keyIndex := makeKeyIndex bucket objectKey in
  match ks_keys k !! keyIndex with
  | Some entry =>
    (ks_logAudit now "get" (ke_KeyID entry) bucket objectKey "success" k, Ok (dekOf entry))
  | None =>
    match loadKey bucket objectKey k with
    | Ok loaded =>
      (set_keys (<[keyIndex := loaded]> (ks_keys k)) k, Panic "nil pointer dereference")
    | Err _ | Panic _ =>
      (ks_logAudit now "get" "" bucket objectKey "not_found" k,
       Err ("key not found for " +:+ bucket +:+ "/" +:+ objectKey))
    end
  end.

(** [DeleteKey]: the cache first, then the file; removing a file that does not
    exist is an error, and [io] is the outcome of removing one that does. *)
Definition DeleteKey (bucket objectKey : string) (now : Time) (io : res unit) (k : KeyStoreService)
  : KeyStoreService * res unit :=
  let keyIndex := makeKeyIndex bucket objectKey in
  let entry := ks_keys k !! keyIndex in
  let k := set_keys (delete keyIndex (ks_keys k)) k in
  let removed :=
    match ks_disk k !! (bucket, objectKey) with
    | None => Err "no such file or directory"
    | Some _ => io
    end in
  match removed with
  | Err e => (ks_logAudit now "delete" "" bucket objectKey "error" k,
              Err ("failed to delete key file: " +:+ e))
  | Panic w => (k, Panic w)
  | Ok _ =>
    let k := set_disk (delete (bucket, objectKey) (ks_disk k)) k in
    (ks_logAudit now "delete" (from_option ke_KeyID "" entry) bucket objectKey "success" k, Ok tt)
  end.

(** [ListKeys] over the entries in the order [enum] the map iteration yields
    them: the page and the total. *)
Definition ListKeys (enum : list KeyEntry) (bucket prefix : string) (limit offset : Z)
  : res (list KeyEntry * Z) :=
  let limit := if limit <=? 0 then 100 else limit in
  let results := List.filter (fun e => bool_decide (ke_Bucket e = bucket) &&
      (bool_decide (prefix = "") || HasPrefix (ke_ObjectKey e) prefix)) enum in
  let total := Z.of_nat (length results) in
  if offset >=? total then Ok ([], total)
  else
    let stop := wrap64 (offset + limit) in
    let stop := if stop >? total then total else stop in
    if decide (0 <= offset <= stop)
    then Ok (take (Z.to_nat (stop - offset)) (drop (Z.to_nat offset) results), total)
    else Panic "slice bounds out of range".

(** [GetStats]: the number of keys per bucket, and the totals. *)
Definition bucketCounts (enum : list KeyEntry) : gmap string Z :=
  fold_left (fun m e => <[ke_Bucket e := default 0 (m !! ke_Bucket e) + 1]> m) enum ∅.
Definition GetStats (k : KeyStoreService) : Z * gmap string Z * Z :=
  (Z.of_nat (size (ks_keys k)), bucketCounts (snd <$> map_to_list (ks_keys k)),
   Z.of_nat (length (ks_audit k))).

(** ** Facts *)

Lemma makeKeyIndex_inj b k b' k' :
  nochar slash b = true -> nochar slash b' = true ->
  makeKeyIndex b k = makeKeyIndex b' k' -> b = b' /\ k = k'.
Proof. intros Hb Hb' E. by apply (join_slash_inj slash). Qed.

Lemma GetKey_cached b k now s e :
  ks_keys s !! makeKeyIndex b k = Some e -> (GetKey b k now s).2 = Ok (dekOf e).
Proof. intros E. unfold GetKey. by rewrite E. Qed.

(** ** Key generation and key unwrapping

    src/internal/services/keygen_service/service.go and
    src/internal/services/keyunwrap_service/service.go: a data encryption key
    (DEK) is drawn at random, wrapped for storage with ECIES under the
    long-term public key, and sent to the client under a session key agreed by
    ephemeral ECDH; unwrapping inverts the first and repeats the second.  The
    values the code draws from [crypto/rand] (or the error of the draw) are
    the fields of a record that is an argument of each call. *)

(** [services.ECDHEncryptedDEK] (its EphemeralPublicKey is never set). *)
Record ECDHEncryptedDEK := mkECDHDEK {
  ee_Ciphertext : bytes;
  ee_Nonce : bytes
}.

Section Keys.
Context `{CryptoLib}.

(** ** Shared helpers *)

(** [hkdfDerive(secret, nil, info, 32)]. *)
Definition hkdfDerive (secret info : bytes) : bytes := hkdf_sha256 secret info.

(** [deriveSessionKey(sharedSecret, serverPub, clientPub)]. *)
Definition deriveSessionKey_srv (sharedSecret serverPub clientPub : bytes) : bytes :=
  hkdfDerive sharedSecret (serverPub ++ clientPub).

(** [deriveSymmetricKey(sharedSecret, ephemeralPub)]. *)
Definition deriveSymmetricKey (sharedSecret ephemeralPub : bytes) : bytes :=
  hkdfDerive sharedSecret ephemeralPub.

(** [encryptDEKWithSessionKey]: the same code in both services. *)
Definition encryptDEKWithSessionKey (dek sessionKey : bytes) (randNonce : res bytes)
  : res ECDHEncryptedDEK :=
  _ ← wrapErr "failed to create cipher" (aes_NewCipher sessionKey);
  nonce ← wrapErr "failed to generate nonce" (randBuf gcmNonceSize randNonce);
  ciphertext ← gcm_Seal sessionKey nonce dek;
  Ok (mkECDHDEK ciphertext nonce).

(** ** KeyGenService *)

(** The curve named in the configuration; P-256 by default. *)
Definition selectCurve (CurveName : string) : Curve :=
  if decide (CurveName = "P-256") then P256
  else if decide (CurveName = "P-384") then P384
  else if decide (CurveName = "P-521") then P521
  else P256.

Record KeyAuditEntry := mkKeyAuditEntry {
  kg_Timestamp : Time; kg_Operation : string; kg_KeyID : string; kg_TokenID : string;
  kg_UserID : string; kg_Bucket : string; kg_ObjectKey : string; kg_Result : string
}.

Record KeyGenService := mkKeyGen {
  kg_encryptPublicKey : bytes;      (** encoded long-term public key *)
  kg_keyID : string;
  kg_curve : Curve;
  kg_audit : list KeyAuditEntry;
  kg_auditMax : nat
}.

(** [NewKeyGenService]: the public key that was loaded, or else that of a
    freshly generated pair ([gen]) once both halves are saved ([saved]). *)
Definition NewKeyGenService (CurveName keyID : string) (AuditSize : Z) (loaded : option bytes)
    (gen : res ecPriv) (saved : res unit) : res KeyGenService :=
  let curve := selectCurve CurveName in
  let auditSize := if AuditSize <=? 0 then 10000 else AuditSize in
  pub ← match loaded with
        | Some pub => Ok pub
        | None =>
          priv ← wrapErr "failed to generate key pair" gen;
          _ ← saved;
          Ok (ecPub curve priv)
        end;
  Ok (mkKeyGen pub keyID curve [] (Z.to_nat auditSize)).

Definition kg_logAudit (e : KeyAuditEntry) (k : KeyGenService) : KeyGenService :=
  mkKeyGen (kg_encryptPublicKey k) (kg_keyID k) (kg_curve k)
           (boundedAppend (kg_auditMax k) (kg_audit k) e) (kg_auditMax k).

Record KeyGenRand := mkKeyGenRand {
  kr_dek : res bytes;            (** 32 random bytes *)
  kr_ecies : res ecPriv;         (** ECIES ephemeral key *)
  kr_eciesNonce : res bytes;
  kr_keyID : string;
  kr_session : res ecPriv;       (** session ECDH ephemeral key *)
  kr_sessionNonce : res bytes
}.

(** [encryptDEKWithPublicKey]: ECIES, encoded as
    [ephemeral_pub || nonce || ciphertext]. *)
Definition encryptDEKWithPublicKey (k : KeyGenService) (dek : bytes) (r : KeyGenRand)
  : res EncryptedDEK :=
  ephemeralPriv ← wrapErr "failed to generate ephemeral key" (kr_ecies r);
  let ephemeralPub := ecPub (kg_curve k) ephemeralPriv in
  let sharedSecret := ecdh (kg_curve k) ephemeralPriv (kg_encryptPublicKey k) in
  let symKey := deriveSymmetricKey sharedSecret ephemeralPub in
  _ ← wrapErr "failed to create cipher" (aes_NewCipher symKey);
  nonce ← wrapErr "failed to generate nonce" (randBuf gcmNonceSize (kr_eciesNonce r));
  ciphertext ← gcm_Seal symKey nonce dek;
  Ok (mkEncryptedDEK (ephemeralPub ++ nonce ++ ciphertext) "ECIES-P256-AES-256-GCM"
                     (kr_keyID r) 1).

(** [GenerateDataKey]: the wrapped DEK, the DEK under the session key, and
    the service's ephemeral public key. *)
Definition GenerateDataKey (tokenID userID bucket objectKey : string) (clientECDHPub : bytes)
    (r : KeyGenRand) (now : Time) (k : KeyGenService)
  : KeyGenService * res (EncryptedDEK * ECDHEncryptedDEK * bytes) :=
  let out :=
    dek ← wrapErr "failed to generate DEK" (randBuf 32 (kr_dek r));
    encryptedDEK ← wrapErr "failed to encrypt DEK with public key"
                     (encryptDEKWithPublicKey k dek r);
    ephemeralPriv ← wrapErr "failed to generate ephemeral ECDH key" (kr_session r);
    let ephemeralPub := ecPub P256 ephemeralPriv in
    if ecOnCurve P256 clientECDHPub then
      let sharedSecret := ecdh P256 ephemeralPriv clientECDHPub in
      let sessionKey := deriveSessionKey_srv sharedSecret ephemeralPub clientECDHPub in
      ecdhEncryptedDEK ← wrapErr "failed to encrypt DEK with session key"
                           (encryptDEKWithSessionKey dek sessionKey (kr_sessionNonce r));
      Ok (encryptedDEK, ecdhEncryptedDEK, ephemeralPub)
    else Err "failed to parse client ECDH public key" in
  match out with
  | Ok (encryptedDEK, _, _) =>
    (kg_logAudit (mkKeyAuditEntry now "generate" (ed_KeyID encryptedDEK) tokenID userID bucket
                    objectKey "success") k, out)
  | _ => (k, out)
  end.

Definition kg_GetPublicKey (k : KeyGenService) : bytes * string * string :=
  (kg_encryptPublicKey k, kg_keyID k, "ECIES-P256").

(** ** KeyUnwrapService *)

Record KeyUnwrapService := mkKeyUnwrap {
  ku_decryptPrivKey : ecPriv;
  ku_keyID : string;
  ku_curve : Curve;
  ku_audit : list KeyAuditEntry;
  ku_auditMax : nat
}.

(** [NewKeyUnwrapService].  Without a stored key a pair is generated and
    saved, but into a new variable that shadows [privKey]: the outer one is
    still nil when [privKey.Curve] is read. *)
Definition NewKeyUnwrapService (keyID : string) (AuditSize : Z)
    (loaded : option (Curve * ecPriv)) (gen : res ecPriv) (saved : res unit)
  : res KeyUnwrapService :=
  let auditSize := if AuditSize <=? 0 then 10000 else AuditSize in
  match loaded with
  | Some (curve, privKey) => Ok (mkKeyUnwrap privKey keyID curve [] (Z.to_nat auditSize))
  | None =>
    _ ← wrapErr "failed to generate key pair" gen;
    _ ← saved;
    Panic "nil pointer dereference"
  end.

Definition ku_logAudit (e : KeyAuditEntry) (k : KeyUnwrapService) : KeyUnwrapService :=
  mkKeyUnwrap (ku_decryptPrivKey k) (ku_keyID k) (ku_curve k)
              (boundedAppend (ku_auditMax k) (ku_audit k) e) (ku_auditMax k).

(** [decryptDEKWithPrivateKey]: the point is taken to be 65 bytes long, the
    size of a P-256 point. *)
Definition decryptDEKWithPrivateKey (k : KeyUnwrapService) (encryptedKey : bytes) : res bytes :=
  let pubKeyLen := 65%nat in
  if decide (length encryptedKey < pubKeyLen)%nat
  then Err "invalid encrypted key format: too short"
  else
    let ephemeralPub := take pubKeyLen encryptedKey in
    if ecOnCurve (ku_curve k) ephemeralPub then
      let sharedSecret := ecdh (ku_curve k) (ku_decryptPrivKey k) ephemeralPub in
      let symKey := deriveSymmetricKey sharedSecret ephemeralPub in
      let nonceLen := 12%nat in
      if decide (length encryptedKey < pubKeyLen + nonceLen)%nat
      then Err "invalid encrypted key format: missing nonce"
      else
        let nonce := take nonceLen (drop pubKeyLen encryptedKey) in
        let ciphertext := drop (pubKeyLen + nonceLen) encryptedKey in
        _ ← wrapErr "failed to create cipher" (aes_NewCipher symKey);
        wrapErr "failed to decrypt DEK" (gcm_Open symKey nonce ciphertext)
    else Err "failed to parse ephemeral public key".

Record KeyUnwrapRand := mkKeyUnwrapRand {
  ur_session : res ecPriv;
  ur_sessionNonce : res bytes
}.

Definition UnwrapKey (tokenID userID bucket objectKey : string) (encryptedDEK : EncryptedDEK)
    (clientECDHPub : bytes) (r : KeyUnwrapRand) (now : Time) (k : KeyUnwrapService)
  : KeyUnwrapService * res (ECDHEncryptedDEK * bytes) :=
  let out :=
    dek ← wrapErr "failed to decrypt DEK"
            (decryptDEKWithPrivateKey k (ed_EncryptedKey encryptedDEK));
    ephemeralPriv ← wrapErr "failed to generate ephemeral ECDH key" (ur_session r);
    let ephemeralPub := ecPub P256 ephemeralPriv in
    if ecOnCurve P256 clientECDHPub then
      let sharedSecret := ecdh P256 ephemeralPriv clientECDHPub in
      let sessionKey := deriveSessionKey_srv sharedSecret ephemeralPub clientECDHPub in
      ecdhEncryptedDEK ← wrapErr "failed to encrypt DEK with session key"
                           (encryptDEKWithSessionKey dek sessionKey (ur_sessionNonce r));
      Ok (ecdhEncryptedDEK, ephemeralPub)
    else Err "failed to parse client ECDH public key" in
  match out with
  | Ok _ =>
    (ku_logAudit (mkKeyAuditEntry now "unwrap" (ed_KeyID encryptedDEK) tokenID userID bucket
                    objectKey "success") k, out)
  | _ => (k, out)
  end.

(** ** The client side of the session (coordinator.go) *)

(** [deriveSessionKey(clientECDHPriv, serviceECDHPub)]. *)
Definition deriveSessionKey (clientECDHPriv : ecPriv) (serviceECDHPub : bytes) : res bytes :=
  if ecOnCurve P256 serviceECDHPub then
    let sharedSecret := ecdh P256 clientECDHPriv serviceECDHPub in
    let info := serviceECDHPub ++ ecPub P256 clientECDHPriv in
    Ok (hkdf_sha256 sharedSecret info)
  else Err "failed to parse service ECDH public key".

(** [unwrapDEK]. *)
Definition unwrapDEK (e : ECDHEncryptedDEK) (sessionKey : bytes) : res bytes :=
  _ ← wrapErr "failed to create cipher" (aes_NewCipher sessionKey);
  wrapErr "failed to decrypt DEK" (gcm_Open sessionKey (ee_Nonce e) (ee_Ciphertext e)).
End Keys.

(** ** Facts *)

Section Facts.
Context `{CryptoLaws}.

(** The client holding [client] recovers [dek] from a session message. *)
Definition recovers (client : ecPriv) (servicePub : bytes) (x : ECDHEncryptedDEK) (dek : bytes)
  : Prop :=
  exists sk, deriveSessionKey client servicePub = Ok sk /\ unwrapDEK x sk = Ok dek.

(** Both ends derive the same session key, so what a service sends under it
    is recovered by the client. *)
Lemma session_roundtrip client srv dek draw x :
  encryptDEKWithSessionKey dek
    (deriveSessionKey_srv (ecdh P256 srv (ecPub P256 client)) (ecPub P256 srv) (ecPub P256 client))
    draw = Ok x ->
  recovers client (ecPub P256 srv) x dek.
Proof.
  set (sk := deriveSessionKey_srv _ _ _).
  assert (length sk = 32%nat) as Hsk by apply hkdf_size.
  unfold encryptDEKWithSessionKey. rewrite aes_NewCipher_32 by done. simpl.
  destruct (randBuf gcmNonceSize draw) as [n| |] eqn:En; simpl; [|done..].
  apply randBuf_length in En. rewrite gcm_Seal_ok by done. simpl. intros [= <-].
  exists sk. split.
  - unfold deriveSessionKey. by rewrite pub_on_curve, ecdh_comm.
  - unfold unwrapDEK. rewrite aes_NewCipher_32 by done. simpl. by rewrite gcm_Open_Seal.
Qed.

(** [EncryptedKey] is a wrapping of [dek] for the private key. *)
Definition wraps (priv : ecPriv) (encryptedKey dek : bytes) : Prop :=
  exists e n, length n = 12%nat /\
    encryptedKey = ecPub P256 e ++ n ++
      aes_gcm_seal (deriveSymmetricKey (ecdh P256 e (ecPub P256 priv)) (ecPub P256 e)) n dek.

(** The parts of a parsed encoding [point || nonce || ciphertext]. *)
Lemma ecies_parse (p n c : bytes) : length p = 65%nat -> length n = 12%nat ->
  take 65 (p ++ n ++ c) = p /\ take 12 (drop 65 (p ++ n ++ c)) = n /\
  drop (65 + 12) (p ++ n ++ c) = c.
Proof.
  intros Hp Hn. rewrite <- drop_drop, (take_app_length' p), (drop_app_length' p) by done.
  by rewrite (take_app_length' n), (drop_app_length' n).
Qed.

Lemma encryptDEK_wraps priv kid am ka dek r d :
  encryptDEKWithPublicKey (mkKeyGen (ecPub P256 priv) kid P256 ka am) dek r = Ok d ->
  wraps priv (ed_EncryptedKey d) dek /\ ed_KeyID d = kr_keyID r.
Proof.
  unfold encryptDEKWithPublicKey. destruct (kr_ecies r) as [e| |]; simpl; [|done..].
  rewrite aes_NewCipher_32 by apply hkdf_size. simpl.
  destruct (randBuf gcmNonceSize _) as [n| |] eqn:En; simpl; [|done..].
  apply randBuf_length in En. rewrite gcm_Seal_ok by done. simpl. intros [= <-].
  split; [|done]. by exists e, n.
Qed.

(** ECIES: the private key opens what was wrapped under its public key. *)
Lemma decryptDEK_wraps priv id ck km ek dek :
  wraps priv ek dek -> decryptDEKWithPrivateKey (mkKeyUnwrap priv id P256 ck km) ek = Ok dek.
Proof.
  intros (e & n & Hn & ->). assert (length (ecPub P256 e) = 65%nat) as Hp by apply pub_size.
  unfold decryptDEKWithPrivateKey. cbn [ku_curve ku_decryptPrivKey].
  set (c := aes_gcm_seal _ _ _).
  destruct (ecies_parse (ecPub P256 e) n c Hp Hn) as (-> & -> & ->).
  rewrite !length_app, Hp, Hn, pub_on_curve, !decide_False by lia.
  rewrite aes_NewCipher_32 by apply hkdf_size. simpl. unfold c.
  by rewrite (ecdh_comm P256 priv e), gcm_Open_Seal.
Qed.

(** What a successful [GenerateDataKey] delivers. *)
Lemma GenerateDataKey_spec priv kid am ka tok u b k client r now k' d x pub :
  GenerateDataKey tok u b k (ecPub P256 client) r now (mkKeyGen (ecPub P256 priv) kid P256 ka am)
    = (k', Ok (d, x, pub)) ->
  exists dek, length dek = 32%nat /\ randBuf 32 (kr_dek r) = Ok dek /\
    wraps priv (ed_EncryptedKey d) dek /\ ed_KeyID d = kr_keyID r /\
    recovers client pub x dek /\
    kg_encryptPublicKey k' = ecPub P256 priv /\ kg_curve k' = P256.
Proof.
  unfold GenerateDataKey. destruct (randBuf 32 (kr_dek r)) as [dek| |] eqn:Ed; simpl; [|done..].
  destruct (encryptDEKWithPublicKey _ dek r) as [d0| |] eqn:Ee; simpl; [|done..].
  destruct (kr_session r) as [srv| |]; simpl; [|done..]. rewrite pub_on_curve.
  destruct (encryptDEKWithSessionKey _ _ _) as [x0| |] eqn:Ex; simpl; [|done..].
  intros [= <- <- <- <-]. apply encryptDEK_wraps in Ee as [Hw Hid].
  exists dek. split; [by eapply randBuf_length|]. eauto 10 using session_roundtrip.
Qed.

(** What a successful [UnwrapKey] delivers. *)
Lemma UnwrapKey_spec priv id ck km tok u b k d client r now k' x pub dek :
  wraps priv (ed_EncryptedKey d) dek ->
  UnwrapKey tok u b k d (ecPub P256 client) r now (mkKeyUnwrap priv id P256 ck km)
    = (k', Ok (x, pub)) ->
  recovers client pub x dek.
Proof.
  intros Hw. unfold UnwrapKey. rewrite (decryptDEK_wraps _ _ _ _ _ _ Hw). simpl.
  destruct (ur_session r) as [srv| |]; simpl; [|done..]. rewrite pub_on_curve.
  destruct (encryptDEKWithSessionKey _ _ _) as [x0| |] eqn:Ex; simpl; [|done..].
  intros [= <- <- <-]. eauto using session_roundtrip.
Qed.

(** A point of another curve does not parse: its encoding is longer than the
    65 bytes the unwrapping takes. *)
Lemma decryptDEK_other_curve c priv id ck km ek :
  c <> P256 -> is_ok (decryptDEKWithPrivateKey (mkKeyUnwrap priv id c ck km) ek) = false.
Proof.
  intros Hc. unfold decryptDEKWithPrivateKey. cbn [ku_curve]. case_decide; [done|].
  destruct (ecOnCurve c (take 65 ek)) eqn:E; [|done].
  apply on_curve_size in E. rewrite length_take in E. destruct c; cbn [pointSize] in E; [done|lia..].
Qed.
End Facts.
