(* ===== verification/Coordinator.v ===== *)
(** * The encryption coordinator

    src/internal/services/coordinator.go: [EncryptOperation],
    [DecryptOperation] and [DeleteKey] drive the token, key generation, key
    unwrapping and key store services, and [EncryptWithClientKey] /
    [DecryptWithClientKey] use a customer key.  The services are Go
    interfaces; here they are a class [CryptoServices] of operations on an
    abstract state, with their contract in [KeyCustody].

    The DEK is a byte slice shared between the operation and the reader it
    returns, and [defer clearBytes(dek)] runs when the operation returns, so
    the operations thread the heap of Stream.v. *)

From S2P Require Import Prelude GoIO GoStrings CryptoLib Stream StreamProofs Keys Token.

(** The input of the OPA policy decision. *)
Record OpaInput := mkOpaInput {
  opa_user : string;
  opa_bucket : string;
  opa_key : string;
  opa_size : Z;
  opa_action : string;
  opa_operation : string;
  opa_time : Time
}.

(** [TokenIssuer], [KeyGenerator], [KeyUnwrapper] and [KeyStorer]: what the
    coordinator calls.  [entropy] is what a call draws from its environment
    (random numbers, outcomes of file and network operations). *)
Class CryptoServices := {
  svc : Type;
  entropy : Type;
  svc_IssueWriteToken : entropy -> Time -> string -> string -> string -> Z ->
    svc -> svc * res string;
  svc_IssueReadToken : entropy -> Time -> string -> string -> string -> string -> Z ->
    svc -> svc * res string;
  svc_IssueDeleteToken : entropy -> Time -> string -> string -> string -> Z ->
    svc -> svc * res string;
  svc_GenerateDataKey : entropy -> Time -> string -> string -> string -> string -> bytes ->
    svc -> svc * res (EncryptedDEK * ECDHEncryptedDEK * bytes);
  svc_UnwrapKey : entropy -> Time -> string -> string -> string -> string -> EncryptedDEK ->
    bytes -> svc -> svc * res (ECDHEncryptedDEK * bytes);
  svc_StoreKey : entropy -> Time -> string -> string -> EncryptedDEK -> Z ->
    svc -> svc * res string;
  svc_GetKey : entropy -> Time -> string -> string -> svc -> svc * res EncryptedDEK;
  svc_DeleteKey : entropy -> Time -> string -> string -> svc -> svc * res unit;
}.

(** Allocating a slice. *)
Definition alloc (h : heap) (b : bytes) : heap * nat :=
  let l := fresh (dom h) in (<[l := b]> h, l).

Section Coordinator.
Context `{CryptoLib, CryptoServices}.

(** What one operation draws. *)
Record OpEnv := mkOpEnv {
  oe_now : Time;
  oe_clientKey : res ecPriv;
  oe_token : entropy;
  oe_keys : entropy;       (** key generation or unwrapping *)
  oe_store : entropy;
  oe_nonce : res bytes
}.

(** The OPA gate at the start of each operation. *)
Definition opaGate (opa : option (OpaInput -> res bool)) (i : OpaInput) : res unit :=
  match opa with
  | None => Ok tt
  | Some evaluate =>
    allowed ← wrapErr "policy evaluation failed" (evaluate i);
    if allowed : bool then Ok tt else Err "access denied by policy"
  end.

(** [(objectSize + ssecChunkSize - 1) / ssecChunkSize] on [int64]. *)
Definition chunksOf (objectSize : Z) : Z := Z.quot (wrap64 (objectSize + 32768 - 1)) 32768.

(** [EncryptOperation]: the reader over the ciphertext, the key id, the
    metadata [[version(1)][nonce(12)]] and the estimated size. *)
Definition EncryptOperation (opa : option (OpaInput -> res bool)) (env : OpEnv)
    (userID bucket objectKey : string) (plaintext : reader) (objectSize : Z) (h : heap) (s : svc)
  : heap * svc * res (streamingEncryptReader * string * bytes * Z) :=
  match opaGate opa (mkOpaInput userID bucket objectKey objectSize "write" "encrypt_object"
                                (oe_now env)) with
  | Err e => (h, s, Err e) | Panic w => (h, s, Panic w)
  | Ok _ =>
  match wrapErr "failed to generate client ECDH key" (oe_clientKey env) with
  | Err e => (h, s, Err e) | Panic w => (h, s, Panic w)
  | Ok clientPriv =>
  match svc_IssueWriteToken (oe_token env) (oe_now env) userID bucket objectKey 30 s with
  | (s, Err e) => (h, s, Err ("failed to issue write token: " +:+ e)) | (s, Panic w) => (h, s, Panic w)
  | (s, Ok tokenID) =>
  match svc_GenerateDataKey (oe_keys env) (oe_now env) tokenID userID bucket objectKey
          (ecPub P256 clientPriv) s with
  | (s, Err e) => (h, s, Err ("failed to generate data key: " +:+ e)) | (s, Panic w) => (h, s, Panic w)
  | (s, Ok (encryptedDEK, ecdhEncryptedDEK, serviceECDHPub)) =>
  match svc_StoreKey (oe_store env) (oe_now env) bucket objectKey encryptedDEK objectSize s with
  | (s, Err e) => (h, s, Err ("failed to store key: " +:+ e)) | (s, Panic w) => (h, s, Panic w)
  | (s, Ok keyID) =>
  match wrapErr "failed to derive session key" (deriveSessionKey clientPriv serviceECDHPub) with
  | Err e => (h, s, Err e) | Panic w => (h, s, Panic w)
  | Ok sessionKey =>
  let '(h, sk) := alloc h sessionKey in
  match wrapErr "failed to unwrap DEK" (unwrapDEK ecdhEncryptedDEK (slice h sk)) with
  | Err e => (clearBytes h sk, s, Err e) | Panic w => (clearBytes h sk, s, Panic w)
  | Ok dekBytes =>
  let '(h, dek) := alloc h dekBytes in
  (* deferred: clearBytes(dek), then clearBytes(sessionKey) *)
  let h_return := clearBytes (clearBytes h dek) sk in
  match wrapErr "failed to generate nonce" (randBuf ssecNonceSize (oe_nonce env)) with
  | Err e => (h_return, s, Err e) | Panic w => (h_return, s, Panic w)
  | Ok nonce =>
    let metadata := [envelopeMetadataVersion] ++ nonce in
    let encryptReader := newStreamingEncryptReader plaintext dek nonce in
    let numChunks := if objectSize >? 0 then chunksOf objectSize else 1 in
    let estimated := wrap64 (objectSize + wrap64 (numChunks * (4 + 16))) in
    (h_return, s, Ok (encryptReader, keyID, metadata, estimated))
  end end end end end end end end.

(** [DecryptOperation]; its [keyID] argument is not used. *)
Definition DecryptOperation (opa : option (OpaInput -> res bool)) (env : OpEnv)
    (userID bucket objectKey : string) (ciphertext : reader) (keyID : string) (metadata : bytes)
    (h : heap) (s : svc) : heap * svc * res streamingDecryptReader :=
  match opaGate opa (mkOpaInput userID bucket objectKey 0 "read" "decrypt_object"
                                (oe_now env)) with
  | Err e => (h, s, Err e) | Panic w => (h, s, Panic w)
  | Ok _ =>
  match wrapErr "failed to generate client ECDH key" (oe_clientKey env) with
  | Err e => (h, s, Err e) | Panic w => (h, s, Panic w)
  | Ok clientPriv =>
  match svc_IssueReadToken (oe_token env) (oe_now env) userID bucket objectKey "" 30 s with
  | (s, Err e) => (h, s, Err ("failed to issue read token: " +:+ e)) | (s, Panic w) => (h, s, Panic w)
  | (s, Ok tokenID) =>
  match svc_GetKey (oe_store env) (oe_now env) bucket objectKey s with
  | (s, Err e) => (h, s, Err ("failed to get key: " +:+ e)) | (s, Panic w) => (h, s, Panic w)
  | (s, Ok encryptedDEK) =>
  match svc_UnwrapKey (oe_keys env) (oe_now env) tokenID userID bucket objectKey encryptedDEK
          (ecPub P256 clientPriv) s with
  | (s, Err e) => (h, s, Err ("failed to unwrap key: " +:+ e)) | (s, Panic w) => (h, s, Panic w)
  | (s, Ok (ecdhEncryptedDEK, serviceECDHPub)) =>
  match wrapErr "failed to derive session key" (deriveSessionKey clientPriv serviceECDHPub) with
  | Err e => (h, s, Err e) | Panic w => (h, s, Panic w)
  | Ok sessionKey =>
  let '(h, sk) := alloc h sessionKey in
  match wrapErr "failed to unwrap DEK" (unwrapDEK ecdhEncryptedDEK (slice h sk)) with
  | Err e => (clearBytes h sk, s, Err e) | Panic w => (clearBytes h sk, s, Panic w)
  | Ok dekBytes =>
  let '(h, dek) := alloc h dekBytes in
  let h_return := clearBytes (clearBytes h dek) sk in
  if decide (length metadata < 1 + ssecNonceSize)%nat
  then (h_return, s, Err "invalid envelope metadata")
  else if decide (head metadata = Some envelopeMetadataVersion) then
    let nonce := take ssecNonceSize (drop 1 metadata) in
    (h_return, s, Ok (newStreamingDecryptReader ciphertext dek nonce))
  else (h_return, s, Err "invalid envelope metadata")
  end end end end end end end.

(** [DeleteKey]. *)
Definition coordDeleteKey (opa : option (OpaInput -> res bool)) (env : OpEnv)
    (userID bucket objectKey : string) (s : svc) : svc * res unit :=
  match opaGate opa (mkOpaInput userID bucket objectKey 0 "delete" "delete_object"
                                (oe_now env)) with
  | Err e => (s, Err e) | Panic w => (s, Panic w)
  | Ok _ =>
  match svc_IssueDeleteToken (oe_token env) (oe_now env) userID bucket objectKey 30 s with
  | (s, Err e) => (s, Err ("failed to issue delete token: " +:+ e)) | (s, Panic w) => (s, Panic w)
  | (s, Ok _) =>
    let '(s, r) := svc_DeleteKey (oe_store env) (oe_now env) bucket objectKey s in
    (s, wrapErr "failed to delete key" r)
  end end.

(** [EncryptWithClientKey]: the key slice belongs to the caller. *)
Definition EncryptWithClientKey (plaintext : reader) (clientKey : nat) (objectSize : Z)
    (randNonce : res bytes) (h : heap) : res (streamingEncryptReader * bytes * Z) :=
  if decide (length (slice h clientKey) = 32%nat) then
    nonce ← wrapErr "failed to generate nonce" (randBuf ssecNonceSize randNonce);
    let metadata := nonce ++ be64 (wrapU64 objectSize) in
    let encryptReader := newStreamingEncryptReader plaintext clientKey nonce in
    let numChunks := if objectSize >? 0 then wrapU32 (chunksOf objectSize) else 1 in
    let estimated := wrap64 (objectSize + wrap64 (numChunks * (4 + 16))) in
    Ok (encryptReader, metadata, estimated)
  else Err ("invalid client key size: expected 32 bytes, got " +:+
            pretty (length (slice h clientKey))).

Definition DecryptWithClientKey (ciphertext : reader) (clientKey : nat) (metadata : bytes)
    (objectSize : Z) (h : heap) : res streamingDecryptReader :=
  if decide (length (slice h clientKey) = 32%nat) then
    if decide (length metadata < ssecNonceSize)%nat then Err "invalid metadata: too short"
    else Ok (newStreamingDecryptReader ciphertext clientKey (take ssecNonceSize metadata))
  else Err ("invalid client key size: expected 32 bytes, got " +:+
            pretty (length (slice h clientKey))).
End Coordinator.
