(* ===== verification/LocalServices.v ===== *)
(** * Properties of the encryption coordinator

    The contract the coordinator needs from its services ([KeyCustody]), and
    what holds of its operations for every implementation of it. *)

From S2P Require Import Prelude GoIO GoStrings CryptoLib Stream StreamProofs Token.
From S2P Require Import Keys Coordinator.

(** ** The heap at the end of an operation *)

Lemma slice_alloc h b : slice (alloc h b).1 (alloc h b).2 = b.
Proof. unfold alloc, slice. simpl. by rewrite lookup_insert_eq. Qed.

Lemma slice_clear h l : slice (clearBytes h l) l = zeros (length (slice h l)).
Proof.
  unfold slice, clearBytes. destruct (h !! l) eqn:E; simpl; [|by rewrite E].
  by rewrite lookup_insert_eq.
Qed.

Lemma slice_clear_ne h l l' : l <> l' -> slice (clearBytes h l') l = slice h l.
Proof.
  intros Hne. unfold slice, clearBytes. destruct (h !! l'); [|done].
  by rewrite lookup_insert_ne by congruence.
Qed.

(** The deferred clearing of the two secrets leaves zeros behind the DEK. *)
Lemma slice_after_defer h sessionKey dek :
  let '(h1, sk) := alloc h sessionKey in
  let '(h2, l) := alloc h1 dek in
  slice (clearBytes (clearBytes h2 l) sk) l = zeros (length dek).
Proof.
  destruct (alloc h sessionKey) as [h1 sk] eqn:E1. destruct (alloc h1 dek) as [h2 l] eqn:E2.
  assert (l <> sk) as Hne.
  { unfold alloc in *. simplify_eq. intros E.
    apply (is_fresh (dom (<[fresh (dom h) := sessionKey]> h))). rewrite E.
    rewrite dom_insert_L. set_solver. }
  rewrite slice_clear_ne, slice_clear by done.
  by replace (slice h2 l) with dek by (symmetry; pose proof (slice_alloc h1 dek); by rewrite E2 in *).
Qed.

(** ** The contract of the services

    [paired s]: the key pair of generation and unwrapping match.
    [custody s b k dek]: the services can deliver [dek] for object [b/k]. *)
Class KeyCustody `{CryptoLib, CryptoServices} := {
  paired : svc -> Prop;
  custody : svc -> string -> string -> bytes -> Prop;
  paired_write_token : forall e t u b k ttl s,
    paired s -> paired (svc_IssueWriteToken e t u b k ttl s).1;
  custody_read_token : forall e t u b k hash ttl s b' k' dek,
    custody s b' k' dek -> custody (svc_IssueReadToken e t u b k hash ttl s).1 b' k' dek;
  generate_store : forall e t e' t' tok u b k c size s s1 s2 d x pub id,
    paired s ->
    svc_GenerateDataKey e t tok u b k (ecPub P256 c) s = (s1, Ok (d, x, pub)) ->
    svc_StoreKey e' t' b k d size s1 = (s2, Ok id) ->
    exists dek, length dek = 32%nat /\ recovers c pub x dek /\ custody s2 b k dek;
  get_unwrap : forall e t e' t' tok u b k c s s1 s2 d x pub dek,
    custody s b k dek ->
    svc_GetKey e t b k s = (s1, Ok d) ->
    svc_UnwrapKey e' t' tok u b k d (ecPub P256 c) s1 = (s2, Ok (x, pub)) ->
    recovers c pub x dek;
}.

Section Operations.
Context `{CryptoLib, CryptoServices}.

(** Everything a successful [EncryptOperation] did. *)
Lemma EncryptOperation_inv opa env u b k src size h s h' s' r kid md est :
  EncryptOperation opa env u b k src size h s = (h', s', Ok (r, kid, md, est)) ->
  exists c tok s1 s2 d x pub sk dek nonce l,
    svc_IssueWriteToken (oe_token env) (oe_now env) u b k 30 s = (s1, Ok tok) /\
    svc_GenerateDataKey (oe_keys env) (oe_now env) tok u b k (ecPub P256 c) s1
      = (s2, Ok (d, x, pub)) /\
    svc_StoreKey (oe_store env) (oe_now env) b k d size s2 = (s', Ok kid) /\
    deriveSessionKey c pub = Ok sk /\ unwrapDEK x sk = Ok dek /\
    length nonce = 12%nat /\ md = 1 :: nonce /\
    r = newStreamingEncryptReader src l nonce /\ slice h' l = zeros (length dek).
Proof.
  unfold EncryptOperation. intros E.
  destruct (opaGate _ _); [|done..].
  destruct (oe_clientKey env) as [c| |]; simpl in E; [|done..].
  destruct (svc_IssueWriteToken _ _ _ _ _ _ _) as [s1 [tok| |]] eqn:Et; [|done..].
  destruct (svc_GenerateDataKey _ _ _ _ _ _ _ _) as [s2 [[[d x] pub]| |]] eqn:Eg; [|done..].
  destruct (svc_StoreKey _ _ _ _ _ _ _) as [s3 [id| |]] eqn:Es; [|done..].
  destruct (deriveSessionKey c pub) as [sk| |] eqn:Ek; simpl in E; [|done..].
  pose proof (slice_alloc h sk) as Hsk. unfold alloc in E, Hsk. simpl in Hsk. rewrite Hsk in E.
  destruct (unwrapDEK x sk) as [dek| |] eqn:Ex; simpl in E; [|done..].
  destruct (randBuf ssecNonceSize (oe_nonce env)) as [nonce| |] eqn:En; simpl in E; [|done..].
  simplify_eq. apply randBuf_length in En.
  pose proof (slice_after_defer h sk dek) as Hz. unfold alloc in Hz.
  eexists c, tok, s1, s2, d, x, pub, sk, dek, nonce, _. by split_and!.
Qed.

Lemma DecryptOperation_inv opa env u b k src kid md h s h' s' r :
  DecryptOperation opa env u b k src kid md h s = (h', s', Ok r) ->
  exists c tok s1 s2 d x pub sk dek l,
    svc_IssueReadToken (oe_token env) (oe_now env) u b k "" 30 s = (s1, Ok tok) /\
    svc_GetKey (oe_store env) (oe_now env) b k s1 = (s2, Ok d) /\
    svc_UnwrapKey (oe_keys env) (oe_now env) tok u b k d (ecPub P256 c) s2 = (s', Ok (x, pub)) /\
    deriveSessionKey c pub = Ok sk /\ unwrapDEK x sk = Ok dek /\
    r = newStreamingDecryptReader src l (take 12 (drop 1 md)) /\
    slice h' l = zeros (length dek).
Proof.
  unfold DecryptOperation. intros E.
  destruct (opaGate _ _); [|done..].
  destruct (oe_clientKey env) as [c| |]; simpl in E; [|done..].
  destruct (svc_IssueReadToken _ _ _ _ _ _ _ _) as [s1 [tok| |]] eqn:Et; [|done..].
  destruct (svc_GetKey _ _ _ _ _) as [s2 [d| |]] eqn:Eg; [|done..].
  destruct (svc_UnwrapKey _ _ _ _ _ _ _ _ _) as [s3 [[x pub]| |]] eqn:Es; [|done..].
  destruct (deriveSessionKey c pub) as [sk| |] eqn:Ek; simpl in E; [|done..].
  pose proof (slice_alloc h sk) as Hsk. unfold alloc in E, Hsk. simpl in Hsk. rewrite Hsk in E.
  destruct (unwrapDEK x sk) as [dek| |] eqn:Ex; simpl in E; [|done..].
  repeat case_decide; simplify_eq.
  pose proof (slice_after_defer h sk dek) as Hz. unfold alloc in Hz.
  eexists c, tok, s1, s2, d, x, pub, sk, dek, _. by split_and!.
Qed.
End Operations.

(** ** Draining the returned readers *)

Section Readers.
Context `{CryptoLaws}.

(** A consumer that passes nonempty buffers, enough of them. *)
Definition enough (bufs : list nat) (n : nat) : Prop :=
  Forall (fun m => 0 < m)%nat bufs /\ (n < length bufs)%nat.

Lemma enc_reader_delivers h src l nonce bufs key :
  slice h l = key -> rd_end src = EOF ->
  enough bufs (length (encStream key nonce 0 (rd_data src))) ->
  drain (encRead 3 h) bufs (newStreamingEncryptReader src l nonce) [] =
    Some (Ok (encStream key nonce 0 (rd_data src))).
Proof.
  intros <- He [Hpos Hlen].
  rewrite (drain_delivers (encRead 3 h) (enc_den h) _ _
             (encStream (slice h l) nonce 0 (rd_data src))); [done|apply encRead_spec|by split|done..].
Qed.

Lemma dec_reader_delivers f h src l nonce bufs p :
  rd_data src = encStream (slice h l) nonce 0 p -> rd_end src = EOF ->
  enough bufs (length p) ->
  drain (decRead (S (S f)) h) bufs (newStreamingDecryptReader src l nonce) [] = Some (Ok p).
Proof.
  intros Hd He [Hpos Hlen].
  rewrite (drain_delivers (decRead (S (S f)) h) (dec_den h) _ _ p); [done|apply decRead_spec| |done..].
  split; [done|]. split; [done|]. by exists p.
Qed.
End Readers.

(** ** The embedded deployment

    In embedded mode (src/internal/bootstrap/crypto.go) the coordinator's
    services are the in-process token, key generation, key unwrapping and key
    store services.  This file gives them as an instance of [CryptoServices]
    and discharges the contract [KeyCustody]. *)

Section Local.
Context `{CryptoLib} (marshalToken : DelegationToken -> res bytes).

Record LocalState := mkLocal {
  ls_token : TokenService;
  ls_keygen : KeyGenService;
  ls_unwrap : KeyUnwrapService;
  ls_store : KeyStoreService
}.

Record LocalEntropy := mkLocalEntropy {
  le_tokenID : string;
  le_keygen : KeyGenRand;
  le_unwrap : KeyUnwrapRand;
  le_keyID : string;
  le_io : res unit
}.

Definition set_token t (s : LocalState) := mkLocal t (ls_keygen s) (ls_unwrap s) (ls_store s).
Definition set_keygen g (s : LocalState) := mkLocal (ls_token s) g (ls_unwrap s) (ls_store s).
Definition set_unwrap w (s : LocalState) := mkLocal (ls_token s) (ls_keygen s) w (ls_store s).
Definition set_store k (s : LocalState) := mkLocal (ls_token s) (ls_keygen s) (ls_unwrap s) k.

Definition onToken (s : LocalState) (x : TokenService * res DelegationToken)
  : LocalState * res string := (set_token x.1 s, tk_TokenID <$> x.2).

#[global] Instance local_services : CryptoServices := {|
  svc := LocalState;
  entropy := LocalEntropy;
  svc_IssueWriteToken e t u b k ttl s :=
    onToken s (IssueWriteToken marshalToken (le_tokenID e) u b k ttl t t t (ls_token s));
  svc_IssueReadToken e t u b k hash ttl s :=
    onToken s (IssueReadToken marshalToken (le_tokenID e) u b k hash ttl t t t (ls_token s));
  svc_IssueDeleteToken e t u b k ttl s :=
    onToken s (IssueDeleteToken marshalToken (le_tokenID e) u b k ttl t t t (ls_token s));
  svc_GenerateDataKey e t tok u b k pub s :=
    let '(g, r) := GenerateDataKey tok u b k pub (le_keygen e) t (ls_keygen s) in
    (set_keygen g s, r);
  svc_UnwrapKey e t tok u b k d pub s :=
    let '(w, r) := UnwrapKey tok u b k d pub (le_unwrap e) t (ls_unwrap s) in
    (set_unwrap w s, r);
  svc_StoreKey e t b k d size s :=
    let '(ks, r) := StoreKey b k d size (le_keyID e) t (le_io e) (ls_store s) in
    (set_store ks s, r);
  svc_GetKey e t b k s :=
    let '(ks, r) := GetKey b k t (ls_store s) in (set_store ks s, r);
  svc_DeleteKey e t b k s :=
    let '(ks, r) := DeleteKey b k t (le_io e) (ls_store s) in (set_store ks s, r);
|}.

(** The key pair the two key services share. *)
Definition local_paired (s : LocalState) : Prop :=
  kg_encryptPublicKey (ls_keygen s) = ecPub P256 (ku_decryptPrivKey (ls_unwrap s)) /\
  kg_curve (ls_keygen s) = P256 /\ ku_curve (ls_unwrap s) = P256.

(** The cache holds a wrapping of [dek] for the object. *)
Definition local_custody (s : LocalState) (b k : string) (dek : bytes) : Prop :=
  ku_curve (ls_unwrap s) = P256 /\
  exists e, ks_keys (ls_store s) !! makeKeyIndex b k = Some e /\
    wraps (ku_decryptPrivKey (ls_unwrap s)) (ke_EncryptedKey e) dek.

Lemma local_generate_store `{!CryptoLaws} e t e' t' tok u b k c size s s1 s2 d x pub id :
  local_paired s ->
  svc_GenerateDataKey e t tok u b k (ecPub P256 c) s = (s1, Ok (d, x, pub)) ->
  svc_StoreKey e' t' b k d size s1 = (s2, Ok id) ->
  exists dek, length dek = 32%nat /\ recovers c pub x dek /\ local_custody s2 b k dek.
Proof.
  intros (Hpub & Hcg & Hcu) Hgen Hst. cbn [svc_GenerateDataKey svc_StoreKey local_services] in *.
  destruct s as [tk [gpub gid gcur ga gm] un st]. simpl in Hpub, Hcg, Hcu. subst gpub gcur.
  destruct (GenerateDataKey _ _ _ _ _ _ _ _) as [g r] eqn:Eg. simplify_eq.
  apply GenerateDataKey_spec in Eg as (dek & Hlen & _ & Hw & _ & Hrec & _).
  exists dek. split; [done|]. split; [done|]. simpl in Hst.
  unfold StoreKey, persistKey in Hst. destruct (le_io e') as [[]| |]; simplify_eq.
  split; [done|]. eexists. split; [simpl; by rewrite lookup_insert_eq|done].
Qed.

Lemma local_get_unwrap `{!CryptoLaws} e t e' t' tok u b k c s s1 s2 d x pub dek :
  local_custody s b k dek ->
  svc_GetKey e t b k s = (s1, Ok d) ->
  svc_UnwrapKey e' t' tok u b k d (ecPub P256 c) s1 = (s2, Ok (x, pub)) ->
  recovers c pub x dek.
Proof.
  intros (Hcu & en & Hen & Hw) Hget Hun. cbn [svc_GetKey svc_UnwrapKey local_services] in *.
  unfold GetKey in Hget. rewrite Hen in Hget. simplify_eq. simpl in Hun.
  destruct s as [tk g [priv uid ucur ua um] st]. simpl in *. subst ucur.
  destruct (UnwrapKey _ _ _ _ _ _ _ _ _) as [w r] eqn:Eu. simplify_eq.
  eapply UnwrapKey_spec; [|exact Eu]. exact Hw.
Qed.

#[global] Instance local_custody_contract `{!CryptoLaws} : KeyCustody := {|
  paired := (local_paired : svc -> Prop);
  custody := (local_custody : svc -> _);
  paired_write_token e t u b k ttl s Hp := Hp;
  custody_read_token e t u b k hash ttl s b' k' dek Hc := Hc;
  generate_store := local_generate_store;
  get_unwrap := local_get_unwrap;
|}.
End Local.
