(* ===== verification/CryptoTheorems.v ===== *)
(** * Theorems about the encryption services

    Round trips of the envelope and customer-key operations, the key that
    really encrypts an envelope object, the sizes, truncation, and the token,
    key store and key services.  Each property with hypotheses is followed by
    a run on a concrete deployment that meets them. *)

From S2P Require Import Prelude GoIO GoStrings CryptoLib Stream StreamProofs Token Keys.
From S2P Require Import Coordinator LocalServices.

Import ToyCrypto.

(** ** A concrete deployment to run the theorems on *)

Module Demo.
Definition marshal (t : DelegationToken) : res bytes := Ok [tk_Expiry t; tk_CreatedAt t].

Definition keygenRand : KeyGenRand :=
  mkKeyGenRand (Ok [11; 22; 33]) (Ok (5 : Z)) (Ok [9]) "key-1" (Ok (6 : Z)) (Ok [8]).
Definition unwrapRand : KeyUnwrapRand := mkKeyUnwrapRand (Ok (13 : Z)) (Ok [4]).
Definition ent : LocalEntropy := mkLocalEntropy "tok-1" keygenRand unwrapRand "fresh" (Ok tt).

#[export] Instance services : CryptoServices := local_services marshal.
#[export] Instance contract : KeyCustody := local_custody_contract marshal.

Definition env1 : OpEnv :=
  @mkOpEnv _ services 1000 (Ok (3 : Z)) ent ent ent (Ok [1; 2; 3]).
Definition env2 : OpEnv :=
  @mkOpEnv _ services 2000 (Ok (17 : Z)) ent ent ent (Ok []).

(** Key services sharing the pair of private key 7. *)
Definition start : LocalState :=
  mkLocal (NewTokenService 99 "sign" 0)
          (mkKeyGen (ecPub P256 7) "kg" P256 [] 10)
          (mkKeyUnwrap 7 "ku" P256 [] 10)
          (NewKeyStoreService 0 ∅).

Definition plain : bytes := [104; 105; 33].
Definition bufs : list nat := repeat 7%nat 40.

Definition encrypted :=
  EncryptOperation
    None env1 "alice" "photos" "cat.png" (newReader plain) 3 ∅ start.
End Demo.

Section Envelope.
Context {lib : CryptoLib} {laws : CryptoLaws} {services : CryptoServices} {contract : KeyCustody}.

(** The DEK slice is cleared by a deferred call when [EncryptOperation]
    returns, while the returned reader still refers to it: whatever DEK the
    key service generated, every object is encrypted under the all-zero
    key. *)
Theorem encrypt_operation_uses_zero_key opa env u b k src size h s h' s' r kid md est bufs :
  paired s ->
  EncryptOperation opa env u b k src size h s = (h', s', Ok (r, kid, md, est)) ->
  rd_end src = EOF ->
  enough bufs (length (encStream (zeros 32) (tail md) 0 (rd_data src))) ->
  drain (encRead 3 h') bufs r [] =
    Some (Ok (encStream (zeros 32) (tail md) 0 (rd_data src))).
Proof.
  intros Hp E He Hb.
  apply EncryptOperation_inv in E
    as (c & tok & s1 & s2 & d & x & pub & sk & dek & nonce & l & Et & Eg & Es & Ek & Ex & Hn & -> & -> & Hz).
  pose proof (paired_write_token (oe_token env) (oe_now env) u b k 30 s Hp) as Hp1.
  rewrite Et in Hp1.
  destruct (generate_store _ _ _ _ _ _ _ _ _ _ _ _ _ _ _ _ _ Hp1 Eg Es)
    as (dek' & Hlen & (sk' & Ek' & Ex') & _).
  assert (dek = dek') as -> by congruence. rewrite Hlen in Hz.
  by apply enc_reader_delivers.
Qed.

(** C5: Decrypting what [EncryptOperation] produced, through the services it
    left behind, gives the plaintext back: for every source fragmentation
    and every consumer, with the ciphertext read through any
    fragmentation. *)
Theorem envelope_roundtrip opa env u b k src size h s h1 s1 r kid md est bufs ct
    opa' env' u' frag kid' h2 h3 s3 r' f bufs' :
  paired s ->
  EncryptOperation opa env u b k src size h s = (h1, s1, Ok (r, kid, md, est)) ->
  rd_end src = EOF ->
  enough bufs (length (encStream (zeros 32) (tail md) 0 (rd_data src))) ->
  drain (encRead 3 h1) bufs r [] = Some (Ok ct) ->
  DecryptOperation opa' env' u' b k (mkReader ct EOF frag) kid' md h2 s1 = (h3, s3, Ok r') ->
  enough bufs' (length (rd_data src)) ->
  drain (decRead (S (S f)) h3) bufs' r' [] = Some (Ok (rd_data src)).
Proof.
  intros Hp E He Hb Hct D Hb'.
  apply EncryptOperation_inv in E
    as (c & tok & sa & sb & d & x & pub & sk & dek & nonce & l & Et & Eg & Es & Ek & Ex & Hn & -> & -> & Hz).
  pose proof (paired_write_token (oe_token env) (oe_now env) u b k 30 s Hp) as Hp1.
  rewrite Et in Hp1.
  destruct (generate_store _ _ _ _ _ _ _ _ _ _ _ _ _ _ _ _ _ Hp1 Eg Es)
    as (dek' & Hlen & (sk' & Ek' & Ex') & Hcus).
  assert (dek = dek') as -> by congruence. rewrite Hlen in Hz.
  rewrite (enc_reader_delivers _ _ _ _ _ _ Hz) in Hct by done. injection Hct as <-.
  apply DecryptOperation_inv in D
    as (c2 & tok2 & sc & sd & d2 & x2 & pub2 & sk2 & dek2 & l2 & Et2 & Eg2 & Eu2 & Ek2 & Ex2 & -> & Hz2).
  pose proof (custody_read_token (oe_token env') (oe_now env') u' b k "" 30 s1 _ _ _ Hcus) as Hc1.
  rewrite Et2 in Hc1.
  destruct (get_unwrap _ _ _ _ _ _ _ _ _ _ _ _ _ _ _ _ Hc1 Eg2 Eu2) as (sk3 & Ek3 & Ex3).
  assert (dek2 = dek') as -> by congruence. rewrite Hlen in Hz2.
  apply dec_reader_delivers; [|done..]. cbn [rd_data]. rewrite Hz2.
  change (drop 1 (1 :: nonce)) with nonce. by rewrite (take_ge nonce) by lia.
Qed.
End Envelope.

(** Evaluate a concrete run. *)
Ltac run := vm_compute; reflexivity.
Ltac run_enough := split; [repeat constructor; lia | vm_compute; lia].

Lemma encrypt_operation_uses_zero_key_witness : exists h' s' r kid md est,
  Demo.encrypted = (h', s', Ok (r, kid, md, est)) /\
  drain (encRead 3 h') Demo.bufs r [] =
    Some (Ok (encStream (zeros 32) (tail md) 0 Demo.plain)).
Proof.
  do 6 eexists. split; [run|].
  eapply (encrypt_operation_uses_zero_key (contract := Demo.contract)
            None Demo.env1 "alice" "photos" "cat.png" (newReader Demo.plain) 3 ∅ Demo.start).
  - by split.
  - run.
  - done.
  - run_enough.
Defined.

Lemma envelope_roundtrip_witness : exists h1 s1 r kid md est ct h3 s3 r',
  Demo.encrypted = (h1, s1, Ok (r, kid, md, est)) /\
  DecryptOperation None Demo.env2 "bob" "photos" "cat.png" (mkReader ct EOF [1; 2]%nat) "" md ∅ s1
    = (h3, s3, Ok r') /\
  drain (decRead 2 h3) Demo.bufs r' [] = Some (Ok Demo.plain).
Proof.
  do 10 eexists. split; [run|]. split; [run|].
  eapply (envelope_roundtrip (contract := Demo.contract)
            None Demo.env1 "alice" "photos" "cat.png" (newReader Demo.plain) 3 ∅ Demo.start
            _ _ _ _ _ _ Demo.bufs _ None Demo.env2 "bob" [1; 2]%nat "" ∅).
  - by split.
  - run.
  - done.
  - run_enough.
  - run.
  - run.
  - run_enough.
Defined.

(** ** Customer keys (SSE-C) *)

Section ClientKey.
Context {lib : CryptoLib} {laws : CryptoLaws}.

(** C16: With a customer key that stays in memory while the streams are read,
    [DecryptWithClientKey] inverts [EncryptWithClientKey] for every object,
    every fragmentation of the two sources and every consumer. *)
Theorem ssec_roundtrip src key size draw h r md est bufs ct frag size' r' f bufs' :
  EncryptWithClientKey src key size draw h = Ok (r, md, est) ->
  rd_end src = EOF ->
  enough bufs (length (encStream (slice h key) (take 12 md) 0 (rd_data src))) ->
  drain (encRead 3 h) bufs r [] = Some (Ok ct) ->
  DecryptWithClientKey (mkReader ct EOF frag) key md size' h = Ok r' ->
  enough bufs' (length (rd_data src)) ->
  drain (decRead (S (S f)) h) bufs' r' [] = Some (Ok (rd_data src)).
Proof.
  unfold EncryptWithClientKey, DecryptWithClientKey. intros E He Hb Hct D Hb'.
  case_decide; [|done]. destruct (randBuf ssecNonceSize draw) as [nonce| |] eqn:En; [|done..].
  injection E as <- <- <-. case_decide; [done|]. injection D as <-. apply randBuf_length in En.
  unfold ssecNonceSize in *. rewrite (take_app_length' nonce) in * by done.
  rewrite (enc_reader_delivers _ _ _ _ _ _ eq_refl) in Hct by done. injection Hct as <-.
  by apply dec_reader_delivers.
Qed.

(** The ciphertext size [EncryptWithClientKey] announces is the number of
    bytes the stream delivers, for every object below 2^46 bytes whose
    announced size is its real one. *)
Theorem ssec_size_exact src key size draw h r md est bufs ct :
  EncryptWithClientKey src key size draw h = Ok (r, md, est) ->
  rd_end src = EOF ->
  size = Z.of_nat (length (rd_data src)) -> size < 2 ^ 46 ->
  enough bufs (length (encStream (slice h key) (take 12 md) 0 (rd_data src))) ->
  drain (encRead 3 h) bufs r [] = Some (Ok ct) ->
  est = Z.of_nat (length ct).
Proof.
  unfold EncryptWithClientKey. intros E He Hsz Hlt Hb Hct.
  case_decide; [|done]. destruct (randBuf ssecNonceSize draw) as [nonce| |] eqn:En; [|done..].
  injection E as <- <- <-. apply randBuf_length in En. unfold ssecNonceSize in *.
  rewrite (take_app_length' nonce) in * by done.
  rewrite (enc_reader_delivers _ _ _ _ _ _ eq_refl) in Hct by done. injection Hct as <-.
  subst size. set (n := Z.of_nat (length (rd_data src))) in *.
  assert (0 <= n) by lia. change (2 ^ 46) with 70368744177664 in Hlt.
  rewrite length_encStream by (unfold numChunks; fold n; zlia).
  unfold chunksOf, numChunks. fold n.
  rewrite (wrap64_id (n + 32768 - 1)) by (unfold in_int64, int64_min, int64_max; lia).
  rewrite Z.quot_div_nonneg by lia.
  replace (n + 32768 - 1) with (n + 32767) by lia.
  unfold wrapU32. rewrite wrapU_id by (change (2 ^ 32) with 4294967296; zlia).
  assert (0 <= (n + 32767) / 32768 <= 4294967296) by zlia.
  destruct (n >? 0) eqn:E0.
  - apply Z.gtb_lt in E0. rewrite decide_False by lia.
    rewrite (wrap64_id (_ * _)), wrap64_id by (unfold in_int64, int64_min, int64_max; lia). lia.
  - assert (n = 0) as Hn0 by (destruct (Z.gtb_spec n 0); [done|lia]).
    rewrite Hn0, decide_True by lia. reflexivity.
Qed.

(** The end of a stream is not authenticated: cutting the ciphertext
    after any number of full chunks (below 2^32) leaves a stream that
    decrypts without error to the corresponding prefix of the object. *)
Theorem truncation_is_accepted h key nonce (c : nat) p q frag f bufs :
  length p = (c * ssecChunkSize)%nat -> (0 < c)%nat -> Z.of_nat c < 2 ^ 32 ->
  enough bufs (length p) ->
  exists rest, encStream (slice h key) nonce 0 (p ++ q) =
               encStream (slice h key) nonce 0 p ++ rest /\
    drain (decRead (S (S f)) h) bufs
      (newStreamingDecryptReader
         (mkReader (take (length p + 20 * c) (encStream (slice h key) nonce 0 (p ++ q))) EOF frag)
         key nonce) [] = Some (Ok p).
Proof.
  intros Hp Hc Hc32 Hb. pose proof ssecChunkSize_Z as Hz.
  pose proof (encStream_app (slice h key) nonce 0 c p q Hp ltac:(lia) ltac:(lia)) as E.
  rewrite decide_False in E by lia. rewrite E. eexists. split; [done|].
  assert (length (encStream (slice h key) nonce 0 p) = (length p + 20 * c)%nat) as Hl.
  { apply Nat2Z.inj. assert (numChunks p = Z.of_nat c) as Hn by (unfold numChunks; zlia).
    rewrite length_encStream, decide_False, Hn by (rewrite ?Hn; nia). lia. }
  rewrite <- Hl, take_app_length. by apply dec_reader_delivers.
Qed.
End ClientKey.

Definition demoHeap : heap := {[ 0%nat := repeat 5 32 ]}.

Lemma ssec_roundtrip_witness : exists r md est ct r',
  EncryptWithClientKey (newReader Demo.plain) 0 3 (Ok [7]) demoHeap = Ok (r, md, est) /\
  drain (encRead 3 demoHeap) Demo.bufs r [] = Some (Ok ct) /\
  drain (decRead 2 demoHeap) Demo.bufs r' [] = Some (Ok Demo.plain).
Proof.
  do 5 eexists. split; [run|]. split; [run|].
  eapply (ssec_roundtrip (newReader Demo.plain) 0 3 (Ok [7]) demoHeap _ _ _ Demo.bufs _ [] 3);
    [run|done|run_enough|run|run|run_enough].
Defined.

Lemma ssec_size_exact_witness : exists r md est ct,
  EncryptWithClientKey (newReader Demo.plain) 0 3 (Ok [7]) demoHeap = Ok (r, md, est) /\
  drain (encRead 3 demoHeap) Demo.bufs r [] = Some (Ok ct) /\ est = Z.of_nat (length ct).
Proof.
  do 4 eexists. split; [run|]. split; [run|].
  eapply (ssec_size_exact (newReader Demo.plain) 0 3 (Ok [7]) demoHeap _ _ _ Demo.bufs);
    [run|done|done|done|run_enough|run].
Defined.

Lemma truncation_is_accepted_witness : exists rest,
  encStream (slice demoHeap 0) [1] 0 (zeros ssecChunkSize ++ [1; 2]) =
    encStream (slice demoHeap 0) [1] 0 (zeros ssecChunkSize) ++ rest.
Proof.
  assert (length (zeros ssecChunkSize) = ssecChunkSize) as Hl by apply repeat_length.
  edestruct (truncation_is_accepted demoHeap 0 [1] 1 (zeros ssecChunkSize) [1; 2] [] 0
               (repeat 1%nat (S ssecChunkSize))) as (rest & E & _).
  - lia.
  - lia.
  - lia.
  - split; [apply Forall_forall; intros x Hx; apply list_elem_of_In, repeat_spec in Hx; lia|].
    rewrite repeat_length. lia.
  - exists rest. exact E.
Defined.

(** ** The token service *)

Section Tokens.
Context {lib : CryptoLib} {laws : CryptoLaws} (marshalToken : DelegationToken -> res bytes).

(** A token that was issued validates for its own type until it expires,
    as long as it is not revoked: the service signs what it later verifies,
    records it as not revoked, and checks nothing else. *)
Theorem issued_token_validates ty op aop id u b k hash ttl t1 t2 t3 s s' tok now :
  ts_signingPubKey s = edPub (ts_signingPrivKey s) ->
  issueToken marshalToken ty op aop id u b k hash ttl t1 t2 t3 s = (s', Ok tok) ->
  now <= tk_Expiry tok ->
  (ValidateToken marshalToken tok ty now s').2 = Ok tt /\
  forall ty', ty' <> ty -> (ValidateToken marshalToken tok ty' now s').2 <> Ok tt.
Proof.
  intros Hkey E Hnow. unfold issueToken, signToken in E.
  destruct (marshalToken _) as [data| |] eqn:Em; simpl in E; [|done..]. simplify_eq.
  unfold ValidateToken, verifyToken, After. rewrite (proj2 (Z.ltb_ge _ _)) by exact Hnow.
  rewrite tk_Signature_set, with_signature_twice, Em. simpl.
  rewrite Hkey, verify_sign. rewrite decide_True by done. rewrite lookup_insert_eq.
  split; [done|]. intros ty' Hty. by rewrite decide_False by congruence.
Qed.

(** Revocation is final: once [RevokeToken] has succeeded, no token with
    that id validates in any later state of the service, whatever is
    issued, validated or revoked in between. *)
Theorem revoked_never_validates id now s s1 s2 tok ty t :
  RevokeToken id now s = (s1, Ok tt) ->
  rtc (token_step marshalToken) s1 s2 ->
  tk_TokenID tok = id ->
  (ValidateToken marshalToken tok ty t s2).2 <> Ok tt.
Proof.
  intros Hr Hsteps <-. apply ValidateToken_revoked.
  assert (is_revoked (tk_TokenID tok) s1) as H1.
  { unfold RevokeToken in Hr. destruct (ts_issuedTokens s !! _) as [r|] eqn:E; simplify_eq.
    unfold is_revoked. simpl. rewrite lookup_insert_eq. by eexists. }
  clear Hr. induction Hsteps; eauto using token_step_revoked.
Qed.

(** In every reachable state the audit log holds at most its configured
    number of entries and every record sits under its own token id. *)
Theorem token_service_invariant priv keyID AuditSize s :
  rtc (token_step marshalToken) (NewTokenService priv keyID AuditSize) s -> token_inv s.
Proof.
  intros Hsteps. remember (NewTokenService priv keyID AuditSize) as s0 eqn:E0.
  assert (token_inv s0) as H0.
  { subst s0. split; [simpl; lia|]. by apply map_Forall_empty. }
  clear E0. induction Hsteps; eauto using token_step_inv.
Qed.
End Tokens.

Definition demoTokens : TokenService := NewTokenService (99 : Z) "k" 0.

Lemma issued_token_validates_witness : exists s' tok,
  issueToken Demo.marshal TokenTypeRead "decrypt" "issue_read" "t" "u" "b" "k" "" 30 5 5 5 demoTokens
    = (s', Ok tok) /\ (ValidateToken Demo.marshal tok TokenTypeRead 6 s').2 = Ok tt.
Proof.
  do 2 eexists. split; [run|].
  eapply (issued_token_validates Demo.marshal TokenTypeRead "decrypt" "issue_read" "t" "u" "b" "k" ""
            30 5 5 5 demoTokens); [done|run|vm_compute; discriminate].
Defined.

Definition demoIssued :=
  issueToken Demo.marshal TokenTypeRead "decrypt" "issue_read" "t" "u" "b" "k" "" 30 5 5 5 demoTokens.

Lemma revoked_never_validates_witness : exists s1 tok,
  demoIssued.2 = Ok tok /\ RevokeToken "t" 7 demoIssued.1 = (s1, Ok tt) /\
  (ValidateToken Demo.marshal tok TokenTypeRead 8 (Close s1)).2 <> Ok tt.
Proof.
  do 2 eexists. split; [run|]. split; [run|].
  eapply (revoked_never_validates Demo.marshal "t" 7 demoIssued.1); [run| |run].
  apply rtc_once, step_close.
Defined.

Lemma token_service_invariant_witness : token_inv demoIssued.1.
Proof.
  eapply (token_service_invariant (lib := toy) Demo.marshal). apply rtc_once.
  apply (step_issue Demo.marshal TokenTypeRead "decrypt" "issue_read" "t" "u" "b" "k" "" 30 5 5 5).
  reflexivity.
Defined.

(** ** Theorems about the key store and the key services

    The key store refines a map from objects to wrapped keys as long as no
    file operation fails; what happens when one does, or when the service is
    restarted without its cache; and the start-up and curve handling of the
    unwrapping service. *)

(** ** The abstract key store *)

Module KeySpec.
(** Objects with their wrapped DEK. *)
Abbreviation state := (gmap (string * string) EncryptedDEK).

Inductive op :=
| OpStore (bucket objectKey : string) (dek : EncryptedDEK) (size : Z) (freshID : string)
| OpGet (bucket objectKey : string)
| OpDelete (bucket objectKey : string).

Definition op_bucket (o : op) : string :=
  match o with OpStore b _ _ _ _ | OpGet b _ | OpDelete b _ => b end.

Inductive outcome :=
| Stored (keyID : string)
| Got (dek : option EncryptedDEK)
| Deleted (existed : bool)
| Fault.

Definition withKeyID (id : string) (d : EncryptedDEK) : EncryptedDEK :=
  mkEncryptedDEK (ed_EncryptedKey d) (ed_Algorithm d) id (ed_KeyVersion d).

Definition exec (o : op) (m : state) : state * outcome :=
  match o with
  | OpStore b k d _ id =>
    let kid := if decide (ed_KeyID d = "") then id else ed_KeyID d in
    (<[(b, k) := withKeyID kid d]> m, Stored kid)
  | OpGet b k => (m, Got (m !! (b, k)))
  | OpDelete b k => (delete (b, k) m, Deleted (bool_decide (is_Some (m !! (b, k)))))
  end.

Fixpoint run (os : list op) (m : state) : state * list outcome :=
  match os with
  | [] => (m, [])
  | o :: os => let '(m, r) := exec o m in
               let '(m, rs) := run os m in (m, r :: rs)
  end.
End KeySpec.

Import KeySpec.

(** The service running the same operations with a working disk. *)
Definition ks_exec (now : Time) (o : op) (k : KeyStoreService) : KeyStoreService * outcome :=
  match o with
  | OpStore b key d size id =>
    match StoreKey b key d size id now (Ok tt) k with
    | (k, Ok kid) => (k, Stored kid)
    | (k, _) => (k, Fault)
    end
  | OpGet b key =>
    match GetKey b key now k with
    | (k, Ok d) => (k, Got (Some d))
    | (k, Err _) => (k, Got None)
    | (k, Panic _) => (k, Fault)
    end
  | OpDelete b key =>
    match DeleteKey b key now (Ok tt) k with
    | (k, Ok _) => (k, Deleted true)
    | (k, Err _) => (k, Deleted false)
    | (k, Panic _) => (k, Fault)
    end
  end.

Fixpoint ks_run (now : Time) (os : list op) (k : KeyStoreService)
  : KeyStoreService * list outcome :=
  match os with
  | [] => (k, [])
  | o :: os => let '(k, r) := ks_exec now o k in
               let '(k, rs) := ks_run now os k in (k, r :: rs)
  end.

(** The cache and the disk agree with each other and with the abstract map, on
    buckets without a slash in their name. *)
Definition ks_rel (k : KeyStoreService) (m : state) : Prop :=
  forall b key, nochar slash b = true ->
    dekOf <$> ks_keys k !! makeKeyIndex b key = m !! (b, key) /\
    ks_disk k !! (b, key) = Some <$> ks_keys k !! makeKeyIndex b key.

Lemma ks_rel_insert k m b key e log mx :
  ks_rel k m -> nochar slash b = true ->
  ks_rel (mkKeyStore (<[makeKeyIndex b key := e]> (ks_keys k))
                     (<[(b, key) := Some e]> (ks_disk k)) log mx)
         (<[(b, key) := dekOf e]> m).
Proof.
  intros HR Hb b' key' Hb'. simpl. destruct (decide ((b, key) = (b', key'))) as [E|E].
  - injection E as <- <-. by rewrite !lookup_insert_eq.
  - assert (makeKeyIndex b key <> makeKeyIndex b' key') as Hne
      by (intros Hi; apply makeKeyIndex_inj in Hi as [-> ->]; done).
    rewrite !lookup_insert_ne by done. by apply HR.
Qed.

Lemma ks_rel_delete k m b key log mx :
  ks_rel k m -> nochar slash b = true ->
  ks_rel (mkKeyStore (delete (makeKeyIndex b key) (ks_keys k))
                     (delete (b, key) (ks_disk k)) log mx)
         (delete (b, key) m).
Proof.
  intros HR Hb b' key' Hb'. simpl. destruct (decide ((b, key) = (b', key'))) as [E|E].
  - injection E as <- <-. by rewrite !lookup_delete_eq.
  - assert (makeKeyIndex b key <> makeKeyIndex b' key') as Hne
      by (intros Hi; apply makeKeyIndex_inj in Hi as [-> ->]; done).
    rewrite !lookup_delete_ne by done. by apply HR.
Qed.

Lemma ks_exec_refines now o k m :
  ks_rel k m -> nochar slash (op_bucket o) = true ->
  (ks_exec now o k).2 = (exec o m).2 /\ ks_rel (ks_exec now o k).1 (exec o m).1.
Proof.
  intros HR Hb. destruct o as [b key d size id|b key|b key]; simpl in Hb.
  - split; [done|]. simpl. by apply (ks_rel_insert k m b key
      (mkKeyEntry _ b key (ed_EncryptedKey d) (ed_Algorithm d) (ed_KeyVersion d) now size)).
  - destruct (HR b key Hb) as [Hm Hd]. simpl. unfold GetKey, loadKey.
    destruct (ks_keys k !! makeKeyIndex b key) as [e|]; simpl in *; rewrite <- Hm; [done|].
    by rewrite Hd.
  - destruct (HR b key Hb) as [Hm Hd]. simpl. unfold DeleteKey. simpl. rewrite Hd, <- Hm.
    destruct (ks_keys k !! makeKeyIndex b key) as [e|] eqn:E; simpl.
    + split; [done|]. by apply ks_rel_delete.
    + split; [done|]. rewrite (delete_id (ks_keys k)) by exact E.
      rewrite delete_id by (by rewrite <- Hm). exact HR.
Qed.

(** With a disk that does not fail, the key store refines a map from
    (bucket, object key) to wrapped DEK: every sequence of stores, gets and
    deletes on slash-free bucket names gives exactly the results of the map,
    and no call faults. *)
Theorem keystore_refines_map now os k m :
  ks_rel k m -> Forall (fun o => nochar slash (op_bucket o) = true) os ->
  (ks_run now os k).2 = (run os m).2 /\ ks_rel (ks_run now os k).1 (run os m).1.
Proof.
  intros HR Hos. revert k m HR. induction Hos as [|o os Ho Hos IH]; intros k m HR; [done|].
  simpl. destruct (ks_exec_refines now o k m HR Ho) as [E1 HR1].
  destruct (ks_exec now o k) as [k1 r], (exec o m) as [m1 r']. simpl in E1, HR1. subst r'.
  destruct (IH k1 m1 HR1) as [E2 HR2].
  destruct (ks_run now os k1) as [k2 rs], (run os m1) as [m2 rs']. simpl in *. by subst rs'.
Qed.

Definition demoDek : EncryptedDEK := mkEncryptedDEK [1; 2] "alg" "" 1.
Definition demoOps : list op :=
  [OpStore "b" "a/x" demoDek 3 "id1"; OpGet "b" "a/x"; OpDelete "b" "a/x"; OpGet "b" "a/x"].

Lemma keystore_refines_map_witness :
  (ks_run 1 demoOps (NewKeyStoreService 0 ∅)).2 =
    [Stored "id1"; Got (Some (mkEncryptedDEK [1; 2] "alg" "id1" 1)); Deleted true; Got None].
Proof.
  destruct (keystore_refines_map 1 demoOps (NewKeyStoreService 0 ∅) ∅) as [E _].
  - intros b key _. split; reflexivity.
  - repeat constructor.
  - rewrite E. reflexivity.
Defined.

(** The first [GetKey] after a restart that finds the key only on disk
    faults on a nil entry; it leaves the key in the cache, so a second call
    succeeds. *)
Theorem get_from_disk_faults b key now t k e :
  ks_keys k !! makeKeyIndex b key = None -> ks_disk k !! (b, key) = Some (Some e) ->
  (GetKey b key now k).2 = Panic "nil pointer dereference" /\
  (GetKey b key t (GetKey b key now k).1).2 = Ok (dekOf e).
Proof.
  intros Hc Hd. unfold GetKey at 1 3. rewrite Hc. unfold loadKey. rewrite Hd. split; [done|].
  apply GetKey_cached. simpl. apply lookup_insert_eq.
Qed.

Definition demoEntry : KeyEntry := mkKeyEntry "id" "b" "k" [1] "alg" 1 5 9.

Lemma get_from_disk_faults_witness :
  (GetKey "b" "k" 1 (mkKeyStore ∅ {[ ("b", "k") := Some demoEntry ]} [] 10)).2
    = Panic "nil pointer dereference".
Proof.
  apply (get_from_disk_faults "b" "k" 1 2 (mkKeyStore ∅ {[ ("b", "k") := Some demoEntry ]} [] 10)
           demoEntry); reflexivity.
Defined.

(** A store that fails to write its file drops the previous key of the
    object from the cache, so the next [GetKey] of that object, whose old key
    is still on disk, faults. *)
Theorem failed_store_makes_get_fault k m b key d0 d size id now t msg :
  ks_rel k m -> nochar slash b = true -> m !! (b, key) = Some d0 ->
  is_err (StoreKey b key d size id now (Err msg) k).2 = true /\
  (GetKey b key t (StoreKey b key d size id now (Err msg) k).1).2 = Panic "nil pointer dereference".
Proof.
  intros HR Hb Hm. split; [done|]. destruct (HR b key Hb) as [Hk Hd].
  destruct (ks_keys k !! makeKeyIndex b key) as [e|] eqn:E; simpl in *; [|congruence].
  unfold GetKey, loadKey. simpl. by rewrite lookup_delete_eq, Hd.
Qed.

Definition demoStored : KeyStoreService :=
  (ks_exec 1 (OpStore "b" "k" demoDek 3 "id1") (NewKeyStoreService 0 ∅)).1.

Lemma failed_store_makes_get_fault_witness :
  (GetKey "b" "k" 3 (StoreKey "b" "k" demoDek 4 "id2" 2 (Err "disk full") demoStored).1).2
    = Panic "nil pointer dereference".
Proof.
  eapply (failed_store_makes_get_fault demoStored
            (exec (OpStore "b" "k" demoDek 3 "id1") ∅).1 "b" "k").
  - apply ks_exec_refines; [|reflexivity]. intros b key _. split; reflexivity.
  - reflexivity.
  - reflexivity.
Defined.

(** ** Key services *)

Section KeyServices.
Context {lib : CryptoLib} {laws : CryptoLaws}.

(** A key unwrapping service that starts without a stored private key
    faults after generating and saving one; the next start loads it. *)
Lemma first_start_of_unwrap_faults keyID AuditSize (p : ecPriv) :
  NewKeyUnwrapService keyID AuditSize None (Ok p) (Ok tt) = Panic "nil pointer dereference" /\
  is_ok (NewKeyUnwrapService keyID AuditSize (Some (P256, p)) (Ok p) (Ok tt)) = true.
Proof. done. Qed.

(** The unwrapping service takes every ephemeral point to be 65 bytes, so
    with the curves P-384 and P-521 that the configuration also offers it
    rejects every wrapped key, including those its own key pair wrapped. *)
Theorem unwrap_rejects_other_curves name keyID ka am priv id ua um dek r d tok u b k pub ur now :
  name = "P-384" \/ name = "P-521" ->
  encryptDEKWithPublicKey (mkKeyGen (ecPub (selectCurve name) priv) keyID (selectCurve name) ka am)
    dek r = Ok d ->
  is_ok (UnwrapKey tok u b k d pub ur now (mkKeyUnwrap priv id (selectCurve name) ua um)).2 = false.
Proof.
  intros Hname _. unfold UnwrapKey.
  pose proof (decryptDEK_other_curve (selectCurve name) priv id ua um (ed_EncryptedKey d)) as Hd.
  destruct (decryptDEKWithPrivateKey _ _); [|done..].
  exfalso. assert (selectCurve name <> P256) as Hc by (by destruct Hname as [->| ->]).
  by specialize (Hd Hc).
Qed.
End KeyServices.

Definition demoRand : @KeyGenRand toy :=
  @mkKeyGenRand toy (Ok []) (Ok 3) (Ok []) "id" (Ok 4) (Ok []).

Lemma unwrap_rejects_other_curves_witness : exists d,
  encryptDEKWithPublicKey (@mkKeyGen (@ecPub toy P384 7) "k" P384 [] 5) [1; 2] demoRand = Ok d /\
  is_ok (UnwrapKey "t" "u" "b" "k" d [] (@mkKeyUnwrapRand toy (Ok 5) (Ok [])) 1
           (@mkKeyUnwrap toy 7 "id" P384 [] 5)).2 = false.
Proof.
  eexists. split; [vm_compute; reflexivity|].
  eapply (unwrap_rejects_other_curves (lib := toy) "P-384" "k" [] 5%nat 7 "id" [] 5 [1; 2] demoRand).
  - by left.
  - vm_compute. reflexivity.
Defined.
