(* ===== verification/Bolt.v ===== *)
(** * The embedded key-value store (go.etcd.io/bbolt)

    IAM data and queued tasks live in buckets of a bbolt database.  The
    package is not part of the repository, so it is a parameter: the class
    [Bolt] has the calls the sources make on a bucket inside one transaction,
    [BoltLaws] what bbolt documents of them, and [BoltReliable] that a write
    under an acceptable key is not refused (no disk fault).  A bucket holds
    the values whose JSON the sources write; [MapBolt] is an instance on
    finite maps. *)

From S2P Require Import Prelude GoStrings.
From Stdlib Require Import Ascii String.
From stdpp Require Import base list.

(** Values of one bucket share a type. *)
Class Bolt := {
  bucket : Type -> Type;
  bEmpty : forall {V}, bucket V;
  (** [b.Get(key)]. *)
  bGet : forall {V}, bucket V -> string -> option V;
  (** [db.Update] around [b.Put(key, value)]; the state is kept on error. *)
  bPut : forall {V}, bucket V -> string -> V -> res (bucket V);
  (** [db.Update] around [b.Delete(key)]. *)
  bDelete : forall {V}, bucket V -> string -> res (bucket V);
  (** The pairs [b.ForEach] visits, in order. *)
  bForEach : forall {V}, bucket V -> list (string * V);
}.

(** bbolt.MaxKeySize. *)
Definition MaxKeySize : Z := 32768.
Definition goodKey (k : string) : bool :=
  bool_decide (k <> ""%string) && (Z.of_nat (String.length k) <=? MaxKeySize)%Z.

Class BoltLaws `{Bolt} := {
  bGet_empty V k : bGet (V := V) bEmpty k = None;
  bGet_put V (b b' : bucket V) k v k' :
    bPut b k v = Ok b' -> bGet b' k' = if decide (k' = k) then Some v else bGet b k';
  bGet_delete V (b b' : bucket V) k k' :
    bDelete b k = Ok b' -> bGet b' k' = if decide (k' = k) then None else bGet b k';
  bForEach_get V (b : bucket V) k v : (k, v) ∈ bForEach b <-> bGet b k = Some v;
  bForEach_sorted V (b : bucket V) :
    StronglySorted (fun x y => sltb x.1 y.1 = true) (bForEach b);
  bPut_key V (b b' : bucket V) k v : bPut b k v = Ok b' -> goodKey k = true;
  bPut_nopanic V (b : bucket V) k v w : bPut b k v <> Panic w;
  bDelete_nopanic V (b : bucket V) k w : bDelete b k <> Panic w;
}.

Class BoltReliable `{Bolt} := {
  bPut_ok V (b : bucket V) k v : goodKey k = true -> is_ok (bPut b k v) = true;
  bDelete_ok V (b : bucket V) k : is_ok (bDelete b k) = true;
}.

(** ** The order of keys *)

Lemma sltb_irrefl s : sltb s s = false.
Proof. induction s as [|c s IH]; simpl; [done|]. by rewrite Nat.ltb_irrefl. Qed.

Lemma sltb_trans s t u : sltb s t = true -> sltb t u = true -> sltb s u = true.
Proof.
  revert t u. induction s as [|a s IH]; intros [|b t] [|c u]; simpl; try done.
  repeat case_match_goal; try done;
    repeat match goal with
    | H : (_ <? _)%nat = true |- _ => apply Nat.ltb_lt in H
    | H : (_ <? _)%nat = false |- _ => apply Nat.ltb_ge in H
    end; intros; try lia; eauto.
Qed.

Lemma sltb_total s t : s <> t -> sltb s t = true \/ sltb t s = true.
Proof.
  revert t. induction s as [|a s IH]; intros [|b t] N; simpl; auto.
  destruct (nat_of_ascii a <? nat_of_ascii b)%nat eqn:E1; [auto|].
  destruct (nat_of_ascii b <? nat_of_ascii a)%nat eqn:E2; [auto|].
  apply Nat.ltb_ge in E1, E2.
  assert (a = b) as ->.
  { rewrite <- (ascii_nat_embedding a), <- (ascii_nat_embedding b). f_equal. lia. }
  apply IH. congruence.
Qed.

Definition sleb (s t : string) : bool := bool_decide (s = t) || sltb s t.

(** Pairs compared by key. *)
Definition key_le {V} (x y : string * V) : Prop := sleb x.1 y.1 = true.
#[global] Instance key_le_dec {V} : RelDecision (@key_le V).
Proof. intros x y. unfold key_le. apply _. Defined.
#[global] Instance key_le_total {V} : Total (@key_le V).
Proof.
  intros [s ?] [t ?]. unfold key_le, sleb; simpl.
  destruct (decide (s = t)) as [->|N]; [left; by rewrite bool_decide_true|].
  destruct (sltb_total s t N) as [->| ->]; [left|right]; apply orb_true_r.
Qed.
#[global] Instance key_le_trans {V} : Transitive (@key_le V).
Proof.
  intros [s ?] [t ?] [u ?]. unfold key_le, sleb; simpl. intros H1 H2.
  apply orb_true_iff in H1 as [H1|H1], H2 as [H2|H2]; boolify; subst;
    apply orb_true_iff; rewrite ?bool_decide_eq_true; eauto using sltb_trans.
Qed.

(** ** The instance on finite maps *)

Module MapBolt.
Definition put {V} (b : gmap string V) (k : string) (v : V) : res (gmap string V) :=
  if bool_decide (k = ""%string) then Err "key required"
  else if (Z.of_nat (String.length k) <=? MaxKeySize)%Z then Ok (<[k:=v]> b)
  else Err "key too large".
Definition forEach {V} (b : gmap string V) : list (string * V) :=
  merge_sort key_le (map_to_list b).

#[export] Instance mapBolt : Bolt := {|
  bucket V := gmap string V;
  bEmpty V := ∅;
  bGet V b k := b !! k;
  bPut V := put;
  bDelete V b k := Ok (delete k b);
  bForEach V := forEach;
|}.

Lemma forEach_sorted {V} (b : gmap string V) :
  StronglySorted (fun x y => sltb x.1 y.1 = true) (forEach b).
Proof.
  assert (NoDup (forEach b).*1) as ND.
  { unfold forEach. rewrite merge_sort_Permutation. apply NoDup_fst_map_to_list. }
  assert (StronglySorted key_le (forEach b)) as S by apply (StronglySorted_merge_sort _ _).
  induction S as [|x l S IH F]; constructor.
  - apply IH. by inversion ND.
  - inversion ND as [|?? ND' _]; subst.
    rewrite Forall_forall in F |- *. intros y Hy. specialize (F y Hy).
    unfold key_le, sleb in F. apply orb_true_iff in F as [F|F]; [|done].
    boolify. destruct ND'. rewrite F. apply list_elem_of_fmap_2, Hy.
Qed.

#[export] Instance mapBolt_laws : BoltLaws.
Proof.
  constructor; simpl; intros.
  - apply lookup_empty.
  - unfold put in *.
    destruct (bool_decide (k = ""%string)); [done|].
    destruct (_ <=? MaxKeySize)%Z; simplify_eq. case_decide; subst;
      [apply lookup_insert_eq|by apply lookup_insert_ne].
  - simplify_eq. case_decide; subst; [apply lookup_delete_eq|by apply lookup_delete_ne].
  - unfold forEach. rewrite merge_sort_Permutation. apply elem_of_map_to_list.
  - apply forEach_sorted.
  - unfold put, goodKey in *. case_bool_decide; [done|].
    rewrite bool_decide_true by done. by destruct (_ <=? MaxKeySize)%Z.
  - unfold put. by repeat case_match_goal.
  - done.
Qed.

#[export] Instance mapBolt_reliable : BoltReliable.
Proof.
  constructor; simpl; intros; [|done].
  unfold put, goodKey in *. boolify. rewrite bool_decide_false by done.
  by destruct (Z.leb_spec (Z.of_nat (String.length k)) MaxKeySize); [|lia].
Qed.
End MapBolt.

(** ** Consequences *)

Section Facts.
Context `{BoltLaws}.

Lemma bForEach_keys_NoDup {V} (b : bucket V) : NoDup (bForEach b).*1.
Proof.
  pose proof (bForEach_sorted V b) as S.
  induction S as [|x l S IH F]; simpl; constructor; [|done].
  intros Hin. apply list_elem_of_fmap_1 in Hin as (y & E & Hy).
  rewrite Forall_forall in F. specialize (F y Hy). rewrite E, sltb_irrefl in F. done.
Qed.

(** A law in the shape used by invariants on successful writes. *)
Lemma bGet_put_inv {V} (b b' : bucket V) k v k' x :
  bPut b k v = Ok b' -> bGet b' k' = Some x ->
  (k' = k /\ x = v) \/ (k' <> k /\ bGet b k' = Some x).
Proof. intros P. rewrite (bGet_put _ _ _ _ _ _ P). case_decide; naive_solver. Qed.
End Facts.

(** ** Cursors *)

Lemma HasPrefix_not_less k p : HasPrefix k p = true -> sltb k p = false.
Proof.
  unfold HasPrefix. revert k. induction p as [|c p IH]; intros [|d k]; simpl; try done.
  destruct (ascii_dec c d) as [->|]; [|done]. intros E. rewrite Nat.ltb_irrefl. by apply IH.
Qed.

Lemma prefix_convex p k k' : sltb k p = false -> sltb k k' = true -> HasPrefix k' p = true ->
  HasPrefix k p = true.
Proof.
  unfold HasPrefix. revert k k'. induction p as [|c p IH]; intros [|d k] [|e k']; simpl; try done.
  destruct (ascii_dec c e) as [->|]; [|done].
  destruct (Nat.ltb_spec (nat_of_ascii d) (nat_of_ascii e)); [done|].
  destruct (Nat.ltb_spec (nat_of_ascii e) (nat_of_ascii d)); [done|].
  assert (e = d) as ->.
  { rewrite <- (ascii_nat_embedding e), <- (ascii_nat_embedding d). f_equal. lia. }
  destruct (ascii_dec d d); [|done]. apply IH.
Qed.

(** [c.Seek(prefix)], then [c.Next()] while the key has the prefix. *)
Fixpoint seek {V} (prefix : string) (l : list (string * V)) : list (string * V) :=
  match l with [] => [] | x :: l' => if sltb x.1 prefix then seek prefix l' else l end.
Fixpoint whilePrefix {V} (prefix : string) (l : list (string * V)) : list (string * V) :=
  match l with
  | [] => []
  | x :: l' => if HasPrefix x.1 prefix then x :: whilePrefix prefix l' else []
  end.
Definition scanPrefix `{Bolt} {V} (prefix : string) (b : bucket V) : list (string * V) :=
  whilePrefix prefix (seek prefix (bForEach b)).
Fixpoint deleteKeys `{Bolt} {V} (ks : list string) (b : bucket V) : res (bucket V) :=
  match ks with [] => Ok b | k :: ks => b ← bDelete b k; deleteKeys ks b end.

Definition withPrefix {V} (p : string) (l : list (string * V)) : list (string * V) :=
  List.filter (fun x => HasPrefix x.1 p) l.

Section Cursors.
Context `{BoltLaws}.

Lemma whilePrefix_filter {V} p (l : list (string * V)) :
  StronglySorted (fun x y => sltb x.1 y.1 = true) l ->
  match l with [] => True | x :: _ => sltb x.1 p = false end -> whilePrefix p l = withPrefix p l.
Proof.
  unfold withPrefix. induction 1 as [|x l S IH F]; simpl; intros N; [done|].
  rewrite Forall_forall in F. destruct (HasPrefix x.1 p) eqn:P.
  - f_equal. apply IH. destruct l as [|y l]; [done|].
    destruct (sltb y.1 p) eqn:Y; [|done]. rewrite (sltb_trans x.1 y.1 p) in N; [done|apply F, list_elem_of_here|done].
  - clear IH S. induction l as [|y l IH]; [done|]. simpl. destruct (HasPrefix y.1 p) eqn:Q.
    + rewrite (prefix_convex p x.1 y.1) in P; [done|done|apply F, list_elem_of_here|done].
    + apply IH. intros z Z. apply F. by apply list_elem_of_further.
Qed.

(** The cursor loop visits exactly the pairs whose key has the prefix, in
    order. *)
Lemma scanPrefix_filter {V} p (b : bucket V) : scanPrefix p b = withPrefix p (bForEach b).
Proof.
  unfold scanPrefix. pose proof (bForEach_sorted _ b) as S.
  induction S as [|x l S IH F]; simpl; [done|]. unfold withPrefix in *. simpl. destruct (sltb x.1 p) eqn:E.
  - destruct (HasPrefix x.1 p) eqn:P; [|done]. rewrite HasPrefix_not_less in E by done. done.
  - rewrite (whilePrefix_filter p (x :: l)); [done|by constructor|done].
Qed.

Lemma elem_of_withPrefix {V} p (l : list (string * V)) x :
  x ∈ withPrefix p l <-> x ∈ l /\ HasPrefix x.1 p = true.
Proof. unfold withPrefix. by rewrite !list_elem_of_In, filter_In. Qed.

Lemma elem_of_prefix_scan {V} (b : bucket V) p k :
  k ∈ fst <$> scanPrefix p b <-> is_Some (bGet b k) /\ HasPrefix k p = true.
Proof.
  rewrite scanPrefix_filter, list_elem_of_fmap. split.
  - intros ([k' v] & -> & [I P]%elem_of_withPrefix). apply bForEach_get in I. split; [by eexists|done].
  - intros [[v G] P]. exists (k, v). split; [done|]. apply elem_of_withPrefix.
    split; [by apply bForEach_get|done].
Qed.

(** A scan depends on the values under its prefix only. *)
Lemma scanPrefix_ext {V} p (b b' : bucket V) :
  (forall k, HasPrefix k p = true -> bGet b k = bGet b' k) -> scanPrefix p b = scanPrefix p b'.
Proof.
  intros E. assert (AntiSymm (=) (fun x y : string * V => sltb x.1 y.1 = true)) as AS.
  { intros x y X Y. pose proof (sltb_irrefl x.1) as Z. by rewrite (sltb_trans _ _ _ X Y) in Z. }
  assert (forall c : bucket V, StronglySorted (fun x y => sltb x.1 y.1 = true) (withPrefix p (bForEach c))) as S.
  { intros c. unfold withPrefix. pose proof (bForEach_sorted _ c) as S.
    induction S as [|x l S IH F]; simpl; [constructor|]. destruct (HasPrefix x.1 p); [|done].
    constructor; [done|]. rewrite Forall_forall in F |- *. intros y Y. apply F.
    by apply list_elem_of_In, filter_In in Y as [?%list_elem_of_In _]. }
  rewrite !scanPrefix_filter. apply (StronglySorted_unique _); [done..|].
  assert (forall c : bucket V, NoDup (withPrefix p (bForEach c))) as ND.
  { intros c. apply NoDup_ListNoDup, List.NoDup_filter, NoDup_ListNoDup, (NoDup_fmap_1 fst), bForEach_keys_NoDup. }
  apply NoDup_Permutation; [done..|]. intros [k v]. rewrite !elem_of_withPrefix, !bForEach_get. simpl.
  split; intros [G P]; (split; [|done]); [rewrite <- E|rewrite E]; done.
Qed.
Lemma scanPrefix_none {V} p (b : bucket V) :
  (forall k, HasPrefix k p = true -> bGet b k = None) -> scanPrefix p b = [].
Proof.
  intros E. rewrite scanPrefix_filter. destruct (withPrefix p (bForEach b)) as [|[k v] l] eqn:W; [done|].
  assert ((k, v) ∈ withPrefix p (bForEach b)) as [I%bForEach_get P]%elem_of_withPrefix
    by (rewrite W; apply list_elem_of_here). by rewrite E in I.
Qed.

Lemma deleteKeys_get {V} ks (b b' : bucket V) k : deleteKeys ks b = Ok b' ->
  bGet b' k = if decide (k ∈ ks) then None else bGet b k.
Proof.
  revert b. induction ks as [|x ks IH]; simpl; intros b E; [by simplify_eq|].
  destruct (bDelete b x) as [b1| |] eqn:D; simplify_eq. rewrite (IH _ E), (bGet_delete _ _ _ _ _ D).
  repeat case_decide; try done; set_solver.
Qed.
Lemma deleteKeys_nopanic {V} ks (b : bucket V) w : deleteKeys ks b <> Panic w.
Proof.
  revert b. induction ks as [|x ks IH]; intros b; simpl; [done|].
  destruct (bDelete b x) eqn:D; simpl; [done..|]. by apply bDelete_nopanic in D.
Qed.
Lemma deleteKeys_ok `{!BoltReliable} {V} ks (b : bucket V) : exists b', deleteKeys ks b = Ok b'.
Proof.
  revert b. induction ks as [|x ks IH]; intros b; simpl; [by eexists|].
  pose proof (bDelete_ok _ b x). destruct (bDelete b x); try done. apply IH.
Qed.
End Cursors.

(** ** Sums over a bucket *)

Definition totalZ {A} (f : A -> Z) (l : list A) : Z := foldr (fun x n => (f x + n)%Z) 0%Z l.

Lemma totalZ_perm {A} (f : A -> Z) l l' : l ≡ₚ l' -> totalZ f l = totalZ f l'.
Proof. unfold totalZ. induction 1; simpl; lia. Qed.
Lemma totalZ_zero {A} (f : A -> Z) l : (forall x, x ∈ l -> f x = 0%Z) -> totalZ f l = 0%Z.
Proof.
  induction l as [|x l IH]; simpl; intros Z; [done|].
  rewrite Z by apply list_elem_of_here. rewrite IH; [done|]. intros y Y. apply Z. by apply list_elem_of_further.
Qed.
Lemma totalZ_nonneg {A} (f : A -> Z) l : (forall x, x ∈ l -> 0 <= f x)%Z -> (0 <= totalZ f l)%Z.
Proof.
  induction l as [|x l IH]; simpl; intros Z; [done|].
  pose proof (Z x (list_elem_of_here _ _)).
  enough (0 <= totalZ f l)%Z by (unfold totalZ in *; lia). apply IH. intros y Y. apply Z. by apply list_elem_of_further.
Qed.

Section Sums.
Context `{BoltLaws}.

(** The pairs other than the one under [k]. *)
Definition others_of {V} (k : string) (l : list (string * V)) : list (string * V) :=
  List.filter (fun x => negb (bool_decide (x.1 = k))) l.

Lemma elem_of_others {V} k (b : bucket V) x v : (x, v) ∈ others_of k (bForEach b) <->
  x <> k /\ bGet b x = Some v.
Proof.
  unfold others_of. rewrite list_elem_of_In, filter_In, <- list_elem_of_In, bForEach_get. simpl.
  rewrite negb_true_iff, bool_decide_eq_false. tauto.
Qed.
Lemma NoDup_others {V} k (b : bucket V) : NoDup (others_of k (bForEach b)).
Proof. apply NoDup_ListNoDup, List.NoDup_filter, NoDup_ListNoDup, (NoDup_fmap_1 fst), bForEach_keys_NoDup. Qed.
Lemma NoDup_bForEach {V} (b : bucket V) : NoDup (bForEach b).
Proof. apply (NoDup_fmap_1 fst), bForEach_keys_NoDup. Qed.

Lemma bForEach_put {V} (b b' : bucket V) k v : bPut b k v = Ok b' ->
  bForEach b' ≡ₚ (k, v) :: others_of k (bForEach b).
Proof.
  intros P. apply NoDup_Permutation; [apply NoDup_bForEach| |].
  - constructor; [|apply NoDup_others]. intros I. by apply elem_of_others in I as [? _].
  - intros [x w]. rewrite elem_of_cons, elem_of_others, bForEach_get, (bGet_put _ _ _ _ _ _ P).
    case_decide; naive_solver.
Qed.
Lemma bForEach_delete {V} (b b' : bucket V) k : bDelete b k = Ok b' ->
  bForEach b' ≡ₚ others_of k (bForEach b).
Proof.
  intros P. apply NoDup_Permutation; [apply NoDup_bForEach|apply NoDup_others|].
  intros [x w]. rewrite elem_of_others, bForEach_get, (bGet_delete _ _ _ _ _ P). case_decide; naive_solver.
Qed.
Lemma bForEach_others {V} (b : bucket V) k :
  bForEach b ≡ₚ match bGet b k with Some v => [(k, v)] | None => [] end ++ others_of k (bForEach b).
Proof.
  destruct (bGet b k) as [v|] eqn:G; simpl;
    (apply NoDup_Permutation; [apply NoDup_bForEach| |]).
  - constructor; [|apply NoDup_others]. intros I. by apply elem_of_others in I as [? _].
  - intros [x w]. rewrite elem_of_cons, elem_of_others, bForEach_get.
    destruct (decide (x = k)); naive_solver.
  - apply NoDup_others.
  - intros [x w]. rewrite elem_of_others, bForEach_get. destruct (decide (x = k)); naive_solver.
Qed.

Definition atKey {V} (f : string * V -> Z) (b : bucket V) (k : string) : Z :=
  match bGet b k with Some v => f (k, v) | None => 0%Z end.

Lemma total_others {V} (f : string * V -> Z) (b : bucket V) k :
  totalZ f (others_of k (bForEach b)) = (totalZ f (bForEach b) - atKey f b k)%Z.
Proof.
  rewrite (totalZ_perm f _ _ (bForEach_others b k)). unfold atKey. destruct (bGet b k); simpl;
    unfold totalZ; lia.
Qed.
Lemma total_put {V} (f : string * V -> Z) (b b' : bucket V) k v : bPut b k v = Ok b' ->
  totalZ f (bForEach b') = (f (k, v) + totalZ f (bForEach b) - atKey f b k)%Z.
Proof.
  intros P. rewrite (totalZ_perm f _ _ (bForEach_put _ _ _ _ P)). simpl.
  pose proof (total_others f b k). unfold totalZ in *. lia.
Qed.
Lemma total_delete {V} (f : string * V -> Z) (b b' : bucket V) k : bDelete b k = Ok b' ->
  totalZ f (bForEach b') = (totalZ f (bForEach b) - atKey f b k)%Z.
Proof. intros P. by rewrite (totalZ_perm f _ _ (bForEach_delete _ _ _ P)), total_others. Qed.
End Sums.
