(* ===== verification/IamTypes.v ===== *)
(** * IAM: data types and resource names (internal/iam/types.go)

    The records of users, groups, roles, policies and the evaluation context.
    A nil and an empty slice or map behave alike everywhere the sources look
    at one, and are the same value here. *)

From S2P Require Import Prelude GoStrings.
From Stdlib Require Import Ascii String.
From stdpp Require Import base list.

#[global] Open Scope string_scope.
#[global] Open Scope Z_scope.

Definition ARNPrefix : string := "arn:cipherlake:".
Definition ServiceS3 : string := "s3".
Definition ServiceIAM : string := "iam".
Definition ServiceVector : string := "vector".
Definition AccessKeyIDPrefix : string := "AKIA".
Definition AccessKeyActive : string := "Active".
Definition AccessKeyInactive : string := "Inactive".
Definition EffectAllow : string := "Allow".
Definition EffectDeny : string := "Deny".
Definition PolicyVersion : string := "2012-10-17".
Definition DefaultMaxSessionDuration : Z := 3600.

(** A value of a condition block: what [encoding/json] yields for an
    [interface{}].  [CArr] keeps, per item, whether it is a string; [COther]
    carries the text [fmt.Sprintf("%v", v)] gives for any other value. *)
Inductive cvalue :=
| CStr (s : string)
| CBool (b : bool)
| CArr (items : list (option string))
| COther (text : string).

Record Principal := mkPrincipal {
  pr_AWS : list string;
  pr_Service : list string;
  pr_Federated : list string
}.

(** [Condition map[string]map[string]interface{}], as the pairs in the order
    a [range] loop meets them.  Go leaves that order open, so statements
    quantify over the lists. *)
Definition Conditions := list (string * list (string * cvalue)).

Record Statement := mkStatement {
  st_Sid : string;
  st_Effect : string;
  st_Action : list string;
  st_NotAction : list string;
  st_Resource : list string;
  st_NotResource : list string;
  st_Principal : option Principal;
  st_NotPrincipal : option Principal;
  st_Condition : Conditions
}.

Record PolicyDocument := mkPolicyDocument {
  pd_Version : string;
  pd_Id : string;
  pd_Statement : list Statement
}.

Record AccessKey := mkAccessKey {
  ak_AccessKeyID : string;
  ak_SecretKeyEnc : bytes;
  ak_Status : string;
  ak_CreatedAt : Time;
  ak_LastUsedAt : option Time;
  ak_Description : string
}.

Record IAMUser := mkIAMUser {
  iu_ID : string;
  iu_Name : string;
  iu_DisplayName : string;
  iu_AccessKeys : list AccessKey;
  iu_Groups : list string;
  iu_AttachedPolicies : list string;
  iu_InlinePolicies : list PolicyDocument;
  iu_PermissionBoundary : string;
  iu_PasswordHash : string;
  iu_CreatedAt : Time;
  iu_LastActivityAt : option Time
}.

Record IAMGroup := mkIAMGroup {
  ig_Name : string;
  ig_Description : string;
  ig_Users : list string;
  ig_AttachedPolicies : list string;
  ig_CreatedAt : Time
}.

Record IAMRole := mkIAMRole {
  ir_Name : string;
  ir_Description : string;
  ir_TrustPolicy : PolicyDocument;
  ir_PermissionPolicies : list string;
  ir_MaxSessionDuration : Z;
  ir_Path : string;
  ir_CreatedAt : Time
}.

Record IAMPolicy := mkIAMPolicy {
  ip_ARN : string;
  ip_Name : string;
  ip_Description : string;
  ip_Type : string;
  ip_Document : PolicyDocument;
  ip_Path : string;
  ip_CreatedAt : Time;
  ip_UpdatedAt : Time
}.

Record BucketPolicy := mkBucketPolicy {
  bp_Bucket : string;
  bp_Document : PolicyDocument;
  bp_UpdatedAt : Time
}.

Record TemporaryCredential := mkTempCred {
  tc_AccessKeyID : string;
  tc_SecretAccessKey : string;
  tc_SessionToken : string;
  tc_Expiration : Time
}.

Record EvalContext := mkEvalContext {
  ec_Principal : string;
  ec_Action : string;
  ec_Resource : string;
  ec_Conditions : gmap string string;
  ec_SourceIP : string;
  ec_Time : Time;
  ec_UserAgent : string;
  ec_PrincipalType : string;
  ec_ResourceTags : gmap string string;
  ec_PrincipalTags : gmap string string;
  ec_RequestTags : gmap string string;
  ec_S3Prefix : string;
  ec_S3ACL : string
}.

Inductive Decision := DecisionDeny | DecisionAllow | DecisionImplicitDeny.
#[global] Instance Decision_eq_dec : EqDecision Decision.
Proof. solve_decision. Defined.

Definition Decision_String (d : Decision) : string :=
  match d with
  | DecisionAllow => "Allow"
  | DecisionDeny => "Deny"
  | DecisionImplicitDeny => "ImplicitDeny"
  end.

Record EvalResult := mkEvalResult {
  er_Decision : Decision;
  er_MatchedBy : string;
  er_PolicyType : string;
  er_PolicyName : string;
  er_Details : string
}.

Record SimulateResponse := mkSimulateResponse {
  sr_Decision : string;
  sr_MatchedBy : string;
  sr_PolicyType : string;
  sr_Details : string
}.

Record CreateAccessKeyResult := mkAKResult {
  cr_AccessKeyID : string;
  cr_SecretAccessKey : string;
  cr_Status : string;
  cr_CreatedAt : Time
}.

Record AssumeRoleRequest := mkAssumeRole {
  rq_RoleARN : string;
  rq_RoleSessionName : string;
  rq_DurationSeconds : Z;
  rq_ExternalID : string;
  rq_Policy : string
}.

(** ** Resource names *)

Definition MakeARN (service resource : string) : string :=
  ARNPrefix +:+ service +:+ ":::" +:+ resource.
Definition MakeUserARN (userName : string) : string := MakeARN ServiceIAM ("user/" +:+ userName).
Definition MakeRoleARN (roleName : string) : string := MakeARN ServiceIAM ("role/" +:+ roleName).
Definition MakePolicyARN (policyName : string) : string :=
  MakeARN ServiceIAM ("policy/" +:+ policyName).
Definition MakeBucketARN (bucketName : string) : string := MakeARN ServiceS3 bucketName.
Definition MakeObjectARN (bucketName objectKey : string) : string :=
  MakeARN ServiceS3 (bucketName +:+ "/" +:+ objectKey).
Definition MakeVectorIndexARN (bucketName : string) : string :=
  MakeARN ServiceVector ("index/" +:+ bucketName).
Definition MakeVectorDocARN (bucketName objectKey : string) : string :=
  MakeARN ServiceVector ("index/" +:+ bucketName +:+ "/" +:+ objectKey).
Definition IsVectorAction (action : string) : bool := HasPrefix action (ServiceVector +:+ ":").

Definition s3Prefix : string := ARNPrefix +:+ ServiceS3 +:+ ":::".

(** [extractBucketFromResource]. *)
Definition extractBucketFromResource (resource : string) : string :=
  if HasPrefix resource s3Prefix then fst (cut slash (TrimPrefix resource s3Prefix)) else "".

Definition ResourceToS3Path (resource : string) : string * string :=
  if HasPrefix resource s3Prefix then
    match cut slash (TrimPrefix resource s3Prefix) with
    | (b, None) => (b, "")
    | (b, Some k) => (b, k)
    end
  else ("", "").

(** [filepath.ToSlash] is the identity where the separator is a slash. *)
Definition S3PathToResource (b key : string) : string :=
  if bool_decide (key = "") then MakeBucketARN b else MakeObjectARN b key.

Definition IsAdminAction (action : string) : bool :=
  HasPrefix action "iam:" || HasPrefix action "sts:" || HasPrefix action "admin:".

(** [extractRoleNameFromARN] (service.go). *)
Definition extractRoleNameFromARN (arn : string) : string :=
  if HasPrefix arn ARNPrefix then
    let parts := Split slash arn in
    if (length parts <? 2)%nat then "" else default "" (last parts)
  else "".

(** ** Lemmas *)

Lemma MakeBucketARN_prefix b : MakeBucketARN b = s3Prefix +:+ b.
Proof. reflexivity. Qed.

Lemma MakeObjectARN_prefix b k : MakeObjectARN b k = s3Prefix +:+ (b +:+ String slash k).
Proof. reflexivity. Qed.

