(* ===== verification/IamMatch.v ===== *)
(** * IAM: matching a statement against a request (internal/iam/policy.go)

    Actions, resources, principals and condition blocks.  Everything
    terminates except [resolveVariableSubstitution], whose loop re-reads the
    text it has just substituted; it takes fuel, and a result [None] means
    the call has not returned yet. *)

From S2P Require Import Prelude GoStrings IamTypes.
From Stdlib Require Import Ascii String SpecFloat.
From stdpp Require Import base list.

(** What conditions use of [strconv], [time] and [net/netip]. *)
Class GoParsers := {
  (** [strconv.ParseFloat(s, 64)]; [None] on error. *)
  ParseFloat : string -> option spec_float;
  (** [time.Parse(time.RFC3339, s)] and [t.Format(time.RFC3339)]. *)
  ParseRFC3339 : string -> option Time;
  FormatRFC3339 : Time -> string;
  (** [netip.ParseAddr(ip)], [netip.ParsePrefix(cidr)], [prefix.Contains(addr)]. *)
  netAddr : Type;
  netPrefix : Type;
  ParseAddr : string -> option netAddr;
  ParsePrefix : string -> option netPrefix;
  prefixContains : netPrefix -> netAddr -> bool;
}.

(** ** Glob matching *)

Definition star : ascii := "*"%char.
Definition quest : ascii := "?"%char.

(** The scan of [globMatch]; the result is what the function returns, and
    [None] means out of fuel. *)
Fixpoint globLoop (fuel : nat) (p s : list ascii) (pi si : nat) (starIdx : option nat)
    (matchIdx : nat) : option bool :=
  match fuel with
  | O => None
  | S fuel =>
    match s !! si with
    | None => Some (forallb (fun c => bool_decide (c = star)) (drop pi p))
    | Some d =>
      let backtrack :=
        match starIdx with
        | Some k => globLoop fuel p s (S k) (S matchIdx) starIdx (S matchIdx)
        | None => Some false
        end in
      match p !! pi with
      | Some c =>
        if bool_decide (c = d) || bool_decide (c = quest)
        then globLoop fuel p s (S pi) (S si) starIdx matchIdx
        else if bool_decide (c = star)
             then globLoop fuel p s (S pi) si (Some pi) si
             else backtrack
      | None => backtrack
      end
    end
  end.

Definition globFuel (m n : nat) : nat := S (n * (m + n + 2) + (m + n)).

Definition globMatch (pattern str : string) : bool :=
  let p := list_ascii_of_string pattern in
  let s := list_ascii_of_string str in
  default false (globLoop (globFuel (length p) (length s)) p s 0 0 None 0).

Definition hasWildcard (pattern : string) : bool := Contains pattern "*" || Contains pattern "?".

(** [matchResource]. *)
Definition matchResource (pattern resource : string) : bool :=
  if bool_decide (pattern = "*") then true
  else if bool_decide (pattern = resource) then true
  else if hasWildcard pattern then globMatch pattern resource
  else false.
Definition resourceMatches (policyResources : list string) (requestResource : string) : bool :=
  existsb (fun r => matchResource r requestResource) policyResources.

(** [principalMatches]. *)
Definition principalMatches (p : Principal) (requestPrincipal : string) : bool :=
  existsb (fun x =>
      bool_decide (x = "*") || bool_decide (x = requestPrincipal) ||
      (HasPrefix requestPrincipal ARNPrefix && globMatch x requestPrincipal)) (pr_AWS p)
  || (bool_decide (pr_AWS p = []) && bool_decide (pr_Service p = []) &&
      bool_decide (pr_Federated p = [])).

Section Match.
Context `{GoUnicode} `{GoParsers}.

(** [matchAction]: case-insensitive. *)
Definition matchAction (pattern action : string) : bool :=
  if bool_decide (pattern = "*") then true
  else
    let pattern := ToLower pattern in
    let action := ToLower action in
    if bool_decide (pattern = action) then true
    else if HasSuffix pattern ":*" then HasPrefix action (TrimSuffix pattern ":*" +:+ ":")
    else if hasWildcard pattern then globMatch pattern action
    else false.
Definition actionMatches (policyActions : list string) (requestAction : string) : bool :=
  existsb (fun a => matchAction a requestAction) policyActions.

(** ** Comparison operators *)

Definition numericCmp (cmp : spec_float -> spec_float -> bool) (scmp : string -> string -> bool)
    (actual expected : string) : bool :=
  match ParseFloat actual, ParseFloat expected with
  | Some a, Some b => cmp a b
  | _, _ => scmp actual expected
  end.
Definition numericEquals : string -> string -> bool :=
  numericCmp SFeqb (fun a e => bool_decide (a = e)).
Definition numericLessThan : string -> string -> bool := numericCmp SFltb sltb.
Definition numericGreaterThan : string -> string -> bool :=
  numericCmp (fun a b => SFltb b a) (fun a e => sltb e a).

Definition dateLessThan (actual expected : string) : bool :=
  match ParseRFC3339 actual, ParseRFC3339 expected with
  | Some a, Some b => Before a b
  | _, _ => sltb actual expected
  end.
Definition dateGreaterThan (actual expected : string) : bool :=
  match ParseRFC3339 actual, ParseRFC3339 expected with
  | Some a, Some b => After a b
  | _, _ => sltb expected actual
  end.

Definition ipInRange (ip cidr : string) : bool :=
  if bool_decide (cidr = "*") then true
  else if negb (Contains cidr "/") then bool_decide (ip = cidr)
  else match ParseAddr ip with
       | None => false
       | Some addr =>
         match ParsePrefix cidr with
         | None => false
         | Some prefix => prefixContains prefix addr
         end
       end.

Definition arnMatch (pattern arn : string) : bool :=
  if bool_decide (pattern = "*") then true
  else if bool_decide (pattern = arn) then true
  else if hasWildcard pattern then globMatch pattern arn
  else EqualFold pattern arn.

(** [compareValues]: [operator] is already in lower case. *)
Definition compareValues (operator actual expected : string) : bool :=
  if bool_decide (operator = "stringequals") then bool_decide (actual = expected)
  else if bool_decide (operator = "stringnotequals") then bool_decide (actual <> expected)
  else if bool_decide (operator = "stringlike") then globMatch expected actual
  else if bool_decide (operator = "stringnotlike") then negb (globMatch expected actual)
  else if bool_decide (operator = "numericequals") then numericEquals actual expected
  else if bool_decide (operator = "numericnotequals") then negb (numericEquals actual expected)
  else if bool_decide (operator = "numericlessthan") then numericLessThan actual expected
  else if bool_decide (operator = "numericgreaterthan") then numericGreaterThan actual expected
  else if bool_decide (operator = "datelessthan") then dateLessThan actual expected
  else if bool_decide (operator = "dategreaterthan") then dateGreaterThan actual expected
  else if bool_decide (operator = "ipaddress") then ipInRange actual expected
  else if bool_decide (operator = "notipaddress") then negb (ipInRange actual expected)
  else if bool_decide (operator = "bool") then
    bool_decide (ToLower actual = ToLower expected)
  else if bool_decide (operator = "arnequals") || bool_decide (operator = "arnlike")
  then arnMatch expected actual
  else bool_decide (actual = expected).

(** ** Condition keys *)

Definition tagOf (tags : gmap string string) (k : string) : string := default "" (tags !! k).

Definition resolveConditionKey (key : string) (ctx : EvalContext) : string :=
  let keyLower := ToLower key in
  if HasPrefix keyLower "aws:resourcetag/" then
    tagOf (ec_ResourceTags ctx) (sdrop (String.length "aws:resourcetag/") key)
  else if HasPrefix keyLower "aws:principaltag/" then
    tagOf (ec_PrincipalTags ctx) (sdrop (String.length "aws:principaltag/") key)
  else if HasPrefix keyLower "aws:requesttag/" then
    tagOf (ec_RequestTags ctx) (sdrop (String.length "aws:requesttag/") key)
  else if bool_decide (keyLower = "aws:sourceip") then ec_SourceIP ctx
  else if bool_decide (keyLower = "aws:currenttime") then
    if IsZero (ec_Time ctx) then "" else FormatRFC3339 (ec_Time ctx)
  else if bool_decide (keyLower = "aws:useragent") then ec_UserAgent ctx
  else if bool_decide (keyLower = "aws:principaltype") then ec_PrincipalType ctx
  else if bool_decide (keyLower = "s3:prefix") then ec_S3Prefix ctx
  else if bool_decide (keyLower = "s3:x-amz-acl") then ec_S3ACL ctx
  else tagOf (ec_Conditions ctx) key.

(** One round of the substitution loop: [inl] is the text after replacing
    the first reference, [inr] the final text. *)
Definition substStep (result : string) (ctx : EvalContext) : string + string :=
  match Index result "${" with
  | None => inr result
  | Some start =>
    match Index (sdrop start result) "}" with
    | None => inr result
    | Some len =>
      let varRef := stake (len - 2) (sdrop (start + 2) result) in
      inl (stake start result +:+ resolveConditionKey varRef ctx
           +:+ sdrop (start + len + 1) result)
    end
  end.

Fixpoint substLoop (fuel : nat) (result : string) (ctx : EvalContext) : option string :=
  match fuel with
  | O => None
  | S fuel =>
    match substStep result ctx with
    | inr r => Some r
    | inl r => substLoop fuel r ctx
    end
  end.

Definition resolveVariableSubstitution (fuel : nat) (value : string) (ctx : EvalContext)
  : option string :=
  if Contains value "${" then substLoop fuel value ctx else Some value.

(** ** Conditions *)

Definition nullConditionMatches (key : string) (expectedValue : cvalue) (ctx : EvalContext)
  : bool :=
  let keyIsAbsent := bool_decide (resolveConditionKey key ctx = "") in
  let expectedNull :=
    match expectedValue with
    | CStr v => bool_decide (ToLower v = "true")
    | CBool v => v
    | _ => false
    end in
  eqb keyIsAbsent expectedNull.

(** The loop over the items of an array: any match suffices. *)
Fixpoint anyItem (fuel : nat) (opLower actual : string) (items : list (option string))
    (ctx : EvalContext) : option bool :=
  match items with
  | [] => Some false
  | None :: items => anyItem fuel opLower actual items ctx
  | Some s :: items =>
    resolved ← resolveVariableSubstitution fuel s ctx;
    if compareValues opLower actual resolved then Some true
    else anyItem fuel opLower actual items ctx
  end.

Definition conditionMatches (fuel : nat) (operator key : string) (expectedValue : cvalue)
    (ctx : EvalContext) : option bool :=
  let opLower := ToLower operator in
  if bool_decide (opLower = "null") then Some (nullConditionMatches key expectedValue ctx)
  else
    let actualValue := resolveConditionKey key ctx in
    match expectedValue with
    | CArr items => anyItem fuel opLower actualValue items ctx
    | CStr v =>
      expectedStr ← resolveVariableSubstitution fuel v ctx;
      Some (compareValues opLower actualValue expectedStr)
    | CBool b => Some (compareValues opLower actualValue (if b then "true" else "false"))
    | COther text => Some (compareValues opLower actualValue text)
    end.

Fixpoint conditionKeysMatch (fuel : nat) (operator : string) (l : list (string * cvalue))
    (ctx : EvalContext) : option bool :=
  match l with
  | [] => Some true
  | (key, v) :: l =>
    b ← conditionMatches fuel operator key v ctx;
    if negb b then Some false else conditionKeysMatch fuel operator l ctx
  end.

Fixpoint conditionsMatch (fuel : nat) (conditions : Conditions) (ctx : EvalContext)
  : option bool :=
  match conditions with
  | [] => Some true
  | (operator, l) :: conditions =>
    b ← conditionKeysMatch fuel operator l ctx;
    if negb b then Some false else conditionsMatch fuel conditions ctx
  end.

(** ** Statements *)

(** An [Action]/[NotAction] pair, and likewise for resources: whether the
    statement is still applicable. *)
Definition listed (m : list string -> bool) (yes no : list string) : bool :=
  if m yes then true
  else if (0 <? length no)%nat then negb (m no)
  else false.

Definition statementMatches (fuel : nat) (stmt : Statement) (ctx : EvalContext) : option bool :=
  if negb (listed (fun l => actionMatches l (ec_Action ctx)) (st_Action stmt) (st_NotAction stmt))
  then Some false
  else if negb (listed (fun l => resourceMatches l (ec_Resource ctx)) (st_Resource stmt)
                  (st_NotResource stmt))
  then Some false
  else if match st_Principal stmt with
          | Some p => negb (principalMatches p (ec_Principal ctx))
          | None => false
          end
  then Some false
  else if (0 <? length (st_Condition stmt))%nat
  then conditionsMatch fuel (st_Condition stmt) ctx
  else Some true.
End Match.

(** ** Attribute-based checks (internal/iam/abac.go)

    A nil context is [None]. *)

Definition ResolveResourceTag (ctx : option EvalContext) (tagKey : string) : string :=
  match ctx with Some c => tagOf (ec_ResourceTags c) tagKey | None => "" end.
Definition ResolvePrincipalTag (ctx : option EvalContext) (tagKey : string) : string :=
  match ctx with Some c => tagOf (ec_PrincipalTags c) tagKey | None => "" end.
Definition ResolveRequestTag (ctx : option EvalContext) (tagKey : string) : string :=
  match ctx with Some c => tagOf (ec_RequestTags c) tagKey | None => "" end.

Definition ABACMatch (ctx : option EvalContext) (resourceTagKey principalTagKey : string) : bool :=
  let resourceTag := ResolveResourceTag ctx resourceTagKey in
  let principalTag := ResolvePrincipalTag ctx principalTagKey in
  if bool_decide (resourceTag = "") || bool_decide (principalTag = "") then false
  else bool_decide (resourceTag = principalTag).

Definition ABACMatchLiteral (ctx : option EvalContext) (resourceTagKey expectedValue : string)
  : bool :=
  let resourceTag := ResolveResourceTag ctx resourceTagKey in
  if bool_decide (resourceTag = "") then false else bool_decide (resourceTag = expectedValue).

(** Parsers of a small world, to run examples: decimal digits only, no dates
    and no addresses. *)
Module SmallParsers.
Fixpoint digits (s : string) (acc : Z) : option Z :=
  match s with
  | EmptyString => Some acc
  | String c s =>
    let n := (Z.of_nat (nat_of_ascii c) - 48)%Z in
    if (0 <=? n)%Z && (n <=? 9)%Z then digits s (10 * acc + n)%Z else None
  end.

#[export] Instance small_parsers : GoParsers := {|
  ParseFloat s :=
    if bool_decide (s = "") then None
    else (fun z => binary_normalize 53 1024 z 0 false) <$> digits s 0;
  ParseRFC3339 _ := None;
  FormatRFC3339 _ := "0001-01-01T00:00:00Z";
  netAddr := Empty_set;
  netPrefix := Empty_set;
  ParseAddr _ := None;
  ParsePrefix _ := None;
  prefixContains _ _ := false;
|}.
End SmallParsers.
