(* ===== verification/IamStore.v ===== *)
(** * IAM: the store (internal/iam/store.go, scp.go)

    Six bbolt buckets and the service control policy, which is kept in memory
    only.  Every operation is one transaction.  Operations run in the monad
    [IAM]: they change the store and return a value, an error or a fault;
    what was written before an error stays written. *)

From S2P Require Import Prelude GoStrings Bolt IamTypes.
From Stdlib Require Import Ascii String.
From stdpp Require Import base list.

Section Store.
Context `{Bolt}.

Record IAMStore := mkIAMStore {
  is_users : bucket IAMUser;
  is_groups : bucket IAMGroup;
  is_policies : bucket IAMPolicy;
  is_roles : bucket IAMRole;
  is_bucketPolicies : bucket BucketPolicy;
  is_tempCreds : bucket TemporaryCredential;
  is_scp : option PolicyDocument
}.

(** [NewIAMStore] on a database without earlier data. *)
Definition emptyStore : IAMStore :=
  mkIAMStore bEmpty bEmpty bEmpty bEmpty bEmpty bEmpty None.

Definition set_users x (s : IAMStore) :=
  mkIAMStore x (is_groups s) (is_policies s) (is_roles s) (is_bucketPolicies s)
             (is_tempCreds s) (is_scp s).
Definition set_groups x (s : IAMStore) :=
  mkIAMStore (is_users s) x (is_policies s) (is_roles s) (is_bucketPolicies s)
             (is_tempCreds s) (is_scp s).
Definition set_policies x (s : IAMStore) :=
  mkIAMStore (is_users s) (is_groups s) x (is_roles s) (is_bucketPolicies s)
             (is_tempCreds s) (is_scp s).
Definition set_roles x (s : IAMStore) :=
  mkIAMStore (is_users s) (is_groups s) (is_policies s) x (is_bucketPolicies s)
             (is_tempCreds s) (is_scp s).
Definition set_bucketPolicies x (s : IAMStore) :=
  mkIAMStore (is_users s) (is_groups s) (is_policies s) (is_roles s) x
             (is_tempCreds s) (is_scp s).
Definition set_tempCreds x (s : IAMStore) :=
  mkIAMStore (is_users s) (is_groups s) (is_policies s) (is_roles s) (is_bucketPolicies s)
             x (is_scp s).
Definition set_scp x (s : IAMStore) :=
  mkIAMStore (is_users s) (is_groups s) (is_policies s) (is_roles s) (is_bucketPolicies s)
             (is_tempCreds s) x.

(** ** The monad *)

Definition IAM (A : Type) : Type := IAMStore -> IAMStore * res A.

#[global] Instance iam_ret : MRet IAM := fun A a s => (s, Ok a).
#[global] Instance iam_bind : MBind IAM := fun A B f m s =>
  match m s with
  | (s', Ok a) => f a s'
  | (s', Err e) => (s', Err e)
  | (s', Panic w) => (s', Panic w)
  end.

Definition lift {A} (r : res A) : IAM A := fun s => (s, r).
Definition gets {A} (f : IAMStore -> res A) : IAM A := fun s => (s, f s).
Definition fail {A} (e : string) : IAM A := lift (Err e).
(** [x, err := m] where the code goes on and looks at [err] itself. *)
Definition attempt {A} (m : IAM A) : IAM (res A) := fun s =>
  match m s with
  | (s', Panic w) => (s', Panic w)
  | (s', r) => (s', Ok r)
  end.
(** A transaction on one bucket. *)
Definition update {V} (get : IAMStore -> bucket V) (set : bucket V -> IAMStore -> IAMStore)
    (f : bucket V -> res (bucket V)) : IAM unit := fun s =>
  match f (get s) with
  | Ok b => (set b s, Ok tt)
  | Err e => (s, Err e)
  | Panic w => (s, Panic w)
  end.

(** [data := b.Get(key); if data == nil { return error }]. *)
Definition found {V} (what name : string) (v : option V) : res V :=
  match v with
  | Some v => Ok v
  | None => Err (what +:+ " " +:+ name +:+ " not found")
  end.

(** ** Users *)

Definition PutUser (user : IAMUser) : IAM unit :=
  update is_users set_users (fun b => bPut b (iu_Name user) user).
Definition GetUser (name : string) (s : IAMStore) : res IAMUser :=
  found "user" name (bGet (is_users s) name).
Definition store_DeleteUser (name : string) : IAM unit :=
  update is_users set_users (fun b => bDelete b name).
Definition ListUsers (s : IAMStore) : list IAMUser := (bForEach (is_users s)).*2.

Definition hasActiveKey (accessKeyID : string) (u : IAMUser) : bool :=
  existsb (fun ak => bool_decide (ak_AccessKeyID ak = accessKeyID) &&
                     bool_decide (ak_Status ak = AccessKeyActive)) (iu_AccessKeys u).

(** [GetUserByAccessKey]: the early [return fmt.Errorf("found")] ends the
    iteration and is dropped.  With no match the pair is [(nil, nil)],
    here [Ok None]. *)
Definition GetUserByAccessKey (accessKeyID : string) (s : IAMStore) : res (option IAMUser) :=
  Ok (List.find (hasActiveKey accessKeyID) (ListUsers s)).

(** ** Groups *)

Definition PutGroup (group : IAMGroup) : IAM unit :=
  update is_groups set_groups (fun b => bPut b (ig_Name group) group).
Definition GetGroup (name : string) (s : IAMStore) : res IAMGroup :=
  found "group" name (bGet (is_groups s) name).
Definition store_DeleteGroup (name : string) : IAM unit :=
  update is_groups set_groups (fun b => bDelete b name).
Definition ListGroups (s : IAMStore) : list IAMGroup := (bForEach (is_groups s)).*2.

(** ** Managed policies *)

Definition PutPolicy (policy : IAMPolicy) : IAM unit :=
  update is_policies set_policies (fun b => bPut b (ip_Name policy) policy).
Definition GetPolicy (name : string) (s : IAMStore) : res IAMPolicy :=
  found "policy" name (bGet (is_policies s) name).
Definition store_DeletePolicy (name : string) : IAM unit :=
  update is_policies set_policies (fun b => bDelete b name).
Definition ListPolicies (s : IAMStore) : list IAMPolicy := (bForEach (is_policies s)).*2.

(** ** Roles *)

Definition PutRole (role : IAMRole) : IAM unit :=
  update is_roles set_roles (fun b => bPut b (ir_Name role) role).
Definition GetRole (name : string) (s : IAMStore) : res IAMRole :=
  found "role" name (bGet (is_roles s) name).
Definition store_DeleteRole (name : string) : IAM unit :=
  update is_roles set_roles (fun b => bDelete b name).
Definition ListRoles (s : IAMStore) : list IAMRole := (bForEach (is_roles s)).*2.

(** ** Bucket policies *)

Definition store_PutBucketPolicy (bp : BucketPolicy) : IAM unit :=
  update is_bucketPolicies set_bucketPolicies (fun b => bPut b (bp_Bucket bp) bp).
Definition GetBucketPolicy (name : string) (s : IAMStore) : res BucketPolicy :=
  found "bucket policy for" name (bGet (is_bucketPolicies s) name).
Definition store_DeleteBucketPolicy (name : string) : IAM unit :=
  update is_bucketPolicies set_bucketPolicies (fun b => bDelete b name).

(** ** Temporary credentials *)

Definition PutTempCredential (cred : TemporaryCredential) : IAM unit :=
  update is_tempCreds set_tempCreds (fun b => bPut b (tc_AccessKeyID cred) cred).
(** [GetTempCredential]: an expired credential is an error (the Go code
    returns the credential next to it). *)
Definition GetTempCredential (accessKeyID : string) (now : Time) (s : IAMStore)
  : res TemporaryCredential :=
  cred ← found "temp credential" accessKeyID (bGet (is_tempCreds s) accessKeyID);
  if After now (tc_Expiration cred) then Err "temp credential expired" else Ok cred.
Definition DeleteTempCredential (accessKeyID : string) : IAM unit :=
  update is_tempCreds set_tempCreds (fun b => bDelete b accessKeyID).

(** ** Service control policy (scp.go) *)

Definition SetSCP (doc : option PolicyDocument) : IAM unit := fun s =>
  match doc with
  | None => (s, Err "SCP document cannot be nil")
  | Some d =>
    if (length (pd_Statement d) =? 0)%nat
    then (s, Err "SCP document must contain at least one statement")
    else (set_scp (Some d) s, Ok tt)
  end.
Definition GetSCP (s : IAMStore) : option PolicyDocument := is_scp s.
Definition RemoveSCP (s : IAMStore) : IAMStore := set_scp None s.
End Store.

Arguments IAM {_} A.
