(* ===== verification/IamEval.v ===== *)
(** * IAM: policy evaluation (internal/iam/policy.go)

    [Evaluate] and its variants.  They read the store and return a result;
    [None] means a statement's condition has not finished evaluating within
    the fuel (see IamMatch). *)

From S2P Require Import Prelude GoStrings Bolt IamTypes IamMatch IamStore.
From Stdlib Require Import Ascii String.
From stdpp Require Import base list.

Section Eval.
Context `{GoUnicode} `{GoParsers} `{Bolt}.

(** The loop "for each statement with this effect that matches": the first
    such statement. *)
Fixpoint firstMatch (fuel : nat) (effect : string) (stmts : list Statement) (ctx : EvalContext)
  : option (option Statement) :=
  match stmts with
  | [] => Some None
  | stmt :: stmts =>
    if bool_decide (st_Effect stmt = effect) then
      b ← statementMatches fuel stmt ctx;
      if (b : bool) then Some (Some stmt) else firstMatch fuel effect stmts ctx
    else firstMatch fuel effect stmts ctx
  end.

(** The same over several documents, with the index of the document. *)
Fixpoint firstMatchIn (fuel : nat) (effect : string) (docs : list PolicyDocument)
    (ctx : EvalContext) (i : nat) : option (option (nat * Statement)) :=
  match docs with
  | [] => Some None
  | doc :: docs =>
    m ← firstMatch fuel effect (pd_Statement doc) ctx;
    match m with
    | Some stmt => Some (Some (i, stmt))
    | None => firstMatchIn fuel effect docs ctx (S i)
    end
  end.

(** ** Which policies apply *)

Definition managed (s : IAMStore) (names : list string) : list (PolicyDocument * string) :=
  omap (fun n => match GetPolicy n s with
                 | Ok p => Some (ip_Document p, n)
                 | _ => None
                 end) names.

Definition identityPoliciesOf (s : IAMStore) (user : IAMUser)
  : list (PolicyDocument * string) :=
  map (fun ip => (ip, pd_Id ip)) (iu_InlinePolicies user)
  ++ managed s (iu_AttachedPolicies user)
  ++ (g ← iu_Groups user;
      match GetGroup g s with
      | Ok group => managed s (ig_AttachedPolicies group)
      | _ => []
      end).

Definition resourcePoliciesOf (s : IAMStore) (resource : string) : list PolicyDocument :=
  let bucketName := extractBucketFromResource resource in
  if bool_decide (bucketName = "") then []
  else match GetBucketPolicy bucketName s with
       | Ok bp => [bp_Document bp]
       | _ => []
       end.

(** ** Boundary and service control policy *)

(** Explicit Deny, then Allow, then implicit deny, in one document. *)
Definition evalDocument (fuel : nat) (ctx : EvalContext) (doc : PolicyDocument)
    (denyDetails : string -> string) (implicitDetails : string) : option EvalResult :=
  d ← firstMatch fuel EffectDeny (pd_Statement doc) ctx;
  match d with
  | Some stmt => Some (mkEvalResult DecisionDeny (st_Sid stmt) "" "" (denyDetails (st_Sid stmt)))
  | None =>
    a ← firstMatch fuel EffectAllow (pd_Statement doc) ctx;
    match a with
    | Some stmt => Some (mkEvalResult DecisionAllow (st_Sid stmt) "" "" "")
    | None => Some (mkEvalResult DecisionImplicitDeny "" "" "" implicitDetails)
    end
  end.

Definition evaluateBoundary (fuel : nat) (ctx : EvalContext) (boundaryDoc : PolicyDocument)
  : option EvalResult := evalDocument fuel ctx boundaryDoc (fun _ => "") "".

Definition evaluateSCP (fuel : nat) (store : option IAMStore) (ctx : EvalContext)
  : option EvalResult :=
  match store ≫= is_scp with
  | None => Some (mkEvalResult DecisionAllow "" "" "" "")
  | Some scp =>
    evalDocument fuel ctx scp (fun sid => "Denied by SCP statement '" +:+ sid +:+ "'")
      "No Allow statement in SCP matches this request"
  end.

(** ** Phases 1 to 5 of [Evaluate] *)

Definition deniedBy (sid : string) : EvalResult :=
  mkEvalResult DecisionDeny sid "identity" ""
    ("Explicitly denied by statement '" +:+ sid +:+ "'").
Definition allowedByIdentity (policyName sid : string) : EvalResult :=
  mkEvalResult DecisionAllow sid "identity" policyName
    ("Allowed by identity policy '" +:+ policyName +:+ "' statement '" +:+ sid +:+ "'").
Definition allowedByResource (sid : string) : EvalResult :=
  mkEvalResult DecisionAllow sid "resource" ""
    ("Allowed by resource policy statement '" +:+ sid +:+ "'").
Definition deniedByBoundary (b : string) (matchedBy : string) : EvalResult :=
  mkEvalResult DecisionDeny matchedBy "boundary" b
    ("Denied by permission boundary '" +:+ b +:+
     "' (identity policy allows but boundary does not)").
Definition implicitDeny : EvalResult :=
  mkEvalResult DecisionImplicitDeny "" "" ""
    "No matching Allow statement found (implicit deny)".

(** Phase 3. *)
Definition checkBoundary (fuel : nat) (s : IAMStore) (ctx : EvalContext) (user : option IAMUser)
    (identityAllow : EvalResult) : option EvalResult :=
  match user with
  | Some u =>
    let b := iu_PermissionBoundary u in
    if bool_decide (b = "") then Some identityAllow
    else match GetPolicy b s with
         | Ok boundaryPolicy =>
           r ← evaluateBoundary fuel ctx (ip_Document boundaryPolicy);
           if bool_decide (er_Decision r = DecisionAllow) then Some identityAllow
           else Some (deniedByBoundary b (er_MatchedBy r))
         | _ => Some identityAllow
         end
  | None => Some identityAllow
  end.

Definition evalPhases (fuel : nat) (s : IAMStore) (ctx : EvalContext) (user : option IAMUser)
  : option EvalResult :=
  let identity := match user with Some u => identityPoliciesOf s u | None => [] end in
  let identityPolicies := identity.*1 in
  let identityPolicyNames := identity.*2 in
  let resourcePolicies := resourcePoliciesOf s (ec_Resource ctx) in
  (* Phase 1: explicit Deny in all policies *)
  d ← firstMatchIn fuel EffectDeny (identityPolicies ++ resourcePolicies) ctx 0;
  match d with
  | Some (_, stmt) => Some (deniedBy (st_Sid stmt))
  | None =>
    (* Phase 2: explicit Allow in identity policies *)
    a ← firstMatchIn fuel EffectAllow identityPolicies ctx 0;
    match a with
    | Some (i, stmt) =>
      checkBoundary fuel s ctx user
        (allowedByIdentity (default "" (identityPolicyNames !! i)) (st_Sid stmt))
    | None =>
      (* Phase 4: explicit Allow in resource policies *)
      r ← firstMatchIn fuel EffectAllow resourcePolicies ctx 0;
      match r with
      | Some (_, stmt) => Some (allowedByResource (st_Sid stmt))
      | None => Some implicitDeny
      end
    end
  end.

Definition lookupUser (s : IAMStore) (principal : string) : option IAMUser :=
  match GetUser principal s with Ok u => Some u | _ => None end.

(** [PolicyEvaluator.Evaluate]; the evaluator's store may be nil. *)
Definition Evaluate (fuel : nat) (store : option IAMStore) (ctx : EvalContext)
  : option EvalResult :=
  let continue :=
    match store with
    | None =>
      Some (mkEvalResult DecisionImplicitDeny "" "" ""
              "No policy store available (implicit deny)")
    | Some s => evalPhases fuel s ctx (lookupUser s (ec_Principal ctx))
    end in
  match store ≫= is_scp with
  | None => continue
  | Some _ =>
    scpResult ← evaluateSCP fuel store ctx;
    match er_Decision scpResult with
    | DecisionDeny =>
      Some (mkEvalResult DecisionDeny (er_MatchedBy scpResult) "scp" (er_PolicyName scpResult)
              (er_Details scpResult))
    | DecisionAllow => continue
    | DecisionImplicitDeny =>
      Some (mkEvalResult DecisionDeny "" "scp" ""
              "Denied by Service Control Policy (no Allow statement matches)")
    end
  end.

(** [EvaluateWithBoundary]: for a given user, without the SCP.  The code
    first computes [identityAllow], a nil pointer or a result, then consults
    the boundary only when both are there. *)
Definition EvaluateWithBoundary (fuel : nat) (s : IAMStore) (ctx : EvalContext)
    (user : option IAMUser) : option EvalResult :=
  let identity := match user with Some u => identityPoliciesOf s u | None => [] end in
  let resourcePolicies := resourcePoliciesOf s (ec_Resource ctx) in
  denied ← firstMatchIn fuel EffectDeny (identity.*1 ++ resourcePolicies) ctx 0;
  if denied is Some (_, stmt) then Some (deniedBy (st_Sid stmt)) else
  allowed ← firstMatchIn fuel EffectAllow identity.*1 ctx 0;
  let identityAllow :=
    '(i, stmt) ← allowed;
    Some (allowedByIdentity (if (i <? length identity.*2)%nat
                             then default "" (identity.*2 !! i) else "") (st_Sid stmt)) in
  boundaryDenies ←
    (if identityAllow is Some _ then
       if user is Some u then
         if bool_decide (iu_PermissionBoundary u = "") then Some None
         else if GetPolicy (iu_PermissionBoundary u) s is Ok boundaryPolicy then
           r ← evaluateBoundary fuel ctx (ip_Document boundaryPolicy);
           if bool_decide (er_Decision r = DecisionAllow) then Some None
           else Some (Some (deniedByBoundary (iu_PermissionBoundary u) (er_MatchedBy r)))
         else Some None
       else Some None
     else Some None);
  if boundaryDenies is Some r then Some r else
  if identityAllow is Some r then Some r else
  byResource ← firstMatchIn fuel EffectAllow resourcePolicies ctx 0;
  if byResource is Some (_, stmt) then Some (allowedByResource (st_Sid stmt))
  else Some implicitDeny.

(** [EvaluateWithTempCreds]. *)
Definition EvaluateWithTempCreds (fuel : nat) (s : IAMStore) (ctx : EvalContext)
    (rolePolicies : list string) (inlinePolicy : option PolicyDocument) : option EvalResult :=
  let identityPolicies := (managed s rolePolicies).*1 ++ option_list inlinePolicy in
  let resourcePolicies := resourcePoliciesOf s (ec_Resource ctx) in
  d ← firstMatchIn fuel EffectDeny (identityPolicies ++ resourcePolicies) ctx 0;
  match d with
  | Some (_, stmt) => Some (mkEvalResult DecisionDeny (st_Sid stmt) "identity" "" "")
  | None =>
    a ← firstMatchIn fuel EffectAllow identityPolicies ctx 0;
    match a with
    | Some (_, stmt) => Some (mkEvalResult DecisionAllow (st_Sid stmt) "identity" "" "")
    | None =>
      r ← firstMatchIn fuel EffectAllow resourcePolicies ctx 0;
      match r with
      | Some (_, stmt) => Some (mkEvalResult DecisionAllow (st_Sid stmt) "resource" "" "")
      | None => Some (mkEvalResult DecisionImplicitDeny "" "" "" "")
      end
    end
  end.

Definition Simulate (fuel : nat) (store : option IAMStore) (ctx : EvalContext)
  : option SimulateResponse :=
  result ← Evaluate fuel store ctx;
  Some (mkSimulateResponse (Decision_String (er_Decision result)) (er_MatchedBy result)
          (er_PolicyType result) (er_Details result)).
End Eval.

(** ** The gateway's access check (internal/gateway/iam_bridge.go)

    How the S3 front end asks the evaluator about a request. *)

(** The gateway's own users (auth.go); a nil map of bucket permissions differs
    from an empty one. *)
Record User := mkUser {
  us_ID : string;
  us_Name : string;
  us_PasswordHash : string;
  us_SecretKey : string;
  us_Role : string;
  us_Permissions : list string;
  us_BucketPermissions : option (gmap string (list string))
}.

(** [iamUserToLegacy]. *)
Definition iamUserToLegacy (iamUser : IAMUser) : User :=
  let role := if bool_decide (iu_Name iamUser = "admin") then "admin" else "user" in
  let perms :=
    if existsb (fun p => bool_decide (p = "AdministratorAccess")) (iu_AttachedPolicies iamUser)
    then ["read"; "write"; "delete"; "admin"]
    else ["read"; "write"] in
  mkUser (iu_ID iamUser) (iu_Name iamUser) "" "" role perms None.

Section Bridge.
Context `{GoUnicode} `{GoParsers} `{Bolt}.

Definition resourceOf (b key : string) : string :=
  if bool_decide (key = "") then MakeBucketARN b else MakeObjectARN b key.

(** [CheckIAMAccess]: [sourceIP] is [extractClientIP(r)], [now] the clock.
    [None]: the evaluation has not finished. *)
Definition accessContext (principal action b key sourceIP : string) (now : Time) : EvalContext :=
  mkEvalContext principal action (resourceOf b key) ∅ sourceIP now "" "" ∅ ∅ ∅ "" "".

Definition CheckIAMAccess (fuel : nat) (s : IAMStore) (iamUser : option IAMUser)
    (action b key sourceIP : string) (now : Time) : option (res unit) :=
  match iamUser with
  | None => Some (Ok tt)
  | Some u =>
    if bool_decide (iu_Name u = "admin") then Some (Ok tt)
    else
      result ← Evaluate fuel (Some s)
                 (accessContext (MakeUserARN (iu_Name u)) action b key sourceIP now);
      if bool_decide (er_Decision result = DecisionAllow) then Some (Ok tt)
      else Some (Err ("access denied: " +:+ action +:+ " on " +:+ resourceOf b key
                      +:+ " (policy: " +:+ er_MatchedBy result +:+ ")"))
  end.

(** [CheckTempCredentialAccess]. *)
Definition CheckTempCredentialAccess (fuel : nat) (s : IAMStore) (accessKeyID action b key
    sourceIP : string) (t1 t2 : Time) : option (res unit) :=
  match GetTempCredential accessKeyID t1 s with
  | Ok _ =>
    result ← Evaluate fuel (Some s)
               (accessContext ("sts:" +:+ accessKeyID) action b key sourceIP t2);
    if bool_decide (er_Decision result = DecisionAllow) then Some (Ok tt)
    else Some (Err ("access denied: " +:+ action +:+ " on " +:+ resourceOf b key))
  | _ => Some (Err "invalid temporary credentials")
  end.
End Bridge.
