(* ===== verification/IamGlob.v ===== *)
(** * IAM: the glob matcher against its specification

    [globSpec] is the meaning of a pattern: ['*'] stands for any text, ['?']
    for one character, anything else for itself.  The scan of [globMatch]
    remembers only the last star and never backtracks further; this file has
    the invariants that relate the two. *)

From S2P Require Import Prelude GoStrings IamTypes IamMatch.
From Stdlib Require Import Ascii String.
From stdpp Require Import base list.

Fixpoint globSpec (p s : list ascii) {struct p} : bool :=
  match p with
  | [] => bool_decide (s = [])
  | c :: p' =>
    if bool_decide (c = star) then
      (fix any (s : list ascii) : bool :=
         globSpec p' s || match s with [] => false | _ :: s' => any s' end) s
    else
      match s with
      | d :: s' => (bool_decide (c = d) || bool_decide (c = quest)) && globSpec p' s'
      | [] => false
      end
  end.

Definition noStar (l : list ascii) : Prop := star ∉ l.

(** ** Equations of the specification *)

Lemma globSpec_star p s :
  globSpec (star :: p) s
  = globSpec p s || match s with [] => false | _ :: s' => globSpec (star :: p) s' end.
Proof. destruct s; reflexivity. Qed.

Lemma globSpec_lit c p d s : c <> star ->
  globSpec (c :: p) (d :: s) = (bool_decide (c = d) || bool_decide (c = quest)) && globSpec p s.
Proof. intros. simpl. by rewrite (bool_decide_false (c = star)). Qed.

Lemma globSpec_lit_nil c p : c <> star -> globSpec (c :: p) [] = false.
Proof. intros. simpl. by rewrite (bool_decide_false (c = star)). Qed.

Lemma globSpec_nil p : globSpec p [] = forallb (fun c => bool_decide (c = star)) p.
Proof.
  induction p as [|c p IH]; [done|]. simpl. destruct (decide (c = star)).
  - rewrite bool_decide_true by done. by rewrite IH, orb_false_r.
  - by rewrite bool_decide_false.
Qed.

(** A star may match more. *)
Lemma globSpec_star_suffix p x s :
  globSpec (star :: p) s = true -> globSpec (star :: p) (x ++ s) = true.
Proof.
  intros E. induction x as [|d x IH]; [done|].
  simpl app. rewrite globSpec_star, IH. apply orb_true_r.
Qed.

Lemma globSpec_star_intro p s : globSpec p s = true -> globSpec (star :: p) s = true.
Proof. intros E. by rewrite globSpec_star, E. Qed.

Lemma globSpec_star_inv p s : globSpec (star :: p) s = true ->
  exists x y, s = x ++ y /\ globSpec p y = true.
Proof.
  induction s as [|d s IH]; rewrite globSpec_star; intros E.
  - rewrite orb_false_r in E. by exists [], [].
  - apply orb_true_iff in E as [E|E]; [by exists [], (d :: s)|].
    destruct (IH E) as (x & y & -> & ?). by exists (d :: x), y.
Qed.

(** ** Segments: characters consumed one for one *)

Definition charOk (c d : ascii) : Prop := c <> star /\ (c = d \/ c = quest).

Lemma charOk_spec c p d s : charOk c d -> globSpec (c :: p) (d :: s) = globSpec p s.
Proof.
  intros [N E]. rewrite globSpec_lit by done.
  destruct E; [rewrite bool_decide_true by done|rewrite (bool_decide_true (c = quest)) by done];
    by rewrite ?orb_true_r.
Qed.

Lemma segment_spec w u p s :
  Forall2 charOk w u -> globSpec (w ++ p) (u ++ s) = globSpec p s.
Proof. induction 1; simpl app; [done|]. by rewrite charOk_spec. Qed.

Lemma segment_inv w u p s : Forall2 charOk w u -> globSpec (w ++ p) s = true ->
  exists u' v', s = u' ++ v' /\ length u' = length w /\ globSpec p v' = true.
Proof.
  intros F. revert s. induction F as [|c d w u [N _] F IH]; intros s E; [by exists [], s|].
  simpl app in E. destruct s as [|e s]; [by rewrite globSpec_lit_nil in E|].
  rewrite globSpec_lit in E by done. apply andb_true_iff in E as [_ E].
  destruct (IH s E) as (u' & v' & -> & L & ?). exists (e :: u'), v'. simpl. by rewrite L.
Qed.

(** The first position where a segment fits is as good as any other: what is
    left to match is a suffix of what the scan has left. *)
Lemma star_segment_inv w u p v : Forall2 charOk w u ->
  globSpec (star :: w ++ p) (u ++ v) = true ->
  exists x v', v = x ++ v' /\ globSpec p v' = true.
Proof.
  intros F E. apply globSpec_star_inv in E as (x & y & E & G).
  destruct (segment_inv w u p y F G) as (u' & v' & -> & L & ?).
  rewrite app_assoc in E. apply Forall2_length in F.
  assert (v' = drop (length (x ++ u')) (u ++ v)) as ->
    by (by rewrite E, drop_app_length).
  assert (length u <= length (x ++ u'))%nat by (rewrite length_app; lia).
  rewrite drop_app_ge in * by done.
  exists (take (length (x ++ u') - length u) v), (drop (length (x ++ u') - length u) v).
  by rewrite take_drop.
Qed.

(** ** Invariants of the scan *)

Section Scan.
Context (p s : list ascii).
Implicit Types (pi si matchIdx : nat) (starIdx : option nat).

(** What holds of the pattern and text whatever they are. *)
Definition sound_at pi si starIdx matchIdx : Prop :=
  (globSpec (drop pi p) (drop si s) = true -> globSpec p s = true) /\
  match starIdx with
  | Some k => globSpec (star :: drop (S k) p) (drop matchIdx s) = true -> globSpec p s = true
  | None => True
  end.

(** What holds when the text has no star. *)
Definition exact_at pi si starIdx matchIdx : Prop :=
  match starIdx with
  | None => globSpec p s = globSpec (drop pi p) (drop si s)
  | Some k =>
    globSpec p s = globSpec (star :: drop (S k) p) (drop matchIdx s) /\
    exists w u, Forall2 charOk w u /\ drop (S k) p = w ++ drop pi p /\
                drop matchIdx s = u ++ drop si s
  end.

Lemma loop_sound fuel : forall pi si starIdx matchIdx,
  sound_at pi si starIdx matchIdx -> (matchIdx <= si)%nat ->
  globLoop fuel p s pi si starIdx matchIdx = Some true -> globSpec p s = true.
Proof.
  induction fuel as [|fuel IH]; intros pi si starIdx mi [I1 I2] Hm; [done|]. simpl.
  assert (forall d, s !! si = Some d ->
    match starIdx with
    | Some k => globLoop fuel p s (S k) (S mi) starIdx (S mi)
    | None => Some false
    end = Some true -> globSpec p s = true) as Back.
  { intros d Hd. destruct starIdx as [k|]; [|done]. intros E. eapply IH, E; [|lia].
    assert (mi < length s)%nat as [e He]%lookup_lt_is_Some
      by (apply lookup_lt_Some in Hd; lia).
    assert (globSpec (star :: drop (S k) p) (drop (S mi) s) = true -> globSpec p s = true).
    { intros G. apply I2. rewrite (drop_S s e mi) by done.
      apply (globSpec_star_suffix _ [e]), G. }
    split; [|done]. intros G. by apply H, globSpec_star_intro. }
  destruct (s !! si) as [d|] eqn:Hs.
  - destruct (p !! pi) as [c|] eqn:Hp; [|eauto].
    rewrite (drop_S p c pi), (drop_S s d si) in I1 by done.
    destruct (bool_decide (c = d) || bool_decide (c = quest)) eqn:Ec.
    + intros E. eapply IH, E; [|lia]. split; [|done]. intros G. apply I1.
      destruct (decide (c = star)) as [->|].
      * apply (globSpec_star_suffix _ [d]), globSpec_star_intro, G.
      * by rewrite globSpec_lit, Ec, G.
    + destruct (bool_decide (c = star)) eqn:Es; [|eauto]. boolify; subst.
      intros E. eapply IH, E; [|lia].
      unfold sound_at. rewrite (drop_S s d si) by done. split; [|done].
      intros G. by apply I1, globSpec_star_intro.
  - intros E. injection E as E. apply I1. rewrite (drop_ge s) by (by apply lookup_ge_None).
    by rewrite globSpec_nil.
Qed.

(** The remaining work at a position where the segment is complete. *)
Lemma exact_done pi si starIdx mi :
  exact_at pi si starIdx mi -> s !! si = None -> globSpec p s = globSpec (drop pi p) [].
Proof.
  intros I Hs. apply lookup_ge_None in Hs. destruct starIdx as [k|]; simpl in I.
  - destruct I as (-> & w & u & F & Ew & Eu). rewrite Ew, Eu, (drop_ge s) by done.
    rewrite app_nil_r. apply eq_true_iff_eq. split; intros E.
    + rewrite <- (app_nil_r u) in E.
      destruct (star_segment_inv w u _ [] F E) as (x & v' & Ev & G).
      symmetry in Ev. by apply app_nil in Ev as [_ ->].
    + apply globSpec_star_intro. rewrite <- (app_nil_r u). by rewrite segment_spec.
  - by rewrite I, (drop_ge s).
Qed.

Lemma exact_star pi si starIdx mi :
  exact_at pi si starIdx mi -> p !! pi = Some star ->
  exact_at (S pi) si (Some pi) si.
Proof.
  intros I Hp. simpl. split; [|exists [], []; auto].
  destruct starIdx as [k|]; simpl in I.
  - destruct I as (-> & w & u & F & Ew & Eu). rewrite Ew, Eu.
    rewrite (drop_S p star pi) by done. apply eq_true_iff_eq. split; intros E.
    + destruct (star_segment_inv w u _ _ F E) as (x & v' & -> & G).
      by apply globSpec_star_suffix.
    + apply globSpec_star_intro. by rewrite segment_spec.
  - by rewrite I, (drop_S p star pi).
Qed.

Lemma exact_char pi si starIdx mi c d :
  exact_at pi si starIdx mi -> p !! pi = Some c -> s !! si = Some d -> charOk c d ->
  exact_at (S pi) (S si) starIdx mi.
Proof.
  intros I Hp Hs C. destruct starIdx as [k|]; simpl in *.
  - destruct I as (-> & w & u & F & Ew & Eu). split; [done|].
    exists (w ++ [c]), (u ++ [d]). split; [by apply Forall2_app; [|constructor; [|constructor]]|].
    rewrite <- !app_assoc. simpl. by rewrite <- (drop_S p), <- (drop_S s).
  - rewrite I, (drop_S p c pi), (drop_S s d si) by done. by apply charOk_spec.
Qed.

(** A dead end: the rest of the pattern cannot match here. *)
Lemma exact_back pi si k mi :
  exact_at pi si (Some k) mi -> (mi < length s)%nat ->
  globSpec (drop pi p) (drop si s) = false ->
  exact_at (S k) (S mi) (Some k) (S mi).
Proof.
  unfold exact_at. intros (-> & w & u & F & Ew & Eu) Hm E. split; [|exists [], []; auto].
  apply lookup_lt_is_Some in Hm as [e He].
  rewrite globSpec_star, Ew, Eu, segment_spec, E, <- Ew, <- Eu by done.
  by rewrite (drop_S s e mi).
Qed.

Lemma loop_exact fuel : forall pi si starIdx matchIdx b, noStar s ->
  exact_at pi si starIdx matchIdx -> (matchIdx <= si)%nat ->
  globLoop fuel p s pi si starIdx matchIdx = Some b -> globSpec p s = b.
Proof.
  induction fuel as [|fuel IH]; intros pi si starIdx mi b NS I Hm; [done|]. simpl.
  destruct (s !! si) as [d|] eqn:Hs.
  - assert (mi < length s)%nat by (apply lookup_lt_Some in Hs; lia).
    assert (globSpec (drop pi p) (drop si s) = false ->
      match starIdx with
      | Some k => globLoop fuel p s (S k) (S mi) starIdx (S mi)
      | None => Some false
      end = Some b -> globSpec p s = b) as Back.
    { intros G. destruct starIdx as [k|].
      - apply IH; [done| |lia]. by eapply exact_back.
      - intros [= <-]. by rewrite I. }
    destruct (p !! pi) as [c|] eqn:Hp.
    + destruct (bool_decide (c = d) || bool_decide (c = quest)) eqn:Ec.
      * apply IH; [done| |lia]. eapply exact_char; eauto. split.
        -- intros ->. rewrite (bool_decide_false (star = quest)), orb_false_r in Ec by done.
           boolify; subst. apply NS. by eapply list_elem_of_lookup_2.
        -- apply orb_true_iff in Ec as [|]; boolify; auto.
      * destruct (bool_decide (c = star)) eqn:Es.
        -- boolify; subst. apply IH; [done| |lia]. by eapply exact_star.
        -- boolify. apply Back. rewrite (drop_S p c pi), (drop_S s d si) by done.
           rewrite globSpec_lit by done. by rewrite !bool_decide_false.
    + apply Back. apply lookup_ge_None in Hp. rewrite (drop_ge p) by done.
      by rewrite (drop_S s d si).
  - intros [= <-]. rewrite (exact_done pi si starIdx mi I Hs). apply globSpec_nil.
Qed.

(** ** Termination: the fuel suffices *)

Definition scanMeasure pi si matchIdx : nat :=
  (length s - matchIdx) * (length p + length s + 2) + ((length s - si) + (length p - pi)).

Lemma loop_terminates fuel : forall pi si starIdx matchIdx,
  (matchIdx <= si)%nat ->
  match starIdx with Some k => (k < length p)%nat | None => True end ->
  (scanMeasure pi si matchIdx < fuel)%nat ->
  is_Some (globLoop fuel p s pi si starIdx matchIdx).
Proof.
  unfold scanMeasure.
  induction fuel as [|fuel IH]; intros pi si starIdx mi Hm Hk Hf; [by apply Nat.nlt_0_r in Hf|]. simpl.
  destruct (s !! si) as [d|] eqn:Hs; [|by eexists].
  apply lookup_lt_Some in Hs.
  assert (is_Some match starIdx with
      | Some k => globLoop fuel p s (S k) (S mi) starIdx (S mi)
      | None => Some false
      end) as Back.
  { destruct starIdx as [k|]; [|by eexists]. apply IH; [done|done|].
    replace (length s - mi)%nat with (S (length s - S mi)) in Hf by lia.
    rewrite Nat.mul_succ_l in Hf. lia. }
  destruct (p !! pi) as [c|] eqn:Hp; [|done]. apply lookup_lt_Some in Hp.
  destruct (_ || _); [apply IH; [lia|done|lia]|].
  destruct (bool_decide (c = star)); [|done].
  apply IH; [lia|done|].
  assert ((length s - si) * (length p + length s + 2)
          <= (length s - mi) * (length p + length s + 2))%nat
    by (apply Nat.mul_le_mono_r; lia).
  lia.
Qed.
End Scan.

Lemma globMatch_returns (pattern str : string) :
  let p := list_ascii_of_string pattern in
  let s := list_ascii_of_string str in
  exists b, globLoop (globFuel (length p) (length s)) p s 0 0 None 0 = Some b.
Proof.
  intros p s.
  destruct (loop_terminates p s (globFuel (length p) (length s)) 0 0 None 0) as [b E];
    [lia|done| |by exists b].
  unfold globFuel, scanMeasure. lia.
Qed.

Lemma globMatch_sound pattern str : globMatch pattern str = true ->
  globSpec (list_ascii_of_string pattern) (list_ascii_of_string str) = true.
Proof.
  unfold globMatch. destruct (globMatch_returns pattern str) as [b E]. rewrite E.
  simpl. intros ->. by eapply loop_sound, E.
Qed.

Lemma globMatch_exact pattern str : noStar (list_ascii_of_string str) ->
  globMatch pattern str = globSpec (list_ascii_of_string pattern) (list_ascii_of_string str).
Proof.
  intros NS. unfold globMatch. destruct (globMatch_returns pattern str) as [b E]. rewrite E.
  simpl. symmetry. by eapply loop_exact, E.
Qed.
