(* ===== verification/IamEvalProofs.v ===== *)
(** * IAM: facts about evaluation

    Fuel does not change a result once there is one; evaluation returns when
    the request's attributes contain no closing brace; and the loops over
    statements compute "some statement matches", stated without fuel. *)

From S2P Require Import Prelude GoStrings Bolt IamTypes IamMatch IamStore IamEval.
From Stdlib Require Import Ascii String.
From stdpp Require Import base list.

(** ** Computations indexed by fuel *)

(** More fuel keeps the result. *)
Definition stable {A} (f : nat -> option A) : Prop :=
  forall n m a, (n <= m)%nat -> f n = Some a -> f m = Some a.

(** With enough fuel there is a result. *)
Definition returns {A} (f : nat -> option A) : Prop :=
  exists a n, forall m, (n <= m)%nat -> f m = Some a.

Lemma stable_const {A} (x : option A) : stable (fun _ => x).
Proof. by intros n m a _. Qed.

Lemma stable_bind {A B} (f : nat -> option A) (g : A -> nat -> option B) :
  stable f -> (forall a, stable (g a)) -> stable (fun n => a ← f n; g a n).
Proof.
  intros Sf Sg n m b L E. apply bind_Some in E as (a & Ea & Eb).
  rewrite (Sf n m a L Ea). simpl. exact (Sg a n m b L Eb).
Qed.

Lemma stable_if {A} (c : bool) (f g : nat -> option A) :
  stable f -> stable g -> stable (fun n => if c then f n else g n).
Proof. by destruct c. Qed.

Lemma stable_agree {A} (f : nat -> option A) n m a b :
  stable f -> f n = Some a -> f m = Some b -> a = b.
Proof.
  intros S En Em. destruct (Nat.le_ge_cases n m) as [L|L].
  - rewrite (S n m a L En) in Em. by simplify_eq.
  - rewrite (S m n b L Em) in En. by simplify_eq.
Qed.

Lemma returns_const {A} (a : A) : returns (fun _ => Some a).
Proof. by exists a, 0%nat. Qed.

Lemma returns_bind {A B} (f : nat -> option A) (g : A -> nat -> option B) :
  returns f -> (forall a, returns (g a)) -> returns (fun n => a ← f n; g a n).
Proof.
  intros (a & n & Hf) Hg. destruct (Hg a) as (b & k & Hb).
  exists b, (n + k)%nat. intros m L. rewrite Hf by lia. simpl. apply Hb. lia.
Qed.

Lemma returns_if {A} (c : bool) (f g : nat -> option A) :
  returns f -> returns g -> returns (fun n => if c then f n else g n).
Proof. by destruct c. Qed.

#[export] Hint Resolve stable_const stable_bind stable_if returns_const returns_bind
  returns_if : cipherlake.

(** Peel the binds and tests off a computation. *)
Ltac fuel_step :=
  match goal with
  | |- stable (fun _ => _ ≫= _) => apply stable_bind; [|intros ?]
  | |- returns (fun _ => _ ≫= _) => apply returns_bind; [|intros ?]
  | |- stable (fun _ => if ?c then _ else _) => destruct c
  | |- returns (fun _ => if ?c then _ else _) => destruct c
  | |- stable (fun _ => match ?x with _ => _ end) => destruct x
  | |- returns (fun _ => match ?x with _ => _ end) => destruct x
  | |- stable (fun _ => Some _) => apply stable_const
  | |- returns (fun _ => Some _) => apply returns_const
  end.
Ltac fuel := repeat fuel_step; eauto with cipherlake.

Section EvalProofs.
Context {uni : GoUnicode} {par : GoParsers} {bolt : Bolt}.
Implicit Types (ctx : EvalContext) (s : IAMStore).

(** ** Fuel *)

Lemma substLoop_stable v ctx : stable (fun n => substLoop n v ctx).
Proof.
  intros n. revert v. induction n as [|n IH]; intros v m r L E; [done|].
  destruct m as [|m]; [lia|]. simpl in *.
  destruct (substStep v ctx); [|done]. apply (IH _ m r); [lia|done].
Qed.

Lemma resolve_stable v ctx : stable (fun n => resolveVariableSubstitution n v ctx).
Proof. unfold resolveVariableSubstitution. fuel. apply substLoop_stable. Qed.
Hint Resolve resolve_stable : cipherlake.

Lemma anyItem_stable op a items ctx : stable (fun n => anyItem n op a items ctx).
Proof. induction items as [|[v|] items IH]; simpl; fuel. Qed.
Hint Resolve anyItem_stable : cipherlake.

Lemma conditionMatches_stable op k v ctx : stable (fun n => conditionMatches n op k v ctx).
Proof. unfold conditionMatches. destruct v; fuel. Qed.
Hint Resolve conditionMatches_stable : cipherlake.

Lemma conditionKeysMatch_stable op l ctx : stable (fun n => conditionKeysMatch n op l ctx).
Proof. induction l as [|[k v] l IH]; simpl; fuel. Qed.
Hint Resolve conditionKeysMatch_stable : cipherlake.

Lemma conditionsMatch_stable l ctx : stable (fun n => conditionsMatch n l ctx).
Proof. induction l as [|[op ks] l IH]; simpl; fuel. Qed.
Hint Resolve conditionsMatch_stable : cipherlake.

Lemma statementMatches_stable st ctx : stable (fun n => statementMatches n st ctx).
Proof. unfold statementMatches. fuel. Qed.
Hint Resolve statementMatches_stable : cipherlake.

(** ** Condition blocks as sets of conditions *)

Definition conditionTriples (l : Conditions) : list (string * string * cvalue) :=
  x ← l; y ← x.2; [(x.1, y.1, y.2)].

(** A condition that evaluates to true. *)
Definition Holds ctx (x : string * string * cvalue) : Prop :=
  exists n, conditionMatches n x.1.1 x.1.2 x.2 ctx = Some true.

Lemma conditionKeysMatch_spec n op l ctx c : conditionKeysMatch n op l ctx = Some c ->
  c = true <-> Forall (fun y => Holds ctx (op, y.1, y.2)) l.
Proof.
  revert c. induction l as [|[k v] l IH]; simpl; intros c E; [by simplify_eq|].
  apply bind_Some in E as (b & Eb & E). rewrite Forall_cons. destruct b; simpl in E.
  - rewrite (IH _ E). unfold Holds at 2. simpl. naive_solver.
  - simplify_eq. split; [done|]. intros [[m Em] _]. simpl in Em.
    by pose proof (stable_agree _ _ _ _ _ (conditionMatches_stable op k v ctx) Eb Em).
Qed.

Lemma conditionsMatch_spec n l ctx c : conditionsMatch n l ctx = Some c ->
  c = true <-> Forall (Holds ctx) (conditionTriples l).
Proof.
  revert c. unfold conditionTriples.
  induction l as [|[op ks] l IH]; simpl; intros c E; [by simplify_eq|].
  apply bind_Some in E as (b & Eb & E). apply conditionKeysMatch_spec in Eb.
  rewrite Forall_app.
  assert (Forall (Holds ctx) (y ← ks; [(op, y.1, y.2)])
          <-> Forall (fun y => Holds ctx (op, y.1, y.2)) ks) as ->.
  { clear. induction ks as [|y ks IH]; simpl; [done|]. rewrite !Forall_cons. tauto. }
  rewrite <- Eb. destruct b; simpl in E.
  - rewrite (IH _ E). naive_solver.
  - simplify_eq. naive_solver.
Qed.

(** ** Termination *)

Definition rbrace : ascii := "}"%char.

(** No attribute of the request contains a closing brace. *)
Definition benign ctx : Prop := forall key, nochar rbrace (resolveConditionKey key ctx) = true.

Fixpoint braces (v : string) : nat :=
  match v with
  | EmptyString => 0
  | String c v => (if decide (c = rbrace) then 1 else 0) + braces v
  end.

Lemma braces_app a b : braces (a +:+ b) = (braces a + braces b)%nat.
Proof.
  induction a as [|c a IH]; [done|].
  change (braces (String c (a +:+ b)) = (braces (String c a) + braces b)%nat).
  cbn [braces]. rewrite IH. lia.
Qed.

Lemma braces_none a : nochar rbrace a = true -> braces a = 0%nat.
Proof.
  induction a as [|c a IH]; simpl; [done|]. intros. boolify.
  rewrite decide_False by done. auto.
Qed.

Lemma braces_split n v : braces v = (braces (stake n v) + braces (sdrop n v))%nat.
Proof.
  revert v. induction n as [|n IH]; intros [|c v]; try done. simpl. rewrite (IH v). lia.
Qed.

Lemma sdrop_sdrop n m v : sdrop n (sdrop m v) = sdrop (m + n) v.
Proof. revert v. induction m as [|m IH]; intros [|c v]; simpl; auto. by destruct n. Qed.

Lemma Index_rbrace v i : Index v "}" = Some i -> (braces (sdrop (S i) v) < braces v)%nat.
Proof.
  revert i. induction v as [|c v IH]; intros i; [done|]. cbn [Index].
  unfold HasPrefix. cbn [String.prefix].
  destruct (ascii_dec "}" c) as [<-|N].
  - intros E. replace (String.prefix "" v) with true in E by (by destruct v).
    injection E as <-. simpl. lia.
  - intros E. apply fmap_Some in E as (j & E & ->). specialize (IH j E). simpl in *. lia.
Qed.

Lemma substStep_braces v ctx r :
  benign ctx -> substStep v ctx = inl r -> (braces r < braces v)%nat.
Proof.
  intros B. unfold substStep. destruct (Index v "${") as [i|] eqn:E1; [|done].
  destruct (Index (sdrop i v) "}") as [n|] eqn:E2; [|done].
  intros [= <-]. rewrite !braces_app, (braces_none (resolveConditionKey _ _)) by apply B.
  apply Index_rbrace in E2. rewrite sdrop_sdrop in E2.
  rewrite (braces_split i v). replace (i + n + 1)%nat with (i + S n)%nat by lia. lia.
Qed.

Lemma substLoop_returns v ctx : benign ctx -> returns (fun n => substLoop n v ctx).
Proof.
  intros B. remember (braces v) as k eqn:Hk. revert v Hk.
  induction (lt_wf k) as [k _ IH]. intros v ->.
  destruct (substStep v ctx) as [r|r] eqn:E.
  - destruct (IH (braces r) (substStep_braces v ctx r B E) r eq_refl) as (a & n & Ha).
    exists a, (S n). intros [|m] L; [lia|]. simpl. rewrite E. apply Ha. lia.
  - exists r, 1%nat. intros [|m] L; [lia|]. simpl. by rewrite E.
Qed.

Lemma resolve_returns v ctx :
  benign ctx -> returns (fun n => resolveVariableSubstitution n v ctx).
Proof. unfold resolveVariableSubstitution. intros. fuel. by apply substLoop_returns. Qed.
Hint Resolve resolve_returns : cipherlake.

Lemma anyItem_returns op a items ctx :
  benign ctx -> returns (fun n => anyItem n op a items ctx).
Proof. intros. induction items as [|[v|] items IH]; simpl; fuel. Qed.
Hint Resolve anyItem_returns : cipherlake.

Lemma conditionMatches_returns op k v ctx :
  benign ctx -> returns (fun n => conditionMatches n op k v ctx).
Proof. intros. unfold conditionMatches. destruct v; fuel. Qed.
Hint Resolve conditionMatches_returns : cipherlake.

Lemma conditionKeysMatch_returns op l ctx :
  benign ctx -> returns (fun n => conditionKeysMatch n op l ctx).
Proof. intros. induction l as [|[k v] l IH]; simpl; fuel. Qed.
Hint Resolve conditionKeysMatch_returns : cipherlake.

Lemma conditionsMatch_returns l ctx :
  benign ctx -> returns (fun n => conditionsMatch n l ctx).
Proof. intros. induction l as [|[op ks] l IH]; simpl; fuel. Qed.
Hint Resolve conditionsMatch_returns : cipherlake.

Lemma statementMatches_returns st ctx :
  benign ctx -> returns (fun n => statementMatches n st ctx).
Proof. intros. unfold statementMatches. fuel. Qed.
Hint Resolve statementMatches_returns : cipherlake.

Lemma firstMatch_returns eff stmts ctx :
  benign ctx -> returns (fun n => firstMatch n eff stmts ctx).
Proof. intros. induction stmts as [|st stmts IH]; simpl; fuel. Qed.
Hint Resolve firstMatch_returns : cipherlake.

Lemma firstMatchIn_returns eff docs ctx i :
  benign ctx -> returns (fun n => firstMatchIn n eff docs ctx i).
Proof. intros. revert i. induction docs as [|d docs IH]; intros i; simpl; fuel. Qed.
Hint Resolve firstMatchIn_returns : cipherlake.

Lemma evalDocument_returns ctx doc f d :
  benign ctx -> returns (fun n => evalDocument n ctx doc f d).
Proof. intros. unfold evalDocument. fuel. Qed.
Hint Resolve evalDocument_returns : cipherlake.

Lemma checkBoundary_returns s ctx user r :
  benign ctx -> returns (fun n => checkBoundary n s ctx user r).
Proof. intros. unfold checkBoundary, evaluateBoundary. fuel. Qed.
Hint Resolve checkBoundary_returns : cipherlake.

Lemma evalPhases_returns s ctx user :
  benign ctx -> returns (fun n => evalPhases n s ctx user).
Proof. intros. unfold evalPhases. fuel. Qed.
Hint Resolve evalPhases_returns : cipherlake.

(** ** Matching without fuel *)

Definition Matches (st : Statement) ctx : Prop :=
  exists fuel, statementMatches fuel st ctx = Some true.

Lemma Matches_false fuel st ctx :
  statementMatches fuel st ctx = Some false -> ~ Matches st ctx.
Proof.
  intros E [n En].
  by pose proof (stable_agree _ _ _ _ _ (statementMatches_stable st ctx) E En).
Qed.

(** Some statement of the documents has this effect and matches. *)
Definition Applies (effect : string) (docs : list PolicyDocument) ctx : Prop :=
  exists doc st, doc ∈ docs /\ st ∈ pd_Statement doc /\ st_Effect st = effect /\ Matches st ctx.

Definition some_match (eff : string) (stmts : list Statement) ctx : Prop :=
  exists st, st ∈ stmts /\ st_Effect st = eff /\ Matches st ctx.

Lemma firstMatch_spec fuel eff stmts ctx o :
  firstMatch fuel eff stmts ctx = Some o -> is_Some o <-> some_match eff stmts ctx.
Proof.
  unfold some_match.
  induction stmts as [|st stmts IH]; simpl; intros E.
  - simplify_eq. split; [by intros [? ?]|]. intros (st & Hst & _). by apply not_elem_of_nil in Hst.
  - case_bool_decide as D.
    + apply bind_Some in E as (b & Eb & E). destruct b.
      * simplify_eq. split; [|by eexists]. intros _. exists st.
        split; [left|]. split; [done|]. by exists fuel.
      * rewrite (IH E). apply Matches_false in Eb. setoid_rewrite elem_of_cons. naive_solver.
    + rewrite (IH E). setoid_rewrite elem_of_cons. naive_solver.
Qed.

Lemma firstMatchIn_spec fuel eff docs ctx i o :
  firstMatchIn fuel eff docs ctx i = Some o -> is_Some o <-> Applies eff docs ctx.
Proof.
  unfold Applies. revert i. induction docs as [|d docs IH]; simpl; intros i E.
  - simplify_eq. split; [by intros [? ?]|].
    intros (d & st & Hd & _). by apply not_elem_of_nil in Hd.
  - apply bind_Some in E as (m & Em & E). apply firstMatch_spec in Em.
    unfold some_match in Em. destruct m as [st|].
    + simplify_eq. split; [|by eexists]. intros _. destruct Em as [(st' & ?) _]; [by eexists|].
      exists d, st'. rewrite elem_of_cons. naive_solver.
    + rewrite (IH _ E). setoid_rewrite elem_of_cons.
      assert (~ exists st0, st0 ∈ pd_Statement d /\ st_Effect st0 = eff /\ Matches st0 ctx) as N
        by (rewrite <- Em; by intros [? ?]).
      naive_solver.
Qed.

Lemma firstMatchIn_None fuel eff docs ctx i :
  firstMatchIn fuel eff docs ctx i = Some None -> ~ Applies eff docs ctx.
Proof. intros E. rewrite <- (firstMatchIn_spec _ _ _ _ _ _ E). by intros [? ?]. Qed.
Lemma firstMatchIn_Some fuel eff docs ctx i x :
  firstMatchIn fuel eff docs ctx i = Some (Some x) -> Applies eff docs ctx.
Proof. intros E. rewrite <- (firstMatchIn_spec _ _ _ _ _ _ E). by eexists. Qed.

Lemma Applies_single eff d ctx : Applies eff [d] ctx <-> some_match eff (pd_Statement d) ctx.
Proof. unfold Applies, some_match. setoid_rewrite list_elem_of_singleton. naive_solver. Qed.

(** A document used as a gate: allowed, and not explicitly denied. *)
Definition Permits (doc : PolicyDocument) ctx : Prop :=
  ~ Applies EffectDeny [doc] ctx /\ Applies EffectAllow [doc] ctx.

Lemma evalDocument_spec fuel ctx doc f d r :
  evalDocument fuel ctx doc f d = Some r ->
  er_Decision r = DecisionAllow <-> Permits doc ctx.
Proof.
  unfold evalDocument, Permits. rewrite !Applies_single. intros E.
  apply bind_Some in E as (o & Eo & E). apply firstMatch_spec in Eo. destruct o as [st|].
  - simplify_eq. simpl. assert (some_match EffectDeny (pd_Statement doc) ctx)
      by (apply Eo; by eexists). naive_solver.
  - assert (~ some_match EffectDeny (pd_Statement doc) ctx) as ND
      by (rewrite <- Eo; by intros [? ?]).
    apply bind_Some in E as (o & Ea & E). apply firstMatch_spec in Ea.
    destruct o as [st|]; simplify_eq; simpl.
    + split; [|done]. intros _. split; [done|]. apply Ea. by eexists.
    + split; [done|]. intros [_ [? ?]%Ea]. done.
Qed.

(** ** The meaning of a decision *)

Definition identityDocs s (user : option IAMUser) : list PolicyDocument :=
  match user with Some u => (identityPoliciesOf s u).*1 | None => [] end.

(** The boundary policy the user refers to, if the store has it. *)
Definition boundaryDoc s (user : option IAMUser) : option PolicyDocument :=
  u ← user;
  if bool_decide (iu_PermissionBoundary u = "") then None
  else ip_Document <$> bGet (is_policies s) (iu_PermissionBoundary u).

Definition gate (doc : option PolicyDocument) ctx : Prop :=
  match doc with Some d => Permits d ctx | None => True end.

Record allow_spec s ctx (user : option IAMUser) : Prop := {
  allow_nodeny :
    ~ Applies EffectDeny (identityDocs s user ++ resourcePoliciesOf s (ec_Resource ctx)) ctx;
  allow_granted :
    (Applies EffectAllow (identityDocs s user) ctx /\ gate (boundaryDoc s user) ctx) \/
    (~ Applies EffectAllow (identityDocs s user) ctx /\
     Applies EffectAllow (resourcePoliciesOf s (ec_Resource ctx)) ctx)
}.

Record implicit_spec s ctx (user : option IAMUser) : Prop := {
  implicit_nodeny :
    ~ Applies EffectDeny (identityDocs s user ++ resourcePoliciesOf s (ec_Resource ctx)) ctx;
  implicit_noidentity : ~ Applies EffectAllow (identityDocs s user) ctx;
  implicit_noresource : ~ Applies EffectAllow (resourcePoliciesOf s (ec_Resource ctx)) ctx
}.

Lemma checkBoundary_spec fuel s ctx user a r :
  er_Decision a = DecisionAllow -> checkBoundary fuel s ctx user a = Some r ->
  (er_Decision r = DecisionAllow <-> gate (boundaryDoc s user) ctx) /\
  er_Decision r <> DecisionImplicitDeny.
Proof.
  intros Ha. unfold checkBoundary, boundaryDoc. destruct user as [u|]; simpl.
  2: { intros [= <-]. by rewrite Ha. }
  case_bool_decide; [intros [= <-]; by rewrite Ha|].
  unfold GetPolicy, found. destruct (bGet _ _) as [p|]; simpl.
  2: { intros [= <-]. by rewrite Ha. }
  intros E. apply bind_Some in E as (o & Eo & E).
  unfold evaluateBoundary in Eo. apply evalDocument_spec in Eo.
  case_bool_decide; simplify_eq; simpl; [rewrite Ha; split; [|done]; by rewrite <- Eo|].
  split; [|done]. split; [done|]. intros G. by apply Eo in G.
Qed.

Lemma evalPhases_spec fuel s ctx user r :
  evalPhases fuel s ctx user = Some r ->
  (er_Decision r = DecisionAllow <-> allow_spec s ctx user) /\
  (er_Decision r = DecisionImplicitDeny <-> implicit_spec s ctx user).
Proof.
  unfold evalPhases. replace (match user with Some u => identityPoliciesOf s u | None => [] end).*1
    with (identityDocs s user) by (by destruct user).
  intros E. apply bind_Some in E as (d & Ed & E). destruct d as [[i st]|].
  { apply firstMatchIn_Some in Ed. simplify_eq. simpl.
    split; split; try done; intros []; contradiction. }
  apply firstMatchIn_None in Ed. apply bind_Some in E as (a & Ea & E).
  destruct a as [[i st]|].
  { apply firstMatchIn_Some in Ea. apply checkBoundary_spec in E as [E N]; [|done].
    split; [rewrite E|]; split.
    - intros G. constructor; auto.
    - by intros [_ [[_ G]|[G _]]].
    - intros G. by destruct N.
    - intros []. contradiction. }
  apply firstMatchIn_None in Ea. apply bind_Some in E as (o & Er & E).
  destruct o as [[j st]|]; simplify_eq; simpl.
  - apply firstMatchIn_Some in Er. split; split; try done; [|by intros []].
    intros _. constructor; auto.
  - apply firstMatchIn_None in Er. split; split; try done.
    by intros [_ [[G _]|[_ G]]].
Qed.

(** ** Requests of unknown principals see only the bucket policy *)

Lemma evalPhases_anonymous fuel s s' ctx :
  resourcePoliciesOf s (ec_Resource ctx) = resourcePoliciesOf s' (ec_Resource ctx) ->
  evalPhases fuel s ctx None = evalPhases fuel s' ctx None.
Proof. intros E. unfold evalPhases. by rewrite E. Qed.

Lemma resourcePoliciesOf_ext s s' r :
  is_bucketPolicies s = is_bucketPolicies s' -> resourcePoliciesOf s r = resourcePoliciesOf s' r.
Proof. intros E. unfold resourcePoliciesOf, GetBucketPolicy. by rewrite E. Qed.

Lemma lookupUser_None s p : bGet (is_users s) p = None -> lookupUser s p = None.
Proof. intros E. unfold lookupUser, GetUser, found. by rewrite E. Qed.

Lemma Evaluate_anonymous fuel s ctx s' :
  bGet (is_users s) (ec_Principal ctx) = None -> bGet (is_users s') (ec_Principal ctx) = None ->
  is_scp s = is_scp s' -> is_bucketPolicies s = is_bucketPolicies s' ->
  Evaluate fuel (Some s) ctx = Evaluate fuel (Some s') ctx.
Proof.
  intros E E' S B. unfold Evaluate, evaluateSCP. simpl.
  rewrite S, !lookupUser_None, (evalPhases_anonymous fuel s s') by eauto using resourcePoliciesOf_ext.
  done.
Qed.

(** ** Temporary credentials *)

Lemma EvaluateWithTempCreds_spec fuel s ctx rolePolicies inline r :
  EvaluateWithTempCreds fuel s ctx rolePolicies inline = Some r ->
  let docs := (managed s rolePolicies).*1 ++ option_list inline in
  er_Decision r = DecisionAllow <->
  ~ Applies EffectDeny (docs ++ resourcePoliciesOf s (ec_Resource ctx)) ctx /\
  (Applies EffectAllow docs ctx \/
   Applies EffectAllow (resourcePoliciesOf s (ec_Resource ctx)) ctx).
Proof.
  intros E docs. unfold EvaluateWithTempCreds in E. fold docs in E.
  apply bind_Some in E as (d & Ed & E). destruct d as [[i st]|].
  { apply firstMatchIn_Some in Ed. simplify_eq. simpl. naive_solver. }
  apply firstMatchIn_None in Ed. apply bind_Some in E as (a & Ea & E).
  destruct a as [[i st]|].
  { apply firstMatchIn_Some in Ea. simplify_eq. simpl. naive_solver. }
  apply firstMatchIn_None in Ea. apply bind_Some in E as (o & Er & E).
  destruct o as [[j st]|]; simplify_eq; simpl.
  - apply firstMatchIn_Some in Er. naive_solver.
  - apply firstMatchIn_None in Er. naive_solver.
Qed.

Lemma Applies_app eff l l' ctx :
  Applies eff (l ++ l') ctx <-> Applies eff l ctx \/ Applies eff l' ctx.
Proof. unfold Applies. setoid_rewrite elem_of_app. naive_solver. Qed.
End EvalProofs.

#[export] Hint Resolve resolve_stable conditionMatches_stable conditionKeysMatch_stable
  conditionsMatch_stable statementMatches_stable evalDocument_returns evalPhases_returns
  : cipherlake.
