(* ===== verification/IamService.v ===== *)
(** * IAM: the service (internal/iam/service.go, boundary.go, crypto.go)

    The operations on users, access keys, groups, managed policies, roles,
    bucket policies and temporary credentials.  Randomness and clock readings
    are arguments.  Each operation reads and writes the store several times;
    an error in the middle leaves the earlier writes in place. *)

From S2P Require Import Prelude GoStrings CryptoLib Bolt IamTypes IamMatch IamStore IamEval.
From Stdlib Require Import Ascii String.
From stdpp Require Import base list.

(** ** Helpers *)

(** [generateRandomString(length)]: [draw] is the outcome of [rand.Read] on a
    buffer of that length; a failure is a fault. *)
Definition generateRandomString (length : nat) (draw : res bytes) : res string :=
  match randBuf length draw with
  | Ok b => Ok (stake length (hexEncode b))
  | Err e => Panic ("crypto/rand failed: " +:+ e)
  | Panic w => Panic w
  end.
Definition generateID (prefix : string) (draw : res bytes) : res string :=
  r ← generateRandomString 12 draw; Ok (prefix +:+ "_" +:+ r).

Definition containsString (slice : list string) (s : string) : bool :=
  existsb (fun item => bool_decide (item = s)) slice.
(** [removeString]: the first occurrence only. *)
Fixpoint removeString (slice : list string) (s : string) : list string :=
  match slice with
  | [] => []
  | item :: slice => if bool_decide (item = s) then slice else item :: removeString slice s
  end.

(** The first element with the property is replaced, or [None]. *)
Fixpoint replaceFirst {A} (f : A -> bool) (g : A -> list A) (l : list A) : option (list A) :=
  match l with
  | [] => None
  | x :: l => if f x then Some (g x ++ l) else cons x <$> replaceFirst f g l
  end.

(** Record updates of the fields the service assigns. *)
Definition with_keys x (u : IAMUser) :=
  mkIAMUser (iu_ID u) (iu_Name u) (iu_DisplayName u) x (iu_Groups u) (iu_AttachedPolicies u)
    (iu_InlinePolicies u) (iu_PermissionBoundary u) (iu_PasswordHash u) (iu_CreatedAt u)
    (iu_LastActivityAt u).
Definition with_groups x (u : IAMUser) :=
  mkIAMUser (iu_ID u) (iu_Name u) (iu_DisplayName u) (iu_AccessKeys u) x (iu_AttachedPolicies u)
    (iu_InlinePolicies u) (iu_PermissionBoundary u) (iu_PasswordHash u) (iu_CreatedAt u)
    (iu_LastActivityAt u).
Definition with_attached x (u : IAMUser) :=
  mkIAMUser (iu_ID u) (iu_Name u) (iu_DisplayName u) (iu_AccessKeys u) (iu_Groups u) x
    (iu_InlinePolicies u) (iu_PermissionBoundary u) (iu_PasswordHash u) (iu_CreatedAt u)
    (iu_LastActivityAt u).
Definition with_inline x (u : IAMUser) :=
  mkIAMUser (iu_ID u) (iu_Name u) (iu_DisplayName u) (iu_AccessKeys u) (iu_Groups u)
    (iu_AttachedPolicies u) x (iu_PermissionBoundary u) (iu_PasswordHash u) (iu_CreatedAt u)
    (iu_LastActivityAt u).
Definition with_boundary x (u : IAMUser) :=
  mkIAMUser (iu_ID u) (iu_Name u) (iu_DisplayName u) (iu_AccessKeys u) (iu_Groups u)
    (iu_AttachedPolicies u) (iu_InlinePolicies u) x (iu_PasswordHash u) (iu_CreatedAt u)
    (iu_LastActivityAt u).
Definition with_members x (g : IAMGroup) :=
  mkIAMGroup (ig_Name g) (ig_Description g) x (ig_AttachedPolicies g) (ig_CreatedAt g).
Definition with_groupPolicies x (g : IAMGroup) :=
  mkIAMGroup (ig_Name g) (ig_Description g) (ig_Users g) x (ig_CreatedAt g).
Definition with_rolePolicies x (r : IAMRole) :=
  mkIAMRole (ir_Name r) (ir_Description r) (ir_TrustPolicy r) x (ir_MaxSessionDuration r)
    (ir_Path r) (ir_CreatedAt r).
Definition with_status x (a : AccessKey) :=
  mkAccessKey (ak_AccessKeyID a) (ak_SecretKeyEnc a) x (ak_CreatedAt a) (ak_LastUsedAt a)
    (ak_Description a).
Definition with_id x (d : PolicyDocument) := mkPolicyDocument (pd_Version d) x (pd_Statement d).

(** ** The master key (crypto.go) *)

Record MasterKey := mkMasterKey { mk_key : bytes; mk_loaded : bool }.

Section MasterKey.
Context `{CryptoLib}.

(** [NewMasterKey]: [file] is the key file's content, [None] if it does not
    exist; [written] the outcome of writing a new one. *)
Definition NewMasterKey (file : option (res bytes)) (draw : res bytes) (written : res unit)
  : res MasterKey :=
  match file with
  | None =>
    wrapErr "failed to generate master key"
      (key ← wrapErr "failed to generate random key" (randBuf 32 draw);
       _ ← wrapErr "failed to write master key file" written;
       Ok (mkMasterKey key true))
  | Some r =>
    wrapErr "failed to load master key"
      (key ← wrapErr "failed to read master key file" r;
       if (length key =? 32)%nat then Ok (mkMasterKey key true)
       else Err "invalid master key size")
  end.

(** [Encrypt]: nonce || ciphertext || tag. *)
Definition mk_Encrypt (mk : MasterKey) (plaintext : bytes) (draw : res bytes) : res bytes :=
  if negb (mk_loaded mk) then Err "master key not loaded"
  else
    _ ← wrapErr "failed to create cipher" (aes_NewCipher (mk_key mk));
    nonce ← wrapErr "failed to generate nonce" (randBuf gcmNonceSize draw);
    sealed ← gcm_Seal (mk_key mk) nonce plaintext;
    Ok (nonce ++ sealed).

Definition mk_Decrypt (mk : MasterKey) (ciphertext : bytes) : res bytes :=
  if negb (mk_loaded mk) then Err "master key not loaded"
  else
    _ ← wrapErr "failed to create cipher" (aes_NewCipher (mk_key mk));
    if (length ciphertext <? gcmNonceSize)%nat then Err "ciphertext too short"
    else wrapErr "decryption failed"
           (gcm_Open (mk_key mk) (take gcmNonceSize ciphertext) (drop gcmNonceSize ciphertext)).

(** [Zero]. *)
Definition mk_Zero (mk : MasterKey) : MasterKey := mkMasterKey (zeros (length (mk_key mk))) false.
End MasterKey.

Section Service.
Context `{GoUnicode} `{GoParsers} `{CryptoLib} `{Bolt}.

(** [if err != nil { return fmt.Errorf("...: %w", err) }]. *)
Definition wrapI {A} (ctx : string) (m : IAM A) : IAM A := fun s =>
  let '(s', r) := m s in (s', wrapErr ctx r).
(** [if err != nil { return fmt.Errorf(msg) }]. *)
Definition orFail {A} (msg : string) (r : res A) : res A :=
  match r with Err _ => Err msg | _ => r end.
(** [_ = call()]: the error is dropped. *)
Definition ignore {A} (m : IAM A) : IAM unit := _ ← attempt m; mret tt.
Fixpoint forEach {A} (f : A -> IAM unit) (l : list A) : IAM unit :=
  match l with
  | [] => mret tt
  | x :: l => _ ← f x; forEach f l
  end.

(** ** Groups *)

Definition CreateGroup (name description : string) (now : Time) : IAM IAMGroup :=
  existing ← attempt (gets (GetGroup name));
  if is_ok existing then fail ("group " +:+ name +:+ " already exists") else
  let group := mkIAMGroup name description [] [] now in
  _ ← PutGroup group;
  mret group.

Definition AddUserToGroup (userName groupName : string) : IAM unit :=
  user ← gets (fun s => orFail ("user " +:+ userName +:+ " not found") (GetUser userName s));
  group ← gets (fun s => orFail ("group " +:+ groupName +:+ " not found") (GetGroup groupName s));
  _ ← (if containsString (iu_Groups user) groupName then mret tt
       else PutUser (with_groups (iu_Groups user ++ [groupName]) user));
  if containsString (ig_Users group) userName then mret tt
  else PutGroup (with_members (ig_Users group ++ [userName]) group).

Definition RemoveUserFromGroup (userName groupName : string) : IAM unit :=
  user ← gets (GetUser userName);
  group ← gets (GetGroup groupName);
  _ ← PutUser (with_groups (removeString (iu_Groups user) groupName) user);
  PutGroup (with_members (removeString (ig_Users group) userName) group).

Definition DeleteGroup (name : string) : IAM unit :=
  group ← gets (GetGroup name);
  _ ← forEach (fun userName =>
        user ← attempt (gets (GetUser userName));
        match user with
        | Ok u => ignore (PutUser (with_groups (removeString (iu_Groups u) name) u))
        | _ => mret tt
        end) (ig_Users group);
  store_DeleteGroup name.

(** ** Users *)

Definition CreateUser (name displayName : string) (draw : res bytes) (now : Time)
  : IAM IAMUser :=
  existing ← attempt (gets (GetUser name));
  if is_ok existing then fail ("user " +:+ name +:+ " already exists") else
  id ← lift (generateID "u" draw);
  let user := mkIAMUser id name displayName [] [] [] [] "" "" now None in
  _ ← wrapI "failed to save user" (PutUser user);
  mret user.

Definition DeleteUser (name : string) : IAM unit :=
  user ← gets (fun s => orFail ("user " +:+ name +:+ " not found") (GetUser name s));
  _ ← forEach (fun groupName => ignore (RemoveUserFromGroup name groupName)) (iu_Groups user);
  store_DeleteUser name.

(** ** Access keys *)

Record KeyRand := mkKeyRand {
  kr_id : res bytes;
  kr_secret : res bytes;
  kr_nonce : res bytes
}.

Definition CreateAccessKey (mk : MasterKey) (userName description : string) (r : KeyRand)
    (now : Time) : IAM CreateAccessKeyResult :=
  user ← gets (fun s => orFail ("user " +:+ userName +:+ " not found") (GetUser userName s));
  keyRand ← lift (generateRandomString 16 (kr_id r));
  let accessKeyID := AccessKeyIDPrefix +:+ keyRand in
  secretKey ← lift (generateRandomString 40 (kr_secret r));
  secretKeyEnc ← lift (wrapErr "failed to encrypt secret key"
                         (mk_Encrypt mk (bytes_of_string secretKey) (kr_nonce r)));
  let ak := mkAccessKey accessKeyID secretKeyEnc AccessKeyActive now None description in
  _ ← wrapI "failed to save user" (PutUser (with_keys (iu_AccessKeys user ++ [ak]) user));
  mret (mkAKResult accessKeyID secretKey AccessKeyActive now).

Definition isKey (accessKeyID : string) (ak : AccessKey) : bool :=
  bool_decide (ak_AccessKeyID ak = accessKeyID).

Definition DeleteAccessKey (userName accessKeyID : string) : IAM unit :=
  user ← gets (fun s => orFail ("user " +:+ userName +:+ " not found") (GetUser userName s));
  match replaceFirst (isKey accessKeyID) (fun _ => []) (iu_AccessKeys user) with
  | Some keys => PutUser (with_keys keys user)
  | None => fail ("access key " +:+ accessKeyID +:+ " not found for user " +:+ userName)
  end.

Definition ListAccessKeys (userName : string) : IAM (list AccessKey) :=
  user ← gets (GetUser userName); mret (iu_AccessKeys user).

Definition setAccessKeyStatus (userName accessKeyID status : string) : IAM unit :=
  user ← gets (GetUser userName);
  match replaceFirst (isKey accessKeyID) (fun a => [with_status status a]) (iu_AccessKeys user) with
  | Some keys => PutUser (with_keys keys user)
  | None => fail ("access key " +:+ accessKeyID +:+ " not found")
  end.
Definition ActivateAccessKey (userName accessKeyID : string) : IAM unit :=
  setAccessKeyStatus userName accessKeyID AccessKeyActive.
Definition DeactivateAccessKey (userName accessKeyID : string) : IAM unit :=
  setAccessKeyStatus userName accessKeyID AccessKeyInactive.

Definition DecryptSecretKey (mk : MasterKey) (encryptedSecret : bytes) : res string :=
  plaintext ← wrapErr "failed to decrypt secret key" (mk_Decrypt mk encryptedSecret);
  Ok (string_of_bytes plaintext).

(** [GetUserByAccessKeyID]: the store's lookup reports "no such key" as a
    nil user without an error, and [user.AccessKeys] faults on it. *)
Definition GetUserByAccessKeyID (accessKeyID : string) (s : IAMStore)
  : res (IAMUser * AccessKey) :=
  user ← orFail ("no user found for access key " +:+ accessKeyID)
                (GetUserByAccessKey accessKeyID s);
  match user with
  | None => Panic "nil pointer dereference"
  | Some user =>
    match List.find (isKey accessKeyID) (iu_AccessKeys user) with
    | Some ak => Ok (user, ak)
    | None => Err ("access key " +:+ accessKeyID +:+ " not found")
    end
  end.

(** ** Managed policies *)

Definition CreatePolicy (name description : string) (document : PolicyDocument) (t1 t2 : Time)
  : IAM IAMPolicy :=
  existing ← attempt (gets (GetPolicy name));
  if is_ok existing then fail ("policy " +:+ name +:+ " already exists") else
  let policy := mkIAMPolicy (MakePolicyARN name) name description "Custom" document "" t1 t2 in
  _ ← PutPolicy policy;
  mret policy.

(** [hasPolicyRef] for the set of the policy's name and ARN. *)
Definition isRef (name ref : string) : bool :=
  bool_decide (ref = name) || bool_decide (ref = MakePolicyARN name).
Definition hasPolicyRef (name : string) (refs : list string) : bool := existsb (isRef name) refs.

Definition ensurePolicyNotAttached (name : string) (s : IAMStore) : res unit :=
  match List.find (fun u => hasPolicyRef name (iu_AttachedPolicies u) ||
                            isRef name (iu_PermissionBoundary u)) (ListUsers s) with
  | Some u =>
    if hasPolicyRef name (iu_AttachedPolicies u)
    then Err ("policy " +:+ name +:+ " is attached to user " +:+ iu_Name u)
    else Err ("policy " +:+ name +:+ " is used as permission boundary by user " +:+ iu_Name u)
  | None =>
    match List.find (fun g => hasPolicyRef name (ig_AttachedPolicies g)) (ListGroups s) with
    | Some g => Err ("policy " +:+ name +:+ " is attached to group " +:+ ig_Name g)
    | None =>
      match List.find (fun r => hasPolicyRef name (ir_PermissionPolicies r)) (ListRoles s) with
      | Some r => Err ("policy " +:+ name +:+ " is attached to role " +:+ ir_Name r)
      | None => Ok tt
      end
    end
  end.

Definition DeletePolicy (name : string) : IAM unit :=
  _ ← gets (ensurePolicyNotAttached name);
  store_DeletePolicy name.

Definition policyExists (policyName : string) : IAM unit :=
  _ ← gets (fun s => orFail ("policy " +:+ policyName +:+ " not found") (GetPolicy policyName s));
  mret tt.

Definition AttachUserPolicy (userName policyName : string) : IAM unit :=
  user ← gets (GetUser userName);
  _ ← policyExists policyName;
  if containsString (iu_AttachedPolicies user) policyName then mret tt
  else PutUser (with_attached (iu_AttachedPolicies user ++ [policyName]) user).

Definition DetachUserPolicy (userName policyName : string) : IAM unit :=
  user ← gets (GetUser userName);
  PutUser (with_attached (removeString (iu_AttachedPolicies user) policyName) user).

Definition AttachGroupPolicy (groupName policyName : string) : IAM unit :=
  group ← gets (GetGroup groupName);
  _ ← policyExists policyName;
  if containsString (ig_AttachedPolicies group) policyName then mret tt
  else PutGroup (with_groupPolicies (ig_AttachedPolicies group ++ [policyName]) group).

Definition DetachGroupPolicy (groupName policyName : string) : IAM unit :=
  group ← gets (GetGroup groupName);
  PutGroup (with_groupPolicies (removeString (ig_AttachedPolicies group) policyName) group).

Definition hasId (policyName : string) (p : PolicyDocument) : bool :=
  bool_decide (pd_Id p = policyName).

Definition PutUserInlinePolicy (userName policyName : string) (document : PolicyDocument)
  : IAM unit :=
  user ← gets (GetUser userName);
  let document := with_id policyName document in
  match replaceFirst (hasId policyName) (fun _ => [document]) (iu_InlinePolicies user) with
  | Some l => PutUser (with_inline l user)
  | None => PutUser (with_inline (iu_InlinePolicies user ++ [document]) user)
  end.

Definition DeleteUserInlinePolicy (userName policyName : string) : IAM unit :=
  user ← gets (GetUser userName);
  match replaceFirst (hasId policyName) (fun _ => []) (iu_InlinePolicies user) with
  | Some l => PutUser (with_inline l user)
  | None => fail ("inline policy " +:+ policyName +:+ " not found")
  end.

(** ** Permission boundaries (boundary.go) *)

Definition SetPermissionBoundary (userName policyName : string) : IAM unit :=
  user ← gets (fun s => orFail ("user " +:+ userName +:+ " not found") (GetUser userName s));
  _ ← gets (fun s => orFail ("boundary policy " +:+ policyName +:+ " not found")
                       (GetPolicy policyName s));
  PutUser (with_boundary policyName user).

Definition RemovePermissionBoundary (userName : string) : IAM unit :=
  user ← gets (fun s => orFail ("user " +:+ userName +:+ " not found") (GetUser userName s));
  PutUser (with_boundary "" user).

(** ** Roles *)

Definition CreateRole (name description : string) (trustPolicy : PolicyDocument)
    (maxSessionDuration : Z) (now : Time) : IAM IAMRole :=
  existing ← attempt (gets (GetRole name));
  if is_ok existing then fail ("role " +:+ name +:+ " already exists") else
  let d := if (maxSessionDuration <=? 0)%Z then DefaultMaxSessionDuration
           else maxSessionDuration in
  let role := mkIAMRole name description trustPolicy [] d "" now in
  _ ← PutRole role;
  mret role.

Definition DeleteRole (name : string) : IAM unit := store_DeleteRole name.

Definition AttachRolePolicy (roleName policyName : string) : IAM unit :=
  role ← gets (GetRole roleName);
  _ ← policyExists policyName;
  if containsString (ir_PermissionPolicies role) policyName then mret tt
  else PutRole (with_rolePolicies (ir_PermissionPolicies role ++ [policyName]) role).

Definition DetachRolePolicy (roleName policyName : string) : IAM unit :=
  role ← gets (GetRole roleName);
  PutRole (with_rolePolicies (removeString (ir_PermissionPolicies role) policyName) role).

(** ** Bucket policies *)

Definition PutBucketPolicy (name : string) (document : PolicyDocument) (now : Time) : IAM unit :=
  store_PutBucketPolicy (mkBucketPolicy name document now).
Definition DeleteBucketPolicy (name : string) : IAM unit := store_DeleteBucketPolicy name.

(** ** Temporary credentials *)

Record CredRand := mkCredRand {
  cd_id : res bytes;
  cd_secret : res bytes;
  cd_token : res bytes
}.

(** The shared tail of the three calls: make and store a credential that
    expires [duration] seconds after [now]. *)
Definition issueCredential (duration : Z) (r : CredRand) (now : Time)
  : IAM TemporaryCredential :=
  id ← lift (generateRandomString 16 (cd_id r));
  secret ← lift (generateRandomString 40 (cd_secret r));
  token ← lift (generateRandomString 64 (cd_token r));
  let cred := mkTempCred ("ASIA" +:+ id) secret token
                (Prelude.Add now (wrap64 (duration * Second))) in
  _ ← wrapI "failed to store temp credential" (PutTempCredential cred);
  mret cred.

Lemma issueCredential_inv duration r now s s' cred :
  issueCredential duration r now s = (s', Ok cred) ->
  tc_Expiration cred = (now + wrap64 (duration * Second))%Z.
Proof.
  unfold issueCredential, mbind, iam_bind, lift, wrapI, mret, iam_ret.
  destruct (generateRandomString 16 (cd_id r)); [|done..].
  destruct (generateRandomString 40 (cd_secret r)); [|done..].
  destruct (generateRandomString 64 (cd_token r)); [|done..].
  destruct (PutTempCredential _ s) as [s1 [[]|e|w]]; simpl; intros; by simplify_eq.
Qed.

Definition clampDuration (most : Z) (durationSeconds : Z) : Z :=
  let d := if (durationSeconds <=? 0)%Z then 3600%Z else durationSeconds in
  if (most <? d)%Z then most else d.

Definition GetSessionToken (callerARN : string) (durationSeconds : Z) (r : CredRand)
    (now : Time) : IAM TemporaryCredential :=
  issueCredential (clampDuration 129600 durationSeconds) r now.

Definition GetFederationToken (name callerARN : string) (durationSeconds : Z)
    (policy : option PolicyDocument) (r : CredRand) (now : Time) : IAM TemporaryCredential :=
  issueCredential (clampDuration 43200 durationSeconds) r now.

Definition trustContext (callerARN roleARN : string) (now : Time) : EvalContext :=
  mkEvalContext callerARN "sts:AssumeRole" roleARN ∅ "" now "" "" ∅ ∅ ∅ "" "".

(** [AssumeRole]: [None] when the evaluation has not finished. *)
Definition AssumeRole (fuel : nat) (req : AssumeRoleRequest) (callerARN : string)
    (r : CredRand) (t1 t2 : Time) (s : IAMStore)
  : option (IAMStore * res TemporaryCredential) :=
  let roleName := extractRoleNameFromARN (rq_RoleARN req) in
  if bool_decide (roleName = "")
  then Some (s, Err ("invalid role ARN: " +:+ rq_RoleARN req)) else
  match GetRole roleName s with
  | Ok role =>
    let trustCtx := trustContext callerARN (rq_RoleARN req) t1 in
    evaluated ← Evaluate fuel (Some s) trustCtx;
    trusted ← firstMatch fuel EffectAllow (pd_Statement (ir_TrustPolicy role)) trustCtx;
    let decision := match trusted with
                    | Some _ => DecisionAllow
                    | None => er_Decision evaluated
                    end in
    if bool_decide (decision = DecisionAllow) then
      let duration :=
        if (0 <? rq_DurationSeconds req)%Z &&
           (rq_DurationSeconds req <=? ir_MaxSessionDuration role)%Z
        then rq_DurationSeconds req else ir_MaxSessionDuration role in
      Some (issueCredential duration r t2 s)
    else Some (s, Err ("access denied: caller " +:+ callerARN
                       +:+ " is not authorized to assume role " +:+ roleName))
  | _ => Some (s, Err ("role " +:+ roleName +:+ " not found"))
  end.

Definition EvaluateAccess (fuel : nat) (s : IAMStore) (ctx : EvalContext) : option EvalResult :=
  Evaluate fuel (Some s) ctx.

(** ** Bootstrap *)

Definition adminPolicy : PolicyDocument :=
  mkPolicyDocument PolicyVersion ""
    [mkStatement "" EffectAllow ["*"] [] ["*"] [] None None []].

(** [InitializeAdmin]; [None] when there is nothing to do. *)
Definition InitializeAdmin (mk : MasterKey) (idRand : res bytes) (r : KeyRand) (now : Time)
  : IAM (option CreateAccessKeyResult) :=
  adminUser ← attempt (gets (GetUser "admin"));
  if match adminUser with Ok u => (0 <? length (iu_AccessKeys u))%nat | _ => false end
  then mret None else
  _ ← (if is_ok adminUser then mret tt
       else _ ← wrapI "failed to create admin user" (CreateUser "admin" "Administrator" idRand now);
            mret tt);
  result ← wrapI "failed to create admin access key"
             (CreateAccessKey mk "admin" "Initial admin key" r now);
  _ ← ignore (CreatePolicy "AdministratorAccess" "Full access to all resources" adminPolicy now now);
  _ ← ignore (AttachUserPolicy "admin" "AdministratorAccess");
  mret (Some result).
End Service.
