(* ===== verification/IamTheorems.v ===== *)
(** * IAM: theorems about policy evaluation *)

From S2P Require Import Prelude GoStrings Bolt CryptoLib IamTypes IamMatch IamStore IamEval.
From S2P Require Import IamGlob IamEvalProofs IamService IamEval.
From Stdlib Require Import Ascii String.
From stdpp Require Import base list.

(** ** Fixtures for concrete cases *)

Import MapBolt AsciiOnly SmallParsers.

Definition stmt (effect : string) (actions resources : list string) (c : Conditions) : Statement :=
  mkStatement "s1" effect actions [] resources [] None None c.
Definition policyDoc (l : list Statement) : PolicyDocument := mkPolicyDocument PolicyVersion "" l.
Definition userWith (name : string) (docs : list PolicyDocument) : IAMUser :=
  mkIAMUser "u_1" name "" [] [] [] docs "" "" 0%Z None.
Definition storeWith (users : list IAMUser) (scp : option PolicyDocument) : IAMStore :=
  mkIAMStore (list_to_map (map (fun u => (iu_Name u, u)) users) : gmap string IAMUser)
    (∅ : gmap string IAMGroup) (∅ : gmap string IAMPolicy) (∅ : gmap string IAMRole)
    (∅ : gmap string BucketPolicy) (∅ : gmap string TemporaryCredential) scp.
Definition request (principal action resource userAgent : string) : EvalContext :=
  mkEvalContext principal action resource ∅ "" 0%Z userAgent "" ∅ ∅ ∅ "" "".

Section Decisions.
Context {uni : GoUnicode} {par : GoParsers} {bolt : Bolt}.

(** C2: Evaluate decides exactly as the policy rules say, in terms of "some
    statement with this effect matches" instead of the order of its loops:
    it allows if and only if the service control policy (when set) permits
    the request, no Deny statement of any identity or bucket policy
    matches, and either an identity policy allows it within the user's
    permission boundary or no identity policy allows it and the bucket
    policy does; it is an implicit deny if and only if the service control
    policy permits and nothing matches; it is a Deny otherwise. *)
Theorem evaluate_refines_spec fuel s ctx r :
  Evaluate fuel (Some s) ctx = Some r ->
  (er_Decision r = DecisionAllow <->
     gate (is_scp s) ctx /\ allow_spec s ctx (lookupUser s (ec_Principal ctx))) /\
  (er_Decision r = DecisionImplicitDeny <->
     gate (is_scp s) ctx /\ implicit_spec s ctx (lookupUser s (ec_Principal ctx))).
Proof.
  unfold Evaluate, evaluateSCP. simpl. destruct (is_scp s) as [doc|]; simpl.
  - intros E. apply bind_Some in E as (o & Eo & E). apply evalDocument_spec in Eo.
    destruct (er_Decision o) eqn:D; simplify_eq; simpl.
    + split; split; try done; intros [G _]; by apply Eo in G.
    + apply evalPhases_spec in E. tauto.
    + split; split; try done; intros [G _]; by apply Eo in G.
  - intros E. apply evalPhases_spec in E. tauto.
Qed.

(** C37: when no attribute of the request (tags, user agent, prefix, ...)
    contains a closing brace, evaluating any set of policies returns: there
    is one result that every sufficient amount of fuel gives. *)
Theorem evaluate_terminates store ctx :
  benign ctx -> exists r n, forall fuel, (n <= fuel)%nat -> Evaluate fuel store ctx = Some r.
Proof.
  intros B. change (returns (fun fuel => Evaluate fuel store ctx)).
  unfold Evaluate, evaluateSCP. fuel.
Qed.

(** EvaluateWithBoundary gives the same result as Evaluate for the
    user the request names, whenever no service control policy is set. *)
Theorem evaluate_with_boundary_agrees fuel s ctx :
  is_scp s = None ->
  EvaluateWithBoundary fuel s ctx (lookupUser s (ec_Principal ctx)) = Evaluate fuel (Some s) ctx.
Proof.
  intros E. unfold Evaluate. simpl. rewrite E. unfold EvaluateWithBoundary, evalPhases.
  set (identity := match lookupUser s (ec_Principal ctx) with
                   | Some u => identityPoliciesOf s u | None => [] end).
  destruct (firstMatchIn fuel EffectDeny _ ctx 0) as [[[i st]|]|]; try done. simpl.
  destruct (firstMatchIn fuel EffectAllow identity.*1 ctx 0) as [[[i st]|]|]; try done. simpl.
  assert ((if (i <? length identity.*2)%nat then default "" (identity.*2 !! i) else "")
          = default "" (identity.*2 !! i)) as ->.
  { destruct (Nat.ltb_spec i (length identity.*2)); [done|]. by rewrite lookup_ge_None_2. }
  unfold checkBoundary. destruct (lookupUser s (ec_Principal ctx)) as [u|]; [|done]. simpl.
  case_bool_decide; [done|]. destruct (GetPolicy _ s); [|done|done].
  destruct (evaluateBoundary fuel ctx (ip_Document a)) as [r|]; [|done]. simpl.
  by case_bool_decide.
Qed.

(** the decision on a condition block does not depend on the order in
    which Go's map iteration happens to visit operators and keys: two
    enumerations with the same (operator, key, value) triples never give
    different answers. *)
Theorem condition_order_irrelevant fuel fuel' conds conds' ctx b b' :
  conditionTriples conds ≡ₚ conditionTriples conds' ->
  conditionsMatch fuel conds ctx = Some b -> conditionsMatch fuel' conds' ctx = Some b' ->
  b = b'.
Proof.
  intros P E E'. apply conditionsMatch_spec in E, E'. rewrite P in E.
  apply eq_true_iff_eq. tauto.
Qed.
End Decisions.

(** ** Witnesses for the theorems above *)

Lemma evaluate_refines_spec_witness :
  let s := storeWith [userWith "bob" [policyDoc [stmt EffectAllow ["s3:Get*"] ["*"] []]]] None in
  let ctx := request "bob" "s3:GetObject" "arn:cipherlake:s3:::b/k" "" in
  allow_spec s ctx (lookupUser s "bob").
Proof.
  intros s ctx.
  destruct (evaluate_refines_spec 1 s ctx
              (allowedByIdentity "" "s1")) as [A _]; [vm_compute; reflexivity|].
  apply A. reflexivity.
Defined.

Lemma evaluate_terminates_witness :
  exists r n, forall fuel, (n <= fuel)%nat ->
    Evaluate fuel (Some (storeWith [] None)) (request "bob" "s3:GetObject" "" "") = Some r.
Proof.
  apply evaluate_terminates. intros key. unfold resolveConditionKey.
  repeat case_match_goal; reflexivity.
Defined.

Lemma evaluate_with_boundary_agrees_witness :
  let s := storeWith [userWith "bob" []] None in
  EvaluateWithBoundary 1 s (request "bob" "a" "r" "") (Some (userWith "bob" []))
  = Evaluate 1 (Some s) (request "bob" "a" "r" "").
Proof. apply (evaluate_with_boundary_agrees 1 (storeWith [userWith "bob" []] None)). reflexivity. Defined.

Lemma condition_order_irrelevant_witness :
  let c := [("StringEquals", [("aws:UserAgent", CStr "x"); ("s3:prefix", CStr "")])] in
  let c' := [("StringEquals", [("s3:prefix", CStr ""); ("aws:UserAgent", CStr "x")])] in
  let ctx := request "p" "a" "r" "x" in
  conditionsMatch 1 c ctx = conditionsMatch 1 c' ctx.
Proof.
  intros c c' ctx. transitivity (Some true); [vm_compute; reflexivity|].
  destruct (conditionsMatch 1 c' ctx) as [b|] eqn:E; [|vm_compute in E; discriminate].
  f_equal. apply (condition_order_irrelevant 1 1 c c' ctx true b).
  - apply Permutation_swap.
  - vm_compute. reflexivity.
  - exact E.
Defined.

(** ** Glob patterns *)

(** C18: the wildcard matcher agrees with the meaning of patterns ('*' any
    text, '?' any character) on every string without a literal star, and what
    it accepts is always a match; its loop returns within the fuel it is
    given. *)
Theorem glob_match_correct pattern str :
  (globMatch pattern str = true ->
   globSpec (list_ascii_of_string pattern) (list_ascii_of_string str) = true) /\
  (noStar (list_ascii_of_string str) ->
   globMatch pattern str
   = globSpec (list_ascii_of_string pattern) (list_ascii_of_string str)) /\
  is_Some (globLoop (globFuel (String.length pattern) (String.length str))
             (list_ascii_of_string pattern) (list_ascii_of_string str) 0 0 None 0).
Proof.
  split; [apply globMatch_sound|]. split; [apply globMatch_exact|].
  assert (forall s, String.length s = length (list_ascii_of_string s)) as L
    by (induction s as [|c s IH]; simpl; auto).
  rewrite !L. destruct (globMatch_returns pattern str) as [b E]. by exists b.
Qed.

Lemma glob_match_correct_witness :
  globMatch "arn:*:b/?x*" "arn:cipherlake:s3:::b/axz" = true.
Proof.
  destruct (glob_match_correct "arn:*:b/?x*" "arn:cipherlake:s3:::b/axz") as (_ & E & _).
  rewrite E; [vm_compute; reflexivity|].
  unfold noStar. apply (bool_decide_unpack _). vm_compute. exact I.
Defined.

(** an object whose key starts with a literal star escapes a Deny on the
    bucket's objects: the pattern covers the resource, yet the user, allowed
    everything else, is allowed this too.  (The matcher consumes the star of
    the pattern as an ordinary character.) *)
Theorem star_key_escapes_deny :
  let deny := stmt EffectDeny ["*"] ["arn:cipherlake:s3:::b/*"] [] in
  let s := storeWith [userWith "bob" [policyDoc [deny; stmt EffectAllow ["*"] ["*"] []]]] None in
  let decide_on res := er_Decision <$> Evaluate 1 (Some s) (request "bob" "s3:GetObject" res "") in
  globSpec (list_ascii_of_string "arn:cipherlake:s3:::b/*")
           (list_ascii_of_string "arn:cipherlake:s3:::b/*x") = true /\
  decide_on "arn:cipherlake:s3:::b/ax" = Some DecisionDeny /\
  decide_on "arn:cipherlake:s3:::b/*x" = Some DecisionAllow.
Proof. by vm_compute. Qed.

(** bucket and key survive the trip through a resource name, for every
    bucket name without a slash (and any key, slashes included). *)
Theorem resource_name_roundtrip b key :
  nochar slash b = true -> ResourceToS3Path (S3PathToResource b key) = (b, key).
Proof.
  intros. unfold S3PathToResource. case_bool_decide as K; unfold ResourceToS3Path.
  - rewrite MakeBucketARN_prefix, HasPrefix_app, TrimPrefix_app, cut_none by done. by subst.
  - rewrite MakeObjectARN_prefix, HasPrefix_app, TrimPrefix_app, cut_app by done. done.
Qed.

Lemma resource_name_roundtrip_witness :
  ResourceToS3Path (S3PathToResource "images" "a/b.png") = ("images", "a/b.png").
Proof. apply (resource_name_roundtrip "images" "a/b.png"). reflexivity. Defined.

(** ** Variable substitution *)

Section Loop.
Context {uni : GoUnicode} {par : GoParsers}.

Lemma substLoop_none fuel v ctx : substStep v ctx = inl v -> substLoop fuel v ctx = None.
Proof. intros E. induction fuel as [|fuel IH]; [done|]. simpl. by rewrite E. Qed.

Definition loopCondition : Conditions :=
  [("StringEquals", [("s3:prefix", CStr "${aws:useragent}")])].

(** a request whose user agent is the text of a reference to itself
    never finishes evaluation when a policy compares against that
    reference: no amount of fuel gives a result. *)
Theorem self_reference_never_returns fuel :
  Evaluate fuel
    (Some (storeWith [userWith "bob" [policyDoc [stmt EffectAllow ["*"] ["*"] loopCondition]]] None))
    (request "bob" "s3:GetObject" "arn:cipherlake:s3:::b/k" "${aws:useragent}") = None.
Proof.
  set (ctx := request _ _ _ _).
  assert (resolveVariableSubstitution fuel "${aws:useragent}" ctx = None) as R.
  { unfold resolveVariableSubstitution.
    replace (Contains "${aws:useragent}" "${") with true by (vm_compute; reflexivity).
    apply substLoop_none. vm_compute. reflexivity. }
  assert (statementMatches fuel (stmt EffectAllow ["*"] ["*"] loopCondition) ctx = None) as M.
  { change (conditionsMatch fuel loopCondition ctx = None).
    cbn [conditionsMatch loopCondition conditionKeysMatch]. unfold conditionMatches.
    rewrite bool_decide_false by (vm_compute; discriminate). by rewrite R. }
  unfold Evaluate. simpl is_scp. cbn [mbind option_bind].
  unfold evalPhases.
  assert (lookupUser (storeWith [userWith "bob" [policyDoc
            [stmt EffectAllow ["*"] ["*"] loopCondition]]] None) (ec_Principal ctx)
          = Some (userWith "bob" [policyDoc [stmt EffectAllow ["*"] ["*"] loopCondition]]))
    as -> by reflexivity.
  change (resourcePoliciesOf _ _) with (@nil PolicyDocument).
  cbn -[statementMatches stmt]. change (st_Effect (stmt EffectAllow ["*"] ["*"] loopCondition))
    with EffectAllow. by rewrite M.
Qed.
End Loop.

(** ** Callers of the evaluator *)

Section Callers.
Context {uni : GoUnicode} {par : GoParsers} {lib : CryptoLib} {bolt : Bolt}.

(** the gateway's access check looks users up under their ARN while
    the store keeps them under their plain name.  Unless some user is
    literally named by that ARN, the answer for a user is the same in any
    two stores that share the service control policy and the bucket
    policies: the user's own inline, attached and group policies, Deny
    statements and permission boundary included, play no part. *)
Theorem gateway_check_ignores_identity_policies fuel s s' u action b key ip now :
  bGet (is_users s) (MakeUserARN (iu_Name u)) = None ->
  bGet (is_users s') (MakeUserARN (iu_Name u)) = None ->
  is_scp s = is_scp s' -> is_bucketPolicies s = is_bucketPolicies s' ->
  CheckIAMAccess fuel s (Some u) action b key ip now
  = CheckIAMAccess fuel s' (Some u) action b key ip now.
Proof.
  intros. unfold CheckIAMAccess. case_bool_decide; [done|].
  by rewrite (Evaluate_anonymous fuel s _ s').
Qed.

(** for temporary credentials, the inline "scope-down" policy only adds
    to what the role's policies allow: the request is allowed if and only
    if no Deny matches and the role's policies, the inline policy or the
    bucket policy has a matching Allow. *)
Theorem inline_policy_adds_permissions fuel s ctx rolePolicies inline r :
  EvaluateWithTempCreds fuel s ctx rolePolicies (Some inline) = Some r ->
  er_Decision r = DecisionAllow <->
  ~ Applies EffectDeny
      ((managed s rolePolicies).*1 ++ [inline] ++ resourcePoliciesOf s (ec_Resource ctx)) ctx /\
  (Applies EffectAllow (managed s rolePolicies).*1 ctx \/ Applies EffectAllow [inline] ctx \/
   Applies EffectAllow (resourcePoliciesOf s (ec_Resource ctx)) ctx).
Proof.
  intros E. rewrite (EvaluateWithTempCreds_spec _ _ _ _ _ _ E). cbn [option_list].
  rewrite <- app_assoc, (Applies_app EffectAllow). tauto.
Qed.

(** AssumeRole issues a credential only for a role that exists and only
    if a statement of the role's trust policy allows the caller or the
    evaluation of the caller's policies does; the credential expires within
    the role's maximum session duration. *)
Theorem assume_role_sound fuel req caller rnd t1 t2 s s' cred :
  AssumeRole fuel req caller rnd t1 t2 s = Some (s', Ok cred) ->
  exists role d,
    GetRole (extractRoleNameFromARN (rq_RoleARN req)) s = Ok role /\
    (some_match EffectAllow (pd_Statement (ir_TrustPolicy role))
       (trustContext caller (rq_RoleARN req) t1) \/
     er_Decision <$> Evaluate fuel (Some s) (trustContext caller (rq_RoleARN req) t1)
       = Some DecisionAllow) /\
    (d <= ir_MaxSessionDuration role)%Z /\
    tc_Expiration cred = (t2 + wrap64 (d * Second))%Z /\
    (d = ir_MaxSessionDuration role \/ 0 < d)%Z.
Proof.
  unfold AssumeRole. case_bool_decide; [by intros [= _ ?]|].
  destruct (GetRole _ s) as [role|e|w]; [|by intros [= _ ?]..].
  set (ctx := trustContext _ _ _). intros E.
  apply bind_Some in E as (r & Er & E). apply bind_Some in E as (o & Eo & E).
  case_bool_decide as D; [|by simplify_eq].
  injection E as E.
  set (d := if (0 <? rq_DurationSeconds req)%Z && _ then rq_DurationSeconds req
            else ir_MaxSessionDuration role) in E.
  exists role, d. split; [done|]. split.
  { apply firstMatch_spec in Eo. destruct o as [st|]; [left; apply Eo; by eexists|].
    right. rewrite Er. simpl. by rewrite D. }
  assert (d <= ir_MaxSessionDuration role /\ (d = ir_MaxSessionDuration role \/ 0 < d))%Z as [? ?].
  { subst d. destruct (_ && _) eqn:B; [boolify|]; lia. }
  split; [done|]. split; [|done].
  apply issueCredential_inv in E. exact E.
Qed.
End Callers.

Lemma gateway_check_ignores_identity_policies_witness :
  let u := userWith "bob" [policyDoc [stmt EffectAllow ["*"] ["*"] []]] in
  let u' := userWith "bob" [policyDoc [stmt EffectDeny ["*"] ["*"] []]] in
  CheckIAMAccess 1 (storeWith [u] None) (Some u) "s3:GetObject" "b" "k" "" 0%Z
  = CheckIAMAccess 1 (storeWith [u'] None) (Some u) "s3:GetObject" "b" "k" "" 0%Z.
Proof.
  intros u u'.
  apply (gateway_check_ignores_identity_policies 1 (storeWith [u] None) (storeWith [u'] None));
    vm_compute; reflexivity.
Defined.

Lemma inline_policy_adds_permissions_witness :
  let inline := policyDoc [stmt EffectAllow ["s3:*"] ["*"] []] in
  Applies EffectAllow [inline] (request "sts:x" "s3:PutObject" "arn:cipherlake:s3:::b/k" "").
Proof.
  intros inline.
  destruct (inline_policy_adds_permissions 1 (storeWith [] None)
    (request "sts:x" "s3:PutObject" "arn:cipherlake:s3:::b/k" "") [] inline
    (mkEvalResult DecisionAllow "s1" "identity" "" "")) as [A _]; [vm_compute; reflexivity|].
  destruct (A eq_refl) as [_ [(d & st & H & _)|[G|(d & st & H & _)]]].
  - by apply not_elem_of_nil in H.
  - exact G.
  - by apply not_elem_of_nil in H.
Defined.

(** A role anyone may assume, in an organisation whose service control policy
    denies everything. *)
Definition openRole : IAMRole :=
  mkIAMRole "ops" "" (policyDoc [stmt EffectAllow ["sts:AssumeRole"] ["*"] []]) [] 3600%Z "" 0%Z.
Definition deniedOrg : IAMStore :=
  set_roles ({[ "ops" := openRole ]} : gmap string IAMRole)
    (storeWith [] (Some (policyDoc [stmt EffectDeny ["*"] ["*"] []]))).
Definition zeroRand : CredRand := mkCredRand (Ok (zeros 16)) (Ok (zeros 40)) (Ok (zeros 64)).
Definition assumeOps : AssumeRoleRequest :=
  mkAssumeRole "arn:cipherlake:iam:::role/ops" "session" 900%Z "" "".

Import ToyCrypto.

Lemma issued_inv {S A} (x : option (S * res A)) :
  (is_ok ∘ snd <$> x) = Some true -> exists s a, x = Some (s, Ok a).
Proof. destruct x as [[s [a|e|w]]|]; try done. by exists s, a. Qed.

Lemma assume_role_sound_witness :
  exists role d cred, GetRole "ops" deniedOrg = Ok role /\ (d <= ir_MaxSessionDuration role)%Z /\
    tc_Expiration cred = (0 + wrap64 (d * Second))%Z.
Proof.
  destruct (issued_inv (AssumeRole 1 assumeOps "arn:cipherlake:iam:::user/eve" zeroRand 0%Z 0%Z
                          deniedOrg)) as (s' & cred & E); [vm_compute; reflexivity|].
  destruct (assume_role_sound 1 assumeOps _ zeroRand _ _ deniedOrg s' cred E)
    as (role & d & R & _ & L & X & _).
  exists role, d, cred. split; [exact R|]. split; [exact L|exact X].
Defined.

(** AssumeRole does not respect the service control policy: the
    organisation denies every action to everyone, evaluation of the caller's
    request says Deny, and the credential is issued all the same. *)
Theorem assume_role_bypasses_scp :
  let caller := "arn:cipherlake:iam:::user/eve" in
  (er_Decision <$> Evaluate 1 (Some deniedOrg)
     (trustContext caller (rq_RoleARN assumeOps) 0%Z)) = Some DecisionDeny /\
  (is_ok ∘ snd <$> AssumeRole 1 assumeOps caller zeroRand 0%Z 0%Z deniedOrg) = Some true.
Proof. by vm_compute. Qed.
