(* ===== verification/IamServiceProofs.v ===== *)
(** * IAM: invariants of the service

    Two invariants of the store under every operation of the service: policy
    references never dangle, and group membership is recorded on both sides.
    The second one needs a store that does not refuse writes. *)

From S2P Require Import Prelude GoStrings CryptoLib Bolt IamTypes IamMatch IamStore.
From S2P Require Import IamEval IamService.
From Stdlib Require Import Ascii String.
From stdpp Require Import base list.

(** ** Running operations *)

Section Run.
Context {bolt : Bolt}.
Implicit Types (s : IAMStore) (P : IAMStore -> Prop).

Lemma run_gets {A B} (f : IAMStore -> res A) (k : A -> IAM B) s P :
  P s -> (forall a, f s = Ok a -> P (k a s).1) -> P ((gets f ≫= k) s).1.
Proof. intros Hs Hk. unfold mbind, iam_bind, gets. destruct (f s) eqn:E; eauto. Qed.

Lemma run_lift {A B} (r : res A) (k : A -> IAM B) s P :
  P s -> (forall a, P (k a s).1) -> P ((lift r ≫= k) s).1.
Proof. intros Hs Hk. unfold mbind, iam_bind, lift. destruct r; eauto. Qed.

Lemma run_attempt {A B} (f : IAMStore -> res A) (k : res A -> IAM B) s P :
  P s -> (forall w, f s <> Panic w -> P (k (f s) s).1) -> P ((attempt (gets f) ≫= k) s).1.
Proof.
  intros Hs Hk. unfold mbind, iam_bind, attempt, gets. destruct (f s) eqn:E; auto.
  - by apply (Hk "").
  - by apply (Hk "").
Qed.

Lemma run_seq {A B} (m : IAM A) (k : A -> IAM B) s P :
  P (m s).1 -> (forall a s', P s' -> P (k a s').1) -> P ((m ≫= k) s).1.
Proof. unfold mbind, iam_bind. destruct (m s) as [s' [a|e|w]]; simpl; auto. Qed.

Lemma run_ignore {A} (m : IAM A) s P : P (m s).1 -> P (ignore m s).1.
Proof.
  unfold ignore, attempt, mbind, iam_bind. destruct (m s) as [s' [a|e|w]]; simpl; auto.
Qed.

Lemma run_wrap {A} c (m : IAM A) s P : P (m s).1 -> P (wrapI c m s).1.
Proof. unfold wrapI. by destruct (m s). Qed.

Lemma run_forEach {A} (f : A -> IAM unit) l s P :
  P s -> (forall x s', P s' -> P (f x s').1) -> P (forEach f l s).1.
Proof.
  intros Hs Hf. revert s Hs. induction l as [|x l IH]; intros s Hs; [done|].
  simpl. apply run_seq; auto.
Qed.

Lemma run_update {V} (get : IAMStore -> bucket V) set f s P :
  P s -> (forall b, f (get s) = Ok b -> P (set b s)) -> P (update get set f s).1.
Proof. intros Hs Hf. unfold update. destruct (f (get s)); simpl; auto. Qed.

Lemma found_inv {V} what name (v : option V) x : found what name v = Ok x -> v = Some x.
Proof. unfold found. destruct v; naive_solver. Qed.

Lemma orFail_inv {A} msg (r : res A) x : orFail msg r = Ok x -> r = Ok x.
Proof. unfold orFail. destruct r; naive_solver. Qed.
End Run.

(** The store's single-bucket transactions. *)
Ltac on_update :=
  unfold PutUser, PutGroup, PutPolicy, PutRole, PutTempCredential, store_PutBucketPolicy,
    store_DeleteUser, store_DeleteGroup, store_DeletePolicy, store_DeleteRole,
    store_DeleteBucketPolicy, DeleteTempCredential;
  apply run_update.

Lemma removeString_incl l x : removeString l x ⊆ l.
Proof.
  induction l as [|y l IH]; simpl; [done|]. case_bool_decide; [set_solver|set_solver].
Qed.

Lemma Forall_removeString (Q : string -> Prop) l x : Forall Q l -> Forall Q (removeString l x).
Proof. rewrite !Forall_forall. intros F y Hy. by apply F, (removeString_incl l x). Qed.

(** ** References *)

Section Refs.
Context {bolt : Bolt} {laws : BoltLaws}.
Implicit Types s : IAMStore.

Definition defined (s : IAMStore) (p : string) : Prop := is_Some (bGet (is_policies s) p).

Definition user_refs s (u : IAMUser) : Prop :=
  Forall (defined s) (iu_AttachedPolicies u) /\
  (iu_PermissionBoundary u = "" \/ defined s (iu_PermissionBoundary u)).

(** Every policy a user, group or role refers to exists. *)
Record refs_ok s : Prop := {
  refs_user k u : bGet (is_users s) k = Some u -> user_refs s u;
  refs_group k g : bGet (is_groups s) k = Some g -> Forall (defined s) (ig_AttachedPolicies g);
  refs_role k r : bGet (is_roles s) k = Some r -> Forall (defined s) (ir_PermissionPolicies r)
}.

Lemma refs_empty : refs_ok emptyStore.
Proof. constructor; simpl; intros ??; by rewrite bGet_empty. Qed.

(** The policies a store defines do not depend on its other buckets. *)
Lemma PutUser_refs u s : refs_ok s -> user_refs s u -> refs_ok (PutUser u s).1.
Proof.
  intros [U G R] Hu. on_update; [done|]. intros b E.
  constructor; [|exact G|exact R].
  intros k u' Hk. destruct (bGet_put_inv _ _ _ _ _ _ E Hk) as [[_ ->]|[_ Hk']]; [done|].
  exact (U k u' Hk').
Qed.

Lemma PutGroup_refs g s :
  refs_ok s -> Forall (defined s) (ig_AttachedPolicies g) -> refs_ok (PutGroup g s).1.
Proof.
  intros [U G R] Hg. on_update; [done|]. intros b E.
  constructor; [exact U| |exact R].
  intros k g' Hk. destruct (bGet_put_inv _ _ _ _ _ _ E Hk) as [[_ ->]|[_ Hk']]; [done|].
  exact (G k g' Hk').
Qed.

Lemma PutRole_refs r s :
  refs_ok s -> Forall (defined s) (ir_PermissionPolicies r) -> refs_ok (PutRole r s).1.
Proof.
  intros [U G R] Hr. on_update; [done|]. intros b E.
  constructor; [exact U|exact G|].
  intros k r' Hk. destruct (bGet_put_inv _ _ _ _ _ _ E Hk) as [[_ ->]|[_ Hk']]; [done|].
  exact (R k r' Hk').
Qed.

(** Defining more policies keeps references. *)
Lemma refs_mono s b :
  refs_ok s -> (forall p, defined s p -> is_Some (bGet b p)) -> refs_ok (set_policies b s).
Proof.
  intros [U G R] M. constructor; simpl.
  - intros k u Hu. destruct (U k u Hu) as [A B]. split; [|naive_solver].
    eapply Forall_impl; [exact A|exact M].
  - intros k g Hg. eapply Forall_impl; [exact (G k g Hg)|exact M].
  - intros k r Hr. eapply Forall_impl; [exact (R k r Hr)|exact M].
Qed.

Lemma PutPolicy_refs p s : refs_ok s -> refs_ok (PutPolicy p s).1.
Proof.
  intros I. on_update; [done|]. intros b E. apply refs_mono; [done|].
  intros q Hq. rewrite (bGet_put _ _ _ _ _ _ E). case_decide; [by eexists|done].
Qed.

Lemma delete_refs_user n s : refs_ok s -> refs_ok (store_DeleteUser n s).1.
Proof.
  intros [U G R]. on_update; [done|]. intros b E. constructor; [|exact G|exact R].
  intros k u. simpl. rewrite (bGet_delete _ _ _ _ _ E). case_decide; [done|]. exact (U k u).
Qed.

Lemma delete_refs_group n s : refs_ok s -> refs_ok (store_DeleteGroup n s).1.
Proof.
  intros [U G R]. on_update; [done|]. intros b E. constructor; [exact U| |exact R].
  intros k u. simpl. rewrite (bGet_delete _ _ _ _ _ E). case_decide; [done|]. exact (G k u).
Qed.

Lemma delete_refs_role n s : refs_ok s -> refs_ok (store_DeleteRole n s).1.
Proof.
  intros [U G R]. on_update; [done|]. intros b E. constructor; [exact U|exact G|].
  intros k u. simpl. rewrite (bGet_delete _ _ _ _ _ E). case_decide; [done|]. exact (R k u).
Qed.

(** ** The attachment check *)

Lemma find_none_all {A} (f : A -> bool) l : List.find f l = None -> Forall (fun x => f x = false) l.
Proof.
  intros E. apply List.Forall_forall. intros x Hx. by apply (List.find_none f l E).
Qed.

Lemma not_ref name l : hasPolicyRef name l = false -> Forall (fun p => p <> name) l.
Proof.
  unfold hasPolicyRef. induction l as [|x l IH]; simpl; intros E; [done|].
  apply orb_false_iff in E as [E1 E2]. unfold isRef in E1.
  apply orb_false_iff in E1 as [E1 _]. boolify. constructor; auto.
Qed.

Lemma listed_unref {V} (b : bucket V) (f : V -> bool) k v :
  List.find f (bForEach b).*2 = None -> bGet b k = Some v -> f v = false.
Proof.
  intros E Hv. apply find_none_all in E. rewrite Forall_forall in E. apply E.
  apply bForEach_get in Hv. exact (list_elem_of_fmap_2 snd _ _ Hv).
Qed.

Lemma DeletePolicy_refs n s : refs_ok s -> refs_ok (DeletePolicy n s).1.
Proof.
  intros I. unfold DeletePolicy. apply run_gets; [done|]. intros [] E.
  unfold ensurePolicyNotAttached in E.
  destruct (List.find _ (ListUsers s)) as [u|] eqn:EU; [by destruct (hasPolicyRef _ _)|].
  destruct (List.find _ (ListGroups s)) as [g|] eqn:EG; [done|].
  destruct (List.find _ (ListRoles s)) as [r|] eqn:ER; [done|].
  on_update; [done|]. intros b D.
  assert (forall l, Forall (defined s) l -> hasPolicyRef n l = false ->
            Forall (defined (set_policies b s)) l) as Keep.
  { intros l HF HN%not_ref. rewrite Forall_forall in HF, HN |- *. intros p Hp.
    unfold defined. simpl. rewrite (bGet_delete _ _ _ _ _ D).
    rewrite decide_False by (by apply HN). by apply HF. }
  destruct I as [U G R]. constructor; simpl.
  - intros k u Hu. pose proof (listed_unref _ _ _ _ EU Hu) as X.
    apply orb_false_iff in X as [X1 X2]. destruct (U k u Hu) as [A B]. split; [by apply Keep|].
    destruct B as [B|B]; [by left|right]. unfold isRef in X2.
    apply orb_false_iff in X2 as [X2 _]. boolify.
    unfold defined. simpl. rewrite (bGet_delete _ _ _ _ _ D). by rewrite decide_False.
  - intros k g Hg. apply Keep; [by apply (G k)|exact (listed_unref _ _ _ _ EG Hg)].
  - intros k r Hr. apply Keep; [by apply (R k)|exact (listed_unref _ _ _ _ ER Hr)].
Qed.

Lemma GetUser_refs n s u : refs_ok s -> GetUser n s = Ok u -> user_refs s u.
Proof. intros I E. apply found_inv in E. by apply (refs_user s I n). Qed.
Lemma GetGroup_refs n s g :
  refs_ok s -> GetGroup n s = Ok g -> Forall (defined s) (ig_AttachedPolicies g).
Proof. intros I E. apply found_inv in E. by apply (refs_group s I n). Qed.
Lemma GetRole_refs n s r :
  refs_ok s -> GetRole n s = Ok r -> Forall (defined s) (ir_PermissionPolicies r).
Proof. intros I E. apply found_inv in E. by apply (refs_role s I n). Qed.
Lemma GetPolicy_defined n s p : GetPolicy n s = Ok p -> defined s n.
Proof. intros E. apply found_inv in E. by eexists. Qed.

(** A user that differs only in fields without policy references. *)
Lemma user_refs_ext s u u' :
  user_refs s u -> iu_AttachedPolicies u' = iu_AttachedPolicies u ->
  iu_PermissionBoundary u' = iu_PermissionBoundary u -> user_refs s u'.
Proof. intros R E1 E2. unfold user_refs. by rewrite E1, E2. Qed.

Lemma user_refs_attach s u l :
  user_refs s u -> Forall (defined s) l -> user_refs s (with_attached l u).
Proof. intros [_ B] F. by split. Qed.

(** The other buckets do not matter. *)
Lemma refs_other s s' :
  is_users s' = is_users s -> is_groups s' = is_groups s -> is_policies s' = is_policies s ->
  is_roles s' = is_roles s -> refs_ok s -> refs_ok s'.
Proof.
  destruct s, s'; simpl. intros -> -> -> -> [U G R]. by constructor.
Qed.
End Refs.

#[export] Hint Resolve PutUser_refs PutGroup_refs PutRole_refs PutPolicy_refs GetUser_refs
  GetGroup_refs GetRole_refs GetPolicy_defined Forall_removeString user_refs_attach
  delete_refs_user delete_refs_group delete_refs_role : cipherlake.

(** ** IAM: theorems about the service *)

Section Steps.
Context {uni : GoUnicode} {par : GoParsers} {lib : CryptoLib} {bolt : Bolt}.

(** One call of the service, whatever its arguments, randomness and
    outcome: an error may leave part of the call's writes. *)
Inductive iam_step : IAMStore -> IAMStore -> Prop :=
| step_CreateUser n d r t s : iam_step s (CreateUser n d r t s).1
| step_DeleteUser n s : iam_step s (DeleteUser n s).1
| step_CreateAccessKey mk u d r t s : iam_step s (CreateAccessKey mk u d r t s).1
| step_DeleteAccessKey u k s : iam_step s (DeleteAccessKey u k s).1
| step_setAccessKeyStatus u k st s : iam_step s (setAccessKeyStatus u k st s).1
| step_CreateGroup n d t s : iam_step s (CreateGroup n d t s).1
| step_DeleteGroup n s : iam_step s (DeleteGroup n s).1
| step_AddUserToGroup u g s : iam_step s (AddUserToGroup u g s).1
| step_RemoveUserFromGroup u g s : iam_step s (RemoveUserFromGroup u g s).1
| step_CreatePolicy n d doc t t' s : iam_step s (CreatePolicy n d doc t t' s).1
| step_DeletePolicy n s : iam_step s (DeletePolicy n s).1
| step_AttachUserPolicy u p s : iam_step s (AttachUserPolicy u p s).1
| step_DetachUserPolicy u p s : iam_step s (DetachUserPolicy u p s).1
| step_AttachGroupPolicy g p s : iam_step s (AttachGroupPolicy g p s).1
| step_DetachGroupPolicy g p s : iam_step s (DetachGroupPolicy g p s).1
| step_PutUserInlinePolicy u p doc s : iam_step s (PutUserInlinePolicy u p doc s).1
| step_DeleteUserInlinePolicy u p s : iam_step s (DeleteUserInlinePolicy u p s).1
| step_SetPermissionBoundary u p s : iam_step s (SetPermissionBoundary u p s).1
| step_RemovePermissionBoundary u s : iam_step s (RemovePermissionBoundary u s).1
| step_CreateRole n d doc m t s : iam_step s (CreateRole n d doc m t s).1
| step_DeleteRole n s : iam_step s (DeleteRole n s).1
| step_AttachRolePolicy r p s : iam_step s (AttachRolePolicy r p s).1
| step_DetachRolePolicy r p s : iam_step s (DetachRolePolicy r p s).1
| step_PutBucketPolicy n doc t s : iam_step s (PutBucketPolicy n doc t s).1
| step_DeleteBucketPolicy n s : iam_step s (DeleteBucketPolicy n s).1
| step_issueCredential d r t s : iam_step s (issueCredential d r t s).1
| step_SetSCP doc s : iam_step s (SetSCP doc s).1
| step_RemoveSCP s : iam_step s (RemoveSCP s)
| step_InitializeAdmin mk r k t s : iam_step s (InitializeAdmin mk r k t s).1.

(** AssumeRole, GetSessionToken and GetFederationToken change the store as
    [issueCredential] does, or not at all. *)
Lemma AssumeRole_step fuel req c r t t' s s' x :
  AssumeRole fuel req c r t t' s = Some (s', x) -> s' = s \/ iam_step s s'.
Proof.
  unfold AssumeRole. case_bool_decide; [intros [= <- _]; auto|].
  destruct (GetRole _ s); [|intros [= <- _]; auto..].
  destruct (Evaluate _ _ _); [|done]. simpl. destruct (firstMatch _ _ _ _); [|done]. simpl.
  case_bool_decide; [|intros [= <- _]; auto].
  intros E. injection E as E. right.
  change s' with (s', x).1. rewrite <- E. constructor.
Qed.
End Steps.

(** Walk through an operation: reads keep the store, writes end a branch. *)
Ltac run_step :=
  match goal with
  | |- context [(gets _ ≫= _) _] => apply run_gets; [done|intros ? ?]
  | |- context [(attempt (gets _) ≫= _) _] => apply run_attempt; [done|intros ? ?]
  | |- context [(lift _ ≫= _) _] => apply run_lift; [done|intros ?]
  | |- context [ignore _ _] => apply run_ignore
  | |- context [wrapI _ _ _] => apply run_wrap
  | |- context [(if ?c then _ else _) _] => destruct c eqn:?
  | |- context [(match ?c with _ => _ end) _] => destruct c eqn:?
  | |- context [(_ ≫= _) _] => apply run_seq; [|intros ???]
  | H : orFail _ _ = Ok _ |- _ => apply orFail_inv in H
  end.
Ltac run := repeat run_step; eauto 6 with cipherlake.

Section References.
Context {uni : GoUnicode} {par : GoParsers} {lib : CryptoLib} {bolt : Bolt} {laws : BoltLaws}.

Lemma put_same_refs s n u u' :
  refs_ok s -> GetUser n s = Ok u -> iu_AttachedPolicies u' = iu_AttachedPolicies u ->
  iu_PermissionBoundary u' = iu_PermissionBoundary u -> refs_ok (PutUser u' s).1.
Proof.
  intros I E E1 E2. apply PutUser_refs; [done|].
  eapply user_refs_ext; [exact (GetUser_refs n s u I E)|done|done].
Qed.

Lemma new_user_refs s id n d t :
  refs_ok s -> refs_ok (PutUser (mkIAMUser id n d [] [] [] [] "" "" t None) s).1.
Proof. intros I. apply PutUser_refs; [done|]. split; [constructor|by left]. Qed.
Hint Resolve put_same_refs new_user_refs : cipherlake.


Lemma PutUser_policies u s : is_policies (PutUser u s).1 = is_policies s.
Proof.
  unfold PutUser, update. by destruct (bPut _ _ _).
Qed.

Lemma group_refs_ext s s' l :
  is_policies s' = is_policies s -> Forall (defined s) l -> Forall (defined s') l.
Proof. intros E. unfold defined. by rewrite E. Qed.

(** A user write followed by a write of a group read before it. *)
Lemma run_user_group (m : IAM unit) s g :
  refs_ok (m s).1 -> is_policies (m s).1 = is_policies s ->
  Forall (defined s) (ig_AttachedPolicies g) ->
  refs_ok ((_ ← m; PutGroup g) s).1.
Proof.
  intros I E F. unfold mbind, iam_bind. destruct (m s) as [s' [[]|e|w]]; simpl in *; auto.
  apply PutGroup_refs; [done|]. by eapply group_refs_ext.
Qed.

Lemma RemoveUserFromGroup_refs u g s : refs_ok s -> refs_ok (RemoveUserFromGroup u g s).1.
Proof.
  intros I. unfold RemoveUserFromGroup. run_step. run_step.
  apply run_user_group; [eauto with cipherlake|apply PutUser_policies|].
  simpl; eauto with cipherlake.
Qed.

Lemma AddUserToGroup_refs u g s : refs_ok s -> refs_ok (AddUserToGroup u g s).1.
Proof.
  intros I. unfold AddUserToGroup. do 2 run_step.
  repeat match goal with H : orFail _ _ = Ok _ |- _ => apply orFail_inv in H end.
  set (m := if containsString (iu_Groups _) _ then _ else _).
  assert (refs_ok (m s).1 /\ is_policies (m s).1 = is_policies s) as [Im Em].
  { subst m. destruct (containsString _ _); [done|].
    split; [eauto with cipherlake|apply PutUser_policies]. }
  destruct (containsString (ig_Users _) u).
  - apply run_seq; [done|]. by intros [] ? ?.
  - apply run_user_group; [done..|]. simpl; eauto with cipherlake.
Qed.

Lemma CreateUser_refs n d r t s : refs_ok s -> refs_ok (CreateUser n d r t s).1.
Proof. intros I. unfold CreateUser. run. Qed.
Lemma CreateAccessKey_refs mk u d r t s : refs_ok s -> refs_ok (CreateAccessKey mk u d r t s).1.
Proof. intros I. unfold CreateAccessKey. run. Qed.
Lemma CreatePolicy_refs n d doc t t' s : refs_ok s -> refs_ok (CreatePolicy n d doc t t' s).1.
Proof. intros I. unfold CreatePolicy. run. Qed.
Hint Resolve CreateUser_refs CreateAccessKey_refs CreatePolicy_refs RemoveUserFromGroup_refs
  : cipherlake.

Lemma policyExists_run {B} p (k : unit -> IAM B) s P :
  P s -> (defined s p -> P (k tt s).1) -> P ((policyExists p ≫= k) s).1.
Proof.
  intros Hs Hk. unfold policyExists, mbind, iam_bind, gets.
  destruct (GetPolicy p s) eqn:E; simpl; auto.
  apply Hk. by eapply GetPolicy_defined.
Qed.

Lemma AttachUserPolicy_refs u p s : refs_ok s -> refs_ok (AttachUserPolicy u p s).1.
Proof.
  intros I. unfold AttachUserPolicy. run_step. apply policyExists_run; [done|]. intros D.
  destruct (containsString _ _); [done|]. apply PutUser_refs; [done|].
  assert (user_refs s a) as Ru by eauto with cipherlake.
  apply user_refs_attach; [done|]. destruct Ru as [F _]. apply Forall_app; auto.
Qed.
Hint Resolve AttachUserPolicy_refs : cipherlake.

Lemma DetachUserPolicy_refs u p s : refs_ok s -> refs_ok (DetachUserPolicy u p s).1.
Proof.
  intros I. unfold DetachUserPolicy. run_step. apply PutUser_refs; [done|].
  assert (user_refs s a) as Ru by eauto with cipherlake.
  apply user_refs_attach; [done|]. apply Forall_removeString, Ru.
Qed.

Lemma AttachGroupPolicy_refs g p s : refs_ok s -> refs_ok (AttachGroupPolicy g p s).1.
Proof.
  intros I. unfold AttachGroupPolicy. run_step. apply policyExists_run; [done|]. intros D.
  destruct (containsString _ _); [done|]. apply PutGroup_refs; [done|]. simpl.
  apply Forall_app; eauto with cipherlake.
Qed.

Lemma AttachRolePolicy_refs g p s : refs_ok s -> refs_ok (AttachRolePolicy g p s).1.
Proof.
  intros I. unfold AttachRolePolicy. run_step. apply policyExists_run; [done|]. intros D.
  destruct (containsString _ _); [done|]. apply PutRole_refs; [done|]. simpl.
  apply Forall_app; eauto with cipherlake.
Qed.

Lemma SetPermissionBoundary_refs u p s : refs_ok s -> refs_ok (SetPermissionBoundary u p s).1.
Proof.
  intros I. unfold SetPermissionBoundary. do 2 run_step.
  repeat match goal with H : orFail _ _ = Ok _ |- _ => apply orFail_inv in H end.
  apply PutUser_refs; [done|]. assert (user_refs s a) as [F _] by eauto with cipherlake.
  split; [done|]. right. by eapply GetPolicy_defined.
Qed.

Lemma RemovePermissionBoundary_refs u s : refs_ok s -> refs_ok (RemovePermissionBoundary u s).1.
Proof.
  intros I. unfold RemovePermissionBoundary. run_step.
  repeat match goal with H : orFail _ _ = Ok _ |- _ => apply orFail_inv in H end.
  apply PutUser_refs; [done|]. assert (user_refs s a) as [F _] by eauto with cipherlake.
  split; [done|by left].
Qed.

Lemma InitializeAdmin_refs mk r k t s : refs_ok s -> refs_ok (InitializeAdmin mk r k t s).1.
Proof.
  intros I. unfold InitializeAdmin. run_step.
  match goal with |- context [if ?c then mret None else _] => destruct c; [done|] end.
  apply run_seq.
  { destruct (is_ok _); [done|]. apply run_seq; [apply run_wrap|]; eauto with cipherlake. }
  intros [] s1 I1. apply run_seq; [apply run_wrap; eauto with cipherlake|]. intros res s2 I2.
  apply run_seq; [apply run_ignore; eauto with cipherlake|]. intros [] s3 I3.
  apply run_seq; [apply run_ignore; eauto with cipherlake|]. by intros [] s4 I4.
Qed.

Lemma iam_step_refs s s' : iam_step s s' -> refs_ok s -> refs_ok s'.
Proof.
  intros [] I; eauto using AddUserToGroup_refs, AttachGroupPolicy_refs, DetachUserPolicy_refs,
    AttachRolePolicy_refs, SetPermissionBoundary_refs, RemovePermissionBoundary_refs,
    InitializeAdmin_refs, DeletePolicy_refs with cipherlake.
  - unfold DeleteUser. run_step. apply run_seq; [|eauto with cipherlake].
    apply run_forEach; [done|]. intros g s1 I1. apply run_ignore. eauto with cipherlake.
  - unfold DeleteAccessKey. run.
  - unfold setAccessKeyStatus. run.
  - unfold CreateGroup. run.
  - unfold DeleteGroup. run_step. apply run_seq; [|eauto with cipherlake].
    apply run_forEach; [done|]. intros u s1 I1. run.
  - unfold DetachGroupPolicy. run_step. apply PutGroup_refs; [done|].
    apply Forall_removeString. eauto with cipherlake.
  - unfold PutUserInlinePolicy. run.
  - unfold DeleteUserInlinePolicy. run.
  - unfold CreateRole. run.
  - unfold DetachRolePolicy. run_step. apply PutRole_refs; [done|].
    apply Forall_removeString. eauto with cipherlake.
  - unfold PutBucketPolicy. on_update; [done|]. intros b E. by apply (refs_other s0).
  - unfold DeleteBucketPolicy. on_update; [done|]. intros b E. by apply (refs_other s0).
  - unfold issueCredential. repeat run_step; [|done]. on_update; [done|].
    intros b E. by apply (refs_other s0).
  - unfold SetSCP. destruct doc as [d|]; [|done]. destruct (_ =? 0)%nat; [done|].
    by apply (refs_other s0).
  - by apply (refs_other s0).
Qed.
End References.

(** ** IAM: group membership is recorded on both sides

    A user lists its groups and a group its users.  [members_ok] says both
    describe one relation between existing users and existing groups. *)

Lemma containsString_spec l x : containsString l x = true <-> x ∈ l.
Proof.
  induction l as [|y l IH]; simpl; [by split; [|intros ?%not_elem_of_nil]|].
  rewrite orb_true_iff, bool_decide_eq_true, IH, elem_of_cons. naive_solver.
Qed.

Lemma removeString_spec l x y : NoDup l -> y ∈ removeString l x <-> y ∈ l /\ y <> x.
Proof.
  induction l as [|z l IH]; simpl; intros ND; [set_solver|].
  apply NoDup_cons in ND as [Nz ND]. case_bool_decide; subst; [set_solver|].
  rewrite !elem_of_cons, IH by done. naive_solver.
Qed.

Lemma removeString_NoDup l x : NoDup l -> NoDup (removeString l x).
Proof.
  induction l as [|z l IH]; simpl; intros ND; [done|].
  apply NoDup_cons in ND as [Nz ND]. case_bool_decide; [done|].
  apply NoDup_cons. split; [|auto]. intros Hz. apply Nz. exact (removeString_incl l x z Hz).
Qed.

Section Membership.
Context {uni : GoUnicode} {par : GoParsers} {lib : CryptoLib}.
Context {bolt : Bolt} {laws : BoltLaws} {reliable : BoltReliable}.
Implicit Types (s : IAMStore) (R : string -> string -> Prop).

(** The users' side and the groups' side of a relation. *)
Definition usersL (b : bucket IAMUser) R : Prop := forall k u, bGet b k = Some u ->
  iu_Name u = k /\ goodKey k = true /\ NoDup (iu_Groups u) /\ forall g, g ∈ iu_Groups u <-> R k g.
Definition groupsL (b : bucket IAMGroup) R : Prop := forall g G, bGet b g = Some G ->
  ig_Name G = g /\ goodKey g = true /\ NoDup (ig_Users G) /\ forall k, k ∈ ig_Users G <-> R k g.

Record linked s R : Prop := {
  linked_users : usersL (is_users s) R;
  linked_groups : groupsL (is_groups s) R;
  linked_dom k g : R k g -> is_Some (bGet (is_users s) k) /\ is_Some (bGet (is_groups s) g)
}.

Definition members_ok s : Prop := exists R, linked s R.

Lemma members_empty : members_ok emptyStore.
Proof.
  exists (fun _ _ => False). split; [| |done]; intros ??; simpl; by rewrite bGet_empty.
Qed.

(** ** Writes *)

Lemma put_usersL b b' R R' k u :
  usersL b R -> bPut b k u = Ok b' -> iu_Name u = k -> NoDup (iu_Groups u) ->
  (forall g, g ∈ iu_Groups u <-> R' k g) ->
  (forall k' g, k' <> k -> R' k' g <-> R k' g) -> usersL b' R'.
Proof.
  intros L E N ND Hk Ho k' u' Hu.
  destruct (bGet_put_inv _ _ _ _ _ _ E Hu) as [[-> ->]|[Hne Hu']].
  - split; [done|]. split; [by eapply bPut_key|]. auto.
  - destruct (L k' u' Hu') as (? & ? & ? & Hg). repeat (split; [done|]).
    intros g. rewrite Hg. symmetry. by apply Ho.
Qed.

Lemma put_groupsL b b' R R' g G :
  groupsL b R -> bPut b g G = Ok b' -> ig_Name G = g -> NoDup (ig_Users G) ->
  (forall k, k ∈ ig_Users G <-> R' k g) ->
  (forall k g', g' <> g -> R' k g' <-> R k g') -> groupsL b' R'.
Proof.
  intros L E N ND Hk Ho g' G' Hu.
  destruct (bGet_put_inv _ _ _ _ _ _ E Hu) as [[-> ->]|[Hne Hu']].
  - split; [done|]. split; [by eapply bPut_key|]. auto.
  - destruct (L g' G' Hu') as (? & ? & ? & Hg). repeat (split; [done|]).
    intros k. rewrite Hg. symmetry. by apply Ho.
Qed.

Lemma put_is_Some {V} (b b' : bucket V) k v k' :
  bPut b k v = Ok b' -> is_Some (bGet b k') -> is_Some (bGet b' k').
Proof. intros E H. rewrite (bGet_put _ _ _ _ _ _ E). case_decide; [by eexists|done]. Qed.

(** A reliable store accepts a write under a key it holds already. *)
Lemma put_succeeds {V} (b : bucket V) k v : goodKey k = true -> exists b', bPut b k v = Ok b'.
Proof.
  intros G. pose proof (bPut_ok V b k v G) as O. destruct (bPut b k v); [by eexists|done..].
Qed.

(** A user written back with the same name and groups. *)
Lemma put_same_members s n u u' :
  members_ok s -> GetUser n s = Ok u -> iu_Name u' = iu_Name u -> iu_Groups u' = iu_Groups u ->
  members_ok (PutUser u' s).1.
Proof.
  intros [R [LU LG D]] E EN EG. apply found_inv in E. on_update; [by exists R|].
  intros b P. exists R. destruct (LU n u E) as (Hn & Hk & ND & Hg).
  assert (iu_Name u' = n) as HN by congruence. rewrite HN in P.
  split; [|exact LG|].
  - eapply put_usersL; eauto; rewrite ?EG; auto.
  - intros k g Hr. destruct (D k g Hr). split; [|done]. simpl. by eapply put_is_Some.
Qed.

Lemma new_user_members s u :
  members_ok s -> bGet (is_users s) (iu_Name u) = None -> iu_Groups u = [] ->
  members_ok (PutUser u s).1.
Proof.
  intros [R [LU LG D]] E EG. on_update; [by exists R|]. intros b P. exists R. split; [|exact LG|].
  - eapply put_usersL; eauto; rewrite ?EG; [by apply NoDup_nil|].
    intros g. split; [by intros ?%not_elem_of_nil|].
    intros Hr. destruct (D _ _ Hr) as [[x Hx] _]. congruence.
  - intros k g Hr. destruct (D k g Hr). split; [|done]. simpl. by eapply put_is_Some.
Qed.

Lemma put_same_group s n G G' :
  members_ok s -> GetGroup n s = Ok G -> ig_Name G' = ig_Name G -> ig_Users G' = ig_Users G ->
  members_ok (PutGroup G' s).1.
Proof.
  intros [R [LU LG D]] E EN EG. apply found_inv in E. on_update; [by exists R|].
  intros b P. exists R. destruct (LG n G E) as (Hn & Hk & ND & Hg).
  assert (ig_Name G' = n) as HN by congruence. rewrite HN in P.
  split; [exact LU| |].
  - eapply put_groupsL; eauto; rewrite ?EG; auto.
  - intros k g Hr. destruct (D k g Hr). split; [done|]. simpl. by eapply put_is_Some.
Qed.

Lemma new_group_members s G :
  members_ok s -> bGet (is_groups s) (ig_Name G) = None -> ig_Users G = [] ->
  members_ok (PutGroup G s).1.
Proof.
  intros [R [LU LG D]] E EG. on_update; [by exists R|]. intros b P. exists R. split; [exact LU| |].
  - eapply put_groupsL; eauto; rewrite ?EG; [by apply NoDup_nil|].
    intros g. split; [by intros ?%not_elem_of_nil|].
    intros Hr. destruct (D _ _ Hr) as [_ [x Hx]]. congruence.
  - intros k g Hr. destruct (D k g Hr). split; [done|]. simpl. by eapply put_is_Some.
Qed.

(** ** Adding and removing a member *)

(** No user or group disappears. *)
Definition extends s s' : Prop :=
  (forall k, is_Some (bGet (is_users s) k) -> is_Some (bGet (is_users s') k)) /\
  (forall g, is_Some (bGet (is_groups s) g) -> is_Some (bGet (is_groups s') g)).

(** Both sides rewritten together. *)
Lemma put_both s R R' n gn u u' G G' :
  linked s R -> bGet (is_users s) n = Some u -> bGet (is_groups s) gn = Some G ->
  iu_Name u' = iu_Name u -> ig_Name G' = ig_Name G -> NoDup (iu_Groups u') ->
  NoDup (ig_Users G') -> (forall g, g ∈ iu_Groups u' <-> R' n g) ->
  (forall k, k ∈ ig_Users G' <-> R' k gn) ->
  (forall k g, k <> n \/ g <> gn -> R' k g <-> R k g) ->
  exists s', (_ ← PutUser u'; PutGroup G') s = (s', Ok tt) /\ linked s' R' /\ extends s s'.
Proof.
  intros [LU LG D] Eu EG Hn Hg NDu NDg Hu' HG' Ho.
  destruct (LU n u Eu) as (Un & Uk & _), (LG gn G EG) as (Gn & Gk & _).
  destruct (put_succeeds (is_users s) n u' Uk) as [bu Pu].
  destruct (put_succeeds (is_groups s) gn G' Gk) as [bg Pg].
  exists (set_groups bg (set_users bu s)). split.
  - unfold mbind, iam_bind, PutUser, PutGroup, update. rewrite Hn, Un, Pu. simpl.
    by rewrite Hg, Gn, Pg.
  - split; [|split; intros x; [exact (put_is_Some _ _ _ _ x Pu)|exact (put_is_Some _ _ _ _ x Pg)]].
    split; simpl.
    + eapply put_usersL; [exact LU|exact Pu|congruence|done|done|]. intros k' g Hk. apply Ho. by left.
    + eapply put_groupsL; [exact LG|exact Pg|congruence|done|done|]. intros k g' Hg'. apply Ho. by right.
    + intros k g Hr.
      assert (is_Some (bGet (is_users s) k) /\ is_Some (bGet (is_groups s) g)) as [? ?].
      { destruct (decide (k = n)) as [->|]; [destruct (decide (g = gn)) as [->|]|].
        - split; by eexists.
        - apply D, Ho; auto.
        - apply D, Ho; auto. }
      split; by eapply put_is_Some.
Qed.

(** [RemoveUserFromGroup] of an existing member takes the pair out. *)
Lemma RemoveUserFromGroup_linked s R n gn :
  linked s R -> is_Some (bGet (is_users s) n) -> is_Some (bGet (is_groups s) gn) ->
  exists s', RemoveUserFromGroup n gn s = (s', Ok tt) /\
             linked s' (fun k g => R k g /\ ~ (k = n /\ g = gn)) /\ extends s s'.
Proof.
  intros L [u Eu] [G EG]. unfold RemoveUserFromGroup, gets, GetUser, GetGroup, found.
  unfold mbind at 1, iam_bind at 1. rewrite Eu. unfold mbind at 1, iam_bind at 1. rewrite EG.
  destruct (linked_users _ _ L n u Eu) as (_ & _ & NDu & Hu).
  destruct (linked_groups _ _ L gn G EG) as (_ & _ & NDg & Hg).
  eapply put_both; eauto; simpl.
  - by apply removeString_NoDup.
  - by apply removeString_NoDup.
  - intros g. rewrite removeString_spec by done. rewrite Hu. naive_solver.
  - intros k. rewrite removeString_spec by done. rewrite Hg. naive_solver.
  - naive_solver.
Qed.

Lemma RemoveUserFromGroup_members n gn s :
  members_ok s -> members_ok (RemoveUserFromGroup n gn s).1.
Proof.
  intros [R L].
  destruct (bGet (is_users s) n) as [u|] eqn:Eu.
  2: { unfold RemoveUserFromGroup, mbind, iam_bind, gets, GetUser, found. rewrite Eu. by exists R. }
  destruct (bGet (is_groups s) gn) as [G|] eqn:EG.
  2: { unfold RemoveUserFromGroup, mbind, iam_bind, gets, GetUser, GetGroup, found.
       rewrite Eu, EG. by exists R. }
  destruct (RemoveUserFromGroup_linked s R n gn L) as (s' & -> & L' & _); [by eexists..|].
  by eexists.
Qed.

Lemma AddUserToGroup_members n gn s : members_ok s -> members_ok (AddUserToGroup n gn s).1.
Proof.
  intros [R L]. unfold AddUserToGroup.
  apply run_gets; [by exists R|]. intros u Eu%orFail_inv%found_inv.
  apply run_gets; [by exists R|]. intros G EG%orFail_inv%found_inv.
  destruct (linked_users _ _ L n u Eu) as (_ & _ & NDu & Hu).
  destruct (linked_groups _ _ L gn G EG) as (_ & _ & NDg & Hg).
  destruct (containsString (iu_Groups u) gn) eqn:Cu.
  { apply containsString_spec, Hu, Hg, containsString_spec in Cu. rewrite Cu.
    by exists R. }
  assert (~ R n gn) as NR.
  { rewrite <- Hu, <- containsString_spec. congruence. }
  assert (containsString (ig_Users G) n = false) as ->.
  { apply not_true_iff_false. by rewrite containsString_spec, Hg. }
  destruct (put_both s R (fun k g => R k g \/ (k = n /\ g = gn)) n gn u
    (with_groups (iu_Groups u ++ [gn]) u) G (with_members (ig_Users G ++ [n]) G))
    as (s' & -> & L' & _); simpl; auto; [..|by eexists].
  - apply NoDup_app. split; [done|]. split; [|apply NoDup_singleton].
    intros x Hx Hx'. apply list_elem_of_singleton in Hx'. subst. by apply NR, Hu.
  - apply NoDup_app. split; [done|]. split; [|apply NoDup_singleton].
    intros x Hx Hx'. apply list_elem_of_singleton in Hx'. subst. by apply NR, Hg.
  - intros g. rewrite elem_of_app, list_elem_of_singleton, Hu. naive_solver.
  - intros k. rewrite elem_of_app, list_elem_of_singleton, Hg. naive_solver.
  - naive_solver.
Qed.

(** ** Deleting *)

Lemma linked_ext s R R' : linked s R -> (forall k g, R k g <-> R' k g) -> linked s R'.
Proof.
  intros [LU LG D] E. split.
  - intros k u Hu. destruct (LU k u Hu) as (?&?&?&Hg). setoid_rewrite <- E. auto.
  - intros g G HG. destruct (LG g G HG) as (?&?&?&Hg). setoid_rewrite <- E. auto.
  - intros k g Hr. by apply D, E.
Qed.

Lemma leave_all n l : forall s R, linked s R -> is_Some (bGet (is_users s) n) ->
  (forall g, g ∈ l -> is_Some (bGet (is_groups s) g)) ->
  exists s', forEach (fun g => ignore (RemoveUserFromGroup n g)) l s = (s', Ok tt) /\
             linked s' (fun k g => R k g /\ ~ (k = n /\ g ∈ l)).
Proof.
  induction l as [|gn l IH]; intros s R L Hn Hl.
  { exists s. split; [done|]. eapply linked_ext; [exact L|]. intros k g.
    split; [|naive_solver]. intros Hr. split; [done|]. by intros [_ ?%not_elem_of_nil]. }
  destruct (RemoveUserFromGroup_linked s R n gn L Hn) as (s1 & E1 & L1 & X1 & X2).
  { apply Hl. left. }
  destruct (IH s1 _ L1 (X1 _ Hn)) as (s2 & E2 & L2).
  { intros g Hg. apply X2, Hl. by right. }
  exists s2. split.
  - simpl. unfold mbind, iam_bind, ignore, attempt. unfold mbind, iam_bind. by rewrite E1.
  - eapply linked_ext; [exact L2|]. intros k g. rewrite elem_of_cons. simpl. naive_solver.
Qed.

Lemma delete_user_linked s R n :
  linked s R -> (forall g, ~ R n g) -> members_ok (store_DeleteUser n s).1.
Proof.
  intros [LU LG D] N. on_update; [by exists R|]. intros b E. exists R. split; [|exact LG|].
  - intros k u. simpl. rewrite (bGet_delete _ _ _ _ _ E). case_decide; [done|]. apply LU.
  - intros k g Hr. destruct (D k g Hr) as [? ?]. split; [|done]. simpl.
    rewrite (bGet_delete _ _ _ _ _ E). case_decide; [subst; by destruct (N g)|done].
Qed.

Lemma DeleteUser_members n s : members_ok s -> members_ok (DeleteUser n s).1.
Proof.
  intros [R L]. unfold DeleteUser. apply run_gets; [by exists R|]. intros u Eu%orFail_inv%found_inv.
  destruct (linked_users _ _ L n u Eu) as (_ & _ & _ & Hu).
  destruct (leave_all n (iu_Groups u) s R L) as (s' & E' & L'); [by eexists| |].
  { intros g Hg. apply Hu in Hg. by apply (linked_dom _ _ L) in Hg as [_ ?]. }
  unfold mbind at 1, iam_bind at 1. rewrite E'.
  eapply delete_user_linked; [exact L'|]. intros g [Hr Hn]. apply Hn. by rewrite Hu.
Qed.

Definition dropGroup (gn k : string) : IAM unit :=
  user ← attempt (gets (GetUser k));
  match user with
  | Ok u => ignore (PutUser (with_groups (removeString (iu_Groups u) gn) u))
  | _ => mret tt
  end.

Lemma dropGroup_run gn k s R : usersL (is_users s) R ->
  exists b, dropGroup gn k s = (set_users b s, Ok tt) /\
    usersL b (fun k' g => R k' g /\ ~ (k' = k /\ g = gn)) /\
    forall k', is_Some (bGet (is_users s) k') -> is_Some (bGet b k').
Proof.
  intros L. unfold dropGroup, mbind, iam_bind, attempt, gets, GetUser, found.
  destruct (bGet (is_users s) k) as [u|] eqn:E.
  - destruct (L k u E) as (Un & Uk & ND & Hu).
    destruct (put_succeeds (is_users s) k (with_groups (removeString (iu_Groups u) gn) u) Uk)
      as [b Pb].
    exists b. split; [|split; [|intros x; exact (put_is_Some _ _ _ _ x Pb)]].
    + unfold ignore, attempt, PutUser, update, mbind, iam_bind. simpl. rewrite Un, Pb. done.
    + eapply put_usersL; [exact L|exact Pb|done|by apply removeString_NoDup| |].
      * intros g. simpl. rewrite removeString_spec, Hu by done. naive_solver.
      * naive_solver.
  - exists (is_users s). split; [by destruct s|]. split; [|done].
    intros k' u Hu. destruct (L k' u Hu) as (?&?&?&Hg). repeat (split; [done|]).
    intros g. rewrite Hg. split; [|naive_solver]. intros Hr. split; [done|].
    intros [-> _]. congruence.
Qed.

Lemma dropGroup_all gn l : forall s R, usersL (is_users s) R ->
  exists b, forEach (dropGroup gn) l s = (set_users b s, Ok tt) /\
    usersL b (fun k' g => R k' g /\ ~ (k' ∈ l /\ g = gn)) /\
    forall k', is_Some (bGet (is_users s) k') -> is_Some (bGet b k').
Proof.
  induction l as [|k l IH]; intros s R L.
  { exists (is_users s). split; [by destruct s|]. split; [|done].
    intros k' u Hu. destruct (L k' u Hu) as (?&?&?&Hg). repeat (split; [done|]).
    intros g. rewrite Hg. split; [|naive_solver]. intros Hr. split; [done|].
    by intros [?%not_elem_of_nil _]. }
  destruct (dropGroup_run gn k s R L) as (b1 & E1 & L1 & X1).
  destruct (IH (set_users b1 s) _ L1) as (b2 & E2 & L2 & X2).
  exists b2. split; [|split].
  - simpl. unfold mbind, iam_bind. rewrite E1. exact E2.
  - intros k' u Hu. destruct (L2 k' u Hu) as (?&?&?&Hg). repeat (split; [done|]).
    intros g. rewrite Hg, elem_of_cons. simpl. naive_solver.
  - intros k' Hk. apply X2, X1, Hk.
Qed.

Lemma DeleteGroup_members gn s : members_ok s -> members_ok (DeleteGroup gn s).1.
Proof.
  intros [R [LU LG D]]. unfold DeleteGroup. apply run_gets; [by exists R|]. intros G EG%found_inv.
  destruct (LG gn G EG) as (_ & _ & _ & HG).
  destruct (dropGroup_all gn (ig_Users G) s R LU) as (b & Eb & Lb & Xb).
  unfold mbind at 1, iam_bind at 1. unfold dropGroup in Eb. rewrite Eb.
  pose proof (bDelete_ok _ (is_groups s) gn) as Ok.
  unfold store_DeleteGroup, update. simpl. destruct (bDelete (is_groups s) gn) as [bg|e|w] eqn:Ed;
    [|done..].
  eexists. split; simpl; [exact Lb| |].
  - intros g G'. rewrite (bGet_delete _ _ _ _ _ Ed). case_decide as Hg; [done|]. intros HG'.
    destruct (LG g G' HG') as (?&?&?&Hk). repeat (split; [done|]). intros k. rewrite Hk. naive_solver.
  - intros k g [Hr Hn]. destruct (D k g Hr) as [Hk Hg]. split; [by apply Xb|].
    rewrite (bGet_delete _ _ _ _ _ Ed). case_decide; [|done]. subst.
    destruct Hn. split; [|done]. by apply HG.
Qed.
End Membership.
