(* ===== verification/IamProperties.v ===== *)
(** * IAM: what the service guarantees *)

From S2P Require Import Prelude GoStrings CryptoLib Bolt IamTypes IamMatch IamStore IamEval.
From S2P Require Import IamEvalProofs IamService IamServiceProofs.
From Stdlib Require Import Ascii String.
From stdpp Require Import base list.

Section Members.
Context {uni : GoUnicode} {par : GoParsers} {lib : CryptoLib}.
Context {bolt : Bolt} {laws : BoltLaws} {reliable : BoltReliable}.
Hint Resolve put_same_members put_same_group : cipherlake.

(** Writes to the other buckets. *)
Lemma members_other s s' :
  is_users s' = is_users s -> is_groups s' = is_groups s -> members_ok s -> members_ok s'.
Proof. destruct s, s'; simpl. intros -> -> [R [LU LG D]]. by exists R. Qed.

Lemma found_err {V} what n (v : option V) : is_ok (found what n v) = false -> v = None.
Proof. by destruct v. Qed.

Lemma CreateUser_members n d r t s : members_ok s -> members_ok (CreateUser n d r t s).1.
Proof.
  intros I. unfold CreateUser. run_step.
  destruct (is_ok _) eqn:E; [done|]. apply found_err in E.
  run_step. apply run_seq; [apply run_wrap|by intros].
  by apply new_user_members.
Qed.
Lemma CreateAccessKey_members mk u d r t s :
  members_ok s -> members_ok (CreateAccessKey mk u d r t s).1.
Proof. intros I. unfold CreateAccessKey. run. Qed.
Lemma CreatePolicy_members n d doc t t' s :
  members_ok s -> members_ok (CreatePolicy n d doc t t' s).1.
Proof.
  intros I. unfold CreatePolicy. repeat run_step; try done. on_update; [done|].
  intros b _. by apply (members_other s).
Qed.
Lemma AttachUserPolicy_members u p s : members_ok s -> members_ok (AttachUserPolicy u p s).1.
Proof.
  intros I. unfold AttachUserPolicy. run_step. apply policyExists_run; [done|]. intros _.
  destruct (containsString _ _); eauto with cipherlake.
Qed.
Hint Resolve CreateUser_members CreateAccessKey_members CreatePolicy_members
  AttachUserPolicy_members : cipherlake.




End Members.

Section Properties.
Context {uni : GoUnicode} {par : GoParsers} {lib : CryptoLib} {bolt : Bolt} {laws : BoltLaws}.


End Properties.

(** ** Access keys *)

Section AccessKeys.
Context {uni : GoUnicode} {par : GoParsers} {lib : CryptoLib} {claws : CryptoLaws}.
Context {bolt : Bolt} {laws : BoltLaws}.

Lemma mk_roundtrip mk p draw c : mk_Encrypt mk p draw = Ok c -> mk_Decrypt mk c = Ok p.
Proof.
  unfold mk_Encrypt, mk_Decrypt. destruct (mk_loaded mk); [|done]. simpl.
  destruct (aes_NewCipher (mk_key mk)); [|done..]. simpl.
  destruct (randBuf gcmNonceSize draw) as [nonce|e|w] eqn:E; [|done..]. simpl.
  assert (length nonce = 12%nat) as Hn by (by apply randBuf_length in E).
  rewrite gcm_Seal_ok by done. simpl. intros [= <-].
  rewrite length_app, Hn. rewrite take_app_length', drop_app_length' by done.
  by rewrite gcm_Open_Seal.
Qed.

Lemma find_is_key id u : hasActiveKey id u = true ->
  exists ak, List.find (isKey id) (iu_AccessKeys u) = Some ak /\ ak_AccessKeyID ak = id.
Proof.
  unfold hasActiveKey. intros E. destruct (List.find (isKey id) (iu_AccessKeys u)) as [ak|] eqn:F.
  - exists ak. split; [done|]. apply List.find_some in F as [_ F]. unfold isKey in F. by boolify.
  - exfalso. apply find_none_all in F. induction F as [|a l Fa _ IH]; [done|]. simpl in E.
    unfold isKey in Fa. rewrite Fa in E. auto.
Qed.

Lemma lookup_key_found id s k u :
  bGet (is_users s) k = Some u -> hasActiveKey id u = true ->
  exists u' ak, GetUserByAccessKeyID id s = Ok (u', ak) /\ hasActiveKey id u' = true /\
                ak_AccessKeyID ak = id.
Proof.
  intros Hu Hk. unfold GetUserByAccessKeyID, GetUserByAccessKey. simpl.
  destruct (List.find (hasActiveKey id) (ListUsers s)) as [u'|] eqn:F.
  - apply List.find_some in F as [_ Hu']. destruct (find_is_key id u' Hu') as (ak & -> & ?).
    by exists u', ak.
  - apply (listed_unref _ _ k u) in F; congruence.
Qed.

(** looking up a request's access key finds a user that holds it when
    some stored user has it active; for every other key, one that does not
    exist or was deactivated, the lookup faults with a nil dereference
    instead of returning an error. *)
Theorem access_key_lookup id s :
  ((exists k u, bGet (is_users s) k = Some u /\ hasActiveKey id u = true) ->
   exists u' ak, GetUserByAccessKeyID id s = Ok (u', ak) /\ hasActiveKey id u' = true /\
                 ak_AccessKeyID ak = id) /\
  ((forall k u, bGet (is_users s) k = Some u -> hasActiveKey id u = false) ->
   GetUserByAccessKeyID id s = Panic "nil pointer dereference").
Proof.
  split; [intros (k & u & Hu & Hk); by eapply lookup_key_found|].
  intros N. unfold GetUserByAccessKeyID, GetUserByAccessKey. simpl.
  destruct (List.find (hasActiveKey id) (ListUsers s)) as [u|] eqn:F; [|done].
  apply List.find_some in F as [Hin Hk]. unfold ListUsers in Hin.
  apply list_elem_of_In in Hin. apply list_elem_of_fmap_1 in Hin as ([k u'] & -> & Hin).
  apply bForEach_get in Hin. simpl in Hk. rewrite (N k u' Hin) in Hk. done.
Qed.

(** a created access key works: the key is active on the user's record,
    the lookup by its ID succeeds, and decrypting the stored secret gives
    the secret the caller was shown. *)
Theorem created_key_authenticates mk userName d r t s s' out :
  CreateAccessKey mk userName d r t s = (s', Ok out) -> iu_Name <$> bGet (is_users s) userName = Some userName ->
  (exists user ak, bGet (is_users s') userName = Some user /\ ak ∈ iu_AccessKeys user /\
     ak_AccessKeyID ak = cr_AccessKeyID out /\ ak_Status ak = AccessKeyActive /\
     DecryptSecretKey mk (ak_SecretKeyEnc ak) = Ok (cr_SecretAccessKey out)) /\
  exists u ak, GetUserByAccessKeyID (cr_AccessKeyID out) s' = Ok (u, ak).
Proof.
  unfold CreateAccessKey, mbind, iam_bind, gets, lift, wrapI.
  unfold GetUser, found. destruct (bGet (is_users s) userName) as [user|] eqn:Eu; [|done]. simpl.
  destruct (generateRandomString 16 (kr_id r)) as [kid|e|w]; [|done..].
  destruct (generateRandomString 40 (kr_secret r)) as [secret|e|w]; [|done..].
  destruct (mk_Encrypt mk (bytes_of_string secret) (kr_nonce r)) as [enc|e|w] eqn:Ee; [|done..].
  simpl. unfold PutUser, update. simpl.
  destruct (bPut (is_users s) (iu_Name user) _) as [b|e|w] eqn:P; [|done..]. simpl.
  intros [= <- <-] [= Nm]. rewrite Nm in P. simpl.
  set (ak := mkAccessKey _ enc _ _ _ _) in P.
  set (u' := with_keys (iu_AccessKeys user ++ [ak]) user) in P.
  assert (bGet b userName = Some u') as Hu.
  { rewrite (bGet_put _ _ _ _ _ _ P). by rewrite decide_True. }
  split.
  - exists u', ak. split; [done|]. split; [apply elem_of_app; right; by left|].
    do 2 (split; [done|]). unfold DecryptSecretKey, ak. simpl.
    rewrite (mk_roundtrip _ _ _ _ Ee). simpl. by rewrite string_bytes_roundtrip.
  - destruct (lookup_key_found (AccessKeyIDPrefix +:+ kid) (set_users b s) userName u')
      as (u & a & E & _); [done| |by exists u, a].
    unfold hasActiveKey, u'. simpl. rewrite existsb_app. simpl.
    rewrite !bool_decide_true by done. by rewrite orb_true_r.
Qed.
End AccessKeys.

(** ** Bootstrap *)

Section Bootstrap.
Context {uni : GoUnicode} {par : GoParsers} {lib : CryptoLib}.
Context {bolt : Bolt} {laws : BoltLaws} {reliable : BoltReliable}.

Lemma PutUser_run u s : goodKey (iu_Name u) = true ->
  exists b, PutUser u s = (set_users b s, Ok tt) /\
            forall k, bGet b k = if decide (k = iu_Name u) then Some u else bGet (is_users s) k.
Proof.
  intros G. destruct (put_succeeds (is_users s) (iu_Name u) u G) as [b E].
  exists b. unfold PutUser, update. rewrite E. split; [done|]. intros k. by apply bGet_put.
Qed.

Lemma PutPolicy_run p s : goodKey (ip_Name p) = true ->
  exists b, PutPolicy p s = (set_policies b s, Ok tt) /\
            forall k, bGet b k = if decide (k = ip_Name p) then Some p else bGet (is_policies s) k.
Proof.
  intros G. destruct (put_succeeds (is_policies s) (ip_Name p) p G) as [b E].
  exists b. unfold PutPolicy, update. rewrite E. split; [done|]. intros k. by apply bGet_put.
Qed.

Lemma mk_Encrypt_ok mk p b :
  mk_loaded mk = true -> length (mk_key mk) = 32%nat -> exists c, mk_Encrypt mk p (Ok b) = Ok c.
Proof.
  intros L K. unfold mk_Encrypt. rewrite L, aes_NewCipher_32 by done.
  destruct (randBuf gcmNonceSize (Ok b)) as [n| |] eqn:E; [|done..].
  apply randBuf_length in E. simpl. rewrite gcm_Seal_ok by done. by eexists.
Qed.

Lemma bind_ok {A B} (m : IAM A) (k : A -> IAM B) s s' a :
  m s = (s', Ok a) -> (m ≫= k) s = k a s'.
Proof. intros E. unfold mbind, iam_bind. by rewrite E. Qed.

Lemma ignore_ok {A} (m : IAM A) s s' a : m s = (s', Ok a) -> ignore m s = (s', Ok tt).
Proof. intros E. unfold ignore, attempt, mbind, iam_bind. by rewrite E. Qed.

(** The operations on the path where nothing goes wrong. *)

Lemma CreateUser_fresh n d b0 now s :
  bGet (is_users s) n = None -> goodKey n = true ->
  exists b id, CreateUser n d (Ok b0) now s
    = (set_users b s, Ok (mkIAMUser id n d [] [] [] [] "" "" now None)) /\
    (forall k, bGet b k = if decide (k = n)
                          then Some (mkIAMUser id n d [] [] [] [] "" "" now None)
                          else bGet (is_users s) k).
Proof.
  intros E G. unfold CreateUser.
  erewrite bind_ok; [|unfold attempt, gets, GetUser; rewrite E; reflexivity]. cbn [found is_ok].
  erewrite bind_ok; [|reflexivity].
  match goal with |- context [PutUser ?u] => destruct (PutUser_run u s) as (b & Eb & Hb); [done|] end.
  erewrite bind_ok; [|unfold wrapI; rewrite Eb; reflexivity].
  eexists b, _. split; [reflexivity|]. auto.
Qed.

Lemma CreateAccessKey_run mk n d b1 b2 b3 now s u :
  mk_loaded mk = true -> length (mk_key mk) = 32%nat -> bGet (is_users s) n = Some u ->
  iu_Name u = n -> goodKey n = true ->
  exists b out ak, CreateAccessKey mk n d (mkKeyRand (Ok b1) (Ok b2) (Ok b3)) now s
    = (set_users b s, Ok out) /\
    forall k, bGet b k = if decide (k = n) then Some (with_keys (iu_AccessKeys u ++ [ak]) u)
                         else bGet (is_users s) k.
Proof.
  intros L K Eu N G. unfold CreateAccessKey.
  erewrite bind_ok; [|unfold gets, GetUser; rewrite Eu; reflexivity].
  erewrite bind_ok; [|reflexivity]. erewrite bind_ok; [|reflexivity].
  match goal with |- context [mk_Encrypt mk ?p _] =>
    destruct (mk_Encrypt_ok mk p b3 L K) as [enc Ee] end.
  erewrite bind_ok; [|unfold lift; cbn [kr_nonce]; rewrite Ee; reflexivity].
  match goal with |- context [PutUser ?x] =>
    destruct (PutUser_run x s) as (b & Eb & Hb);
    [change (goodKey (iu_Name u) = true); by rewrite N|] end.
  erewrite bind_ok; [|unfold wrapI; rewrite Eb; reflexivity].
  eexists b, _, _. split; [reflexivity|]. cbn [iu_Name with_keys] in Hb. by rewrite N in Hb.
Qed.

Lemma CreatePolicy_fresh n d doc now s :
  bGet (is_policies s) n = None -> goodKey n = true ->
  exists b p, CreatePolicy n d doc now now s = (set_policies b s, Ok p) /\
    (forall k, bGet b k = if decide (k = n) then Some p else bGet (is_policies s) k) /\
    ip_Document p = doc.
Proof.
  intros E G. unfold CreatePolicy.
  erewrite bind_ok; [|unfold attempt, gets, GetPolicy; rewrite E; reflexivity]. cbn [found is_ok].
  match goal with |- context [PutPolicy ?u] =>
    destruct (PutPolicy_run u s) as (b & Eb & Hb); [done|] end.
  erewrite bind_ok; [|exact Eb]. eexists b, _. split; [reflexivity|]. auto.
Qed.

Lemma AttachUserPolicy_run n pn s u p :
  bGet (is_users s) n = Some u -> bGet (is_policies s) pn = Some p -> iu_Name u = n ->
  goodKey n = true -> iu_AttachedPolicies u = [] ->
  exists b, AttachUserPolicy n pn s = (set_users b s, Ok tt) /\
    forall k, bGet b k = if decide (k = n) then Some (with_attached [pn] u)
                         else bGet (is_users s) k.
Proof.
  intros Eu Ep N G A. unfold AttachUserPolicy.
  erewrite bind_ok; [|unfold gets, GetUser; rewrite Eu; reflexivity].
  erewrite bind_ok; [|unfold policyExists; erewrite bind_ok;
                      [reflexivity|unfold gets, GetPolicy; rewrite Ep; reflexivity]].
  rewrite A. cbn [containsString existsb app].
  destruct (PutUser_run (with_attached [pn] u) s) as (b & Eb & Hb);
    [change (goodKey (iu_Name u) = true); by rewrite N|].
  exists b. split; [exact Eb|]. cbn [iu_Name with_attached] in Hb. by rewrite N in Hb.
Qed.

(** A user whose only policy is the administrator policy may do anything. *)
Lemma admin_allowed fuel s u p ctx :
  is_scp s = None -> (forall k, bGet (is_bucketPolicies s) k = None) ->
  bGet (is_users s) (ec_Principal ctx) = Some u -> iu_InlinePolicies u = [] ->
  iu_Groups u = [] -> iu_PermissionBoundary u = "" ->
  iu_AttachedPolicies u = ["AdministratorAccess"] ->
  bGet (is_policies s) "AdministratorAccess" = Some p -> ip_Document p = adminPolicy ->
  er_Decision <$> Evaluate fuel (Some s) ctx = Some DecisionAllow.
Proof.
  intros Hscp Hbp Hu Hi Hg Hb Ha Hp Hd.
  assert (identityPoliciesOf s u = [(adminPolicy, "AdministratorAccess")]) as HI.
  { unfold identityPoliciesOf. rewrite Hi, Hg, Ha. simpl.
    unfold managed, GetPolicy. simpl. rewrite Hp. simpl. by rewrite Hd. }
  assert (resourcePoliciesOf s (ec_Resource ctx) = []) as HR.
  { unfold resourcePoliciesOf, GetBucketPolicy. rewrite Hbp. by case_bool_decide. }
  unfold Evaluate. simpl. rewrite Hscp. unfold lookupUser, GetUser. rewrite Hu.
  cbn [found]. unfold evalPhases. rewrite HI, HR.
  change (firstMatchIn fuel EffectDeny _ ctx 0) with (Some (@None (nat * Statement))).
  cbn [mbind option_bind].
  change (firstMatchIn fuel EffectAllow [(adminPolicy, "AdministratorAccess")].*1 ctx 0)
    with (Some (Some (0%nat, mkStatement "" EffectAllow ["*"] [] ["*"] [] None None []))).
  cbn [mbind option_bind]. unfold checkBoundary. by rewrite Hb.
Qed.

(** on a fresh store InitializeAdmin succeeds, and afterwards the
    principal "admin" is allowed every action on every resource, whatever
    the request's other attributes. *)
Theorem admin_bootstrap mk b0 b1 b2 b3 now :
  mk_loaded mk = true -> length (mk_key mk) = 32%nat ->
  exists s out,
    InitializeAdmin mk (Ok b0) (mkKeyRand (Ok b1) (Ok b2) (Ok b3)) now emptyStore
    = (s, Ok (Some out)) /\
    forall fuel ctx, ec_Principal ctx = "admin" ->
      er_Decision <$> Evaluate fuel (Some s) ctx = Some DecisionAllow.
Proof.
  intros L K. unfold InitializeAdmin.
  erewrite bind_ok; [|unfold attempt, gets, GetUser; simpl; rewrite bGet_empty; reflexivity].
  cbn [found is_ok]. destruct (CreateUser_fresh "admin" "Administrator" b0 now emptyStore)
    as (bu & u & E1 & H1); [apply bGet_empty|done|].
  erewrite bind_ok; [|erewrite bind_ok; [reflexivity|unfold wrapI; rewrite E1; reflexivity]].
  destruct (CreateAccessKey_run mk "admin" "Initial admin key" b1 b2 b3 now (set_users bu emptyStore)
    (mkIAMUser u "admin" "Administrator" [] [] [] [] "" "" now None)) as (bu2 & out & ak & E2 & H2);
    [done|done|simpl; by rewrite H1|done|done|].
  erewrite bind_ok; [|unfold wrapI; rewrite E2; reflexivity].
  destruct (CreatePolicy_fresh "AdministratorAccess" "Full access to all resources" adminPolicy
    now (set_users bu2 (set_users bu emptyStore))) as (bp & p & E3 & H3 & D3); [apply bGet_empty|done|].
  erewrite bind_ok; [|eapply ignore_ok, E3].
  destruct (AttachUserPolicy_run "admin" "AdministratorAccess"
    (set_policies bp (set_users bu2 (set_users bu emptyStore)))
    (with_keys [ak] (mkIAMUser u "admin" "Administrator" [] [] [] [] "" "" now None)) p)
    as (bu3 & E4 & H4); [simpl; by rewrite H2|simpl; by rewrite H3|done|done|done|].
  erewrite bind_ok; [|eapply ignore_ok, E4].
  eexists _, out. split; [reflexivity|]. intros fuel ctx P.
  apply (admin_allowed fuel _ (with_attached ["AdministratorAccess"] (with_keys [ak]
    (mkIAMUser u "admin" "Administrator" [] [] [] [] "" "" now None))) p); try done; simpl.
  - intros k. apply bGet_empty.
  - rewrite P, H4. done.
Qed.
End Bootstrap.

(** ** Witnesses *)

Import MapBolt AsciiOnly SmallParsers ToyCrypto.

Definition demoKey : MasterKey := mkMasterKey (zeros 32) true.
Definition demoRand : KeyRand := mkKeyRand (Ok (zeros 16)) (Ok (zeros 40)) (Ok (zeros 12)).




Lemma access_key_lookup_witness :
  GetUserByAccessKeyID "AKIAunknown" emptyStore = Panic "nil pointer dereference".
Proof.
  destruct (access_key_lookup "AKIAunknown" emptyStore) as [_ F].
  apply F. intros k u E. vm_compute in E. discriminate.
Defined.

Lemma run_inv {S A} (x : S * res A) : is_ok x.2 = true -> exists s a, x = (s, Ok a).
Proof. destruct x as [s [a|e|w]]; try done. by exists s, a. Qed.

Lemma created_key_authenticates_witness :
  exists u ak out s', GetUserByAccessKeyID (cr_AccessKeyID out) s' = Ok (u, ak) /\
    cr_AccessKeyID out = "AKIA0000000000000000".
Proof.
  pose (s := (CreateUser "bob" "" (Ok []) 0%Z emptyStore).1).
  destruct (run_inv (CreateAccessKey demoKey "bob" "" demoRand 0%Z s)) as (s' & out & E);
    [vm_compute; reflexivity|].
  destruct (created_key_authenticates demoKey "bob" "" demoRand 0%Z s s' out E)
    as [_ (u & ak & G)]; [vm_compute; reflexivity|].
  exists u, ak, out, s'. split; [exact G|].
  assert (cr_AccessKeyID <$> (CreateAccessKey demoKey "bob" "" demoRand 0%Z s).2
          = Ok "AKIA0000000000000000") as X by (vm_compute; reflexivity).
  rewrite E in X. injection X as X. exact X.
Defined.

Lemma admin_bootstrap_witness :
  exists s out, InitializeAdmin demoKey (Ok []) (mkKeyRand (Ok []) (Ok []) (Ok [])) 0%Z emptyStore
    = (s, Ok (Some out)).
Proof.
  destruct (admin_bootstrap demoKey [] [] [] [] 0%Z) as (s & out & E & _); [reflexivity..|].
  exists s, out. exact E.
Defined.
