(* ===== verification/GoFloat.v ===== *)
(** * Floating point

    Go's [float64] as binary64 numbers with the operations of [SpecFloat]
    (round to nearest even, without fused multiply-add). *)

From S2P Require Import Prelude.
From Stdlib Require Import SpecFloat.

#[local] Open Scope Z_scope.

Definition float64 := spec_float.
(** [float64(z)] for an integer. *)
Definition fofZ (z : Z) : float64 := binary_normalize 53 1024 z 0 false.
Definition fadd : float64 -> float64 -> float64 := SFadd 53 1024.
Definition fsub : float64 -> float64 -> float64 := SFsub 53 1024.
Definition fmul : float64 -> float64 -> float64 := SFmul 53 1024.
Definition fdiv : float64 -> float64 -> float64 := SFdiv 53 1024.
Definition fgt (a b : float64) : bool := SFltb b a.
Definition fge (a b : float64) : bool := SFleb b a.

(** [Duration.Seconds]. *)
Definition Seconds (d : Duration) : float64 :=
  fadd (fofZ (Z.quot d Second)) (fdiv (fofZ (Z.rem d Second)) (fofZ 1000000000)).

(** [int64(f)]: truncation; what amd64 gives outside the range and for NaN. *)
Definition int64OfFloat (f : float64) : Z :=
  match f with
  | S754_zero _ => 0
  | S754_finite s m e =>
    let z := if e <? 0 then Z.pos m / 2 ^ (- e) else Z.pos m * 2 ^ e in
    let z := if s then - z else z in
    if (int64_min <=? z) && (z <=? int64_max) then z else int64_min
  | _ => int64_min
  end.
