(* ===== verification/RateLimit.v ===== *)
(** * Rate limiting (internal/ratelimit/ratelimit.go)

    Sliding windows, token buckets, bandwidth limits, their composition per
    request, the circuit breaker and the per-user limiter.  Every operation
    holds its mutex throughout, so calls are atomic steps; clock readings are
    arguments.  Token counts are binary64 numbers with the operations of
    [SpecFloat] (without fused multiply-add). *)

From S2P Require Import Prelude GoFloat.
From Stdlib Require Import Ascii String.
From stdpp Require Import base list.

#[local] Open Scope Z_scope.

Definition ErrRateLimited : string := "rate limited".
Definition ErrCircuitOpen : string := "circuit breaker is open".

(** ** Sliding window counter *)

Record windowState := mkWindow {
  ws_buckets : list Z;
  ws_bucketTime : Z;
  ws_count : Z
}.

Record SlidingWindowCounter := mkSliding {
  sw_windows : gmap string windowState;
  sw_duration : Duration;
  sw_precision : Duration;
  sw_limit : Z
}.

Definition NewSlidingWindowCounter (duration precision : Duration) (limit : Z)
  : SlidingWindowCounter := mkSliding ∅ duration precision limit.

(** [buckets[idx]] for an index of type [int]; out of range is a fault. *)
Definition indexOf (n : nat) (i : Z) : res nat :=
  if (0 <=? i) && (i <? Z.of_nat n) then Ok (Z.to_nat i) else Panic "index out of range".

(** One round of [for ws.bucketTime < currentBucket]; a fault leaves the
    window as it is at that point. *)
Definition advanceOne (ws : windowState) : windowState * res unit :=
  let t := ws_bucketTime ws + 1 in
  let n := length (ws_buckets ws) in
  match indexOf n (Z.rem t (Z.of_nat n)) with
  | Ok idx =>
    let c := ws_count ws - default 0 (ws_buckets ws !! idx) in
    (mkWindow (<[idx := 0]> (ws_buckets ws)) t (if c <? 0 then 0 else c), Ok tt)
  | Err e => (mkWindow (ws_buckets ws) t (ws_count ws), Err e)
  | Panic w => (mkWindow (ws_buckets ws) t (ws_count ws), Panic w)
  end.
Fixpoint advance (rounds : nat) (ws : windowState) : windowState * res unit :=
  match rounds with
  | O => (ws, Ok tt)
  | S rounds =>
    match advanceOne ws with
    | (ws', Ok _) => advance rounds ws'
    | (ws', r) => (ws', r)
    end
  end.

Definition freshWindow (s : SlidingWindowCounter) (currentBucket : Z) : windowState :=
  let q := Z.quot (sw_duration s) (sw_precision s) in
  let numBuckets := if q =? 0 then 1 else q in
  mkWindow (replicate (Z.to_nat numBuckets) 0) (currentBucket - numBuckets) 0.

(** [Allow(key)] at [nowNano = time.Now().UnixNano()]. *)
Definition sw_Allow (key : string) (nowNano : Z) (s : SlidingWindowCounter)
  : SlidingWindowCounter * res bool :=
  if (sw_duration s =? 0) || (sw_precision s =? 0) then (s, Panic "integer divide by zero") else
  let bucketIdx := Z.quot (Z.rem nowNano (sw_duration s)) (sw_precision s) in
  let currentBucket := Z.quot nowNano (sw_precision s) in
  let ws :=
    match sw_windows s !! key with
    | Some ws =>
      if Z.quot (sw_duration s) (sw_precision s) <? currentBucket - ws_bucketTime ws
      then freshWindow s currentBucket else ws
    | None => freshWindow s currentBucket
    end in
  let put ws := mkSliding (<[key := ws]> (sw_windows s)) (sw_duration s) (sw_precision s)
                  (sw_limit s) in
  match advance (Z.to_nat (currentBucket - ws_bucketTime ws)) ws with
  | (ws, Ok _) =>
    if sw_limit s <=? ws_count ws then (put ws, Ok false)
    else
      match indexOf (length (ws_buckets ws)) (Z.rem bucketIdx (Z.of_nat (length (ws_buckets ws)))) with
      | Ok i =>
        (put (mkWindow (<[i := default 0 (ws_buckets ws !! i) + 1]> (ws_buckets ws))
                (ws_bucketTime ws) (ws_count ws + 1)), Ok true)
      | Err e => (put ws, Err e)
      | Panic w => (put ws, Panic w)
      end
  | (ws, Err e) => (put ws, Err e)
  | (ws, Panic w) => (put ws, Panic w)
  end.

Definition sw_Count (key : string) (s : SlidingWindowCounter) : Z :=
  match sw_windows s !! key with Some ws => ws_count ws | None => 0 end.
Definition sw_Reset (key : string) (s : SlidingWindowCounter) : SlidingWindowCounter :=
  mkSliding (delete key (sw_windows s)) (sw_duration s) (sw_precision s) (sw_limit s).

(** ** Token buckets *)

Record tokenBucket := mkTB {
  tb_tokens : float64;
  tb_lastCheck : Time;
  tb_limit : Z;
  tb_burst : Z
}.

Record TokenBucketLimiter := mkTBL {
  tl_buckets : gmap string tokenBucket;
  tl_defaultLimit : Z;
  tl_defaultBurst : Z
}.

Definition NewTokenBucketLimiter (defaultLimit defaultBurst : Z) : TokenBucketLimiter :=
  mkTBL ∅ defaultLimit defaultBurst.

(** Refill at [now], then take [n] if there are enough. *)
Definition takeTokens (tokens : float64) (lastCheck : Time) (rate burst n : Z) (now : Time)
  : float64 * bool :=
  let tokens := fadd tokens (fmul (Seconds (Sub now lastCheck)) (fofZ rate)) in
  let tokens := if fgt tokens (fofZ burst) then fofZ burst else tokens in
  if fge tokens (fofZ n) then (fsub tokens (fofZ n), true) else (tokens, false).

(** [AllowN]: [ctxErr] is [ctx.Err()] when the context is done; [t1], [t2]
    the clock at creation of a bucket and at the check. *)
Definition AllowN (ctxErr : option string) (key : string) (n : Z) (t1 t2 : Time)
    (l : TokenBucketLimiter) : TokenBucketLimiter * res unit :=
  match ctxErr with
  | Some e => (l, Err e)
  | None =>
    let bucket :=
      match tl_buckets l !! key with
      | Some b => b
      | None => mkTB (fofZ (tl_defaultBurst l)) t1 (tl_defaultLimit l) (tl_defaultBurst l)
      end in
    let '(tokens, ok) :=
      takeTokens (tb_tokens bucket) (tb_lastCheck bucket) (tb_limit bucket) (tb_burst bucket) n t2 in
    (mkTBL (<[key := mkTB tokens t2 (tb_limit bucket) (tb_burst bucket)]> (tl_buckets l))
       (tl_defaultLimit l) (tl_defaultBurst l),
     if (ok : bool) then Ok tt else Err ErrRateLimited)
  end.
Definition tl_Allow (ctxErr : option string) (key : string) (t1 t2 : Time)
    (l : TokenBucketLimiter) : TokenBucketLimiter * res unit := AllowN ctxErr key 1 t1 t2 l.

Definition GetLimit (key : string) (l : TokenBucketLimiter) : Z :=
  match tl_buckets l !! key with Some b => tb_limit b | None => tl_defaultLimit l end.
Definition SetLimit (key : string) (limit : Z) (now : Time) (l : TokenBucketLimiter)
  : TokenBucketLimiter :=
  let bucket :=
    match tl_buckets l !! key with
    | Some b => mkTB (tb_tokens b) (tb_lastCheck b) limit (tb_burst b)
    | None => mkTB (fofZ (tl_defaultBurst l)) now limit (tl_defaultBurst l)
    end in
  mkTBL (<[key := bucket]> (tl_buckets l)) (tl_defaultLimit l) (tl_defaultBurst l).
Definition RemoveBucket (key : string) (l : TokenBucketLimiter) : TokenBucketLimiter :=
  mkTBL (delete key (tl_buckets l)) (tl_defaultLimit l) (tl_defaultBurst l).

(** ** Bandwidth *)

Record BandwidthLimiter := mkBW {
  bw_limits : gmap string tokenBucket;   (** [bwState]: tokens, lastCheck, bps, burst *)
  bw_defaultBPS : Z;
  bw_burstBytes : Z
}.

Definition NewBandwidthLimiter (defaultBPS burstBytes : Z) : BandwidthLimiter :=
  mkBW ∅ defaultBPS burstBytes.

Definition bw_Allow (key : string) (bytes : Z) (t1 t2 : Time) (b : BandwidthLimiter)
  : BandwidthLimiter * bool :=
  let state :=
    match bw_limits b !! key with
    | Some x => x
    | None => mkTB (fofZ (bw_burstBytes b)) t1 (bw_defaultBPS b) (bw_burstBytes b)
    end in
  let '(tokens, ok) :=
    takeTokens (tb_tokens state) (tb_lastCheck state) (tb_limit state) (tb_burst state) bytes t2 in
  (mkBW (<[key := mkTB tokens t2 (tb_limit state) (tb_burst state)]> (bw_limits b))
     (bw_defaultBPS b) (bw_burstBytes b), ok).

Definition bw_SetLimit (key : string) (bps : Z) (now : Time) (b : BandwidthLimiter)
  : BandwidthLimiter :=
  let state :=
    match bw_limits b !! key with
    | Some x => mkTB (tb_tokens x) (tb_lastCheck x) bps (tb_burst x)
    | None => mkTB (fofZ (bw_burstBytes b)) now bps (bw_burstBytes b)
    end in
  mkBW (<[key := state]> (bw_limits b)) (bw_defaultBPS b) (bw_burstBytes b).

(** ** Multi-level limiter *)

Record APILimit := mkAPILimit { al_RPS : Z; al_Burst : Z }.

Record MultiLevelConfig := mkMLConfig {
  mc_GlobalRPS : Z;
  mc_IPRPS : Z;
  mc_UserRPS : Z;
  mc_UserBurst : Z;
  mc_BucketRPS : Z;
  mc_BucketBurst : Z;
  mc_UploadBytesPerSec : Z;
  mc_UploadBurstBytes : Z;
  mc_APILimits : gmap string APILimit;
  mc_Whitelist : list string;
  mc_WindowDuration : Duration;
  mc_WindowPrecision : Duration
}.

Record LimiterStats := mkStats {
  st_GlobalAllowed : Z;
  st_GlobalRejected : Z;
  st_IPRejected : Z;
  st_UserRejected : Z;
  st_BucketRejected : Z;
  st_APIRejected : Z;
  st_BWRejected : Z;
  st_TotalRequests : Z
}.

Record MultiLevelLimiter := mkML {
  ml_global : SlidingWindowCounter;
  ml_ip : SlidingWindowCounter;
  ml_user : TokenBucketLimiter;
  ml_bucket : TokenBucketLimiter;
  ml_api : gmap string TokenBucketLimiter;
  ml_bw : BandwidthLimiter;
  ml_whitelist : gset string;
  ml_stats : LimiterStats;
  ml_uploadBPS : Z   (** [config.UploadBytesPerSec] *)
}.

Definition NewMultiLevelLimiter (cfg : MultiLevelConfig) : MultiLevelLimiter :=
  let d := if mc_WindowDuration cfg =? 0 then Second else mc_WindowDuration cfg in
  let p := if mc_WindowPrecision cfg =? 0 then 100 * Millisecond else mc_WindowPrecision cfg in
  let burst := if mc_UploadBurstBytes cfg =? 0 then mc_UploadBytesPerSec cfg
               else mc_UploadBurstBytes cfg in
  mkML (NewSlidingWindowCounter d p (mc_GlobalRPS cfg))
       (NewSlidingWindowCounter d p (mc_IPRPS cfg))
       (NewTokenBucketLimiter (mc_UserRPS cfg) (mc_UserBurst cfg))
       (NewTokenBucketLimiter (mc_BucketRPS cfg) (mc_BucketBurst cfg))
       ((fun x => NewTokenBucketLimiter (al_RPS x) (al_Burst x)) <$> mc_APILimits cfg)
       (NewBandwidthLimiter (mc_UploadBytesPerSec cfg) burst)
       (list_to_set (mc_Whitelist cfg))
       (mkStats 0 0 0 0 0 0 0 0)
       (mc_UploadBytesPerSec cfg).

Record RateLimitResult := mkRLResult {
  rr_Allowed : bool;
  rr_Key : string;
  rr_LimitType : string;
  rr_RetryAfter : Z
}.

(** The counters a request increments. *)
Inductive counter := CGlobalAllowed | CGlobalRejected | CIP | CUser | CBucket | CAPI | CBW.
(** [atomic.AddInt64] on the total and on one outcome. *)
Definition countRequest (s : LimiterStats) : LimiterStats :=
  mkStats (st_GlobalAllowed s) (st_GlobalRejected s) (st_IPRejected s) (st_UserRejected s)
    (st_BucketRejected s) (st_APIRejected s) (st_BWRejected s) (wrap64 (st_TotalRequests s + 1)).
Definition bump (c : counter) (s : LimiterStats) : LimiterStats :=
  let at_ c' v := match c, c' with
    | CGlobalAllowed, CGlobalAllowed | CGlobalRejected, CGlobalRejected | CIP, CIP
    | CUser, CUser | CBucket, CBucket | CAPI, CAPI | CBW, CBW => wrap64 (v + 1)
    | _, _ => v end in
  mkStats (at_ CGlobalAllowed (st_GlobalAllowed s)) (at_ CGlobalRejected (st_GlobalRejected s))
    (at_ CIP (st_IPRejected s)) (at_ CUser (st_UserRejected s)) (at_ CBucket (st_BucketRejected s))
    (at_ CAPI (st_APIRejected s)) (at_ CBW (st_BWRejected s)) (st_TotalRequests s).

Definition with_stats f (m : MultiLevelLimiter) :=
  mkML (ml_global m) (ml_ip m) (ml_user m) (ml_bucket m) (ml_api m) (ml_bw m) (ml_whitelist m)
       (f (ml_stats m)) (ml_uploadBPS m).
Definition with_global x (m : MultiLevelLimiter) :=
  mkML x (ml_ip m) (ml_user m) (ml_bucket m) (ml_api m) (ml_bw m) (ml_whitelist m)
       (ml_stats m) (ml_uploadBPS m).
Definition with_ip x (m : MultiLevelLimiter) :=
  mkML (ml_global m) x (ml_user m) (ml_bucket m) (ml_api m) (ml_bw m) (ml_whitelist m)
       (ml_stats m) (ml_uploadBPS m).
Definition with_user x (m : MultiLevelLimiter) :=
  mkML (ml_global m) (ml_ip m) x (ml_bucket m) (ml_api m) (ml_bw m) (ml_whitelist m)
       (ml_stats m) (ml_uploadBPS m).
Definition with_bucket x (m : MultiLevelLimiter) :=
  mkML (ml_global m) (ml_ip m) (ml_user m) x (ml_api m) (ml_bw m) (ml_whitelist m)
       (ml_stats m) (ml_uploadBPS m).
Definition with_api x (m : MultiLevelLimiter) :=
  mkML (ml_global m) (ml_ip m) (ml_user m) (ml_bucket m) x (ml_bw m) (ml_whitelist m)
       (ml_stats m) (ml_uploadBPS m).
Definition with_bw x (m : MultiLevelLimiter) :=
  mkML (ml_global m) (ml_ip m) (ml_user m) (ml_bucket m) (ml_api m) x (ml_whitelist m)
       (ml_stats m) (ml_uploadBPS m).
Definition with_whitelist x (m : MultiLevelLimiter) :=
  mkML (ml_global m) (ml_ip m) (ml_user m) (ml_bucket m) (ml_api m) (ml_bw m) x
       (ml_stats m) (ml_uploadBPS m).

(** Clock readings of one request: Unix nanoseconds for the windows, and a
    pair of readings for each token bucket. *)
Record Clock := mkClock {
  ck_global : Z; ck_ip : Z;
  ck_user : Time * Time; ck_bucket : Time * Time; ck_api : Time * Time; ck_bw : Time * Time
}.

Definition reject (key ty : string) (retry : Z) : res RateLimitResult :=
  Ok (mkRLResult false key ty retry).

(** The steps of [MultiLevelLimiter.Allow]; each goes on with [k] or returns. *)
Definition step_window (get : MultiLevelLimiter -> SlidingWindowCounter)
    (set : SlidingWindowCounter -> MultiLevelLimiter -> MultiLevelLimiter) (key : string) (now : Z)
    (c : counter) (rkey ty : string)
    (k : MultiLevelLimiter -> MultiLevelLimiter * res RateLimitResult) (m : MultiLevelLimiter)
  : MultiLevelLimiter * res RateLimitResult :=
  match sw_Allow key now (get m) with
  | (w, Ok true) => k (set w m)
  | (w, Ok false) => (with_stats (bump c) (set w m), reject rkey ty 1)
  | (w, Err e) => (set w m, Err e)
  | (w, Panic p) => (set w m, Panic p)
  end.

Definition step_tokens (enabled : bool) (get : MultiLevelLimiter -> option TokenBucketLimiter)
    (set : TokenBucketLimiter -> MultiLevelLimiter -> MultiLevelLimiter) (ctxErr : option string)
    (key : string) (now : Time * Time) (c : counter) (rkey ty : string)
    (k : MultiLevelLimiter -> MultiLevelLimiter * res RateLimitResult) (m : MultiLevelLimiter)
  : MultiLevelLimiter * res RateLimitResult :=
  if enabled then
    match get m with
    | None => k m
    | Some l =>
      match tl_Allow ctxErr key now.1 now.2 l with
      | (l, Ok _) => k (set l m)
      | (l, Err _) => (with_stats (bump c) (set l m), reject rkey ty 1)
      | (l, Panic w) => (set l m, Panic w)
      end
    end
  else k m.

Definition ml_Allow (ctxErr : option string) (ip userID b apiMethod : string) (contentLength : Z)
    (ck : Clock) (m : MultiLevelLimiter) : MultiLevelLimiter * res RateLimitResult :=
  let m := with_stats countRequest m in
  if bool_decide (ip ∈ ml_whitelist m) then
    (with_stats (bump CGlobalAllowed) m, Ok (mkRLResult true ip "whitelist" 0))
  else
  step_window ml_global with_global "global" (ck_global ck) CGlobalRejected "global" "global" (
  step_window ml_ip with_ip ("ip:" +:+ ip) (ck_ip ck) CIP ip "ip" (
  step_tokens (bool_decide (userID <> "") && bool_decide (userID <> "anonymous"))
    (Some ∘ ml_user) with_user ctxErr ("user:" +:+ userID) (ck_user ck) CUser userID "user" (
  step_tokens (bool_decide (b <> "")) (Some ∘ ml_bucket) with_bucket ctxErr ("bucket:" +:+ b)
    (ck_bucket ck) CBucket b "bucket" (
  step_tokens (bool_decide (apiMethod <> "")) (fun m => ml_api m !! apiMethod)
    (fun l m => with_api (<[apiMethod := l]> (ml_api m)) m) ctxErr
    ("api:" +:+ apiMethod +:+ ":" +:+ userID) (ck_api ck) CAPI apiMethod "api" (
  fun m =>
    let allow m := (with_stats (bump CGlobalAllowed) m, Ok (mkRLResult true "" "" 0)) in
    if (0 <? contentLength) && (0 <? ml_uploadBPS m) &&
       (bool_decide (apiMethod = "PUT") || bool_decide (apiMethod = "POST")) then
      match bw_Allow ("upload:" +:+ userID) contentLength (ck_bw ck).1 (ck_bw ck).2 (ml_bw m) with
      | (x, true) => allow (with_bw x m)
      | (x, false) =>
        (with_stats (bump CBW) (with_bw x m),
         reject userID "bandwidth" (Z.quot contentLength (ml_uploadBPS m) + 1))
      end
    else allow m))))) m.

Definition ml_SetUserLimit (userID : string) (rps burst : Z) (now : Time) (m : MultiLevelLimiter)
  : MultiLevelLimiter :=
  let key := "user:" +:+ userID in
  let l := ml_user m in
  let bucket :=
    match tl_buckets l !! key with
    | Some x => mkTB (if fgt (tb_tokens x) (fofZ burst) then fofZ burst else tb_tokens x)
                  (tb_lastCheck x) rps burst
    | None => mkTB (fofZ burst) now rps burst
    end in
  with_user (mkTBL (<[key := bucket]> (tl_buckets l)) (tl_defaultLimit l) (tl_defaultBurst l)) m.

Definition ml_SetBucketLimit (b : string) (rps burst : Z) (now : Time) (m : MultiLevelLimiter)
  : MultiLevelLimiter := with_bucket (SetLimit ("bucket:" +:+ b) rps now (ml_bucket m)) m.

Definition ml_SetAPILimit (api : string) (rps burst : Z) (now : Time) (m : MultiLevelLimiter)
  : MultiLevelLimiter :=
  match ml_api m !! api with
  | Some l => with_api (<[api := SetLimit ("api:" +:+ api) rps now l]> (ml_api m)) m
  | None => with_api (<[api := NewTokenBucketLimiter rps burst]> (ml_api m)) m
  end.

Definition AddWhitelist (ip : string) (m : MultiLevelLimiter) : MultiLevelLimiter :=
  with_whitelist ({[ ip ]} ∪ ml_whitelist m) m.
Definition RemoveWhitelist (ip : string) (m : MultiLevelLimiter) : MultiLevelLimiter :=
  with_whitelist (ml_whitelist m ∖ {[ ip ]}) m.
Definition CleanupStaleEntries (maxAge : Duration) (m : MultiLevelLimiter) : MultiLevelLimiter :=
  with_bucket (RemoveBucket "" (ml_bucket m)) (with_user (RemoveBucket "" (ml_user m)) m).

(** ** Circuit breaker *)

Inductive CircuitState := StateClosed | StateOpen | StateHalfOpen.
#[global] Instance CircuitState_eq_dec : EqDecision CircuitState.
Proof. solve_decision. Defined.

Record CircuitBreakerConfig := mkCBConfig {
  cc_Name : string;
  cc_MaxRequests : Z;        (** uint32 *)
  cc_Interval : Duration;
  cc_Timeout : Duration;
  cc_ErrorThreshold : float64;
  cc_SuccessThreshold : Z    (** uint32 *)
}.

Record breaker := mkBreaker {
  br_cfg : CircuitBreakerConfig;
  br_state : CircuitState;
  br_failures : Z;
  br_successes : Z;
  br_requests : Z;
  br_lastStateChange : Time;
  br_halfOpenAllowed : Z     (** uint32 *)
}.

Definition CircuitBreaker := gmap string breaker.

Definition Register (name : string) (cfg : CircuitBreakerConfig) (now : Time) (cb : CircuitBreaker)
  : CircuitBreaker := <[name := mkBreaker cfg StateClosed 0 0 0 now (cc_MaxRequests cfg)]> cb.

(** [Allow] on one breaker: [t1] is read by [time.Since], [t2] stored. *)
Definition br_Allow (t1 t2 : Time) (b : breaker) : breaker * res bool :=
  let halfOpen b :=
    if br_halfOpenAllowed b =? 0 then (b, Err ErrCircuitOpen)
    else (mkBreaker (br_cfg b) (br_state b) (br_failures b) (br_successes b)
            (wrap64 (br_requests b + 1)) (br_lastStateChange b) (br_halfOpenAllowed b - 1), Ok true) in
  match br_state b with
  | StateOpen =>
    if cc_Timeout (br_cfg b) <? Sub t1 (br_lastStateChange b)
    then halfOpen (mkBreaker (br_cfg b) StateHalfOpen 0 0 0 t2 (cc_MaxRequests (br_cfg b)))
    else (b, Err ErrCircuitOpen)
  | StateHalfOpen => halfOpen b
  | StateClosed =>
    (mkBreaker (br_cfg b) (br_state b) (br_failures b) (br_successes b)
       (wrap64 (br_requests b + 1)) (br_lastStateChange b) (br_halfOpenAllowed b), Ok true)
  end.

Definition br_RecordSuccess (now : Time) (b : breaker) : breaker :=
  let s := wrap64 (br_successes b + 1) in
  if bool_decide (br_state b = StateHalfOpen) && (cc_SuccessThreshold (br_cfg b) <=? s)
  then mkBreaker (br_cfg b) StateClosed 0 s 0 now (br_halfOpenAllowed b)
  else mkBreaker (br_cfg b) (br_state b) (br_failures b) s (br_requests b) (br_lastStateChange b)
         (br_halfOpenAllowed b).

Definition br_RecordFailure (now : Time) (b : breaker) : breaker :=
  let f := wrap64 (br_failures b + 1) in
  let opened := mkBreaker (br_cfg b) StateOpen f (br_successes b) (br_requests b) now
                  (br_halfOpenAllowed b) in
  let same := mkBreaker (br_cfg b) (br_state b) f (br_successes b) (br_requests b)
                (br_lastStateChange b) (br_halfOpenAllowed b) in
  if bool_decide (br_state b = StateHalfOpen) then opened
  else if 0 <? br_requests b then
    let failureRatio := fdiv (fofZ f) (fofZ (br_requests b)) in
    if (cc_SuccessThreshold (br_cfg b) <=? br_requests b) &&
       fge failureRatio (cc_ErrorThreshold (br_cfg b))
    then opened else same
  else same.

Definition br_GetState (now : Time) (b : breaker) : CircuitState :=
  if bool_decide (br_state b = StateOpen) &&
     (cc_Timeout (br_cfg b) <? Sub now (br_lastStateChange b))
  then StateHalfOpen else br_state b.

(** The operations by name. *)
Definition cb_Allow (name : string) (t1 t2 : Time) (cb : CircuitBreaker)
  : CircuitBreaker * res bool :=
  match cb !! name with
  | None => (cb, Ok true)
  | Some b => let '(b', r) := br_Allow t1 t2 b in (<[name := b']> cb, r)
  end.
Definition cb_RecordSuccess (name : string) (now : Time) (cb : CircuitBreaker) : CircuitBreaker :=
  alter (br_RecordSuccess now) name cb.
Definition cb_RecordFailure (name : string) (now : Time) (cb : CircuitBreaker) : CircuitBreaker :=
  alter (br_RecordFailure now) name cb.
Definition cb_GetState (name : string) (now : Time) (cb : CircuitBreaker) : CircuitState :=
  match cb !! name with None => StateClosed | Some b => br_GetState now b end.

(** ** Adaptive limiter *)

Record AdaptiveStats := mkAStats {
  as_TotalRequests : Z; as_Allowed : Z; as_Rejected : Z; as_CircuitOpen : Z
}.
Record AdaptiveLimiter := mkAdaptive {
  ad_limiter : TokenBucketLimiter;
  ad_breaker : CircuitBreaker;
  ad_stats : AdaptiveStats
}.
Definition NewAdaptiveLimiter (defaultLimit defaultBurst : Z) : AdaptiveLimiter :=
  mkAdaptive (NewTokenBucketLimiter defaultLimit defaultBurst) ∅ (mkAStats 0 0 0 0).

Definition ad_Allow (ctxErr : option string) (key : string) (t1 t2 t3 t4 : Time)
    (a : AdaptiveLimiter) : AdaptiveLimiter * res unit :=
  let s := ad_stats a in
  let total := wrap64 (as_TotalRequests s + 1) in
  match cb_Allow "default" t1 t2 (ad_breaker a) with
  | (cb, Ok _) =>
    match tl_Allow ctxErr key t3 t4 (ad_limiter a) with
    | (l, Ok _) =>
      (mkAdaptive l cb (mkAStats total (wrap64 (as_Allowed s + 1)) (as_Rejected s)
                          (as_CircuitOpen s)), Ok tt)
    | (l, Err e) =>
      (mkAdaptive l cb (mkAStats total (as_Allowed s) (wrap64 (as_Rejected s + 1))
                          (as_CircuitOpen s)), Err e)
    | (l, Panic w) =>
      (mkAdaptive l cb (mkAStats total (as_Allowed s) (as_Rejected s) (as_CircuitOpen s)), Panic w)
    end
  | (cb, Err e) =>
    (mkAdaptive (ad_limiter a) cb (mkAStats total (as_Allowed s) (as_Rejected s)
                                     (wrap64 (as_CircuitOpen s + 1))), Err e)
  | (cb, Panic w) =>
    (mkAdaptive (ad_limiter a) cb (mkAStats total (as_Allowed s) (as_Rejected s)
                                     (as_CircuitOpen s)), Panic w)
  end.

(** ** Per-user limiter *)

Record RequestKey := mkRequestKey { rk_UserID : string; rk_APIMethod : string; rk_Bucket : string }.
Definition RequestKey_String (k : RequestKey) : string :=
  rk_UserID k +:+ ":" +:+ rk_APIMethod k +:+ ":" +:+ rk_Bucket k.

Record UserLimit := mkUserLimit { ul_Limit : Z; ul_Burst : Z; ul_ExpiresAt : Time }.
Record PerUserRateLimiter := mkPerUser {
  pu_limiter : TokenBucketLimiter;
  pu_defaultLimit : Z;
  pu_defaultBurst : Z;
  pu_userLimits : gmap string UserLimit
}.
Definition NewPerUserRateLimiter (defaultLimit defaultBurst : Z) : PerUserRateLimiter :=
  mkPerUser (NewTokenBucketLimiter defaultLimit defaultBurst) defaultLimit defaultBurst ∅.

Definition pu_Allow (ctxErr : option string) (key : RequestKey) (t0 t1 t2 t3 : Time)
    (p : PerUserRateLimiter) : PerUserRateLimiter * res unit :=
  let limit :=
    match pu_userLimits p !! rk_UserID key with
    | Some u => if After (ul_ExpiresAt u) t0 then ul_Limit u else pu_defaultLimit p
    | None => pu_defaultLimit p
    end in
  let l := SetLimit (RequestKey_String key) limit t1 (pu_limiter p) in
  let '(l, r) := tl_Allow ctxErr (RequestKey_String key) t2 t3 l in
  (mkPerUser l (pu_defaultLimit p) (pu_defaultBurst p) (pu_userLimits p), r).

Definition pu_SetUserLimit (userID : string) (limit burst : Z) (duration : Duration) (now : Time)
    (p : PerUserRateLimiter) : PerUserRateLimiter :=
  mkPerUser (pu_limiter p) (pu_defaultLimit p) (pu_defaultBurst p)
    (<[userID := mkUserLimit limit burst (Prelude.Add now duration)]> (pu_userLimits p)).
Definition pu_RemoveUserLimit (userID : string) (p : PerUserRateLimiter) : PerUserRateLimiter :=
  mkPerUser (pu_limiter p) (pu_defaultLimit p) (pu_defaultBurst p)
    (delete userID (pu_userLimits p)).
