(* ===== verification/RateLimitTheorems.v ===== *)
(** * Rate limiting: the sliding window counts what it admitted

    The buckets of a window are compared with the history of admissions: the
    bucket of a residue counts the admissions of the last [n] periods with
    that residue. *)

From S2P Require Import Prelude GoFloat RateLimit.
From Stdlib Require Import Ascii String SpecFloat.
From stdpp Require Import base list.

#[local] Open Scope Z_scope.

(** ** Counting *)

Definition cnt (P : Z -> bool) (H : list Z) : Z := Z.of_nat (length (List.filter P H)).

Lemma cnt_nonneg P H : 0 <= cnt P H.
Proof. unfold cnt. lia. Qed.

Lemma cnt_cons P h H : cnt P (h :: H) = (if P h then 1 else 0) + cnt P H.
Proof. unfold cnt. simpl. destruct (P h); simpl length; lia. Qed.

Lemma cnt_ext P Q H : Forall (fun h => P h = Q h) H -> cnt P H = cnt Q H.
Proof. induction 1 as [|h H E _ IH]; [done|]. by rewrite !cnt_cons, E, IH. Qed.

Lemma cnt_zero P H : Forall (fun h => P h = false) H -> cnt P H = 0.
Proof. induction 1 as [|h H E _ IH]; [done|]. by rewrite cnt_cons, E, IH. Qed.

Lemma cnt_snoc P H x : cnt P (H ++ [x]) = cnt P H + (if P x then 1 else 0).
Proof.
  induction H as [|h H IH]; simpl app; [by rewrite cnt_cons, Z.add_comm|].
  rewrite !cnt_cons, IH. lia.
Qed.

Lemma cnt_split P Q H : cnt P H = cnt (fun h => P h && Q h) H + cnt (fun h => P h && negb (Q h)) H.
Proof.
  induction H as [|h H IH]; [done|]. rewrite !cnt_cons, IH.
  destruct (P h), (Q h); simpl; lia.
Qed.

Lemma cnt_mono P Q H : Forall (fun h => P h = true -> Q h = true) H -> cnt P H <= cnt Q H.
Proof.
  induction 1 as [|h H E _ IH]; [done|]. rewrite !cnt_cons.
  destruct (P h); [rewrite E by done; lia|]. destruct (Q h); lia.
Qed.

Lemma cnt_map (f : Z -> Z) P H : cnt P (f <$> H) = cnt (fun h => P (f h)) H.
Proof. induction H as [|h H IH]; [done|]. by rewrite fmap_cons, !cnt_cons, IH. Qed.

(** ** Arithmetic of periods *)

Lemma same_residue n a b : 0 < n -> a mod n = b mod n -> 0 <= a - b < n -> a = b.
Proof.
  intros Hn E Hab. pose proof (Z.div_mod a n) as A. pose proof (Z.div_mod b n) as B.
  assert (a / n = b / n) by nia. nia.
Qed.

(** The index the code computes from the remainder of the clock is the
    residue of the current period, when the precision divides the duration. *)
Lemma period_index now n p : 0 <= now -> 0 < n -> 0 < p ->
  Z.quot (Z.rem now (n * p)) p = (Z.quot now p) mod n.
Proof.
  intros. rewrite Z.rem_mod_nonneg by nia.
  pose proof (Z.mod_pos_bound now (n * p)). pose proof (Z.mod_pos_bound now p).
  rewrite (Z.quot_div_nonneg now), Z.quot_div_nonneg by nia.
  rewrite (Z.mul_comm n p), Z.rem_mul_r by lia.
  rewrite (Z.mul_comm p), Z.div_add by lia. rewrite (Z.div_small (now mod p)) by lia. lia.
Qed.

(** ** Windows *)

Section Window.
Context (n : Z) (Hn : 0 < n).

(** Admissions later than [F] in the last [n] periods up to [T]. *)
Definition live (F T h : Z) : bool := (F <? h) && (T - n <? h).

Record window_ok (F : Z) (H : list Z) (ws : windowState) : Prop := {
  wo_length : length (ws_buckets ws) = Z.to_nat n;
  wo_past : Forall (fun h => h <= ws_bucketTime ws) H;
  wo_bucket i : 0 <= i < n ->
    ws_buckets ws !! Z.to_nat i
    = Some (cnt (fun h => live F (ws_bucketTime ws) h && (h mod n =? i)) H);
  wo_count : ws_count ws = cnt (live F (ws_bucketTime ws)) H
}.

Lemma indexOf_ok i : 0 <= i < n -> indexOf (Z.to_nat n) i = Ok (Z.to_nat i).
Proof.
  intros. unfold indexOf. rewrite Z2Nat.id by lia.
  by rewrite (proj2 (Z.leb_le 0 i)), (proj2 (Z.ltb_lt i n)) by lia.
Qed.

(** One period later. *)
Lemma advanceOne_ok F H ws :
  window_ok F H ws -> -1 <= ws_bucketTime ws ->
  exists ws', advanceOne ws = (ws', Ok tt) /\ ws_bucketTime ws' = ws_bucketTime ws + 1 /\
              window_ok F H ws'.
Proof.
  intros [L P B C] HT. set (T := ws_bucketTime ws) in *. unfold advanceOne. fold T.
  set (j := (T + 1) mod n).
  assert (0 <= j < n) as Hj by (apply Z.mod_pos_bound; lia).
  rewrite L, Z2Nat.id, Z.rem_mod_nonneg by lia. fold j. rewrite indexOf_ok by done.
  rewrite (B j Hj). simpl. eexists. split; [reflexivity|]. simpl. split; [done|].
  assert (Forall (fun h => live F T h && negb (h mod n =? j) = live F (T + 1) h) H) as E.
  { eapply Forall_impl; [exact P|]. intros h Hh. change (h <= T) in Hh. unfold live.
    destruct (F <? h); [simpl|done].
    destruct (Z.ltb_spec (T - n) h), (Z.ltb_spec (T + 1 - n) h), (Z.eqb_spec (h mod n) j); simpl;
      try done; try lia; exfalso.
    - assert (T + 1 = h) by (apply (same_residue n); unfold j in *; lia). lia.
    - assert (h = T + 1 - n) as -> by lia. unfold j in *.
      replace (T + 1 - n) with (T + 1 + (-1) * n) in * by lia. rewrite Z.mod_add in * by lia. lia. }
  constructor; simpl.
  - by rewrite length_insert.
  - eapply Forall_impl; [exact P|]. simpl. lia.
  - intros i Hi. destruct (Z.eq_dec i j) as [->|Hne].
    + rewrite list_lookup_insert_eq by lia. f_equal. symmetry. apply cnt_zero.
      rewrite Forall_forall in E |- *. intros h Hh. rewrite <- (E h Hh).
      destruct (h mod n =? j); [|by rewrite andb_false_r]. by rewrite andb_false_r.
    + rewrite list_lookup_insert_ne by lia. rewrite B by done. f_equal. apply cnt_ext.
      rewrite Forall_forall in E |- *. intros h Hh. rewrite <- (E h Hh).
      destruct (Z.eqb_spec (h mod n) i), (Z.eqb_spec (h mod n) j); simpl;
        rewrite ?andb_true_r, ?andb_false_r; try done. lia.
  - rewrite C. fold T. rewrite (cnt_split (live F T) (fun h => h mod n =? j)).
    rewrite (cnt_ext _ _ _ E).
    replace (_ + _ - _) with (cnt (live F (T + 1)) H) by lia.
    pose proof (cnt_nonneg (live F (T + 1)) H).
    by destruct (Z.ltb_spec (cnt (live F (T + 1)) H) 0); [lia|].
Qed.

Lemma advance_ok F H k : forall ws,
  window_ok F H ws -> -1 <= ws_bucketTime ws ->
  exists ws', advance k ws = (ws', Ok tt) /\ ws_bucketTime ws' = ws_bucketTime ws + Z.of_nat k /\
              window_ok F H ws'.
Proof.
  induction k as [|k IH]; intros ws W HT; [exists ws; split; [done|]; split; [lia|done]|].
  destruct (advanceOne_ok F H ws W HT) as (w1 & E1 & T1 & W1).
  destruct (IH w1 W1 ltac:(lia)) as (w2 & E2 & T2 & W2).
  exists w2. simpl. rewrite E1. split; [done|]. split; [lia|done].
Qed.

(** A new window counts nothing older than its start. *)
Lemma fresh_ok T H buckets :
  Forall (fun h => h <= T) H -> buckets = replicate (Z.to_nat n) 0 ->
  window_ok T H (mkWindow buckets T 0).
Proof.
  intros P ->. constructor; simpl; [by rewrite length_replicate|done| |].
  - intros i Hi.
    assert (replicate (Z.to_nat n) 0 !! Z.to_nat i = Some 0) as ->.
    { apply (lookup_replicate_2 (Z.to_nat n) 0 (Z.to_nat i)). lia. }
    f_equal. symmetry. apply cnt_zero. eapply Forall_impl; [exact P|]. simpl. intros h Hh.
    unfold live. by rewrite (proj2 (Z.ltb_ge T h)) by lia.
  - symmetry. apply cnt_zero. eapply Forall_impl; [exact P|]. simpl. intros h Hh.
    unfold live. by rewrite (proj2 (Z.ltb_ge T h)) by lia.
Qed.

(** At rest the floor is irrelevant. *)
Lemma floor_irrelevant F F' H ws :
  window_ok F H ws -> F <= ws_bucketTime ws - n -> F' <= ws_bucketTime ws - n ->
  window_ok F' H ws.
Proof.
  intros [L P B C] HF HF'. set (T := ws_bucketTime ws) in *.
  assert (forall h, live F T h = live F' T h) as E.
  { intros h. unfold live.
    destruct (Z.ltb_spec F h), (Z.ltb_spec F' h), (Z.ltb_spec (T - n) h); simpl; done || lia. }
  constructor; [done|done| |].
  - intros i Hi. rewrite B by done. fold T. f_equal. apply cnt_ext, Forall_forall. intros h _.
    by rewrite E.
  - rewrite C. fold T. apply cnt_ext, Forall_forall. intros h _. apply E.
Qed.

(** Recording an admission in the current period. *)
Lemma admit_ok F H ws c :
  window_ok F H ws -> ws_bucketTime ws = c -> F < c ->
  window_ok F (H ++ [c])
    (mkWindow (<[Z.to_nat (c mod n) := default 0 (ws_buckets ws !! Z.to_nat (c mod n)) + 1]>
                 (ws_buckets ws)) c (ws_count ws + 1)).
Proof.
  intros [L P B C] <- HF. set (T := ws_bucketTime ws) in *.
  assert (0 <= T mod n < n) as Hj by (apply Z.mod_pos_bound; lia).
  assert (live F T T = true) as HL.
  { unfold live. apply andb_true_iff. split; apply Z.ltb_lt; lia. }
  constructor; simpl.
  - by rewrite length_insert.
  - apply Forall_app. split; [done|]. constructor; [lia|constructor].
  - intros i Hi. rewrite cnt_snoc, HL. simpl. rewrite (B _ Hj). simpl.
    destruct (Z.eqb_spec (T mod n) i) as [<-|Hne].
    + by rewrite list_lookup_insert_eq by lia.
    + rewrite list_lookup_insert_ne by lia. rewrite B by done. f_equal. lia.
  - rewrite cnt_snoc, HL, C. done.
Qed.
End Window.

(** ** Rate limiting: theorems *)

(** ** Sliding windows *)

(** A sequence of [Allow] calls, each with its key and clock, and the answers. *)
Fixpoint sw_run (calls : list (string * Z)) (s : SlidingWindowCounter)
  : list (string * Z * res bool) :=
  match calls with
  | [] => []
  | (k, t) :: calls => let '(s', r) := sw_Allow k t s in (k, t, r) :: sw_run calls s'
  end.

(** The times at which calls with this key were admitted. *)
Definition admitted (k : string) (out : list (string * Z * res bool)) : list Z :=
  omap (fun x => match x with
                 | (k', t, Ok true) => if decide (k' = k) then Some t else None
                 | _ => None
                 end) out.

Section Sliding.
Context (n p limit : Z) (Hn : 0 < n) (Hp : 0 < p).

Definition inPeriods (B h : Z) : bool := (B - n <? h) && (h <=? B).

Definition key_ok (now : Z) (H : list Z) (w : option windowState) : Prop :=
  match w with
  | None => H = []
  | Some ws => 0 <= ws_bucketTime ws <= Z.quot now p /\
               window_ok n (ws_bucketTime ws - n) H ws
  end /\ forall B, cnt (inPeriods B) H <= Z.max 0 limit.

Definition sliding_ok (now : Z) (H : string -> list Z) (s : SlidingWindowCounter) : Prop :=
  sw_duration s = n * p /\ sw_precision s = p /\ sw_limit s = limit /\
  forall k, key_ok now (H k) (sw_windows s !! k).

Lemma key_ok_later now now' H w : now <= now' -> key_ok now H w -> key_ok now' H w.
Proof.
  intros L [A B]. split; [|done]. destruct w as [ws|]; [|done].
  destruct A as [[A1 A2] A3]. split; [|done]. split; [done|].
  pose proof (Z.quot_le_mono now now' p). lia.
Qed.

(** The window the call works on, after advancing to the current period. *)
Lemma advanced now t H w s :
  now <= t -> n * p <= t -> sw_duration s = n * p -> sw_precision s = p -> key_ok now H w ->
  let c := Z.quot t p in
  let ws0 := match w with
             | Some ws => if Z.quot (sw_duration s) (sw_precision s) <? c - ws_bucketTime ws
                          then freshWindow s c else ws
             | None => freshWindow s c
             end in
  exists ws, advance (Z.to_nat (c - ws_bucketTime ws0)) ws0 = (ws, Ok tt) /\
             ws_bucketTime ws = c /\ window_ok n (c - n) H ws.
Proof.
  intros Hle Ht Ed Ep [K _] c ws0.
  assert (n <= c) as Hc by (apply Z.quot_le_lower_bound; lia).
  assert (Z.quot (n * p) p = n) as Eq by (by apply Z.quot_mul; lia).
  assert (freshWindow s c = mkWindow (replicate (Z.to_nat n) 0) (c - n) 0) as Ef.
  { unfold freshWindow. rewrite Ed, Ep, Eq. by destruct (Z.eqb_spec n 0); [lia|]. }
  assert (forall ws F, window_ok n F H ws -> -1 <= ws_bucketTime ws <= c -> F <= c - n ->
            exists ws', advance (Z.to_nat (c - ws_bucketTime ws)) ws = (ws', Ok tt) /\
                        ws_bucketTime ws' = c /\ window_ok n (c - n) H ws') as Adv.
  { intros ws F W B HF.
    destruct (advance_ok n Hn F H (Z.to_nat (c - ws_bucketTime ws)) ws W) as (ws' & E & T & W');
      [lia|]. exists ws'. split; [done|]. assert (ws_bucketTime ws' = c) as Tc by lia.
    split; [done|]. eapply floor_irrelevant; [done|exact W'|lia|lia]. }
  assert (forall (P : Forall (fun h => h <= c - n) H),
            exists ws', advance (Z.to_nat (c - ws_bucketTime (freshWindow s c))) (freshWindow s c)
                        = (ws', Ok tt) /\ ws_bucketTime ws' = c /\ window_ok n (c - n) H ws') as Fresh.
  { intros P. rewrite Ef. apply (Adv _ (c - n)); [by apply fresh_ok|simpl; lia|lia]. }
  subst ws0. destruct w as [ws|].
  - destruct K as [[K1 K2] K3]. rewrite Ed, Ep, Eq.
    pose proof (Z.quot_le_mono now t p ltac:(lia) ltac:(lia)).
    destruct (Z.ltb_spec n (c - ws_bucketTime ws)).
    + apply Fresh. eapply Forall_impl; [exact (wo_past _ _ _ _ K3)|]. simpl. lia.
    + apply (Adv _ (ws_bucketTime ws - n)); [done|lia|lia].
  - subst H. apply Fresh. constructor.
Qed.

Lemma sw_Allow_ok now t k H s :
  sliding_ok now H s -> now <= t -> n * p <= t ->
  exists s' b, sw_Allow k t s = (s', Ok b) /\
    sliding_ok t (fun k' => if decide (k' = k) then H k ++ (if b : bool then [Z.quot t p] else [])
                            else H k') s'.
Proof.
  destruct s as [wins d p' l]. intros (Ed & Ep & El & K) Hle Ht. simpl in Ed, Ep, El. subst d p' l.
  unfold sw_Allow. cbn [sw_duration sw_precision sw_limit sw_windows] in *.
  rewrite (proj2 (Z.eqb_neq (n * p) 0)), (proj2 (Z.eqb_neq p 0)) by nia.
  destruct (advanced now t (H k) (wins !! k) (mkSliding wins (n * p) p limit) Hle Ht
              eq_refl eq_refl (K k)) as (ws & E & T & W).
  cbn [orb sw_duration sw_precision] in *. rewrite E.
  set (c := Z.quot t p) in *.
  assert (n <= c) as Hc by (apply Z.quot_le_lower_bound; lia).
  assert (forall ws' H', key_ok t H' (Some ws') ->
    sliding_ok t (fun k' => if decide (k' = k) then H' else H k')
      (mkSliding (<[k := ws']> wins) (n * p) p limit)) as Put.
  { intros ws' H' Hk. repeat (split; [done|]). intros k'. simpl. case_decide as Dk.
    - subst. by rewrite lookup_insert_eq.
    - rewrite lookup_insert_ne by done. by apply (key_ok_later now). }
  destruct (K k) as [_ KB].
  destruct (Z.leb_spec limit (ws_count ws)) as [Hl|Hl].
  - eexists _, false. split; [reflexivity|]. rewrite app_nil_r. apply Put. split; [|done].
    rewrite T. split; [fold c; lia|done].
  - rewrite (wo_length _ _ _ _ W), Z2Nat.id by lia.
    rewrite period_index by lia. fold c.
    rewrite Z.rem_mod_nonneg, Z.mod_mod by (pose proof (Z.mod_pos_bound c n); lia).
    rewrite (indexOf_ok n Hn) by (apply Z.mod_pos_bound; lia).
    eexists _, true. split; [reflexivity|]. rewrite T. apply Put.
    pose proof (admit_ok n Hn (c - n) (H k) ws c W T ltac:(lia)) as W'.
    split; [split; [simpl; fold c; lia|exact W']|].
    intros B. rewrite cnt_snoc. pose proof (KB B). unfold inPeriods at 2.
    destruct (Z.ltb_spec (B - n) c), (Z.leb_spec c B); simpl; try lia.
    assert (cnt (inPeriods B) (H k) <= cnt (live n (c - n) c) (H k)) as M.
    { apply cnt_mono. eapply Forall_impl; [exact (wo_past _ _ _ _ W)|]. intros h Hh.
      rewrite T in Hh. unfold inPeriods, live. intros [I1 I2]%andb_true_iff.
      apply Z.ltb_lt in I1. rewrite !(proj2 (Z.ltb_lt _ _)) by lia. done. }
    pose proof (wo_count _ _ _ _ W) as C. rewrite T in C. lia.
Qed.

Lemma sw_run_ok calls : forall now H s,
  sliding_ok now H s -> Sorted Z.le (now :: calls.*2) -> Forall (fun x => n * p <= x.2) calls ->
  Forall (fun x => is_ok x.2 = true) (sw_run calls s) /\
  forall k B, cnt (inPeriods B) (H k ++ ((fun t => Z.quot t p) <$> admitted k (sw_run calls s)))
              <= Z.max 0 limit.
Proof.
  induction calls as [|[k t] calls IH]; intros now H s I S F.
  - split; [constructor|]. intros k B. simpl. rewrite app_nil_r. by apply I.
  - simpl in S. inversion S as [|? ? S' Hd]; subst. inversion Hd as [|? ? Hle]; subst.
    inversion F as [|? ? Ft F']; subst. simpl in Ft.
    destruct (sw_Allow_ok now t k H s I Hle Ft) as (s' & b & E & I').
    destruct (IH t _ s' I' S' F') as [O C]. simpl. rewrite E. split; [by constructor|].
    intros k' B. specialize (C k' B). unfold admitted. simpl. destruct b.
    + simpl. destruct (decide (k = k')) as [<-|Hne].
      * rewrite decide_True in C by done. rewrite <- app_assoc in C. exact C.
      * rewrite decide_False in C by done. exact C.
    + simpl. destruct (decide (k' = k)) as [->|Hne]; [|exact C]. rewrite app_nil_r in C. exact C.
Qed.
End Sliding.

(** C39: the sliding window limits the rate: for a window of [n] periods (a
    duration that is a multiple of the precision) and any sequence of calls
    in the order of a clock that does not run backwards, every call returns,
    and for each key at most [limit] calls are admitted in any [n]
    consecutive periods. *)
Theorem sliding_window_bounds_rate n p limit calls k B :
  0 < n -> 0 < p -> Sorted Z.le calls.*2 -> Forall (fun x => n * p <= x.2) calls ->
  let out := sw_run calls (NewSlidingWindowCounter (n * p) p limit) in
  Forall (fun x => is_ok x.2 = true) out /\
  Z.of_nat (length (List.filter (fun t => (B - n <? Z.quot t p) && (Z.quot t p <=? B))
                      (admitted k out))) <= Z.max 0 limit.
Proof.
  intros Hn Hp S F out.
  destruct (sw_run_ok n p limit Hn Hp calls 0 (fun _ => []) (NewSlidingWindowCounter (n * p) p limit))
    as [O C].
  - do 3 (split; [done|]). intros k'. split; [reflexivity|].
    intros B'. unfold cnt. simpl. lia.
  - constructor; [done|]. destruct calls as [|[k' t] calls]; constructor. simpl.
    inversion F; simpl in *; nia.
  - done.
  - split; [exact O|]. specialize (C k B). simpl in C. rewrite cnt_map in C. exact C.
Qed.

Lemma sliding_window_bounds_rate_witness :
  let out := sw_run [("a", 100); ("a", 101); ("a", 125); ("b", 126)]
               (NewSlidingWindowCounter (2 * 10) 10 1) in
  Forall (fun x => is_ok x.2 = true) out /\ admitted "a" out = [100; 125].
Proof.
  intros out.
  destruct (sliding_window_bounds_rate 2 10 1 [("a", 100); ("a", 101); ("a", 125); ("b", 126)] "a" 10)
    as [O _]; [lia|lia| | |].
  - simpl. repeat constructor; lia.
  - repeat constructor; simpl; lia.
  - split; [exact O|]. vm_compute. reflexivity.
Defined.

(** ** Multi-level limiter *)

(** Which counter a result belongs to. *)
Definition outcome (r : RateLimitResult) (c : counter) : Prop :=
  match c with
  | CGlobalAllowed => rr_Allowed r = true
  | CGlobalRejected => rr_Allowed r = false /\ rr_LimitType r = "global"
  | CIP => rr_Allowed r = false /\ rr_LimitType r = "ip"
  | CUser => rr_Allowed r = false /\ rr_LimitType r = "user"
  | CBucket => rr_Allowed r = false /\ rr_LimitType r = "bucket"
  | CAPI => rr_Allowed r = false /\ rr_LimitType r = "api"
  | CBW => rr_Allowed r = false /\ rr_LimitType r = "bandwidth"
  end.

(** The rest of a request, from limiter [m] with statistics [st]. *)
Definition accounts (st : LimiterStats) (x : MultiLevelLimiter * res RateLimitResult) : Prop :=
  forall r, x.2 = Ok r -> exists c, outcome r c /\ ml_stats x.1 = bump c st.

Lemma step_window_accounts get set key now c rkey ty k m :
  (forall w, ml_stats (set w m) = ml_stats m) -> outcome (mkRLResult false rkey ty 1) c ->
  (forall m', ml_stats m' = ml_stats m -> accounts (ml_stats m) (k m')) ->
  accounts (ml_stats m) (step_window get set key now c rkey ty k m).
Proof.
  intros Hs Hc Hk. unfold step_window. destruct (sw_Allow key now (get m)) as [w [[]|e|p]].
  - by apply Hk.
  - intros r [= <-]. exists c. simpl. by rewrite Hs.
  - by intros r.
  - by intros r.
Qed.

Lemma step_tokens_accounts en get set ctx key now c rkey ty k m :
  (forall w, ml_stats (set w m) = ml_stats m) -> outcome (mkRLResult false rkey ty 1) c ->
  (forall m', ml_stats m' = ml_stats m -> accounts (ml_stats m) (k m')) ->
  accounts (ml_stats m) (step_tokens en get set ctx key now c rkey ty k m).
Proof.
  intros Hs Hc Hk. unfold step_tokens. destruct en; [|by apply Hk].
  destruct (get m) as [l|]; [|by apply Hk].
  destruct (tl_Allow ctx key now.1 now.2 l) as [l' [[]|e|w]].
  - by apply Hk.
  - intros r [= <-]. exists c. simpl. by rewrite Hs.
  - by intros r.
Qed.

(** every request that gets an answer is counted once: the total grows by
    one and so does exactly one outcome counter, "allowed" when the answer is
    to admit the request and otherwise the one of the limit that the answer
    names; a whitelisted address changes nothing else. *)
Theorem request_counted_once ctx ip user b api len ck m m' r :
  ml_Allow ctx ip user b api len ck m = (m', Ok r) ->
  (exists c, outcome r c /\ ml_stats m' = bump c (countRequest (ml_stats m))) /\
  (ip ∈ ml_whitelist m ->
   rr_Allowed r = true /\ m' = with_stats (bump CGlobalAllowed ∘ countRequest) m).
Proof.
  intros E. split.
  - assert (accounts (countRequest (ml_stats m)) (ml_Allow ctx ip user b api len ck m)) as A.
    2: { rewrite E in A. by apply (A r). }
    clear E. unfold ml_Allow. cbn [ml_whitelist with_stats]. case_bool_decide.
    { intros x [= <-]. by exists CGlobalAllowed. }
    set (m0 := with_stats countRequest m).
    change (countRequest (ml_stats m)) with (ml_stats m0).
    apply step_window_accounts; [done|done|]. intros m1 E1. rewrite <- E1.
    apply step_window_accounts; [done|done|]. intros m2 E2. rewrite <- E2.
    apply step_tokens_accounts; [done|done|]. intros m3 E3. rewrite <- E3.
    apply step_tokens_accounts; [done|done|]. intros m4 E4. rewrite <- E4.
    apply step_tokens_accounts; [done|done|]. intros m5 E5. rewrite <- E5.
    destruct (_ && _ && _); [|intros x [= <-]; by exists CGlobalAllowed].
    destruct (bw_Allow _ _ _ _ _) as [x []]; intros y [= <-]; [by exists CGlobalAllowed|by exists CBW].
  - intros W. unfold ml_Allow in E. cbn [ml_whitelist with_stats] in E.
    rewrite bool_decide_true in E by done. by simplify_eq.
Qed.

Definition demoML : MultiLevelLimiter :=
  AddWhitelist "10.0.0.1"
    (NewMultiLevelLimiter (mkMLConfig 1 1 0 0 0 0 0 0 ∅ [] 0 0)).
Definition demoClock : Clock := mkClock 2000000000 2000000000 (0, 0) (0, 0) (0, 0) (0, 0).

Lemma request_counted_once_witness : exists m' r,
  ml_Allow None "10.0.0.1" "" "" "GET" 0 demoClock demoML = (m', Ok r) /\ rr_Allowed r = true.
Proof.
  destruct (ml_Allow None "10.0.0.1" "" "" "GET" 0 demoClock demoML) as [m' [r|e|w]] eqn:E;
    [|vm_compute in E; discriminate..].
  exists m', r. split; [reflexivity|].
  destruct (request_counted_once _ _ _ _ _ _ _ _ _ _ E) as [_ W].
  apply W. apply (bool_decide_unpack _). vm_compute. exact I.
Defined.

(** ** Circuit breaker *)

Inductive cb_op :=
| OAllow (t1 t2 : Time)
| OSuccess (t : Time)
| OFailure (t : Time).

(** A run of one breaker; the admissions of its [OAllow]s. *)
Fixpoint cb_run (ops : list cb_op) (b : breaker) : breaker * list bool :=
  match ops with
  | [] => (b, [])
  | OAllow t1 t2 :: ops =>
    let '(b1, r) := br_Allow t1 t2 b in
    let '(b2, out) := cb_run ops b1 in (b2, is_ok r :: out)
  | OSuccess t :: ops => cb_run ops (br_RecordSuccess t b)
  | OFailure t :: ops => cb_run ops (br_RecordFailure t b)
  end.

Definition op_before (t : Time) (o : cb_op) : Prop :=
  match o with OAllow t1 t2 => t1 <= t | OSuccess t1 => t1 <= t | OFailure t1 => t1 <= t end.
Definition op_after (t : Time) (o : cb_op) : Prop :=
  match o with OAllow t1 t2 => t <= t1 | OSuccess t1 => t <= t1 | OFailure t1 => t <= t1 end.

(** an open breaker admits nothing before its timeout has passed, whatever
    successes and failures late requests report meanwhile, and it is still
    open then. *)
Theorem open_breaker_rejects b ops :
  br_state b = StateOpen -> 0 <= cc_Timeout (br_cfg b) <= int64_max ->
  Forall (op_after (br_lastStateChange b)) ops ->
  Forall (op_before (br_lastStateChange b + cc_Timeout (br_cfg b))) ops ->
  br_state (cb_run ops b).1 = StateOpen /\ Forall (fun x => x = false) (cb_run ops b).2.
Proof.
  intros S T A B.
  assert (forall t0 b, br_state b = StateOpen -> 0 <= cc_Timeout (br_cfg b) <= int64_max ->
    t0 <= br_lastStateChange b -> Forall (op_after t0) ops ->
    Forall (op_before (t0 + cc_Timeout (br_cfg b))) ops ->
    br_state (cb_run ops b).1 = StateOpen /\ Forall (fun x => x = false) (cb_run ops b).2) as G.
  2: { by apply (G (br_lastStateChange b)). }
  clear S T A B b. induction ops as [|o ops IH]; intros t0 b S T L A B; [done|].
  inversion A as [|? ? Ao A']; inversion B as [|? ? Bo B']; subst.
  destruct o as [t1 t2|t|t]; simpl in *.
  - assert (br_Allow t1 t2 b = (b, Err ErrCircuitOpen)) as ->.
    { unfold br_Allow. rewrite S.
      destruct (Z.ltb_spec (cc_Timeout (br_cfg b)) (Sub t1 (br_lastStateChange b))); [|done].
      unfold Sub, int64_max, int64_min in *. lia. }
    destruct (IH t0 b S T L A' B') as [IH1 IH2]. destruct (cb_run ops b) as [b2 out].
    split; [done|]. by constructor.
  - assert (br_RecordSuccess t b = mkBreaker (br_cfg b) StateOpen (br_failures b)
      (wrap64 (br_successes b + 1)) (br_requests b) (br_lastStateChange b) (br_halfOpenAllowed b)) as ->.
    { unfold br_RecordSuccess. by rewrite S. }
    by apply (IH t0).
  - unfold br_RecordFailure. rewrite S. rewrite bool_decide_false by done.
    destruct (0 <? br_requests b); [|by apply (IH t0)].
    destruct (_ && _); apply (IH t0); simpl; try done; lia.
Qed.

Definition demoBreaker (st : CircuitState) (maxReq succ : Z) : breaker :=
  mkBreaker (mkCBConfig "db" maxReq 0 100 (fofZ 1) succ) st 0 0 0 1000 maxReq.

Lemma open_breaker_rejects_witness :
  Forall (fun x => x = false)
    (cb_run [OAllow 1001 1001; OSuccess 1002; OFailure 1003; OAllow 1100 1100]
       (demoBreaker StateOpen 1 2)).2.
Proof.
  apply (open_breaker_rejects (demoBreaker StateOpen 1 2)).
  - reflexivity.
  - simpl. unfold int64_max. lia.
  - repeat constructor; simpl; lia.
  - repeat constructor; simpl; lia.
Defined.

(** Successes are reported for admitted requests only, and nothing fails. *)
Fixpoint fair (pending : nat) (ops : list cb_op) (b : breaker) : Prop :=
  match ops with
  | [] => True
  | OAllow t1 t2 :: ops =>
    fair (if is_ok (br_Allow t1 t2 b).2 then S pending else pending) ops (br_Allow t1 t2 b).1
  | OSuccess t :: ops =>
    match pending with O => False | S p => fair p ops (br_RecordSuccess t b) end
  | OFailure _ :: _ => False
  end.

(** a half-open breaker whose MaxRequests is below its SuccessThreshold
    never closes again: even if every admitted request succeeds, at most
    MaxRequests requests are ever admitted, and from then on all are
    rejected; no timeout leads out of the half-open state. *)
Theorem half_open_breaker_starves cfg failures requests t0 ops :
  0 <= cc_MaxRequests cfg < cc_SuccessThreshold cfg -> cc_SuccessThreshold cfg < 2 ^ 32 ->
  let b := mkBreaker cfg StateHalfOpen failures 0 requests t0 (cc_MaxRequests cfg) in
  fair 0 ops b ->
  br_state (cb_run ops b).1 = StateHalfOpen /\
  Z.of_nat (length (List.filter id (cb_run ops b).2)) <= cc_MaxRequests cfg.
Proof.
  intros M T b.
  assert (forall ops pending b, fair pending ops b -> br_state b = StateHalfOpen -> br_cfg b = cfg ->
    0 <= br_successes b -> 0 <= br_halfOpenAllowed b ->
    br_successes b + Z.of_nat pending + br_halfOpenAllowed b <= cc_MaxRequests cfg ->
    br_state (cb_run ops b).1 = StateHalfOpen /\
    Z.of_nat (length (List.filter id (cb_run ops b).2)) <= br_halfOpenAllowed b) as G.
  2: { intros F. apply (G ops O b F); simpl; lia || done. }
  clear b. intros ops'. induction ops' as [|o ops' IH]; intros pend b F S C H1 H2 H3;
    [simpl; split; [done|lia]|].
  destruct o as [t1 t2|t|t]; simpl in F |- *; [| |done].
  - unfold br_Allow in *. rewrite S in *.
    destruct (Z.eqb_spec (br_halfOpenAllowed b) 0) as [E|E].
    + destruct (IH _ b F S C H1 H2 H3) as [I1 I2]. destruct (cb_run ops' b) as [b2 out].
      split; [done|]. simpl in *. lia.
    + simpl in F. destruct (IH _ _ F) as [I1 I2]; simpl; try done; try lia.
      destruct (cb_run ops' _) as [b2 out]. split; [done|]. simpl in *. lia.
  - destruct pend as [|pend]; [done|].
    assert (wrap64 (br_successes b + 1) = br_successes b + 1) as W.
    { apply wrap64_id. unfold in_int64, int64_min, int64_max. lia. }
    assert (br_RecordSuccess t b = mkBreaker (br_cfg b) (br_state b) (br_failures b)
      (br_successes b + 1) (br_requests b) (br_lastStateChange b) (br_halfOpenAllowed b)) as E.
    { unfold br_RecordSuccess. rewrite W, S, bool_decide_true, C by done. simpl.
      by destruct (Z.leb_spec (cc_SuccessThreshold cfg) (br_successes b + 1)); [lia|]. }
    rewrite E in *. destruct (IH pend _ F) as [I1 I2]; simpl; try done; lia.
Qed.

Lemma half_open_breaker_starves_witness :
  br_state (cb_run [OAllow 1101 1101; OSuccess 1102; OAllow 9000 9000; OAllow 90000 90000]
              (demoBreaker StateHalfOpen 1 2)).1 = StateHalfOpen.
Proof.
  apply (half_open_breaker_starves (mkCBConfig "db" 1 0 100 (fofZ 1) 2) 0 0 1000).
  - simpl. lia.
  - simpl. lia.
  - vm_compute. exact I.
Defined.
