(* ===== verification/Concurrency.v ===== *)
(** * Concurrency limiter (internal/ratelimit/ratelimit.go)

    [ConcurrencyLimiter] under interleaving.  The map accesses of [Acquire]
    happen under the mutex and are one step; after that the caller spins on
    an atomic load, a comparison with the limit it read at the beginning and
    a compare-and-swap, each a step of its own.  The returned [release]
    decrements the counter. *)

From S2P Require Import Prelude.
From Stdlib Require Import Ascii String.
From stdpp Require Import base list.

#[local] Open Scope Z_scope.

(** The shared state: [limits], [counters] and [maxTotal]. *)
Record ConcurrencyLimiter := mkConc {
  cl_limits : gmap string Z;
  cl_counters : gmap string Z;
  cl_maxTotal : Z
}.

Definition NewConcurrencyLimiter (maxTotal : Z) : ConcurrencyLimiter := mkConc ∅ ∅ maxTotal.

Definition SetLimit (key : string) (limit : Z) (c : ConcurrencyLimiter) : ConcurrencyLimiter :=
  mkConc (<[key := limit]> (cl_limits c)) (cl_counters c) (cl_maxTotal c).
Definition GetCount (key : string) (c : ConcurrencyLimiter) : Z := default 0 (cl_counters c !! key).

Definition limitOf (key : string) (c : ConcurrencyLimiter) : Z :=
  default (cl_maxTotal c) (cl_limits c !! key).

(** Where a caller is in [Acquire]. *)
Inductive caller :=
| CIdle                                        (** not in a call *)
| CSpin (key : string) (limit : Z)             (** about to load the counter *)
| CWait (key : string) (limit : Z)             (** saw the limit reached: in the inner select *)
| CTry (key : string) (limit current : Z)      (** loaded, below the limit: about to swap *)
| CHold (key : string).                        (** acquired, not yet released *)

(** One step of one caller. *)
Inductive caller_step (c : ConcurrencyLimiter) : caller -> ConcurrencyLimiter -> caller -> Prop :=
| cs_enter key :
    caller_step c CIdle
      (mkConc (cl_limits c) (<[key := GetCount key c]> (cl_counters c)) (cl_maxTotal c))
      (CSpin key (limitOf key c))
| cs_done : caller_step c CIdle c CIdle        (** the context is done at the start *)
| cs_full key limit :                          (** [current >= limit] *)
    limit <= GetCount key c -> caller_step c (CSpin key limit) c (CWait key limit)
| cs_timer key limit :                         (** 100 ms passed: retry *)
    caller_step c (CWait key limit) c (CSpin key limit)
| cs_cancel key limit :                        (** the context is done *)
    caller_step c (CWait key limit) c CIdle
| cs_load key limit :
    GetCount key c < limit -> caller_step c (CSpin key limit) c (CTry key limit (GetCount key c))
| cs_swap key limit current :
    GetCount key c = current ->
    caller_step c (CTry key limit current)
      (mkConc (cl_limits c) (<[key := current + 1]> (cl_counters c)) (cl_maxTotal c)) (CHold key)
| cs_lost key limit current :
    GetCount key c <> current -> caller_step c (CTry key limit current) c (CSpin key limit)
| cs_release key :
    caller_step c (CHold key)
      (mkConc (cl_limits c) (<[key := GetCount key c - 1]> (cl_counters c)) (cl_maxTotal c)) CIdle.

(** The system: any caller moves, or a limit is set to at most [L key]. *)
Inductive conc_step (L : string -> Z)
  : ConcurrencyLimiter * list caller -> ConcurrencyLimiter * list caller -> Prop :=
| step_caller c c' cs i x x' :
    cs !! i = Some x -> caller_step c x c' x' -> conc_step L (c, cs) (c', <[i := x']> cs)
| step_setLimit c cs key limit :
    limit <= L key -> conc_step L (c, cs) (SetLimit key limit c, cs).

(** ** Counting holders *)

Definition holds (key : string) (x : caller) : bool :=
  match x with CHold k => bool_decide (k = key) | _ => false end.
Definition holders (key : string) (cs : list caller) : Z :=
  Z.of_nat (length (List.filter (holds key) cs)).

Lemma holders_insert key cs i x x' : cs !! i = Some x ->
  holders key (<[i := x']> cs)
  = holders key cs - (if holds key x then 1 else 0) + (if holds key x' then 1 else 0).
Proof.
  unfold holders. revert i. induction cs as [|y cs IH]; intros [|i] E; simplify_eq/=.
  - destruct (holds key x), (holds key x'); simpl length; lia.
  - specialize (IH i E). destruct (holds key y); simpl length; lia.
Qed.

(** ** The invariant *)

Section Invariant.
Context (L : string -> Z).

(** The limit a caller works with. *)
Definition caller_ok (x : caller) : Prop :=
  match x with
  | CSpin key limit | CWait key limit => limit <= L key
  | CTry key limit current => limit <= L key /\ current < limit
  | _ => True
  end.

Record conc_ok (st : ConcurrencyLimiter * list caller) : Prop := {
  co_counts key : GetCount key st.1 = holders key st.2;
  co_bound key : holders key st.2 <= Z.max 0 (L key);
  co_limits key : limitOf key st.1 <= L key;
  co_callers : Forall caller_ok st.2
}.

Lemma GetCount_put key key' v c :
  GetCount key (mkConc (cl_limits c) (<[key' := v]> (cl_counters c)) (cl_maxTotal c))
  = if decide (key' = key) then v else GetCount key c.
Proof.
  unfold GetCount. simpl. case_decide; subst;
    [by rewrite lookup_insert_eq|by rewrite lookup_insert_ne].
Qed.

Lemma conc_init maxTotal k : (forall key, maxTotal <= L key) ->
  conc_ok (NewConcurrencyLimiter maxTotal, replicate k CIdle).
Proof.
  intros HL.
  assert (forall key, holders key (replicate k CIdle) = 0) as H0.
  { intros key. unfold holders. by induction k. }
  constructor; simpl.
  - intros key. rewrite H0. reflexivity.
  - intros key. rewrite H0. lia.
  - intros key. apply HL.
  - by apply Forall_replicate.
Qed.

Lemma conc_step_ok st st' : conc_step L st st' -> conc_ok st -> conc_ok st'.
Proof.
  intros [c c' cs i x x' Hi St|c cs key limit Hl] [C B M K]; simpl in *.
  - assert (caller_ok x) as Kx by (by eapply Forall_lookup_1).
    assert (caller_ok x' -> Forall caller_ok (<[i := x']> cs)) as Kput
      by (intros; by apply Forall_insert).
    inversion St; subst; simpl in Kx; constructor; cbn [fst snd]; try exact M;
      try (apply Kput; simpl; naive_solver lia);
      try (intros k; pose proof (C k); pose proof (B k);
           rewrite ?GetCount_put, ?(holders_insert _ _ _ _ _ Hi); cbn [holds];
           repeat case_bool_decide; repeat case_decide; subst; naive_solver lia).
  - constructor; simpl; auto. intros k. unfold limitOf. simpl.
    destruct (decide (key = k)) as [->|]; [by rewrite lookup_insert_eq|].
    rewrite lookup_insert_ne by done. apply M.
Qed.
End Invariant.

(** C40: whatever the interleaving of callers' loads, swaps and releases and of
    changes of the limits, the counter of a key equals the number of callers
    that hold it, and that number never exceeds the highest limit in force
    for the key, for callers that call their release function once. *)
Theorem concurrency_never_exceeds_limit L maxTotal k st :
  (forall key, maxTotal <= L key) ->
  rtc (conc_step L) (NewConcurrencyLimiter maxTotal, replicate k CIdle) st ->
  forall key, GetCount key st.1 = holders key st.2 /\ holders key st.2 <= Z.max 0 (L key).
Proof.
  intros HL R. assert (conc_ok L st) as [C B _ _].
  { remember (NewConcurrencyLimiter maxTotal, replicate k CIdle) as s0 eqn:E.
    assert (conc_ok L s0) as I by (subst; by apply conc_init). clear E.
    induction R as [|s s1 s2 St _ IH]; [done|]. by apply IH, (conc_step_ok L s). }
  intros key. split; [apply C|apply B].
Qed.

Lemma concurrency_never_exceeds_limit_witness :
  holders "a" [CHold "a"; CSpin "a" 1] <= 1.
Proof.
  pose (L := fun _ : string => 1).
  destruct (concurrency_never_exceeds_limit L 1 2
    (mkConc ∅ {[ "a" := 1 ]} 1, [CHold "a"; CSpin "a" 1])) with (key := "a") as [_ B].
  - intros key. unfold L. lia.
  - pose (c0 := NewConcurrencyLimiter 1). pose (c1 := mkConc ∅ {[ "a" := 0 ]} 1).
    apply (rtc_l _ _ (c1, [CSpin "a" 1; CIdle])).
    { exact (step_caller L c0 c1 [CIdle; CIdle] 0 CIdle _ eq_refl (cs_enter c0 "a")). }
    apply (rtc_l _ _ (c1, [CSpin "a" 1; CSpin "a" 1])).
    { exact (step_caller L c1 c1 [CSpin "a" 1; CIdle] 1 CIdle _ eq_refl (cs_enter c1 "a")). }
    apply (rtc_l _ _ (c1, [CTry "a" 1 0; CSpin "a" 1])).
    { exact (step_caller L c1 c1 [CSpin "a" 1; CSpin "a" 1] 0 (CSpin "a" 1) _ eq_refl
               (cs_load c1 "a" 1 eq_refl)). }
    apply rtc_once.
    exact (step_caller L c1 _ [CTry "a" 1 0; CSpin "a" 1] 0 (CTry "a" 1 0) _ eq_refl
             (cs_swap c1 "a" 1 0 eq_refl)).
  - exact B.
Defined.
