(* ===== verification/GoJson.v ===== *)
(** * Strings and times through encoding/json

    The queue copies tasks by marshalling and unmarshalling them.  A Go
    string is arbitrary bytes; [json.Marshal] writes each byte that is not
    part of a valid UTF-8 encoding as U+FFFD, and everything else comes back
    as it was.  A time marshals only when its year is in 0..9999. *)

From S2P Require Import Prelude GoStrings.
From Stdlib Require Import Ascii String.
From stdpp Require Import base list.

#[local] Open Scope Z_scope.

Definition inRange (lo hi : Z) (c : ascii) : bool :=
  (lo <=? Z.of_nat (nat_of_ascii c)) && (Z.of_nat (nat_of_ascii c) <=? hi).

(** The table of utf8.DecodeRune: first bytes and the range of the second. *)
Definition isCont : ascii -> bool := inRange 128 191.
Definition lead2 (a b : ascii) : bool := inRange 194 223 a && isCont b.
Definition lead3 (a b : ascii) : bool :=
  (inRange 224 224 a && inRange 160 191 b) || (inRange 225 236 a && isCont b) ||
  (inRange 237 237 a && inRange 128 159 b) || (inRange 238 239 a && isCont b).
Definition lead4 (a b : ascii) : bool :=
  (inRange 240 240 a && inRange 144 191 b) || (inRange 241 243 a && isCont b) ||
  (inRange 244 244 a && inRange 128 143 b).

Definition runeError (s : string) : string :=
  String (ascii_of_nat 239) (String (ascii_of_nat 191) (String (ascii_of_nat 189) s)).

(** A string after [json.Marshal] and [json.Unmarshal]. *)
Fixpoint jsonString (s : string) : string :=
  match s with
  | EmptyString => EmptyString
  | String a s1 =>
    if inRange 0 127 a then String a (jsonString s1) else
    match s1 with
    | EmptyString => runeError (jsonString s1)
    | String b s2 =>
      if lead2 a b then String a (String b (jsonString s2)) else
      match s2 with
      | EmptyString => runeError (jsonString s1)
      | String c s3 =>
        if lead3 a b && isCont c then String a (String b (String c (jsonString s3))) else
        match s3 with
        | EmptyString => runeError (jsonString s1)
        | String d s4 =>
          if lead4 a b && isCont c && isCont d
          then String a (String b (String c (String d (jsonString s4))))
          else runeError (jsonString s1)
        end
      end
    end
  end.

(** The years time.Time.MarshalJSON accepts, in nanoseconds since year 1. *)
Definition jsonTime (t : Time) : bool :=
  (- (366 * 86400 * Second) <=? t) && (t <? 3652059 * 86400 * Second).

Example jsonString_accent :
  jsonString (String (ascii_of_nat 195) (String (ascii_of_nat 169) "")) =
  String (ascii_of_nat 195) (String (ascii_of_nat 169) "").
Proof. vm_compute. reflexivity. Qed.
Example jsonString_bad : jsonString (String (ascii_of_nat 255) "a") = runeError "a".
Proof. vm_compute. reflexivity. Qed.
Example jsonTime_epoch :
  (jsonTime 0 && jsonTime (3652059 * 86400 * Second - 1) && negb (jsonTime (3652059 * 86400 * Second)))
  = true.
Proof. vm_compute. reflexivity. Qed.

Lemma jsonString_runeError s : jsonString (runeError s) = runeError (jsonString s).
Proof. reflexivity. Qed.

Lemma jsonString_ascii s : isASCII s = true -> jsonString s = s.
Proof.
  induction s as [|a s IH]; simpl; [done|]. intros [A B]%andb_true_iff.
  unfold isASCIIc in A. apply Nat.ltb_lt in A. unfold inRange.
  destruct (Z.leb_spec 0 (Z.of_nat (nat_of_ascii a))); [|lia].
  destruct (Z.leb_spec (Z.of_nat (nat_of_ascii a)) 127); [|lia]. simpl. by rewrite IH.
Qed.

(** Marshalling what was unmarshalled changes nothing more. *)
Lemma jsonString_idem s : jsonString (jsonString s) = jsonString s.
Proof.
  remember (String.length s) as n eqn:E. assert (String.length s <= n)%nat as L by lia. clear E.
  revert s L. induction n as [|n IH]; intros [|a s1] L; simpl in L; try lia; [done..|].
  assert (forall t, (String.length t <= String.length s1)%nat ->
            jsonString (jsonString t) = jsonString t) as IH' by (intros; apply IH; lia).
  assert (jsonString (runeError (jsonString s1)) = runeError (jsonString s1)) as Bad
    by (rewrite jsonString_runeError, IH'; done).
  simpl. destruct (inRange 0 127 a) eqn:A; [simpl; rewrite A, IH'; done|].
  destruct s1 as [|b s2]; [done|].
  destruct (lead2 a b) eqn:B2; [simpl; rewrite A, B2, IH' by (simpl; lia); done|].
  destruct s2 as [|c s3]; [exact Bad|].
  destruct (lead3 a b && isCont c) eqn:B3; [simpl; rewrite A, B2, B3, IH' by (simpl; lia); done|].
  destruct s3 as [|d s4]; [exact Bad|].
  destruct (lead4 a b && isCont c && isCont d) eqn:B4; [|exact Bad].
  simpl. rewrite A, B2, B3, B4, IH' by (simpl; lia). done.
Qed.
