(* ===== verification/TaskStore.v ===== *)
(** * Task queue: tasks and their stores (internal/taskqueue)

    The task record with its constructor and options (task.go), the order in
    which tasks are served, the interface [Store] as a class, and its two
    implementations: [MemoryStore] (store.go) on a Go map and [BoltStore]
    (bolt_store.go) on a bucket.  A value is stored as its JSON, so what is
    read back is [json_task] of what was written. *)

From S2P Require Import Prelude GoStrings GoJson Bolt.
From Stdlib Require Import Ascii String.
From stdpp Require Import base list.

#[local] Open Scope Z_scope.

(** ** Tasks *)

Definition Status := string.
Definition StatusPending : Status := "pending".
Definition StatusProcessing : Status := "processing".
Definition StatusCompleted : Status := "completed".
Definition StatusFailed : Status := "failed".
Definition StatusDeadLetter : Status := "dead_letter".

Record Task := mkTask {
  t_ID : string;
  t_Kind : string;
  t_Payload : bytes;
  t_Priority : Z;
  t_Status : Status;
  t_Attempts : Z;
  t_MaxAttempts : Z;
  t_CreatedAt : Time;
  t_UpdatedAt : Time;
  t_Deadline : Time;
  t_Error : string
}.

Definition with_Priority p (t : Task) :=
  mkTask (t_ID t) (t_Kind t) (t_Payload t) p (t_Status t) (t_Attempts t) (t_MaxAttempts t)
    (t_CreatedAt t) (t_UpdatedAt t) (t_Deadline t) (t_Error t).
Definition with_Status x (t : Task) :=
  mkTask (t_ID t) (t_Kind t) (t_Payload t) (t_Priority t) x (t_Attempts t) (t_MaxAttempts t)
    (t_CreatedAt t) (t_UpdatedAt t) (t_Deadline t) (t_Error t).
Definition with_Attempts x (t : Task) :=
  mkTask (t_ID t) (t_Kind t) (t_Payload t) (t_Priority t) (t_Status t) x (t_MaxAttempts t)
    (t_CreatedAt t) (t_UpdatedAt t) (t_Deadline t) (t_Error t).
Definition with_MaxAttempts x (t : Task) :=
  mkTask (t_ID t) (t_Kind t) (t_Payload t) (t_Priority t) (t_Status t) (t_Attempts t) x
    (t_CreatedAt t) (t_UpdatedAt t) (t_Deadline t) (t_Error t).
Definition with_UpdatedAt x (t : Task) :=
  mkTask (t_ID t) (t_Kind t) (t_Payload t) (t_Priority t) (t_Status t) (t_Attempts t)
    (t_MaxAttempts t) (t_CreatedAt t) x (t_Deadline t) (t_Error t).
Definition with_Deadline x (t : Task) :=
  mkTask (t_ID t) (t_Kind t) (t_Payload t) (t_Priority t) (t_Status t) (t_Attempts t)
    (t_MaxAttempts t) (t_CreatedAt t) (t_UpdatedAt t) x (t_Error t).
Definition with_Error x (t : Task) :=
  mkTask (t_ID t) (t_Kind t) (t_Payload t) (t_Priority t) (t_Status t) (t_Attempts t)
    (t_MaxAttempts t) (t_CreatedAt t) (t_UpdatedAt t) (t_Deadline t) x.

Definition is_status (x : Status) (t : Task) : bool := bool_decide (t_Status t = x).

(** [Validate] also raises a MaxAttempts that is not positive to 1. *)
Definition Validate (t : Task) : Task * res unit :=
  if bool_decide (t_ID t = ""%string) then (t, Err "task id is required")
  else if bool_decide (t_Kind t = ""%string) then (t, Err "task kind is required")
  else ((if t_MaxAttempts t <=? 0 then with_MaxAttempts 1 t else t), Ok tt).

Definition IsExpired (now : Time) (t : Task) : bool :=
  negb (IsZero (t_Deadline t)) && After now (t_Deadline t).

(** Options; [WithDeadlineAfter] reads the clock when it is applied. *)
Definition WithRetry (n : Z) (t : Task) : Task := if 0 <? n then with_MaxAttempts n t else t.
Definition WithDeadline (deadline : Time) (t : Task) : Task := with_Deadline deadline t.
Definition WithDeadlineAfter (d : Duration) (now : Time) (t : Task) : Task :=
  with_Deadline (Prelude.Add now d) t.
Definition WithPriority (p : Z) (t : Task) : Task := with_Priority p t.

(** [NewTask]: [data] is what [json.Marshal] makes of the payload, [id] the
    fresh UUID. *)
Definition NewTask (kind : string) (data : res bytes) (id : string) (now : Time)
    (opts : list (Task -> Task)) : res Task :=
  data ← wrapErr "failed to marshal task payload" data;
  let t := mkTask id kind data 0 StatusPending 0 3 now now 0 "" in
  let t := fold_left (fun t opt => opt t) opts t in
  match Validate t with
  | (t, Ok _) => Ok t
  | (_, Err e) => Err e
  | (_, Panic w) => Panic w
  end.

(** ** JSON *)

Definition json_task (t : Task) : Task :=
  mkTask (jsonString (t_ID t)) (jsonString (t_Kind t)) (t_Payload t) (t_Priority t)
    (jsonString (t_Status t)) (t_Attempts t) (t_MaxAttempts t)
    (t_CreatedAt t) (t_UpdatedAt t) (t_Deadline t) (jsonString (t_Error t)).

Definition jsonTimes (t : Task) : bool :=
  jsonTime (t_CreatedAt t) && jsonTime (t_UpdatedAt t) && jsonTime (t_Deadline t).

(** [json.Marshal] of a task, as the value that [json.Unmarshal] reads. *)
Definition Marshal (t : Task) : res Task :=
  if jsonTimes t then Ok (json_task t)
  else Err "json: error calling MarshalJSON for type time.Time".

Definition zeroTask : Task := mkTask "" "" [] 0 "" 0 0 0 0 0 "".

Definition cloneTask (t : Task) : Task :=
  match Marshal t with Ok t => t | _ => zeroTask end.

(** ** The order of service *)

(** [result[i]] must give way to [result[j]]. *)
Definition outranked (x y : Task) : bool :=
  (t_Priority x <? t_Priority y) ||
  ((t_Priority x =? t_Priority y) && After (t_CreatedAt x) (t_CreatedAt y)).

(** The inner loop: [x] is [result[i]], [l] the elements after it. *)
Fixpoint exchange (x : Task) (l : list Task) : Task * list Task :=
  match l with
  | [] => (x, [])
  | y :: l =>
    let '(x, y) := if outranked x y then (y, x) else (x, y) in
    let '(best, l) := exchange x l in
    (best, y :: l)
  end.

(** The outer loop over the [n] positions that are left. *)
Fixpoint sortLoop (n : nat) (l : list Task) : list Task :=
  match n, l with
  | S n, x :: l => let '(best, l) := exchange x l in best :: sortLoop n l
  | _, _ => l
  end.
Definition sortTasks (l : list Task) : list Task := sortLoop (length l) l.

(** [if limit > 0 && len(l) > limit { l = l[:limit] }] *)
Definition cutTo (limit : Z) (l : list Task) : list Task :=
  if (0 <? limit) && (limit <? Z.of_nat (length l)) then take (Z.to_nat limit) l else l.

(** ** The interface

    [order] lists the keys in the order in which a range over the Go map
    visits them; [now] is the clock. *)

Class Store (S : Type) := {
  Put : Time -> Task -> S -> S * res unit;
  GetPending : list string -> Z -> S -> res (list Task);
  ClaimPending : list string -> Time -> Z -> S -> S * res (list Task);
  RecoverProcessing : Time -> S -> S * res unit;
  GetByID : string -> S -> res Task;
  Update : Time -> Task -> S -> S * res unit;
  Delete : string -> S -> S * res unit;
  ListDeadLetter : list string -> Z -> S -> res (list Task);
  CloseStore : S -> S * res unit
}.

Definition ErrTaskNotFound : string := "task not found".
Definition ErrStoreClosed : string := "task store is closed".

(** What claiming and recovering write into a record. *)
Definition claimed (now : Time) (t : Task) : Task :=
  with_UpdatedAt now (with_Attempts (wrap64 (t_Attempts t + 1)) (with_Status StatusProcessing t)).
Definition recovered (now : Time) (t : Task) : Task :=
  with_UpdatedAt now (with_Status StatusPending t).

(** ** The store in memory *)

Record MemoryStore := mkMem { ms_tasks : gmap string Task; ms_closed : bool }.
Definition NewMemoryStore : MemoryStore := mkMem ∅ false.

Definition checkOpen (s : MemoryStore) : res unit :=
  if ms_closed s then Err ErrStoreClosed else Ok tt.

Definition guarded {A} (s : MemoryStore) (k : MemoryStore * res A) : MemoryStore * res A :=
  match checkOpen s with
  | Ok _ => k
  | Err e => (s, Err e)
  | Panic w => (s, Panic w)
  end.

Definition mem_Put (now : Time) (t : Task) (s : MemoryStore) : MemoryStore * res unit :=
  guarded s (mkMem (<[t_ID t := with_UpdatedAt now (cloneTask t)]> (ms_tasks s)) (ms_closed s), Ok tt).

(** Clones of the tasks with a status, sorted and cut. *)
Definition mem_select (x : Status) (order : list string) (limit : Z) (m : gmap string Task)
  : list Task :=
  cutTo limit (sortTasks (cloneTask <$> List.filter (is_status x) (omap (m !!.) order))).

Definition mem_GetPending (order : list string) (limit : Z) (s : MemoryStore) : res (list Task) :=
  _ ← checkOpen s; Ok (mem_select StatusPending order limit (ms_tasks s)).

Fixpoint mem_claim (now : Time) (l : list Task) (m : gmap string Task)
  : gmap string Task * res (list Task) :=
  match l with
  | [] => (m, Ok [])
  | t :: l =>
    match m !! t_ID t with
    | None => (m, Panic "nil pointer dereference")
    | Some stored =>
      let stored := claimed now stored in
      let '(m, r) := mem_claim now l (<[t_ID t := stored]> m) in
      (m, cons (cloneTask stored) <$> r)
    end
  end.

Definition mem_ClaimPending (order : list string) (now : Time) (limit : Z) (s : MemoryStore)
  : MemoryStore * res (list Task) :=
  guarded s (
    let pending := mem_select StatusPending order limit (ms_tasks s) in
    let '(m, r) := mem_claim now pending (ms_tasks s) in
    (mkMem m (ms_closed s), r)).

Definition mem_RecoverProcessing (now : Time) (s : MemoryStore) : MemoryStore * res unit :=
  guarded s (mkMem ((fun t => if is_status StatusProcessing t then recovered now t else t)
                      <$> ms_tasks s) (ms_closed s), Ok tt).

Definition mem_GetByID (id : string) (s : MemoryStore) : res Task :=
  _ ← checkOpen s;
  match ms_tasks s !! id with Some t => Ok (cloneTask t) | None => Err ErrTaskNotFound end.

Definition mem_Update (now : Time) (t : Task) (s : MemoryStore) : MemoryStore * res unit :=
  guarded s (
    match ms_tasks s !! t_ID t with
    | None => (s, Err ErrTaskNotFound)
    | Some _ =>
      (mkMem (<[t_ID t := with_UpdatedAt now (cloneTask t)]> (ms_tasks s)) (ms_closed s), Ok tt)
    end).

Definition mem_Delete (id : string) (s : MemoryStore) : MemoryStore * res unit :=
  guarded s (mkMem (delete id (ms_tasks s)) (ms_closed s), Ok tt).

Definition mem_ListDeadLetter (order : list string) (limit : Z) (s : MemoryStore)
  : res (list Task) :=
  _ ← checkOpen s; Ok (mem_select StatusDeadLetter order limit (ms_tasks s)).

Definition mem_Close (s : MemoryStore) : MemoryStore * res unit :=
  (mkMem (ms_tasks s) true, Ok tt).

#[global] Instance MemoryStore_Store : Store MemoryStore := {|
  Put := mem_Put;
  GetPending := mem_GetPending;
  ClaimPending := mem_ClaimPending;
  RecoverProcessing := mem_RecoverProcessing;
  GetByID := mem_GetByID;
  Update := mem_Update;
  Delete := mem_Delete;
  ListDeadLetter := mem_ListDeadLetter;
  CloseStore := mem_Close
|}.

(** ** The store on disk

    Of bbolt's database handle the store uses [Close] and that transactions
    on a closed database fail. *)

Class BoltDB := {
  ErrDatabaseNotOpen : string;
  dbClose : res unit
}.

Record BoltStore `{Bolt} := mkBoltStore { bs_tasks : bucket Task; bs_open : bool }.

Section BoltStore.
Context `{Bolt, BoltDB}.

(** A transaction: the bucket is kept when it fails. *)
Definition dbUpdate {A} (f : bucket Task -> res (bucket Task * A)) (s : BoltStore)
  : BoltStore * res A :=
  if bs_open s then
    match f (bs_tasks s) with
    | Ok (b, a) => (mkBoltStore _ b (bs_open s), Ok a)
    | Err e => (s, Err e)
    | Panic w => (s, Panic w)
    end
  else (s, Err ErrDatabaseNotOpen).
Definition dbView {A} (f : bucket Task -> res A) (s : BoltStore) : res A :=
  if bs_open s then f (bs_tasks s) else Err ErrDatabaseNotOpen.

Definition bolt_Put (now : Time) (t : Task) (s : BoltStore) : BoltStore * res unit :=
  match wrapErr "failed to marshal task" (Marshal t) with
  | Ok data => dbUpdate (fun b => b ← bPut b (t_ID t) data; Ok (b, tt)) s
  | Err e => (s, Err e)
  | Panic w => (s, Panic w)
  end.

Definition bolt_scan (x : Status) (b : bucket Task) : list Task :=
  List.filter (is_status x) (bForEach b).*2.

Definition bolt_GetPending (order : list string) (limit : Z) (s : BoltStore) : res (list Task) :=
  pending ← dbView (fun b => Ok (bolt_scan StatusPending b)) s;
  Ok (cutTo limit (sortTasks pending)).

(** Write each task back under its ID. *)
Fixpoint bolt_writeAll (ctx : string) (l : list Task) (b : bucket Task) : res (bucket Task) :=
  match l with
  | [] => Ok b
  | t :: l =>
    data ← wrapErr ctx (Marshal t);
    b ← bPut b (t_ID t) data;
    bolt_writeAll ctx l b
  end.

Definition bolt_ClaimPending (order : list string) (now : Time) (limit : Z) (s : BoltStore)
  : BoltStore * res (list Task) :=
  dbUpdate (fun b =>
    let pending := cutTo limit (sortTasks (bolt_scan StatusPending b)) in
    let pending := claimed now <$> pending in
    b ← bolt_writeAll "failed to marshal claimed task" pending b;
    Ok (b, pending)) s.

Definition bolt_RecoverProcessing (now : Time) (s : BoltStore) : BoltStore * res unit :=
  dbUpdate (fun b =>
    let processing := recovered now <$> bolt_scan StatusProcessing b in
    b ← bolt_writeAll "failed to marshal recovered task" processing b;
    Ok (b, tt)) s.

Definition bolt_GetByID (id : string) (s : BoltStore) : res Task :=
  dbView (fun b => match bGet b id with Some t => Ok t | None => Err ErrTaskNotFound end) s.

Definition bolt_Update (now : Time) (t : Task) (s : BoltStore) : BoltStore * res unit :=
  match wrapErr "failed to marshal task" (Marshal t) with
  | Ok data =>
    dbUpdate (fun b =>
      match bGet b (t_ID t) with
      | None => Err ErrTaskNotFound
      | Some _ => b ← bPut b (t_ID t) data; Ok (b, tt)
      end) s
  | Err e => (s, Err e)
  | Panic w => (s, Panic w)
  end.

Definition bolt_Delete (id : string) (s : BoltStore) : BoltStore * res unit :=
  dbUpdate (fun b => b ← bDelete b id; Ok (b, tt)) s.

Definition bolt_ListDeadLetter (order : list string) (limit : Z) (s : BoltStore)
  : res (list Task) :=
  dead ← dbView (fun b => Ok (bolt_scan StatusDeadLetter b)) s;
  Ok (cutTo limit (sortTasks dead)).

Definition bolt_Close (s : BoltStore) : BoltStore * res unit :=
  (mkBoltStore _ (bs_tasks s) false, dbClose).

#[global] Instance BoltStore_Store : Store BoltStore := {|
  Put := bolt_Put;
  GetPending := bolt_GetPending;
  ClaimPending := bolt_ClaimPending;
  RecoverProcessing := bolt_RecoverProcessing;
  GetByID := bolt_GetByID;
  Update := bolt_Update;
  Delete := bolt_Delete;
  ListDeadLetter := bolt_ListDeadLetter;
  CloseStore := bolt_Close
|}.
End BoltStore.
