(* ===== verification/TaskQueue.v ===== *)
(** * Task queue: scheduling (internal/taskqueue/queue.go)

    [Queue] over any [Store].  [processOne] is the composition of the parts
    that other workers may interleave with: claiming a task ([pollTask]),
    looking at deadline and handler ([triage]), running the handler
    ([runHandler]), and writing the outcome ([settle]).  The clock, the order
    of map iteration and the number of the handler call are arguments. *)

From S2P Require Import Prelude GoStrings GoJson Bolt TaskStore.
From Stdlib Require Import Ascii String.
From stdpp Require Import base list.

#[local] Open Scope Z_scope.

(** A handler gets a pointer to the claimed copy of the task and may change
    it; what it does can differ from call to call. *)
Definition Handler := nat -> Task -> Task * res unit.

Record queueMetrics := mkMetrics {
  submitted : Z;
  completed : Z;
  failed : Z;
  retried : Z;
  deadLettered : Z
}.

Inductive metric := MSubmitted | MCompleted | MFailed | MRetried | MDeadLettered.

(** [metrics.x.Add(1)] *)
Definition count (x : metric) (m : queueMetrics) : queueMetrics :=
  let 'mkMetrics a b c d e := m in
  match x with
  | MSubmitted => mkMetrics (wrap64 (a + 1)) b c d e
  | MCompleted => mkMetrics a (wrap64 (b + 1)) c d e
  | MFailed => mkMetrics a b (wrap64 (c + 1)) d e
  | MRetried => mkMetrics a b c (wrap64 (d + 1)) e
  | MDeadLettered => mkMetrics a b c d (wrap64 (e + 1))
  end.

Record Queue (S : Type) := mkQueue {
  q_store : S;
  q_handlers : gmap string Handler;
  q_workers : Z;
  q_pollInterval : Duration;
  q_retryBase : Duration;
  q_maxRetryDelay : Duration;
  q_started : bool;
  q_stopClosed : bool;        (** [stopCh] is closed *)
  q_metrics : queueMetrics
}.
Arguments mkQueue {S}.
Arguments q_store {S}.
Arguments q_handlers {S}.
Arguments q_workers {S}.
Arguments q_pollInterval {S}.
Arguments q_retryBase {S}.
Arguments q_maxRetryDelay {S}.
Arguments q_started {S}.
Arguments q_stopClosed {S}.
Arguments q_metrics {S}.

Section Queue.
Context {S : Type} `{Store S} `{GoQuote}.
Notation Queue := (Queue S).

Definition set_store (s : S) (q : Queue) : Queue :=
  mkQueue s (q_handlers q) (q_workers q) (q_pollInterval q) (q_retryBase q) (q_maxRetryDelay q)
    (q_started q) (q_stopClosed q) (q_metrics q).
Definition set_metrics (m : queueMetrics) (q : Queue) : Queue :=
  mkQueue (q_store q) (q_handlers q) (q_workers q) (q_pollInterval q) (q_retryBase q)
    (q_maxRetryDelay q) (q_started q) (q_stopClosed q) m.
Definition set_run (started stopClosed : bool) (q : Queue) : Queue :=
  mkQueue (q_store q) (q_handlers q) (q_workers q) (q_pollInterval q) (q_retryBase q)
    (q_maxRetryDelay q) started stopClosed (q_metrics q).

Definition NewQueue (store : S) (workers : Z) (opts : list (Queue -> Queue)) : Queue :=
  let workers := if workers <=? 0 then 1 else workers in
  let q := mkQueue store ∅ workers (500 * Millisecond) (1 * Second) (5 * Minute) false false
             (mkMetrics 0 0 0 0 0) in
  fold_left (fun q opt => opt q) opts q.

Definition WithPollInterval (d : Duration) (q : Queue) : Queue :=
  if 0 <? d then
    mkQueue (q_store q) (q_handlers q) (q_workers q) d (q_retryBase q) (q_maxRetryDelay q)
      (q_started q) (q_stopClosed q) (q_metrics q)
  else q.
Definition WithRetryBase (d : Duration) (q : Queue) : Queue :=
  if 0 <? d then
    mkQueue (q_store q) (q_handlers q) (q_workers q) (q_pollInterval q) d (q_maxRetryDelay q)
      (q_started q) (q_stopClosed q) (q_metrics q)
  else q.
Definition WithMaxRetryDelay (d : Duration) (q : Queue) : Queue :=
  if 0 <? d then
    mkQueue (q_store q) (q_handlers q) (q_workers q) (q_pollInterval q) (q_retryBase q) d
      (q_started q) (q_stopClosed q) (q_metrics q)
  else q.

Definition RegisterHandler (kind : string) (h : Handler) (q : Queue) : Queue :=
  mkQueue (q_store q) (<[kind := h]> (q_handlers q)) (q_workers q) (q_pollInterval q)
    (q_retryBase q) (q_maxRetryDelay q) (q_started q) (q_stopClosed q) (q_metrics q).

Definition Submit (now : Time) (t : Task) (q : Queue) : Queue * res unit :=
  match Validate t with
  | (t, Ok _) =>
    match Put now t (q_store q) with
    | (s, Ok _) => (set_metrics (count MSubmitted (q_metrics q)) (set_store s q), Ok tt)
    | (s, r) => (set_store s q, wrapErr "failed to persist task" r)
    end
  | (_, r) => (q, r)
  end.

(** [Start]; the result is the number of workers it launches. *)
Definition Start (now : Time) (q : Queue) : Queue * Z :=
  if q_started q then (q, 0)
  else
    let '(s, _) := RecoverProcessing now (q_store q) in
    (set_run true (q_stopClosed q) (set_store s q), q_workers q).

(** [Stop]: [drained] tells whether the workers end before the context
    does, whose error is [ctxErr]. *)
Definition Stop (drained : bool) (ctxErr : string) (q : Queue) : Queue * res unit :=
  if q_started q then
    let q := set_run false (q_stopClosed q) q in
    if q_stopClosed q then (q, Panic "close of closed channel")
    else
      let q := set_run false true q in
      if drained then
        let '(s, r) := CloseStore (q_store q) in
        (set_store s q, wrapErr "failed to close task store" r)
      else (q, Err ctxErr)
  else (q, Ok tt).

(** [1<<n] as a Duration: zero once the bit leaves the word. *)
Definition shl1 (n : Z) : Z := wrap64 (Z.shiftl 1 n).
Definition retryDelay (attempt : Z) (q : Queue) : Duration :=
  let attempt := if attempt <=? 0 then 1 else attempt in
  let delay := wrap64 (q_retryBase q * shl1 (attempt - 1)) in
  if q_maxRetryDelay q <? delay then q_maxRetryDelay q else delay.

Definition runHandler (h : Handler) (call : nat) (t : Task) : Task * res unit :=
  match h call t with
  | (t, Panic w) => (t, Err ("task handler panicked: " +:+ w))
  | x => x
  end.

(** ** [processOne] in parts *)

Definition pollTask (order : list string) (now : Time) (q : Queue) : Queue * res (option Task) :=
  match ClaimPending order now 1 (q_store q) with
  | (s, Ok l) => (set_store s q, Ok (head l))
  | (s, Err _) => (set_store s q, Ok None)
  | (s, Panic w) => (set_store s q, Panic w)
  end.

(** A failing [Update] is only logged. *)
Definition updateTask (now : Time) (t : Task) (q : Queue) : Queue :=
  set_store (Update now t (q_store q)).1 q.

Definition deadLetter (now : Time) (why : string) (t : Task) (q : Queue) : Queue :=
  let q := updateTask now (with_Error why (with_Status StatusDeadLetter t)) q in
  set_metrics (count MDeadLettered (q_metrics q)) q.

(** The task is expired or has no handler: it is dead-lettered; otherwise
    the handler to run.  [tnow] is the clock of the deadline check. *)
Definition triage (tnow now : Time) (t : Task) (q : Queue) : Queue + Handler :=
  if IsExpired tnow t then
    inl (deadLetter now "deadline exceeded" (with_Attempts (wrap64 (t_Attempts t + 1)) t) q)
  else
    match q_handlers q !! t_Kind t with
    | None => inl (deadLetter now ("no handler registered for kind " +:+ Quote (t_Kind t)) t q)
    | Some h => inr h
    end.

(** Write the outcome; the result is the time the worker then waits. *)
Definition settle (now : Time) (t : Task) (r : res unit) (q : Queue) : Queue * Duration :=
  match r with
  | Ok _ =>
    let t := with_Error "" (with_Status StatusCompleted t) in
    let '(s, del) := TaskStore.Delete (t_ID t) (q_store q) in
    let q := set_store s q in
    let q :=
      match del with
      | Ok _ => q
      | Err e | Panic e => updateTask now (with_Error ("completed but cleanup failed: " +:+ e) t) q
      end in
    (set_metrics (count MCompleted (q_metrics q)) q, 0)
  | Err e | Panic e =>
    let q := set_metrics (count MFailed (q_metrics q)) q in
    if t_MaxAttempts t <=? t_Attempts t then (deadLetter now e t q, 0)
    else
      let q := updateTask now (with_Error e (with_Status StatusPending t)) q in
      let q := set_metrics (count MRetried (q_metrics q)) q in
      (q, retryDelay (t_Attempts t) q)
  end.

Record Env := mkEnv {
  e_order : list string;     (** map iteration order in [ClaimPending] *)
  e_claim : Time;            (** the clock in [ClaimPending] *)
  e_check : Time;            (** in [IsExpired] *)
  e_write : Time;            (** in the store's [Update] *)
  e_call : nat               (** number of the handler call *)
}.

(** [processOne]: whether there was a task, and the wait before the next. *)
Definition processOne (e : Env) (q : Queue) : Queue * res (bool * Duration) :=
  match pollTask (e_order e) (e_claim e) q with
  | (q, Ok None) => (q, Ok (false, 0))
  | (q, Ok (Some t)) =>
    match triage (e_check e) (e_write e) t q with
    | inl q => (q, Ok (true, 0))
    | inr h =>
      let '(t, r) := runHandler h (e_call e) t in
      let '(q, wait) := settle (e_write e) t r q in
      (q, Ok (true, wait))
    end
  | (q, Err e) => (q, Err e)
  | (q, Panic w) => (q, Panic w)
  end.

(** One round of the loop in [runWorker]: [None] when the worker exits. *)
Definition workerRound (e : Env) (q : Queue) : option (Queue * res (bool * Duration)) :=
  if q_stopClosed q then None else Some (processOne e q).
End Queue.
