(* ===== verification/TaskQueueProofs.v ===== *)
(** * Task queue: the order of service and the laws of the stores

    [sortTasks] sorts; [StoreLaws] states what the queue may rely on of any
    store, in terms of its contents as a map; both stores satisfy it. *)

From S2P Require Import Prelude GoStrings Bolt GoJson TaskStore TaskQueue.
From Stdlib Require Import Ascii String.
From stdpp Require Import base list.

#[local] Open Scope Z_scope.

(** ** Sorting *)

(** [x] may be served before [y]. *)
Definition ahead (x y : Task) : Prop := outranked x y = false.

Lemma ahead_spec x y : ahead x y <->
  t_Priority y < t_Priority x \/
  (t_Priority x = t_Priority y /\ t_CreatedAt x <= t_CreatedAt y).
Proof.
  unfold ahead, outranked, After. rewrite orb_false_iff, andb_false_iff, Z.ltb_ge, Z.eqb_neq, Z.ltb_ge.
  lia.
Qed.

#[export] Instance ahead_trans : Transitive ahead.
Proof. intros x y z. rewrite !ahead_spec. lia. Qed.

Lemma outranked_ahead x y : outranked x y = true -> ahead y x.
Proof.
  unfold outranked, After. rewrite ahead_spec, orb_true_iff, andb_true_iff, !Z.ltb_lt, Z.eqb_eq. lia.
Qed.

Lemma exchange_spec l : forall x best r, exchange x l = (best, r) ->
  best :: r ≡ₚ x :: l /\ (best = x \/ ahead best x) /\ Forall (ahead best) r.
Proof.
  induction l as [|y l IH]; intros x best r E; simpl in E; [simplify_eq; auto|].
  destruct (outranked x y) eqn:O; destruct (exchange _ l) as [b r'] eqn:E'; simplify_eq;
    destruct (IH _ _ _ E') as (P & B & F).
  - apply outranked_ahead in O as A. repeat split.
    + by rewrite Permutation_swap, P.
    + right. destruct B as [->|B]; [done|by etrans].
    + constructor; [|done]. destruct B as [->|B]; [done|by etrans].
  - repeat split; [|done|].
    + rewrite Permutation_swap, P. apply Permutation_swap.
    + constructor; [|done]. destruct B as [->|B]; [done|by etrans].
Qed.

Lemma sortLoop_spec n l : (length l <= n)%nat ->
  sortLoop n l ≡ₚ l /\ StronglySorted ahead (sortLoop n l).
Proof.
  revert l. induction n as [|n IH]; intros [|x l] L; simpl in *; try lia; [split; constructor..|].
  destruct (exchange x l) as [b r] eqn:E.
  destruct (exchange_spec _ _ _ _ E) as (P & _ & F).
  destruct (IH r) as [P' S']; [apply Permutation_length in P; simpl in P; lia|].
  split; [by rewrite P'|]. constructor; [done|]. by rewrite P'.
Qed.

Lemma sortTasks_perm l : sortTasks l ≡ₚ l.
Proof. by apply sortLoop_spec. Qed.
Lemma sortTasks_ordered l : StronglySorted ahead (sortTasks l).
Proof. by apply sortLoop_spec. Qed.

(** ** What a store keeps *)

Definition clock_ok (t : Time) : Prop := jsonTime t = true.

(** A task that JSON keeps as it is. *)
Definition clean (t : Task) : Prop := json_task t = t /\ jsonTimes t = true.
(** A task whose ID and times JSON keeps. *)
Definition storable (t : Task) : Prop := jsonString (t_ID t) = t_ID t /\ jsonTimes t = true.

Definition wf (m : gmap string Task) : Prop :=
  map_Forall (fun k t => t_ID t = k /\ clean t) m.

(** What becomes of a task that is written: its text through JSON, and the
    store's own time stamp. *)
Definition restamped (t t' : Task) : Prop :=
  exists u, clock_ok u /\ t' = with_UpdatedAt u (json_task t).

Definition pendingOf (m : gmap string Task) : list Task :=
  List.filter (is_status StatusPending) (map_to_list m).*2.

(** The claim takes the first tasks of the order of service: how many, which,
    what is returned and what is stored. *)
Record claims (now : Time) (limit : Z) (m : gmap string Task) (l : list Task)
    (m' : gmap string Task) : Prop := {
  cl_split : exists sel rest,
    sel ++ rest ≡ₚ pendingOf m /\ StronglySorted ahead (sel ++ rest) /\
    l = claimed now <$> sel /\
    (0 < limit -> Z.of_nat (length sel) <= limit) /\
    (rest = [] \/ 0 < limit /\ Z.of_nat (length sel) = limit);
  cl_stored : m' = list_to_map ((fun t => (t_ID t, t)) <$> l) ∪ m
}.

Class StoreLaws (S : Type) `{Store S} := {
  contents : S -> gmap string Task;
  Put_law now t s s' r :
    clock_ok now -> storable t -> Put now t s = (s', r) ->
    if is_ok r then exists t', restamped t t' /\ contents s' = <[t_ID t := t']> (contents s)
    else contents s' = contents s;
  Update_law now t s s' r :
    clock_ok now -> storable t -> Update now t s = (s', r) ->
    if is_ok r then is_Some (contents s !! t_ID t) /\
      exists t', restamped t t' /\ contents s' = <[t_ID t := t']> (contents s)
    else contents s' = contents s;
  Delete_law id s s' r :
    TaskStore.Delete id s = (s', r) ->
    contents s' = if is_ok r then delete id (contents s) else contents s;
  Close_law s : contents (CloseStore s).1 = contents s;
  Recover_law now s s' r :
    clock_ok now -> wf (contents s) -> RecoverProcessing now s = (s', r) ->
    contents s' = if is_ok r
      then (fun t => if is_status StatusProcessing t then recovered now t else t) <$> contents s
      else contents s;
  Claim_law order now limit s s' r :
    clock_ok now -> wf (contents s) -> order ≡ₚ (map_to_list (contents s)).*1 ->
    ClaimPending order now limit s = (s', r) ->
    match r with
    | Ok l => claims now limit (contents s) l (contents s')
    | Err _ => contents s' = contents s
    | Panic _ => False
    end
}.

(** ** JSON and the fields that are written *)

Lemma clean_clone t : clean t -> cloneTask t = t.
Proof. intros [E T]. unfold cloneTask, Marshal. by rewrite T. Qed.

Lemma storable_clone t : storable t -> cloneTask t = json_task t.
Proof. intros [_ T]. unfold cloneTask, Marshal. by rewrite T. Qed.

Lemma clean_marshal t : clean t -> Marshal t = Ok t.
Proof. intros [E T]. unfold Marshal. by rewrite T, E. Qed.

Lemma restamped_clean t t' : storable t -> restamped t t' -> t_ID t' = t_ID t /\ clean t'.
Proof.
  intros [I T] (u & U & ->). split; [exact I|]. split.
  - unfold json_task. simpl. by rewrite !jsonString_idem.
  - unfold jsonTimes in *. simpl. unfold clock_ok in U.
    apply andb_true_iff in T as [[-> _]%andb_true_iff ->]. by rewrite U.
Qed.

Lemma clean_spec t : clean t <->
  jsonString (t_ID t) = t_ID t /\ jsonString (t_Kind t) = t_Kind t /\
  jsonString (t_Status t) = t_Status t /\ jsonString (t_Error t) = t_Error t /\
  jsonTime (t_CreatedAt t) = true /\ jsonTime (t_UpdatedAt t) = true /\
  jsonTime (t_Deadline t) = true.
Proof.
  unfold clean, jsonTimes, json_task. rewrite !andb_true_iff.
  destruct t; simpl. split; [intros [E ?]; injection E; naive_solver|].
  intros (-> & -> & -> & -> & ?). naive_solver.
Qed.

Lemma claimed_clean now t : clock_ok now -> clean t -> clean (claimed now t).
Proof. intros N. rewrite !clean_spec. unfold clock_ok in N. simpl. naive_solver. Qed.

Lemma recovered_clean now t : clock_ok now -> clean t -> clean (recovered now t).
Proof. intros N. rewrite !clean_spec. unfold clock_ok in N. simpl. naive_solver. Qed.

(** ** Selecting the tasks to claim *)

Lemma filter_perm {A} (f : A -> bool) l l' : l ≡ₚ l' -> List.filter f l ≡ₚ List.filter f l'.
Proof.
  induction 1; simpl; repeat case_match_goal; try done; [by constructor|by constructor|by etrans].
Qed.

Lemma filter_sublist {A} (f : A -> bool) (l : list A) : List.filter f l `sublist_of` l.
Proof. induction l as [|x l IH]; simpl; [done|]. destruct (f x); by constructor. Qed.

Lemma elem_of_filter_list {A} (f : A -> bool) (l : list A) x :
  x ∈ List.filter f l <-> x ∈ l /\ f x = true.
Proof. rewrite !list_elem_of_In. apply filter_In. Qed.

Lemma pendingOf_elem m t : t ∈ pendingOf m <->
  (exists k, m !! k = Some t) /\ t_Status t = StatusPending.
Proof.
  unfold pendingOf. rewrite elem_of_filter_list. unfold is_status. rewrite bool_decide_eq_true.
  rewrite list_elem_of_fmap. split; intros [H ?]; (split; [|done]).
  - destruct H as ([k u] & -> & H). exists k. by apply elem_of_map_to_list.
  - destruct H as [k H]. exists (k, t). split; [done|by apply elem_of_map_to_list].
Qed.

Lemma wf_ids m : wf m -> t_ID <$> (map_to_list m).*2 = (map_to_list m).*1.
Proof.
  intros W. rewrite <- list_fmap_compose. apply list_fmap_ext. intros i [k t] E.
  apply list_elem_of_lookup_2, elem_of_map_to_list in E. by apply (W k t).
Qed.

Lemma pendingOf_ids m : wf m -> NoDup (t_ID <$> pendingOf m).
Proof.
  intros W. apply (sublist_NoDup _ (map_to_list m).*1); [apply NoDup_fst_map_to_list|].
  rewrite <- wf_ids by done. unfold pendingOf.
  generalize ((map_to_list m).*2). intros l. induction l as [|x l IH]; simpl; [done|].
  destruct (is_status _ x); simpl; by constructor.
Qed.

Lemma cutTo_split limit l : exists rest, cutTo limit l ++ rest = l /\
  (0 < limit -> Z.of_nat (length (cutTo limit l)) <= limit) /\
  (rest = [] \/ 0 < limit /\ Z.of_nat (length (cutTo limit l)) = limit).
Proof.
  unfold cutTo. destruct (Z.ltb_spec 0 limit), (Z.ltb_spec limit (Z.of_nat (length l))); simpl;
    try (exists []; rewrite app_nil_r; repeat split; auto; lia).
  exists (drop (Z.to_nat limit) l). rewrite take_drop, length_take. split; [done|].
  split; [|right]; lia.
Qed.

(** What the claim of a store has to establish about the tasks selected. *)
Lemma claims_intro now limit m L m' : L ≡ₚ pendingOf m ->
  let sel := cutTo limit (sortTasks L) in
  m' = list_to_map ((fun t => (t_ID t, t)) <$> (claimed now <$> sel)) ∪ m ->
  claims now limit m (claimed now <$> sel) m'.
Proof.
  intros P sel E. split; [|done].
  destruct (cutTo_split limit (sortTasks L)) as (rest & A & B). exists sel, rest.
  unfold sel. rewrite A. split; [by rewrite sortTasks_perm|]. split; [apply sortTasks_ordered|done].
Qed.

(** The selected tasks are in the map under their IDs, each once. *)
Lemma selected_ok limit m L : wf m -> L ≡ₚ pendingOf m ->
  let sel := cutTo limit (sortTasks L) in
  NoDup (t_ID <$> sel) /\ Forall (fun t => m !! t_ID t = Some t /\ clean t) sel.
Proof.
  intros W P sel. destruct (cutTo_split limit (sortTasks L)) as (rest & A & _).
  fold sel in A. assert (sel ++ rest ≡ₚ pendingOf m) as P'.
  { by rewrite A, sortTasks_perm. }
  split.
  - assert (NoDup (t_ID <$> sel ++ rest)) as N by (rewrite P'; by apply pendingOf_ids).
    rewrite fmap_app in N. by apply NoDup_app in N as [N _].
  - rewrite Forall_forall. intros t Ht.
    assert (t ∈ pendingOf m) as Hp by (rewrite <- P'; set_solver).
    apply pendingOf_elem in Hp as [[k Hk] _]. destruct (W k t Hk) as [<- ?]. done.
Qed.

(** Inserting tasks one by one under distinct IDs. *)
Lemma insert_claimed (t : Task) (l : list Task) (m : gmap string Task) : t_ID t ∉ t_ID <$> l ->
  list_to_map ((fun t => (t_ID t, t)) <$> l) ∪ <[t_ID t := t]> m
  = list_to_map ((fun t => (t_ID t, t)) <$> (t :: l)) ∪ m.
Proof.
  intros N. cbn [fmap list_fmap]. rewrite list_to_map_cons. rewrite <- insert_union_r, insert_union_l; [done|].
  apply not_elem_of_list_to_map. rewrite <- list_fmap_compose. exact N.
Qed.

(** ** The store in memory *)

Lemma omap_range {V} (m : gmap string V) order :
  order ≡ₚ (map_to_list m).*1 -> omap (m !!.) order ≡ₚ (map_to_list m).*2.
Proof.
  intros ->. assert (forall l, l ⊆ map_to_list m -> omap (m !!.) l.*1 = l.*2) as H; [|by rewrite H].
  intros l. induction l as [|[k v] l IH]; intros S; [done|]. simpl.
  assert (m !! k = Some v) as E by (apply elem_of_map_to_list, S; set_solver).
  simpl. rewrite E. f_equal. apply IH. set_solver.
Qed.

Lemma mem_select_pending m order limit : wf m -> order ≡ₚ (map_to_list m).*1 ->
  exists L, L ≡ₚ pendingOf m /\ mem_select StatusPending order limit m = cutTo limit (sortTasks L).
Proof.
  intros W O. eexists. split; [|done].
  assert (List.filter (is_status StatusPending) (omap (m !!.) order) ≡ₚ pendingOf m) as P
    by (apply filter_perm, omap_range, O).
  rewrite P. erewrite list_fmap_ext, list_fmap_id; [done|]. intros i t E. simpl.
  apply list_elem_of_lookup_2, pendingOf_elem in E as [[k E] _].
  apply clean_clone. by apply (W k t).
Qed.

Lemma mem_claim_ok now l m : clock_ok now -> NoDup (t_ID <$> l) ->
  Forall (fun t => m !! t_ID t = Some t /\ clean t) l ->
  mem_claim now l m
  = (list_to_map ((fun t => (t_ID t, t)) <$> (claimed now <$> l)) ∪ m, Ok (claimed now <$> l)).
Proof.
  intros C. revert m. induction l as [|t l IH]; intros m N F; simpl; [by rewrite (left_id_L ∅ _)|].
  inversion N as [|? ? N1 N2]; subst. inversion F as [|? ? [E K] F']; subst. rewrite E.
  rewrite IH; [|done|].
  - cbn. rewrite clean_clone by (by apply claimed_clean). f_equal.
    apply (insert_claimed (claimed now t)). rewrite <- list_fmap_compose. exact N1.
  - rewrite Forall_forall in F' |- *. intros u Hu. destruct (F' u Hu). split; [|done].
    rewrite lookup_insert_ne; [done|]. intros Eq. apply N1. simpl in Eq. rewrite Eq.
    by apply list_elem_of_fmap_2.
Qed.

#[export] Program Instance MemoryStore_laws : StoreLaws MemoryStore := {| contents := ms_tasks |}.
Next Obligation.
  intros now t s s' r C S E. simpl in E. unfold mem_Put, guarded, checkOpen in E.
  destruct (ms_closed s); simplify_eq/=; [done|]. eexists. split; [|done].
  exists now. by rewrite storable_clone.
Qed.
Next Obligation.
  intros now t s s' r C S E. simpl in E. unfold mem_Update, guarded, checkOpen in E.
  destruct (ms_closed s); simplify_eq/=; [done|].
  destruct (ms_tasks s !! t_ID t) eqn:L; simplify_eq/=; [|done].
  split; [done|]. eexists. split; [|done]. exists now. by rewrite storable_clone.
Qed.
Next Obligation.
  intros id s s' r E. simpl in E. unfold mem_Delete, guarded, checkOpen in E.
  by destruct (ms_closed s); simplify_eq/=.
Qed.
Next Obligation. done. Qed.
Next Obligation.
  intros now s s' r C W E. simpl in E. unfold mem_RecoverProcessing, guarded, checkOpen in E.
  by destruct (ms_closed s); simplify_eq/=.
Qed.
Next Obligation.
  intros order now limit s s' r C W O E. simpl in E.
  unfold mem_ClaimPending, guarded, checkOpen in E. destruct (ms_closed s); simplify_eq/=; [done|].
  destruct (mem_select_pending _ order limit W O) as (L & P & Sel). rewrite Sel in E.
  destruct (selected_ok limit _ L W P). rewrite mem_claim_ok in E by done. simplify_eq/=.
  by apply claims_intro.
Qed.

(** ** The store on disk *)

Section BoltLawsProof.
Context `{B : Bolt, L : !BoltLaws, D : BoltDB}.

Definition bolt_contents (b : bucket Task) : gmap string Task := list_to_map (bForEach b).

Lemma bolt_lookup b k : bolt_contents b !! k = bGet b k.
Proof.
  apply option_eq. intros t. unfold bolt_contents.
  rewrite <- elem_of_list_to_map by apply bForEach_keys_NoDup. apply bForEach_get.
Qed.

Lemma bolt_contents_put b b' k t : bPut b k t = Ok b' ->
  bolt_contents b' = <[k := t]> (bolt_contents b).
Proof.
  intros P. apply map_eq. intros k'. rewrite bolt_lookup, (bGet_put _ _ _ _ _ _ P).
  case_decide; subst; [by rewrite lookup_insert_eq|].
  by rewrite lookup_insert_ne, bolt_lookup.
Qed.

Lemma bolt_contents_delete b b' k : bDelete b k = Ok b' ->
  bolt_contents b' = delete k (bolt_contents b).
Proof.
  intros P. apply map_eq. intros k'. rewrite bolt_lookup, (bGet_delete _ _ _ _ _ P).
  case_decide; subst; [by rewrite lookup_delete_eq|].
  by rewrite lookup_delete_ne, bolt_lookup.
Qed.

Lemma bolt_scan_pending b : bolt_scan StatusPending b ≡ₚ pendingOf (bolt_contents b).
Proof.
  unfold bolt_scan, pendingOf. apply filter_perm. unfold bolt_contents.
  by rewrite map_to_list_to_map by apply bForEach_keys_NoDup.
Qed.

Lemma bolt_writeAll_ok ctx l b b' : NoDup (t_ID <$> l) -> Forall clean l ->
  bolt_writeAll ctx l b = Ok b' ->
  bolt_contents b' = list_to_map ((fun t => (t_ID t, t)) <$> l) ∪ bolt_contents b.
Proof.
  revert b. induction l as [|t l IH]; intros b N F E; simpl in E; [simplify_eq/=; by rewrite (left_id_L ∅ _)|].
  inversion N as [|? ? N1 N2]; subst. inversion F as [|? ? K F']; subst.
  rewrite clean_marshal in E by done. simpl in E.
  destruct (bPut b (t_ID t) t) as [b1|e|w] eqn:P; simpl in E; try done.
  rewrite (IH _ N2 F' E), (bolt_contents_put _ _ _ _ P). by apply insert_claimed.
Qed.

Lemma bolt_writeAll_nopanic ctx l b w : Forall clean l -> bolt_writeAll ctx l b <> Panic w.
Proof.
  revert b. induction l as [|t l IH]; intros b F; simpl; [done|].
  inversion F as [|? ? K F']; subst. rewrite clean_marshal by done. simpl.
  destruct (bPut b (t_ID t) t) as [b1|e|w'] eqn:P; simpl; [by apply IH|done|].
  by apply bPut_nopanic in P.
Qed.

Lemma dbUpdate_inv {A} (f : bucket Task -> res (bucket Task * A)) s s' r : dbUpdate f s = (s', r) ->
  (exists b a, f (bs_tasks s) = Ok (b, a) /\ bs_tasks s' = b /\ r = Ok a) \/
  (s' = s /\ is_ok r = false /\
   forall w, r = Panic w -> f (bs_tasks s) = Panic w).
Proof.
  unfold dbUpdate. intros E. destruct (bs_open s); [|simplify_eq; right; naive_solver].
  destruct (f (bs_tasks s)) as [[b a]|e|w]; simplify_eq; [left; eauto|right; naive_solver..].
Qed.

Lemma bolt_restamped t : storable t -> restamped t (json_task t).
Proof.
  intros [_ T]. exists (t_UpdatedAt t). unfold jsonTimes in T. unfold clock_ok.
  apply andb_true_iff in T as [[_ ->]%andb_true_iff _]. done.
Qed.

Lemma storable_marshal t : storable t -> Marshal t = Ok (json_task t).
Proof. intros [_ T]. unfold Marshal. by rewrite T. Qed.

(** The processing tasks are each written back once, as pending. *)
Lemma processing_ok m P : wf m -> P ≡ₚ (map_to_list m).*2 ->
  NoDup (t_ID <$> List.filter (is_status StatusProcessing) P) /\
  forall t, t ∈ List.filter (is_status StatusProcessing) P <->
    m !! t_ID t = Some t /\ is_status StatusProcessing t = true.
Proof.
  intros W E. split.
  - apply (sublist_NoDup _ (t_ID <$> P)); [|apply fmap_sublist, filter_sublist].
    rewrite E, wf_ids by done. apply NoDup_fst_map_to_list.
  - intros t. rewrite elem_of_filter_list, E, list_elem_of_fmap. split; intros [M St]; (split; [|done]).
    + destruct M as ([k u] & -> & M). apply elem_of_map_to_list in M. simpl in *.
      by destruct (W _ _ M) as [-> _].
    + exists (t_ID t, t). by rewrite elem_of_map_to_list.
Qed.

Lemma recover_contents now m P : wf m -> P ≡ₚ (map_to_list m).*2 ->
  list_to_map ((fun t => (t_ID t, t)) <$>
    (recovered now <$> List.filter (is_status StatusProcessing) P)) ∪ m
  = (fun t => if is_status StatusProcessing t then recovered now t else t) <$> m.
Proof.
  intros W E. destruct (processing_ok m P W E) as [N F]. apply map_eq. intros k.
  rewrite lookup_fmap, <- list_fmap_compose. set (l := _ <$> List.filter _ _).
  assert (forall t, (k, t) ∈ l <->
    exists u, m !! k = Some u /\ is_status StatusProcessing u = true /\ t = recovered now u) as Hl.
  { intros t. unfold l. rewrite list_elem_of_fmap. setoid_rewrite F. split.
    - intros (u & ? & M & St). simplify_eq/=. eauto.
    - intros (u & M & St & ->). exists u. destruct (W _ _ M) as [<- _]. done. }
  destruct (m !! k) as [u|] eqn:M; simpl;
    [destruct (is_status StatusProcessing u) eqn:St|].
  - apply lookup_union_Some_l, elem_of_list_to_map; [|apply Hl; eauto].
    unfold l. by rewrite <- list_fmap_compose.
  - rewrite lookup_union_r; [done|]. apply not_elem_of_list_to_map. intros I.
    apply list_elem_of_fmap in I as ([k' t] & -> & I). apply Hl in I as (v & Ev & Sv & _). simpl in *. congruence.
  - rewrite lookup_union_r; [done|]. apply not_elem_of_list_to_map. intros I.
    apply list_elem_of_fmap in I as ([k' t] & -> & I). apply Hl in I as (v & Ev & Sv & _). simpl in *. congruence.
Qed.

Lemma bForEach_range b : (bForEach b).*2 ≡ₚ (map_to_list (bolt_contents b)).*2.
Proof. unfold bolt_contents. by rewrite map_to_list_to_map by apply bForEach_keys_NoDup. Qed.

#[export] Program Instance BoltStore_laws : StoreLaws BoltStore :=
  {| contents s := bolt_contents (bs_tasks s) |}.
Next Obligation.
  intros now t s s' r C S E. simpl in E. unfold bolt_Put in E. rewrite storable_marshal in E by done.
  simpl in E. apply dbUpdate_inv in E as [(b & a & F & <- & ->)|(-> & -> & _)]; [|done].
  destruct (bPut _ _ _) eqn:P; simplify_eq/=. exists (json_task t).
  split; [by apply bolt_restamped|by apply bolt_contents_put].
Qed.
Next Obligation.
  intros now t s s' r C S E. simpl in E. unfold bolt_Update in E.
  rewrite storable_marshal in E by done.
  simpl in E. apply dbUpdate_inv in E as [(b & a & F & <- & ->)|(-> & -> & _)]; [|done].
  destruct (bGet _ _) eqn:G; [|done]. destruct (bPut _ _ _) eqn:P; simplify_eq/=.
  rewrite bolt_lookup, G. split; [done|]. exists (json_task t).
  split; [by apply bolt_restamped|by apply bolt_contents_put].
Qed.
Next Obligation.
  intros id s s' r E. simpl in E. unfold bolt_Delete in E.
  apply dbUpdate_inv in E as [(b & a & F & <- & ->)|(-> & -> & _)]; [|done].
  destruct (bDelete _ _) eqn:P; simplify_eq/=. by apply bolt_contents_delete.
Qed.
Next Obligation. done. Qed.
Next Obligation.
  intros now s s' r C W E. simpl in E. unfold bolt_RecoverProcessing in E.
  apply dbUpdate_inv in E as [(b & a & F & <- & ->)|(-> & -> & _)]; [|done].
  destruct (bolt_writeAll _ _ _) as [b'| |] eqn:Wr; simplify_eq/=.
  rewrite <- (recover_contents now _ (bForEach (bs_tasks s)).*2) by (done || apply bForEach_range).
  destruct (processing_ok _ _ W (bForEach_range (bs_tasks s))) as [N K].
  eapply bolt_writeAll_ok; [| |exact Wr].
  - by rewrite <- list_fmap_compose.
  - rewrite Forall_fmap, Forall_forall. intros t [M _]%K. apply recovered_clean; [done|].
    by apply (W _ _ M).
Qed.
Next Obligation.
  intros order now limit s s' r C W O E. simpl in E. unfold bolt_ClaimPending in E.
  pose proof (bolt_scan_pending (bs_tasks s)) as P.
  destruct (selected_ok limit _ _ W P) as [N F].
  set (sel := cutTo limit (sortTasks (bolt_scan StatusPending (bs_tasks s)))) in *.
  assert (Forall clean (claimed now <$> sel)) as K.
  { rewrite Forall_fmap. eapply Forall_impl; [exact F|]. intros t [_ ?]. by apply claimed_clean. }
  apply dbUpdate_inv in E as [(b & a & G & <- & ->)|(-> & NotOk & NP)]; simpl in *; fold sel in G || fold sel in NP.
  - destruct (bolt_writeAll _ _ _) as [b'| |] eqn:Wr; simplify_eq/=.
    apply (claims_intro now limit _ _ _ P). fold sel.
    eapply bolt_writeAll_ok; [|exact K|exact Wr]. by rewrite <- list_fmap_compose.
  - destruct r as [l|e|w]; [done|done|]. specialize (NP w eq_refl).
    destruct (bolt_writeAll _ _ _) eqn:Wr; simplify_eq/=. by apply bolt_writeAll_nopanic in Wr.
Qed.
End BoltLawsProof.

(** ** Task queue: workers under interleaving

    The invariant that ties the store's contents to what the workers hold and
    to the history of handler runs, and that each kind of step keeps it.  The
    lemmas here speak of the contents as a map; the steps of the system are in
    TaskQueueTheorems. *)

(** Where a worker is in [runWorker]. *)
Inductive worker :=
| WPoll                                (** about to claim *)
| WTask (t : Task)                     (** claimed [t] *)
| WDone (t : Task) (r : res unit)      (** the handler has returned *)
| WExit.                               (** left the loop *)

Definition held (w : worker) : option Task :=
  match w with WTask t | WDone t _ => Some t | _ => None end.

(** History: the accepted tasks with their MaxAttempts, the handler runs, the
    tasks whose handler returned nil, and the number of restarts. *)
Record history := mkHistory {
  h_sub : gmap string Z;
  h_log : list string;
  h_ok : gset string;
  h_restarts : Z
}.

Definition runs (id : string) (h : history) : Z :=
  Z.of_nat (length (List.filter (fun x => bool_decide (x = id)) (h_log h))).

Definition MaxRetries : Z := 2 ^ 32.
Definition MaxRestarts : Z := 2 ^ 62.

Record Inv (m : gmap string Task) (ws : list worker) (h : history) : Prop := {
  iv_wf : wf m;
  iv_sub k t : m !! k = Some t -> h_sub h !! k = Some (t_MaxAttempts t);
  iv_max k mx : h_sub h !! k = Some mx -> 1 <= mx <= MaxRetries;
  iv_fresh k : h_sub h !! k = None -> runs k h = 0;
  iv_pending k t : m !! k = Some t -> t_Status t = StatusPending ->
    runs k h <= t_Attempts t < t_MaxAttempts t + h_restarts h;
  iv_processing k t : m !! k = Some t -> t_Status t = StatusProcessing ->
    runs k h <= t_Attempts t <= t_MaxAttempts t + h_restarts h;
  iv_runs k mx : h_sub h !! k = Some mx -> runs k h <= mx + h_restarts h;
  iv_lost k mx : h_sub h !! k = Some mx -> is_Some (m !! k) \/ k ∈ h_ok h;
  iv_held i w t : ws !! i = Some w -> held w = Some t ->
    storable t /\
    exists u, m !! t_ID t = Some u /\ t_Status u = StatusProcessing /\
      t_Attempts u = t_Attempts t /\ t_MaxAttempts u = t_MaxAttempts t;
  iv_claimed i t : ws !! i = Some (WTask t) -> runs (t_ID t) h + 1 <= t_Attempts t;
  iv_done i t : ws !! i = Some (WDone t (Ok tt)) -> t_ID t ∈ h_ok h;
  iv_excl i j w w' t t' : ws !! i = Some w -> ws !! j = Some w' -> held w = Some t ->
    held w' = Some t' -> t_ID t = t_ID t' -> i = j;
  iv_restarts : 0 <= h_restarts h
}.

Lemma runs_nonneg k h : 0 <= runs k h.
Proof. unfold runs. lia. Qed.

Lemma clean_storable t : clean t -> storable t.
Proof. intros [E T]. split; [|done]. by apply (f_equal t_ID) in E. Qed.

Lemma wf_insert m k t : wf m -> t_ID t = k -> clean t -> wf (<[k := t]> m).
Proof. intros W I C. apply map_Forall_insert_2; auto. Qed.

Lemma sub_none m ws h k : Inv m ws h -> h_sub h !! k = None -> m !! k = None.
Proof.
  intros I N. destruct (m !! k) as [t|] eqn:E; [|done]. apply (iv_sub _ _ _ I) in E. congruence.
Qed.

Lemma ws_insert (ws : list worker) i j w w' :
  <[i := w']> ws !! j = Some w -> (j = i /\ w = w') \/ (j <> i /\ ws !! j = Some w).
Proof. intros [[-> [-> ?]]|[? ?]]%list_lookup_insert_Some; auto. Qed.

(** Case analysis on lookups in updated maps and worker lists. *)
Ltac lookups :=
  repeat match goal with
  | H : <[_ := _]> ?m !! _ = Some _ |- _ =>
    first [apply ws_insert in H as [[? ?]|[? ?]] | apply lookup_insert_Some in H as [[? ?]|[? ?]]];
    subst
  end; simplify_eq/=.

Section Steps.
Context (m : gmap string Task) (ws : list worker) (h : history) (I : Inv m ws h).

(** A new task. *)
Lemma inv_submit u : h_sub h !! t_ID u = None -> clean u ->
  t_Status u = StatusPending -> t_Attempts u = 0 -> 1 <= t_MaxAttempts u <= MaxRetries ->
  Inv (<[t_ID u := u]> m) ws
    (mkHistory (<[t_ID u := t_MaxAttempts u]> (h_sub h)) (h_log h) (h_ok h) (h_restarts h)).
Proof.
  intros F C St A M. pose proof (sub_none _ _ _ _ I F) as N.
  pose proof (iv_fresh _ _ _ I _ F) as R0. pose proof (iv_restarts _ _ _ I) as Rs.
  destruct I. split; unfold runs in *; simpl in *.
  - by apply wf_insert.
  - intros k t E. lookups; [by rewrite lookup_insert_eq|]. rewrite lookup_insert_ne by done. eauto.
  - intros k mx E. lookups; eauto.
  - intros k E. apply lookup_insert_None in E as [? ?]. eauto.
  - intros k t E S. lookups; [lia|eauto].
  - intros k t E S. lookups; [|eauto]. rewrite S in St. done.
  - intros k mx E. lookups; [lia|eauto].
  - intros k mx E. lookups; [left; by rewrite lookup_insert_eq|].
    rewrite lookup_insert_ne by done. eauto.
  - intros i w t E Hd. destruct (iv_held0 i w t E Hd) as (S & v & Ev & ?).
    split; [done|]. exists v. rewrite lookup_insert_ne by congruence. auto.
  - eauto.
  - eauto.
  - eauto.
  - done.
Qed.

(** A worker claims a pending task. *)
Lemma inv_claim i t now : clock_ok now -> h_restarts h <= MaxRestarts ->
  m !! t_ID t = Some t -> t_Status t = StatusPending -> ws !! i = Some WPoll ->
  Inv (<[t_ID t := claimed now t]> m) (<[i := WTask (claimed now t)]> ws) h.
Proof.
  intros N B E St Wi. pose proof (iv_pending _ _ _ I _ _ E St) as Pn.
  pose proof (iv_max _ _ _ I _ _ (iv_sub _ _ _ I _ _ E)) as Mx.
  pose proof (runs_nonneg (t_ID t) h) as R0.
  assert (wrap64 (t_Attempts t + 1) = t_Attempts t + 1) as Wr.
  { apply wrap64_id. unfold in_int64, int64_min, int64_max, MaxRetries, MaxRestarts in *. lia. }
  destruct (iv_wf _ _ _ I _ _ E) as [_ C].
  assert (forall j w t', j <> i -> ws !! j = Some w -> held w = Some t' -> t_ID t' <> t_ID t) as Ne.
  { intros j w t' _ Ej Hd Eq. destruct (iv_held _ _ _ I j w t' Ej Hd) as (_ & u & Eu & Su & _).
    rewrite Eq in Eu. simplify_eq. rewrite St in Su. done. }
  destruct I. split; simpl in *; auto.
  - apply wf_insert; [done..|]. by apply claimed_clean.
  - intros k u Eu. lookups; eauto.
  - intros k u Eu Su. lookups; eauto.
  - intros k u Eu Su. lookups; [|eauto]. lia.
  - intros k mx Es. destruct (iv_lost0 k mx Es) as [[u Eu]|]; [left|by right].
    destruct (decide (k = t_ID t)) as [->|]; [by rewrite lookup_insert_eq|].
    by rewrite lookup_insert_ne.
  - intros j w t' Ej Hd. lookups.
    + split; [by apply clean_storable, claimed_clean|]. eexists. by rewrite lookup_insert_eq.
    + destruct (iv_held0 j w t') as (S & u & Eu & ?); [done..|]. split; [done|]. exists u.
      rewrite lookup_insert_ne; [done|]. intros Eq. by eapply (Ne j w t').
  - intros j t' Ej. lookups; [lia|eauto].
  - intros j t' Ej. lookups. eauto.
  - intros j j' w w' t1 t2 E1 E2 H1 H2 Eq. lookups; [done|..|by eapply iv_excl0].
    + exfalso. eapply Ne; eauto.
    + exfalso. eapply Ne; eauto.
Qed.

(** A worker lets go of its task without a change of the store. *)
Lemma inv_release i w0 : held w0 = None -> Inv m (<[i := w0]> ws) h.
Proof.
  intros Hn. destruct I. split; auto.
  - intros j w' t E Hd. lookups. eauto.
  - intros j t E. lookups. eauto.
  - intros j t E. lookups. eauto.
  - intros j j' w1 w2 t1 t2 E1 E2 H1 H2 Eq. lookups. by eapply iv_excl0.
Qed.

(** The handler runs. *)
Lemma inv_run i t t' r : ws !! i = Some (WTask t) -> t_ID t' = t_ID t ->
  t_Attempts t' = t_Attempts t -> t_MaxAttempts t' = t_MaxAttempts t -> jsonTimes t' = true ->
  Inv m (<[i := WDone t' r]> ws)
    (mkHistory (h_sub h) (t_ID t :: h_log h)
       (if is_ok r then {[ t_ID t ]} ∪ h_ok h else h_ok h) (h_restarts h)).
Proof.
  intros Wi Id At Mx T. destruct (iv_held _ _ _ I i _ t Wi eq_refl) as ([S _] & u & Eu & Su & Au & Mu).
  pose proof (iv_claimed _ _ _ I _ _ Wi) as Cl.
  pose proof (iv_processing _ _ _ I _ _ Eu Su) as Pr.
  set (h' := mkHistory _ _ _ _).
  assert (forall k, runs k h' = runs k h + if bool_decide (t_ID t = k) then 1 else 0) as Rn.
  { intros k. unfold runs, h'. simpl. case_bool_decide; simpl length; lia. }
  assert (h_ok h ⊆ h_ok h') as Ok' by (unfold h'; simpl; destruct (is_ok r); set_solver).
  destruct I. split; auto.
  - intros k Ek. rewrite Rn. case_bool_decide as Q; [|rewrite iv_fresh0 by done; lia].
    subst k. apply iv_sub0 in Eu. unfold h' in Ek. simpl in Ek. congruence.
  - intros k v Ev Sv. rewrite Rn. case_bool_decide; [subst; rewrite Eu in Ev; simplify_eq; rewrite Su in Sv; done|].
    rewrite Z.add_0_r. eauto.
  - intros k v Ev Sv. rewrite Rn. case_bool_decide; [subst; rewrite Eu in Ev; simplify_eq; simpl; lia|].
    rewrite Z.add_0_r. eauto.
  - intros k mx Ek. rewrite Rn. case_bool_decide; [|rewrite Z.add_0_r; eauto].
    subst k. apply iv_sub0 in Eu. unfold h' in *. simpl in *. simplify_eq. lia.
  - intros k mx Ek. destruct (iv_lost0 k mx Ek); [by left|right; set_solver].
  - intros j w t1 Ej Hd. lookups; [|by eapply iv_held0]. split; [by split; rewrite ?Id|].
    rewrite Id. exists u. repeat split; congruence.
  - intros j t1 Ej. lookups. rewrite Rn. case_bool_decide as Q; [|rewrite Z.add_0_r; eauto].
    exfalso. match goal with N : j <> i |- _ => apply N end. by eapply (iv_excl0 j i).
  - intros j t1 Ej. lookups; [|eauto]. rewrite Id. set_solver.
  - intros j j' w1 w2 t1 t2 E1 E2 H1 H2 Eq. lookups; [done|..|by eapply iv_excl0].
    + symmetry. eapply iv_excl0; [done..|]. congruence.
    + eapply iv_excl0; [done..|]. congruence.
Qed.

(** A worker writes its task back and lets go of it. *)
Lemma inv_write i w t u : ws !! i = Some w -> held w = Some t ->
  t_ID u = t_ID t -> clean u -> t_MaxAttempts u = t_MaxAttempts t ->
  t_Status u <> StatusProcessing ->
  (t_Status u = StatusPending -> t_Attempts u = t_Attempts t /\ t_Attempts t < t_MaxAttempts t) ->
  Inv (<[t_ID t := u]> m) (<[i := WPoll]> ws) h.
Proof.
  intros Wi Hd Id C Mx NP P. destruct (iv_held _ _ _ I i w t Wi Hd) as (S & v & Ev & Sv & Av & Mv).
  pose proof (iv_processing _ _ _ I _ _ Ev Sv) as Pr.
  assert (forall j w' t', j <> i -> ws !! j = Some w' -> held w' = Some t' -> t_ID t' <> t_ID t) as Ne.
  { intros j w' t' Nj Ej Hd' Eq. by apply Nj, (iv_excl _ _ _ I j i w' w t' t). }
  pose proof (iv_restarts _ _ _ I). destruct I. split; auto.
  - by apply wf_insert.
  - intros k x E. lookups; [|eauto]. rewrite Mx, <- Mv. eauto.
  - intros k x E Sx. lookups; [|eauto]. destruct (P Sx) as [-> ?]. lia.
  - intros k x E Sx. lookups. eauto.
  - intros k mx Es. destruct (iv_lost0 k mx Es) as [[x Ex]|]; [left|by right].
    destruct (decide (k = t_ID t)) as [->|]; [by rewrite lookup_insert_eq|].
    by rewrite lookup_insert_ne.
  - intros j w' t' Ej Hd'. lookups. destruct (iv_held0 j w' t') as (S' & x & Ex & ?); [done..|].
    split; [done|]. exists x. rewrite lookup_insert_ne; [done|]. intros Eq. by eapply (Ne j w' t').
  - intros j t' E. lookups. eauto.
  - intros j t' E. lookups. eauto.
  - intros j j' w1 w2 t1 t2 E1 E2 H1 H2 Eq. lookups. by eapply iv_excl0.
Qed.

(** A worker deletes its task, whose handler has succeeded. *)
Lemma inv_delete i t : ws !! i = Some (WDone t (Ok tt)) ->
  Inv (delete (t_ID t) m) (<[i := WPoll]> ws) h.
Proof.
  intros Wi. pose proof (iv_done _ _ _ I _ _ Wi) as Dn.
  assert (forall j w' t', j <> i -> ws !! j = Some w' -> held w' = Some t' -> t_ID t' <> t_ID t) as Ne.
  { intros j w' t' Nj Ej Hd' Eq. by apply Nj, (iv_excl _ _ _ I j i w' _ t' t Ej Wi Hd' eq_refl). }
  destruct I. split; auto.
  - by apply map_Forall_delete.
  - intros k x [_ E]%lookup_delete_Some. eauto.
  - intros k x [_ E]%lookup_delete_Some. eauto.
  - intros k x [_ E]%lookup_delete_Some. eauto.
  - intros k mx Es. destruct (decide (k = t_ID t)) as [->|]; [by right|].
    rewrite lookup_delete_ne by done. eauto.
  - intros j w' t' Ej Hd'. lookups. destruct (iv_held0 j w' t') as (S' & x & Ex & ?); [done..|].
    split; [done|]. exists x. rewrite lookup_delete_ne; [done|]. intros Eq. by eapply (Ne j w' t').
  - intros j t' E. lookups. eauto.
  - intros j t' E. lookups. eauto.
  - intros j j' w1 w2 t1 t2 E1 E2 H1 H2 Eq. lookups. by eapply iv_excl0.
Qed.
End Steps.

(** A crash and a restart: what was processing is pending again. *)
Lemma inv_restart m ws h now n b : Inv m ws h -> clock_ok now ->
  Inv (if (b : bool)
       then (fun t => if is_status StatusProcessing t then recovered now t else t) <$> m else m)
    (replicate n WPoll) (mkHistory (h_sub h) (h_log h) (h_ok h) (h_restarts h + 1)).
Proof.
  intros I C. assert (forall (P : worker -> Prop), P WPoll ->
    forall i w, replicate n WPoll !! i = Some w -> P w) as Rep.
  { intros P HP i w E. apply lookup_replicate in E as [-> _]. done. }
  set (m' := if b then _ else _).
  assert (forall k t', m' !! k = Some t' -> exists t, m !! k = Some t /\
    (t' = t \/ (t_Status t = StatusProcessing /\ t' = recovered now t))) as Hm.
  { intros k t' E. unfold m' in E. destruct b; [|eauto].
    rewrite lookup_fmap in E. destruct (m !! k) as [t|] eqn:Ek; simplify_eq/=. exists t.
    split; [done|]. unfold is_status. case_bool_decide; auto. }
  assert (forall k, is_Some (m !! k) -> is_Some (m' !! k)) as Hs.
  { intros k [t E]. unfold m'. destruct b; [|eauto]. rewrite lookup_fmap, E. eauto. }
  destruct I. split; unfold runs in *; simpl in *; auto.
  - intros k t' E. destruct (Hm _ _ E) as (t & Et & [->|[_ ->]]); [eauto|].
    destruct (iv_wf0 _ _ Et) as [Q K]. split; [exact Q|by apply recovered_clean].
  - intros k t' E. destruct (Hm _ _ E) as (t & Et & [->|[_ ->]]); [eauto|by apply (iv_sub0 k t)].
  - intros k t' E St. destruct (Hm _ _ E) as (t & Et & [->|[Sp ->]]).
    + specialize (iv_pending0 _ _ Et St). lia.
    + specialize (iv_processing0 _ _ Et Sp). simpl. lia.
  - intros k t' E St. destruct (Hm _ _ E) as (t & Et & [->|[Sp ->]]); [|done].
    specialize (iv_processing0 _ _ Et St). lia.
  - intros k mx E. specialize (iv_runs0 k mx E). lia.
  - intros k mx E. destruct (iv_lost0 k mx E); eauto.
  - intros i w t E Hd. apply (Rep (fun w => held w = None)) in E; [congruence|done].
  - intros i t E. apply lookup_replicate in E as [? _]. done.
  - intros i t E. apply lookup_replicate in E as [? _]. done.
  - intros i j w w' t t' E _ Hd _ _. apply (Rep (fun w => held w = None)) in E; [congruence|done].
  - lia.
Qed.
