(* ===== verification/TaskQueueTheorems.v ===== *)
(** * Task queue: properties

    The system of a queue, its workers and its restarts as a step relation
    over any store that satisfies [StoreLaws]; what its invariant says; the
    order of service; the retry delay. *)

From S2P Require Import Prelude GoStrings GoJson Bolt TaskStore TaskQueue TaskQueueProofs.
From Stdlib Require Import Ascii String.
From stdpp Require Import base list.

#[local] Open Scope Z_scope.

(** The bookkeeping fields, which handlers leave alone. *)
Definition keeps (t t' : Task) : Prop :=
  t_ID t' = t_ID t /\ t_Attempts t' = t_Attempts t /\ t_MaxAttempts t' = t_MaxAttempts t /\
  t_CreatedAt t' = t_CreatedAt t /\ t_UpdatedAt t' = t_UpdatedAt t /\ t_Deadline t' = t_Deadline t.

(** A task as [NewTask] makes it. *)
Definition newlyMade (t : Task) : Prop :=
  storable t /\ t_Status t = StatusPending /\ t_Attempts t = 0 /\ t_MaxAttempts t <= MaxRetries.

Record system (S : Type) := mkSystem {
  sy_q : Queue S;
  sy_ws : list worker;
  sy_h : history
}.
Arguments mkSystem {S}.
Arguments sy_q {S}.
Arguments sy_ws {S}.
Arguments sy_h {S}.

Section System.
Context {S : Type} `{Laws : StoreLaws S} `{GoQuote}.

Definition tasksOf (q : Queue S) : gmap string Task := contents (q_store q).

Inductive qstep : system S -> system S -> Prop :=
| qs_submit q ws h now t q' :
    clock_ok now -> newlyMade t -> h_sub h !! t_ID t = None -> Submit now t q = (q', Ok tt) ->
    qstep (mkSystem q ws h)
      (mkSystem q' ws (mkHistory (<[t_ID t := t_MaxAttempts (Validate t).1]> (h_sub h)) (h_log h)
         (h_ok h) (h_restarts h)))
| qs_refuse q ws h now t q' e :
    clock_ok now -> newlyMade t -> Submit now t q = (q', Err e) ->
    qstep (mkSystem q ws h) (mkSystem q' ws h)
| qs_register q ws h kind hd :
    qstep (mkSystem q ws h) (mkSystem (RegisterHandler kind hd q) ws h)
| qs_poll q ws h i order now q' o :
    ws !! i = Some WPoll -> q_stopClosed q = false -> clock_ok now ->
    order ≡ₚ (map_to_list (tasksOf q)).*1 -> pollTask order now q = (q', Ok o) ->
    qstep (mkSystem q ws h)
      (mkSystem q' (<[i := match o with Some t => WTask t | None => WPoll end]> ws) h)
| qs_dead q ws h i t tnow now q' :
    ws !! i = Some (WTask t) -> clock_ok now -> triage tnow now t q = inl q' ->
    qstep (mkSystem q ws h) (mkSystem q' (<[i := WPoll]> ws) h)
| qs_run q ws h i t tnow now hd call t' r :
    ws !! i = Some (WTask t) -> triage tnow now t q = inr hd ->
    runHandler hd call t = (t', r) -> keeps t t' ->
    qstep (mkSystem q ws h)
      (mkSystem q (<[i := WDone t' r]> ws)
         (mkHistory (h_sub h) (t_ID t :: h_log h)
            (if is_ok r then {[ t_ID t ]} ∪ h_ok h else h_ok h) (h_restarts h)))
| qs_settle q ws h i t r now q' d :
    ws !! i = Some (WDone t r) -> clock_ok now -> settle now t r q = (q', d) ->
    qstep (mkSystem q ws h) (mkSystem q' (<[i := WPoll]> ws) h)
| qs_stop q ws h drained e q' r :
    Stop drained e q = (q', r) -> qstep (mkSystem q ws h) (mkSystem q' ws h)
| qs_exit q ws h i :
    ws !! i = Some WPoll -> q_stopClosed q = true ->
    qstep (mkSystem q ws h) (mkSystem q (<[i := WExit]> ws) h)
| qs_restart q ws h now q0 q' n :       (** the process ends anywhere; a new queue starts on the store *)
    clock_ok now -> q_store q0 = q_store q -> q_started q0 = false ->
    Start now q0 = (q', n) ->
    qstep (mkSystem q ws h)
      (mkSystem q' (replicate (Z.to_nat n) WPoll)
         (mkHistory (h_sub h) (h_log h) (h_ok h) (h_restarts h + 1))).

(** ** Each step keeps the invariant *)

Definition sys_ok (y : system S) : Prop := Inv (tasksOf (sy_q y)) (sy_ws y) (sy_h y).

Lemma claims_one now m l m' : wf m -> claims now 1 m l m' ->
  (l = [] /\ m' = m) \/
  exists t, l = [claimed now t] /\ m !! t_ID t = Some t /\ t_Status t = StatusPending /\
    m' = <[t_ID t := claimed now t]> m.
Proof.
  intros W [(sel & rest & P & _ & -> & Len & _) ->]. specialize (Len ltac:(lia)).
  destruct sel as [|t [|t2 sel]]; simpl in Len; [left|right|lia].
  - split; [done|]. apply (left_id_L ∅ _).
  - exists t. assert (t ∈ pendingOf m) as Hp by (rewrite <- P; set_solver).
    apply pendingOf_elem in Hp as [[k Hk] Hs]. destruct (W k t Hk) as [<- _].
    repeat split; [done|done|].
    change (list_to_map _) with ({[ t_ID t := claimed now t ]} : gmap string Task).
    by rewrite <- insert_union_singleton_l.
Qed.

Lemma poll_ok q ws h i order now q' o : Inv (tasksOf q) ws h -> h_restarts h <= MaxRestarts ->
  ws !! i = Some WPoll -> clock_ok now -> order ≡ₚ (map_to_list (tasksOf q)).*1 ->
  pollTask order now q = (q', Ok o) ->
  Inv (tasksOf q') (<[i := match o with Some t => WTask t | None => WPoll end]> ws) h.
Proof.
  intros I B Wi C O E. unfold pollTask in E. destruct (ClaimPending _ _ _ _) as [s r] eqn:Cl.
  pose proof (Claim_law _ _ _ _ _ _ C (iv_wf _ _ _ I) O Cl) as L.
  destruct r as [l|e|w]; simplify_eq; unfold tasksOf; simpl.
  - apply claims_one in L as [[-> ->]|(t & -> & Et & St & ->)]; [..|apply I]; simpl.
    + by apply inv_release.
    + by apply inv_claim.
  - rewrite L. by apply inv_release.
Qed.

Lemma update_tasks now t q : clock_ok now -> storable t ->
  tasksOf (updateTask now t q) = tasksOf q \/
  exists u, restamped t u /\ tasksOf (updateTask now t q) = <[t_ID t := u]> (tasksOf q).
Proof.
  intros C St. unfold tasksOf, updateTask. simpl.
  destruct (Update now t (q_store q)) as [s r] eqn:E. simpl.
  pose proof (Update_law _ _ _ _ _ C St E) as L. destruct (is_ok r); [|by left].
  destruct L as [_ L]. by right.
Qed.

(** Writing the held task [t] back as [u0], with any outcome of the write. *)
Lemma write_back q ws h i w t u0 now : Inv (tasksOf q) ws h -> clock_ok now ->
  ws !! i = Some w -> held w = Some t -> t_ID u0 = t_ID t -> jsonTimes u0 = true ->
  t_MaxAttempts u0 = t_MaxAttempts t ->
  jsonString (t_Status u0) = t_Status u0 -> t_Status u0 <> StatusProcessing ->
  (t_Status u0 = StatusPending -> t_Attempts u0 = t_Attempts t /\ t_Attempts t < t_MaxAttempts t) ->
  Inv (tasksOf (updateTask now u0 q)) (<[i := WPoll]> ws) h.
Proof.
  intros I C Wi Hd Id T Mx Sj NP P. destruct (iv_held _ _ _ I i w t Wi Hd) as ([Sid _] & _).
  assert (storable u0) as St by (split; [by rewrite Id|done]).
  destruct (update_tasks now u0 q C St) as [->|(u & R & ->)]; [by apply inv_release|].
  destruct (restamped_clean _ _ St R) as [Iu Cu]. destruct R as (x & _ & ->).
  rewrite Id. eapply inv_write; eauto.
  - by rewrite Iu.
  - simpl. by rewrite Sj.
  - simpl. by rewrite Sj.
Qed.

Lemma dead_tasks now why t (q : Queue S) : tasksOf (deadLetter now why t q)
  = tasksOf (updateTask now (with_Error why (with_Status StatusDeadLetter t)) q).
Proof. reflexivity. Qed.

Lemma dead_ok q ws h i w t u0 now why : Inv (tasksOf q) ws h -> clock_ok now ->
  ws !! i = Some w -> held w = Some t -> t_ID u0 = t_ID t -> jsonTimes u0 = true ->
  t_MaxAttempts u0 = t_MaxAttempts t ->
  Inv (tasksOf (deadLetter now why u0 q)) (<[i := WPoll]> ws) h.
Proof. intros I C Wi Hd Id T Mx. rewrite dead_tasks. eapply write_back; eauto; done. Qed.

Lemma triage_ok q ws h i t tnow now q' : Inv (tasksOf q) ws h -> clock_ok now ->
  ws !! i = Some (WTask t) -> triage tnow now t q = inl q' ->
  Inv (tasksOf q') (<[i := WPoll]> ws) h.
Proof.
  intros I C Wi E. destruct (iv_held _ _ _ I i _ t Wi eq_refl) as ([_ T] & _).
  unfold triage in E. destruct (IsExpired tnow t); simplify_eq; [by eapply dead_ok|].
  destruct (q_handlers q !! t_Kind t); simplify_eq. by eapply dead_ok.
Qed.

Lemma settle_ok q ws h i t r now q' d : Inv (tasksOf q) ws h -> clock_ok now ->
  ws !! i = Some (WDone t r) -> settle now t r q = (q', d) ->
  Inv (tasksOf q') (<[i := WPoll]> ws) h.
Proof.
  intros I C Wi E. destruct (iv_held _ _ _ I i _ t Wi eq_refl) as ([_ T] & _).
  assert (forall e, (let q := set_metrics (count MFailed (q_metrics q)) q in
    if t_MaxAttempts t <=? t_Attempts t then (deadLetter now e t q, 0)
    else
      let q := updateTask now (with_Error e (with_Status StatusPending t)) q in
      let q := set_metrics (count MRetried (q_metrics q)) q in
      (q, retryDelay (t_Attempts t) q)) = (q', d) ->
    Inv (tasksOf q') (<[i := WPoll]> ws) h) as Failed.
  { intros e F. cbv zeta in F. destruct (Z.leb_spec (t_MaxAttempts t) (t_Attempts t)); simplify_eq.
    - by eapply dead_ok.
    - unfold tasksOf at 1. simpl. fold (tasksOf (updateTask now
        (with_Error e (with_Status StatusPending t)) (set_metrics (count MFailed (q_metrics q)) q))).
      by eapply write_back. }
  destruct r as [[]|e|e]; [|by apply (Failed e)..].
  unfold settle in E. destruct (TaskStore.Delete _ _) as [s del] eqn:Dl.
  pose proof (Delete_law _ _ _ _ Dl) as L.
  assert (forall e, Inv (tasksOf (updateTask now (with_Error e (with_Error ""
    (with_Status StatusCompleted t))) (set_store s q))) (<[i := WPoll]> ws) h \/ is_ok del = true) as Kept.
  { intros e. destruct (is_ok del); [by right|left].
    apply (write_back (set_store s q) ws h i (WDone t (Ok tt)) t); try done.
    unfold tasksOf. simpl. by rewrite L. }
  destruct del as [[]|e|e]; simplify_eq.
  - unfold tasksOf. simpl. rewrite L. exact (inv_delete _ _ _ I i t Wi).
  - by destruct (Kept ("completed but cleanup failed: " +:+ e)).
  - by destruct (Kept ("completed but cleanup failed: " +:+ e)).
Qed.

Lemma submit_ok q ws h now t q' : Inv (tasksOf q) ws h -> clock_ok now -> newlyMade t ->
  h_sub h !! t_ID t = None -> Submit now t q = (q', Ok tt) ->
  Inv (tasksOf q') ws (mkHistory (<[t_ID t := t_MaxAttempts (Validate t).1]> (h_sub h)) (h_log h)
    (h_ok h) (h_restarts h)).
Proof.
  intros I C ((Sid & T) & St & At & Mx) F E. unfold Submit in E.
  destruct (Validate t) as [t1 r1] eqn:V.
  assert (t_ID t1 = t_ID t /\ storable t1 /\ t_Status t1 = StatusPending /\ t_Attempts t1 = 0 /\
    (is_ok r1 = true -> 1 <= t_MaxAttempts t1 <= MaxRetries)) as (Id & S1 & St1 & At1 & Mx1).
  { unfold Validate in V. repeat case_bool_decide; simplify_eq; [split_and!; done..|].
    destruct (Z.leb_spec (t_MaxAttempts t) 0); split_and!; try done; simpl;
      unfold MaxRetries in *; lia. }
  destruct r1 as [u|e|e]; [|simplify_eq..]. destruct (Put now t1 (q_store q)) as [s r] eqn:P.
  pose proof (Put_law _ _ _ _ _ C S1 P) as L. destruct r; simplify_eq. simpl in L.
  destruct L as (t' & R & L). unfold tasksOf. simpl. rewrite L.
  destruct (restamped_clean _ _ S1 R) as [I' C']. destruct R as (x & _ & ->).
  rewrite <- I'. replace (t_ID t) with (t_ID (with_UpdatedAt x (json_task t1))) by (rewrite I'; done).
  apply (inv_submit _ _ _ I (with_UpdatedAt x (json_task t1))).
  - rewrite I', Id. done.
  - done.
  - simpl. by rewrite St1.
  - done.
  - by apply Mx1.
Qed.

Lemma refuse_tasks q now t q' e : clock_ok now -> newlyMade t ->
  Submit now t q = (q', Err e) -> tasksOf q' = tasksOf q.
Proof.
  intros C ((Sid & T) & _) E. unfold Submit in E. destruct (Validate t) as [t1 r1] eqn:V.
  assert (storable t1) as S1.
  { unfold Validate in V. repeat case_match_goal; simplify_eq; try done.
    all: repeat case_match_hyp V; simplify_eq; done. }
  destruct r1; [|by simplify_eq..]. destruct (Put now t1 (q_store q)) as [s r] eqn:P.
  pose proof (Put_law _ _ _ _ _ C S1 P) as L. by destruct r; simplify_eq.
Qed.

Lemma stop_tasks drained e q q' r : Stop drained e q = (q', r) -> tasksOf q' = tasksOf q.
Proof.
  unfold Stop, tasksOf. intros E. repeat case_match_hyp E; simplify_eq/=; try done.
  pose proof (Close_law (q_store q)) as L. simpl in *.
  match goal with H : CloseStore _ = _ |- _ => by rewrite H in L end.
Qed.

Lemma start_ok q ws h now q0 q' n : Inv (tasksOf q) ws h -> clock_ok now ->
  q_store q0 = q_store q -> q_started q0 = false -> Start now q0 = (q', n) ->
  Inv (tasksOf q') (replicate (Z.to_nat n) WPoll)
    (mkHistory (h_sub h) (h_log h) (h_ok h) (h_restarts h + 1)).
Proof.
  intros I C Es St E. unfold Start in E. rewrite St in E.
  destruct (RecoverProcessing now (q_store q0)) as [s r] eqn:R. simplify_eq. rewrite Es in R.
  pose proof (Recover_law _ _ _ _ C (iv_wf _ _ _ I) R) as L.
  unfold tasksOf. simpl. rewrite L. by apply inv_restart with ws.
Qed.

Lemma qstep_restarts y y' : qstep y y' -> h_restarts (sy_h y) <= h_restarts (sy_h y').
Proof. destruct 1; simpl; lia. Qed.

Lemma qstep_ok y y' : qstep y y' -> h_restarts (sy_h y) <= MaxRestarts -> sys_ok y -> sys_ok y'.
Proof.
  unfold sys_ok. destruct 1; simpl; intros B I.
  - by eapply submit_ok.
  - erewrite refuse_tasks; eauto.
  - exact I.
  - by eapply poll_ok.
  - by eapply triage_ok.
  - match goal with K : keeps _ _ |- _ => destruct K as (Id & At & Mx & Cr & Up & Dl) end.
    apply inv_run; try done. match goal with W : ws !! i = _ |- _ =>
      destruct (iv_held _ _ _ I i _ t W eq_refl) as ([_ T] & _) end.
    unfold jsonTimes in *. by rewrite Cr, Up, Dl.
  - by eapply settle_ok.
  - erewrite stop_tasks; eauto.
  - by apply inv_release.
  - by eapply start_ok.
Qed.

Definition start (q : Queue S) (n : nat) : system S :=
  mkSystem q (replicate n WPoll) (mkHistory ∅ [] ∅ 0).

Lemma start_inv q n : tasksOf q = ∅ -> sys_ok (start q n).
Proof.
  intros E. unfold sys_ok, start. simpl. rewrite E.
  split; simpl; intros;
    try match goal with H : replicate _ _ !! _ = Some _ |- _ => apply lookup_replicate in H as [? _] end;
    subst; simplify_eq/=; done.
Qed.

Lemma reachable_ok q n y : tasksOf q = ∅ -> rtc qstep (start q n) y ->
  h_restarts (sy_h y) <= MaxRestarts -> sys_ok y.
Proof.
  intros E. revert y.
  apply (rtc_ind_r (fun y => h_restarts (sy_h y) <= MaxRestarts -> sys_ok y));
    [intros _; by apply start_inv|]. intros y y' _ St IH B.
  pose proof (qstep_restarts _ _ St). eapply qstep_ok; [done|lia|]. apply IH. lia.
Qed.
End System.

(** C36: no accepted task is lost and none is worked on twice at once: in every
    reachable state of a queue with any number of workers, with store writes
    that may fail, stops, and restarts at any moment, two workers never hold
    the same task, and each accepted task is in the store unless its handler
    has returned nil. *)
Theorem no_task_lost_or_shared {S} `{Laws : StoreLaws S} `{GoQuote} (q : Queue S) n y :
  tasksOf q = ∅ -> rtc qstep (start q n) y -> h_restarts (sy_h y) <= MaxRestarts ->
  (forall i j w w' t t', sy_ws y !! i = Some w -> sy_ws y !! j = Some w' ->
     held w = Some t -> held w' = Some t' -> t_ID t = t_ID t' -> i = j) /\
  (forall id mx, h_sub (sy_h y) !! id = Some mx ->
     is_Some (tasksOf (sy_q y) !! id) \/ id ∈ h_ok (sy_h y)).
Proof.
  intros E R B. pose proof (reachable_ok q n y E R B) as I. split.
  - intros. by eapply (iv_excl _ _ _ I).
  - intros id mx. apply (iv_lost _ _ _ I).
Qed.

(** a task's handler runs at most MaxAttempts times, plus once for each
    restart of the process: recovery makes an interrupted task pending again
    even when its attempts are used up. *)
Theorem handler_runs_bounded {S} `{Laws : StoreLaws S} `{GoQuote} (q : Queue S) n y :
  tasksOf q = ∅ -> rtc qstep (start q n) y -> h_restarts (sy_h y) <= MaxRestarts ->
  forall id mx, h_sub (sy_h y) !! id = Some mx ->
    runs id (sy_h y) <= mx + h_restarts (sy_h y).
Proof. intros E R B. apply (iv_runs _ _ _ (reachable_ok q n y E R B)). Qed.

(** A run: one task, two workers, one claims it and its handler fails. *)
Section Run.
#[local] Instance plainQuote : GoQuote := {| Quote s := s |}.

Definition demoTask : Task := mkTask "a" "k" [] 0 StatusPending 0 3 1 1 0 "".
Definition demoHandler : Handler := fun _ t => (t, Err "no luck").
Definition demoQueue : Queue MemoryStore :=
  RegisterHandler "k" demoHandler (NewQueue NewMemoryStore 2 []).
Definition demo1 := (Submit 2 demoTask demoQueue).1.
Definition demoPoll := pollTask ["a"] 3 demo1.
Definition demoClaimed : Task := claimed 3 (with_UpdatedAt 2 demoTask).
Definition demoHistory0 :=
  mkHistory (<[t_ID demoTask := t_MaxAttempts (Validate demoTask).1]> ∅) [] ∅ 0.
Definition demoHistory := mkHistory (h_sub demoHistory0) ["a"] ∅ 0.
Definition demoEnd : system MemoryStore :=
  mkSystem demoPoll.1 [WPoll; WDone demoClaimed (Err "no luck")] demoHistory.

Lemma demo_run : rtc qstep (start demoQueue 2) demoEnd.
Proof.
  eapply rtc_l.
  { eapply (qs_submit demoQueue _ _ 2 demoTask demo1).
    - reflexivity.
    - split_and!; [split|..]; vm_compute; done.
    - reflexivity.
    - vm_compute. reflexivity. }
  eapply rtc_l.
  { eapply (qs_poll demo1 [WPoll; WPoll] _ 1 ["a"] 3 demoPoll.1 (Some demoClaimed)).
    - reflexivity.
    - reflexivity.
    - reflexivity.
    - vm_compute. reflexivity.
    - vm_compute. reflexivity. }
  apply rtc_once.
  apply (qs_run demoPoll.1 [WPoll; WTask demoClaimed] demoHistory0 1 demoClaimed
           4 4 demoHandler 0 demoClaimed (Err "no luck")).
  - reflexivity.
  - vm_compute. reflexivity.
  - reflexivity.
  - done.
Qed.

Lemma no_task_lost_or_shared_witness :
  is_Some (tasksOf (sy_q demoEnd) !! "a") \/ "a" ∈ h_ok (sy_h demoEnd).
Proof.
  apply (no_task_lost_or_shared (Laws := MemoryStore_laws) demoQueue 2 demoEnd eq_refl demo_run ltac:(vm_compute; done))
    with (mx := 3).
  reflexivity.
Defined.

Lemma handler_runs_bounded_witness : runs "a" (sy_h demoEnd) <= 3.
Proof.
  apply (handler_runs_bounded (Laws := MemoryStore_laws) demoQueue 2 demoEnd eq_refl demo_run ltac:(vm_compute; done) "a" 3).
  reflexivity.
Defined.
End Run.

(** ** Claiming *)

(** both stores claim the tasks that are first in the order of service.
    [ClaimPending] takes, of the pending tasks sorted by priority (highest
    first) and then creation time (oldest first), a prefix that is as long as
    the limit allows (all when the limit is not positive); it returns them
    marked as processing with one more attempt, and the store then holds
    exactly these and is otherwise unchanged.  The store in memory always
    succeeds when it is open; a failing transaction on disk changes nothing. *)
Theorem claim_pending_best_first order now limit : clock_ok now ->
  (forall s, ms_closed s = false -> wf (ms_tasks s) -> order ≡ₚ (map_to_list (ms_tasks s)).*1 ->
     exists s' l, mem_ClaimPending order now limit s = (s', Ok l) /\
       claims now limit (ms_tasks s) l (ms_tasks s')) /\
  (forall `{Bo : Bolt, Lw : !BoltLaws, Db : BoltDB} (s : BoltStore),
     wf (bolt_contents (bs_tasks s)) ->
     (exists s' l, bolt_ClaimPending order now limit s = (s', Ok l) /\
        claims now limit (bolt_contents (bs_tasks s)) l (bolt_contents (bs_tasks s'))) \/
     (exists e, bolt_ClaimPending order now limit s = (s, Err e))).
Proof.
  intros C. split.
  - intros s Op W O. destruct (mem_ClaimPending order now limit s) as [s' r] eqn:E.
    pose proof (Claim_law (S := MemoryStore) _ _ _ _ _ _ C W O E) as L. exists s'.
    destruct r as [l|e|w]; [by exists l| |done].
    unfold mem_ClaimPending, guarded, checkOpen in E. rewrite Op in E. simpl in E.
    destruct (mem_select_pending _ order limit W O) as (L' & P & Sel). rewrite Sel in E.
    destruct (selected_ok limit _ L' W P). by rewrite mem_claim_ok in E.
  - intros Bo Lw Db s W. destruct (bolt_ClaimPending order now limit s) as [s' r] eqn:E.
    pose proof (Claim_law (S := BoltStore) (map_to_list (bolt_contents (bs_tasks s))).*1 _ _ _ _ _
                  C W (reflexivity _) E) as L.
    destruct r as [l|e|w]; [left; eauto|right|done]. exists e.
    by apply dbUpdate_inv in E as [(? & ? & _ & _ & [=])|(-> & _)].
Qed.

Definition two_tasks : gmap string Task :=
  {[ "a" := mkTask "a" "k" [] 1 StatusPending 0 3 5 5 0 "";
     "b" := mkTask "b" "k" [] 2 StatusPending 0 3 9 9 0 "" ]}.

Lemma two_tasks_wf : wf two_tasks.
Proof.
  intros k t E. unfold two_tasks in E. apply lookup_insert_Some in E as [[<- <-]|[_ E]];
    [by vm_compute|]. apply lookup_singleton_Some in E as [<- <-]. by vm_compute.
Qed.

Section ClaimWitness.
Import MapBolt.
#[local] Instance demoDB : BoltDB := {| ErrDatabaseNotOpen := "database not open"; dbClose := Ok tt |}.

Lemma claim_pending_best_first_witness :
  (exists s' l, mem_ClaimPending ["a"; "b"] 20 1 (mkMem two_tasks false) = (s', Ok l) /\
     claims 20 1 two_tasks l (ms_tasks s')) /\
  (exists s' l, bolt_ClaimPending [] 20 1 (mkBoltStore mapBolt two_tasks true) = (s', Ok l) /\
     claims 20 1 (bolt_contents (B := mapBolt) two_tasks) l (bolt_contents (bs_tasks s'))).
Proof.
  split.
  - apply (claim_pending_best_first ["a"; "b"] 20 1); [reflexivity|reflexivity|apply two_tasks_wf|].
    vm_compute. reflexivity.
  - destruct (claim_pending_best_first [] 20 1 eq_refl) as [_ B].
    destruct (B mapBolt mapBolt_laws demoDB (mkBoltStore mapBolt two_tasks true)) as [E|[e E]].
    + intros k t E. rewrite (bolt_lookup (B := mapBolt)) in E. by apply two_tasks_wf.
    + exact E.
    + exfalso. apply (f_equal (fun x => is_ok x.2)) in E. vm_compute in E. discriminate E.
Defined.
End ClaimWitness.

(** ** Retries *)

(** The rounds of one worker. *)
Definition rounds {S} `{Store S} `{GoQuote} (es : list Env) (q : Queue S) : Queue S :=
  fold_left (fun q e => (processOne e q).1) es q.

Section Failing.
Context `{GoQuote}.

Lemma mem_update_single now u c : storable u ->
  (Update now u (mkMem {[ t_ID u := c ]} false)).1
  = mkMem {[ t_ID u := with_UpdatedAt now (json_task u) ]} false.
Proof.
  intros St. cbn [Update MemoryStore_Store]. unfold mem_Update, guarded. cbn [checkOpen ms_closed ms_tasks].
  by rewrite lookup_singleton_eq, storable_clone, insert_singleton_eq.
Qed.

(** One round on a store that holds a single pending task whose handler
    fails with [e]. *)
Lemma failing_round q t en err : ms_closed (q_store q) = false ->
  ms_tasks (q_store q) = {[ t_ID t := t ]} -> clean t -> t_Status t = StatusPending ->
  IsZero (t_Deadline t) = true -> clock_ok (e_claim en) -> clock_ok (e_write en) ->
  e_order en = [t_ID t] -> 0 <= t_Attempts t < int64_max ->
  (exists h : Handler, q_handlers q !! t_Kind t = Some h /\ forall n u, h n u = (u, Err err)) ->
  let q' := (processOne en q).1 in
  exists u, ms_tasks (q_store q') = {[ t_ID t := u ]} /\ ms_closed (q_store q') = false /\
    q_handlers q' = q_handlers q /\ clean u /\ t_ID u = t_ID t /\ t_Kind u = t_Kind t /\
    t_Deadline u = t_Deadline t /\ t_MaxAttempts u = t_MaxAttempts t /\
    t_Attempts u = t_Attempts t + 1 /\ t_Error u = jsonString err /\
    t_Status u = if t_MaxAttempts t <=? t_Attempts t + 1 then StatusDeadLetter else StatusPending.
Proof.
  intros Op M C St Dl C1 C2 O A (h & Hh & Eh) q'.
  assert (ClaimPending (e_order en) (e_claim en) 1 (q_store q)
    = (mkMem {[ t_ID t := claimed (e_claim en) t ]} false, Ok [claimed (e_claim en) t])) as Cl.
  { cbn [ClaimPending MemoryStore_Store]. unfold mem_ClaimPending, guarded, checkOpen.
    rewrite Op, M, O. unfold mem_select. cbn. rewrite lookup_singleton_eq. cbn.
    unfold is_status. rewrite St, bool_decide_true by done. cbn. rewrite (clean_clone t C).
    change (cutTo 1 [t]) with [t]. cbn [mem_claim].
    rewrite lookup_singleton_eq. cbn. rewrite insert_singleton_eq.
    by rewrite (clean_clone _ (claimed_clean _ _ C1 C)). }
  assert (wrap64 (t_Attempts t + 1) = t_Attempts t + 1) as Wr.
  { apply wrap64_id. unfold in_int64, int64_min, int64_max in *. lia. }
  pose proof (claimed_clean _ _ C1 C) as K.
  assert (forall x y, storable (with_Error x (with_Status y (claimed (e_claim en) t)))) as Sto.
  { intros x y. apply clean_storable in K. exact K. }
  assert (forall x y, jsonString y = y ->
    clean (with_UpdatedAt (e_write en) (json_task (with_Error x (with_Status y (claimed (e_claim en) t)))))) as Kx.
  { intros x y Y. eapply restamped_clean; [apply Sto|]. by exists (e_write en). }
  set (q1 := set_store (mkMem {[ t_ID t := claimed (e_claim en) t ]} false) q).
  assert (triage (e_check en) (e_write en) (claimed (e_claim en) t) q1 = inr h) as Tr.
  { unfold triage, IsExpired. change (t_Deadline (claimed _ t)) with (t_Deadline t).
    rewrite Dl. cbn [negb andb].
    change (q_handlers q1 !! t_Kind (claimed _ t)) with (q_handlers q !! t_Kind t). by rewrite Hh. }
  assert (q' = (settle (e_write en) (claimed (e_claim en) t) (Err err) q1).1) as ->.
  { unfold q', processOne, pollTask. rewrite Cl. cbn [head]. fold q1. rewrite Tr.
    unfold runHandler. rewrite Eh. by destruct (settle _ _ _ _). }
  set (status := if t_MaxAttempts t <=? t_Attempts t + 1 then StatusDeadLetter else StatusPending).
  set (u := with_UpdatedAt (e_write en) (json_task (with_Error err
              (with_Status status (claimed (e_claim en) t))))).
  assert (jsonString status = status) as Js
    by (unfold status; destruct (t_MaxAttempts t <=? _); reflexivity).
  assert (q_store (settle (e_write en) (claimed (e_claim en) t) (Err err) q1).1
            = mkMem {[ t_ID t := u ]} false /\
          q_handlers (settle (e_write en) (claimed (e_claim en) t) (Err err) q1).1 = q_handlers q)
    as [-> ->].
  { unfold settle, u, status.
    change (t_MaxAttempts (claimed _ t)) with (t_MaxAttempts t).
    change (t_Attempts (claimed _ t)) with (wrap64 (t_Attempts t + 1)).
    rewrite Wr. destruct (t_MaxAttempts t <=? t_Attempts t + 1); (split; [|reflexivity]);
      exact (mem_update_single (e_write en) _ _ (Sto err _)). }
  apply clean_spec in C as (Ci & Ck & _).
  exists u. split_and!; try reflexivity; [by apply Kx|exact Ci|exact Ck|exact Wr|exact Js].
Qed.
End Failing.

(** a task whose handler keeps failing is retried and then kept as a dead
    letter: after [n] rounds of a worker, up to the task's MaxAttempts, it has
    been attempted [n] more times, carries the handler's error, and is a dead
    letter exactly when the attempts are used up (pending before). *)
Theorem failing_task_dead_lettered `{GoQuote} q t es err : ms_closed (q_store q) = false ->
  ms_tasks (q_store q) = {[ t_ID t := t ]} -> clean t -> t_Status t = StatusPending ->
  IsZero (t_Deadline t) = true ->
  0 <= t_Attempts t -> t_Attempts t + Z.of_nat (length es) <= t_MaxAttempts t <= int64_max ->
  es <> [] ->
  Forall (fun en => clock_ok (e_claim en) /\ clock_ok (e_write en) /\ e_order en = [t_ID t]) es ->
  (exists h : Handler, q_handlers q !! t_Kind t = Some h /\ forall n u, h n u = (u, Err err)) ->
  exists u, ms_tasks (q_store (rounds es q)) = {[ t_ID t := u ]} /\
    t_Attempts u = t_Attempts t + Z.of_nat (length es) /\ t_Error u = jsonString err /\
    t_Status u = if t_MaxAttempts t =? t_Attempts t + Z.of_nat (length es)
                 then StatusDeadLetter else StatusPending.
Proof.
  revert q t. induction es as [|en es IH]; intros q t Op M C St Dl A B Ne F Hh; [done|].
  inversion F as [|? ? (C1 & C2 & O) F']; subst. simpl length in *.
  destruct (failing_round q t en err) as (u & M' & Op' & Hq & Cu & Id & Kd & Du & Mu & Au & Eu & Su);
    try done; [lia|].
  set (q' := (processOne en q).1) in *. change (rounds (en :: es) q) with (rounds es q').
  destruct es as [|en' es].
  - change (Z.of_nat (Datatypes.S (length []))) with 1 in *. exists u. simpl. split_and!; [done|lia|done|]. rewrite Su.
    destruct (Z.leb_spec (t_MaxAttempts t) (t_Attempts t + 1)),
      (Z.eqb_spec (t_MaxAttempts t) (t_Attempts t + 1)); try done; lia.
  - destruct (Z.leb_spec (t_MaxAttempts t) (t_Attempts t + 1)) as [|_]; [simpl length in *; lia|].
    destruct (IH q' u) as (v & Mv & Av & Ev & Sv); try done.
    + by rewrite Id.
    + by rewrite Du.
    + lia.
    + rewrite Au, Mu. lia.
    + by rewrite Id.
    + by rewrite Hq, Kd.
    + exists v. rewrite <- Id. split_and!; [done|lia|done|]. rewrite Sv, Mu, Au.
      replace (t_Attempts t + 1 + Z.of_nat (length (en' :: es)))
        with (t_Attempts t + Z.of_nat (Datatypes.S (length (en' :: es)))) by lia. done.
Qed.

Definition demoEnv : Env := mkEnv ["a"] 10 10 11 0.

Lemma failing_task_dead_lettered_witness :
  exists u, t_Attempts u = 3 /\ t_Status u = StatusDeadLetter /\ t_Error u = "no luck"%string.
Proof.
  pose (gq := {| Quote s := s |}).
  destruct (failing_task_dead_lettered (H := gq) (set_store (mkMem {[ "a" := demoTask ]} false) demoQueue)
    demoTask [demoEnv; demoEnv; demoEnv] "no luck") as (u & _ & A & E & S).
  1-2, 4-5: reflexivity.
  - by split.
  - done.
  - done.
  - done.
  - repeat constructor.
  - by exists demoHandler.
  - exists u. split_and!; [exact A|exact S|exact E].
Defined.

(** ** The delay before a retry *)

Lemma wrap64_mul_r b x : wrap64 (b * wrap64 x) = wrap64 (b * x).
Proof.
  unfold wrap64, wrapS. f_equal.
  replace (b * ((x + 2 ^ (64 - 1)) mod 2 ^ 64 - 2 ^ (64 - 1)) + 2 ^ (64 - 1))
    with (b * x + 2 ^ (64 - 1) + (- (b * ((x + 2 ^ (64 - 1)) / 2 ^ 64))) * 2 ^ 64).
  - apply Z.mod_add. lia.
  - rewrite (Z.mod_eq (x + 2 ^ (64 - 1)) (2 ^ 64)) by lia. ring.
Qed.

Lemma retryDelay_pow {S} (q : Queue S) a : 1 <= a ->
  retryDelay a q = Z.min (q_maxRetryDelay q) (wrap64 (q_retryBase q * 2 ^ (a - 1))).
Proof.
  intros A. unfold retryDelay, shl1. destruct (Z.leb_spec a 0); [lia|].
  rewrite Z.shiftl_mul_pow2, Z.mul_1_l, wrap64_mul_r by lia.
  destruct (Z.ltb_spec (q_maxRetryDelay q) (wrap64 (q_retryBase q * 2 ^ (a - 1)))); lia.
Qed.

Lemma wrap64_multiple k : wrap64 (k * 2 ^ 64) = 0.
Proof. unfold wrap64, wrapS. rewrite Z.add_comm, Z.mod_add by lia. reflexivity. Qed.

(** A second is 5^9 * 2^9 nanoseconds. *)
Lemma second_shifted n : 55 <= n -> 1 * Second * 2 ^ n = (1953125 * 2 ^ (n - 55)) * 2 ^ 64.
Proof.
  intros N. replace n with (55 + (n - 55)) at 1 by lia. rewrite Z.pow_add_r by lia.
  generalize (2 ^ (n - 55)). intros x. unfold Second. lia.
Qed.

(** the retry delay doubles with each attempt up to its cap as long as the
    product fits 64 bits; beyond that it wraps: with the default base of one
    second and a cap that is not negative, the 35th attempt gives a negative
    delay and from the 56th on the delay is zero, so retries are immediate. *)
Theorem retry_delay_wraps {S} (q : Queue S) :
  (forall a, 1 <= a -> 0 < q_retryBase q -> q_retryBase q * 2 ^ (a - 1) <= int64_max ->
     retryDelay a q = Z.min (q_maxRetryDelay q) (q_retryBase q * 2 ^ (a - 1))) /\
  (q_retryBase q = 1 * Second -> 0 <= q_maxRetryDelay q ->
     retryDelay 35 q < 0 /\ forall a, 56 <= a -> retryDelay a q = 0).
Proof.
  split.
  - intros a A B L. rewrite retryDelay_pow by done. rewrite wrap64_id; [done|].
    unfold in_int64, int64_min, int64_max in *.
    assert (0 < 2 ^ (a - 1)) by (apply Z.pow_pos_nonneg; lia). nia.
  - intros B M. split.
    + rewrite retryDelay_pow, B by lia.
      assert (wrap64 (1 * Second * 2 ^ (35 - 1)) < 0) by (vm_compute; reflexivity). lia.
    + intros a A. rewrite retryDelay_pow, B, second_shifted, wrap64_multiple by lia. lia.
Qed.

Lemma retry_delay_wraps_witness :
  retryDelay 3 (NewQueue NewMemoryStore 1 []) = 4 * Second /\
  retryDelay 100 (NewQueue NewMemoryStore 1 []) = 0.
Proof.
  destruct (retry_delay_wraps (NewQueue NewMemoryStore 1 [])) as [A B]. split.
  - rewrite A; [reflexivity|lia|reflexivity|vm_compute; done].
  - apply B; [reflexivity|vm_compute; done|lia].
Defined.
