(* ===== verification/Cache.v ===== *)
(** * Caches (internal/cache/cache.go)

    The object cache: a map from keys to elements of a doubly linked list
    (container/list) in order of use.  Elements are locations of a heap, since
    the map and the list share them and the code removes an element from one
    before the other.  Then the metadata and query result caches. *)

From S2P Require Import Prelude GoFloat.
From Stdlib Require Import Ascii String.
From stdpp Require Import base list.

#[local] Open Scope Z_scope.

(** ** The object cache *)

Record CacheItem := mkItem {
  ci_Key : string;
  ci_Value : bytes;
  ci_Size : Z;
  ci_CreatedAt : Time;
  ci_AccessedAt : Time;
  ci_AccessCount : Z
}.

Record ObjectCache := mkCache {
  oc_items : gmap string nat;      (** key to element *)
  oc_elems : gmap nat CacheItem;   (** the elements that were ever pushed *)
  oc_lru : list nat;               (** the list, front first *)
  oc_next : nat;                   (** the next element to allocate *)
  oc_maxBytes : Z;
  oc_ttl : Duration;
  oc_size : Z;
  oc_hits : Z;
  oc_misses : Z
}.

Definition NewObjectCache (maxBytes : Z) (ttl : Duration) : ObjectCache :=
  let maxBytes := if maxBytes <=? 0 then Z.shiftl 30 30 else maxBytes in
  let ttl := if ttl <=? 0 then 5 * Minute else ttl in
  mkCache ∅ ∅ [] 0 maxBytes ttl 0 0 0.

Definition with_entries items elems lru size (c : ObjectCache) : ObjectCache :=
  mkCache items elems lru (oc_next c) (oc_maxBytes c) (oc_ttl c) size (oc_hits c) (oc_misses c).
Definition hit (c : ObjectCache) : ObjectCache :=
  mkCache (oc_items c) (oc_elems c) (oc_lru c) (oc_next c) (oc_maxBytes c) (oc_ttl c) (oc_size c)
    (wrap64 (oc_hits c + 1)) (oc_misses c).
Definition miss (c : ObjectCache) : ObjectCache :=
  mkCache (oc_items c) (oc_elems c) (oc_lru c) (oc_next c) (oc_maxBytes c) (oc_ttl c) (oc_size c)
    (oc_hits c) (wrap64 (oc_misses c + 1)).

(** [lruList.Remove(elem)]: nothing when the element is not in the list. *)
Definition listRemove (e : nat) (l : list nat) : list nat :=
  List.filter (fun x => negb (x =? e)%nat) l.

(** The item that [elem.Value] holds, for an element that was pushed. *)
Definition itemOf (c : ObjectCache) (e : nat) : CacheItem :=
  default (mkItem "" [] 0 0 0 0) (oc_elems c !! e).

Definition deleteElement (e : nat) (c : ObjectCache) : ObjectCache :=
  let item := itemOf c e in
  with_entries (delete (ci_Key item) (oc_items c)) (oc_elems c) (listRemove e (oc_lru c))
    (wrap64 (oc_size c - ci_Size item)) c.

Definition oc_evictOldest (c : ObjectCache) : ObjectCache :=
  match last (oc_lru c) with Some e => deleteElement e c | None => c end.

(** [Get]: the clock is read for the age and again for the access time. *)
Definition oc_Get (now1 now2 : Time) (key : string) (c : ObjectCache)
  : ObjectCache * option bytes :=
  match oc_items c !! key with
  | None => (miss c, None)
  | Some e =>
    let item := itemOf c e in
    if oc_ttl c <? Sub now1 (ci_CreatedAt item) then (miss (deleteElement e c), None)
    else
      let item := mkItem (ci_Key item) (ci_Value item) (ci_Size item) (ci_CreatedAt item) now2
                    (wrap64 (ci_AccessCount item + 1)) in
      let c := with_entries (oc_items c) (<[e := item]> (oc_elems c))
                 (e :: listRemove e (oc_lru c)) (oc_size c) c in
      (hit c, Some (ci_Value item))
  end.

(** [for c.size+itemSize > c.maxBytes && c.lruList.Len() > 0]; one round per
    element is enough. *)
Fixpoint makeRoom (rounds : nat) (itemSize : Z) (c : ObjectCache) : ObjectCache :=
  match rounds with
  | O => c
  | S rounds =>
    if (oc_maxBytes c <? wrap64 (oc_size c + itemSize)) && (0 <? length (oc_lru c))%nat
    then makeRoom rounds itemSize (oc_evictOldest c) else c
  end.

Definition oc_Set (now1 now2 : Time) (key : string) (value : bytes) (c : ObjectCache)
  : ObjectCache :=
  let itemSize := Z.of_nat (length value) in
  let c :=
    match oc_items c !! key with
    | Some e =>
      with_entries (oc_items c) (oc_elems c) (listRemove e (oc_lru c))
        (wrap64 (oc_size c - ci_Size (itemOf c e))) c
    | None => c
    end in
  let c := makeRoom (length (oc_lru c)) itemSize c in
  let item := mkItem key value itemSize now1 now2 1 in
  let e := oc_next c in
  mkCache (<[key := e]> (oc_items c)) (<[e := item]> (oc_elems c)) (e :: oc_lru c) (S e)
    (oc_maxBytes c) (oc_ttl c) (wrap64 (oc_size c + itemSize)) (oc_hits c) (oc_misses c).

Definition oc_Delete (key : string) (c : ObjectCache) : ObjectCache :=
  match oc_items c !! key with Some e => deleteElement e c | None => c end.

Definition oc_Clear (c : ObjectCache) : ObjectCache := with_entries ∅ (oc_elems c) [] 0 c.

Definition calculateHitRate (c : ObjectCache) : float64 :=
  let total := wrap64 (oc_hits c + oc_misses c) in
  if total =? 0 then fofZ 0 else fdiv (fofZ (oc_hits c)) (fofZ total).
Record CacheStats := mkCacheStats {
  cs_ItemCount : Z; cs_SizeBytes : Z; cs_MaxBytes : Z; cs_Hits : Z; cs_Misses : Z;
  cs_HitRate : float64
}.
Definition oc_Stats (c : ObjectCache) : CacheStats :=
  mkCacheStats (Z.of_nat (size (oc_items c))) (oc_size c) (oc_maxBytes c) (oc_hits c)
    (oc_misses c) (calculateHitRate c).

(** ** The metadata cache *)

Record MetadataCache (V : Type) := mkMetaCache {
  mc_items : gmap string (V * Time); mc_ttl : Duration
}.
Arguments mkMetaCache {V}.
Arguments mc_items {V}.
Arguments mc_ttl {V}.

Section MetadataCache.
Context {V : Type}.
Definition NewMetadataCache (ttl : Duration) : MetadataCache V :=
  mkMetaCache ∅ (if ttl <=? 0 then 5 * Minute else ttl).
Definition mc_Get (now : Time) (key : string) (m : MetadataCache V) : option V :=
  match mc_items m !! key with
  | None => None
  | Some (v, created) => if mc_ttl m <? Sub now created then None else Some v
  end.
Definition mc_Set (now : Time) (key : string) (v : V) (m : MetadataCache V) : MetadataCache V :=
  mkMetaCache (<[key := (v, now)]> (mc_items m)) (mc_ttl m).
Definition mc_Delete (key : string) (m : MetadataCache V) : MetadataCache V :=
  mkMetaCache (delete key (mc_items m)) (mc_ttl m).
Definition mc_Clear (m : MetadataCache V) : MetadataCache V := mkMetaCache ∅ (mc_ttl m).
End MetadataCache.

(** ** The query result cache *)

Record QueryResultCache (V : Type) := mkQueryCache {
  qc_items : gmap string (V * Time); qc_ttl : Duration; qc_maxSize : Z
}.
Arguments mkQueryCache {V}.
Arguments qc_items {V}.
Arguments qc_ttl {V}.
Arguments qc_maxSize {V}.

Section QueryResultCache.
Context {V : Type}.
Definition NewQueryResultCache (ttl : Duration) (maxSize : Z) : QueryResultCache V :=
  mkQueryCache ∅ (if ttl <=? 0 then 5 * Minute else ttl)
    (if maxSize <=? 0 then 10000 else maxSize).
Definition qc_Get (now : Time) (key : string) (q : QueryResultCache V) : option V :=
  match qc_items q !! key with
  | None => None
  | Some (v, created) => if qc_ttl q <? Sub now created then None else Some v
  end.

(** The loop of [evictOldest] over the entries in the order [l] of the map's
    iteration. *)
Definition oldest (l : list (string * (V * Time))) : string * Time :=
  fold_left (fun best kv =>
    if IsZero best.2 || Before kv.2.2 best.2 then (kv.1, kv.2.2) else best) l (""%string, 0).
Definition qc_evictOldest (l : list (string * (V * Time))) (q : QueryResultCache V)
  : QueryResultCache V :=
  let k := (oldest l).1 in
  if bool_decide (k = ""%string) then q
  else mkQueryCache (delete k (qc_items q)) (qc_ttl q) (qc_maxSize q).

Definition qc_Set (l : list (string * (V * Time))) (now : Time) (key : string) (v : V)
    (q : QueryResultCache V) : QueryResultCache V :=
  let q := if qc_maxSize q <=? Z.of_nat (size (qc_items q)) then qc_evictOldest l q else q in
  mkQueryCache (<[key := (v, now)]> (qc_items q)) (qc_ttl q) (qc_maxSize q).
Definition qc_Clear (q : QueryResultCache V) : QueryResultCache V :=
  mkQueryCache ∅ (qc_ttl q) (qc_maxSize q).
End QueryResultCache.
