(* ===== verification/CacheTheorems.v ===== *)
(** * Caches: the object cache is a bounded LRU cache

    The reference is a list of items, most recently used first, with one item
    per key.  [entries] reads that list off the heap of elements; every
    operation of the cache acts on it as the reference operation does. *)

From S2P Require Import Prelude GoFloat Cache.
From Stdlib Require Import Ascii String.
From stdpp Require Import base list.

#[local] Open Scope Z_scope.

(** ** The reference *)

Definition dropKey (k : string) (l : list CacheItem) : list CacheItem :=
  List.filter (fun it => negb (bool_decide (ci_Key it = k))) l.

(** The longest prefix whose sizes fit the budget. *)
Fixpoint fit (budget : Z) (l : list CacheItem) : list CacheItem :=
  match l with
  | [] => []
  | it :: l => if ci_Size it <=? budget then it :: fit (budget - ci_Size it) l else []
  end.

Definition touch (now : Time) (it : CacheItem) : CacheItem :=
  mkItem (ci_Key it) (ci_Value it) (ci_Size it) (ci_CreatedAt it) now
    (wrap64 (ci_AccessCount it + 1)).

Inductive cache_op :=
| OpGet (now1 now2 : Time) (k : string)
| OpSet (now1 now2 : Time) (k : string) (v : bytes)
| OpDelete (k : string)
| OpClear.

Definition lru_step (maxBytes : Z) (ttl : Duration) (op : cache_op) (l : list CacheItem)
  : list CacheItem * option bytes :=
  match op with
  | OpGet now1 now2 k =>
    match List.find (fun it => bool_decide (ci_Key it = k)) l with
    | None => (l, None)
    | Some it =>
      if ttl <? Sub now1 (ci_CreatedAt it) then (dropKey k l, None)
      else (touch now2 it :: dropKey k l, Some (ci_Value it))
    end
  | OpSet now1 now2 k v =>
    let size := Z.of_nat (length v) in
    (mkItem k v size now1 now2 1 :: fit (maxBytes - size) (dropKey k l), None)
  | OpDelete k => (dropKey k l, None)
  | OpClear => ([], None)
  end.

Definition cache_step (op : cache_op) (c : ObjectCache) : ObjectCache * option bytes :=
  match op with
  | OpGet now1 now2 k => oc_Get now1 now2 k c
  | OpSet now1 now2 k v => (oc_Set now1 now2 k v c, None)
  | OpDelete k => (oc_Delete k c, None)
  | OpClear => (oc_Clear c, None)
  end.

Fixpoint lru_run maxBytes ttl (ops : list cache_op) (l : list CacheItem)
  : list CacheItem * list (option bytes) :=
  match ops with
  | [] => (l, [])
  | op :: ops =>
    let '(l, r) := lru_step maxBytes ttl op l in
    let '(l, rs) := lru_run maxBytes ttl ops l in (l, r :: rs)
  end.
Fixpoint cache_run (ops : list cache_op) (c : ObjectCache) : ObjectCache * list (option bytes) :=
  match ops with
  | [] => (c, [])
  | op :: ops =>
    let '(c, r) := cache_step op c in
    let '(c, rs) := cache_run ops c in (c, r :: rs)
  end.

(** ** Totals *)

Definition total (l : list CacheItem) : Z := foldr (fun it n => ci_Size it + n) 0 l.
Definition sized (it : CacheItem) : Prop := 0 <= ci_Size it <= 2 ^ 61.

Lemma total_cons it l : total (it :: l) = ci_Size it + total l.
Proof. done. Qed.
Lemma total_app l l' : total (l ++ l') = total l + total l'.
Proof. induction l; simpl; lia. Qed.
Lemma total_nonneg l : Forall sized l -> 0 <= total l.
Proof. unfold sized. induction 1; simpl; lia. Qed.

Lemma fit_le b l : Forall sized l -> 0 <= b -> total (fit b l) <= b.
Proof.
  intros F. revert b. induction F as [|it l S F IH]; intros b B; simpl; [lia|].
  destruct (Z.leb_spec (ci_Size it) b); simpl; [|lia]. specialize (IH (b - ci_Size it)). lia.
Qed.
Lemma fit_all b l : Forall sized l -> total l <= b -> fit b l = l.
Proof.
  intros F. revert b. induction F as [|it l S F IH]; intros b B; simpl in *; [done|].
  pose proof (total_nonneg l F). destruct (Z.leb_spec (ci_Size it) b); [|lia].
  rewrite IH; [done|lia].
Qed.
Lemma fit_snoc b l it : Forall sized (l ++ [it]) -> b < total (l ++ [it]) ->
  fit b (l ++ [it]) = fit b l.
Proof.
  revert b. induction l as [|x l IH]; intros b F B; simpl in *.
  - destruct (Z.leb_spec (ci_Size it) b); [lia|done].
  - inversion F; subst. destruct (Z.leb_spec (ci_Size x) b); [|done]. rewrite IH; [done..|lia].
Qed.
Lemma fit_prefix b l : exists r, fit b l ++ r = l.
Proof.
  revert b. induction l as [|it l IH]; intros b; simpl; [by exists []|].
  destruct (Z.leb_spec (ci_Size it) b); [|by eexists].
  destruct (IH (b - ci_Size it)) as [r E]. exists r. simpl. by rewrite E.
Qed.

(** ** The invariant *)

Definition entries (c : ObjectCache) : list CacheItem := itemOf c <$> oc_lru c.

(** The map and the list agree on the keys in [P]; the list has no others. *)
Record coherent (P : string -> Prop) (c : ObjectCache) : Prop := {
  co_nodup : NoDup (oc_lru c);
  co_live e : e ∈ oc_lru c ->
    (e < oc_next c)%nat /\ is_Some (oc_elems c !! e) /\ sized (itemOf c e) /\
    P (ci_Key (itemOf c e)) /\ oc_items c !! ci_Key (itemOf c e) = Some e;
  co_items k e : P k -> oc_items c !! k = Some e -> e ∈ oc_lru c /\ ci_Key (itemOf c e) = k;
  co_size : oc_size c = total (entries c)
}.

Lemma listRemove_notin e l : e ∉ l -> listRemove e l = l.
Proof.
  induction l as [|x l IH]; simpl; [done|]. rewrite not_elem_of_cons. intros [N M].
  destruct (Nat.eqb_spec x e); [congruence|]. simpl. by rewrite IH.
Qed.
Lemma listRemove_snoc e l : e ∉ l -> listRemove e (l ++ [e]) = l.
Proof.
  intros N. unfold listRemove. rewrite List.filter_app. fold (listRemove e l).
  rewrite listRemove_notin by done. simpl. rewrite Nat.eqb_refl. apply app_nil_r.
Qed.
Lemma elem_of_listRemove x e l : x ∈ listRemove e l <-> x ∈ l /\ x <> e.
Proof.
  unfold listRemove. rewrite !list_elem_of_In, List.filter_In.
  destruct (Nat.eqb_spec x e); naive_solver.
Qed.
Lemma listRemove_NoDup e l : NoDup l -> NoDup (listRemove e l).
Proof.
  induction 1 as [|x l N ND IH]; simpl; [constructor|].
  destruct (negb (x =? e)%nat); [|done]. constructor; [|done]. by rewrite elem_of_listRemove; intros [].
Qed.

(** Two elements with one key are one element. *)
Lemma same_key P c e e' : coherent P c -> e ∈ oc_lru c -> e' ∈ oc_lru c ->
  ci_Key (itemOf c e) = ci_Key (itemOf c e') -> e = e'.
Proof.
  intros C E E' K. apply (co_live _ _ C) in E as (_ & _ & _ & _ & E), E' as (_ & _ & _ & _ & E').
  rewrite K in E. congruence.
Qed.

(** Removing an element of the list is dropping its key. *)
Lemma entries_remove P c e l : coherent P c -> l ⊆ oc_lru c -> e ∈ oc_lru c ->
  itemOf c <$> listRemove e l = dropKey (ci_Key (itemOf c e)) (itemOf c <$> l).
Proof.
  intros C S E. induction l as [|x l IH]; simpl; [done|].
  assert (x ∈ oc_lru c) as X by (apply S; set_solver).
  destruct (Nat.eqb_spec x e) as [->|N]; simpl.
  - rewrite bool_decide_true by done. simpl. apply IH. set_solver.
  - rewrite bool_decide_false by (intros K; by eapply N, same_key). simpl. f_equal.
    apply IH. set_solver.
Qed.

Lemma dropKey_absent k l : (forall it, it ∈ l -> ci_Key it <> k) -> dropKey k l = l.
Proof.
  induction l as [|x l IH]; simpl; intros H; [done|].
  rewrite bool_decide_false by (apply H; set_solver). simpl. rewrite IH; [done|].
  intros it Hi. apply H. set_solver.
Qed.

Lemma entries_sized P c : coherent P c -> Forall sized (entries c).
Proof.
  intros C. unfold entries. rewrite Forall_fmap, Forall_forall. intros e E.
  by apply (co_live _ _ C) in E as (_ & _ & ? & _).
Qed.

Lemma total_drop (f : nat -> CacheItem) e l : NoDup l -> e ∈ l ->
  total (f <$> listRemove e l) = total (f <$> l) - ci_Size (f e).
Proof.
  intros N E. induction N as [|x l X N IH]; [set_solver|]. rewrite fmap_cons, total_cons.
  unfold listRemove. cbn [List.filter]. fold (listRemove e l). apply elem_of_cons in E as [->|E].
  - rewrite Nat.eqb_refl. cbn [negb]. rewrite listRemove_notin by done. lia.
  - destruct (Nat.eqb_spec x e) as [->|]; [done|]. cbn [negb].
    rewrite fmap_cons, total_cons, IH by done. lia.
Qed.

(** ** The operations *)

(** The sizes stay far from the width of [int64]. *)
Definition roomy (c : ObjectCache) : Prop := 0 <= total (entries c) <= 2 ^ 62.

(** Taking an element out of the list, with or without its key. *)
Lemma coherent_remove (P Q : string -> Prop) c e items :
  coherent P c -> roomy c -> e ∈ oc_lru c ->
  (forall k, P k -> k <> ci_Key (itemOf c e) -> Q k) ->
  (forall k, Q k -> P k) ->
  (forall k, k <> ci_Key (itemOf c e) -> items !! k = oc_items c !! k) ->
  (Q (ci_Key (itemOf c e)) -> items !! ci_Key (itemOf c e) = None) ->
  coherent Q (with_entries items (oc_elems c) (listRemove e (oc_lru c))
                (wrap64 (oc_size c - ci_Size (itemOf c e))) c).
Proof.
  intros C R E PQ QP I N. pose proof (total_drop (itemOf c) e _ (co_nodup _ _ C) E) as T.
  destruct (co_live _ _ C _ E) as (_ & _ & Z1 & _).
  assert (Forall sized (itemOf c <$> listRemove e (oc_lru c))) as F.
  { rewrite Forall_fmap, Forall_forall. intros x. rewrite elem_of_listRemove. intros [X _].
    by apply (co_live _ _ C) in X as (_ & _ & ? & _). }
  apply total_nonneg in F. split; simpl.
  - apply listRemove_NoDup, C.
  - intros x. rewrite elem_of_listRemove. intros [X NE].
    destruct (co_live _ _ C _ X) as (A & B & S & K & L).
    assert (ci_Key (itemOf c x) <> ci_Key (itemOf c e)) as D by (intros K'; by eapply NE, same_key).
    split_and!; try done; [by apply PQ|]. change (items !! ci_Key (itemOf c x) = Some x).
    by rewrite I.
  - intros k x Qk L. assert (k <> ci_Key (itemOf c e)) as D.
    { intros ->. rewrite N in L; done. }
    rewrite I in L by done. apply (co_items _ _ C) in L as [X K]; [|by apply QP].
    split; [|done]. apply elem_of_listRemove. split; [done|]. by intros ->.
  - change (wrap64 (oc_size c - ci_Size (itemOf c e)) = total (itemOf c <$> listRemove e (oc_lru c))).
    unfold roomy, sized, entries in *.
    rewrite T, (co_size _ _ C), wrap64_id; [done|].
    unfold in_int64, int64_min, int64_max, entries. lia.
Qed.

Lemma deleteElement_spec P c e : coherent P c -> roomy c -> e ∈ oc_lru c ->
  coherent P (deleteElement e c) /\
  entries (deleteElement e c) = dropKey (ci_Key (itemOf c e)) (entries c).
Proof.
  intros C R E. split.
  2: { unfold entries. by rewrite <- (entries_remove P). }
  apply (coherent_remove P); try done; intros; simplify_map_eq; done.
Qed.

Lemma dropKey_sub k l : List.incl (dropKey k l) l.
Proof. intros x. unfold dropKey. rewrite List.filter_In. tauto. Qed.
Lemma total_dropKey k l : Forall sized l -> 0 <= total (dropKey k l) <= total l.
Proof.
  unfold sized. induction 1 as [|x l S F IH]; simpl; [lia|].
  destruct (bool_decide _); simpl; lia.
Qed.
Lemma roomy_dropKey P c c' k : coherent P c -> roomy c -> entries c' = dropKey k (entries c) ->
  roomy c'.
Proof.
  unfold roomy. intros C R ->. pose proof (total_dropKey k _ (entries_sized _ _ C)). lia.
Qed.

(** Evicting takes the last entry. *)
Lemma evict_spec P c : coherent P c -> roomy c -> oc_lru c <> [] ->
  exists l it, entries c = l ++ [it] /\ entries (oc_evictOldest c) = l /\
    coherent P (oc_evictOldest c) /\ roomy (oc_evictOldest c) /\
    length (oc_lru c) = S (length (oc_lru (oc_evictOldest c))).
Proof.
  intros C R N. destruct (exists_last N) as (l & e & E). unfold oc_evictOldest.
  rewrite E, last_snoc. pose proof (co_nodup _ _ C) as ND. rewrite E in ND.
  apply NoDup_app in ND as (_ & ND & _).
  assert (e ∉ l) as X by (intros X; apply (ND e X); set_solver).
  assert (e ∈ oc_lru c) as X' by (rewrite E; set_solver).
  destruct (deleteElement_spec P c e) as [C' D]; [done..|].
  exists (itemOf c <$> l), (itemOf c e). split_and!.
  - unfold entries. by rewrite E, fmap_app.
  - rewrite D. unfold entries. rewrite <- (entries_remove P c e (oc_lru c)) by done.
    by rewrite E, listRemove_snoc.
  - done.
  - exact (roomy_dropKey P c _ _ C R D).
  - simpl. rewrite E, listRemove_snoc by done. rewrite length_app. simpl. lia.
Qed.

Lemma evict_config c : oc_maxBytes (oc_evictOldest c) = oc_maxBytes c /\
  oc_ttl (oc_evictOldest c) = oc_ttl c /\ oc_next (oc_evictOldest c) = oc_next c.
Proof. unfold oc_evictOldest. by destruct (last (oc_lru c)). Qed.
Lemma makeRoom_config n s c : oc_maxBytes (makeRoom n s c) = oc_maxBytes c /\
  oc_ttl (makeRoom n s c) = oc_ttl c /\ oc_next (makeRoom n s c) = oc_next c.
Proof.
  revert c. induction n as [|n IH]; intros c; simpl; [done|]. destruct (_ && _); [|done].
  destruct (IH (oc_evictOldest c)) as (-> & -> & ->). apply evict_config.
Qed.

(** One round per element leaves the longest prefix that fits. *)
Lemma makeRoom_spec P n s c : coherent P c -> roomy c -> 0 <= s <= 2 ^ 61 ->
  (length (oc_lru c) <= n)%nat ->
  coherent P (makeRoom n s c) /\
  entries (makeRoom n s c) = fit (oc_maxBytes c - s) (entries c).
Proof.
  revert c. induction n as [|n IH]; intros c C R S L; simpl.
  { split; [done|]. unfold entries. destruct (oc_lru c); [done|simpl in L; lia]. }
  pose proof (entries_sized _ _ C) as F. pose proof (total_nonneg _ F) as T.
  rewrite (co_size _ _ C), wrap64_id.
  2: { unfold roomy, in_int64, int64_min, int64_max in *. lia. }
  destruct (Z.ltb_spec (oc_maxBytes c) (total (entries c) + s)) as [B|B]; simpl.
  2: { split; [done|]. symmetry. apply fit_all; [done|lia]. }
  destruct (decide (oc_lru c = [])) as [E|E].
  { rewrite E. simpl. split; [done|]. unfold entries. by rewrite E. }
  destruct (evict_spec P c C R E) as (l & it & El & El' & C' & R' & L').
  replace (0 <? length (oc_lru c))%nat with true by (symmetry; apply Nat.ltb_lt; lia).
  destruct (IH (oc_evictOldest c)) as [C2 E2]; try done; [lia|]. split; [done|].
  rewrite E2. destruct (evict_config c) as (-> & _). rewrite El', El in *.
  symmetry. apply fit_snoc; [done|lia].
Qed.

Definition all (_ : string) : Prop := True.

(** Reading the map is searching the entries. *)
Lemma find_entries c k : coherent all c ->
  List.find (fun it => bool_decide (ci_Key it = k)) (entries c) = itemOf c <$> (oc_items c !! k).
Proof.
  intros C. destruct (List.find _ _) as [it|] eqn:F.
  - apply List.find_some in F as [I K]. apply bool_decide_eq_true in K as <-.
    apply list_elem_of_In, list_elem_of_fmap in I as (e & -> & E).
    apply (co_live _ _ C) in E as (_ & _ & _ & _ & ->). done.
  - destruct (oc_items c !! k) as [e|] eqn:E; [|done].
    apply (co_items _ _ C) in E as [E K]; [|done].
    eapply List.find_none in F; [|apply list_elem_of_In, (list_elem_of_fmap_2 (itemOf c)), E].
    by rewrite bool_decide_true in F.
Qed.

Lemma fmap_itemOf c c' (l : list nat) :
  (forall e, e ∈ l -> oc_elems c' !! e = oc_elems c !! e) ->
  itemOf c' <$> l = itemOf c <$> l.
Proof.
  intros H. apply list_fmap_ext. intros i e E. unfold itemOf.
  by rewrite H by (by eapply list_elem_of_lookup_2).
Qed.

(** Putting an item in front, as a new element or as the one that moved. *)
Lemma coherent_push c c' e it k :
  coherent (fun k' => k' <> k) c -> sized it -> ci_Key it = k ->
  e ∉ oc_lru c -> (e < oc_next c')%nat -> (oc_next c <= oc_next c')%nat ->
  oc_items c' = <[k := e]> (oc_items c) -> oc_elems c' = <[e := it]> (oc_elems c) ->
  oc_lru c' = e :: oc_lru c -> oc_size c' = oc_size c + ci_Size it ->
  coherent all c' /\ entries c' = it :: entries c.
Proof.
  intros C S <- N L L' EI EE EL ES.
  assert (itemOf c' e = it) as Ie by (unfold itemOf; by rewrite EE, lookup_insert_eq).
  assert (forall x, x ∈ oc_lru c -> oc_elems c' !! x = oc_elems c !! x) as Ix.
  { intros x X. rewrite EE, lookup_insert_ne; [done|]. by intros ->. }
  assert (entries c' = it :: entries c) as En.
  { unfold entries. rewrite EL, fmap_cons, Ie. f_equal. by apply fmap_itemOf. }
  assert (forall x, x ∈ oc_lru c -> itemOf c' x = itemOf c x) as Iy.
  { intros x X. unfold itemOf. by rewrite Ix. }
  split; [|done]. split.
  - rewrite EL. constructor; [done|apply C].
  - intros x. rewrite EL. intros [->|X]%elem_of_cons.
    + rewrite EE, EI, !Ie, !lookup_insert_eq. by split_and!.
    + rewrite Ix, Iy, EI by done. destruct (co_live _ _ C _ X) as (? & ? & ? & K & ?).
      split_and!; [lia|done..|]. by rewrite lookup_insert_ne.
  - intros k x _. rewrite EI, EL. destruct (decide (k = ci_Key it)) as [->|NK].
    + rewrite lookup_insert_eq. intros [= <-]. rewrite Ie. split; [set_solver|done].
    + rewrite lookup_insert_ne by done. intros E. apply (co_items _ _ C) in E as [X K]; [|done].
      rewrite Iy by done. split; [set_solver|done].
  - rewrite ES, En, total_cons, (co_size _ _ C). lia.
Qed.

(** Taking the element of a key out of the list, its key left behind. *)
Lemma coherent_unlink c e k : coherent all c -> roomy c -> oc_items c !! k = Some e ->
  let c' := with_entries (oc_items c) (oc_elems c) (listRemove e (oc_lru c))
              (wrap64 (oc_size c - ci_Size (itemOf c e))) c in
  coherent (fun k' => k' <> k) c' /\ entries c' = dropKey k (entries c).
Proof.
  intros C R E c'. destruct (co_items _ _ C _ _ I E) as [X K]. rewrite <- K. split.
  - by apply (coherent_remove all).
  - unfold entries. by rewrite <- (entries_remove all).
Qed.

Lemma coherent_absent c k : coherent all c -> oc_items c !! k = None ->
  coherent (fun k' => k' <> k) c /\ entries c = dropKey k (entries c).
Proof.
  intros C E.
  assert (forall e, e ∈ oc_lru c -> ci_Key (itemOf c e) <> k) as N.
  { intros e X K. destruct (co_live _ _ C _ X) as (_ & _ & _ & _ & L). congruence. }
  split.
  - split; [apply C| |intros ? ? _; by apply C|apply C].
    intros e X. destruct (co_live _ _ C _ X) as (? & ? & ? & _ & ?). split_and!; auto.
  - symmetry. apply dropKey_absent. intros it (e & -> & X)%list_elem_of_fmap. by apply N.
Qed.

(** The capacity: the entries fit, or one item larger than the cache is alone. *)
Definition capped (maxBytes : Z) (l : list CacheItem) : Prop :=
  total l <= maxBytes \/ (length l <= 1)%nat.

Lemma capped_roomy m c : coherent all c -> m <= 2 ^ 62 -> capped m (entries c) -> roomy c.
Proof.
  intros C M K. pose proof (entries_sized _ _ C) as F. pose proof (total_nonneg _ F) as T.
  split; [done|]. destruct K as [K|K]; [lia|].
  destruct (entries c) as [|it [|]]; simpl in *; [lia| |lia].
  inversion F as [|? ? S]. unfold sized in S. lia.
Qed.
Lemma dropKey_length k l : (length (dropKey k l) <= length l)%nat.
Proof. induction l as [|x l IH]; simpl; [lia|]. destruct (negb _); simpl; lia. Qed.
Lemma capped_dropKey m k l : Forall sized l -> capped m l -> capped m (dropKey k l).
Proof.
  intros F [T|L]; [left|right].
  - pose proof (total_dropKey k l F). lia.
  - pose proof (dropKey_length k l). lia.
Qed.
Lemma dropKey_find k l it : List.find (fun it => bool_decide (ci_Key it = k)) l = Some it ->
  Forall sized l ->
  ci_Size it + total (dropKey k l) <= total l /\ (S (length (dropKey k l)) <= length l)%nat.
Proof.
  intros F S. induction S as [|x l X S IH]; simpl in *; [done|].
  pose proof (total_dropKey k l S). pose proof (dropKey_length k l).
  destruct (bool_decide (ci_Key x = k)); simplify_eq; simpl; unfold sized in X; [lia|].
  destruct (IH F). lia.
Qed.
Lemma dropKey_sized k l : Forall sized l -> Forall sized (dropKey k l).
Proof.
  rewrite !Forall_forall. intros F it I. apply F. apply list_elem_of_In.
  apply (dropKey_sub k), list_elem_of_In, I.
Qed.
Lemma fit_negative b l : Forall sized l -> b < 0 -> fit b l = [].
Proof.
  intros F B. destruct F as [|it l S F]; [done|]. simpl.
  destruct (Z.leb_spec (ci_Size it) b); [|done]. unfold sized in S. lia.
Qed.
Lemma capped_fit m k l it : Forall sized l -> capped m (it :: fit (m - ci_Size it) (dropKey k l)).
Proof.
  intros F. apply (dropKey_sized k) in F. unfold capped. rewrite total_cons.
  destruct (Z.le_gt_cases 0 (m - ci_Size it)) as [P|N].
  - pose proof (fit_le _ _ F P). left. lia.
  - rewrite fit_negative by (done || lia). right. simpl. lia.
Qed.

Definition op_ok (op : cache_op) : Prop :=
  match op with OpSet _ _ _ v => Z.of_nat (length v) <= 2 ^ 61 | _ => True end.

Lemma coherent_miss P c : coherent P c -> coherent P (miss c).
Proof. intros [A B D E]. split; [exact A|exact B|exact D|exact E]. Qed.

Lemma get_step now1 now2 k c c' r : coherent all c -> roomy c ->
  oc_Get now1 now2 k c = (c', r) ->
  coherent all c' /\
  (entries c', r) = lru_step (oc_maxBytes c) (oc_ttl c) (OpGet now1 now2 k) (entries c).
Proof.
  intros C R. unfold oc_Get, lru_step. rewrite find_entries by done.
  destruct (oc_items c !! k) as [e|] eqn:E; simpl.
  2: { intros [= <- <-]. split; [by apply coherent_miss|done]. }
  destruct (co_items _ _ C _ _ I E) as [X K].
  destruct (oc_ttl c <? _).
  - intros [= <- <-]. destruct (deleteElement_spec all c e) as [C' D]; [done..|].
    rewrite K in D. rewrite <- D. split; [|done]. by apply coherent_miss.
  - intros [= <- <-]. destruct (coherent_unlink c e k) as [C' D]; [done..|].
    destruct (co_live _ _ C _ X) as (L & _ & S & _).
    assert (0 <= ci_Size (itemOf c e) <= total (entries c)) as B.
    { destruct (dropKey_find k (entries c) (itemOf c e)) as [B _]; [|by eapply entries_sized|].
      - rewrite find_entries, E; done.
      - pose proof (total_dropKey k _ (entries_sized _ _ C)). unfold sized in S. lia. }
    match goal with |- coherent all ?c2 /\ _ =>
      destruct (coherent_push _ c2 e (touch now2 (itemOf c e)) k C') as [C2 E2] end; try done.
    + simpl. rewrite elem_of_listRemove. naive_solver.
    + simpl. by rewrite insert_id.
    + simpl. rewrite wrap64_id; [lia|]. rewrite (co_size _ _ C).
      unfold roomy, in_int64, int64_min, int64_max in *. lia.
    + split; [exact C2|]. by rewrite E2, D.
Qed.

Lemma set_step now1 now2 k v c : coherent all c -> roomy c -> Z.of_nat (length v) <= 2 ^ 61 ->
  oc_maxBytes c <= 2 ^ 62 ->
  coherent all (oc_Set now1 now2 k v c) /\
  (entries (oc_Set now1 now2 k v c), None)
  = lru_step (oc_maxBytes c) (oc_ttl c) (OpSet now1 now2 k v) (entries c).
Proof.
  intros C R V M. unfold oc_Set, lru_step.
  set (c1 := match oc_items c !! k with Some _ => _ | None => _ end).
  assert (coherent (fun k' => k' <> k) c1 /\ entries c1 = dropKey k (entries c) /\
    oc_maxBytes c1 = oc_maxBytes c) as (C1 & E1 & M1).
  { subst c1. destruct (oc_items c !! k) as [e|] eqn:E.
    - destruct (coherent_unlink c e k) as [? ?]; done.
    - destruct (coherent_absent c k) as [? ?]; done. }
  pose proof (roomy_dropKey _ _ _ _ C R E1) as R1.
  set (s := Z.of_nat (length v)) in *. set (n := length (oc_lru c1)).
  destruct (makeRoom_spec _ n s c1 C1 R1) as [C2 E2]; [lia|done|].
  destruct (makeRoom_config n s c1) as (M2 & _ & _). set (c2 := makeRoom n s c1) in *.
  edestruct (coherent_push c2 (mkCache (<[k := oc_next c2]> (oc_items c2))
    (<[oc_next c2 := mkItem k v s now1 now2 1]> (oc_elems c2)) (oc_next c2 :: oc_lru c2)
    (S (oc_next c2)) (oc_maxBytes c2) (oc_ttl c2) (wrap64 (oc_size c2 + s)) (oc_hits c2)
    (oc_misses c2)) (oc_next c2) (mkItem k v s now1 now2 1) k C2) as [C3 E3]; try done; simpl.
  - unfold sized. simpl. lia.
  - intros X. apply (co_live _ _ C2) in X. lia.
  - lia.
  - lia.
  - apply wrap64_id. rewrite (co_size _ _ C2), E2.
    pose proof (entries_sized _ _ C1) as F. destruct (fit_prefix (oc_maxBytes c1 - s) (entries c1)) as [r Er].
    assert (Forall sized (fit (oc_maxBytes c1 - s) (entries c1)) /\ Forall sized r) as [F1 F2].
    { rewrite <- Forall_app, Er. done. }
    apply total_nonneg in F1, F2. pose proof (total_app (fit (oc_maxBytes c1 - s) (entries c1)) r) as T.
    rewrite Er in T. unfold roomy, in_int64, int64_min, int64_max in *. lia.
  - split; [done|]. by rewrite E3, E2, E1, M1.
Qed.

Lemma coherent_empty c : coherent all (with_entries ∅ (oc_elems c) [] 0 c).
Proof.
  split; simpl; [constructor|intros e; by rewrite elem_of_nil| |done].
  intros k e _. by rewrite lookup_empty.
Qed.

Lemma set_config now1 now2 k v c : oc_maxBytes (oc_Set now1 now2 k v c) = oc_maxBytes c /\
  oc_ttl (oc_Set now1 now2 k v c) = oc_ttl c.
Proof.
  unfold oc_Set. simpl. destruct (oc_items c !! k); split;
    first [rewrite (proj1 (makeRoom_config _ _ _)) | rewrite (proj1 (proj2 (makeRoom_config _ _ _)))];
    done.
Qed.

Lemma cache_step_spec op c c' r : coherent all c -> oc_maxBytes c <= 2 ^ 62 ->
  capped (oc_maxBytes c) (entries c) -> op_ok op -> cache_step op c = (c', r) ->
  coherent all c' /\ (entries c', r) = lru_step (oc_maxBytes c) (oc_ttl c) op (entries c) /\
  oc_maxBytes c' = oc_maxBytes c /\ oc_ttl c' = oc_ttl c.
Proof.
  intros C M K O E. pose proof (capped_roomy _ _ C M K) as R.
  destruct op as [n1 n2 k|n1 n2 k v|k|]; simpl in E.
  - destruct (get_step n1 n2 k c c' r) as [C' L]; [done..|]. split_and!; [done..| |];
    unfold oc_Get in E; repeat case_match_hyp E; simplify_eq; done.
  - injection E as <- <-. destruct (set_step n1 n2 k v c) as [C' L]; [done..|].
    destruct (set_config n1 n2 k v c). by split_and!.
  - injection E as <- <-. unfold oc_Delete. simpl. destruct (oc_items c !! k) as [e|] eqn:E.
    + destruct (co_items _ _ C _ _ I E) as [X <-].
      destruct (deleteElement_spec all c e) as [C' D]; [done..|]. by rewrite D.
    + destruct (coherent_absent c k) as [_ <-]; done.
  - injection E as <- <-. split_and!; try done. apply coherent_empty.
Qed.

Lemma lru_step_capped m ttl op l : Forall sized l -> capped m l -> capped m (lru_step m ttl op l).1.
Proof.
  intros F K. destruct op as [n1 n2 k|n1 n2 k v|k|]; simpl.
  - destruct (List.find _ _) as [it|] eqn:E; [|done].
    destruct (_ <? _); simpl; [by apply capped_dropKey|].
    destruct (dropKey_find _ _ _ E F) as [T L]. destruct K as [K|K]; [left|right]; simpl; [|lia].
    change (ci_Size it + total (dropKey k l) <= m). lia.
  - by apply (capped_fit m k l (mkItem k v (Z.of_nat (length v)) n1 n2 1)).
  - by apply capped_dropKey.
  - right. simpl. lia.
Qed.

Lemma cache_run_spec ops c : coherent all c -> oc_maxBytes c <= 2 ^ 62 ->
  capped (oc_maxBytes c) (entries c) -> Forall op_ok ops ->
  coherent all (cache_run ops c).1 /\
  (entries (cache_run ops c).1, (cache_run ops c).2)
  = lru_run (oc_maxBytes c) (oc_ttl c) ops (entries c) /\
  capped (oc_maxBytes c) (entries (cache_run ops c).1).
Proof.
  intros C M K F. revert c C M K. induction F as [|op ops O F IH]; intros c C M K; simpl; [done|].
  destruct (cache_step op c) as [c1 r] eqn:E.
  destruct (cache_step_spec op c c1 r) as (C1 & L & M1 & T1); [done..|].
  pose proof (lru_step_capped (oc_maxBytes c) (oc_ttl c) op _ (entries_sized _ _ C) K) as K1.
  rewrite <- L in K1 |- *. simpl in K1.
  destruct (IH c1) as (C2 & L2 & K2); [by rewrite ?M1..|]. rewrite M1, T1 in *.
  destruct (cache_run ops c1) as [c2 rs]. simpl in *. by rewrite <- L2.
Qed.

(** C34: the object cache is a bounded LRU cache.  After any operations (values
    and capacity below 2^61 and 2^62 bytes), every answer and the items in
    order of use are those of a list with one item per key, where [Set] puts
    the item in front and keeps the longest prefix of the others that fits,
    [Get] moves a live item to the front and drops an expired one.  The size
    counter is the sum of the sizes, the map has exactly the listed keys, and
    the sum is within the capacity unless one item that exceeds it is alone. *)
Theorem object_cache_refines_lru (maxBytes : Z) (ttl : Duration) (ops : list cache_op) :
  maxBytes <= 2 ^ 62 -> Forall op_ok ops ->
  let c0 := NewObjectCache maxBytes ttl in
  let c := (cache_run ops c0).1 in
  (entries c, (cache_run ops c0).2) = lru_run (oc_maxBytes c0) (oc_ttl c0) ops [] /\
  oc_size c = total (entries c) /\
  NoDup (ci_Key <$> entries c) /\
  (forall k, is_Some (oc_items c !! k) <-> k ∈ ci_Key <$> entries c) /\
  (total (entries c) <= oc_maxBytes c0 \/ (length (entries c) <= 1)%nat).
Proof.
  intros M F c0 c.
  destruct (cache_run_spec ops c0) as (C & L & K); [| |right; simpl; lia|done|].
  { apply (coherent_empty c0). }
  { cbn -[Z.pow]. destruct (Z.leb_spec maxBytes 0); [by vm_compute|done]. }
  split_and!; [done|apply C| | |done].
  - unfold entries. rewrite <- list_fmap_compose. apply NoDup_fmap_2_strong; [|apply C].
    intros e e' X X' E. by eapply same_key.
  - intros k. rewrite list_elem_of_fmap. split.
    + intros [e E]. apply (co_items _ _ C) in E as [X <-]; [|done]. eexists. split; [done|].
      by apply list_elem_of_fmap_2.
    + intros (it & -> & (e & -> & X)%list_elem_of_fmap).
      exists e. by apply (co_live _ _ C) in X as (_ & _ & _ & _ & X).
Qed.

Lemma object_cache_refines_lru_witness :
  let a := [1; 2] in
  let ops := [OpSet 0 0 "a" a; OpSet 1 1 "b" a; OpGet 2 2 "a"; OpSet 3 3 "c" a; OpGet 4 4 "b"] in
  ci_Key <$> entries (cache_run ops (NewObjectCache 5 100)).1 = ["c"; "a"]%string /\
  (cache_run ops (NewObjectCache 5 100)).2 = [None; None; Some a; None; None] /\
  total (entries (cache_run ops (NewObjectCache 5 100)).1) = 4.
Proof.
  intros a ops.
  pose proof (object_cache_refines_lru 5 100 ops ltac:(lia) ltac:(repeat constructor; simpl; lia))
    as (E & _).
  split_and!; vm_compute; reflexivity.
Defined.

(** ** The query result cache stays within its size

    Eviction picks the oldest entry, but never the one with the empty key. *)

Section QueryBound.
Context {V : Type}.
Implicit Types (q : QueryResultCache V) (l : list (string * (V * Time))).

Lemma oldest_in l : Forall (fun kv => kv.1 <> ""%string /\ 0 < kv.2.2) l -> l <> [] ->
  exists v, ((oldest l).1, (v, (oldest l).2)) ∈ l /\ Forall (fun kv => (oldest l).2 <= kv.2.2) l.
Proof.
  intros F. induction l as [|[k [v t]] l IH] using rev_ind; [done|]. intros _.
  apply Forall_app in F as [F F1]. inversion_clear F1 as [|? ? [K T] _]. simpl in K, T.
  unfold oldest. rewrite fold_left_app. fold (oldest l). simpl.
  destruct (decide (l = [])) as [->|N].
  { simpl. exists v. split; [set_solver|]. repeat constructor. simpl. lia. }
  destruct (IH F N) as (w & I & M). pose proof F as P. rewrite Forall_forall in P.
  apply P in I as [_ Z1]. destruct (IH F N) as (w' & I' & _). simpl in Z1.
  unfold IsZero, Before. destruct (Z.eqb_spec (oldest l).2 0); [lia|]. simpl.
  destruct (Z.ltb_spec t (oldest l).2); simpl.
  - exists v. split; [set_solver|]. apply Forall_app. split; [|by repeat constructor; simpl; lia].
    eapply Forall_impl; [done|]. simpl. intros. lia.
  - exists w'. split; [set_solver|]. apply Forall_app. split; [done|]. repeat constructor. simpl. lia.
Qed.

Lemma query_cache_bounded l now k (v : V) q :
  l ≡ₚ map_to_list (qc_items q) -> Forall (fun kv => kv.1 <> ""%string /\ 0 < kv.2.2) l ->
  0 < qc_maxSize q -> Z.of_nat (size (qc_items q)) <= qc_maxSize q ->
  Z.of_nat (size (qc_items (qc_Set l now k v q))) <= qc_maxSize q.
Proof.
  intros P F M S. unfold qc_Set. destruct (Z.leb_spec (qc_maxSize q) (Z.of_nat (size (qc_items q)))).
  - destruct (oldest_in l F) as (w & I & _).
    { intros ->. apply Permutation_nil, map_to_list_empty_iff in P. rewrite P, map_size_empty in *. lia. }
    assert ((oldest l).1 <> ""%string) as X by (rewrite Forall_forall in F; apply (F _ I)).
    assert (qc_items q !! (oldest l).1 = Some (w, (oldest l).2)) as I'.
    { apply elem_of_map_to_list. by eapply elem_of_Permutation_proper. }
    unfold qc_evictOldest. rewrite bool_decide_false by done. simpl.
    rewrite map_size_insert, map_size_delete, I'. destruct (delete _ _ !! k); simpl; lia.
  - simpl. rewrite map_size_insert. destruct (_ !! k); simpl; lia.
Qed.

(** With the empty key as the oldest entry nothing is evicted. *)
Lemma empty_key_never_evicted (v w : V) :
  let q := qc_Set [] 2 "a"%string w (qc_Set [] 1 ""%string v (mkQueryCache ∅ Minute 2)) in
  Z.of_nat (size (qc_items (qc_Set [(""%string, (v, 1)); ("a"%string, (w, 2))] 3 "b"%string w q))) = 3.
Proof. reflexivity. Qed.
End QueryBound.
