(* ===== verification/PluginFsm.v ===== *)
(** * The plugin loader's replicated state (internal/pluginloader/fsm.go, loader.go)

    Four buckets of a bbolt database, changed by the operations of the Raft
    log: installed plugins, trusted keys, each plugin's state in a nested
    bucket with a version per key, and registered hooks.  Every operation runs
    in one transaction: an error leaves the database as it was.  The loader's
    calls marshal an operation to JSON before it is replicated. *)

From S2P Require Import Prelude GoStrings Bolt GoJson.
From Stdlib Require Import Ascii String.
From stdpp Require Import base list.

#[local] Open Scope Z_scope.

(** Nested buckets of bbolt: [CreateBucketIfNotExists], [DeleteBucket], and
    the parent after its nested bucket was changed to [b] in place. *)
Class BoltNested `{Bolt} := {
  bCreateBucket : forall {V}, bucket (bucket V) -> string -> res (bucket (bucket V));
  bDeleteBucket : forall {V}, bucket (bucket V) -> string -> res (bucket (bucket V));
  bSetBucket : forall {V}, bucket (bucket V) -> string -> bucket V -> bucket (bucket V)
}.

Class BoltNestedLaws `{BoltNested} := {
  bCreateBucket_get V (r r' : bucket (bucket V)) n k : bCreateBucket r n = Ok r' ->
    bGet r' k = if decide (k = n) then Some (default bEmpty (bGet r n)) else bGet r k;
  bCreateBucket_nopanic V (r : bucket (bucket V)) n w : bCreateBucket r n <> Panic w;
  bDeleteBucket_get V (r r' : bucket (bucket V)) n k : bDeleteBucket r n = Ok r' ->
    bGet r' k = if decide (k = n) then None else bGet r k;
  bDeleteBucket_nopanic V (r : bucket (bucket V)) n w : bDeleteBucket r n <> Panic w;
  bSetBucket_get V (r : bucket (bucket V)) n b k :
    bGet (bSetBucket r n b) k = if decide (k = n) then Some b else bGet r k
}.

(** Without disk faults a named bucket can be created and an existing one
    deleted. *)
Class BoltNestedReliable `{BoltNested} := {
  bCreateBucket_ok V (r : bucket (bucket V)) n :
    n <> ""%string -> is_ok (bCreateBucket r n) = true;
  bDeleteBucket_ok V (r : bucket (bucket V)) n :
    is_Some (bGet r n) -> is_ok (bDeleteBucket r n) = true
}.

Definition BucketPluginRegistry : string := "plugin_registry".
Definition BucketTrustedKeys : string := "trusted_keys_mirror".
Definition BucketPluginState : string := "plugin_state".
Definition BucketHookRegistry : string := "hook_registry".

Definition OpPluginInstall : string := "plugin_install".
Definition OpPluginUninstall : string := "plugin_uninstall".
Definition OpTrustedKeyAdd : string := "trusted_key_add".
Definition OpTrustedKeyRemove : string := "trusted_key_remove".
Definition OpStatePut : string := "state_put".
Definition OpStateDelete : string := "state_delete".
Definition OpHookRegister : string := "hook_register".
Definition OpHookUnregister : string := "hook_unregister".

Record LoaderFSMOp := mkOp {
  op_Type : string;
  op_Plugin : string;
  op_Key : string;
  op_Data : bytes;
  op_ExpectedVersion : Z   (** uint64 *)
}.

Record StateEntry := mkEntry { se_Value : bytes; se_Version : Z }.

Record FSMApplyResult := mkApply { ar_Success : bool; ar_Error : string }.

(** The text of [ErrVersionMismatch]. *)
Definition versionMismatch (plugin key : string) (expected actual : Z) : string :=
  "state CAS mismatch for plugin=" +:+ plugin +:+ " key=" +:+ key +:+ ": expected version "
  +:+ pretty (Z.to_N expected) +:+ ", got " +:+ pretty (Z.to_N actual).

Section Fsm.
Context `{BoltNested} `{GoQuote}.

(** The top-level buckets, [None] while one is missing. *)
Record LoaderDB := mkDB {
  db_registry : option (bucket bytes);
  db_keys : option (bucket bytes);
  db_state : option (bucket (bucket StateEntry));
  db_hooks : option (bucket bytes)
}.

(** [tx.Bucket(name)] and the error for a missing one. *)
Definition theBucket {A} (name : string) (b : option A) : res A :=
  match b with Some b => Ok b | None => Err ("bucket " +:+ name +:+ " missing") end.

(** [initBuckets]; [io name] is what [CreateBucketIfNotExists] reports. *)
Definition initBuckets (io : string -> res unit) (db : LoaderDB) : res LoaderDB :=
  let create name := wrapErr ("failed to create bucket " +:+ name) (io name) in
  _ ← create BucketPluginRegistry;
  _ ← create BucketTrustedKeys;
  _ ← create BucketPluginState;
  _ ← create BucketHookRegistry;
  Ok (mkDB (Some (default bEmpty (db_registry db))) (Some (default bEmpty (db_keys db)))
        (Some (default bEmpty (db_state db))) (Some (default bEmpty (db_hooks db)))).

Definition applyPluginInstall (op : LoaderFSMOp) (db : LoaderDB) : res LoaderDB :=
  b ← theBucket BucketPluginRegistry (db_registry db);
  b ← bPut b (op_Plugin op) (op_Data op);
  Ok (mkDB (Some b) (db_keys db) (db_state db) (db_hooks db)).

Definition applyPluginUninstall (op : LoaderFSMOp) (db : LoaderDB) : res LoaderDB :=
  reg ← theBucket BucketPluginRegistry (db_registry db);
  reg ← bDelete reg (op_Plugin op);
  stateRoot ← theBucket BucketPluginState (db_state db);
  stateRoot ← match bGet stateRoot (op_Plugin op) with
              | Some _ => bDeleteBucket stateRoot (op_Plugin op)
              | None => Ok stateRoot
              end;
  hooks ← theBucket BucketHookRegistry (db_hooks db);
  let prefix := op_Plugin op +:+ ":" in
  let keysToDelete := fst <$> scanPrefix prefix hooks in
  hooks ← deleteKeys keysToDelete hooks;
  Ok (mkDB (Some reg) (db_keys db) (Some stateRoot) (Some hooks)).

Definition applyTrustedKeyAdd (op : LoaderFSMOp) (db : LoaderDB) : res LoaderDB :=
  b ← theBucket BucketTrustedKeys (db_keys db);
  b ← bPut b (op_Key op) (op_Data op);
  Ok (mkDB (db_registry db) (Some b) (db_state db) (db_hooks db)).
Definition applyTrustedKeyRemove (op : LoaderFSMOp) (db : LoaderDB) : res LoaderDB :=
  b ← theBucket BucketTrustedKeys (db_keys db);
  b ← bDelete b (op_Key op);
  Ok (mkDB (db_registry db) (Some b) (db_state db) (db_hooks db)).

Definition casCheck (op : LoaderFSMOp) (existing : option StateEntry) : res unit :=
  if 0 <? op_ExpectedVersion op then
    match existing with
    | Some entry =>
      if se_Version entry =? op_ExpectedVersion op then Ok tt
      else Err (versionMismatch (op_Plugin op) (op_Key op) (op_ExpectedVersion op) (se_Version entry))
    | None => Err (versionMismatch (op_Plugin op) (op_Key op) (op_ExpectedVersion op) 0)
    end
  else Ok tt.

Definition newVersion (existing : option StateEntry) : Z :=
  match existing with Some entry => wrapU64 (se_Version entry + 1) | None => 1 end.

Definition applyStatePut (op : LoaderFSMOp) (db : LoaderDB) : res LoaderDB :=
  stateRoot ← theBucket BucketPluginState (db_state db);
  stateRoot ← bCreateBucket stateRoot (op_Plugin op);
  let nested := default bEmpty (bGet stateRoot (op_Plugin op)) in
  _ ← casCheck op (bGet nested (op_Key op));
  let entry := mkEntry (op_Data op) (newVersion (bGet nested (op_Key op))) in
  nested ← bPut nested (op_Key op) entry;
  Ok (mkDB (db_registry db) (db_keys db) (Some (bSetBucket stateRoot (op_Plugin op) nested))
        (db_hooks db)).

Definition applyStateDelete (op : LoaderFSMOp) (db : LoaderDB) : res LoaderDB :=
  stateRoot ← theBucket BucketPluginState (db_state db);
  match bGet stateRoot (op_Plugin op) with
  | None => Ok db
  | Some nested =>
    nested ← bDelete nested (op_Key op);
    Ok (mkDB (db_registry db) (db_keys db) (Some (bSetBucket stateRoot (op_Plugin op) nested))
          (db_hooks db))
  end.

Definition applyHookRegister (op : LoaderFSMOp) (db : LoaderDB) : res LoaderDB :=
  b ← theBucket BucketHookRegistry (db_hooks db);
  b ← bPut b (op_Plugin op +:+ ":" +:+ op_Key op) (op_Data op);
  Ok (mkDB (db_registry db) (db_keys db) (db_state db) (Some b)).
Definition applyHookUnregister (op : LoaderFSMOp) (db : LoaderDB) : res LoaderDB :=
  b ← theBucket BucketHookRegistry (db_hooks db);
  b ← bDelete b (op_Plugin op +:+ ":" +:+ op_Key op);
  Ok (mkDB (db_registry db) (db_keys db) (db_state db) (Some b)).

(** The handler of an operation type. *)
Definition handlerOf (type : string) : option (LoaderFSMOp -> LoaderDB -> res LoaderDB) :=
  if bool_decide (type = OpPluginInstall) then Some applyPluginInstall
  else if bool_decide (type = OpPluginUninstall) then Some applyPluginUninstall
  else if bool_decide (type = OpTrustedKeyAdd) then Some applyTrustedKeyAdd
  else if bool_decide (type = OpTrustedKeyRemove) then Some applyTrustedKeyRemove
  else if bool_decide (type = OpStatePut) then Some applyStatePut
  else if bool_decide (type = OpStateDelete) then Some applyStateDelete
  else if bool_decide (type = OpHookRegister) then Some applyHookRegister
  else if bool_decide (type = OpHookUnregister) then Some applyHookUnregister
  else None.

(** [Apply], given the outcome of [json.Unmarshal(log.Data, &op)]; the
    database is [None] once the FSM is closed. *)
Definition Apply (parsed : res LoaderFSMOp) (f : option LoaderDB)
  : option LoaderDB * FSMApplyResult :=
  match parsed with
  | Err e => (f, mkApply false ("loader FSM: failed to unmarshal op: " +:+ e))
  | Panic e => (f, mkApply false e)
  | Ok op =>
    match f with
    | None => (f, mkApply false "loader FSM: underlying bolt db is nil")
    | Some db =>
      match handlerOf (op_Type op) with
      | None => (f, mkApply false ("loader FSM: unknown op type " +:+ Quote (op_Type op)))
      | Some h =>
        match h op db with
        | Ok db' => (Some db', mkApply true "")
        | Err e => (f, mkApply false e)
        | Panic e => (f, mkApply false e)
        end
      end
    end
  end.

(** ** The loader's calls *)

(** An operation after [json.Marshal] and [json.Unmarshal]. *)
Definition jsonOp (op : LoaderFSMOp) : LoaderFSMOp :=
  mkOp (jsonString (op_Type op)) (jsonString (op_Plugin op)) (jsonString (op_Key op))
    (op_Data op) (op_ExpectedVersion op).

(** Errors of the loader: the typed [ErrVersionMismatch{}], or a text. *)
Inductive loaderErr := ErrVersionMismatch | LoaderErr (e : string).
Definition IsErrVersionMismatch (e : loaderErr) : bool :=
  match e with ErrVersionMismatch => true | _ => false end.

(** The Raft node of the loader, as one call meets it: gone, with an error
    before the entry is applied here, or applying the entry. *)
Inductive raftNode := RaftNil | RaftFails (e : string) | RaftApplies.

(** [ApplyRaw] of internal/raft on the loader's FSM. *)
Definition ApplyRaw (fails : option string) (op : LoaderFSMOp) (f : option LoaderDB)
  : option LoaderDB * (FSMApplyResult + string) :=
  match fails with
  | Some e => (f, inr ("raft apply failed: " +:+ e))
  | None => let '(f, r) := Apply (Ok (jsonOp op)) f in (f, inl r)
  end.

Definition RaftApply (raft : raftNode) (op : LoaderFSMOp) (f : option LoaderDB)
  : option LoaderDB * (unit + loaderErr) :=
  let submit fails :=
    match ApplyRaw fails op f with
    | (f, inr e) => (f, inr (LoaderErr e))
    | (f, inl result) =>
      if ar_Success result then (f, inl tt)
      else if HasPrefix (ar_Error result) "state CAS mismatch" then (f, inr ErrVersionMismatch)
      else (f, inr (LoaderErr (ar_Error result)))
    end in
  match raft with
  | RaftNil => (f, inr (LoaderErr "loader raft node is nil"))
  | RaftFails e => submit (Some e)
  | RaftApplies => submit None
  end.

Definition stateGetDirect (pluginName key : string) (f : option LoaderDB)
  : res (option StateEntry) :=
  match f with
  | None => Err "loader FSM db is nil"
  | Some db =>
    stateRoot ← theBucket BucketPluginState (db_state db);
    match bGet stateRoot pluginName with
    | None => Ok None
    | Some nested => Ok (bGet nested key)
    end
  end.

(** How a read reaches the state: the leader's answer for a follower, the
    outcome of the barrier on the leader. *)
Inductive readPath :=
| ReadNoRaft
| ReadForward (answer : res (option StateEntry))
| ReadBarrier (barrier : res unit).

Definition StateGetWithContext (path : readPath) (pluginName key : string) (f : option LoaderDB)
  : res (option StateEntry) :=
  match path with
  | ReadForward answer => answer
  | ReadNoRaft => stateGetDirect pluginName key f
  | ReadBarrier barrier =>
    _ ← wrapErr "linearizable read failed" barrier; stateGetDirect pluginName key f
  end.

Definition StatePut (raft : raftNode) (pluginName key : string) (value : bytes)
    (expectedVersion : Z) (f : option LoaderDB) : option LoaderDB * (Z + loaderErr) :=
  match RaftApply raft (mkOp OpStatePut pluginName key value expectedVersion) f with
  | (f, inr e) => (f, inr e)
  | (f, inl _) =>
    (f, match stateGetDirect pluginName key f with
        | Ok (Some entry) => inl (se_Version entry)
        | Ok None => inr (LoaderErr "state entry missing after put (FSM inconsistency)")
        | Err e => inr (LoaderErr e)
        | Panic e => inr (LoaderErr e)
        end)
  end.

Definition StateDelete (raft : raftNode) (pluginName key : string) (f : option LoaderDB)
  : option LoaderDB * (unit + loaderErr) :=
  RaftApply raft (mkOp OpStateDelete pluginName key [] 0) f.

(** The map [StateDump] returns, as its pairs in key order. *)
Definition StateDump (pluginName : string) (f : option LoaderDB)
  : res (list (string * StateEntry)) :=
  match f with
  | None => Err "loader FSM db is nil"
  | Some db =>
    stateRoot ← theBucket BucketPluginState (db_state db);
    Ok (match bGet stateRoot pluginName with None => [] | Some nested => bForEach nested end)
  end.
End Fsm.

(** ** Plugin loader: theorems on the replicated state *)

(** ** Nested buckets on finite maps *)

Module MapNested.
Import MapBolt.
Definition createBucket {V} (r : gmap string (gmap string V)) (n : string)
  : res (gmap string (gmap string V)) :=
  if bool_decide (n = ""%string) then Err "bucket name required"
  else Ok (<[n := default ∅ (r !! n)]> r).
Definition deleteBucket {V} (r : gmap string (gmap string V)) (n : string)
  : res (gmap string (gmap string V)) :=
  match r !! n with Some _ => Ok (delete n r) | None => Err "bucket not found" end.
Definition setBucket {V} (r : gmap string (gmap string V)) (n : string) (b : gmap string V)
  : gmap string (gmap string V) := <[n := b]> r.

#[export] Instance mapNested : BoltNested (H := mapBolt) := {|
  bCreateBucket V := @createBucket V;
  bDeleteBucket V := @deleteBucket V;
  bSetBucket V := @setBucket V
|}.
#[export] Instance mapNested_laws : BoltNestedLaws.
Proof.
  split; simpl; intros V r; unfold createBucket, deleteBucket, setBucket.
  - intros r' n k. case_bool_decide; [done|]. intros [= <-]. case_decide as E; simplify_map_eq; done.
  - intros n w. by case_bool_decide.
  - intros r' n k. destruct (r !! n); [|done]. intros [= <-]. case_decide; simplify_map_eq; done.
  - intros n w. by destruct (r !! n).
  - intros n b k. case_decide; simplify_map_eq; done.
Qed.
#[export] Instance mapNested_reliable : BoltNestedReliable.
Proof.
  split; simpl; intros V r n E; unfold createBucket, deleteBucket.
  - by rewrite bool_decide_false.
  - by destruct E as [b ->].
Qed.
End MapNested.

(** The keys "name:id" with a name's prefix are that name's. *)
Lemma HasPrefix_colon n p id : nochar ":"%char n = true -> nochar ":"%char p = true ->
  HasPrefix (n +:+ ":" +:+ id) (p +:+ ":") = bool_decide (n = p).
Proof. apply HasPrefix_sep. Qed.

(** ** What the operations do to the data *)

Section Data.
Context `{!Bolt, !BoltNested, !BoltLaws, !BoltNestedLaws, !GoQuote}.
Implicit Types (db : LoaderDB) (op : LoaderFSMOp).

Definition lookIn {V} (b : option (bucket V)) (k : string) : option V :=
  match b with Some b => bGet b k | None => None end.
Definition installed db (n : string) : option bytes := lookIn (db_registry db) n.
Definition hookAt db (n id : string) : option bytes := lookIn (db_hooks db) (n +:+ ":" +:+ id).
Definition stateAt db (n k : string) : option StateEntry := lookIn (lookIn (db_state db) n) k.

(** The four buckets exist, as after [initBuckets]. *)
Definition initialised db : Prop :=
  is_Some (db_registry db) /\ is_Some (db_keys db) /\ is_Some (db_state db) /\ is_Some (db_hooks db).

(** No operation panics. *)
Lemma handler_nopanic t h op db w : handlerOf t = Some h -> h op db <> Panic w.
Proof.
  assert (forall A n (b : option A), theBucket n b <> Panic w) as NB by (intros A n []; done).
  assert (forall e, casCheck op e <> Panic w) as NC.
  { intros e. unfold casCheck. by repeat case_match_goal. }
  unfold handlerOf. intros Hh. repeat case_match_hyp Hh; simplify_eq;
  unfold applyPluginInstall, applyPluginUninstall, applyTrustedKeyAdd, applyTrustedKeyRemove,
    applyStatePut, applyStateDelete, applyHookRegister, applyHookUnregister;
  intros E; bind_panic E; repeat (case_match_hyp E; bind_panic E);
    try done; revert E; first [apply NB | apply NC | apply bPut_nopanic | apply bDelete_nopanic
      | apply bCreateBucket_nopanic | apply bDeleteBucket_nopanic | apply deleteKeys_nopanic].
Qed.

Lemma uninstall_data op db db' : applyPluginUninstall op db = Ok db' ->
  let p := op_Plugin op in
  (forall n, installed db' n = if decide (n = p) then None else installed db n) /\
  (forall n k, stateAt db' n k = if decide (n = p) then None else stateAt db n k) /\
  (forall k, lookIn (db_hooks db') k
    = if HasPrefix k (p +:+ ":") then None else lookIn (db_hooks db) k) /\
  db_keys db' = db_keys db.
Proof.
  unfold applyPluginUninstall. intros E. bind_inv E. simplify_eq.
  unfold theBucket in *. repeat case_match_hyp E0; repeat case_match_hyp E2; repeat case_match_hyp E4;
    simplify_eq. unfold installed, stateAt, lookIn. simpl. split_and!; [| | |done].
  - intros n. by rewrite (bGet_delete _ _ _ _ _ E1), Heqo.
  - intros n k. rewrite Heqo0. destruct (bGet _ (op_Plugin op)) eqn:G; simplify_eq.
    + rewrite (bDeleteBucket_get _ _ _ _ _ E3). by case_decide.
    + case_decide; [|done]. subst. by rewrite G.
  - intros k. rewrite (deleteKeys_get _ _ _ _ E5).
    destruct (decide _) as [I|N]; rewrite elem_of_prefix_scan in *.
    + by destruct I as [_ ->].
    + destruct (HasPrefix k _) eqn:P; [|done]. destruct (bGet _ k) eqn:G; [|done].
      destruct N. split; [by eexists|done].
Qed.

(** Given its buckets and no disk fault, an uninstall succeeds. *)
Lemma uninstall_ok `{!BoltReliable, !BoltNestedReliable} op db : initialised db ->
  exists db', applyPluginUninstall op db = Ok db'.
Proof.
  intros ([reg R] & [ks K] & [st S] & [hk Hk]). unfold applyPluginUninstall. rewrite R, S, Hk. simpl.
  pose proof (bDelete_ok _ reg (op_Plugin op)). destruct (bDelete reg _); try done. simpl.
  assert (exists st', match bGet st (op_Plugin op) with
    | Some _ => bDeleteBucket st (op_Plugin op) | None => Ok st end = Ok st') as [st' ->].
  { destruct (bGet st _) eqn:G; [|by eexists].
    pose proof (bDeleteBucket_ok _ st (op_Plugin op) ltac:(by eexists)).
    destruct (bDeleteBucket _ _); [by eexists|done..]. }
  simpl. destruct (deleteKeys_ok (fst <$> scanPrefix (op_Plugin op +:+ ":") hk) hk) as [hk' ->]. by eexists.
Qed.

(** [state_put] on every branch. *)
Lemma put_cases op db : initialised db ->
  let p := op_Plugin op in let k := op_Key op in let e := op_ExpectedVersion op in
  match applyStatePut op db with
  | Ok db' =>
    (0 < e -> exists cur, stateAt db p k = Some cur /\ se_Version cur = e) /\
    (forall p' k', stateAt db' p' k' = if decide (p' = p /\ k' = k)
      then Some (mkEntry (op_Data op) (newVersion (stateAt db p k))) else stateAt db p' k') /\
    db_registry db' = db_registry db /\ db_keys db' = db_keys db /\ db_hooks db' = db_hooks db /\
    initialised db'
  | Err _ => True
  | Panic _ => False
  end.
Proof.
  intros I p k e. destruct (applyStatePut op db) as [db'| |w] eqn:E; [|done|].
  2: { by apply (handler_nopanic OpStatePut applyStatePut op db w). }
  unfold applyStatePut in E. destruct I as (I1 & I2 & [st S] & I4). rewrite S in E. simpl in E.
  bind_inv E. simplify_eq. simpl.
  assert (bGet x p = Some (default bEmpty (bGet st p))) as G.
  { rewrite (bCreateBucket_get _ _ _ _ p E0). by rewrite decide_True. }
  fold p in E1, E2. rewrite G in E1, E2. simpl in E1, E2.
  assert (bGet (default bEmpty (bGet st p)) k = stateAt db p k) as C.
  { unfold stateAt, lookIn. rewrite S. destruct (bGet st p); [done|]. apply bGet_empty. }
  fold k in E1, E2. rewrite C in E1, E2. split; [|split; [|unfold initialised; simpl; split_and!; eauto]].
  - intros Pos. unfold casCheck in E1. fold e in E1. destruct (Z.ltb_spec 0 e); [|lia].
    destruct (stateAt db p k) as [cur|]; [|done]. destruct (Z.eqb_spec (se_Version cur) e); [|done]. eauto.
  - intros p' k'. unfold stateAt at 1, lookIn. simpl. rewrite bSetBucket_get. fold p.
    destruct (decide (p' = p)) as [->|NP].
    + rewrite (bGet_put _ _ _ _ _ _ E2). destruct (decide (k' = k)) as [->|NK].
      * by rewrite decide_True.
      * rewrite decide_False by tauto. unfold stateAt, lookIn. rewrite S.
        destruct (bGet st p); [done|]. apply bGet_empty.
    + rewrite decide_False by tauto. rewrite (bCreateBucket_get _ _ _ _ p' E0).
      rewrite decide_False by done. unfold stateAt, lookIn. by rewrite S.
Qed.

Lemma delete_data op db db' : initialised db -> applyStateDelete op db = Ok db' ->
  initialised db' /\
  forall p k, stateAt db' p k
    = if decide (p = op_Plugin op /\ k = op_Key op) then None else stateAt db p k.
Proof.
  intros (I1 & I2 & [st S] & I4) E. unfold applyStateDelete in E. rewrite S in E. simpl in E.
  unfold stateAt. destruct (bGet st (op_Plugin op)) as [n|] eqn:G.
  - bind_inv E. simplify_eq. split; [unfold initialised; simpl; split_and!; eauto|].
    intros p k. unfold lookIn. rewrite S. simpl. rewrite bSetBucket_get.
    destruct (decide (p = _)) as [->|]; [|by rewrite decide_False by tauto].
    rewrite (bGet_delete _ _ _ _ _ E0), G. by repeat case_decide; try tauto.
  - simplify_eq. split; [unfold initialised; split_and!; eauto|]. intros p k. case_decide as D; [|done].
    destruct D as [-> ->]. unfold lookIn. by rewrite S, G.
Qed.

(** The operations that remove the entry of [key] in [plugin]. *)
Definition removes (p k : string) op : Prop :=
  (op_Type op = OpPluginUninstall /\ op_Plugin op = p) \/
  (op_Type op = OpStateDelete /\ op_Plugin op = p /\ op_Key op = k).

(** Any other operation keeps the entry or, as a put, raises its version. *)
Lemma handler_version h op db db' p k cur :
  handlerOf (op_Type op) = Some h -> h op db = Ok db' -> initialised db -> ~ removes p k op ->
  stateAt db p k = Some cur ->
  initialised db' /\
  exists cur', stateAt db' p k = Some cur' /\
    (se_Version cur' = se_Version cur \/ se_Version cur' = wrapU64 (se_Version cur + 1)).
Proof.
  unfold handlerOf. intros Hh E I R C.
  assert (db_state db' = db_state db -> stateAt db' p k = Some cur) as Same.
  { intros Q. unfold stateAt. by rewrite Q. }
  repeat case_match_hyp Hh; boolify; simplify_eq.
  - unfold applyPluginInstall in E. bind_inv E. simplify_eq. destruct I as (? & ? & ? & ?).
    split; [by repeat split; eauto|eauto].
  - destruct (uninstall_data _ _ _ E) as (_ & St & _ & Ks).
    assert (initialised db') as I'.
    { unfold applyPluginUninstall in E. bind_inv E. simplify_eq. destruct I as (? & ? & ? & ?).
      by repeat split; eauto. }
    split; [done|]. exists cur. rewrite St, decide_False; [auto|]. intros ->. apply R. left. auto.
  - unfold applyTrustedKeyAdd in E. bind_inv E. simplify_eq. destruct I as (? & ? & ? & ?).
    split; [by repeat split; eauto|eauto].
  - unfold applyTrustedKeyRemove in E. bind_inv E. simplify_eq. destruct I as (? & ? & ? & ?).
    split; [by repeat split; eauto|eauto].
  - pose proof (put_cases op db I) as P. rewrite E in P. destruct P as (_ & St & _ & _ & _ & I').
    split; [done|]. rewrite St. case_decide as D; [|eauto]. destruct D as [-> ->].
    eexists. split; [done|]. simpl. rewrite C. simpl. auto.
  - destruct (delete_data _ _ _ I E) as [I' St]. split; [done|]. exists cur.
    rewrite St, decide_False; [auto|]. intros [-> ->]. apply R. right. auto.
  - unfold applyHookRegister in E. bind_inv E. simplify_eq. destruct I as (? & ? & ? & ?).
    split; [by repeat split; eauto|eauto].
  - unfold applyHookUnregister in E. bind_inv E. simplify_eq. destruct I as (? & ? & ? & ?).
    split; [by repeat split; eauto|eauto].
Qed.

Lemma Apply_cases op db f r : Apply (Ok op) (Some db) = (f, r) ->
  (f = Some db /\ ar_Success r = false) \/
  exists h db', handlerOf (op_Type op) = Some h /\ h op db = Ok db' /\ f = Some db' /\
    ar_Success r = true.
Proof.
  simpl. destruct (handlerOf _) as [h|] eqn:Hh; [|intros [= <- <-]; auto].
  destruct (h op db) eqn:E; intros [= <- <-]; eauto 10.
Qed.

(** A sequence of log entries. *)
Fixpoint applyAll (ops : list LoaderFSMOp) (f : option LoaderDB)
  : option LoaderDB * list FSMApplyResult :=
  match ops with
  | [] => (f, [])
  | op :: ops =>
    let '(f, r) := Apply (Ok op) f in let '(f, rs) := applyAll ops f in (f, r :: rs)
  end.

Lemma applyAll_version ops db p k cur v f rs :
  initialised db -> stateAt db p k = Some cur -> 0 <= v < se_Version cur ->
  se_Version cur + Z.of_nat (length ops) < 2 ^ 64 ->
  Forall (fun op => ~ removes p k op) ops -> applyAll ops (Some db) = (f, rs) ->
  exists db' cur', f = Some db' /\ initialised db' /\ stateAt db' p k = Some cur' /\
    v < se_Version cur'.
Proof.
  intros I C V B F. revert db cur rs I C V B. induction F as [|op ops R F IH]; intros db cur rs I C V B E.
  { simpl in E. simplify_eq. destruct V. eauto 10. }
  cbn [applyAll] in E. destruct (Apply (Ok op) (Some db)) as [f1 r1] eqn:A.
  destruct (applyAll ops f1) as [f2 rs2] eqn:L. simplify_eq. simpl in B.
  apply Apply_cases in A as [[-> _]|(h & db1 & Hh & E1 & -> & _)].
  - eapply IH; try done; lia.
  - destruct (handler_version h op db db1 p k cur) as (I1 & cur1 & C1 & V1); [done..|].
    assert (se_Version cur <= se_Version cur1 <= se_Version cur + 1) as V2.
    { destruct V1 as [->| ->]; [lia|]. unfold wrapU64. rewrite wrapU_id; lia. }
    eapply IH; try done; lia.
Qed.

(** C31: compare-and-swap loses no update.  When a [state_put] that expects
    version v > 0 of a plugin's key succeeded, another [state_put] that
    expects v fails and changes nothing, whatever operations lie between, as
    long as none of them deletes the key or uninstalls the plugin (and the
    64-bit version does not wrap). *)
Theorem cas_succeeds_once (db : LoaderDB) (p k : string) (v : Z) (a b : bytes)
    (mid : list LoaderFSMOp) (f1 f2 f3 : option LoaderDB) (r1 r3 : FSMApplyResult)
    (rs : list FSMApplyResult) :
  initialised db -> 0 < v -> v + 1 + Z.of_nat (length mid) < 2 ^ 64 ->
  Forall (fun op => ~ removes p k op) mid ->
  Apply (Ok (mkOp OpStatePut p k a v)) (Some db) = (f1, r1) -> ar_Success r1 = true ->
  applyAll mid f1 = (f2, rs) ->
  Apply (Ok (mkOp OpStatePut p k b v)) f2 = (f3, r3) ->
  ar_Success r3 = false /\ f3 = f2.
Proof.
  intros I V B F A1 S1 M A3.
  apply Apply_cases in A1 as [[_ ?]|(h & db1 & Hh & E1 & -> & _)]; [congruence|].
  assert (h = applyStatePut) as -> by (injection Hh; done).
  pose proof (put_cases (mkOp OpStatePut p k a v) db I) as P. rewrite E1 in P. simpl in P.
  destruct P as (Cur & St & _ & _ & _ & I1). destruct (Cur V) as (cur & C & VC).
  specialize (St p k). rewrite decide_True in St by done. rewrite C in St. simpl in St.
  unfold wrapU64 in St. rewrite wrapU_id in St by lia.
  destruct (applyAll_version mid db1 p k (mkEntry a (se_Version cur + 1)) v f2 rs)
    as (db2 & cur2 & -> & I2 & C2 & V2); simpl; try done; try lia.
  apply Apply_cases in A3 as [[-> ?]|(h & db3 & Hh3 & E3 & -> & _)]; [done|].
  assert (h = applyStatePut) as -> by (injection Hh3; done).
  pose proof (put_cases (mkOp OpStatePut p k b v) db2 I2) as P. rewrite E3 in P. simpl in P.
  destruct P as (Cur3 & _). destruct (Cur3 V) as (cur3 & C3 & VC3). simplify_eq. lia.
Qed.

(** uninstalling a plugin removes its data and nothing else.  Given the
    four buckets and no disk fault, [plugin_uninstall] of a name without a
    colon succeeds; afterwards the plugin has no registry entry, no state and
    no hook, and every other plugin's entry, state and hooks (names without a
    colon) and the trusted keys are as before. *)
Theorem uninstall_removes_plugin_data `{!BoltReliable, !BoltNestedReliable}
    (db : LoaderDB) (p key : string) (data : bytes) (v : Z) :
  initialised db -> nochar ":"%char p = true ->
  exists db', Apply (Ok (mkOp OpPluginUninstall p key data v)) (Some db)
      = (Some db', mkApply true "") /\
    (forall n, installed db' n = if decide (n = p) then None else installed db n) /\
    (forall n k, stateAt db' n k = if decide (n = p) then None else stateAt db n k) /\
    (forall n id, nochar ":"%char n = true ->
      hookAt db' n id = if decide (n = p) then None else hookAt db n id) /\
    db_keys db' = db_keys db.
Proof.
  intros I N. destruct (uninstall_ok (mkOp OpPluginUninstall p key data v) db I) as [db' E].
  exists db'. destruct (uninstall_data _ _ _ E) as (R & St & Hk & K). simpl in *.
  split_and!; [by rewrite E|done..| |done].
  intros n id Nn. unfold hookAt. rewrite Hk, HasPrefix_colon by done.
  by repeat case_decide; repeat case_bool_decide.
Qed.
End Data.

(** ** Examples on the maps *)

Section Examples.
Import MapBolt MapNested.
#[local] Instance quoteId : GoQuote := {| Quote s := s |}.

Definition emptyDB : LoaderDB := mkDB (Some bEmpty) (Some bEmpty) (Some bEmpty) (Some bEmpty).
Definition put (p k : string) (d : bytes) (v : Z) : LoaderFSMOp := mkOp OpStatePut p k d v.
Definition afterTwoPuts : option LoaderDB := (applyAll [put "p" "k" [1] 0; put "q" "k" [2] 0] (Some emptyDB)).1.

Lemma cas_succeeds_once_witness :
  let db1 := (applyAll [put "p" "k" [1] 0] (Some emptyDB)).1 in
  let db2 := (Apply (Ok (put "p" "k" [2] 1)) db1).1 in
  let db3 := (applyAll [put "p" "j" [3] 0] db2).1 in
  (Apply (Ok (put "p" "k" [2] 1)) db1).2 = mkApply true "" /\
  ar_Success (Apply (Ok (put "p" "k" [9] 1)) db3).2 = false.
Proof.
  intros db1 db2 db3. split; [vm_compute; reflexivity|].
  destruct (cas_succeeds_once (default emptyDB db1) "p" "k" 1 [2] [9] [put "p" "j" [3] 0] db2 db3
    (Apply (Ok (put "p" "k" [9] 1)) db3).1 (mkApply true "") (Apply (Ok (put "p" "k" [9] 1)) db3).2
    [mkApply true ""]) as [S _]; try done.
  repeat constructor. intros [[X _]|[X _]]; discriminate X.
Defined.

Lemma uninstall_removes_plugin_data_witness :
  exists db', (Apply (Ok (mkOp OpPluginUninstall "p" "" [] 0)) afterTwoPuts).1 = Some db' /\
    stateAt db' "p" "k" = None /\ stateAt db' "q" "k" = Some (mkEntry [2] 1).
Proof.
  destruct (uninstall_removes_plugin_data (default emptyDB afterTwoPuts) "p" "" [] 0)
    as (db' & E & _ & S & _); [unfold initialised; split_and!; eexists; reflexivity|reflexivity|].
  exists db'. split_and!.
  - change afterTwoPuts with (Some (default emptyDB afterTwoPuts)). by rewrite E.
  - rewrite S. by rewrite decide_True.
  - rewrite S. rewrite decide_False by done. vm_compute. reflexivity.
Defined.

(** A deleted key starts again at version 1: a writer that read the first
    value and expects version 1 overwrites the second. *)
Example version_restarts_after_delete :
  (applyAll [put "p" "k" [1] 0; mkOp OpStateDelete "p" "k" [] 0; put "p" "k" [2] 0; put "p" "k" [3] 1]
    (Some emptyDB)).2 = [mkApply true ""; mkApply true ""; mkApply true ""; mkApply true ""].
Proof. vm_compute. reflexivity. Qed.
End Examples.
