(* ===== verification/PluginTrust.v ===== *)
(** * Plugin capability tokens (internal/pluginloader/capability.go)

    A token is a random 63-bit number; the table maps it to the plugin, its
    trust tier and the capability strings it was granted. *)

From S2P Require Import Prelude GoStrings GoText Bolt.
From Stdlib Require Import Ascii String.
From stdpp Require Import base list.

#[local] Open Scope Z_scope.

Notation CapabilityToken := Z (only parsing).

Record Capability := mkCap {
  cap_PluginName : string;
  cap_TrustTier : Z;
  cap_Capabilities : list string;
  cap_IssuedAt : Time;
  cap_ExpiresAt : Time;      (** zero for no expiry *)
  cap_revoked : bool
}.

Notation CapabilityTable := (gmap Z Capability).
Definition NewCapabilityTable : CapabilityTable := ∅.

(** [binary.LittleEndian.Uint64]. *)
Definition le64 (b : bytes) : Z := foldr (fun x n => x + 256 * n) 0 b.

(** The loop of [Issue]: [draw i] is what [rand.Read] of 8 bytes gives in the
    i-th attempt. *)
Fixpoint issueLoop (attempts : nat) (i : nat) (draw : nat -> res bytes) (c : Capability)
    (t : CapabilityTable) : CapabilityTable * res CapabilityToken :=
  match attempts with
  | O => (t, Err "failed to issue unique token after 8 attempts")
  | S attempts =>
    match wrapErr "failed to generate token" (draw i) with
    | Err e => (t, Err e)
    | Panic w => (t, Panic w)
    | Ok buf =>
      let id := Z.ldiff (le64 buf) (Z.shiftl 1 63) in
      if id =? 0 then issueLoop attempts (S i) draw c t
      else
        match t !! id with
        | Some _ => issueLoop attempts (S i) draw c t
        | None => (<[id := c]> t, Ok id)
        end
    end
  end.

Definition Issue (draw : nat -> res bytes) (now : Time) (pluginName : string) (tier : Z)
    (caps : list string) (expiresAt : Time) (t : CapabilityTable)
  : CapabilityTable * res CapabilityToken :=
  if bool_decide (pluginName = ""%string) then (t, Err "plugin name is required")
  else issueLoop 8 0 draw (mkCap pluginName tier caps now expiresAt false) t.

Definition cap_Lookup (now : Time) (tok : CapabilityToken) (t : CapabilityTable) : option Capability :=
  match t !! tok with
  | None => None
  | Some c =>
    if cap_revoked c then None
    else if negb (IsZero (cap_ExpiresAt c)) && After now (cap_ExpiresAt c) then None
    else Some c
  end.

Definition revoke (c : Capability) : Capability :=
  mkCap (cap_PluginName c) (cap_TrustTier c) (cap_Capabilities c) (cap_IssuedAt c) (cap_ExpiresAt c)
    true.
Definition Revoke (tok : CapabilityToken) (t : CapabilityTable) : CapabilityTable :=
  match t !! tok with Some c => <[tok := revoke c]> t | None => t end.
Definition caps_Delete (tok : CapabilityToken) (t : CapabilityTable) : CapabilityTable :=
  delete tok t.

Definition ownedBy (pluginName : string) (c : Capability) : bool :=
  bool_decide (cap_PluginName c = pluginName).
Definition RevokeAllForPlugin (pluginName : string) (t : CapabilityTable)
  : CapabilityTable * Z :=
  ((fun c => if ownedBy pluginName c then revoke c else c) <$> t,
   Z.of_nat (size (filter (fun kc => ownedBy pluginName kc.2 = true) t))).
Definition Count (t : CapabilityTable) : Z :=
  Z.of_nat (size (filter (fun kc => cap_revoked kc.2 = false) t)).

Definition capabilityMatches (granted requested : string) : bool :=
  if bool_decide (granted = requested) then true
  else if HasPrefix granted (requested +:+ ":") then true
  else if negb (HasSuffix granted "*") then false
  else HasPrefix requested (TrimSuffix granted "*").

Definition HasCapability (requested : string) (c : Capability) : bool :=
  existsb (fun granted => capabilityMatches granted requested) (cap_Capabilities c).

Definition tier2Prefixes : list string :=
  ["iam:policy:evaluate"; "kms:datakey:generate"; "crypto:audit:sign";
   "gateway:hook:register_for_other"]%string.
Definition IsTier2Only (capability : string) : bool :=
  existsb (fun p => bool_decide (capability = p) || HasPrefix capability (p +:+ ":")) tier2Prefixes.

Record ErrUnauthorized := mkUnauthorized { ue_Capability : string; ue_Reason : string }.

Definition Authorize (now : Time) (tok : CapabilityToken) (requested : string)
    (t : CapabilityTable) : unit + ErrUnauthorized :=
  match cap_Lookup now tok t with
  | None => inr (mkUnauthorized requested "token unknown, revoked, or expired")
  | Some c =>
    if IsTier2Only requested && (cap_TrustTier c <? 2)
    then inr (mkUnauthorized requested "capability requires Tier 2 trust")
    else if negb (HasCapability requested c)
    then inr (mkUnauthorized requested "capability not granted to this token")
    else inl tt
  end.

(** ** Plugin trust (internal/pluginloader/trust.go)

    Trusted Ed25519 keys and the trust tier a plugin gets from its signature.
    The cryptographic functions and the base64 decoder are parameters. *)

Class TrustLib := {
  sha256 : bytes -> bytes;
  (** [ed25519.Verify(pub, message, sig)] for a public key of 32 bytes. *)
  ed25519_Verify : bytes -> bytes -> bytes -> bool;
  (** [base64.StdEncoding.DecodeString]. *)
  base64_Decode : string -> res bytes
}.

Definition ed25519_PublicKeySize : Z := 32.
Definition ed25519_SignatureSize : Z := 64.

Definition TierUntrusted : Z := 0.
Definition TierTrusted : Z := 1.
Definition TierCore : Z := 2.

Record TrustedKey := mkTrustedKey {
  tk_KeyID : string;
  tk_PublicKey : string;
  tk_IsCore : bool;
  tk_AddedAt : string;
  tk_AddedBy : string
}.

Record TrustStore := mkTrust {
  ts_keys : gmap string TrustedKey;
  ts_pubKeys : gmap string bytes
}.

Section Trust.
Context `{TrustLib} `{GoQuote}.

Definition lenZ (b : bytes) : Z := Z.of_nat (length b).

(** One key of [LoadKeys], and [AddKey]. *)
Definition AddKey (k : TrustedKey) (ts : TrustStore) : res TrustStore :=
  if bool_decide (tk_KeyID k = ""%string) then Err "trusted key missing key_id"
  else
    pub ← wrapErr ("key " +:+ Quote (tk_KeyID k) +:+ ": invalid base64 public key")
            (base64_Decode (tk_PublicKey k));
    if negb (lenZ pub =? ed25519_PublicKeySize)
    then Err ("key " +:+ Quote (tk_KeyID k) +:+ ": ed25519 public key must be "
              +:+ pretty ed25519_PublicKeySize +:+ " bytes, got " +:+ pretty (length pub))
    else Ok (mkTrust (<[tk_KeyID k := k]> (ts_keys ts)) (<[tk_KeyID k := pub]> (ts_pubKeys ts))).

Fixpoint addKeys (keys : list TrustedKey) (ts : TrustStore) : TrustStore * res unit :=
  match keys with
  | [] => (ts, Ok tt)
  | k :: keys =>
    match AddKey k ts with
    | Ok ts => addKeys keys ts
    | Err e => (ts, Err e)
    | Panic w => (ts, Panic w)
    end
  end.

(** [LoadKeys], given the outcome of parsing the JSON (no keys for an empty
    file); the store it leaves and the error. *)
Definition LoadKeys (parsed : res (list TrustedKey)) (ts : TrustStore) : TrustStore * res unit :=
  match wrapErr "failed to parse trusted_keys.json" parsed with
  | Ok keys => addKeys keys (mkTrust ∅ ∅)
  | Err e => (ts, Err e)
  | Panic w => (ts, Panic w)
  end.

(** [LoadTrustStore]: no path, a file that cannot be read, or its contents. *)
Inductive keysFile := NoPath | NotExist | ReadFails (e : string) | Contents (parsed : res (list TrustedKey)).
Definition LoadTrustStore (path : string) (f : keysFile) : res TrustStore :=
  let ts := mkTrust ∅ ∅ in
  match f with
  | NoPath | NotExist => Ok ts
  | ReadFails e => Err ("failed to read trusted keys " +:+ Quote path +:+ ": " +:+ e)
  | Contents parsed =>
    match LoadKeys parsed ts with
    | (ts, Ok _) => Ok ts
    | (_, Err e) => Err e
    | (_, Panic w) => Panic w
    end
  end.

Definition TrustDigest (manifestJSON wasmBytes : bytes) : bytes := sha256 (manifestJSON ++ wasmBytes).

Definition VerifySignature (manifestJSON wasmBytes sig : bytes) (keyID : string) (ts : TrustStore)
  : res (Z * string) :=
  if bool_decide (keyID = ""%string) then Err "key_id is empty"
  else if negb (lenZ sig =? ed25519_SignatureSize)
  then Err ("invalid ed25519 signature length: got " +:+ pretty (length sig) +:+ ", want "
            +:+ pretty ed25519_SignatureSize)
  else
    match ts_pubKeys ts !! keyID with
    | None => Err ("key " +:+ Quote keyID +:+ " is not in trusted_keys.json")
    | Some pub =>
      if negb (ed25519_Verify pub (TrustDigest manifestJSON wasmBytes) sig)
      then Err "signature verification failed"
      else
        let core := match ts_keys ts !! keyID with Some k => tk_IsCore k | None => false end in
        Ok (if core then TierCore else TierTrusted, keyID)
    end.

Definition DetermineEffectiveTier (requestedTier : Z) (manifestJSON wasmBytes sig : bytes)
    (keyID : string) (ts : TrustStore) : res (Z * string) :=
  if (requestedTier <? TierUntrusted) || (TierCore <? requestedTier)
  then Err ("invalid trust tier requested: " +:+ pretty requestedTier)
  else if (lenZ sig =? 0) || bool_decide (keyID = ""%string) then
    if requestedTier =? TierCore then Err "Tier 2 plugin requires a core signature"
    else Ok (TierUntrusted, ""%string)
  else
    match ts_pubKeys ts !! keyID with
    | None =>
      if requestedTier =? TierCore
      then Err ("Tier 2 plugin signed by unknown key " +:+ Quote keyID)
      else Ok (TierUntrusted, ""%string)
    | Some _ =>
      '(tier, kid) ← VerifySignature manifestJSON wasmBytes sig keyID ts;
      if (requestedTier =? TierCore) && (tier <? TierCore)
      then Err ("plugin requested Tier 2 but signed by non-core key " +:+ Quote kid)
      else if tier <? requestedTier then Ok (tier, kid)
      else Ok (requestedTier, kid)
    end.

Definition RemoveKey (keyID : string) (ts : TrustStore) : TrustStore * bool :=
  (mkTrust (delete keyID (ts_keys ts)) (delete keyID (ts_pubKeys ts)),
   bool_decide (is_Some (ts_keys ts !! keyID))).

(** [Keys] and [KeyIDs], sorted by key id. *)
Definition sortByID {V} (l : list (string * V)) : list (string * V) :=
  merge_sort key_le l.
Definition Keys (ts : TrustStore) : list TrustedKey := snd <$> sortByID (map_to_list (ts_keys ts)).
Definition KeyIDs (ts : TrustStore) : list string := fst <$> sortByID (map_to_list (ts_keys ts)).
End Trust.

(** ** Plugin capabilities and trust: theorems *)

(** ** Capability tokens *)

Lemma revokeAll_lookup p t tok :
  (RevokeAllForPlugin p t).1 !! tok
  = (fun c => if ownedBy p c then revoke c else c) <$> t !! tok.
Proof. unfold RevokeAllForPlugin. simpl. apply lookup_fmap. Qed.

Lemma Lookup_revokeAll now p t tok :
  cap_Lookup now tok (RevokeAllForPlugin p t).1
  = match cap_Lookup now tok t with
    | Some c => if ownedBy p c then None else Some c
    | None => None
    end.
Proof.
  unfold cap_Lookup. rewrite revokeAll_lookup. destruct (t !! tok) as [c|]; [|done]. simpl.
  destruct (ownedBy p c) eqn:O; simpl.
  - destruct (cap_revoked c); [done|]. destruct (_ && _); [done|]. by rewrite O.
  - destruct (cap_revoked c); [done|]. destruct (_ && _); [done|]. by rewrite O.
Qed.

Lemma Lookup_Revoke now tok other t c :
  cap_Lookup now tok (Revoke other t) = Some c -> cap_Lookup now tok t = Some c.
Proof.
  unfold cap_Lookup, Revoke. destruct (t !! other) as [c'|] eqn:E; [|done].
  destruct (decide (other = tok)) as [->|N].
  - rewrite lookup_insert_eq. simpl. by destruct (t !! tok).
  - by rewrite lookup_insert_ne.
Qed.

(** revoking a plugin ends exactly its authority.  After
    [RevokeAllForPlugin], a token authorises a capability if and only if it
    did before and belongs to another plugin, and no later revocation or
    revocation of another plugin brings it back. *)
Theorem revoked_plugin_has_no_authority (t : CapabilityTable) (p q : string) (now : Time)
    (tok other : CapabilityToken) (requested : string) :
  let t' := (RevokeAllForPlugin p t).1 in
  (Authorize now tok requested t' = inl tt <->
   Authorize now tok requested t = inl tt /\
   forall c, t !! tok = Some c -> cap_PluginName c <> p) /\
  (Authorize now tok requested (Revoke other (RevokeAllForPlugin q t').1) = inl tt ->
   Authorize now tok requested t' = inl tt).
Proof.
  intros t'. split.
  - unfold Authorize, t'. rewrite Lookup_revokeAll. unfold cap_Lookup.
    destruct (t !! tok) as [c|]; [|naive_solver].
    destruct (cap_revoked c); [naive_solver|]. destruct (_ && After _ _); [naive_solver|].
    destruct (ownedBy p c) eqn:O; unfold ownedBy in O; boolify.
    + split; [done|]. intros [_ N]. by destruct (N c).
    + split; [|naive_solver]. intros A. split; [done|]. by intros ? [= <-].
  - unfold Authorize.
    destruct (cap_Lookup now tok (Revoke other (RevokeAllForPlugin q t').1)) as [c|] eqn:E; [|done].
    apply Lookup_Revoke in E. rewrite Lookup_revokeAll in E.
    destruct (cap_Lookup now tok t') as [c'|]; [|done]. destruct (ownedBy q c'); by simplify_eq.
Qed.

(** What a grant covers: itself, the base it refines, and for a trailing star
    every request with its prefix. *)
Lemma stake_sdrop n s : stake n s +:+ sdrop n s = s.
Proof.
  revert s. induction n as [|n IH]; intros [|c s]; try done.
  change (String c (stake n s +:+ sdrop n s) = String c s). by rewrite IH.
Qed.
Lemma HasSuffix_app p x : HasSuffix (p +:+ x) x = true.
Proof.
  unfold HasSuffix. rewrite length_sapp, (proj2 (Nat.leb_le _ _)) by lia.
  apply bool_decide_eq_true. replace (_ - _)%nat with (String.length p) by lia. apply sdrop_app.
Qed.
Lemma TrimSuffix_app p x : TrimSuffix (p +:+ x) x = p.
Proof.
  unfold TrimSuffix. rewrite HasSuffix_app, length_sapp.
  replace (_ - _)%nat with (String.length p) by lia. apply stake_app.
Qed.
Lemma HasSuffix_split g x : HasSuffix g x = true -> g = TrimSuffix g x +:+ x.
Proof.
  intros S. unfold TrimSuffix. rewrite S. unfold HasSuffix in S.
  apply andb_true_iff in S as [_ S]. boolify.
  pose proof (stake_sdrop (String.length g - String.length x) g) as Q. by rewrite S in Q.
Qed.
Lemma HasPrefix_iff s p : HasPrefix s p = true <-> exists t, s = p +:+ t.
Proof.
  split; [|intros [t ->]; apply HasPrefix_app]. unfold HasPrefix. revert s.
  induction p as [|c p IH]; intros [|d s]; simpl; try done; [by eexists..|].
  destruct (ascii_dec c d) as [->|]; [|done]. intros P. destruct (IH s P) as [t ->]. by exists t.
Qed.

(** a grant authorises a request exactly when it equals it, or refines it
    with a scope (request, colon, more), or ends in a star and the request
    starts with what is before the star. *)
Theorem capability_match_meaning (granted requested : string) :
  capabilityMatches granted requested = true <->
  granted = requested \/
  (exists scope, granted = requested +:+ ":" +:+ scope) \/
  (exists base rest, granted = base +:+ "*" /\ requested = base +:+ rest).
Proof.
  unfold capabilityMatches. case_bool_decide as E; [by split; auto|].
  destruct (HasPrefix granted (requested +:+ ":")) eqn:P.
  { split; [|done]. intros _. right. left. apply HasPrefix_iff in P as [t ->]. exists t.
    by rewrite sapp_assoc. }
  assert (~ exists scope, granted = requested +:+ ":" +:+ scope) as NP.
  { intros [t ->]. rewrite sapp_assoc, HasPrefix_app in P. done. }
  destruct (HasSuffix granted "*") eqn:S; simpl.
  - apply HasSuffix_split in S. rewrite HasPrefix_iff. split.
    + intros [t Et]. right. right. by exists (TrimSuffix granted "*"), t.
    + intros [?|[?|(b & r & -> & ->)]]; [done..|]. exists r. by rewrite TrimSuffix_app.
  - split; [done|]. intros [?|[?|(b & r & -> & ->)]]; [done..|].
    by rewrite HasSuffix_app in S.
Qed.

(** A grant without a star authorises its base as well as itself. *)
Example scoped_grant_authorises_base : capabilityMatches "storage:get:memories" "storage:get" = true.
Proof. vm_compute. reflexivity. Qed.

(** ** Trust *)

Section Trust.
Context `{TrustLib} `{GoQuote}.

(** The store's two maps have the same keys, each public key 32 bytes. *)
Definition trust_ok (ts : TrustStore) : Prop :=
  forall id, match ts_keys ts !! id, ts_pubKeys ts !! id with
  | Some k, Some pub => tk_KeyID k = id /\ base64_Decode (tk_PublicKey k) = Ok pub /\
                        lenZ pub = ed25519_PublicKeySize
  | None, None => True
  | _, _ => False
  end.

Lemma AddKey_ok k ts ts' : AddKey k ts = Ok ts' -> trust_ok ts -> trust_ok ts'.
Proof.
  unfold AddKey. case_bool_decide; [done|]. destruct (base64_Decode _) as [pub| |] eqn:B; simpl; try done.
  destruct (Z.eqb_spec (lenZ pub) ed25519_PublicKeySize); simpl; [|done]. intros [= <-] I id. simpl.
  destruct (decide (tk_KeyID k = id)) as [<-|N].
  - rewrite !lookup_insert_eq. done.
  - rewrite !lookup_insert_ne by done. apply I.
Qed.
Lemma addKeys_ok keys ts : trust_ok ts -> trust_ok (addKeys keys ts).1.
Proof.
  revert ts. induction keys as [|k keys IH]; intros ts I; simpl; [done|].
  destruct (AddKey k ts) eqn:A; simpl; try done. apply IH. by eapply AddKey_ok.
Qed.
Lemma LoadKeys_ok parsed ts : trust_ok ts -> trust_ok (LoadKeys parsed ts).1.
Proof.
  intros I. unfold LoadKeys. destruct parsed; simpl; try done. apply addKeys_ok.
  intros id. simpl. by rewrite !lookup_empty.
Qed.
Lemma RemoveKey_ok id ts : trust_ok ts -> trust_ok (RemoveKey id ts).1.
Proof.
  intros I x. simpl. destruct (decide (id = x)) as [<-|N].
  - by rewrite !lookup_delete_eq.
  - rewrite !lookup_delete_ne by done. apply I.
Qed.

(** What a signature of a tier above 0 shows. *)
Definition signed_by (ts : TrustStore) (mj wasm sig : bytes) (keyID : string) (k : TrustedKey) : Prop :=
  exists pub, ts_keys ts !! keyID = Some k /\ tk_KeyID k = keyID /\
    base64_Decode (tk_PublicKey k) = Ok pub /\ lenZ pub = ed25519_PublicKeySize /\
    lenZ sig = ed25519_SignatureSize /\ ed25519_Verify pub (TrustDigest mj wasm) sig = true.

Lemma VerifySignature_sound mj wasm sig keyID ts tier kid : trust_ok ts ->
  VerifySignature mj wasm sig keyID ts = Ok (tier, kid) ->
  kid = keyID /\ exists k, signed_by ts mj wasm sig keyID k /\
    tier = (if tk_IsCore k then TierCore else TierTrusted).
Proof.
  intros I. unfold VerifySignature. case_bool_decide; [done|].
  destruct (Z.eqb_spec (lenZ sig) ed25519_SignatureSize); simpl; [|done]. specialize (I keyID).
  destruct (ts_pubKeys ts !! keyID) as [pub|] eqn:P; [|done].
  destruct (ts_keys ts !! keyID) as [k|] eqn:K; [|done]. destruct I as (I1 & I2 & I3).
  destruct (ed25519_Verify _ _ _) eqn:V; simpl; [|done]. intros [= <- <-]. split; [done|].
  exists k. split; [|done]. exists pub. by split_and!.
Qed.

(** trust is never above what was signed.  The effective tier of an
    install is at most the requested one; a tier above 0 comes with a valid
    64-byte signature of the manifest and module under a loaded key, and
    tier 2 only from a core key.  A request for tier 2 gets tier 2 or an
    error, never a lower tier.  So a token of such an install authorises a
    tier-2 capability only for a plugin a core key signed. *)
Theorem tier_needs_signature (ts : TrustStore) (requested : Z) (mj wasm sig : bytes)
    (keyID kid : string) (tier : Z) :
  trust_ok ts -> DetermineEffectiveTier requested mj wasm sig keyID ts = Ok (tier, kid) ->
  TierUntrusted <= tier <= requested /\
  (TierUntrusted < tier -> exists k, signed_by ts mj wasm sig keyID k /\
    (tier = TierCore -> tk_IsCore k = true)) /\
  (requested = TierCore -> tier = TierCore) /\
  forall now tok t c req, t !! tok = Some c -> cap_TrustTier c = tier ->
    IsTier2Only req = true -> Authorize now tok req t = inl tt ->
    exists k, signed_by ts mj wasm sig keyID k /\ tk_IsCore k = true.
Proof.
  intros I E.
  assert (TierUntrusted <= tier <= requested /\
    (TierUntrusted < tier -> exists k, signed_by ts mj wasm sig keyID k /\
      (tier = TierCore -> tk_IsCore k = true)) /\ (requested = TierCore -> tier = TierCore))
    as (B & S & C).
  { unfold DetermineEffectiveTier in E. destruct (_ || (TierCore <? requested)) eqn:R; [done|].
    boolify. unfold TierUntrusted, TierCore, TierTrusted in *.
    destruct (_ || bool_decide (keyID = _)).
    { destruct (Z.eqb_spec requested 2); simplify_eq. split_and!; lia. }
    destruct (ts_pubKeys ts !! keyID) as [pub|].
    2: { destruct (Z.eqb_spec requested 2); simplify_eq. split_and!; lia. }
    apply bind_Ok in E as ([tr kd] & V & E). apply VerifySignature_sound in V as (-> & k & Sg & T); [|done].
    assert (tr = 2 -> tk_IsCore k = true) as Core.
    { rewrite T. unfold TierCore, TierTrusted. by destruct (tk_IsCore k). }
    assert (1 <= tr <= 2) as Tr.
    { rewrite T. unfold TierCore, TierTrusted. destruct (tk_IsCore k); lia. }
    repeat case_match_hyp E; simplify_eq; boolify; unfold TierCore in *; split_and!; try lia; intros;
      exists k; (split; [done|]); intros; apply Core; lia. }
  split_and!; [lia|lia|done|done|]. intros now tok t c req L T T2 A. unfold Authorize, cap_Lookup in A.
  rewrite L, T2 in A. repeat case_match_hyp A; simplify_eq. simpl in *. boolify.
  destruct S as (k & Sg & K); [unfold TierUntrusted; lia|]. exists k. split; [done|]. apply K.
  unfold DetermineEffectiveTier in E. destruct (_ || (TierCore <? requested)) eqn:R; [done|]. boolify.
  unfold TierCore in *. lia.
Qed.
End Trust.

Section Example.
#[local] Instance toyTrust : TrustLib := {|
  sha256 b := b;
  ed25519_Verify pub d sig := bool_decide (take 32 sig = pub);
  base64_Decode _ := Ok (repeat 0 32)
|}.
#[local] Instance quoteId : GoQuote := {| Quote s := s |}.
Definition coreStore : TrustStore :=
  mkTrust {["k" := mkTrustedKey "k" "" true "" ""]} {["k" := repeat 0 32]}.

Lemma tier_needs_signature_witness :
  DetermineEffectiveTier 2 [1] [2] (repeat 0 64) "k" coreStore = Ok (2, "k"%string) /\
  exists k, signed_by coreStore [1] [2] (repeat 0 64) "k" k /\ tk_IsCore k = true.
Proof.
  split; [vm_compute; reflexivity|].
  destruct (tier_needs_signature coreStore 2 [1] [2] (repeat 0 64) "k" "k" 2) as (_ & S & _).
  - intros id. unfold coreStore. simpl. destruct (decide (id = "k"%string)) as [->|N].
    + rewrite !lookup_singleton_eq. split_and!; reflexivity.
    + by rewrite !lookup_singleton_ne.
  - vm_compute. reflexivity.
  - destruct (S ltac:(unfold TierUntrusted; lia)) as (k & Sg & K). exists k. split; [done|by apply K].
Defined.
End Example.
