(* ===== verification/PluginManifest.v ===== *)
(** * Plugin resource limits (internal/pluginloader/resources.go)

    The envelope of a plugin as the minimum of the global, tier and manifest
    layers, and the token bucket.  Integers are 64 bits wide. *)

From S2P Require Import Prelude GoStrings GoFloat PluginTrust.
From Stdlib Require Import Ascii String SpecFloat.
From stdpp Require Import base list.

#[local] Open Scope Z_scope.

Definition wasmPageSize : Z := 64 * 1024.
Definition maxWasmPages : Z := 65536.

Record ResourceCap := mkRCap {
  rc_MemoryMB : Z;
  rc_FuelPerSec : Z;
  rc_CallTimeoutMS : Z;
  rc_IOBytesPerSec : Z;
  rc_Concurrent : Z
}.
Record ResourceLimits := mkRLimits {
  rl_Global : ResourceCap; rl_Tier0 : ResourceCap; rl_Tier1 : ResourceCap; rl_Tier2 : ResourceCap
}.

Definition defaultResourceCap : ResourceCap := mkRCap 512 0 1000 0 16.

Record EffectiveLimits := mkLimits {
  el_MemoryPages : Z;
  el_FuelPerSec : Z;
  el_CallTimeout : Duration;
  el_IOBytesPerSec : Z;
  el_Concurrent : Z
}.

(** The manifest's request; [mr_CallTimeout] is the field and what
    [time.ParseDuration] makes of it. *)
Record ManifestResources := mkMRes {
  mr_MemoryMB : Z;
  mr_FuelPerSec : Z;
  mr_CallTimeout : string;
  mr_IOBytesPerSec : Z;
  mr_Concurrent : Z
}.

Definition normalizeCap (cap fallback : ResourceCap) : ResourceCap :=
  let or a b := if a =? 0 then b else a in
  mkRCap (or (rc_MemoryMB cap) (rc_MemoryMB fallback))
    (or (rc_FuelPerSec cap) (rc_FuelPerSec fallback))
    (or (rc_CallTimeoutMS cap) (rc_CallTimeoutMS fallback))
    (or (rc_IOBytesPerSec cap) (rc_IOBytesPerSec fallback))
    (or (rc_Concurrent cap) (rc_Concurrent fallback)).

(** [uint64(mb) * 1024 * 1024 / wasmPageSize], with the products at width 64. *)
Definition mbToPages (mb : Z) : Z :=
  if mb <=? 0 then 0
  else
    let pages := wrapU64 (wrapU64 (mb * 1024) * 1024) / wasmPageSize in
    let pages := if maxWasmPages <? pages then maxWasmPages else pages in
    wrapU32 pages.

Definition msToDuration (ms : Z) : Duration := wrap64 (ms * Millisecond).
Definition minInt (a b : Z) : Z := if a <? b then a else b.

Definition GlobalMemoryPages (l : ResourceLimits) : Z :=
  mbToPages (rc_MemoryMB (normalizeCap (rl_Global l) defaultResourceCap)).

Section ForTier.
(** [time.ParseDuration]. *)
Context (ParseDuration : string -> res Duration).

Definition tierLayer (l : ResourceLimits) (tier : Z) : ResourceCap :=
  if tier =? TierTrusted then rl_Tier1 l
  else if tier =? TierCore then rl_Tier2 l
  else rl_Tier0 l.

Definition manifestLayer (m : ManifestResources) (el : EffectiveLimits) : EffectiveLimits :=
  mkLimits
    (if 0 <? mr_MemoryMB m then minInt (el_MemoryPages el) (mbToPages (mr_MemoryMB m))
     else el_MemoryPages el)
    (if 0 <? mr_FuelPerSec m then minInt (el_FuelPerSec el) (mr_FuelPerSec m)
     else el_FuelPerSec el)
    (if bool_decide (mr_CallTimeout m = ""%string) then el_CallTimeout el
     else match ParseDuration (mr_CallTimeout m) with
          | Ok d => if 0 <? d then minInt (el_CallTimeout el) d else el_CallTimeout el
          | _ => el_CallTimeout el
          end)
    (if 0 <? mr_IOBytesPerSec m then minInt (el_IOBytesPerSec el) (mr_IOBytesPerSec m)
     else el_IOBytesPerSec el)
    (if 0 <? mr_Concurrent m then minInt (el_Concurrent el) (mr_Concurrent m)
     else el_Concurrent el).

Definition ForTier (l : ResourceLimits) (tier : Z) (manifest : option ManifestResources)
  : EffectiveLimits :=
  let global := normalizeCap (rl_Global l) defaultResourceCap in
  let tierCap := normalizeCap (tierLayer l tier) global in
  let el := mkLimits
    (mbToPages (minInt (rc_MemoryMB tierCap) (rc_MemoryMB global)))
    (minInt (rc_FuelPerSec tierCap) (rc_FuelPerSec global))
    (minInt (msToDuration (rc_CallTimeoutMS tierCap)) (msToDuration (rc_CallTimeoutMS global)))
    (minInt (rc_IOBytesPerSec tierCap) (rc_IOBytesPerSec global))
    (minInt (rc_Concurrent tierCap) (rc_Concurrent global)) in
  let el := match manifest with Some m => manifestLayer m el | None => el end in
  mkLimits
    (if el_MemoryPages el =? 0 then mbToPages (rc_MemoryMB global) else el_MemoryPages el)
    (el_FuelPerSec el)
    (if el_CallTimeout el <=? 0 then msToDuration (rc_CallTimeoutMS global) else el_CallTimeout el)
    (el_IOBytesPerSec el)
    (if el_Concurrent el <=? 0 then rc_Concurrent global else el_Concurrent el).
End ForTier.

(** ** The token bucket *)

Record TokenBucket := mkBucket {
  tb_rate : float64; tb_burst : float64; tb_tokens : float64; tb_last : Time
}.

Definition fle (a b : float64) : bool := SFleb a b.
Definition flt (a b : float64) : bool := SFltb a b.
Definition feq (a b : float64) : bool := SFeqb a b.
(** [math.Min]. *)
Definition fmin (x y : float64) : float64 :=
  match x, y with
  | S754_infinity true, _ | _, S754_infinity true => S754_infinity true
  | S754_nan, _ | _, S754_nan => S754_nan
  | S754_zero s, S754_zero _ => if s then x else y
  | _, _ => if flt x y then x else y
  end.

Definition NewTokenBucket (rate burst : Z) (now : Time) : TokenBucket :=
  let r := fofZ rate in
  let b := fofZ burst in
  let b := if fle b (fofZ 0) then r else b in
  let b := if flt b (fofZ 1) then fofZ 1 else b in
  mkBucket r b b now.

Definition refill (now : Time) (b : TokenBucket) : TokenBucket :=
  mkBucket (tb_rate b) (tb_burst b)
    (fmin (fadd (tb_tokens b) (fmul (Seconds (Sub now (tb_last b))) (tb_rate b))) (tb_burst b)) now.

(** [TryConsume]; a nil bucket is unlimited. *)
Definition TryConsume (now : Time) (n : Z) (b : option TokenBucket) : option TokenBucket * bool :=
  match b with
  | None => (b, true)
  | Some b =>
    if feq (tb_rate b) (fofZ 0) then (Some b, true)
    else if fle (fofZ n) (fofZ 0) then (Some b, true)
    else
      let b := refill now b in
      if fge (tb_tokens b) (fofZ n)
      then (Some (mkBucket (tb_rate b) (tb_burst b) (fsub (tb_tokens b) (fofZ n)) (tb_last b)), true)
      else (Some b, false)
  end.

(** [Wait]: one round per reading of the clock in [clock]; [done i] is the
    context's error when it is cancelled while waiting after round [i].  [None]: the readings
    ran out while the call still waits. *)
Fixpoint waitLoop (clock : list Time) (done : nat -> option string) (i : nat) (n : Z) (b : TokenBucket)
  : option (TokenBucket * res unit) :=
  match clock with
  | [] => None
  | now :: clock =>
    let b := refill now b in
    if fge (tb_tokens b) (fofZ n)
    then Some (mkBucket (tb_rate b) (tb_burst b) (fsub (tb_tokens b) (fofZ n)) (tb_last b), Ok tt)
    else match done i with
         | Some e => Some (b, Err e)
         | None => waitLoop clock done (S i) n b
         end
  end.
Definition Wait (clock : list Time) (done : nat -> option string) (n : Z) (b : option TokenBucket)
  : option (option TokenBucket * res unit) :=
  match b with
  | None => Some (b, Ok tt)
  | Some t =>
    if feq (tb_rate t) (fofZ 0) then Some (b, Ok tt)
    else if fle (fofZ n) (fofZ 0) then Some (b, Ok tt)
    else '(t, r) ← waitLoop clock done 0 n t; Some (Some t, r)
  end.

(** ** Plugin manifests (internal/pluginloader/manifest.go)

    The declaration a plugin is installed with and its validation.  Semantic
    versions and cron expressions are parsed by packages outside the
    repository, so they are parameters. *)

Class ManifestLib := {
  Version : Type;
  Constraint : Type;
  semver_NewVersion : string -> res Version;
  semver_NewConstraint : string -> res Constraint;
  semver_Check : Constraint -> Version -> bool;
  (** [taskScheduleCronParser.Parse]. *)
  cron_Parse : string -> res unit
}.

Definition SupportedManifestVersion : string := "1.0".
Definition HostAPIVersion : string := "1.0.0".

Record ManifestHook := mkMHook {
  mh_Type : string; mh_Operation : string; mh_Condition : string; mh_Handler : string;
  mh_Priority : Z; mh_OnFailure : string; mh_Critical : bool
}.
Record ManifestRoute := mkMRoute { mrt_Prefix : string; mrt_Handler : string; mrt_SSESessions : bool }.
Record ManifestGrant := mkMGrant { mg_Plugin : string; mg_Keys : list string }.
Record ManifestTaskSchedule := mkMTask {
  mt_Schedule : string; mt_Payload : string; mt_Handler : string
}.
Record ManifestPipelineStep := mkMStep { mps_Name : string; mps_Handler : string }.
Record ManifestEventSubscription := mkMSub { mes_Events : list string; mes_Handler : string }.

(** The fields the loader reads (the others are documentation). *)
Record Manifest := mkManifest {
  m_ManifestVersion : string;
  m_APIVersion : string;
  m_Name : string;
  m_Version : string;
  m_TrustTierRequested : Z;
  m_Capabilities : list string;
  m_Hooks : list ManifestHook;
  m_Routes : list ManifestRoute;
  m_Resources : option ManifestResources;
  m_NetworkEgress : list string;
  m_DependsOn : list string;
  m_EventSubscriptions : list ManifestEventSubscription;
  m_TaskSchedules : list ManifestTaskSchedule;
  m_PipelineSteps : list ManifestPipelineStep;
  m_Grants : list ManifestGrant
}.

Record ErrManifestInvalid := mkInvalid { mi_Field : string; mi_Reason : string }.

(** [pluginNameRe]: a lower-case letter, 1 to 62 of [a-z0-9-], and a last
    character of [a-z0-9]. *)
Definition isLower (c : ascii) : bool :=
  (97 <=? nat_of_ascii c)%nat && (nat_of_ascii c <=? 122)%nat.
Definition isDigit (c : ascii) : bool :=
  (48 <=? nat_of_ascii c)%nat && (nat_of_ascii c <=? 57)%nat.
Definition isAlnum (c : ascii) : bool := isLower c || isDigit c.
Definition isMid (c : ascii) : bool := isAlnum c || bool_decide (c = "-"%char).
(** The characters after the first: all of the middle class, the last of the
    end class. *)
Fixpoint nameTail (s : string) : bool :=
  match s with
  | EmptyString => false
  | String c EmptyString => isAlnum c
  | String c s => isMid c && nameTail s
  end.
Definition pluginNameMatch (s : string) : bool :=
  match s with
  | EmptyString => false
  | String c t =>
    isLower c && nameTail t && (2 <=? String.length t)%nat && (String.length t <=? 63)%nat
  end.

(** The text of [pluginNameRe.String()]. *)
Definition pluginNameReText : string := "^[a-z][a-z0-9-]{1,62}[a-z0-9]$".

(** [for i, x := range l]: the first error. *)
Fixpoint firstErr {A E} (f : Z -> A -> option E) (i : Z) (l : list A) : option E :=
  match l with
  | [] => None
  | x :: l => match f i x with Some e => Some e | None => firstErr f (i + 1) l end
  end.

Definition hasCapability (caps : list string) (cap : string) : bool :=
  existsb (fun c => bool_decide (c = cap)) caps.

Section Validate.
Context `{ManifestLib} `{GoQuote}.

Definition validateAPIVersionRange (apiRange : string) : option string :=
  match semver_NewConstraint apiRange with
  | Err e | Panic e => Some ("invalid semver range " +:+ Quote apiRange +:+ ": " +:+ e)
  | Ok constraint =>
    match semver_NewVersion HostAPIVersion with
    | Err e | Panic e =>
      Some ("loader host API version " +:+ Quote HostAPIVersion +:+ " is not a valid semver: " +:+ e)
    | Ok hostVer =>
      if semver_Check constraint hostVer then None
      else Some ("api_version range " +:+ Quote apiRange +:+ " does not cover loader host API "
                 +:+ HostAPIVersion)
    end
  end.

Definition knownNamespaces : list string :=
  ["http"; "storage"; "vector"; "fts"; "state"; "event"; "pipeline"; "task"; "net"; "log";
   "metric"; "trace"; "iam"; "kms"; "crypto"; "gateway"]%string.
Definition validateCapability (cap : string) : option string :=
  if bool_decide (cap = ""%string) then Some "empty capability"%string
  else
    match Index cap ":" with
    | Some (S i) =>
      let ns := stake (S i) cap in
      if bool_decide (ns ∈ knownNamespaces) then None
      else Some ("unknown capability namespace " +:+ Quote ns +:+ " in " +:+ Quote cap)
    | _ => Some ("invalid capability " +:+ Quote cap +:+ " (expected namespace:name[:scope])")
    end.

Definition validateHook (h : ManifestHook) : option string :=
  if negb (bool_decide (mh_Type h ∈ ["before"; "after"; "around"]%string))
  then Some ("invalid hook type " +:+ Quote (mh_Type h) +:+ " (must be before|after|around)")
  else if bool_decide (mh_Operation h = ""%string) then Some "hook op is required"%string
  else if negb (HasPrefix (mh_Operation h) "s3:")
  then Some ("hook op " +:+ Quote (mh_Operation h) +:+ " must start with s3:")
  else if bool_decide (mh_Handler h = ""%string) then Some "hook handler is required"%string
  else if (mh_Priority h <? 0) || (99 <? mh_Priority h)
  then Some ("hook priority " +:+ pretty (mh_Priority h) +:+ " out of range (0-99)")
  else if negb (bool_decide (mh_OnFailure h ∈ [""; "deny"; "allow"; "log_and_allow"]%string))
  then Some ("invalid on_failure " +:+ Quote (mh_OnFailure h))
  else None.

Definition reservedRoutes : list string :=
  ["/"; "/admin/"; "/_plugins/"; "/metrics"; "/healthz"; "/readyz"; "/livez"]%string.
Definition validateRoute (r : ManifestRoute) : option string :=
  if negb (HasPrefix (mrt_Prefix r) "/")
  then Some ("route prefix " +:+ Quote (mrt_Prefix r) +:+ " must start with /")
  else
    match firstErr (fun _ rsv =>
        if bool_decide (mrt_Prefix r = rsv) || HasPrefix (mrt_Prefix r +:+ "/") rsv then
          if bool_decide (mrt_Prefix r = rsv)
          then Some ("route prefix " +:+ Quote (mrt_Prefix r) +:+ " is reserved") else None
        else None) 0 reservedRoutes with
    | Some e => Some e
    | None => if bool_decide (mrt_Handler r = ""%string) then Some "route handler is required"%string
              else None
    end.

Definition idx (field : string) (i : Z) : string := field +:+ "[" +:+ pretty i +:+ "]".

Definition validateTaskSchedule (i : Z) (ts : ManifestTaskSchedule) : option ErrManifestInvalid :=
  if bool_decide (mt_Schedule ts = ""%string)
  then Some (mkInvalid (idx "task_schedules" i +:+ ".schedule") "schedule is required")
  else
    match cron_Parse (mt_Schedule ts) with
    | Ok _ => None
    | Err e | Panic e =>
      Some (mkInvalid (idx "task_schedules" i +:+ ".schedule") ("invalid cron expression: " +:+ e))
    end.

Definition validatePipelineStep (i : Z) (ps : ManifestPipelineStep) (caps : list string)
  : option ErrManifestInvalid :=
  if bool_decide (mps_Name ps = ""%string)
  then Some (mkInvalid (idx "pipeline_steps" i +:+ ".name") "pipeline step name is required")
  else if negb (pluginNameMatch (mps_Name ps))
  then Some (mkInvalid (idx "pipeline_steps" i +:+ ".name")
              ("invalid pipeline step name " +:+ Quote (mps_Name ps)))
  else
    let requiredCap := "pipeline:step:" +:+ mps_Name ps in
    if hasCapability caps requiredCap then None
    else Some (mkInvalid (idx "pipeline_steps" i)
                ("pipeline step " +:+ Quote (mps_Name ps) +:+ " requires capability "
                 +:+ Quote requiredCap)).

(** The loop over the pipeline steps with the names seen so far. *)
Fixpoint validateSteps (caps : list string) (seen : gset string) (i : Z)
    (l : list ManifestPipelineStep) : option ErrManifestInvalid :=
  match l with
  | [] => None
  | ps :: l =>
    match validatePipelineStep i ps caps with
    | Some e => Some e
    | None =>
      if bool_decide (mps_Name ps ∈ seen)
      then Some (mkInvalid (idx "pipeline_steps" i +:+ ".name")
                  ("duplicate pipeline step name " +:+ Quote (mps_Name ps)))
      else validateSteps caps ({[mps_Name ps]} ∪ seen) (i + 1) l
    end
  end.

(** Checks one after the other; the first error ends them. *)
Definition andThen {E} (a b : option E) : option E := match a with Some e => Some e | None => b end.
#[local] Infix "<;>" := andThen (at level 62, right associativity).

Definition check (bad : bool) (field reason : string) : option ErrManifestInvalid :=
  if bad then Some (mkInvalid field reason) else None.
Definition inField (field : string) (e : option string) : option ErrManifestInvalid :=
  mkInvalid field <$> e.

Definition Validate (m : Manifest) : option ErrManifestInvalid :=
  check (negb (bool_decide (m_ManifestVersion m = SupportedManifestVersion))) "manifest_version"
    ("unsupported manifest_version " +:+ Quote (m_ManifestVersion m) +:+ " (loader supports "
     +:+ Quote SupportedManifestVersion +:+ ")") <;>
  check (bool_decide (m_APIVersion m = ""%string)) "api_version" "api_version is required" <;>
  inField "api_version" (validateAPIVersionRange (m_APIVersion m)) <;>
  check (negb (pluginNameMatch (m_Name m))) "name"
    ("invalid plugin name " +:+ Quote (m_Name m) +:+ " (must match " +:+ pluginNameReText
     +:+ "; 3-64 chars, lowercase alnum and '-')") <;>
  check (bool_decide (m_Version m = ""%string)) "version" "version is required" <;>
  match semver_NewVersion (m_Version m) with
  | Ok _ => None
  | Err e | Panic e =>
    Some (mkInvalid "version" ("invalid semver " +:+ Quote (m_Version m) +:+ ": " +:+ e))
  end <;>
  check ((m_TrustTierRequested m <? 0) || (2 <? m_TrustTierRequested m)) "trust_tier_requested"
    "must be 0, 1, or 2" <;>
  firstErr (fun i cap =>
    inField (idx "capabilities" i) (validateCapability cap) <;>
    check (IsTier2Only cap && (m_TrustTierRequested m <? TierCore)) (idx "capabilities" i)
      ("capability " +:+ Quote cap +:+ " requires trust_tier_requested = 2")) 0 (m_Capabilities m) <;>
  firstErr (fun i h => inField (idx "hooks" i) (validateHook h)) 0 (m_Hooks m) <;>
  firstErr (fun i r => inField (idx "routes" i) (validateRoute r)) 0 (m_Routes m) <;>
  firstErr (fun i dep => check (negb (pluginNameMatch dep)) (idx "depends_on" i)
    "invalid plugin name") 0 (m_DependsOn m) <;>
  firstErr (fun i sub =>
    check (bool_decide (mes_Events sub = [])) (idx "event_subscriptions" i +:+ ".events")
      "at least one event pattern is required" <;>
    firstErr (fun j pat => check (bool_decide (pat = ""%string))
      (idx (idx "event_subscriptions" i +:+ ".events") j) "empty event pattern") 0 (mes_Events sub))
    0 (m_EventSubscriptions m) <;>
  check (negb (bool_decide (m_TaskSchedules m = []))
         && negb (hasCapability (m_Capabilities m) "task:schedule")) "task_schedules"
    (let q := String (ascii_of_nat 34) EmptyString in
     "manifest declares task schedules but capability " +:+ q +:+ "task:schedule" +:+ q
     +:+ " is not granted") <;>
  firstErr validateTaskSchedule 0 (m_TaskSchedules m) <;>
  validateSteps (m_Capabilities m) ∅ 0 (m_PipelineSteps m).

(** [ParseManifest]: an empty input, the outcome of [json.Unmarshal], then
    validation. *)
Definition ParseManifest (raw : bytes) (parsed : res Manifest) : Manifest + string + ErrManifestInvalid :=
  match raw with
  | [] => inl (inr "manifest is empty"%string)
  | _ =>
    match parsed with
    | Err e | Panic e => inl (inr ("failed to parse manifest JSON: " +:+ e))
    | Ok m => match Validate m with Some e => inr e | None => inl (inl m) end
    end
  end.
End Validate.
