(* ===== verification/PluginManifestTheorems.v ===== *)
(** * Plugin manifests and resource limits: theorems *)

From S2P Require Import Prelude GoStrings GoText Bolt GoFloat PluginTrust PluginManifest.
From Stdlib Require Import Ascii String.
From stdpp Require Import base list.

#[local] Open Scope Z_scope.

Lemma nameTail_nocolon s : nameTail s = true -> nochar ":"%char s = true.
Proof.
  assert (forall c, isMid c = true -> bool_decide (c <> ":"%char) = true) as M.
  { intros c Hc. apply bool_decide_eq_true. intros ->. by vm_compute in Hc. }
  induction s as [|c s IH]; [done|]. intros E. simpl. destruct s as [|d s].
  - simpl in *. rewrite M; [done|]. unfold isMid. by rewrite E.
  - cbn [nameTail] in E. apply andb_true_iff in E as [E1 E2]. rewrite M by done. by apply IH.
Qed.
(** A plugin name has no colon, so its hooks and state keys do not mix with
    another plugin's. *)
Lemma plugin_name_nocolon s : pluginNameMatch s = true -> nochar ":"%char s = true.
Proof.
  destruct s as [|c s]; [done|]. unfold pluginNameMatch. intros E. boolify. simpl.
  rewrite nameTail_nocolon by done. rewrite bool_decide_true; [done|]. intros ->. done.
Qed.

Lemma firstErr_None {A E} (f : Z -> A -> option E) (P : A -> Prop) l :
  (forall j x, x ∈ l -> f j x = None <-> P x) -> forall i, firstErr f i l = None <-> forall x, x ∈ l -> P x.
Proof.
  intros F. induction l as [|x l IH]; intros i; simpl.
  { split; [|done]. intros _ x I. by apply elem_of_nil in I. }
  assert (forall j y, y ∈ l -> f j y = None <-> P y) as F' by (intros; apply F; set_solver).
  pose proof (F i x ltac:(set_solver)) as Fx. destruct (f i x).
  - split; [done|]. intros H. assert (P x) as X by (apply H; set_solver). by apply Fx in X.
  - rewrite (IH F'). split; intros H y; [|intros; apply H; set_solver].
    rewrite elem_of_cons. intros [->|]; [by apply Fx|auto].
Qed.
Lemma andThen_None {E} (a b : option E) : andThen a b = None <-> a = None /\ b = None.
Proof. destruct a; simpl; naive_solver. Qed.
Lemma check_None bad field reason : check bad field reason = None <-> bad = false.
Proof. by destruct bad. Qed.
Lemma inField_None field e : inField field e = None <-> e = None.
Proof. by destruct e. Qed.
Lemma hasCapability_iff caps cap : hasCapability caps cap = true <-> cap ∈ caps.
Proof.
  unfold hasCapability. rewrite existsb_exists. setoid_rewrite bool_decide_eq_true.
  split; [intros (x & I & ->); by apply list_elem_of_In|]. intros I. exists cap.
  split; [by apply list_elem_of_In|done].
Qed.

Lemma Index_colon s i : Index s ":" = Some i <->
  exists rest, s = stake i s +:+ ":" +:+ rest /\ nochar ":"%char (stake i s) = true /\ String.length (stake i s) = i.
Proof.
  revert i. induction s as [|c s IH]; intros i.
  { split; [done|]. intros (rest & E & _). destruct i; discriminate E. }
  cbn [Index]. destruct (decide (c = ":"%char)) as [->|N].
  - assert (HasPrefix (String ":" s) ":" = true) as -> by (by destruct s). split.
    + intros [= <-]. exists s. done.
    + destruct i as [|i]; [done|]. intros (rest & _ & X & _). done.
  - assert (HasPrefix (String c s) ":" = false) as ->.
    { unfold HasPrefix. cbn [String.prefix]. by destruct (ascii_dec ":" c). }
    destruct i as [|i].
    + split; [by destruct (Index s ":")|]. intros (rest & X & _). injection X as ->. done.
    + split.
      * destruct (Index s ":") as [j|] eqn:J; [|done]. intros [= <-].
        destruct (proj1 (IH j) eq_refl) as (rest & E & X & L). exists rest. split_and!.
        -- change (String c s = String c (stake j s +:+ ":" +:+ rest)). by rewrite <- E.
        -- simpl. rewrite X. by rewrite bool_decide_true.
        -- simpl. by rewrite L.
      * intros (rest & E & X & L). simpl in X, L. boolify.
        rewrite (proj2 (IH i)); [done|]. exists rest. split_and!; [|done|lia].
        change (String c s = String c (stake i s +:+ ":" +:+ rest)) in E. congruence.
Qed.

Lemma Index_namespaced ns rest : nochar ":"%char ns = true ->
  Index (ns +:+ ":" +:+ rest) ":" = Some (String.length ns).
Proof. intros X. apply Index_colon. exists rest. by rewrite !stake_app. Qed.

(** A capability names a known namespace before its first colon. *)
Definition namespaced (cap : string) : Prop :=
  exists ns rest, cap = ns +:+ ":" +:+ rest /\ ns ∈ knownNamespaces.

Lemma knownNamespaces_nocolon ns : ns ∈ knownNamespaces -> nochar ":"%char ns = true /\ ns <> ""%string.
Proof.
  assert (forallb (fun ns => nochar ":"%char ns && negb (bool_decide (ns = ""%string))) knownNamespaces
    = true) as F by (vm_compute; reflexivity).
  intros I. apply list_elem_of_In in I. rewrite forallb_forall in F. apply F in I. by boolify.
Qed.

Lemma validateCapability_None `{GoQuote} cap : validateCapability cap = None <-> namespaced cap.
Proof.
  unfold validateCapability. case_bool_decide as E0; [split; [done|]|].
  { intros (ns & rest & X & _). subst. by destruct ns. }
  destruct (Index cap ":") as [[|i]|] eqn:Ix.
  - split; [done|]. intros (ns & rest & -> & I). apply knownNamespaces_nocolon in I as [X N].
    pose proof (Index_namespaced ns rest X) as Y.
    rewrite Y in Ix. by destruct ns.
  - case_bool_decide as K.
    + split; [intros _|done]. apply Index_colon in Ix as (rest & E & _). by exists (stake (S i) cap), rest.
    + split; [done|]. intros (ns & rest & -> & I). destruct K.
      pose proof I as I'. apply knownNamespaces_nocolon in I' as [X N].
      pose proof (Index_namespaced ns rest X) as Y.
      rewrite Y in Ix. injection Ix as <-. by rewrite stake_app.
  - split; [done|]. intros (ns & rest & -> & I). apply knownNamespaces_nocolon in I as [X N].
    pose proof (Index_namespaced ns rest X) as Y.
    by rewrite Y in Ix.
Qed.

Section Manifest.
Context `{ManifestLib} `{GoQuote}.

Definition hook_wf (h : ManifestHook) : Prop :=
  mh_Type h ∈ ["before"; "after"; "around"]%string /\ HasPrefix (mh_Operation h) "s3:" = true /\
  mh_Handler h <> ""%string /\ 0 <= mh_Priority h <= 99 /\
  mh_OnFailure h ∈ [""; "deny"; "allow"; "log_and_allow"]%string.
Definition route_wf (r : ManifestRoute) : Prop :=
  HasPrefix (mrt_Prefix r) "/" = true /\ mrt_Prefix r ∉ reservedRoutes /\ mrt_Handler r <> ""%string.

(** What the loader may rely on in an accepted manifest. *)
Record manifest_wf (m : Manifest) : Prop := {
  wf_schema : m_ManifestVersion m = SupportedManifestVersion;
  wf_api : m_APIVersion m <> ""%string /\ exists c v, semver_NewConstraint (m_APIVersion m) = Ok c /\
    semver_NewVersion HostAPIVersion = Ok v /\ semver_Check c v = true;
  wf_name : pluginNameMatch (m_Name m) = true;
  wf_version : m_Version m <> ""%string /\ is_ok (semver_NewVersion (m_Version m)) = true;
  wf_tier : 0 <= m_TrustTierRequested m <= 2;
  wf_caps cap : cap ∈ m_Capabilities m ->
    namespaced cap /\ (IsTier2Only cap = true -> m_TrustTierRequested m = TierCore);
  wf_hooks h : h ∈ m_Hooks m -> hook_wf h;
  wf_routes r : r ∈ m_Routes m -> route_wf r;
  wf_deps dep : dep ∈ m_DependsOn m -> pluginNameMatch dep = true;
  wf_subs sub : sub ∈ m_EventSubscriptions m -> mes_Events sub <> [] /\ ""%string ∉ mes_Events sub;
  wf_tasks : m_TaskSchedules m <> [] -> "task:schedule"%string ∈ m_Capabilities m;
  wf_crons ts : ts ∈ m_TaskSchedules m ->
    mt_Schedule ts <> ""%string /\ is_ok (cron_Parse (mt_Schedule ts)) = true;
  wf_steps ps : ps ∈ m_PipelineSteps m -> pluginNameMatch (mps_Name ps) = true /\
    ("pipeline:step:" +:+ mps_Name ps) ∈ m_Capabilities m;
  wf_steps_nodup : NoDup (mps_Name <$> m_PipelineSteps m)
}.

Lemma validateHook_None h : validateHook h = None <-> hook_wf h.
Proof.
  unfold validateHook, hook_wf. repeat case_match_goal; boolify; split; try done;
    try (intros (? & ? & ? & ? & ?); (done || congruence || lia)).
  intros (_ & P & _). by rewrite Heqb0 in P.
Qed.

Lemma validateRoute_None r : validateRoute r = None <-> route_wf r.
Proof.
  unfold validateRoute, route_wf. destruct (HasPrefix (mrt_Prefix r) "/"); cbn [negb]; [|naive_solver].
  pose proof (firstErr_None (fun _ rsv =>
    if bool_decide (mrt_Prefix r = rsv) || HasPrefix (mrt_Prefix r +:+ "/") rsv then
      if bool_decide (mrt_Prefix r = rsv)
      then Some ("route prefix " +:+ Quote (mrt_Prefix r) +:+ " is reserved") else None
    else None) (fun rsv => mrt_Prefix r <> rsv) reservedRoutes) as F.
  cbv beta in F. match type of F with ?A -> _ => assert A as G; [|specialize (F G 0)] end.
  { intros j x I. destruct (decide (mrt_Prefix r = x)) as [E|E].
    - rewrite bool_decide_true by done. naive_solver.
    - rewrite bool_decide_false by done. by destruct (HasPrefix _ _). }
  destruct (firstErr _ _ _).
  - split; [done|]. intros (_ & N & _). assert (Some s = None) as X; [|done]. apply F. intros x I E. subst x. done.
  - case_bool_decide; split; try done; [naive_solver|]. intros _. split_and!; try done.
    intros I. by apply (proj1 F eq_refl _ I).
Qed.

Lemma validateAPI_None r : validateAPIVersionRange r = None <->
  exists c v, semver_NewConstraint r = Ok c /\ semver_NewVersion HostAPIVersion = Ok v /\
    semver_Check c v = true.
Proof.
  unfold validateAPIVersionRange.
  destruct (semver_NewConstraint r) as [c|e|e]; try (split; [done|by intros (? & ? & ? & _)]).
  destruct (semver_NewVersion HostAPIVersion) as [v|e|e]; try (split; [done|by intros (? & ? & _ & ? & _)]).
  destruct (semver_Check c v) eqn:E; split; try done; [by exists c, v|].
  intros (c' & v' & [= <-] & [= <-] & ?). congruence.
Qed.

Lemma validateTask_None i ts : validateTaskSchedule i ts = None <->
  mt_Schedule ts <> ""%string /\ is_ok (cron_Parse (mt_Schedule ts)) = true.
Proof.
  unfold validateTaskSchedule. case_bool_decide; [naive_solver|].
  destruct (cron_Parse _); naive_solver.
Qed.

Lemma validateStep_None i ps caps : validatePipelineStep i ps caps = None <->
  pluginNameMatch (mps_Name ps) = true /\ ("pipeline:step:" +:+ mps_Name ps) ∈ caps.
Proof.
  unfold validatePipelineStep. rewrite <- hasCapability_iff. case_bool_decide as E.
  { split; [done|]. rewrite E. by intros [? _]. }
  destruct (pluginNameMatch _); simpl; [|naive_solver].
  destruct (hasCapability _ _); naive_solver.
Qed.

Lemma validateSteps_None caps seen i l : validateSteps caps seen i l = None <->
  (forall ps, ps ∈ l -> pluginNameMatch (mps_Name ps) = true /\
    ("pipeline:step:" +:+ mps_Name ps) ∈ caps) /\
  NoDup (mps_Name <$> l) /\ forall ps, ps ∈ l -> mps_Name ps ∉ seen.
Proof.
  revert seen i. induction l as [|ps l IH]; intros seen i; cbn [validateSteps].
  { split; [|done]. intros _. split_and!; [|constructor|]; intros ps I; by apply elem_of_nil in I. }
  rewrite fmap_cons, NoDup_cons, list_elem_of_fmap.
  pose proof (validateStep_None i ps caps) as V. destruct (validatePipelineStep i ps caps).
  { split; [done|]. intros (F & _). assert (Some e = None) as X; [|done]. apply V, F. set_solver. }
  case_bool_decide as S.
  { split; [done|]. intros (_ & _ & N). exfalso. apply (N ps); [set_solver|done]. }
  rewrite IH. split.
  - intros (F & ND & N). split_and!; [| |done|].
    + intros x [->|I]%elem_of_cons; [by apply V|by apply F].
    + intros (x & E & I). apply (N x I). rewrite E. set_solver.
    + intros x [->|I]%elem_of_cons; [done|]. intros X. apply (N x I). set_solver.
  - intros (F & [NI ND] & N). split_and!; [intros x I; apply F; set_solver|done|].
    intros x I. rewrite not_elem_of_union, not_elem_of_singleton. split; [|apply N; set_solver].
    intros E. apply NI. by exists x.
Qed.

(** C38: validation accepts exactly the well-formed manifests.  [Validate]
    returns no error if and only if the manifest has the supported schema and
    versions, a legal name, a tier between 0 and 2 that covers its tier-2
    capabilities, capabilities in known namespaces, well-formed hooks, routes
    (absolute, not one of the reserved roots), dependencies, subscriptions
    and schedules, and pipeline steps with distinct names and their grants. *)
Theorem validate_iff_wellformed (m : Manifest) : Validate m = None <-> manifest_wf m.
Proof.
  unfold Validate. rewrite !andThen_None, !check_None, inField_None, validateAPI_None, validateSteps_None.
  rewrite (firstErr_None _ (fun cap => namespaced cap /\
    (IsTier2Only cap = true -> TierCore <= m_TrustTierRequested m))).
  2: { intros j x _. rewrite andThen_None, inField_None, check_None, validateCapability_None.
       destruct (IsTier2Only x); simpl; [rewrite Z.ltb_ge|]; naive_solver. }
  rewrite (firstErr_None _ hook_wf) by (intros; by rewrite inField_None, validateHook_None).
  rewrite (firstErr_None _ route_wf) by (intros; by rewrite inField_None, validateRoute_None).
  rewrite (firstErr_None _ (fun dep => pluginNameMatch dep = true))
    by (intros; by rewrite check_None, negb_false_iff).
  rewrite (firstErr_None _ (fun sub => mes_Events sub <> [] /\ ""%string ∉ mes_Events sub)).
  2: { intros j x _. rewrite andThen_None, check_None, bool_decide_eq_false.
       rewrite (firstErr_None _ (fun pat => pat <> ""%string))
         by (intros; by rewrite check_None, bool_decide_eq_false).
       split; intros [A B]; (split; [done|]); [intros I; by apply (B _ I)|by intros y I ->]. }
  rewrite (firstErr_None _ (fun ts => mt_Schedule ts <> ""%string /\
    is_ok (cron_Parse (mt_Schedule ts)) = true)) by (intros; apply validateTask_None).
  assert (match semver_NewVersion (m_Version m) with Ok _ => None
    | Err e | Panic e => Some (mkInvalid "version" ("invalid semver " +:+ Quote (m_Version m) +:+ ": " +:+ e))
    end = None <-> is_ok (semver_NewVersion (m_Version m)) = true) as ->.
  { by destruct (semver_NewVersion (m_Version m)). }
  rewrite !negb_false_iff, !bool_decide_eq_false, bool_decide_eq_true, orb_false_iff, !Z.ltb_ge.
  rewrite andb_false_iff, !negb_false_iff, bool_decide_eq_true, hasCapability_iff. split.
  - intros (S & A & Ap & N & V & Vs & [T1 T2] & C & Hk & R & D & Su & Tk & Cr & St & ND & _).
    split; try done; try lia.
    + intros cap I. destruct (C cap I) as [? X]. split; [done|]. intros Y. apply X in Y. unfold TierCore in *. lia.
    + destruct Tk; tauto.
  - intros W. destruct W as [? [? ?] ? [? ?] ? C ? ? ? ? Tk ? St ?].
    split_and!; try done; try lia.
    + intros cap I. destruct (C cap I) as [? X]. split; [done|]. intros Y. rewrite X by done. lia.
    + destruct (decide (m_TaskSchedules m = [])); [by left|right; by apply Tk].
Qed.
End Manifest.

(** ** Resource limits *)

Lemma mbToPages_eq mb : 0 <= mb < 2 ^ 44 -> mbToPages mb = Z.min (16 * mb) maxWasmPages.
Proof.
  intros B. unfold mbToPages, maxWasmPages, wasmPageSize.
  destruct (Z.leb_spec mb 0); [lia|].
  unfold wrapU64. rewrite (wrapU_id 64 (mb * 1024)), (wrapU_id 64 (mb * 1024 * 1024)) by lia.
  replace (mb * 1024 * 1024) with (16 * mb * (64 * 1024)) by lia. rewrite Z.div_mul by lia.
  unfold wrapU32. destruct (Z.ltb_spec 65536 (16 * mb)); rewrite wrapU_id; lia.
Qed.
Lemma mbToPages_negative mb : mb <= 0 -> mbToPages mb = 0.
Proof. intros B. unfold mbToPages. by destruct (Z.leb_spec mb 0); [|lia]. Qed.
Lemma mbToPages_nonneg mb : 0 <= mbToPages mb.
Proof.
  unfold mbToPages. destruct (mb <=? 0); [done|]. unfold wrapU32, wrapU. apply Z.mod_pos_bound. lia.
Qed.
Lemma pages_between t g : Z.abs t < 2 ^ 44 -> 0 < g < 2 ^ 44 ->
  0 < mbToPages g <= maxWasmPages /\
  0 <= mbToPages (Z.min t g) <= mbToPages g /\ (0 < t -> 0 < mbToPages (Z.min t g)).
Proof.
  intros T G. rewrite (mbToPages_eq g) by lia. unfold maxWasmPages.
  destruct (Z.le_gt_cases t 0).
  - rewrite mbToPages_negative by lia. lia.
  - rewrite mbToPages_eq by lia. unfold maxWasmPages. lia.
Qed.
Lemma minInt_min a b : minInt a b = Z.min a b.
Proof. unfold minInt. destruct (Z.ltb_spec a b); lia. Qed.
Lemma msToDuration_eq ms : Z.abs ms < 2 ^ 43 -> msToDuration ms = ms * Millisecond.
Proof.
  intros B. unfold msToDuration. apply wrap64_id.
  unfold in_int64, int64_min, int64_max, Millisecond in *. lia.
Qed.

Lemma normalizeCap_cases cap fb :
  let n := normalizeCap cap fb in
  (rc_MemoryMB n = rc_MemoryMB cap /\ rc_MemoryMB n <> 0 \/ rc_MemoryMB n = rc_MemoryMB fb) /\
  (rc_CallTimeoutMS n = rc_CallTimeoutMS cap /\ rc_CallTimeoutMS n <> 0 \/
   rc_CallTimeoutMS n = rc_CallTimeoutMS fb) /\
  (rc_Concurrent n = rc_Concurrent cap /\ rc_Concurrent n <> 0 \/ rc_Concurrent n = rc_Concurrent fb).
Proof.
  unfold normalizeCap. simpl. split_and!; case_match_goal; boolify; auto.
Qed.

(** A configured layer, with fields far from the width of their types. *)
Definition sane (c : ResourceCap) : Prop :=
  Z.abs (rc_MemoryMB c) < 2 ^ 44 /\ Z.abs (rc_CallTimeoutMS c) < 2 ^ 43.
(** The global layer after its defaults is positive. *)
Definition global_ok (l : ResourceLimits) : Prop :=
  let g := normalizeCap (rl_Global l) defaultResourceCap in
  0 < rc_MemoryMB g /\ 0 < rc_CallTimeoutMS g /\ 0 < rc_Concurrent g /\ sane g.

(** A layer's value, capped by a positive request, replaced by the global
    value when nothing positive is left. *)
Definition capSettle (x req g : Z) : Z :=
  let y := if 0 <? req then Z.min x req else x in if y <=? 0 then g else y.
Lemma capSettle_bounds x req g : 0 < g -> x <= g ->
  0 < capSettle x req g <= g /\ (0 < req -> 0 < x -> capSettle x req g <= req).
Proof.
  intros G X. unfold capSettle. destruct (Z.ltb_spec 0 req).
  - destruct (Z.leb_spec (Z.min x req) 0); lia.
  - destruct (Z.leb_spec x 0); lia.
Qed.

Lemma ForTier_concurrent P l tier m :
  let g := normalizeCap (rl_Global l) defaultResourceCap in
  el_Concurrent (ForTier P l tier m)
  = capSettle (Z.min (rc_Concurrent (normalizeCap (tierLayer l tier) g)) (rc_Concurrent g))
      (match m with Some r => mr_Concurrent r | None => 0 end) (rc_Concurrent g).
Proof. destruct m; unfold ForTier, manifestLayer, capSettle; simpl; rewrite !minInt_min; done. Qed.
Lemma ForTier_timeout P l tier m :
  let g := normalizeCap (rl_Global l) defaultResourceCap in
  exists req, el_CallTimeout (ForTier P l tier m)
  = capSettle (Z.min (msToDuration (rc_CallTimeoutMS (normalizeCap (tierLayer l tier) g)))
                  (msToDuration (rc_CallTimeoutMS g))) req (msToDuration (rc_CallTimeoutMS g)).
Proof.
  intros g. unfold ForTier. fold g. generalize (normalizeCap (tierLayer l tier) g). generalize g. clear g.
  intros g t. destruct m as [r|]; cbn [manifestLayer el_CallTimeout]; rewrite !minInt_min.
  2: { exists 0. reflexivity. }
  case_bool_decide; [exists 0; reflexivity|].
  destruct (P (mr_CallTimeout r)) as [d| |]; [|exists 0; reflexivity..].
  exists d. unfold capSettle. rewrite ?minInt_min. by destruct (0 <? d).
Qed.
Lemma ForTier_memory P l tier m :
  let g := normalizeCap (rl_Global l) defaultResourceCap in
  let pages := mbToPages (Z.min (rc_MemoryMB (normalizeCap (tierLayer l tier) g)) (rc_MemoryMB g)) in
  (forall r, m = Some r -> 0 <= mr_MemoryMB r < 2 ^ 44) -> 0 <= pages ->
  el_MemoryPages (ForTier P l tier m)
  = capSettle pages (match m with Some r => mbToPages (mr_MemoryMB r) | None => 0 end)
      (mbToPages (rc_MemoryMB g)).
Proof.
  intros g pages M Pg. unfold ForTier. fold g. unfold capSettle.
  set (t := normalizeCap (tierLayer l tier) g) in *. clearbody t. clearbody g.
  destruct m as [r|]; cbn [manifestLayer el_MemoryPages]; rewrite !minInt_min; fold pages.
  2: { simpl. destruct (Z.eqb_spec pages 0); destruct (Z.leb_spec pages 0); lia. }
  specialize (M r eq_refl). rewrite (mbToPages_eq (mr_MemoryMB r)) by lia. unfold maxWasmPages.
  destruct (Z.ltb_spec 0 (mr_MemoryMB r)); destruct (Z.ltb_spec 0 (Z.min (16 * mr_MemoryMB r) 65536)); try lia.
  - destruct (Z.eqb_spec (Z.min pages (Z.min (16 * mr_MemoryMB r) 65536)) 0), (Z.leb_spec (Z.min pages (Z.min (16 * mr_MemoryMB r) 65536)) 0); lia.
  - destruct (Z.eqb_spec pages 0), (Z.leb_spec pages 0); lia.
Qed.

(** a plugin's envelope stays within the global one.  With a positive
    global layer, whatever the tier layer and the manifest ask for (negative
    values included), concurrency and call timeout are positive and at most
    the global ones, memory is between 1 and 65536 pages and at most the
    global pages; with a positive tier layer, concurrency and memory are also
    at most a positive request of the manifest. *)
Theorem resource_limits_bounded (ParseDuration : string -> res Duration) (l : ResourceLimits)
    (tier : Z) (m : option ManifestResources) :
  global_ok l -> sane (tierLayer l tier) ->
  (forall r, m = Some r -> 0 <= mr_MemoryMB r < 2 ^ 44) ->
  let g := normalizeCap (rl_Global l) defaultResourceCap in
  let t := normalizeCap (tierLayer l tier) g in
  let el := ForTier ParseDuration l tier m in
  0 < el_Concurrent el <= rc_Concurrent g /\
  0 < el_CallTimeout el <= msToDuration (rc_CallTimeoutMS g) /\
  0 < el_MemoryPages el <= Z.min (GlobalMemoryPages l) maxWasmPages /\
  forall r, m = Some r ->
    (0 < mr_Concurrent r -> 0 < rc_Concurrent t -> el_Concurrent el <= mr_Concurrent r) /\
    (0 < mr_MemoryMB r -> 0 < rc_MemoryMB t -> el_MemoryPages el <= mbToPages (mr_MemoryMB r)).
Proof.
  intros (GM & GT & GC & [SM ST]) [TM TT] MM g t el. fold g in GM, GT, GC, SM, ST.
  destruct (normalizeCap_cases (tierLayer l tier) g) as (CM & CT & CC). fold t in CM, CT, CC.
  unfold el, GlobalMemoryPages. destruct (ForTier_timeout ParseDuration l tier m) as [req ->].
  rewrite ForTier_concurrent, ForTier_memory by (done || apply mbToPages_nonneg).
  fold g. fold t. clearbody t. clearbody g. clear el.
  destruct (pages_between (rc_MemoryMB t) (rc_MemoryMB g)) as (PG & BP & PP); [lia..|].
  assert (0 < msToDuration (rc_CallTimeoutMS g)) as PT.
  { rewrite msToDuration_eq by lia. unfold Millisecond. lia. }
  destruct (capSettle_bounds (Z.min (rc_Concurrent t) (rc_Concurrent g))
    (match m with Some r => mr_Concurrent r | None => 0 end) (rc_Concurrent g)) as [C1 C2]; [lia..|].
  destruct (capSettle_bounds _ (match m with Some r => mbToPages (mr_MemoryMB r) | None => 0 end) _
    (proj1 PG) (proj2 BP)) as [M1 M2].
  destruct (capSettle_bounds _ req _ PT (Z.le_min_r (msToDuration (rc_CallTimeoutMS t)) _)) as [T1 _].
  split; [exact C1|]. split; [exact T1|]. split.
  { split; [apply M1|]. apply Z.min_glb; [apply M1|]. etrans; [apply M1|apply PG]. }
  intros r ->. specialize (MM r eq_refl). split.
  - intros P1 P2. apply C2; [done|]. apply Z.min_glb_lt; [done|apply GC].
  - intros P1 P2. apply M2; [|by apply PP]. rewrite mbToPages_eq by done. unfold maxWasmPages.
    clear - P1. lia.
Qed.

Lemma resource_limits_bounded_witness :
  let none := mkRCap 0 0 0 0 0 in
  let l := mkRLimits none (mkRCap 64 0 100 0 (-1)) none none in
  let r := mkMRes 8 0 "" 0 4 in
  let el := ForTier (fun _ => Err "bad") l 0 (Some r) in
  el_Concurrent el <= 16 /\ el_MemoryPages el <= mbToPages 8 /\ el_MemoryPages el = 128.
Proof.
  intros none l r el.
  destruct (resource_limits_bounded (fun _ => Err "bad") l 0 (Some r)) as (C & _ & _ & R).
  - unfold global_ok, sane. vm_compute. split_and!; reflexivity.
  - unfold sane. vm_compute. split; reflexivity.
  - intros r' [= <-]. vm_compute. split; [discriminate|reflexivity].
  - destruct (R r eq_refl) as [_ M]. split_and!; [apply C|by apply M|vm_compute; reflexivity].
Defined.

(** A zero stands for "no limit", yet the minimum takes it: with the default
    global layer no rate limit of a tier or manifest is kept. *)
Lemma rate_limits_vanish P l tier m :
  rc_IOBytesPerSec (rl_Global l) = 0 -> rc_FuelPerSec (rl_Global l) = 0 ->
  0 <= rc_IOBytesPerSec (tierLayer l tier) -> 0 <= rc_FuelPerSec (tierLayer l tier) ->
  el_IOBytesPerSec (ForTier P l tier m) = 0 /\ el_FuelPerSec (ForTier P l tier m) = 0.
Proof.
  intros G1 G2 T1 T2. unfold ForTier, normalizeCap. simpl. rewrite G1, G2. simpl.
  assert (forall a b, 0 <= a -> minInt (if a =? 0 then 0 else a) 0 = 0 /\
    (if 0 <? b then minInt 0 b else 0) = 0) as Z0.
  { intros a b A. rewrite !minInt_min. destruct (Z.eqb_spec a 0), (Z.ltb_spec 0 b); lia. }
  destruct m as [r|]; simpl.
  - rewrite !(proj1 (Z0 _ 0 T1)), !(proj1 (Z0 _ 0 T2)).
    split; [apply (Z0 0 (mr_IOBytesPerSec r))|apply (Z0 0 (mr_FuelPerSec r))]; lia.
  - split; [apply (Z0 _ 0 T1)|apply (Z0 _ 0 T2)].
Qed.

(** Only the reserved texts themselves are refused as route prefixes. *)
Example reserved_routes_have_gaps `{GoQuote} :
  validateRoute (mkMRoute "/admin/" "h" false) <> None /\
  validateRoute (mkMRoute "/admin" "h" false) = None /\
  validateRoute (mkMRoute "/admin/users" "h" false) = None /\
  validateRoute (mkMRoute "/metrics/" "h" false) = None.
Proof. split_and!; [discriminate|reflexivity..]. Qed.
