(* ===== verification/PluginTopology.v ===== *)
(** * Plugin dependencies (internal/pluginloader/topology.go)

    Kahn's algorithm over the installed plugins.  A record is a plugin's name
    and the dependencies of its stored manifest ([None] when that does not
    parse).  The iteration order of the map of in-degrees is an argument. *)

From S2P Require Import Prelude GoStrings Bolt.
From Stdlib Require Import Ascii String.
From stdpp Require Import base list.

#[local] Open Scope Z_scope.

Record depRecord := mkDep { dr_Name : string; dr_DependsOn : option (list string) }.

(** [sortStrings]: for each [i], every later element smaller than [s[i]] is
    swapped with it. *)
Fixpoint sinkMin (x : string) (l : list string) : string * list string :=
  match l with
  | [] => (x, [])
  | y :: l =>
    if sltb y x then let '(m, l) := sinkMin y l in (m, x :: l)
    else let '(m, l) := sinkMin x l in (m, y :: l)
  end.
Fixpoint sortFrom (n : nat) (l : list string) : list string :=
  match n, l with
  | S n, x :: l => let '(m, l) := sinkMin x l in m :: sortFrom n l
  | _, _ => l
  end.
Definition sortStrings (l : list string) : list string := sortFrom (length l) l.

Definition known (records : list depRecord) : list string := dr_Name <$> records.

(** The edges in the order the loop adds them: a dependency among the records
    and the plugin that names it. *)
Definition edges (records : list depRecord) : list (string * string) :=
  r ← records;
  match dr_DependsOn r with
  | None => []
  | Some deps => dep ← deps; if bool_decide (dep ∈ known records) then [(dep, dr_Name r)] else []
  end.

Definition addEdge (gd : gmap string (list string) * gmap string Z) (e : string * string)
  : gmap string (list string) * gmap string Z :=
  let '(graph, inDegree) := gd in
  (<[e.1 := default [] (graph !! e.1) ++ [e.2]]> graph,
   <[e.2 := default 0 (inDegree !! e.2) + 1]> inDegree).

Definition zeroDegrees (records : list depRecord) : gmap string Z :=
  foldl (fun d r => match d !! dr_Name r with Some _ => d | None => <[dr_Name r := 0]> d end)
    ∅ records.
Definition buildGraph (records : list depRecord) : gmap string (list string) * gmap string Z :=
  foldl addEdge (∅, zeroDegrees records) (edges records).

(** The children of one plugin. *)
Fixpoint release (next : list string) (queue : list string) (inDegree : gmap string Z)
  : list string * gmap string Z :=
  match next with
  | [] => (queue, inDegree)
  | child :: next =>
    let deg := default 0 (inDegree !! child) - 1 in
    let inDegree := <[child := deg]> inDegree in
    release next (if deg =? 0 then queue ++ [child] else queue) inDegree
  end.

(** [for len(queue) > 0]; [rounds] bounds the plugins taken off the queue. *)
Fixpoint kahn (rounds : nat) (graph : gmap string (list string)) (queue : list string)
    (inDegree : gmap string Z) (result : list string) : option (list string) :=
  match queue with
  | [] => Some result
  | name :: queue =>
    match rounds with
    | O => None
    | S rounds =>
      let '(queue, inDegree) :=
        release (sortStrings (default [] (graph !! name))) queue inDegree in
      kahn rounds graph queue inDegree (result ++ [name])
    end
  end.

(** [order] lists the map's keys as [range inDegree] visits them.  [None]:
    the rounds ran out. *)
Definition topologicalOrder (rounds : nat) (order : list string) (records : list depRecord)
  : option (res (list string)) :=
  let '(graph, inDegree) := buildGraph records in
  let queue := sortStrings (List.filter (fun n => default 0 (inDegree !! n) =? 0) order) in
  result ← kahn rounds graph queue inDegree [];
  Some (if (length result =? size inDegree)%nat then Ok result
        else Err "plugin dependency cycle detected").

Inductive depErr := ErrMissingDependency (plugin missing : string).
(** [checkDependenciesInstalled] against the names of the loaded plugins. *)
Definition checkDependenciesInstalled (installed : gset string) (pluginName : string)
    (deps : list string) : option depErr :=
  ErrMissingDependency pluginName <$> List.find (fun dep => negb (bool_decide (dep ∈ installed))) deps.

Example topo_chain :
  topologicalOrder 3 ["c"; "a"; "b"]%string
    [mkDep "a" (Some ["b"; "c"]%string); mkDep "b" (Some ["c"]%string); mkDep "c" None]
  = Some (Ok ["c"; "b"; "a"]%string).
Proof. vm_compute. reflexivity. Qed.
Example topo_cycle :
  topologicalOrder 2 ["a"; "b"]%string [mkDep "a" (Some ["b"]%string); mkDep "b" (Some ["a"]%string)]
  = Some (Err "plugin dependency cycle detected").
Proof. vm_compute. reflexivity. Qed.

(** ** Plugin dependencies: Kahn's algorithm is correct

    The loop invariant relates the in-degrees to the edges whose source is
    not yet in the result; termination follows since no plugin enters the
    queue twice; a plugin left over has a predecessor left over, so without a
    cycle there is none. *)

(** ** Sorting *)

Lemma sinkMin_perm x l m l' : sinkMin x l = (m, l') -> m :: l' ≡ₚ x :: l.
Proof.
  revert x m l'. induction l as [|y l IH]; simpl; intros x m l' E; [by simplify_eq|].
  destruct (sltb y x).
  - destruct (sinkMin y l) as [m1 l1] eqn:S. simplify_eq. apply IH in S.
    trans (x :: m :: l1); [apply perm_swap|]. by rewrite S.
  - destruct (sinkMin x l) as [m1 l1] eqn:S. simplify_eq. apply IH in S.
    trans (y :: m :: l1); [apply perm_swap|]. rewrite S. apply perm_swap.
Qed.
Lemma sortStrings_perm l : sortStrings l ≡ₚ l.
Proof.
  unfold sortStrings. generalize (length l). intros n. revert l.
  induction n as [|n IH]; intros [|x l]; simpl; try done.
  destruct (sinkMin x l) as [m l'] eqn:E. rewrite IH. by apply sinkMin_perm.
Qed.

(** ** Counting *)

Definition count (x : string) (l : list string) : Z :=
  Z.of_nat (length (List.filter (fun y => bool_decide (y = x)) l)).
Lemma count_nil x : count x [] = 0.
Proof. done. Qed.
Lemma count_cons x y l : count x (y :: l) = (if bool_decide (y = x) then 1 else 0) + count x l.
Proof. unfold count. simpl. destruct (bool_decide _); simpl; lia. Qed.
Lemma count_nonneg x l : 0 <= count x l.
Proof. unfold count. lia. Qed.
Lemma count_perm x l l' : l ≡ₚ l' -> count x l = count x l'.
Proof. induction 1; rewrite ?count_cons; lia. Qed.
Lemma count_pos x l : 0 < count x l <-> x ∈ l.
Proof.
  induction l as [|y l IH]; [rewrite count_nil, elem_of_nil; lia|].
  rewrite count_cons, elem_of_cons, <- IH. pose proof (count_nonneg x l).
  case_bool_decide as E; split; intros C; [by left|lia|right; lia|].
  destruct C as [C|C]; [congruence|lia].
Qed.

(** The edges into [n] from outside [r]. *)
Definition pending (r : list string) (n : string) (e : string * string) : bool :=
  bool_decide (e.2 = n) && negb (bool_decide (e.1 ∈ r)).
Definition degree (E : list (string * string)) (r : list string) (n : string) : Z :=
  Z.of_nat (length (List.filter (pending r n) E)).
Definition children (E : list (string * string)) (a : string) : list string :=
  snd <$> List.filter (fun e => bool_decide (e.1 = a)) E.

Lemma elem_of_children E a n : n ∈ children E a <-> (a, n) ∈ E.
Proof.
  unfold children. rewrite list_elem_of_fmap. split.
  - intros ([x y] & -> & I). apply list_elem_of_In, List.filter_In in I as [I F].
    boolify. simpl in *. subst. by apply list_elem_of_In.
  - intros I. exists (a, n). split; [done|]. apply list_elem_of_In, List.filter_In.
    split; [by apply list_elem_of_In|]. by apply bool_decide_eq_true.
Qed.
Lemma degree_nonneg E r n : 0 <= degree E r n.
Proof. unfold degree. lia. Qed.
Lemma degree_zero E r n : degree E r n = 0 <-> forall a, (a, n) ∈ E -> a ∈ r.
Proof.
  unfold degree, pending. induction E as [|[a m] E IH]; simpl.
  { split; [|done]. intros _ a I. by apply elem_of_nil in I. }
  destruct (decide (m = n)) as [->|NE].
  - rewrite bool_decide_true by done. simpl. case_bool_decide as A; simpl.
    + rewrite IH. split; intros H x; [intros [[= ->]|?]%elem_of_cons; auto|].
      intros I. apply H. by apply elem_of_cons; right.
    + split; [lia|]. intros H. destruct A. apply H. by apply elem_of_cons; left.
  - rewrite bool_decide_false by done. simpl. rewrite IH.
    split; intros H x; [intros [[= -> ->]|?]%elem_of_cons; [done|auto]|].
    intros I. apply H. by apply elem_of_cons; right.
Qed.
(** Taking [a] into the result frees one edge per entry of its children. *)
Lemma degree_snoc E r a n : a ∉ r -> degree E (r ++ [a]) n = degree E r n - count n (children E a).
Proof.
  intros A. unfold degree, children. induction E as [|[x m] E IH]; [done|]. cbn [List.filter fst].
  assert (pending (r ++ [a]) n (x, m) = pending r n (x, m) && negb (bool_decide (x = a))) as ->.
  { unfold pending. simpl. rewrite <- andb_assoc, <- negb_orb. do 2 f_equal.
    apply Bool.eq_true_iff_eq. rewrite orb_true_iff, !bool_decide_eq_true. set_solver. }
  case_bool_decide as X; cbn [negb]; rewrite ?andb_false_r, ?andb_true_r.
  - rewrite fmap_cons, count_cons. subst. unfold pending at 2. cbn [fst snd].
    rewrite (bool_decide_false (a ∈ r)) by done. cbn [negb]. rewrite andb_true_r. destruct (bool_decide (m = n)); cbn [length]; lia.
  - destruct (pending r n (x, m)); cbn [length]; lia.
Qed.

(** ** The graph *)

Notation deg d n := (default 0 (d !! n)) (only parsing).

Lemma foldl_addEdge es g d :
  let gd := foldl addEdge (g, d) es in
  (forall a, default [] (gd.1 !! a) = default [] (g !! a) ++ children es a) /\
  (forall n, deg gd.2 n = deg d n + count n (snd <$> es)) /\
  ((forall e, e ∈ es -> e.2 ∈ dom d) -> dom gd.2 = dom d).
Proof.
  revert g d. induction es as [|[x m] es IH]; intros g d; cbn [foldl].
  { split_and!; [intros; by rewrite app_nil_r|intros; rewrite count_nil; cbn [snd]; lia|done]. }
  cbn [addEdge fst snd]. destruct (IH (<[x := default [] (g !! x) ++ [m]]> g)
    (<[m := default 0 (d !! m) + 1]> d)) as (G & D & Dm). split_and!.
  - intros a. rewrite G. unfold children. cbn [List.filter fst]. destruct (decide (x = a)) as [->|N].
    + rewrite lookup_insert_eq, bool_decide_true by done. simpl. by rewrite <- app_assoc.
    + by rewrite lookup_insert_ne, bool_decide_false by done.
  - intros n. rewrite D, fmap_cons, count_cons. cbn [snd]. destruct (decide (m = n)) as [->|N].
    + rewrite lookup_insert_eq, bool_decide_true by done. simpl. lia.
    + rewrite lookup_insert_ne, bool_decide_false by done. lia.
  - intros T. assert (m ∈ dom d) as M by apply (T (x, m)), elem_of_cons, or_introl, eq_refl.
    rewrite Dm; [rewrite dom_insert_L; set_solver|].
    intros e I. rewrite dom_insert_L. apply elem_of_union_r, T. by apply elem_of_cons; right.
Qed.

Lemma zeroDegrees_spec records :
  dom (zeroDegrees records) = list_to_set (known records) /\
  forall n, deg (zeroDegrees records) n = 0.
Proof.
  unfold zeroDegrees, known. cut (forall d : gmap string Z, (forall n, deg d n = 0) ->
    dom (foldl (fun d r => match d !! dr_Name r with Some _ => d | None => <[dr_Name r := 0]> d end)
      d records) = dom d ∪ list_to_set (dr_Name <$> records) /\
    forall n, deg (foldl (fun d r => match d !! dr_Name r with Some _ => d
      | None => <[dr_Name r := 0]> d end) d records) n = 0).
  { intros C. destruct (C ∅) as [D Z]; [intros; by rewrite lookup_empty|]. split; [set_solver|done]. }
  induction records as [|r records IH]; intros d Z; cbn [foldl]; [split; [set_solver|done]|].
  destruct (d !! dr_Name r) eqn:L.
  - destruct (IH d Z) as [-> Z']. split; [|done]. rewrite fmap_cons, list_to_set_cons.
    assert (dr_Name r ∈ dom d) by (apply elem_of_dom; by eexists). set_solver.
  - destruct (IH (<[dr_Name r := 0]> d)) as [-> Z'].
    { intros n. destruct (decide (dr_Name r = n)) as [->|N];
        [by rewrite lookup_insert_eq|by rewrite lookup_insert_ne]. }
    split; [|done]. rewrite fmap_cons, list_to_set_cons, dom_insert_L. set_solver.
Qed.

(** [a] is a dependency of [n] among the records. *)
Definition dependency (records : list depRecord) (a n : string) : Prop :=
  exists r deps, r ∈ records /\ dr_Name r = n /\ dr_DependsOn r = Some deps /\ a ∈ deps /\
    a ∈ known records.

Lemma elem_of_edges records a n : (a, n) ∈ edges records <-> dependency records a n.
Proof.
  unfold edges, dependency. rewrite list_elem_of_bind. split.
  - intros (r & I & R). destruct (dr_DependsOn r) as [deps|] eqn:D; [|by apply elem_of_nil in I].
    apply list_elem_of_bind in I as (dep & I & Dp). case_bool_decide; [|by apply elem_of_nil in I].
    apply list_elem_of_singleton in I. simplify_eq. eauto 10.
  - intros (r & deps & R & <- & D & A & K). exists r. split; [|done]. rewrite D.
    apply list_elem_of_bind. exists a. split; [|done]. rewrite bool_decide_true by done.
    by apply list_elem_of_singleton.
Qed.
Lemma dependency_known records a n : dependency records a n -> a ∈ known records /\ n ∈ known records.
Proof.
  intros (r & deps & R & <- & _ & _ & K). split; [done|]. by apply list_elem_of_fmap_2.
Qed.

Lemma degree_start E n : degree E [] n = count n (snd <$> E).
Proof.
  unfold degree, pending. induction E as [|[a m] E IH]; [done|]. cbn [List.filter fst snd].
  rewrite fmap_cons, count_cons. cbn [snd]. rewrite (bool_decide_false (a ∈ [])) by (apply not_elem_of_nil).
  cbn [negb]. rewrite andb_true_r. destruct (bool_decide (m = n)); cbn [length]; lia.
Qed.

Lemma buildGraph_spec records :
  let E := edges records in
  (forall a, default [] ((buildGraph records).1 !! a) = children E a) /\
  (forall n, deg (buildGraph records).2 n = degree E [] n) /\
  dom (buildGraph records).2 = list_to_set (known records).
Proof.
  intros E. destruct (zeroDegrees_spec records) as [Dm Z].
  destruct (foldl_addEdge E ∅ (zeroDegrees records)) as (G & D & Dm'). unfold buildGraph.
  split_and!.
  - intros a. fold E. rewrite G, lookup_empty. done.
  - intros n. fold E. rewrite D, Z, degree_start. lia.
  - fold E. rewrite Dm', Dm; [done|]. intros [a n] I. apply elem_of_edges, dependency_known in I.
    rewrite Dm. set_solver.
Qed.

(** ** The loop *)

Lemma release_spec next q d : (forall x, count x next <= deg d x) ->
  exists zs, let qd := release next q d in
    qd.1 = q ++ zs /\ NoDup zs /\
    (forall n, deg qd.2 n = deg d n - count n next) /\
    (forall n, n ∈ zs <-> n ∈ next /\ deg qd.2 n = 0) /\
    ((forall n, n ∈ next -> n ∈ dom d) -> dom qd.2 = dom d).
Proof.
  revert q d. induction next as [|c next IH]; intros q d B; cbn [release].
  { exists []. split_and!; [by rewrite app_nil_r|constructor|intros; rewrite count_nil; cbn [snd]; lia|set_solver|done]. }
  set (k := deg d c - 1). set (d1 := <[c := k]> d).
  assert (forall n, deg d1 n = deg d n - (if bool_decide (c = n) then 1 else 0)) as D1.
  { intros n. unfold d1, k. case_bool_decide; subst;
      [rewrite lookup_insert_eq; simpl; lia|rewrite lookup_insert_ne by done; lia]. }
  destruct (IH (if k =? 0 then q ++ [c] else q) d1) as (zs & Q & ND & D & Z & Dm).
  { intros x. specialize (B x). rewrite count_cons in B. rewrite D1. destruct (bool_decide _); lia. }
  assert (0 <= count c next <= k) as K.
  { specialize (B c). rewrite count_cons, bool_decide_true in B by done.
    pose proof (count_nonneg c next). unfold k. lia. }
  assert (forall n, deg (release next (if k =? 0 then q ++ [c] else q) d1).2 n
    = deg d n - count n (c :: next)) as D'.
  { intros n. rewrite D, D1, count_cons. destruct (bool_decide _); lia. }
  assert (c ∈ zs <-> c ∈ next /\ k - count c next = 0) as Zc.
  { rewrite Z, D, D1, bool_decide_true by done. unfold k. intuition lia. }
  assert (k = 0 -> c ∉ next) as K0 by (rewrite <- count_pos; lia).
  exists (if k =? 0 then c :: zs else zs). cbn zeta. split_and!.
  - rewrite Q. destruct (k =? 0); [by rewrite <- app_assoc|done].
  - destruct (Z.eqb_spec k 0); [constructor; [rewrite Zc; naive_solver|done]|done].
  - done.
  - intros n. destruct (decide (n = c)) as [->|N].
    + rewrite D', count_cons, bool_decide_true by done. unfold k in *.
      destruct (Z.eqb_spec (deg d c - 1) 0) as [E|E].
      * rewrite !elem_of_cons. assert (count c next = 0) by lia. intuition lia.
      * rewrite Zc, elem_of_cons. rewrite <- (count_pos c next). intuition lia.
    + rewrite elem_of_cons. destruct (k =? 0); rewrite ?elem_of_cons, Z; naive_solver.
  - intros S. rewrite Dm; unfold d1; rewrite dom_insert_L.
    + assert (c ∈ dom d) by (apply S; set_solver). set_solver.
    + intros n I. apply elem_of_union_r, S. by apply elem_of_cons; right.
Qed.

Section Loop.
Context (records : list depRecord).
Notation E := (edges records).
Notation all := (known records).

Record loopInv (q : list string) (d : gmap string Z) (r : list string) : Prop := {
  li_deg n : deg d n = degree E r n;
  li_nodup : NoDup (r ++ q);
  li_ready n : n ∈ r ++ q <-> n ∈ all /\ degree E r n = 0;
  li_before l1 n l2 a : r = l1 ++ n :: l2 -> (a, n) ∈ E -> a ∈ l1;
  li_dom : dom d = list_to_set all
}.

Lemma loopInv_step (graph : gmap string (list string)) name q d r :
  (forall a, default [] (graph !! a) = children E a) -> loopInv (name :: q) d r ->
  let qd := release (sortStrings (default [] (graph !! name))) q d in
  loopInv qd.1 qd.2 (r ++ [name]).
Proof.
  intros G I. set (next := sortStrings _).
  assert (next ≡ₚ children E name) as P by (unfold next; by rewrite sortStrings_perm, G).
  assert (forall x, count x next = count x (children E name)) as Cn by (intros; by apply count_perm).
  assert (forall x, x ∈ next <-> (name, x) ∈ E) as In by (intros; by rewrite P, elem_of_children).
  pose proof (li_nodup _ _ _ I) as ND. apply NoDup_app in ND as (NDr & Djt & NDq).
  assert (name ∉ r) as Nr by (intros X; apply (Djt name X); set_solver).
  assert (forall n, degree E (r ++ [name]) n = degree E r n - count n next) as Dg.
  { intros n. by rewrite degree_snoc, Cn. }
  destruct (release_spec next q d) as (zs & Q & NDz & D & Z & Dm).
  { intros x. rewrite (li_deg _ _ _ I). pose proof (Dg x). pose proof (degree_nonneg E (r ++ [name]) x). lia. }
  cbn zeta. rewrite Q. split.
  - intros n. rewrite D, (li_deg _ _ _ I), Dg. done.
  - rewrite <- app_assoc. cbn. change (name :: q ++ zs) with ((name :: q) ++ zs). rewrite app_assoc.
    apply NoDup_app. split_and!; [apply I| |done].
    intros n Old New. apply Z in New as [New _]. apply (li_ready _ _ _ I) in Old as [_ Old].
    apply In in New. apply degree_zero with (a := name) in Old; done.
  - intros n. rewrite <- app_assoc. cbn. change (name :: q ++ zs) with ((name :: q) ++ zs).
    rewrite app_assoc, elem_of_app, (li_ready _ _ _ I), Z, D, (li_deg _ _ _ I), Dg.
    pose proof (count_nonneg n next). pose proof (degree_nonneg E (r ++ [name]) n) as Nn. rewrite Dg in Nn.
    rewrite <- (count_pos n next). split.
    + intros [[K Zr]|[C Zr]]; [split; [done|lia]|]. split; [|lia].
      apply count_pos, In, elem_of_edges, dependency_known in C. tauto.
    + intros [K Zr]. destruct (decide (degree E r n = 0)); [left; done|right; lia].
  - intros l1 n l2 a Er Ea. destruct l2 as [|y l2 _] using rev_ind.
    + apply app_inj_tail in Er as [<- <-]. destruct (proj1 (li_ready _ _ _ I name)) as [_ Zn]; [set_solver|].
      by eapply degree_zero in Zn.
    + rewrite app_comm_cons, app_assoc in Er. apply app_inj_tail in Er as [-> _].
      by eapply (li_before _ _ _ I).
  - rewrite Dm, (li_dom _ _ _ I); [done|]. intros n C. rewrite (li_dom _ _ _ I).
    apply In, elem_of_edges, dependency_known in C. set_solver.
Qed.

Definition plugins : gset string := list_to_set all.

Lemma nodup_bound (l : list string) : NoDup l -> (forall n, n ∈ l -> n ∈ all) ->
  (length l <= size plugins)%nat.
Proof.
  intros ND S. rewrite <- (size_list_to_set (C := gset string) l) by done.
  apply subseteq_size. unfold plugins. intros n. rewrite !elem_of_list_to_set. apply S.
Qed.

Lemma kahn_terminates graph q d r rounds :
  (forall a, default [] ((graph : gmap string (list string)) !! a) = children E a) ->
  loopInv q d r -> (size plugins <= rounds + length r)%nat ->
  exists result d', kahn rounds graph q d r = Some result /\ loopInv [] d' result.
Proof.
  intros G. revert q d r. induction rounds as [|rounds IH]; intros q d r I B.
  - destruct q as [|name q]; [by eauto|]. exfalso.
    assert (length (r ++ name :: q) <= size plugins)%nat as L.
    { apply nodup_bound; [apply I|]. intros n X. by apply (li_ready _ _ _ I) in X as [X _]. }
    rewrite length_app in L. simpl in L. lia.
  - destruct q as [|name q]; [by simpl; eauto|]. cbn [kahn].
    pose proof (loopInv_step graph name q d r G I) as I'. cbn zeta in I'.
    destruct (release _ q d) as [q' d']. simpl in I'. apply (IH _ _ _ I').
    rewrite length_app. simpl. lia.
Qed.

(** A predecessor that is not in the result, for a plugin that is not. *)
Definition left_pred (res : list string) (n : string) : string :=
  match List.find (pending res n) E with Some e => e.1 | None => n end.
Lemma left_pred_spec d res n : loopInv [] d res -> n ∈ all -> n ∉ res ->
  (left_pred res n, n) ∈ E /\ left_pred res n ∈ all /\ left_pred res n ∉ res.
Proof.
  intros I A N. unfold left_pred. destruct (List.find _ _) as [[a m]|] eqn:F.
  - apply List.find_some in F as [In P]. unfold pending in P. boolify. simpl in *. subst.
    apply list_elem_of_In in In. split_and!; [done| |done].
    by apply elem_of_edges, dependency_known in In as [? _].
  - destruct N. rewrite <- (app_nil_r res). apply (li_ready _ _ _ I). split; [done|].
    apply degree_zero. intros a In. apply list_elem_of_In in In.
    apply (List.find_none _ _ F) in In. unfold pending in In. simpl in In.
    rewrite bool_decide_true in In by done. simpl in In. by boolify.
Qed.

(** Without a cycle every plugin is in the result. *)
Lemma acyclic_complete d res : loopInv [] d res ->
  (forall n, ~ tc (dependency records) n n) -> forall n, n ∈ all -> n ∈ res.
Proof.
  intros I AC n A. destruct (decide (n ∈ res)) as [|N]; [done|exfalso].
  set (walk i := Nat.iter i (left_pred res) n).
  assert (forall i, walk i ∈ all /\ walk i ∉ res) as W.
  { induction i as [|i [Wa Wn]]; [done|]. apply (left_pred_spec d) in Wn; [|done..].
    destruct Wn as (_ & ? & ?). done. }
  assert (forall i k, tc (dependency records) (walk (S (k + i))) (walk i)) as T.
  { intros i k. induction k as [|k IHk].
    - apply tc_once, elem_of_edges. destruct (W i). by eapply left_pred_spec.
    - eapply tc_l; [|exact IHk]. apply elem_of_edges. destruct (W (S (k + i))). by eapply left_pred_spec. }
  assert (NoDup (walk <$> seq 0 (S (size plugins)))) as ND.
  { apply NoDup_fmap_2_strong; [|apply NoDup_seq]. intros i j _ _ Eq.
    destruct (Nat.lt_trichotomy i j) as [L|[?|L]]; [exfalso|done|exfalso].
    - apply (AC (walk i)). rewrite Eq at 1. replace j with (S ((j - i - 1) + i)) by lia. apply T.
    - apply (AC (walk j)). rewrite <- Eq at 1. replace i with (S ((i - j - 1) + j)) by lia. apply T. }
  apply nodup_bound in ND; [rewrite length_fmap, length_seq in ND; lia|].
  intros x (i & -> & _)%list_elem_of_fmap. apply W.
Qed.

(** In a complete result dependencies come first, so there is no cycle. *)
Lemma complete_acyclic d res : loopInv [] d res -> (forall n, n ∈ all -> n ∈ res) ->
  forall n, ~ tc (dependency records) n n.
Proof.
  intros I C.
  assert (forall a n, tc (dependency records) a n -> forall l1 l2, res = l1 ++ n :: l2 -> a ∈ l1) as B.
  { intros a n T. induction T as [a n D|a b n D T IHT]; intros l1 l2 Er.
    - eapply (li_before _ _ _ I); [done|]. by apply elem_of_edges.
    - specialize (IHT l1 l2 Er). apply list_elem_of_split in IHT as (l3 & l4 & ->).
      assert (a ∈ l3) as X; [|set_solver].
      apply (li_before _ _ _ I l3 b (l4 ++ n :: l2)); [by rewrite Er, <- app_assoc|].
      by apply elem_of_edges. }
  intros n T. assert (n ∈ all) as A.
  { inversion T as [? ? D|? ? ? D]; subst; apply dependency_known in D as [? ?]; done. }
  apply C, list_elem_of_split in A as (l1 & l2 & Er). pose proof (B n n T l1 l2 Er) as X.
  pose proof (li_nodup _ _ _ I) as ND. rewrite app_nil_r, Er in ND.
  apply NoDup_app in ND as (_ & ND & _). apply (ND n X). set_solver.
Qed.

Lemma loopInv_start order : NoDup order -> (forall n, n ∈ order <-> n ∈ all) ->
  loopInv (sortStrings (List.filter (fun n => deg (buildGraph records).2 n =? 0) order))
    (buildGraph records).2 [].
Proof.
  intros ND O. destruct (buildGraph_spec records) as (_ & D & Dm). split; try done; simpl.
  - rewrite sortStrings_perm. apply NoDup_ListNoDup, List.NoDup_filter. by apply NoDup_ListNoDup.
  - intros n. rewrite sortStrings_perm, list_elem_of_In, List.filter_In, <- list_elem_of_In, O, D.
    by rewrite Z.eqb_eq.
  - intros l1 n l2 a Er. by destruct l1.
Qed.
End Loop.

(** The run of the algorithm: it ends in a state of the invariant with an
    empty queue. *)
Lemma topologicalOrder_loop records order rounds :
  NoDup order -> (forall n, n ∈ order <-> n ∈ known records) -> (length order <= rounds)%nat ->
  exists res d, loopInv records [] d res /\ NoDup res /\
    (forall n, n ∈ res -> n ∈ known records) /\
    topologicalOrder rounds order records
    = Some (if (length res =? size (plugins records))%nat then Ok res
            else Err "plugin dependency cycle detected").
Proof.
  intros ND O R. pose proof (loopInv_start records order ND O) as I.
  destruct (buildGraph_spec records) as (G & _ & Dm). unfold topologicalOrder.
  destruct (buildGraph records) as [graph d]. simpl in *.
  assert (size (plugins records) <= rounds)%nat as B.
  { etrans; [|exact R]. rewrite <- (size_list_to_set (C := gset string) order) by done.
    apply subseteq_size. unfold plugins. intros n. rewrite !elem_of_list_to_set. apply O. }
  destruct (kahn_terminates records graph _ d [] rounds G I) as (res & d' & -> & I'); [simpl; lia|].
  assert (size d = size (plugins records)) as Sd by (rewrite <- size_dom; by rewrite Dm).
  exists res, d'. split; [done|]. pose proof (li_nodup _ _ _ _ I') as NDr. rewrite app_nil_r in NDr.
  split_and!; [done| |by rewrite Sd].
  intros n X. rewrite <- (app_nil_r res) in X. by apply (li_ready _ _ _ _ I') in X as [X _].
Qed.
Lemma topologicalOrder_ok records order rounds l :
  NoDup order -> (forall n, n ∈ order <-> n ∈ known records) -> (length order <= rounds)%nat ->
  topologicalOrder rounds order records = Some (Ok l) ->
  NoDup l /\ (forall n, n ∈ known records -> n ∈ l) /\
  forall l1 n l2 a, l = l1 ++ n :: l2 -> dependency records a n -> a ∈ l1.
Proof.
  intros ND O R E. destruct (topologicalOrder_loop records order rounds ND O R)
    as (res & d & I & NDr & Sub & E'). rewrite E' in E.
  destruct (Nat.eqb_spec (length res) (size (plugins records))) as [L|]; simplify_eq. split_and!; [done| |].
  - intros n A. rewrite <- (elem_of_list_to_set (C := gset string)).
    rewrite <- (size_list_to_set (C := gset string) l) in L by done.
    assert (list_to_set l = plugins records) as ->; [|by apply elem_of_list_to_set].
    apply set_subseteq_size_eq; [|lia]. intros x. unfold plugins. rewrite !elem_of_list_to_set. apply Sub.
  - intros l1 n l2 a Er D. eapply (li_before _ _ _ _ I); [done|]. by apply elem_of_edges.
Qed.

(** C33: the dependency order is a topological sort.  For any records and any
    iteration order of the map, one round per plugin suffices; the result is
    an order exactly when the dependencies among the records have no cycle,
    and an error otherwise; the order has every plugin once, each after all
    its dependencies. *)
Theorem topological_order_correct (records : list depRecord) (order : list string) (rounds : nat) :
  NoDup order -> (forall n, n ∈ order <-> n ∈ known records) ->
  (length order <= rounds)%nat ->
  exists r, topologicalOrder rounds order records = Some r /\
    (is_ok r = true <-> forall n, ~ tc (dependency records) n n) /\
    (is_ok r = false -> r = Err "plugin dependency cycle detected") /\
    forall l, r = Ok l -> NoDup l /\ (forall n, n ∈ l <-> n ∈ known records) /\
      forall l1 n l2 a, l = l1 ++ n :: l2 -> dependency records a n -> a ∈ l1.
Proof.
  intros ND O R.
  destruct (topologicalOrder_loop records order rounds ND O R) as (res & d & I & NDr & Sub & E).
  rewrite E. eexists. split; [done|].
  assert (length res = size (plugins records) <-> forall n, n ∈ known records -> n ∈ res) as Full.
  { split.
    - intros L n A. apply (topologicalOrder_ok records order rounds res ND O R); [|done].
      by rewrite E, L, Nat.eqb_refl.
    - intros C. rewrite <- (size_list_to_set (C := gset string) res) by done.
      f_equal. apply set_eq. intros x. unfold plugins. rewrite !elem_of_list_to_set. split; auto. }
  destruct (Nat.eqb_spec (length res) (size (plugins records))) as [L|L]; simpl; split_and!; try done.
  - split; [intros _|done]. eapply complete_acyclic; [done|]. by apply Full.
  - intros l [= <-]. split_and!; [done|intros n; split; [apply Sub|by apply Full]|].
    intros l1 n l2 a Er D. eapply (li_before _ _ _ _ I); [done|]. by apply elem_of_edges.
  - split; [done|]. intros AC. destruct L. apply Full. by eapply acyclic_complete.
Qed.

Lemma topological_order_correct_witness :
  exists r, topologicalOrder 2 ["b"; "a"]%string [mkDep "a" (Some ["b"]%string); mkDep "b" None] = Some r /\
    r = Ok ["b"; "a"]%string.
Proof.
  destruct (topological_order_correct [mkDep "a" (Some ["b"]%string); mkDep "b" None]
    ["b"; "a"]%string 2) as (r & E & _).
  - repeat constructor; set_solver.
  - intros n. unfold known. simpl. set_solver.
  - simpl. lia.
  - exists r. split; [done|]. vm_compute in E. congruence.
Defined.
