(* ===== verification/PluginNet.v ===== *)
(** * Plugin network egress (internal/pluginloader/network.go)

    The whitelist of outbound URLs and the fetcher.  [net/url] and the HTTP
    transport are parameters. *)

From S2P Require Import Prelude GoStrings PluginTrust.
From Stdlib Require Import Ascii String.
From stdpp Require Import base list.

#[local] Open Scope Z_scope.

(** The fields of a parsed URL the sources read. *)
Record URL := mkURL {
  u_Scheme : string; u_Host : string; u_Hostname : string; u_Port : string;
  u_Path : string; u_RawQuery : string
}.
Class UrlLib := { url_Parse : string -> res URL }.

Record NetworkEgressValidator := mkEgress { ev_tier : Z; ev_patterns : list string }.
Definition NewNetworkEgressValidator (tier : Z) (patterns : list string) : NetworkEgressValidator :=
  mkEgress tier patterns.

(** [string(b)] for a byte [b]: the UTF-8 encoding of the code point. *)
Definition runeOfByte (b : ascii) : string :=
  let n := nat_of_ascii b in
  if (n <? 128)%nat then String b EmptyString
  else String (ascii_of_nat (192 + n / 64)) (String (ascii_of_nat (128 + n mod 64)) EmptyString).

(** [strings.LastIndex]. *)
Fixpoint LastIndex (s sub : string) : option nat :=
  match s with
  | EmptyString => if HasPrefix s sub then Some O else None
  | String _ s' =>
    match LastIndex s' sub with
    | Some i => Some (S i)
    | None => if HasPrefix s sub then Some O else None
    end
  end.

Fixpoint skipStars (p : string) : string :=
  match p with String "*" p => skipStars p | _ => p end.
(** The literal up to the next star, as the code rebuilds it, and the rest. *)
Fixpoint segment (p : string) : string * string :=
  match p with
  | EmptyString => (EmptyString, EmptyString)
  | String c p' =>
    if bool_decide (c = "*"%char) then (EmptyString, p)
    else let '(seg, rest) := segment p' in (runeOfByte c +:+ seg, rest)
  end.

(** The scan; every round shortens the pattern. *)
Fixpoint globLoop (rounds : nat) (p s : string) : bool :=
  match rounds with
  | O => false
  | S rounds =>
    match p, s with
    | String c p', String d s' =>
      if bool_decide (c = "*"%char) then
        let p := skipStars p in
        if bool_decide (p = ""%string) then true
        else
          let '(seg, p) := segment p in
          match LastIndex s seg with
          | None => false
          | Some idx => globLoop rounds p (sdrop (idx + String.length seg) s)
          end
      else if bool_decide (c = d) then globLoop rounds p' s'
      else false
    | _, _ => bool_decide (skipStars p = ""%string) && bool_decide (s = ""%string)
    end
  end.
Definition globMatch (pattern s : string) : bool :=
  if bool_decide (pattern = s) then true else globLoop (S (String.length pattern)) pattern s.

Section Net.
Context `{UrlLib} `{GoQuote}.

Definition normalizeURL (rawURL : string) : res string :=
  u ← url_Parse rawURL;
  if bool_decide (u_Scheme u = ""%string) || bool_decide (u_Host u = ""%string)
  then Err "missing scheme or host"
  else
    let port :=
      if (bool_decide (u_Scheme u = "http"%string) && bool_decide (u_Port u = "80"%string)) ||
         (bool_decide (u_Scheme u = "https"%string) && bool_decide (u_Port u = "443"%string))
      then ""%string else u_Port u in
    let host := if bool_decide (port = ""%string) then u_Hostname u
                else u_Hostname u +:+ ":" +:+ port in
    let out := u_Scheme u +:+ "://" +:+ host +:+ u_Path u in
    Ok (if bool_decide (u_RawQuery u = ""%string) then out else out +:+ "?" +:+ u_RawQuery u).

Definition matchURLPattern (pattern rawURL : string) : bool :=
  let normalized := match normalizeURL rawURL with Ok s => s | _ => rawURL end in
  globMatch pattern normalized.

Definition Allow (rawURL : string) (v : NetworkEgressValidator) : res unit :=
  if ev_tier v =? TierUntrusted
  then Err ("outbound network denied for Tier " +:+ pretty (ev_tier v) +:+ " plugin")
  else if ev_tier v =? TierCore then Ok tt
  else if ev_tier v =? TierTrusted then
    if bool_decide (ev_patterns v = [])
    then Err "outbound network denied: manifest.network_egress is empty"
    else if existsb (fun pat => matchURLPattern pat rawURL) (ev_patterns v) then Ok tt
    else Err ("outbound URL " +:+ Quote rawURL +:+ " does not match any manifest.network_egress pattern")
  else Err ("outbound network denied for unknown trust tier " +:+ pretty (ev_tier v)).
End Net.

(** ** The fetcher *)

Record FetchResult := mkFetch {
  fr_Status : Z; fr_Headers : list (string * string); fr_Body : bytes
}.

(** The state of the shared fetcher is its client's timeout. *)
Record HTTPFetcher := mkFetcher { hf_timeout : Duration }.
Definition NewHTTPFetcher : HTTPFetcher := mkFetcher (30 * Second).

Section Fetch.
(** [http.NewRequest], and the client's exchange under its timeout: the status,
    the first value of each header, and the body or a read error. *)
Context (NewRequest : string -> string -> list (string * string) -> bytes -> res unit).
Context (Do : Duration -> string -> string -> list (string * string) -> bytes ->
  res (Z * list (string * string) * res bytes)).

Definition Fetch (method rawURL : string) (headers : list (string * string)) (body : bytes)
    (timeout : Duration) (f : HTTPFetcher) : HTTPFetcher * res FetchResult :=
  let f := if 0 <? timeout then mkFetcher timeout else f in
  (f,
   _ ← wrapErr "invalid request" (NewRequest method rawURL headers body);
   '(status, respHeaders, stream) ← wrapErr "fetch failed" (Do (hf_timeout f) method rawURL headers body);
   respBody ← wrapErr "failed to read response body" stream;
   Ok (mkFetch status respHeaders (take (Z.to_nat (8 * 1024 * 1024)) respBody))).
End Fetch.

(** ** Plugin network egress: theorems *)

(** What a pattern means: a star stands for any run of characters. *)
Inductive matches : string -> string -> Prop :=
| matches_nil : matches "" ""
| matches_char c p s : c <> "*"%char -> matches p s -> matches (String c p) (String c s)
| matches_star p s t : matches p t -> matches (String "*" p) (s +:+ t).

Lemma skipStars_other c p : c <> "*"%char -> skipStars (String c p) = String c p.
Proof. intros N. by destruct c as [[] [] [] [] [] [] [] []]. Qed.
Lemma skipStars_star p t s : matches (skipStars p) t -> matches (String "*" p) (s +:+ t).
Proof.
  revert s. induction p as [|c p IH]; intros s M; [by constructor|]. constructor.
  destruct (decide (c = "*"%char)) as [->|N]; [by apply (IH ""%string)|].
  by rewrite skipStars_other in M.
Qed.

Lemma runeOfByte_ascii c : isASCIIc c = true -> runeOfByte c = String c "".
Proof. unfold isASCIIc, runeOfByte. by intros ->. Qed.

(** On an ASCII pattern the rebuilt literal is the one in the pattern. *)
Lemma egressSegment_spec p seg rest : isASCII p = true -> segment p = (seg, rest) ->
  p = seg +:+ rest /\ isASCII rest = true /\ nochar "*"%char seg = true.
Proof.
  revert seg rest. induction p as [|c p IH]; simpl; intros seg rest A E; [by simplify_eq|].
  apply andb_true_iff in A as [A1 A2]. case_bool_decide as C; simplify_eq.
  { split_and!; [done|by simpl; rewrite A2|done]. }
  destruct (segment p) as [seg' rest'] eqn:S. simplify_eq. destruct (IH _ _ A2 eq_refl) as (-> & R & N).
  rewrite runeOfByte_ascii by done. split_and!; [done|done|].
  change (nochar "*" (String c seg') = true). simpl. by rewrite N, bool_decide_true.
Qed.

Lemma matches_literal seg rest s : nochar "*"%char seg = true -> matches rest s ->
  matches (seg +:+ rest) (seg +:+ s).
Proof.
  induction seg as [|c seg IH]; intros N M; [done|]. simpl in N. boolify.
  change (matches (String c (seg +:+ rest)) (String c (seg +:+ s))). constructor; auto.
Qed.

Lemma HasPrefix_split s p : HasPrefix s p = true -> s = p +:+ sdrop (String.length p) s.
Proof.
  unfold HasPrefix. revert s. induction p as [|c p IH]; intros [|d s]; simpl; try done.
  destruct (ascii_dec c d) as [->|]; [|done]. intros P.
  change (String d s = String d (p +:+ sdrop (String.length p) s)). f_equal. by apply IH.
Qed.
Lemma LastIndex_split s sub i : LastIndex s sub = Some i ->
  exists a, s = a +:+ sub +:+ sdrop (i + String.length sub) s.
Proof.
  revert i. induction s as [|c s IH]; intros i E; cbn [LastIndex] in E.
  - destruct (HasPrefix "" sub) eqn:P; [|done]. simplify_eq. exists ""%string.
    by apply HasPrefix_split.
  - destruct (LastIndex s sub) as [j|] eqn:J.
    + simplify_eq. destruct (IH j eq_refl) as [a Ea]. exists (String c a). simpl.
      change (String c s = String c (a +:+ sub +:+ sdrop (j + String.length sub) s)). by rewrite <- Ea.
    + destruct (HasPrefix (String c s) sub) eqn:P; [|done]. simplify_eq. exists ""%string.
      by apply HasPrefix_split.
Qed.

Lemma skipStars_empty p : skipStars p = ""%string -> forall s, p <> ""%string \/ s = ""%string -> matches p s.
Proof.
  induction p as [|c p IH]; intros E s N.
  - destruct N as [?| ->]; [done|constructor].
  - assert (c = "*"%char /\ skipStars p = ""%string) as [-> E'].
    { clear IH N. by destruct c as [[] [] [] [] [] [] [] []]. }
    assert (s = s +:+ "") as -> by (clear; induction s as [|x s IH]; [done|];
      change (String x s = String x (s +:+ "")); by rewrite <- IH).
    constructor. apply IH; [done|by right].
Qed.

Lemma skipStars_ascii p : isASCII p = true -> isASCII (skipStars p) = true.
Proof.
  induction p as [|c p IH]; [done|]. intros A. pose proof A as A'. simpl in A.
  apply andb_true_iff in A as [A1 A2]. destruct c as [[] [] [] [] [] [] [] []]; simpl; auto.
Qed.

(** Every accepted string is in the meaning of the pattern. *)
Lemma globLoop_sound n p s : isASCII p = true -> globLoop n p s = true -> matches p s.
Proof.
  revert p s. induction n as [|n IH]; intros p s A G; [done|].
  destruct p as [|c p].
  { simpl in G. boolify. subst. constructor. }
  destruct s as [|d s].
  { cbn [globLoop] in G. boolify. by apply skipStars_empty; [|right]. }
  cbn [globLoop] in G. case_bool_decide as C.
  - subst. case_bool_decide as E.
    + apply skipStars_empty; [done|by left].
    + pose proof (skipStars_ascii _ A) as A'. destruct (segment _) as [seg rest] eqn:S.
      destruct (egressSegment_spec _ _ _ A' S) as (Ep & Ar & Ns).
      destruct (LastIndex _ _) as [i|] eqn:L; [|done]. destruct (LastIndex_split _ _ _ L) as [a Es].
      rewrite Es. apply skipStars_star. change (skipStars p) with (skipStars (String "*" p)). rewrite Ep. apply matches_literal; [done|]. by apply IH.
  - case_bool_decide; [|done]. subst. simpl in A. apply andb_true_iff in A as [_ A].
    constructor; [done|]. by apply IH.
Qed.

Lemma egressGlob_sound p s : isASCII p = true -> globMatch p s = true -> p = s \/ matches p s.
Proof.
  intros A. unfold globMatch. case_bool_decide; [by left|]. intros G. right. by eapply globLoop_sound.
Qed.

Section Egress.
Context `{UrlLib} `{GoQuote}.

(** outbound requests stay within the declared whitelist.  When a
    validator lets a URL through, the plugin is at the core tier, or it is at
    the trusted tier and one of its patterns (ASCII text) means the URL with
    its default port removed, where a star stands for any run of characters;
    an untrusted plugin is never let through. *)
Theorem egress_within_whitelist (v : NetworkEgressValidator) (rawURL : string) :
  Forall (fun p => isASCII p = true) (ev_patterns v) -> Allow rawURL v = Ok tt ->
  ev_tier v = TierCore \/
  (ev_tier v = TierTrusted /\ exists p, p ∈ ev_patterns v /\
     let target := match normalizeURL rawURL with Ok s => s | _ => rawURL end in
     p = target \/ matches p target).
Proof.
  intros A. unfold Allow. destruct (Z.eqb_spec (ev_tier v) TierUntrusted); [done|].
  destruct (Z.eqb_spec (ev_tier v) TierCore); [by left|].
  destruct (Z.eqb_spec (ev_tier v) TierTrusted); [|done]. case_bool_decide; [done|].
  destruct (existsb _ _) eqn:E; [|done]. intros _. right. split; [done|].
  apply existsb_exists in E as (p & I & M). apply list_elem_of_In in I. exists p. split; [done|].
  rewrite Forall_forall in A. by apply egressGlob_sound; [apply A|].
Qed.
End Egress.

(** The scan takes the last occurrence of a literal and does not try another:
    it rejects URLs in the meaning of the pattern. *)
Example glob_incomplete :
  globMatch "https://*/v1/*/v1/x" "https://h/v1/a/v1/x" = false /\
  matches "https://*/v1/*/v1/x" "https://h/v1/a/v1/x".
Proof.
  split; [vm_compute; reflexivity|].
  do 8 (apply matches_char; [done|]). apply (matches_star _ "h" "/v1/a/v1/x").
  do 4 (apply matches_char; [done|]). apply (matches_star _ "a" "/v1/x").
  do 5 (apply matches_char; [done|]). constructor.
Qed.

Definition plainURL : UrlLib := {| url_Parse s := Ok (mkURL "https" "h" "h" "443" s "") |}.

Lemma egress_within_whitelist_witness :
  let v := mkEgress TierTrusted ["https://h/api/*"%string] in
  @Allow plainURL {| Quote s := s |} "/api/x" v = Ok tt /\
  (ev_tier v = TierCore \/ (ev_tier v = TierTrusted /\ exists p, p ∈ ev_patterns v /\
     let target := match @normalizeURL plainURL "/api/x" with Ok s => s | _ => "/api/x"%string end in
     p = target \/ matches p target)).
Proof.
  intros v. split; [vm_compute; reflexivity|].
  apply (@egress_within_whitelist plainURL {| Quote s := s |} v "/api/x");
    [repeat constructor|vm_compute; reflexivity].
Defined.

(** A timeout given by one call stays with the shared fetcher: a later call
    that gives none runs under it, not under the default of 30 seconds. *)
Lemma fetch_timeout_persists NewRequest Do m u h b t m' u' h' b' f :
  0 < t ->
  let f' := (Fetch NewRequest Do m u h b t f).1 in
  Fetch NewRequest Do m' u' h' b' 0 f' = Fetch NewRequest Do m' u' h' b' t f.
Proof.
  intros T f'. unfold f', Fetch. destruct (Z.ltb_spec 0 t); [|lia]. reflexivity.
Qed.
