(* ===== verification/PluginPool.v ===== *)
(** * The instance pool of a plugin (internal/pluginloader/instance_pool.go)

    Each critical section of the pool's mutex is a function.  Borrowers run
    concurrently, and a new instance is made outside the lock, so the pool
    with its borrowers is a step relation: one step per critical section or
    end of an instantiation. *)

From S2P Require Import Prelude GoStrings.
From Stdlib Require Import Ascii String.
From stdpp Require Import base list.

#[local] Open Scope Z_scope.

(** An instance by the number of its module. *)
Notation instance := nat (only parsing).

Record PoolConfig := mkPoolConfig {
  pc_MaxSize : Z; pc_BorrowTimeout : Duration; pc_CallTimeout : Duration
}.
Definition DefaultPoolConfig : PoolConfig := mkPoolConfig 16 (5 * Second) Second.

Record InstancePool := mkPool {
  p_maxSize : Z;
  p_borrowTimeout : Duration;
  p_callTimeout : Duration;
  p_free : list nat;
  p_inUse : Z;
  p_closed : bool
}.

Definition NewInstancePool (cfg : PoolConfig) : InstancePool :=
  let cfg := if pc_MaxSize cfg <=? 0 then DefaultPoolConfig else cfg in
  mkPool (pc_MaxSize cfg) (pc_BorrowTimeout cfg) (pc_CallTimeout cfg) [] 0 false.

Definition set_pool (free : list nat) (inUse : Z) (closed : bool) (p : InstancePool) : InstancePool :=
  mkPool (p_maxSize p) (p_borrowTimeout p) (p_callTimeout p) free inUse closed.

Inductive poolErr := ErrPoolClosed | ErrPoolExhausted (max : Z) | ErrContext (e : string)
  | ErrInstantiate (e : string).

Definition tryAcquireSlot (p : InstancePool) : bool :=
  negb (bool_decide (p_free p = [])) || (p_inUse p <? p_maxSize p).
Definition isClosed (p : InstancePool) : bool := p_closed p.

(** The first critical section of [Borrow]: an instance, leave to make one, or
    an error. *)
Inductive grant := Reuse (inst : instance) | Create.
Definition borrowLocked (p : InstancePool) : InstancePool * (grant + poolErr) :=
  if p_closed p then (p, inr ErrPoolClosed)
  else
    match last (p_free p) with
    | Some inst =>
      (set_pool (take (length (p_free p) - 1) (p_free p)) (p_inUse p + 1) (p_closed p) p,
       inl (Reuse inst))
    | None =>
      if p_maxSize p <=? p_inUse p then (p, inr (ErrPoolExhausted (p_maxSize p)))
      else (set_pool (p_free p) (p_inUse p + 1) (p_closed p) p, inl Create)
    end.
(** The second, when the instance could not be made. *)
Definition instantiateFailed (p : InstancePool) : InstancePool :=
  set_pool (p_free p) (p_inUse p - 1) (p_closed p) p.

(** [waitFree]: the states of the pool at its checks, one per tick, with what
    the context and the clock say then; [None] when the ticks run out. *)
Record tick := mkTick { tk_done : option string; tk_pool : InstancePool; tk_now : Time }.
Fixpoint waitLoop (deadline2 : Time) (ticks : list tick) : option (option poolErr) :=
  match ticks with
  | [] => None
  | t :: ticks =>
    match tk_done t with
    | Some e => Some (Some (ErrContext e))
    | None =>
      if isClosed (tk_pool t) then Some (Some ErrPoolClosed)
      else if tryAcquireSlot (tk_pool t) then Some None
      else if After (tk_now t) deadline2 then Some (Some (ErrPoolExhausted (p_maxSize (tk_pool t))))
      else waitLoop deadline2 ticks
    end
  end.
Definition waitFree (deadline : option Time) (now : Time) (ticks : list tick) (p : InstancePool)
  : option (option poolErr) :=
  if tryAcquireSlot p then Some None
  else if isClosed p then Some (Some ErrPoolClosed)
  else
    let waitTimeout :=
      match deadline with
      | Some d => if Sub d now <? p_borrowTimeout p then Sub d now else p_borrowTimeout p
      | None => p_borrowTimeout p
      end in
    if waitTimeout <=? 0 then Some (Some (ErrPoolExhausted (p_maxSize p)))
    else waitLoop (now + waitTimeout) ticks.

(** [inUse--] with the floor of [Return] and [Discard]. *)
Definition release1 (n : Z) : Z := if n - 1 <? 0 then 0 else n - 1.

(** [Return]; [dead] when the instance's module is nil or closed.  The flag
    says whether the instance is destroyed. *)
Definition Return (inst : instance) (dead : bool) (p : InstancePool) : InstancePool * bool :=
  if p_closed p || dead then (set_pool (p_free p) (release1 (p_inUse p)) (p_closed p) p, true)
  else (set_pool (p_free p ++ [inst]) (release1 (p_inUse p)) (p_closed p) p, false).
(** [Discard]: the slot is freed, the instance destroyed. *)
Definition Discard (p : InstancePool) : InstancePool :=
  set_pool (p_free p) (release1 (p_inUse p)) (p_closed p) p.
(** [DestroyAll]: the pool and the instances to destroy. *)
Definition DestroyAll (p : InstancePool) : InstancePool * list nat :=
  (set_pool [] (p_inUse p) true p, p_free p).

Record PoolStats := mkStats { st_Free : Z; st_InUse : Z; st_Max : Z }.
Definition pool_Stats (p : InstancePool) : PoolStats :=
  mkStats (Z.of_nat (length (p_free p))) (p_inUse p) (p_maxSize p).

(** ** The pool with its borrowers *)

Record world := mkWorld {
  w_pool : InstancePool;
  w_lent : gset nat;        (** with a borrower *)
  w_making : nat;           (** instantiations under way *)
  w_destroyed : gset nat;
  w_next : nat              (** instances made so far *)
}.

(** Every borrower gives its instance back once, by [Return] or [Discard]. *)
Inductive step : world -> world -> Prop :=
| step_reuse w p inst : borrowLocked (w_pool w) = (p, inl (Reuse inst)) ->
    step w (mkWorld p ({[inst]} ∪ w_lent w) (w_making w) (w_destroyed w) (w_next w))
| step_create w p : borrowLocked (w_pool w) = (p, inl Create) ->
    step w (mkWorld p (w_lent w) (S (w_making w)) (w_destroyed w) (w_next w))
| step_refused w p e : borrowLocked (w_pool w) = (p, inr e) ->
    step w (mkWorld p (w_lent w) (w_making w) (w_destroyed w) (w_next w))
| step_made w n : w_making w = S n ->
    step w (mkWorld (w_pool w) ({[w_next w]} ∪ w_lent w) n (w_destroyed w) (S (w_next w)))
| step_failed w n : w_making w = S n ->
    step w (mkWorld (instantiateFailed (w_pool w)) (w_lent w) n (w_destroyed w) (w_next w))
| step_return w inst dead p d : inst ∈ w_lent w -> Return inst dead (w_pool w) = (p, d) ->
    step w (mkWorld p (w_lent w ∖ {[inst]}) (w_making w)
              (if d then {[inst]} ∪ w_destroyed w else w_destroyed w) (w_next w))
| step_discard w inst : inst ∈ w_lent w ->
    step w (mkWorld (Discard (w_pool w)) (w_lent w ∖ {[inst]}) (w_making w)
              ({[inst]} ∪ w_destroyed w) (w_next w))
| step_destroyAll w p free : DestroyAll (w_pool w) = (p, free) ->
    step w (mkWorld p (w_lent w) (w_making w) (list_to_set free ∪ w_destroyed w) (w_next w)).

Definition reachable (cfg : PoolConfig) : world -> Prop :=
  rtc step (mkWorld (NewInstancePool cfg) ∅ 0 ∅ 0).

(** ** The instance pool: invariants of the step relation *)

Record pool_inv (w : world) : Prop := {
  pi_count : p_inUse (w_pool w) = Z.of_nat (size (w_lent w)) + Z.of_nat (w_making w);
  pi_cap : Z.of_nat (length (p_free (w_pool w))) + p_inUse (w_pool w) <= p_maxSize (w_pool w);
  pi_nodup : NoDup (p_free (w_pool w));
  pi_free inst : inst ∈ p_free (w_pool w) -> inst ∉ w_lent w /\ inst ∉ w_destroyed w;
  pi_lent inst : inst ∈ w_lent w -> inst ∉ w_destroyed w;
  pi_made inst : (inst < w_next w)%nat <->
    inst ∈ p_free (w_pool w) \/ inst ∈ w_lent w \/ inst ∈ w_destroyed w;
  pi_closed : p_closed (w_pool w) = true -> p_free (w_pool w) = []
}.

Lemma pool_inv_init cfg : pool_inv (mkWorld (NewInstancePool cfg) ∅ 0 ∅ 0).
Proof.
  split; simpl; try done; try set_solver.
  - unfold NewInstancePool. simpl. destruct (Z.leb_spec (pc_MaxSize cfg) 0); simpl; lia.
  - constructor.
  - intros inst. split; [lia|]. set_solver.
Qed.

Lemma last_split (l : list nat) x : last l = Some x -> l = take (length l - 1) l ++ [x].
Proof.
  intros E. apply last_Some in E as [l' ->]. rewrite length_app. simpl.
  by rewrite Nat.add_sub, take_app_length.
Qed.

(** Giving an instance back: the counters. *)
Lemma release_lent w inst : pool_inv w -> inst ∈ w_lent w ->
  release1 (p_inUse (w_pool w)) = p_inUse (w_pool w) - 1 /\
  Z.of_nat (size (w_lent w ∖ {[inst]})) = Z.of_nat (size (w_lent w)) - 1 /\ 1 <= p_inUse (w_pool w).
Proof.
  intros I L. pose proof (pi_count _ I) as C.
  assert (size (w_lent w) = S (size (w_lent w ∖ {[inst]}))) as S.
  { rewrite (size_difference_alt (w_lent w) {[inst]}). rewrite intersection_comm_L.
    rewrite (subseteq_intersection_1_L {[inst]} (w_lent w)) by set_solver. rewrite size_singleton.
    assert (0 < size (w_lent w))%nat; [|lia]. apply Nat.neq_0_lt_0. intros Z0.
    apply size_empty_inv in Z0. set_solver. }
  unfold release1. destruct (Z.ltb_spec (p_inUse (w_pool w) - 1) 0); lia.
Qed.

Lemma inv_reuse w p inst : pool_inv w -> borrowLocked (w_pool w) = (p, inl (Reuse inst)) ->
  pool_inv (mkWorld p ({[inst]} ∪ w_lent w) (w_making w) (w_destroyed w) (w_next w)).
Proof.
  intros I B.
  unfold borrowLocked in B. destruct (p_closed (w_pool w)) eqn:Cl; [done|].
  destruct (last (p_free (w_pool w))) as [x|] eqn:La; [|repeat case_match_hyp B; by simplify_eq].
  simplify_eq. apply last_split in La. set (l := take _ _) in *.
  pose proof (pi_nodup _ I) as ND. rewrite La in ND. apply NoDup_app in ND as (ND & Dj & _).
  assert (inst ∈ p_free (w_pool w)) as Fi by (rewrite La; set_solver).
  destruct (pi_free _ I _ Fi) as [Nl Nd]. pose proof (pi_cap _ I) as Cap.
  rewrite La, length_app in Cap. simpl in Cap. split; simpl; try done.
  - rewrite size_union, size_singleton by set_solver. pose proof (pi_count _ I). lia.
  - lia.
  - intros x X. assert (x ∈ p_free (w_pool w)) as X' by (rewrite La; set_solver).
    destruct (pi_free _ I _ X'). split; [|done]. rewrite elem_of_union, elem_of_singleton.
    intros [->|]; [|done]. apply (Dj inst X). set_solver.
  - intros x. rewrite elem_of_union, elem_of_singleton. intros [->|X]; [done|]. by apply (pi_lent _ I).
  - intros x. rewrite (pi_made _ I), La. set_solver.
Qed.
Lemma inv_made w n : pool_inv w -> w_making w = S n ->
  pool_inv (mkWorld (w_pool w) ({[w_next w]} ∪ w_lent w) n (w_destroyed w) (S (w_next w))).
Proof.
  intros I M.
  assert (w_next w ∉ w_lent w /\ w_next w ∉ p_free (w_pool w) /\ w_next w ∉ w_destroyed w)
    as (N1 & N2 & N3).
  { pose proof (pi_made _ I (w_next w)) as X. assert (~ (w_next w < w_next w)%nat) by lia. tauto. }
  split; simpl; try apply I.
  - rewrite size_union, size_singleton by set_solver. pose proof (pi_count _ I). lia.
  - intros x X. destruct (pi_free _ I x X). split; [|done]. set_solver.
  - intros x. rewrite elem_of_union, elem_of_singleton. intros [->|X]; [done|]. by apply (pi_lent _ I).
  - intros x. rewrite elem_of_union, elem_of_singleton. pose proof (pi_made _ I x) as X.
    split.
    + intros L. destruct (decide (x = w_next w)); [tauto|]. assert (x < w_next w)%nat by lia. tauto.
    + intros Y. destruct (decide (x = w_next w)); [lia|]. assert (x < w_next w)%nat; [tauto|lia].
Qed.
Lemma inv_return w inst dead p d : pool_inv w -> inst ∈ w_lent w -> Return inst dead (w_pool w) = (p, d) ->
  pool_inv (mkWorld p (w_lent w ∖ {[inst]}) (w_making w)
    (if d then {[inst]} ∪ w_destroyed w else w_destroyed w) (w_next w)).
Proof.
  intros I L B.
  destruct (release_lent w inst I L) as (R & Sz & Ge). pose proof (pi_count _ I) as C.
  pose proof (pi_cap _ I) as Cap. pose proof (pi_lent _ I inst L) as Nd.
  assert (inst ∉ p_free (w_pool w)) as Nf by (intros X; by destruct (pi_free _ I inst X)).
  unfold Return in B. destruct (p_closed (w_pool w) || dead) eqn:Cl; simplify_eq; split; simpl; rewrite ?R.
  - lia.
  - lia.
  - apply (pi_nodup _ I).
  - intros x X. destruct (pi_free _ I x X). set_solver.
  - intros x X. pose proof (pi_lent _ I x). set_solver.
  - intros x. rewrite (pi_made _ I). destruct (decide (x = inst)); set_solver.
  - by apply (pi_closed _ I).
  - lia.
  - rewrite length_app. simpl. lia.
  - apply NoDup_app. split_and!; [apply (pi_nodup _ I)|set_solver|apply NoDup_singleton].
  - intros x. rewrite elem_of_app, list_elem_of_singleton. intros [X| ->]; [|set_solver].
    destruct (pi_free _ I x X). set_solver.
  - intros x X. pose proof (pi_lent _ I x). set_solver.
  - intros x. rewrite (pi_made _ I). destruct (decide (x = inst)); set_solver.
  - intros X. by rewrite X in Cl.
Qed.
Lemma inv_destroyAll w p free : pool_inv w -> DestroyAll (w_pool w) = (p, free) ->
  pool_inv (mkWorld p (w_lent w) (w_making w) (list_to_set free ∪ w_destroyed w) (w_next w)).
Proof.
  intros I B.
  unfold DestroyAll in B. simplify_eq. pose proof (pi_cap _ I). pose proof (pi_count _ I).
  split; simpl; try done; try lia.
  - constructor.
  - intros x X. by apply elem_of_nil in X.
  - intros x X. pose proof (pi_lent _ I x X). pose proof (pi_free _ I x). set_solver.
  - intros x. rewrite (pi_made _ I). set_solver.
Qed.

Lemma pool_inv_step w w' : pool_inv w -> step w w' -> pool_inv w'.
Proof.
  intros I S. destruct S as [w p inst B|w p B|w p e B|w n M|w n M|w inst dead p d L B|w inst L|w p free B].
  - by apply inv_reuse.
  - unfold borrowLocked in B. destruct (p_closed (w_pool w)) eqn:Cl; [done|].
    destruct (last (p_free (w_pool w))) eqn:La; [done|]. apply last_None in La.
    destruct (Z.leb_spec (p_maxSize (w_pool w)) (p_inUse (w_pool w))); [done|]. simplify_eq.
    destruct I as [? ? ? ? ? ? ?]. split; simpl; try done; try lia. rewrite La. simpl. lia.
  - assert (p = w_pool w) as ->; [|by destruct w, I; split].
    unfold borrowLocked in B. repeat case_match_hyp B; by simplify_eq.
  - by apply inv_made.
  - destruct I as [C ? ? ? ? ? ?]. split; simpl in *; try done; lia.
  - by eapply inv_return.
  - destruct (release_lent w inst I L) as (R & Sz & Ge). pose proof (pi_count _ I) as C.
    pose proof (pi_cap _ I) as Cap. split; simpl; rewrite ?R; try apply I; try lia.
    + intros x X. destruct (pi_free _ I x X). set_solver.
    + intros x X. pose proof (pi_lent _ I x). set_solver.
    + intros x. rewrite (pi_made _ I). destruct (decide (x = inst)); set_solver.
  - by apply inv_destroyAll.
Qed.

Lemma pool_inv_reachable cfg w : reachable cfg w -> pool_inv w.
Proof.
  unfold reachable. generalize (pool_inv_init cfg). intros I R. induction R as [|w1 w2 w3 S _ IH]; [done|].
  apply IH. by eapply pool_inv_step.
Qed.
Lemma reachable_max cfg w : reachable cfg w -> p_maxSize (w_pool w) = p_maxSize (NewInstancePool cfg).
Proof.
  unfold reachable. remember (mkWorld (NewInstancePool cfg) ∅ 0 ∅ 0) as w0 eqn:E0.
  intros R. assert (p_maxSize (w_pool w) = p_maxSize (w_pool w0)) as ->; [|by rewrite E0].
  clear E0. induction R as [|w1 w2 w3 S _ IH]; [done|]. rewrite IH. clear IH.
  destruct S as [w p inst B|w p B|w p e B|w n M|w n M|w inst dead p d L B|w inst L|w p free B]; simpl; try done.
  1-3: unfold borrowLocked in B; repeat case_match_hyp B; by simplify_eq.
  - unfold Return in B. case_match_hyp B; by simplify_eq.
  - unfold DestroyAll in B. by simplify_eq.
Qed.

(** C32: a pool's instances are bounded, exclusive and not leaked.  In every
    state of a pool under concurrent borrowing, returning, discarding and
    closing: idle, lent and unfinished instances together are at most the
    configured maximum; an instance handed out is held by nobody else and was
    never destroyed; and once the pool is closed and nothing is lent or
    unfinished, every instance ever made has been destroyed. *)
Theorem pool_bounded_and_exclusive (cfg : PoolConfig) (w : world) :
  reachable cfg w ->
  (length (p_free (w_pool w)) + size (w_lent w) + w_making w
    <= Z.to_nat (p_maxSize (NewInstancePool cfg)))%nat /\
  p_inUse (w_pool w) = Z.of_nat (size (w_lent w)) + Z.of_nat (w_making w) /\
  (forall p inst, borrowLocked (w_pool w) = (p, inl (Reuse inst)) ->
     inst ∉ w_lent w /\ inst ∉ w_destroyed w) /\
  (p_closed (w_pool w) = true -> w_lent w = ∅ -> w_making w = 0%nat ->
   forall inst, (inst < w_next w)%nat -> inst ∈ w_destroyed w).
Proof.
  intros R. pose proof (pool_inv_reachable _ _ R) as I. pose proof (reachable_max _ _ R) as M.
  pose proof (pi_cap _ I) as Cap. pose proof (pi_count _ I) as C. split_and!; [lia|done| |].
  - intros p inst B. apply (pi_free _ I). unfold borrowLocked in B.
    destruct (p_closed _); [done|]. destruct (last _) eqn:La; [|case_match_hyp B; by simplify_eq]. simplify_eq.
    apply last_split in La. rewrite La. set_solver.
  - intros Cl Le _ inst X. apply (pi_made _ I) in X. rewrite (pi_closed _ I Cl), Le in X. set_solver.
Qed.

Lemma pool_bounded_and_exclusive_witness :
  exists w, reachable (mkPoolConfig 2 1 1) w /\ p_free (w_pool w) = [0]%nat /\
    (length (p_free (w_pool w)) + size (w_lent w) + w_making w <= 2)%nat.
Proof.
  assert (reachable (mkPoolConfig 2 1 1) (mkWorld (mkPool 2 1 1 [0%nat] 0 false) ({[0%nat]} ∖ {[0%nat]}) 0 ∅ 1)) as R.
  { unfold reachable. eapply rtc_l; [apply step_create; reflexivity|].
    eapply rtc_l; [eapply step_made; reflexivity|]. simpl. rewrite union_empty_r_L.
    eapply rtc_l; [apply (step_return _ 0%nat false); [set_solver|reflexivity]|]. apply rtc_refl. }
  eexists. split; [exact R|]. split; [reflexivity|].
  destruct (pool_bounded_and_exclusive _ _ R) as [B _]. exact B.
Defined.
