(* ===== verification/PluginRegistry.v ===== *)
(** * The loader's in-memory registries (internal/pluginloader: hooks.go,
      events.go, scheduler.go, pipeline.go, sse.go, loader.go)

    Tables of live calls under opaque 64-bit handles; the ordered list of
    hooks; event subscriptions and task schedules, each indexed by handle and
    by plugin; pipeline steps by name; server-sent-event sessions. *)

From S2P Require Import Prelude GoStrings.
From Stdlib Require Import Ascii String.
From stdpp Require Import base list.

#[local] Open Scope Z_scope.

(** ** Handles *)

(** [n++], once more when that gives 0. *)
Definition bump (n : Z) : Z :=
  let n := wrapU64 (n + 1) in if n =? 0 then wrapU64 (n + 1) else n.

Record handleTable (A : Type) := mkTable { ht_next : Z; ht_map : gmap Z A }.
Arguments mkTable {A}.
Arguments ht_next {A}.
Arguments ht_map {A}.

Definition newTable {A} : handleTable A := mkTable 0 ∅.
Definition allocate {A} (x : A) (t : handleTable A) : handleTable A * Z :=
  let h := bump (ht_next t) in (mkTable h (<[h := x]> (ht_map t)), h).
Definition getContext {A} (h : Z) (t : handleTable A) : option A := ht_map t !! h.
Definition releaseContext {A} (h : Z) (t : handleTable A) : handleTable A :=
  mkTable (ht_next t) (delete h (ht_map t)).

(** A request in flight, filled in by the plugin. *)
Record pluginRequest := mkRequest {
  rq_method : string; rq_path : string; rq_headers : list (string * string); rq_body : bytes;
  rq_originalUser : string;
  rq_respStatus : Z; rq_respHeaders : list (string * string); rq_respBody : bytes;
  rq_respWritten : bool
}.
Definition allocateRequest : pluginRequest -> handleTable pluginRequest -> handleTable pluginRequest * Z :=
  allocate.
Definition GetRequest : Z -> handleTable pluginRequest -> option pluginRequest := getContext.
Definition releaseRequest : Z -> handleTable pluginRequest -> handleTable pluginRequest := releaseContext.

Definition WriteResponse (handle status : Z) (headers : list (string * string)) (body : bytes)
    (t : handleTable pluginRequest) : handleTable pluginRequest * res unit :=
  match ht_map t !! handle with
  | None => (t, Err ("request handle " +:+ pretty handle +:+ " not found"))
  | Some req =>
    if rq_respWritten req
    then (t, Err ("response already written for handle " +:+ pretty handle))
    else
      (mkTable (ht_next t) (<[handle := mkRequest (rq_method req) (rq_path req) (rq_headers req)
         (rq_body req) (rq_originalUser req) status headers body true]> (ht_map t)), Ok tt)
  end.

(** ** Hooks *)

Record HookRecord := mkHook {
  hr_PluginName : string; hr_HookID : string; hr_HookType : string; hr_Operation : string;
  hr_Condition : string; hr_Handler : string; hr_Priority : Z; hr_OnFailure : string;
  hr_Critical : bool
}.

Record hookRegistry := mkHooks { hk_hooks : list HookRecord; hk_order : string -> Z }.
Definition newHookRegistry : hookRegistry := mkHooks [] (fun _ => 0).

(** The comparison of [resortLocked]. *)
Definition hookLess (order : string -> Z) (a b : HookRecord) : bool :=
  let oa := order (hr_PluginName a) in
  let ob := order (hr_PluginName b) in
  if oa =? ob then hr_Priority b <? hr_Priority a else oa <? ob.

(** [sort.SliceStable]: insert each element after those not greater. *)
Fixpoint insertStable (order : string -> Z) (h : HookRecord) (l : list HookRecord)
  : list HookRecord :=
  match l with
  | [] => [h]
  | x :: l => if hookLess order h x then h :: x :: l else x :: insertStable order h l
  end.
Definition sortStable (order : string -> Z) (l : list HookRecord) : list HookRecord :=
  foldl (fun acc h => insertStable order h acc) [] l.

Definition resortLocked (r : hookRegistry) : hookRegistry :=
  mkHooks (sortStable (hk_order r) (hk_hooks r)) (hk_order r).
Definition setPluginOrder (fn : string -> Z) (r : hookRegistry) : hookRegistry :=
  resortLocked (mkHooks (hk_hooks r) fn).
Definition hk_add (h : HookRecord) (r : hookRegistry) : hookRegistry :=
  resortLocked (mkHooks (hk_hooks r ++ [h]) (hk_order r)).
Definition hk_remove (pluginName hookID : string) (r : hookRegistry) : hookRegistry :=
  let key := pluginName +:+ ":" +:+ hookID in
  mkHooks (List.filter (fun h => negb (bool_decide (hr_PluginName h +:+ ":" +:+ hr_HookID h = key)))
             (hk_hooks r)) (hk_order r).
Definition hk_clear (pluginName : string) (r : hookRegistry) : hookRegistry :=
  mkHooks (List.filter (fun h => negb (bool_decide (hr_PluginName h = pluginName))) (hk_hooks r))
    (hk_order r).
Definition forOperation (op : string) (r : hookRegistry) : list HookRecord :=
  List.filter (fun h => bool_decide (hr_Operation h = op)) (hk_hooks r).
Definition hk_all (r : hookRegistry) : list HookRecord := hk_hooks r.

(** [ListHooks], with the operation of the request or none. *)
Definition ListHooks (operation : string) (r : hookRegistry) : list HookRecord :=
  if bool_decide (operation = ""%string) then hk_all r else forOperation operation r.

(** The order function of [refreshHookOrder] for a dependency order. *)
Fixpoint indexIn (name : string) (order : list string) : option nat :=
  match order with
  | [] => None
  | x :: order => if bool_decide (x = name) then Some O else S <$> indexIn name order
  end.
Definition hookOrder (order : list string) (name : string) : Z :=
  match indexIn name order with
  | Some i => Z.of_nat i
  | None => Z.of_nat (length order) + 1
  end.

(** ** Tables indexed by handle and by plugin *)

Record pluginIndex (A : Type) := mkIndex {
  ix_items : gmap Z A; ix_byPlugin : gmap string (gmap Z A); ix_next : Z
}.
Arguments mkIndex {A}.
Arguments ix_items {A}.
Arguments ix_byPlugin {A}.
Arguments ix_next {A}.

Definition newIndex {A} : pluginIndex A := mkIndex ∅ ∅ 0.
Definition ix_add {A} (plugin : string) (mk : Z -> A) (r : pluginIndex A) : pluginIndex A * Z :=
  let handle := bump (ix_next r) in
  let x := mk handle in
  (mkIndex (<[handle := x]> (ix_items r))
     (<[plugin := <[handle := x]> (default ∅ (ix_byPlugin r !! plugin))]> (ix_byPlugin r)) handle,
   handle).
Definition ix_remove {A} (owner : A -> string) (handle : Z) (r : pluginIndex A) : pluginIndex A * option A :=
  match ix_items r !! handle with
  | None => (r, None)
  | Some x =>
    let byPlugin :=
      match ix_byPlugin r !! owner x with
      | None => ix_byPlugin r
      | Some m =>
        let m := delete handle m in
        if decide (m = ∅) then delete (owner x) (ix_byPlugin r)
        else <[owner x := m]> (ix_byPlugin r)
      end in
    (mkIndex (delete handle (ix_items r)) byPlugin (ix_next r), Some x)
  end.
(** [clear] visits the plugin's entries in the order [map_to_list] gives. *)
Definition ix_clear {A} (plugin : string) (r : pluginIndex A) : pluginIndex A * list A :=
  let mine := map_to_list (default ∅ (ix_byPlugin r !! plugin)) in
  (mkIndex (foldr (fun kv m => delete kv.1 m) (ix_items r) mine) (delete plugin (ix_byPlugin r))
     (ix_next r), snd <$> mine).

(** *** Event subscriptions *)

Record eventSub := mkSub {
  es_handle : Z; es_pluginName : string; es_pattern : string; es_handler : string
}.
Notation eventRegistry := (pluginIndex eventSub).
Definition ev_add (pluginName pattern handler : string) (r : eventRegistry) : eventRegistry * Z :=
  ix_add pluginName (fun h => mkSub h pluginName pattern handler) r.
Definition ev_remove (handle : Z) (r : eventRegistry) : eventRegistry * bool :=
  let '(r, x) := ix_remove es_pluginName handle r in (r, bool_decide (is_Some x)).
Definition ev_clear (pluginName : string) (r : eventRegistry) : eventRegistry := (ix_clear pluginName r).1.

Definition matchEventPattern (pattern eventType : string) : bool :=
  if bool_decide (pattern = eventType) then true
  else if HasSuffix pattern ":*"
  then HasPrefix eventType (stake (String.length pattern - 1) pattern)
  else false.
Definition ev_matches (eventType : string) (r : eventRegistry) : list eventSub :=
  List.filter (fun sub => matchEventPattern (es_pattern sub) eventType) (snd <$> map_to_list (ix_items r)).
Definition ev_lookup (handle : Z) (r : eventRegistry) : option eventSub := ix_items r !! handle.

Definition SubscribePluginEvent (pluginName pattern handler : string) (r : eventRegistry)
  : eventRegistry * res Z :=
  if bool_decide (pattern = ""%string) then (r, Err "event pattern is required")
  else
    let handler := if bool_decide (handler = ""%string) then "on_event"%string else handler in
    let '(r, h) := ev_add pluginName pattern handler r in (r, Ok h).
Definition UnsubscribePluginEvent `{GoQuote} (pluginName : string) (handle : Z) (r : eventRegistry)
  : eventRegistry * res unit :=
  let missing := Err ("subscription " +:+ pretty handle +:+ " not found for plugin " +:+ Quote pluginName) in
  match ev_lookup handle r with
  | None => (r, missing)
  | Some sub =>
    if bool_decide (es_pluginName sub = pluginName) then ((ev_remove handle r).1, Ok tt)
    else (r, missing)
  end.

(** *** Task schedules *)

Record taskSchedule := mkSchedule {
  tsc_handle : Z; tsc_pluginName : string; tsc_taskType : string; tsc_schedule : string;
  tsc_payload : bytes; tsc_handler : string
}.
Record taskRegistry := mkTasks { tr_index : pluginIndex taskSchedule; tr_byTaskType : gmap string taskSchedule }.
Definition newTaskRegistry : taskRegistry := mkTasks newIndex ∅.

Definition taskTypeOf (pluginName : string) (handle : Z) : string :=
  "plugin:" +:+ pluginName +:+ ":" +:+ pretty (Z.to_N handle).
Definition tr_add (pluginName schedule : string) (payload : bytes) (handler : string)
    (r : taskRegistry) : taskRegistry * (Z * string) :=
  let mk h := mkSchedule h pluginName (taskTypeOf pluginName h) schedule payload handler in
  let '(ix, h) := ix_add pluginName mk (tr_index r) in
  (mkTasks ix (<[taskTypeOf pluginName h := mk h]> (tr_byTaskType r)), (h, taskTypeOf pluginName h)).
Definition tr_remove (handle : Z) (r : taskRegistry) : taskRegistry * option string :=
  let '(ix, x) := ix_remove tsc_pluginName handle (tr_index r) in
  match x with
  | None => (r, None)
  | Some s => (mkTasks ix (delete (tsc_taskType s) (tr_byTaskType r)), Some (tsc_taskType s))
  end.
Definition tr_clear (pluginName : string) (r : taskRegistry) : taskRegistry * list string :=
  let '(ix, mine) := ix_clear pluginName (tr_index r) in
  (mkTasks ix (foldr (fun s m => delete (tsc_taskType s) m) (tr_byTaskType r) mine),
   tsc_taskType <$> mine).
Definition tr_lookup (handle : Z) (r : taskRegistry) : option taskSchedule :=
  ix_items (tr_index r) !! handle.

(** ** Pipeline steps *)

Record stepRegistry := mkSteps { sr_steps : gmap string string; sr_byPlugin : gmap string (gset string) }.
Definition newPipelineStepRegistry : stepRegistry := mkSteps ∅ ∅.
Inductive stepErr := ErrPipelineStepConflict (step existing : string).

Definition sr_register (stepName pluginName : string) (r : stepRegistry) : stepRegistry * option stepErr :=
  let put := mkSteps (<[stepName := pluginName]> (sr_steps r))
    (<[pluginName := {[stepName]} ∪ default ∅ (sr_byPlugin r !! pluginName)]> (sr_byPlugin r)) in
  match sr_steps r !! stepName with
  | Some existing =>
    if bool_decide (existing = pluginName) then (put, None)
    else (r, Some (ErrPipelineStepConflict stepName existing))
  | None => (put, None)
  end.
Definition sr_lookup (stepName : string) (r : stepRegistry) : option string := sr_steps r !! stepName.
Definition sr_unregisterPlugin (pluginName : string) (r : stepRegistry) : stepRegistry :=
  mkSteps (foldr (fun s m => delete s m) (sr_steps r) (elements (default ∅ (sr_byPlugin r !! pluginName))))
    (delete pluginName (sr_byPlugin r)).

(** ** Server-sent-event sessions *)

Record sseSession := mkSession { sse_pluginName : string; sse_createdAt : Time; sse_lastHeartbeat : Time }.
Notation sseRegistry := (handleTable sseSession).
Definition CreateSSESession (now : Time) (pluginName : string) (r : sseRegistry) : sseRegistry * Z :=
  allocate (mkSession pluginName now now) r.
Definition sse_Owner (id : Z) (r : sseRegistry) : string :=
  match ht_map r !! id with Some s => sse_pluginName s | None => ""%string end.
Definition sse_Heartbeat (now : Time) (id : Z) (r : sseRegistry) : sseRegistry * bool :=
  match ht_map r !! id with
  | None => (r, false)
  | Some s =>
    (mkTable (ht_next r) (<[id := mkSession (sse_pluginName s) (sse_createdAt s) now]> (ht_map r)), true)
  end.
Definition sse_Close (id : Z) (r : sseRegistry) : sseRegistry * string :=
  match ht_map r !! id with
  | None => (r, ""%string)
  | Some s => (mkTable (ht_next r) (delete id (ht_map r)), sse_pluginName s)
  end.
Definition sse_CloseAll (pluginName : string) (r : sseRegistry) : sseRegistry * list Z :=
  (mkTable (ht_next r) (filter (fun kv => sse_pluginName kv.2 <> pluginName) (ht_map r)),
   fst <$> map_to_list (filter (fun kv => sse_pluginName kv.2 = pluginName) (ht_map r))).
Definition sse_Stale (now : Time) (maxAge : Duration) (r : sseRegistry) : list Z :=
  let cutoff := now + wrap64 (- maxAge) in
  fst <$> map_to_list (filter (fun kv => Before (sse_lastHeartbeat kv.2) cutoff = true) (ht_map r)).
