(* ===== verification/PluginRegistryTheorems.v ===== *)
(** * The loader's registries: invariants and theorems *)

From S2P Require Import Prelude GoStrings Bolt PluginTopology PluginRegistry.
From Stdlib Require Import Ascii String.
From stdpp Require Import base list.

#[local] Open Scope Z_scope.

(** ** Hooks are kept in order *)

Definition hook_le (order : string -> Z) (a b : HookRecord) : Prop := hookLess order b a = false.

Lemma hook_le_total order a b : hookLess order a b = true -> hook_le order a b.
Proof.
  unfold hook_le, hookLess. intros E.
  destruct (Z.eqb_spec (order (hr_PluginName a)) (order (hr_PluginName b))) as [Q|Q].
  - rewrite Q, Z.eqb_refl. boolify. apply Z.ltb_ge. lia.
  - rewrite (proj2 (Z.eqb_neq _ _)) by congruence. boolify. apply Z.ltb_ge. lia.
Qed.
Lemma hook_le_trans order a b c : hook_le order a b -> hook_le order b c -> hook_le order a c.
Proof.
  unfold hook_le, hookLess. intros.
  destruct (Z.eqb_spec (order (hr_PluginName c)) (order (hr_PluginName a)));
  destruct (Z.eqb_spec (order (hr_PluginName b)) (order (hr_PluginName a)));
  destruct (Z.eqb_spec (order (hr_PluginName c)) (order (hr_PluginName b))); boolify;
  try apply Z.ltb_ge; lia.
Qed.

Lemma insertStable_perm order h l : insertStable order h l ≡ₚ h :: l.
Proof.
  induction l as [|x l IH]; simpl; [done|]. destruct (hookLess order h x); [done|].
  rewrite IH. apply perm_swap.
Qed.
Lemma insertStable_sorted order h l :
  StronglySorted (hook_le order) l -> StronglySorted (hook_le order) (insertStable order h l).
Proof.
  induction 1 as [|x l S IH F]; simpl; [by repeat constructor|].
  destruct (hookLess order h x) eqn:L.
  - constructor; [by constructor|]. constructor; [by apply hook_le_total|].
    eapply Forall_impl; [done|]. intros y. apply hook_le_trans. by apply hook_le_total.
  - constructor; [done|]. rewrite insertStable_perm. constructor; [done|done].
Qed.
Lemma sortStable_spec order l :
  sortStable order l ≡ₚ l /\ StronglySorted (hook_le order) (sortStable order l).
Proof.
  unfold sortStable. cut (forall acc, StronglySorted (hook_le order) acc ->
    foldl (fun acc h => insertStable order h acc) acc l ≡ₚ acc ++ l /\
    StronglySorted (hook_le order) (foldl (fun acc h => insertStable order h acc) acc l)).
  { intros C. apply C. constructor. }
  induction l as [|h l IH]; intros acc S; simpl; [by rewrite app_nil_r|].
  destruct (IH (insertStable order h acc)) as [P S']; [by apply insertStable_sorted|].
  split; [|done]. rewrite P, insertStable_perm. simpl. apply Permutation_middle.
Qed.

(** Elements with equal keys keep their order. *)
Definition same_rank (order : string -> Z) (a b : HookRecord) : bool :=
  negb (hookLess order a b) && negb (hookLess order b a).
Lemma insertStable_stable order h l k :
  StronglySorted (hook_le order) l ->
  List.filter (same_rank order k) (insertStable order h l)
  = List.filter (same_rank order k) l ++ List.filter (same_rank order k) [h].
Proof.
  induction 1 as [|x l S IH F]; [done|]. cbn [insertStable]. destruct (hookLess order h x) eqn:L.
  - cbn [List.filter app]. destruct (same_rank order k h) eqn:R; [|by rewrite app_nil_r].
    assert (forall y, y ∈ x :: l -> same_rank order k y = false) as N.
    { intros y Y. assert (hook_le order x y) as XY.
      { apply elem_of_cons in Y as [->|Y]; [|rewrite Forall_forall in F; by apply F].
        unfold hook_le, hookLess. rewrite Z.eqb_refl. apply Z.ltb_irrefl. }
      unfold same_rank in *. boolify. destruct (hookLess order k y) eqn:K1; [done|].
      destruct (hookLess order y k) eqn:K2; [done|]. exfalso.
      assert (hook_le order y h) as YH.
      { apply (hook_le_trans _ _ k); [exact K1|done]. }
      assert (hook_le order x h) as XH by (by apply (hook_le_trans _ _ y)).
      unfold hook_le in XH. congruence. }
    assert (List.filter (same_rank order k) (x :: l) = []) as E.
    { clear - N. induction (x :: l) as [|y l' IH']; [done|]. simpl. rewrite N by set_solver.
      apply IH'. intros z Z'. apply N. set_solver. }
    cbn [List.filter] in E. by rewrite E.
  - cbn [List.filter]. rewrite IH. by destruct (same_rank order k x).
Qed.

(** What every operation of the registry keeps. *)
Definition hooks_sorted (r : hookRegistry) : Prop := StronglySorted (hook_le (hk_order r)) (hk_hooks r).

Lemma filter_sorted {A} (R : A -> A -> Prop) (f : A -> bool) l :
  StronglySorted R l -> StronglySorted R (List.filter f l).
Proof.
  induction 1 as [|x l S IH F]; simpl; [constructor|]. destruct (f x); [|done]. constructor; [done|].
  rewrite Forall_forall in *. intros y Y. apply F. apply list_elem_of_In in Y.
  apply List.filter_In in Y as [Y _]. by apply list_elem_of_In.
Qed.

Inductive hook_op :=
| HAdd (h : HookRecord) | HRemove (p id : string) | HClear (p : string) | HOrder (fn : string -> Z).
Definition hook_step (op : hook_op) (r : hookRegistry) : hookRegistry :=
  match op with
  | HAdd h => hk_add h r
  | HRemove p id => hk_remove p id r
  | HClear p => hk_clear p r
  | HOrder fn => setPluginOrder fn r
  end.
Lemma hook_step_sorted op r : hooks_sorted r -> hooks_sorted (hook_step op r).
Proof.
  intros S. destruct op; simpl; unfold hooks_sorted, hk_add, setPluginOrder, resortLocked; simpl;
    try apply sortStable_spec; by apply filter_sorted.
Qed.
Lemma hook_run_sorted ops r : hooks_sorted r -> hooks_sorted (foldl (fun r op => hook_step op r) r ops).
Proof.
  revert r. induction ops as [|op ops IH]; intros r S; simpl; [done|]. apply IH. by apply hook_step_sorted.
Qed.

(** *** Dependency order *)

Lemma indexIn_app name l1 l2 : name ∉ l1 -> indexIn name (l1 ++ name :: l2) = Some (length l1).
Proof.
  induction l1 as [|x l1 IH]; simpl; [by rewrite bool_decide_true|].
  rewrite not_elem_of_cons. intros [N M]. rewrite bool_decide_false by done. by rewrite IH.
Qed.
Lemma indexIn_lt a n l1 l2 : NoDup (l1 ++ n :: l2) -> a ∈ l1 ->
  hookOrder (l1 ++ n :: l2) a < hookOrder (l1 ++ n :: l2) n.
Proof.
  intros ND A. apply list_elem_of_split in A as (l3 & l4 & ->).
  assert (n ∉ l3 ++ a :: l4 /\ a ∉ l3) as [N1 N2].
  { apply NoDup_app in ND as (ND1 & D & _). split; [intros X; apply (D n X); set_solver|].
    apply NoDup_app in ND1 as (_ & D1 & _). intros X. apply (D1 a X). set_solver. }
  unfold hookOrder at 2. rewrite indexIn_app by done. unfold hookOrder.
  replace ((l3 ++ a :: l4) ++ n :: l2) with (l3 ++ a :: (l4 ++ n :: l2)) by (by rewrite <- app_assoc).
  rewrite indexIn_app by done. rewrite length_app. simpl. lia.
Qed.

(** hooks run in dependency order.  After the hook order was refreshed
    from the computed dependency order, and after any further registrations
    and removals, the hooks listed for an operation have every hook of a
    dependency before every hook of a plugin that depends on it, and the
    hooks of one plugin by falling priority. *)
Theorem hooks_follow_dependencies (records : list depRecord) (order names : list string)
    (rounds : nat) (r0 : hookRegistry) (ops : list hook_op) (op : string)
    (l1 l2 : list HookRecord) (first later : HookRecord) :
  NoDup order -> (forall n, n ∈ order <-> n ∈ known records) -> (length order <= rounds)%nat ->
  topologicalOrder rounds order records = Some (Ok names) ->
  Forall (fun o => match o with HOrder _ => False | _ => True end) ops ->
  let r := foldl (fun r op => hook_step op r) (setPluginOrder (hookOrder names) r0) ops in
  forOperation op r = l1 ++ first :: l2 -> later ∈ l2 ->
  ~ dependency records (hr_PluginName later) (hr_PluginName first) /\
  (hr_PluginName first = hr_PluginName later -> hr_Priority later <= hr_Priority first).
Proof.
  intros ND O R T F r E L. assert (hk_order r = hookOrder names) as Or.
  { unfold r. clear - F. generalize (eq_refl : hk_order (setPluginOrder (hookOrder names) r0) = hookOrder names).
    generalize (setPluginOrder (hookOrder names) r0). induction F as [|o ops Fo F IH]; intros q Q; [done|].
    simpl. apply IH. by destruct o. }
  assert (hooks_sorted r) as S by (apply hook_run_sorted, sortStable_spec).
  apply (filter_sorted _ (fun h => bool_decide (hr_Operation h = op))) in S.
  change (StronglySorted (hook_le (hk_order r)) (forOperation op r)) in S. rewrite E, Or in S.
  apply StronglySorted_app_1_r in S. inversion S as [|? ? _ Fl]; subst.
  rewrite Forall_forall in Fl. specialize (Fl _ L). unfold hook_le, hookLess in Fl. split.
  - intros D. destruct (topologicalOrder_ok _ _ _ _ ND O R T) as (NDn & All & Bef).
    destruct (dependency_known _ _ _ D) as [_ K]. apply All, list_elem_of_split in K as (m1 & m2 & ->).
    pose proof (Bef m1 _ m2 _ eq_refl D) as A. pose proof (indexIn_lt _ _ _ _ NDn A) as Lt.
    rewrite (proj2 (Z.eqb_neq _ _)) in Fl by lia. boolify. lia.
  - intros Q. rewrite Q, Z.eqb_refl in Fl. boolify. lia.
Qed.

Definition hookOf (p : string) (prio : Z) : HookRecord := mkHook p "" "before" "s3:GetObject" "" "h" prio "" false.

Lemma hooks_follow_dependencies_witness :
  let records := [mkDep "app" (Some ["auth"]%string); mkDep "auth" None] in
  let names := ["auth"; "app"]%string in
  let r := hk_add (hookOf "auth" 1) (hk_add (hookOf "app" 99) (setPluginOrder (hookOrder names) newHookRegistry)) in
  forOperation "s3:GetObject" r = [hookOf "auth" 1; hookOf "app" 99] /\
  ~ dependency records "app" "auth".
Proof.
  intros records names r. split; [vm_compute; reflexivity|].
  apply (hooks_follow_dependencies records ["app"; "auth"]%string names 2 newHookRegistry
    [HAdd (hookOf "app" 99); HAdd (hookOf "auth" 1)] "s3:GetObject" [] [hookOf "app" 99]
    (hookOf "auth" 1) (hookOf "app" 99)).
  - repeat constructor; set_solver.
  - intros n. unfold known. simpl. set_solver.
  - simpl. lia.
  - vm_compute. reflexivity.
  - repeat constructor.
  - vm_compute. reflexivity.
  - set_solver.
Defined.

(** ** Handles *)

Lemma bump_fresh n : 0 <= n < 2 ^ 64 - 1 -> bump n = n + 1.
Proof.
  intros B. unfold bump, wrapU64. rewrite wrapU_id by lia. destruct (Z.eqb_spec (n + 1) 0); lia.
Qed.

(** Live handles are between 1 and the last one given out. *)
Definition table_ok {A} (t : handleTable A) : Prop :=
  0 <= ht_next t < 2 ^ 64 - 1 /\ forall h x, ht_map t !! h = Some x -> 1 <= h <= ht_next t.
Lemma allocate_fresh {A} (x : A) t : table_ok t -> ht_next t < 2 ^ 64 - 2 ->
  let '(t', h) := allocate x t in
  ht_map t !! h = None /\ table_ok t' /\ getContext h t' = Some x /\
  forall h', h' <> h -> getContext h' t' = getContext h' t.
Proof.
  intros [B K] L. unfold allocate, getContext. rewrite bump_fresh by lia. simpl. split_and!.
  - destruct (ht_map t !! (ht_next t + 1)) eqn:E; [|done]. apply K in E. lia.
  - split; simpl; [lia|]. intros h y. destruct (decide (h = ht_next t + 1)) as [->|N]; [lia|].
    rewrite lookup_insert_ne by done. intros E. apply K in E. lia.
  - apply lookup_insert_eq.
  - intros h' N. by rewrite lookup_insert_ne.
Qed.

(** A response is written at most once. *)
Lemma response_written_once h s hs b s' hs' b' t t' :
  WriteResponse h s hs b t = (t', Ok tt) -> exists e, WriteResponse h s' hs' b' t' = (t', Err e).
Proof.
  unfold WriteResponse. destruct (ht_map t !! h) as [req|] eqn:E; [|done].
  destruct (rq_respWritten req); [done|]. intros [= <-]. simpl. rewrite lookup_insert_eq. simpl. by eexists.
Qed.

(** ** Tables indexed by plugin *)

Section Index.
Context {A : Type} (owner : A -> string).
Implicit Types r : pluginIndex A.

(** The two views agree, and no plugin has an empty view. *)
Record index_ok r : Prop := {
  io_view p h x : (exists m, ix_byPlugin r !! p = Some m /\ m !! h = Some x) <->
    ix_items r !! h = Some x /\ owner x = p;
  io_nonempty p m : ix_byPlugin r !! p = Some m -> m <> ∅;
  io_next : 0 <= ix_next r;
  io_handles h x : ix_items r !! h = Some x -> 1 <= h <= ix_next r
}.

Lemma newIndex_ok : index_ok newIndex.
Proof.
  split; simpl; try lia.
  - intros p h x. rewrite lookup_empty. split; [intros (m & E & _)|intros [E _]]; by rewrite ?lookup_empty in E.
  - intros p m E. by rewrite lookup_empty in E.
  - intros h x E. by rewrite lookup_empty in E.
Qed.

Lemma ix_add_ok p mk r : (forall h, owner (mk h) = p) -> index_ok r -> ix_next r < 2 ^ 64 - 1 ->
  let '(r', h) := ix_add p mk r in
  index_ok r' /\ ix_items r !! h = None /\
  ix_items r' = <[h := mk h]> (ix_items r) /\ ix_next r' = ix_next r + 1.
Proof.
  intros O I L. pose proof (io_next _ I) as N0. unfold ix_add. rewrite bump_fresh by lia. simpl.
  set (h := ix_next r + 1).
  assert (ix_items r !! h = None) as Nh.
  { destruct (ix_items r !! h) eqn:E; [|done]. apply (io_handles _ I) in E. lia. }
  split_and!; try done. split; simpl; try lia.
  - intros q k x. destruct (decide (q = p)) as [->|NQ].
    + rewrite lookup_insert_eq. destruct (decide (k = h)) as [->|NK].
      * rewrite lookup_insert_eq. split.
        -- intros (m & [= <-] & E). rewrite lookup_insert_eq in E. by simplify_eq.
        -- intros [[= <-] _]. eexists. split; [done|]. by rewrite lookup_insert_eq.
      * rewrite lookup_insert_ne by done. rewrite <- (io_view _ I p k x). split.
        -- intros (m & [= <-] & E). rewrite lookup_insert_ne in E by done.
           destruct (ix_byPlugin r !! p) as [m|]; simpl in E; [by exists m|by rewrite lookup_empty in E].
        -- intros (m & E & Em). rewrite E. eexists. split; [done|]. by rewrite lookup_insert_ne.
    + rewrite lookup_insert_ne by done. rewrite (io_view _ I q k x).
      destruct (decide (k = h)) as [->|NK]; [|by rewrite lookup_insert_ne].
      rewrite Nh, lookup_insert_eq. split; [by intros [? _]|]. intros [[= <-] E]. rewrite O in E. done.
  - intros q m. destruct (decide (q = p)) as [->|NQ].
    + rewrite lookup_insert_eq. intros [= <-]. apply insert_non_empty.
    + rewrite lookup_insert_ne by done. apply I.
  - intros k x. destruct (decide (k = h)) as [->|NK]; [lia|]. rewrite lookup_insert_ne by done.
    intros E. apply (io_handles _ I) in E. lia.
Qed.

(** Clearing a plugin leaves the entries of the others. *)
Lemma foldr_delete_lookup {B} (mine : list (Z * B)) (m : gmap Z A) h :
  foldr (fun kv m => delete kv.1 m) m mine !! h
  = if decide (h ∈ fst <$> mine) then None else m !! h.
Proof.
  induction mine as [|[k x] mine IH]; cbn [foldr]; [by rewrite decide_False by apply not_elem_of_nil|].
  rewrite fmap_cons. cbn [fst]. destruct (decide (h = k)) as [->|N].
  - rewrite lookup_delete_eq, decide_True by set_solver. done.
  - rewrite lookup_delete_ne, IH by done. apply decide_ext. set_solver.
Qed.
Lemma ix_clear_ok p r : index_ok r ->
  index_ok (ix_clear p r).1 /\
  forall h, ix_items (ix_clear p r).1 !! h
    = match ix_items r !! h with
      | Some x => if decide (owner x = p) then None else Some x
      | None => None
      end.
Proof.
  intros I. set (mine := map_to_list (default ∅ (ix_byPlugin r !! p))).
  assert (forall h, h ∈ fst <$> mine <-> exists x, ix_items r !! h = Some x /\ owner x = p) as M.
  { intros h. rewrite list_elem_of_fmap. split.
    - intros ([k x] & -> & E). apply elem_of_map_to_list in E. exists x. apply (io_view _ I).
      destruct (ix_byPlugin r !! p) as [m|]; simpl in E; [by exists m|by rewrite lookup_empty in E].
    - intros (x & E). apply (io_view _ I) in E as (m & Em & E). exists (h, x). split; [done|].
      apply elem_of_map_to_list. by rewrite Em. }
  assert (forall h, ix_items (ix_clear p r).1 !! h = match ix_items r !! h with
    | Some x => if decide (owner x = p) then None else Some x | None => None end) as L.
  { intros h. unfold ix_clear. simpl. fold mine. rewrite foldr_delete_lookup.
    destruct (decide (h ∈ fst <$> mine)) as [E|E]; rewrite M in E.
    - destruct E as (x & -> & O). by rewrite decide_True.
    - destruct (ix_items r !! h) as [x|]; [|done]. rewrite decide_False; [done|]. intros O. apply E. eauto. }
  split; [|done]. split.
  - intros q h x. rewrite L. cbn [ix_clear fst ix_byPlugin]. destruct (decide (q = p)) as [->|NQ].
    + rewrite lookup_delete_eq. split; [by intros (m & E & _)|]. intros [E O].
      destruct (ix_items r !! h) as [y|]; [|done]. case_decide; simplify_eq; done.
    + rewrite lookup_delete_ne, (io_view _ I) by done. split.
      * intros [-> O]. rewrite decide_False; [done|congruence].
      * intros [E O]. destruct (ix_items r !! h) as [y|]; [|done]. case_decide; by simplify_eq.
  - intros q m. cbn [ix_clear fst ix_byPlugin]. destruct (decide (q = p)) as [->|NQ];
      [by rewrite lookup_delete_eq|rewrite lookup_delete_ne by done; apply I].
  - apply I.
  - intros h x. rewrite L. destruct (ix_items r !! h) as [y|] eqn:E; [|done]. intros _.
    by apply (io_handles _ I) in E.
Qed.
End Index.
