(* ===== verification/SystemScheduler.v ===== *)
(** * The system task scheduler (internal/scheduler/scheduler.go)

    Tasks by type with a cron schedule, a table of running types, a table of
    disabled types and a bounded history per type.  The cron library keeps the
    entries that fire (interface [Cron]).  An execution takes several critical
    sections; [sched_step] interleaves them. *)

From S2P Require Import Prelude GoStrings GoFloat.
From Stdlib Require Import Ascii String.
From stdpp Require Import base list.

#[local] Open Scope Z_scope.

(** [cron.AddFunc] and [cron.Remove]; an entry calls back with a task type. *)
Class Cron := {
  cronState : Type;
  cronNew : cronState;
  cronAdd : string -> string -> cronState -> cronState * res Z;
  cronRemove : Z -> cronState -> cronState;
  cronEntries : cronState -> gmap Z string
}.

Class CronLaws `{Cron} := {
  cronNew_entries : cronEntries cronNew = ∅;
  cronAdd_ok spec t c c' id : cronAdd spec t c = (c', Ok id) ->
    cronEntries c !! id = None /\ cronEntries c' = <[id := t]> (cronEntries c);
  cronAdd_err spec t c c' e : cronAdd spec t c = (c', Err e) -> c' = c;
  cronAdd_nopanic spec t c w : (cronAdd spec t c).2 <> Panic w;
  cronRemove_entries id c : cronEntries (cronRemove id c) = delete id (cronEntries c)
}.

Record RetryPolicy := mkRetry {
  rp_MaxRetries : Z; rp_InitialDelay : Duration; rp_MaxDelay : Duration;
  rp_BackoffMultiplier : float64
}.

(** A handler is named by a number; [None] is nil. *)
Record TaskConfig := mkTaskConfig {
  tc_Type : string; tc_Schedule : string; tc_Handler : option Z; tc_Concurrency : Z;
  tc_RetryPolicy : option RetryPolicy; tc_DependsOn : list string; tc_Enabled : bool
}.

Record TaskResult := mkTaskResult {
  trs_TaskType : string; trs_Success : bool; trs_StartedAt : Time; trs_FinishedAt : Time;
  trs_Error : option string; trs_RetryCount : Z
}.

Section Scheduler.
Context `{Cron}.

Record Scheduler := mkScheduler {
  s_cron : cronState;
  s_tasks : gmap string TaskConfig;
  s_taskResults : gmap string (list TaskResult);
  s_runningTasks : gmap string bool;
  s_maxHistory : nat;
  s_disabled : gmap string bool;
  s_cronIDs : gmap string Z
}.

Definition NewScheduler : Scheduler := mkScheduler cronNew ∅ ∅ ∅ 100 ∅ ∅.

Definition with_tasks c ts ids (s : Scheduler) : Scheduler :=
  mkScheduler c ts (s_taskResults s) (s_runningTasks s) (s_maxHistory s) (s_disabled s) ids.
Definition with_running r (s : Scheduler) : Scheduler :=
  mkScheduler (s_cron s) (s_tasks s) (s_taskResults s) r (s_maxHistory s) (s_disabled s) (s_cronIDs s).
Definition with_disabled d (s : Scheduler) : Scheduler :=
  mkScheduler (s_cron s) (s_tasks s) (s_taskResults s) (s_runningTasks s) (s_maxHistory s) d (s_cronIDs s).
Definition with_results r (s : Scheduler) : Scheduler :=
  mkScheduler (s_cron s) (s_tasks s) r (s_runningTasks s) (s_maxHistory s) (s_disabled s) (s_cronIDs s).

Definition sch_RegisterTask (config : TaskConfig) (s : Scheduler) : Scheduler * res Z :=
  match tc_Handler config with
  | None => (s, Err ("handler is required for task " +:+ tc_Type config))
  | Some _ =>
    let tasks := <[tc_Type config := config]> (s_tasks s) in
    let s := with_tasks (s_cron s) tasks (s_cronIDs s) s in
    if bool_decide (tc_Schedule config = ""%string) then (s, Ok 0)
    else
      match cronAdd (tc_Schedule config) (tc_Type config) (s_cron s) with
      | (c, Ok entryID) => (with_tasks c tasks (<[tc_Type config := entryID]> (s_cronIDs s)) s, Ok entryID)
      | (c, Err e) =>
        (with_tasks c tasks (s_cronIDs s) s, Err ("failed to add task " +:+ tc_Type config +:+ ": " +:+ e))
      | (c, Panic w) => (with_tasks c tasks (s_cronIDs s) s, Panic w)
      end
  end.

Definition sch_UnregisterTask (taskType : string) (s : Scheduler) : Scheduler * res unit :=
  match s_tasks s !! taskType with
  | None => (s, Err ("task " +:+ taskType +:+ " not found"))
  | Some _ =>
    let '(c, ids) := match s_cronIDs s !! taskType with
                     | Some entryID => (cronRemove entryID (s_cron s), delete taskType (s_cronIDs s))
                     | None => (s_cron s, s_cronIDs s)
                     end in
    (with_tasks c (delete taskType (s_tasks s)) ids s, Ok tt)
  end.

Definition DisableTask (t : string) (s : Scheduler) : Scheduler :=
  with_disabled (<[t := true]> (s_disabled s)) s.
Definition EnableTask (t : string) (s : Scheduler) : Scheduler :=
  with_disabled (delete t (s_disabled s)) s.
Definition IsTaskRunning (t : string) (s : Scheduler) : bool := default false (s_runningTasks s !! t).
Definition isDisabled (t : string) (s : Scheduler) : bool := default false (s_disabled s !! t).

(** *** The retry loop *)

Definition defaultRetry : RetryPolicy := mkRetry 1 Second Minute (fofZ 2).

(** [attempt] rounds of multiplying and capping. *)
Fixpoint backoff (rounds : nat) (p : RetryPolicy) (delay : Duration) : Duration :=
  match rounds with
  | O => delay
  | S rounds =>
    let d := int64OfFloat (fmul (fofZ delay) (rp_BackoffMultiplier p)) in
    backoff rounds p (if rp_MaxDelay p <? d then rp_MaxDelay p else d)
  end.
Definition retryDelayFor (p : RetryPolicy) (attempt : Z) : Duration :=
  if fgt (rp_BackoffMultiplier p) (fofZ 0)
  then backoff (Z.to_nat attempt) p (rp_InitialDelay p) else rp_InitialDelay p.

(** What one execution meets: the handler's result in each attempt, and
    whether the context ends during the wait before it. *)
Record attempts := mkAttempts { at_run : Z -> option string; at_wait : Z -> Duration -> option string }.

(** The loop from [attempt] on with [todo] attempts left: the final error, the
    last attempt number, and how often the handler ran. *)
Fixpoint attemptLoop (todo : nat) (attempt : Z) (p : RetryPolicy) (a : attempts)
    (err : option string) (count : Z) (runs : nat) : option string * Z * nat :=
  match todo with
  | O => (err, count, runs)
  | S todo =>
    match (if 0 <? attempt then at_wait a attempt (retryDelayFor p attempt) else None) with
    | Some e => (Some e, attempt, runs)
    | None =>
      match at_run a attempt with
      | None => (None, attempt, S runs)
      | Some e => attemptLoop todo (attempt + 1) p a (Some e) attempt (S runs)
      end
    end
  end.
Definition runAttempts (config : TaskConfig) (a : attempts) : option string * Z * nat :=
  let p := default defaultRetry (tc_RetryPolicy config) in
  attemptLoop (Z.to_nat (rp_MaxRetries p + 1)) 0 p a None 0 0.

Definition recordResult (t : string) (r : TaskResult) (s : Scheduler) : Scheduler :=
  with_results (<[t := boundedAppend (s_maxHistory s) (default [] (s_taskResults s !! t)) r]>
    (s_taskResults s)) s.

(** *** One execution, critical section by critical section *)

Inductive exec :=
| XStart (t : string)
| XCheck (t : string) (config : TaskConfig)
| XMark (t : string) (config : TaskConfig)
| XRun (t : string) (config : TaskConfig)
| XRecord (t : string) (r : TaskResult)
| XUnmark (t : string) (err : option string)
| XDone (err : option string).

Definition taskMissing (t : string) : string := "task " +:+ t +:+ " not found".
Definition alreadyRunning (t : string) : string := "task " +:+ t +:+ " is already running".

(** The steps of [executeTask]; [a] and the clock readings matter to the run. *)
Definition execStep (a : attempts) (started finished : Time) (s : Scheduler) (x : exec)
  : Scheduler * exec :=
  match x with
  | XStart t =>
    match s_tasks s !! t with
    | None => (s, XDone (Some (taskMissing t)))
    | Some config => (s, XCheck t config)
    end
  | XCheck t config => if isDisabled t s then (s, XDone None) else (s, XMark t config)
  | XMark t config =>
    if IsTaskRunning t s && (tc_Concurrency config <=? 1)
    then (s, XDone (Some (alreadyRunning t)))
    else (with_running (<[t := true]> (s_runningTasks s)) s, XRun t config)
  | XRun t config =>
    let '(err, count, _) := runAttempts config a in
    (s, XRecord t (mkTaskResult t (bool_decide (err = None)) started finished err count))
  | XRecord t r => (recordResult t r s, XUnmark t (trs_Error r))
  | XUnmark t err => (with_running (delete t (s_runningTasks s)) s, XDone err)
  | XDone err => (s, XDone err)
  end.

(** [executeTask] when nothing interferes. *)
Definition executeTask (a : attempts) (started finished : Time) (t : string) (s : Scheduler)
  : Scheduler * option string :=
  let step sx := execStep a started finished sx.1 sx.2 in
  match step (step (step (step (step (step (s, XStart t)))))) with
  | (s, XDone err) => (s, err)
  | (s, _) => (s, None)
  end.
Definition RunTaskNow (a : attempts) (started finished : Time) (t : string) (s : Scheduler)
  : Scheduler * option string :=
  match s_tasks s !! t with
  | None => (s, Some (taskMissing t))
  | Some _ => executeTask a started finished t s
  end.

(** The system: callers of the API, cron firing, executions in progress; [P]
    holds of the configurations that are registered. *)
Inductive sched_step (P : TaskConfig -> Prop)
  : Scheduler * list exec -> Scheduler * list exec -> Prop :=
| st_exec s xs i x s' x' a started finished :
    xs !! i = Some x -> execStep a started finished s x = (s', x') ->
    sched_step P (s, xs) (s', <[i := x']> xs)
| st_fire s xs id t :
    cronEntries (s_cron s) !! id = Some t -> sched_step P (s, xs) (s, xs ++ [XStart t])
| st_runNow s xs t : is_Some (s_tasks s !! t) -> sched_step P (s, xs) (s, xs ++ [XStart t])
| st_register s xs config : P config -> sched_step P (s, xs) ((sch_RegisterTask config s).1, xs)
| st_unregister s xs t : sched_step P (s, xs) ((sch_UnregisterTask t s).1, xs)
| st_disable s xs t : sched_step P (s, xs) (DisableTask t s, xs)
| st_enable s xs t : sched_step P (s, xs) (EnableTask t s, xs).

(** *** Queries *)

Definition GetTaskHistory (t : string) (limit : Z) (s : Scheduler) : list TaskResult :=
  let results := default [] (s_taskResults s !! t) in
  let n := Z.of_nat (length results) in
  let limit := if (limit <=? 0) || (n <? limit) then n else limit in
  lastn (Z.to_nat limit) results.

Definition calculateSuccessRate (results : list TaskResult) : float64 :=
  if bool_decide (results = []) then fofZ 0
  else fdiv (fofZ (Z.of_nat (length (List.filter trs_Success results)))) (fofZ (Z.of_nat (length results))).

Record TaskStatus := mkTaskStatus {
  tst_Type : string; tst_Enabled : bool; tst_Schedule : string; tst_IsRunning : bool;
  tst_LastRun : option TaskResult; tst_SuccessRate : float64
}.
Definition GetTaskStatus (s : Scheduler) : gmap string TaskStatus :=
  map_imap (fun t config =>
    let history := default [] (s_taskResults s !! t) in
    Some (mkTaskStatus t (negb (isDisabled t s)) (tc_Schedule config) (IsTaskRunning t s)
            (last history) (calculateSuccessRate history))) (s_tasks s).

Record TaskStats := mkTaskStats {
  tss_TotalRuns : Z; tss_Successes : Z; tss_Failures : Z; tss_AvgDuration : Duration; tss_MaxRetries : Z
}.
Definition addStats (st : TaskStats) (r : TaskResult) : TaskStats :=
  mkTaskStats (tss_TotalRuns st)
    (if trs_Success r then wrap64 (tss_Successes st + 1) else tss_Successes st)
    (if trs_Success r then tss_Failures st else wrap64 (tss_Failures st + 1))
    (if negb (IsZero (trs_FinishedAt r)) && negb (IsZero (trs_StartedAt r))
     then wrap64 (tss_AvgDuration st + Sub (trs_FinishedAt r) (trs_StartedAt r)) else tss_AvgDuration st)
    (if tss_MaxRetries st <? trs_RetryCount r then trs_RetryCount r else tss_MaxRetries st).
(** The field AvgDuration holds the total until the last line. *)
Definition GetTaskStats (t : string) (s : Scheduler) : TaskStats :=
  let results := default [] (s_taskResults s !! t) in
  let n := Z.of_nat (length results) in
  let st := fold_left addStats results (mkTaskStats n 0 0 0 0) in
  if 0 <? n
  then mkTaskStats n (tss_Successes st) (tss_Failures st) (Z.quot (tss_AvgDuration st) n) (tss_MaxRetries st)
  else st.
End Scheduler.
