(* ===== verification/SystemSchedulerTheorems.v ===== *)
(** * The task scheduler: no overlap of serial tasks, retries, history *)

From S2P Require Import Prelude GoStrings GoFloat SystemScheduler.
From Stdlib Require Import Ascii String Relations.
From stdpp Require Import base list.

#[local] Open Scope Z_scope.

Section Proofs.
Context `{Cron}.

(** ** Executions of one type in their critical phase *)

Definition active (t : string) (x : exec) : bool :=
  match x with
  | XRun t' _ | XRecord t' _ | XUnmark t' _ => bool_decide (t' = t)
  | _ => false
  end.
Definition inside (t : string) (xs : list exec) : nat := length (List.filter (active t) xs).

Definition serialConfig (t : string) (c : TaskConfig) : Prop :=
  tc_Type c = t -> tc_Concurrency c <= 1.
(** The configuration an execution of [t] works with is serial. *)
Definition exec_serial (t : string) (x : exec) : Prop :=
  match x with
  | XCheck t' c | XMark t' c => t' = t -> tc_Concurrency c <= 1
  | _ => True
  end.

Record serial_ok (t : string) (st : Scheduler * list exec) : Prop := {
  so_config c : s_tasks st.1 !! t = Some c -> tc_Concurrency c <= 1;
  so_execs : Forall (exec_serial t) st.2;
  so_mark : inside t st.2 = if IsTaskRunning t st.1 then 1%nat else 0%nat
}.

Lemma inside_insert t xs i x x' : xs !! i = Some x ->
  (inside t (<[i := x']> xs) + (if active t x then 1 else 0)
   = inside t xs + (if active t x' then 1 else 0))%nat.
Proof.
  unfold inside. revert i. induction xs as [|y xs IH]; intros [|i] E; simplify_eq/=.
  - destruct (active t x), (active t x'); simpl; lia.
  - specialize (IH i E). destruct (active t y); simpl; lia.
Qed.

Lemma inside_snoc t xs t' : inside t (xs ++ [XStart t']) = inside t xs.
Proof. unfold inside. rewrite List.filter_app, length_app. simpl. lia. Qed.

Lemma running_insert t t' b s :
  IsTaskRunning t (with_running (<[t' := b]> (s_runningTasks s)) s)
  = if decide (t' = t) then b else IsTaskRunning t s.
Proof.
  unfold IsTaskRunning. simpl. case_decide; subst;
    [by rewrite lookup_insert_eq|by rewrite lookup_insert_ne].
Qed.
Lemma running_delete t t' s :
  IsTaskRunning t (with_running (delete t' (s_runningTasks s)) s)
  = if decide (t' = t) then false else IsTaskRunning t s.
Proof.
  unfold IsTaskRunning. simpl. case_decide; subst;
    [by rewrite lookup_delete_eq|by rewrite lookup_delete_ne].
Qed.

Lemma execStep_tasks a st fi s x : s_tasks (execStep a st fi s x).1 = s_tasks s.
Proof. destruct x; unfold execStep; repeat case_match; reflexivity. Qed.

Lemma RegisterTask_tasks config s t c :
  s_tasks (sch_RegisterTask config s).1 !! t = Some c ->
  s_tasks s !! t = Some c \/ (c = config /\ tc_Type config = t).
Proof.
  unfold sch_RegisterTask. destruct (tc_Handler config); [|auto].
  assert (<[tc_Type config := config]> (s_tasks s) !! t = Some c ->
    s_tasks s !! t = Some c \/ (c = config /\ tc_Type config = t)) as I.
  { rewrite lookup_insert_Some. naive_solver. }
  repeat case_match; simpl; intros; by apply I.
Qed.
Lemma RegisterTask_running config s t :
  IsTaskRunning t (sch_RegisterTask config s).1 = IsTaskRunning t s.
Proof. unfold sch_RegisterTask. repeat case_match; reflexivity. Qed.

Lemma UnregisterTask_tasks t' s :
  s_tasks (sch_UnregisterTask t' s).1 = delete t' (s_tasks s).
Proof.
  unfold sch_UnregisterTask. destruct (s_tasks s !! t') eqn:E;
    [by destruct (s_cronIDs s !! t')|by rewrite delete_id].
Qed.
Lemma UnregisterTask_running t' s t :
  IsTaskRunning t (sch_UnregisterTask t' s).1 = IsTaskRunning t s.
Proof.
  unfold sch_UnregisterTask. destruct (s_tasks s !! t'); [|done]. by destruct (s_cronIDs s !! t').
Qed.

Lemma execStep_serial t a st fi s x s' x' :
  (forall c, s_tasks s !! t = Some c -> tc_Concurrency c <= 1) ->
  execStep a st fi s x = (s', x') -> exec_serial t x -> exec_serial t x'.
Proof.
  intros C E X. destruct x; unfold execStep in E; repeat case_match; simplify_eq; simpl in *; auto.
  intros ->. auto.
Qed.

Lemma execStep_mark t a st fi s x s' x' n : exec_serial t x ->
  execStep a st fi s x = (s', x') ->
  (n + (if active t x then 1 else 0) = (if IsTaskRunning t s then 1 else 0) + (if active t x' then 1 else 0))%nat ->
  (active t x = true -> IsTaskRunning t s = true) ->
  n = (if IsTaskRunning t s' then 1 else 0)%nat.
Proof.
  intros X E N A. destruct x; unfold execStep in E; cbn [active] in *.
  - destruct (s_tasks s !! t0); simplify_eq; cbn [active] in N; lia.
  - destruct (isDisabled t0 s); simplify_eq; cbn [active] in N; lia.
  - destruct (IsTaskRunning t0 s && (tc_Concurrency config <=? 1)) eqn:B; simplify_eq; cbn [active] in N;
      [lia|]. rewrite running_insert. simpl in X. destruct (decide (t0 = t)) as [->|D];
      [|rewrite bool_decide_eq_false_2 in N by done; lia].
    rewrite bool_decide_eq_true_2 in N by done.
    apply andb_false_iff in B as [B|B]; [rewrite B in N; lia|specialize (X eq_refl); apply Z.leb_gt in B; lia].
  - destruct (runAttempts config a) as [[err count] runs]. simplify_eq. cbn [active] in N. lia.
  - simplify_eq. cbn [active] in N. change (IsTaskRunning t (recordResult _ _ _)) with (IsTaskRunning t s).
    lia.
  - simplify_eq. rewrite running_delete. cbn [active] in N. destruct (decide (t0 = t)) as [->|D].
    + rewrite bool_decide_eq_true_2 in N by done. rewrite A in N by (by apply bool_decide_eq_true_2). lia.
    + rewrite bool_decide_eq_false_2 in N by done. lia.
  - simplify_eq. cbn [active] in N. lia.
Qed.

Lemma inside_pos t xs i x : xs !! i = Some x -> active t x = true -> (0 < inside t xs)%nat.
Proof.
  intros E A. unfold inside. apply list_elem_of_lookup_2 in E.
  assert (x ∈ List.filter (active t) xs) as I.
  { apply list_elem_of_In, List.filter_In. by rewrite <- list_elem_of_In. }
  destruct (List.filter (active t) xs); [by apply not_elem_of_nil in I|simpl; lia].
Qed.

Lemma sched_step_serial t st st' :
  sched_step (serialConfig t) st st' -> serial_ok t st -> serial_ok t st'.
Proof.
  intros S [C X M]. destruct S; simpl in *; try (constructor; simpl; auto; fail).
  - constructor; simpl.
    + intros c. replace s' with (execStep a started finished s x).1 by (by rewrite H1).
      rewrite execStep_tasks. auto.
    + apply Forall_insert; [done|]. eapply execStep_serial; eauto. by eapply Forall_lookup_1.
    + eapply execStep_mark; [by eapply Forall_lookup_1|done| |].
      * rewrite (inside_insert _ _ _ _ _ H0). by rewrite M.
      * intros A. pose proof (inside_pos _ _ _ _ H0 A). destruct (IsTaskRunning t s); [done|lia].
  - constructor; simpl; auto; [apply Forall_app; by repeat constructor|by rewrite inside_snoc].
  - constructor; simpl; auto; [apply Forall_app; by repeat constructor|by rewrite inside_snoc].
  - constructor; simpl; auto; [|by rewrite RegisterTask_running].
    intros c E. apply RegisterTask_tasks in E as [E|[-> E]]; auto.
  - constructor; simpl; auto; [|by rewrite UnregisterTask_running].
    intros c. rewrite UnregisterTask_tasks. intros [_ E]%lookup_delete_Some. auto.
Qed.

Definition sched_reachable (P : TaskConfig -> Prop) : Scheduler * list exec -> Prop :=
  clos_refl_trans_1n _ (sched_step P) (NewScheduler, []).

Lemma reachable_serial t st : sched_reachable (serialConfig t) st -> serial_ok t st.
Proof.
  intros R. assert (serial_ok t (NewScheduler, [])) as I by (constructor; simpl; auto; by intros ? ?).
  revert I. induction R as [|x y z S R IH]; [done|]. intros. apply IH. by eapply sched_step_serial.
Qed.

(** When every configuration registered for a task type is serial
    (Concurrency at most 1), at most one execution of that type is between
    taking and releasing the running mark, in every state the scheduler can
    reach with cron firings, manual runs, registrations, removals and any
    interleaving of the executions' critical sections; IsTaskRunning says
    whether there is one. *)
Theorem serial_task_never_overlaps (t : string) (s : Scheduler) (xs : list exec) :
  sched_reachable (serialConfig t) (s, xs) ->
  (inside t xs <= 1)%nat /\ (IsTaskRunning t s = true <-> inside t xs = 1%nat) /\
  forall i j x y, xs !! i = Some x -> xs !! j = Some y ->
    active t x = true -> active t y = true -> i = j.
Proof.
  intros [_ _ M]%reachable_serial. simpl in M.
  split; [destruct (IsTaskRunning t s); lia|]. split.
  { rewrite M. destruct (IsTaskRunning t s); split; done || lia. }
  intros i j x y Ei Ej Ax Ay. destruct (decide (i = j)) as [|N]; [done|exfalso].
  pose proof (inside_insert t xs i x (XDone None) Ei) as I1. rewrite Ax in I1. simpl in I1.
  assert (<[i := XDone None]> xs !! j = Some y) as Ej' by (by rewrite list_lookup_insert_ne).
  pose proof (inside_pos t _ _ _ Ej' Ay). destruct (IsTaskRunning t s); lia.
Qed.

(** ** Retries *)

(** The wait before attempt [i], if there is one, ended normally. *)
Definition waited (p : RetryPolicy) (a : attempts) (i : Z) : Prop :=
  0 < i -> at_wait a i (retryDelayFor p i) = None.

(** How the loop ends: at attempt [c] the wait was cut short, or the handler
    ran and succeeded, or it was the last attempt. *)
Definition loop_end (p : RetryPolicy) (a : attempts) (first last c : Z) (err : option string)
    (runs : nat) : Prop :=
  first <= c <= last /\
  (forall i, first <= i < c -> waited p a i /\ is_Some (at_run a i)) /\
  ((0 < c /\ is_Some err /\ err = at_wait a c (retryDelayFor p c) /\ Z.of_nat runs = c - first) \/
   (waited p a c /\ err = at_run a c /\ Z.of_nat runs = c - first + 1 /\ (err = None \/ c = last))).

Lemma attemptLoop_S todo attempt p a err c r :
  attemptLoop (S todo) attempt p a err c r =
  match (if 0 <? attempt then at_wait a attempt (retryDelayFor p attempt) else None) with
  | Some e => (Some e, attempt, r)
  | None =>
    match at_run a attempt with
    | None => (None, attempt, S r)
    | Some e => attemptLoop todo (attempt + 1) p a (Some e) attempt (S r)
    end
  end.
Proof. reflexivity. Qed.

Lemma waited_or_cut p a i :
  match (if 0 <? i then at_wait a i (retryDelayFor p i) else None) with
  | Some e => 0 < i /\ Some e = at_wait a i (retryDelayFor p i)
  | None => waited p a i
  end.
Proof.
  unfold waited. destruct (Z.ltb_spec 0 i); [|lia].
  by destruct (at_wait a i (retryDelayFor p i)).
Qed.

Lemma attemptLoop_end todo : forall attempt p a err c r err' c' r', 0 <= attempt ->
  attemptLoop (S todo) attempt p a err c r = (err', c', r') ->
  exists runs, r' = (r + runs)%nat /\ loop_end p a attempt (attempt + Z.of_nat todo) c' err' runs.
Proof.
  induction todo as [|todo IH]; intros attempt p a err c r err' c' r' P E; rewrite attemptLoop_S in E;
    pose proof (waited_or_cut p a attempt) as W; simpl in W;
    destruct (if 0 <? attempt then _ else None) as [e|] eqn:Ew.
  1, 3: injection E as <- <- <-; exists 0%nat; split; [lia|]; split; [lia|]; split; [intros; lia|];
    left; destruct W as [? W]; split; [lia|]; split; [by eexists|]; split; [done|lia].
  all: destruct (at_run a attempt) as [e|] eqn:R.
  1, 2, 4: try (injection E as <- <- <-); try (cbn [attemptLoop] in E; injection E as <- <- <-);
    exists 1%nat; split; [lia|]; split; [lia|]; split; [intros; lia|]; right; rewrite R;
    repeat split; auto; lia.
  apply IH in E as (runs & -> & B & Before & End); [|lia]. exists (S runs). split; [lia|].
  split; [lia|]. split.
  - intros i I. destruct (decide (i = attempt)) as [->|]; [by rewrite R|]. apply Before. lia.
  - destruct End as [(? & ? & ? & ?)|(? & ? & ? & L)]; [left|right]; repeat split; auto; try lia.
    destruct L; [auto|right; lia].
Qed.

Lemma executeTask_run a st fi t s config : s_tasks s !! t = Some config ->
  isDisabled t s = false -> (IsTaskRunning t s = false \/ 1 < tc_Concurrency config) ->
  let '(err, count, _) := runAttempts config a in
  executeTask a st fi t s =
    (let s := recordResult t (mkTaskResult t (bool_decide (err = None)) st fi err count) s in
     with_running (delete t (s_runningTasks s)) s, err).
Proof.
  intros T D R. destruct (runAttempts config a) as [[err count] runs] eqn:E.
  unfold executeTask. cbn [fst snd].
  assert (IsTaskRunning t s && (tc_Concurrency config <=? 1) = false) as M.
  { destruct R as [->|R]; [done|]. apply andb_false_iff. right. apply Z.leb_gt. lia. }
  cbn [execStep]. rewrite T. cbn [fst snd execStep]. rewrite D. cbn [fst snd execStep]. rewrite M.
  cbn [fst snd execStep]. rewrite E. cbn [fst snd execStep trs_Error].
  unfold recordResult, with_running, with_results. simpl. by rewrite delete_insert_eq.
Qed.
(** An execution of a registered, enabled and idle task runs its handler
    attempt after attempt, each retry after the policy's delay, until the
    handler returns nil, a wait is cut short by the context, or MaxRetries
    retries are used up.  It returns the error of the last attempt or wait and
    appends to the type's history, of at most maxHistory entries, a result with
    that error and the attempt number; the running mark is gone afterwards and
    the registered tasks are unchanged. *)
Theorem task_retried_until_success (a : attempts) (started finished : Time) (t : string)
    (s : Scheduler) (config : TaskConfig) :
  s_tasks s !! t = Some config -> isDisabled t s = false -> IsTaskRunning t s = false ->
  let p := default defaultRetry (tc_RetryPolicy config) in
  0 <= rp_MaxRetries p -> (0 < s_maxHistory s)%nat ->
  (length (default [] (s_taskResults s !! t)) <= s_maxHistory s)%nat ->
  exists s' err count runs,
    RunTaskNow a started finished t s = (s', err) /\
    runAttempts config a = (err, count, runs) /\
    loop_end p a 0 (rp_MaxRetries p) count err runs /\
    last (default [] (s_taskResults s' !! t))
      = Some (mkTaskResult t (bool_decide (err = None)) started finished err count) /\
    (length (default [] (s_taskResults s' !! t)) <= s_maxHistory s)%nat /\
    (forall t', t' <> t -> s_taskResults s' !! t' = s_taskResults s !! t') /\
    IsTaskRunning t s' = false /\ s_tasks s' = s_tasks s.
Proof.
  intros T D R p MR H0 HL. pose proof (executeTask_run a started finished t s config T D (or_introl R)) as E.
  destruct (runAttempts config a) as [[err count] runs] eqn:L.
  eexists _, err, count, runs. unfold RunTaskNow. rewrite T. split; [exact E|]. split; [done|].
  split.
  { unfold runAttempts in L. fold p in L. replace (Z.to_nat (rp_MaxRetries p + 1)) with
      (S (Z.to_nat (rp_MaxRetries p))) in L by lia.
    apply attemptLoop_end in L as (n & -> & L); [|lia]. by rewrite Z2Nat.id in L by lia. }
  cbn [recordResult with_running with_results s_taskResults s_runningTasks s_tasks].
  rewrite lookup_insert_eq. cbn [default].
  split; [by apply boundedAppend_last|]. split; [by apply boundedAppend_bound|].
  split; [intros; by rewrite lookup_insert_ne|]. split; [|done].
  unfold IsTaskRunning. simpl. by rewrite lookup_delete_eq.
Qed.

(** A negative number of retries records a success although the handler never
    ran. *)
Lemma negative_retries_never_run a t p c n sched d e : rp_MaxRetries p < 0 ->
  runAttempts (mkTaskConfig t sched (Some n) c (Some p) d e) a = (None, 0, 0%nat).
Proof.
  intros N. unfold runAttempts. simpl. replace (Z.to_nat (rp_MaxRetries p + 1)) with 0%nat by lia. done.
Qed.

(** A retry never waits longer than MaxDelay when there is a multiplier. *)
Lemma backoff_capped n p d : (0 < n)%nat -> backoff n p d <= rp_MaxDelay p.
Proof.
  revert d. induction n as [|n IH]; intros d N; [lia|]. cbn [backoff].
  destruct n as [|n]; [|apply IH; lia]. cbn [backoff].
  destruct (Z.ltb_spec (rp_MaxDelay p) (int64OfFloat (fmul (fofZ d) (rp_BackoffMultiplier p)))); lia.
Qed.
Lemma retry_delay_capped p attempt : 0 < attempt ->
  fgt (rp_BackoffMultiplier p) (fofZ 0) = true -> retryDelayFor p attempt <= rp_MaxDelay p.
Proof. intros A M. unfold retryDelayFor. rewrite M. apply backoff_capped. lia. Qed.

(** ** Cron entries *)

(** Every cron entry of [t] is the one on record. *)
Definition one_entry (t : string) (s : Scheduler) : Prop :=
  forall id, cronEntries (s_cron s) !! id = Some t -> s_cronIDs s !! t = Some id.

(** Unregistering a task whose only entry is the one on record stops its
    firing. *)
Lemma unregister_stops_cron `{!CronLaws} t s s' : one_entry t s ->
  sch_UnregisterTask t s = (s', Ok tt) -> forall id, cronEntries (s_cron s') !! id <> Some t.
Proof.
  intros O E id F. unfold sch_UnregisterTask in E. destruct (s_tasks s !! t); [|done].
  destruct (s_cronIDs s !! t) as [n|] eqn:C; simplify_eq; simpl in F.
  - rewrite cronRemove_entries in F. apply lookup_delete_Some in F as [N F].
    apply O in F. congruence.
  - apply O in F. congruence.
Qed.
End Proofs.

(** ** Examples on a concrete cron table *)

(** Entries numbered from 1; the schedule "bad" does not parse. *)
#[local] Instance mapCron : Cron := {
  cronState := Z * gmap Z string;
  cronNew := (0, ∅);
  cronAdd spec t c :=
    if bool_decide (spec = "bad"%string) then (c, Err "parse") else ((c.1 + 1, <[c.1 + 1 := t]> c.2), Ok (c.1 + 1));
  cronRemove id c := (c.1, delete id c.2);
  cronEntries c := c.2
}.

Definition demoConfig (conc : Z) : TaskConfig :=
  mkTaskConfig "scrub" "@daily" (Some 1) conc (Some (mkRetry 2 Second Minute (fofZ 2))) [] true.
Definition failTwice : attempts := mkAttempts (fun i => if i <? 2 then Some "io"%string else None) (fun _ _ => None).

Lemma task_retried_until_success_witness : exists s' err count runs,
  RunTaskNow failTwice 5 9 "scrub" (sch_RegisterTask (demoConfig 1) NewScheduler).1 = (s', err) /\
  runAttempts (demoConfig 1) failTwice = (err, count, runs) /\
  loop_end (mkRetry 2 Second Minute (fofZ 2)) failTwice 0 2 count err runs /\
  (err, count, runs) = (None, 2, 3%nat).
Proof.
  destruct (task_retried_until_success failTwice 5 9 "scrub"
    (sch_RegisterTask (demoConfig 1) NewScheduler).1 (demoConfig 1)) as (s' & err & count & runs & A & B & C & _);
    [reflexivity|reflexivity|reflexivity|vm_compute; discriminate|vm_compute; lia|vm_compute; lia|].
  exists s', err, count, runs. split; [exact A|]. split; [exact B|]. split; [exact C|].
  symmetry. rewrite <- B. vm_compute. reflexivity.
Defined.

(** The first retry waits InitialDelay times the multiplier, not InitialDelay. *)
Example first_retry_delay : retryDelayFor (mkRetry 3 Second Minute (fofZ 2)) 1 = 2 * Second.
Proof. vm_compute. reflexivity. Qed.

(** Registering a type again leaves the first cron entry behind: after
    UnregisterTask it still fires. *)
Example reregistered_task_keeps_firing :
  let s := (sch_RegisterTask (demoConfig 1) (sch_RegisterTask (demoConfig 1) NewScheduler).1).1 in
  let '(s', r) := sch_UnregisterTask "scrub" s in
  r = Ok tt /\ cronEntries (s_cron s') !! 1 = Some "scrub"%string.
Proof. split; reflexivity. Qed.

(** A task whose schedule does not parse stays registered behind the error. *)
Example failed_registration_stays :
  let '(s, r) := sch_RegisterTask (mkTaskConfig "t" "bad" (Some 1) 1 None [] true) NewScheduler in
  is_err r = true /\ is_Some (s_tasks s !! "t"%string).
Proof. split; [reflexivity|by eexists]. Qed.

(** ** Reachable states *)

Lemma reach_step `{Cron} P st st' : sched_reachable P st -> sched_step P st st' -> sched_reachable P st'.
Proof.
  intros R S. apply clos_rt_rt1n. eapply rt_trans; [apply clos_rt1n_rt, R|by apply rt_step].
Qed.

Lemma serial_task_never_overlaps_witness : exists s xs,
  sched_reachable (serialConfig "scrub") (s, xs) /\ length xs = 2%nat /\
  (inside "scrub" xs <= 1)%nat /\ IsTaskRunning "scrub" s = true.
Proof.
  assert (exists s xs, sched_reachable (serialConfig "scrub") (s, xs) /\ length xs = 2%nat /\
    IsTaskRunning "scrub" s = true) as (s & xs & R & L & T).
  { assert (sched_reachable (serialConfig "scrub") (NewScheduler, [])) as R by apply rt1n_refl.
    eapply reach_step in R; [|apply (st_register _ _ _ (demoConfig 1)); intros _; vm_compute; discriminate].
    eapply reach_step in R; [|apply (st_fire _ _ _ 1 "scrub"); reflexivity].
    eapply reach_step in R; [|apply (st_runNow _ _ _ "scrub"); by eexists].
    do 3 (eapply reach_step in R; [|eapply (st_exec _ _ _ 0 _ _ _ failTwice 0 0); reflexivity]).
    eexists _, _. split; [exact R|]. split; reflexivity. }
  exists s, xs. split; [exact R|]. split; [exact L|].
  split; [apply (serial_task_never_overlaps "scrub" s xs R)|exact T].
Defined.

(** With Concurrency 2 the mark only says that some execution was started, and
    the first to finish removes it: three executions run at once, and while the
    others still run the task counts as idle. *)
Example wide_task_overlaps :
  let s := (sch_RegisterTask (demoConfig 2) NewScheduler).1 in
  let mark s := (execStep failTwice 0 0 s (XMark "scrub" (demoConfig 2))) in
  let '(s1, x1) := mark s in let '(s2, x2) := mark s1 in let '(s3, x3) := mark s2 in
  inside "scrub" [x1; x2; x3] = 3%nat /\
  IsTaskRunning "scrub" (execStep failTwice 0 0 s3 (XUnmark "scrub" None)).1 = false.
Proof. split; reflexivity. Qed.
