(* ===== verification/PluginCalls.v ===== *)
(** * Contexts of plugin invocations (internal/pluginloader/hooks.go, events.go,
      scheduler.go, pipeline.go)

    While the host runs an entry point of a plugin it keeps the call's context
    in a handle table, where the plugin's host imports find it.  A hook's
    context also collects what the plugin wants changed or answered. *)

From S2P Require Import Prelude GoStrings GoFloat SystemScheduler PluginTrust PluginManifest PluginRegistry.
From Stdlib Require Import Ascii String.
From stdpp Require Import base list.

#[local] Open Scope Z_scope.

(** A Go map of strings; [None] is nil. *)
Notation headerMap := (option (gmap string string)).

Record HookContext := mkHC {
  hc_Operation : string; hc_Phase : string; hc_Bucket : string; hc_Key : string;
  hc_Method : string; hc_Headers : headerMap; hc_Body : bytes; hc_OriginalUser : string;
  hc_StatusCode : Z      (** int32 *)
}.

(** A copy drops an empty header map to nil; the copied body is fresh. *)
Definition cloneHookContext (ctx : option HookContext) : option HookContext :=
  match ctx with
  | None => None
  | Some c =>
    Some (mkHC (hc_Operation c) (hc_Phase c) (hc_Bucket c) (hc_Key c) (hc_Method c)
      (match hc_Headers c with
       | Some m => if bool_decide (m = ∅) then None else Some m
       | None => None
       end) (hc_Body c) (hc_OriginalUser c) (hc_StatusCode c))
  end.

(** [hi_shared]: the abort headers are the very map of the modified context. *)
Record hookInvocation := mkHookInv {
  hi_pluginName : string; hi_handler : string; hi_ctx : option HookContext;
  hi_modified : option HookContext; hi_shortCircuit : bool; hi_abortStatus : Z;
  hi_abortHeaders : headerMap; hi_abortBody : bytes; hi_shared : bool
}.
Definition newHookInv (plugin handler : string) (ctx : option HookContext) : hookInvocation :=
  mkHookInv plugin handler ctx None false 0 None [] false.

Record hookModifyPatch := mkPatch {
  hp_Headers : headerMap; hp_BodyB64 : string; hp_StatusCode : Z; hp_ShortCircuit : bool
}.

Definition with_modified (m : option HookContext) (i : hookInvocation) : hookInvocation :=
  mkHookInv (hi_pluginName i) (hi_handler i) (hi_ctx i) m (hi_shortCircuit i) (hi_abortStatus i)
    (hi_abortHeaders i) (hi_abortBody i) (hi_shared i).
Definition with_abort (status : Z) (headers : headerMap) (body : bytes) (shared : bool)
    (i : hookInvocation) : hookInvocation :=
  mkHookInv (hi_pluginName i) (hi_handler i) (hi_ctx i) (hi_modified i) true status headers body shared.
Definition with_abortHeaders (headers : headerMap) (i : hookInvocation) : hookInvocation :=
  mkHookInv (hi_pluginName i) (hi_handler i) (hi_ctx i) (hi_modified i) (hi_shortCircuit i)
    (hi_abortStatus i) headers (hi_abortBody i) (hi_shared i).

Definition set_HCHeaders (h : headerMap) (c : HookContext) : HookContext :=
  mkHC (hc_Operation c) (hc_Phase c) (hc_Bucket c) (hc_Key c) (hc_Method c) h (hc_Body c)
    (hc_OriginalUser c) (hc_StatusCode c).
Definition set_HCBody (b : bytes) (c : HookContext) : HookContext :=
  mkHC (hc_Operation c) (hc_Phase c) (hc_Bucket c) (hc_Key c) (hc_Method c) (hc_Headers c) b
    (hc_OriginalUser c) (hc_StatusCode c).
Definition set_HCStatus (z : Z) (c : HookContext) : HookContext :=
  mkHC (hc_Operation c) (hc_Phase c) (hc_Bucket c) (hc_Key c) (hc_Method c) (hc_Headers c) (hc_Body c)
    (hc_OriginalUser c) z.

(** *** [hook.modify] on the context, under its lock *)

(** The patch's headers are written into the modified context's map, in place
    when it has one (an aliasing abort map sees them), else into a new map. *)
Definition patchHeaders (ph : headerMap) (c : HookContext) (i : hookInvocation)
  : HookContext * hookInvocation :=
  match ph with
  | None => (c, i)
  | Some m =>
    if bool_decide (m = ∅) then (c, i)
    else
      match hc_Headers c with
      | Some old =>
        let new := Some (m ∪ old) in
        (set_HCHeaders new c, if hi_shared i then with_abortHeaders new i else i)
      | None => (set_HCHeaders (Some m) c,
                 if hi_shared i then mkHookInv (hi_pluginName i) (hi_handler i) (hi_ctx i)
                   (hi_modified i) (hi_shortCircuit i) (hi_abortStatus i) (hi_abortHeaders i)
                   (hi_abortBody i) false else i)
      end
  end.

(** [b64] is [base64.StdEncoding.DecodeString].  [Err]: the body does not
    decode; what was patched before stays.  A nil context faults. *)
Definition applyPatch (b64 : string -> res bytes) (patch : hookModifyPatch) (i : hookInvocation)
  : hookInvocation * res unit :=
  let m := match hi_modified i with Some c => Some c | None => cloneHookContext (hi_ctx i) end in
  match m with
  | None =>
    let nil := Panic "nil pointer dereference" in
    if negb (bool_decide (default ∅ (hp_Headers patch) = ∅)) then (i, nil)
    else if bool_decide (hp_BodyB64 patch = ""%string) then
      (i, if negb (hp_StatusCode patch =? 0) || hp_ShortCircuit patch then nil else Ok tt)
    else (i, _ ← b64 (hp_BodyB64 patch); nil)
  | Some c =>
    let '(c, i) := patchHeaders (hp_Headers patch) c i in
    let finish c i :=
      let c := if hp_StatusCode patch =? 0 then c else set_HCStatus (hp_StatusCode patch) c in
      let i := with_modified (Some c) i in
      (if hp_ShortCircuit patch
       then with_abort (hc_StatusCode c) (hc_Headers c) (hc_Body c) true i else i, Ok tt) in
    if bool_decide (hp_BodyB64 patch = ""%string) then finish c i
    else
      match b64 (hp_BodyB64 patch) with
      | Ok body => finish (set_HCBody body c) i
      | Err e => (with_modified (Some c) i, Err e)
      | Panic w => (with_modified (Some c) i, Panic w)
      end
  end.

(** *** The outcome of [InvokeHook] *)

Inductive HookAction := HOOK_ACTION_CONTINUE | HOOK_ACTION_ABORT | HOOK_ACTION_MODIFY.
#[global] Instance HookAction_eq_dec : EqDecision HookAction.
Proof. solve_decision. Defined.

Record InvokeHookResponse := mkHookResp {
  ihr_Action : HookAction; ihr_StatusCode : Z; ihr_Headers : headerMap; ihr_Body : bytes;
  ihr_ModifiedContext : option HookContext
}.

Definition sanitizeHookAbortResponse (resp : InvokeHookResponse) (tier : Z) : InvokeHookResponse :=
  if negb (bool_decide (ihr_Action resp = HOOK_ACTION_ABORT)) || bool_decide (ihr_Body resp = [])
  then resp
  else if tier <? TierCore
  then mkHookResp (ihr_Action resp)
         (if ihr_StatusCode resp =? 0 then 403 else ihr_StatusCode resp) (ihr_Headers resp) []
         (ihr_ModifiedContext resp)
  else resp.

(** From the entry point's status and the context it left to the response.
    Reading [req.Context.Operation] faults on a nil context. *)
Definition hookOutcome (statusCode tier : Z) (reqCtx : option HookContext) (inv : hookInvocation)
  : res InvokeHookResponse :=
  let abort m := mkHookResp HOOK_ACTION_ABORT (hi_abortStatus inv) (hi_abortHeaders inv)
                   (hi_abortBody inv) m in
  resp ← (if statusCode =? 0 then
            Ok (match hi_modified inv with
                | Some m => mkHookResp HOOK_ACTION_MODIFY 0 None [] (Some m)
                | None => mkHookResp HOOK_ACTION_CONTINUE 0 None [] None
                end)
          else if statusCode =? 1 then Ok (abort None)
          else if statusCode =? 2 then
            Ok (mkHookResp HOOK_ACTION_MODIFY 0 None []
                  (match hi_modified inv with Some m => Some m | None => cloneHookContext reqCtx end))
          else Err ("plugin on_hook returned invalid status " +:+ pretty statusCode));
  let resp := if hi_shortCircuit inv then abort (ihr_ModifiedContext resp) else resp in
  match reqCtx with
  | None => Panic "nil pointer dereference"
  | Some _ => Ok (sanitizeHookAbortResponse resp tier)
  end.

(** *** The other contexts *)

Record Event := mkEvent { ev_EventType : string; ev_Bucket : string; ev_Key : string }.

Record eventInvocation := mkEventInv { evi_pluginName : string; evi_payload : bytes }.
Record taskInvocation := mkTaskInv {
  tki_pluginName : string; tki_taskType : string; tki_payload : bytes; tki_startedAt : Time
}.
Record pipelineInvocation := mkPipeInv {
  pli_pluginName : string; pli_stepName : string; pli_key : string; pli_bucket : string;
  pli_contentType : string; pli_userMetadata : headerMap; pli_body : bytes;
  pli_outputBody : bytes; pli_outputContentType : string; pli_outputMetadata : headerMap
}.

(** *** Plugin tasks on the system scheduler *)

Section Tasks.
Context `{Cron} `{GoQuote}.
Context (parseCron : string -> res unit).

(** [SchedulePluginTask]: the scheduler's handler is the schedule's handle. *)
Definition SchedulePluginTask (pluginName schedule : string) (payload : bytes) (handler : string)
    (st : option Scheduler * taskRegistry) : option Scheduler * taskRegistry * res Z :=
  let '(sched, tasks) := st in
  if bool_decide (schedule = ""%string) then (sched, tasks, Err "schedule is required")
  else
    let handler := if bool_decide (handler = ""%string) then "on_task"%string else handler in
    match parseCron schedule with
    | Err e => (sched, tasks, Err e)
    | Panic w => (sched, tasks, Panic w)
    | Ok _ =>
      match sched with
      | None => (sched, tasks, Err "scheduler not configured")
      | Some s =>
        let '(tasks, (handle, taskType)) := tr_add pluginName schedule payload handler tasks in
        match sch_RegisterTask (mkTaskConfig taskType schedule (Some handle) 1 None [] false) s with
        | (s, Ok _) => (Some s, tasks, Ok handle)
        | (s, Err e) => (Some s, (tr_remove handle tasks).1, Err ("failed to register task: " +:+ e))
        | (s, Panic w) => (Some s, tasks, Panic w)
        end
      end
    end.

Definition UnschedulePluginTask (pluginName : string) (handle : Z)
    (st : option Scheduler * taskRegistry) : option Scheduler * taskRegistry * res unit :=
  let '(sched, tasks) := st in
  let missing := Err ("task " +:+ pretty handle +:+ " not found for plugin " +:+ Quote pluginName) in
  match tr_lookup handle tasks with
  | None => (sched, tasks, missing)
  | Some sub =>
    if negb (bool_decide (tsc_pluginName sub = pluginName)) then (sched, tasks, missing)
    else
      match sched with
      | None => (sched, tasks, Err "scheduler not configured")
      | Some s =>
        match sch_UnregisterTask (tsc_taskType sub) s with
        | (s, Ok _) => (Some s, (tr_remove handle tasks).1, Ok tt)
        | (s, Err e) => (Some s, tasks, Err e)
        | (s, Panic w) => (Some s, tasks, Panic w)
        end
      end
  end.

(** [registerTaskSchedulesFromManifest]: failures are only logged. *)
Definition registerTaskSchedulesFromManifest (m : Manifest) (st : option Scheduler * taskRegistry)
  : option Scheduler * taskRegistry :=
  match st.1 with
  | None => st
  | Some _ =>
    fold_left (fun st ts =>
      let handler := if bool_decide (mt_Handler ts = ""%string) then "on_task"%string else mt_Handler ts in
      (SchedulePluginTask (m_Name m) (mt_Schedule ts)
         (map (fun c => Z.of_nat (nat_of_ascii c)) (list_ascii_of_string (mt_Payload ts))) handler st).1)
      (m_TaskSchedules m) st
  end.

Definition unregisterPluginTaskSchedules (pluginName : string) (st : option Scheduler * taskRegistry)
  : option Scheduler * taskRegistry :=
  let '(tasks, types) := tr_clear pluginName st.2 in
  (match st.1 with
   | None => None
   | Some s => Some (fold_left (fun s t => (sch_UnregisterTask t s).1) types s)
   end, tasks).
End Tasks.
