(* ===== verification/PluginHost.v ===== *)
(** * Host imports of plugins (internal/pluginloader/host_imports.go)

    The functions a WASM plugin can call.  Each takes a capability token and
    pointers into the plugin's memory, checks the token against the capability
    table, acts on the loader's state, and writes a status and results into the
    memory.  The memory is wazero's (interface [GuestMemory]; without a memory an import
    returns at once); a host function
    is a computation that can return early ([Done]) or fault ([Fault]), which
    the runtime turns into a trap of the plugin.

    Other goroutines run meanwhile: every look at the clock and the capability
    table sees the time and the table of its own moment ([e_now], [e_caps]), and
    so do calls to services outside.  The four observability imports (logs,
    metrics, spans) are not modelled. *)

From S2P Require Import Prelude GoStrings GoFloat Bolt GoJson SystemScheduler PluginFsm PluginTrust PluginManifest PluginNet PluginRegistry PluginCalls.
From Stdlib Require Import Ascii String.
From stdpp Require Import base list.

#[local] Open Scope Z_scope.

(** api.Memory: [Read] and [Write] fail when the range is outside. *)
Class GuestMemory := {
  gmem : Type;
  mSize : gmem -> Z;
  mByte : gmem -> Z -> byte;
  mRead : gmem -> Z -> Z -> option bytes;
  mWrite : gmem -> Z -> bytes -> option gmem
}.

Class GuestMemoryLaws `{GuestMemory} := {
  mRead_spec m p n : 0 <= p -> 0 <= n ->
    mRead m p n = if p + n <=? mSize m then Some (mByte m <$> seqZ p n) else None;
  mWrite_size m p b m' : mWrite m p b = Some m' -> mSize m' = mSize m;
  mWrite_ok m p b : 0 <= p -> (is_Some (mWrite m p b) <-> p + Z.of_nat (length b) <= mSize m);
  mWrite_in m p b m' i x : mWrite m p b = Some m' -> b !! i = Some x -> mByte m' (p + Z.of_nat i) = x;
  mWrite_out m p b m' a : mWrite m p b = Some m' ->
    a < p \/ p + Z.of_nat (length b) <= a -> mByte m' a = mByte m a
}.

(** Host status codes. *)
Definition statusOK : Z := 0.
Definition statusUnauthorized : Z := 1.
Definition statusNotFound : Z := 2.
Definition statusVersionConflict : Z := 3.
Definition statusBufferTooSmall : Z := 4.
Definition statusInvalidArgs : Z := 5.
Definition statusInternal : Z := 100.

(** [string(b)] and [[]byte(s)]. *)
Notation stringOf := string_of_bytes.
Notation bytesOf := bytes_of_string.

(** Little-endian encodings. *)
Fixpoint leBytes (n : nat) (v : Z) : bytes :=
  match n with O => [] | S n => (v mod 256) :: leBytes n (v / 256) end.

(** *** Values passed as JSON *)

Record stateBatchOp := mkBatchOp {
  sbo_Op : string; sbo_Key : string; sbo_Value : bytes; sbo_ExpectedVersion : Z
}.
Record stateBatchResult := mkBatchResult { sbr_Status : Z; sbr_Version : Z }.

Inductive jsonValue := JString (s : string) | JInt (z : Z) | JMap (m : headerMap).

Record policyRequest := mkPolicyReq {
  pr_Principal : string; pr_Action : string; pr_Resource : string; pr_SourceIP : string;
  pr_Conditions : headerMap
}.
Record policyAnswer := mkPolicyAns {
  pa_Decision : string; pa_MatchedBy : string; pa_PolicyType : string; pa_Details : string
}.
Record dataKeyRequest := mkKeyReq { kr_KeyID : string; kr_Length : Z }.
Record hookRequest := mkHookReq {
  hq_Operation : string; hq_HookType : string; hq_Handler : string; hq_Priority : Z;
  hq_Condition : string; hq_OnFailure : string; hq_Critical : bool
}.

(** encoding/json and encoding/base64 on these types. *)
Class HostJson := {
  unmarshalBatch : bytes -> res (list stateBatchOp);
  marshalResults : list stateBatchResult -> res bytes;
  unmarshalHeaders : bytes -> res headerMap;
  marshalObject : list (string * jsonValue) -> res bytes;   (** a map[string]any *)
  marshalStruct : list (string * string) -> res bytes;      (** the fields not omitted, in order *)
  marshalHits : list (string * Z) -> res bytes;      (** scores as float32 bits *)
  marshalFetch : FetchResult -> res bytes;
  unmarshalEvent : bytes -> res Event;
  unmarshalPatch : bytes -> res hookModifyPatch;
  unmarshalPolicyRequest : bytes -> res policyRequest;
  unmarshalKeyRequest : bytes -> res dataKeyRequest;
  unmarshalHookRequest : bytes -> res hookRequest;
  marshalHookRecord : HookRecord -> res bytes;
  b64Decode : string -> res bytes;
  b64Encode : bytes -> string
}.

(** *** The services behind the imports *)

(** An error of the storage client: whether it wraps [ErrNotFound], its text. *)
Record storageErr := mkStorageErr { se_wrapsNotFound : bool; se_text : string }.
Definition isNotFoundErr (e : option storageErr) : bool :=
  match e with
  | None => false
  | Some e =>
    se_wrapsNotFound e || Contains (se_text e) "not found" || Contains (se_text e) "NoSuchKey"
    || Contains (se_text e) "does not exist"
  end.

(** What the imports ask of the outside, in order. *)
Inductive extCall :=
| CallGetObject (bucket key user : string)
| CallPutObject (bucket key : string) (body : bytes) (user : string)
| CallVectorSearch (bucket : string) (query : list Z) (topK : Z)
| CallVectorInsert (id bucket key : string) (values : list Z) (plugin : string)
| CallFetch (method url : string) (headers : list (string * string)) (body : bytes) (timeout : Duration)
| CallPublish (ev : Event)
| CallPolicy (req : policyRequest)
| CallDataKey (keyID : string) (length : Z)
| CallSign (payload : bytes).

Record VectorOps := mkVector {
  vec_Search : nat -> string -> list Z -> Z -> res (list (string * Z));
  vec_Insert : option (nat -> string -> string -> string -> list Z -> string -> res unit)
}.
Record StorageClient := mkStorage {
  sc_GetObject : nat -> string -> string -> string -> bytes + storageErr;
  sc_PutObject : nat -> string -> string -> bytes -> string -> res string
}.

(** The imports as one call meets them: time, capability table, Raft and
    answers by moment; the plugins' grants, the calling module's token and
    egress validator, and the services that are wired in. *)
Record hostEnv := mkEnv {
  e_now : nat -> Time;
  e_caps : nat -> CapabilityTable;
  e_raft : nat -> raftNode;
  e_read : nat -> readPath;
  e_grants : string -> option (list ManifestGrant);
  e_moduleToken : Z;
  e_validator : option NetworkEgressValidator;
  e_storage : option StorageClient;
  e_vector : option VectorOps;
  e_newRequest : nat -> string -> string -> list (string * string) -> bytes -> res unit;
  e_do : nat -> Duration -> string -> string -> list (string * string) -> bytes ->
         res (Z * list (string * string) * res bytes);
  e_bus : bool;
  e_policy : option (nat -> policyRequest -> policyAnswer);
  e_dataKey : option (nat -> string -> Z -> res (bytes * bytes));
  e_signer : option (nat -> bytes -> res bytes);
  e_hookRegistrar : bool;
  e_sse : handleTable sseSession;
  e_parseCron : string -> res unit
}.

Section Host.
Context `{BoltNested} `{GoQuote} `{GuestMemory} `{HostJson} `{UrlLib} `{Cron}.

(** The state an import works on: the caller's memory and what the loader
    shares between plugins; [h_moment] counts the looks outside. *)
Record host := mkHost {
  h_moment : nat;
  h_mem : gmem;
  h_db : option LoaderDB;
  h_requests : handleTable pluginRequest;
  h_hookCtx : handleTable hookInvocation;
  h_eventCtx : handleTable eventInvocation;
  h_taskCtx : handleTable taskInvocation;
  h_pipeCtx : handleTable pipelineInvocation;
  h_events : eventRegistry;
  h_sched : option Scheduler * taskRegistry;
  h_hooks : hookRegistry;
  h_fetcher : option HTTPFetcher;
  h_calls : list extCall
}.

Definition set_moment n h := mkHost n (h_mem h) (h_db h) (h_requests h) (h_hookCtx h) (h_eventCtx h)
  (h_taskCtx h) (h_pipeCtx h) (h_events h) (h_sched h) (h_hooks h) (h_fetcher h) (h_calls h).
Definition set_mem m h := mkHost (h_moment h) m (h_db h) (h_requests h) (h_hookCtx h) (h_eventCtx h)
  (h_taskCtx h) (h_pipeCtx h) (h_events h) (h_sched h) (h_hooks h) (h_fetcher h) (h_calls h).
Definition set_db d h := mkHost (h_moment h) (h_mem h) d (h_requests h) (h_hookCtx h) (h_eventCtx h)
  (h_taskCtx h) (h_pipeCtx h) (h_events h) (h_sched h) (h_hooks h) (h_fetcher h) (h_calls h).
Definition set_requests r h := mkHost (h_moment h) (h_mem h) (h_db h) r (h_hookCtx h) (h_eventCtx h)
  (h_taskCtx h) (h_pipeCtx h) (h_events h) (h_sched h) (h_hooks h) (h_fetcher h) (h_calls h).
Definition set_hookCtx c h := mkHost (h_moment h) (h_mem h) (h_db h) (h_requests h) c (h_eventCtx h)
  (h_taskCtx h) (h_pipeCtx h) (h_events h) (h_sched h) (h_hooks h) (h_fetcher h) (h_calls h).
Definition set_pipeCtx c h := mkHost (h_moment h) (h_mem h) (h_db h) (h_requests h) (h_hookCtx h)
  (h_eventCtx h) (h_taskCtx h) c (h_events h) (h_sched h) (h_hooks h) (h_fetcher h) (h_calls h).
Definition set_events e h := mkHost (h_moment h) (h_mem h) (h_db h) (h_requests h) (h_hookCtx h)
  (h_eventCtx h) (h_taskCtx h) (h_pipeCtx h) e (h_sched h) (h_hooks h) (h_fetcher h) (h_calls h).
Definition set_sched s h := mkHost (h_moment h) (h_mem h) (h_db h) (h_requests h) (h_hookCtx h)
  (h_eventCtx h) (h_taskCtx h) (h_pipeCtx h) (h_events h) s (h_hooks h) (h_fetcher h) (h_calls h).
Definition set_hooks k h := mkHost (h_moment h) (h_mem h) (h_db h) (h_requests h) (h_hookCtx h)
  (h_eventCtx h) (h_taskCtx h) (h_pipeCtx h) (h_events h) (h_sched h) k (h_fetcher h) (h_calls h).
Definition set_fetcher f h := mkHost (h_moment h) (h_mem h) (h_db h) (h_requests h) (h_hookCtx h)
  (h_eventCtx h) (h_taskCtx h) (h_pipeCtx h) (h_events h) (h_sched h) (h_hooks h) f (h_calls h).
Definition add_call c h := mkHost (h_moment h) (h_mem h) (h_db h) (h_requests h) (h_hookCtx h)
  (h_eventCtx h) (h_taskCtx h) (h_pipeCtx h) (h_events h) (h_sched h) (h_hooks h) (h_fetcher h)
  (h_calls h ++ [c]).

(** *** Computations with early return *)

Inductive ctl (A : Type) := Next (a : A) | Done | Fault (w : string).
Arguments Next {A}.
Arguments Done {A}.
Arguments Fault {A}.
Definition hostM (A : Type) : Type := host -> host * ctl A.

Definition ret {A} (a : A) : hostM A := fun h => (h, Next a).
Definition bindM {A B} (m : hostM A) (k : A -> hostM B) : hostM B := fun h =>
  match m h with
  | (h, Next a) => k a h
  | (h, Done) => (h, Done)
  | (h, Fault w) => (h, Fault w)
  end.
Definition finish {A} : hostM A := fun h => (h, Done).
Definition fault {A} (w : string) : hostM A := fun h => (h, Fault w).
Definition gets {A} (f : host -> A) : hostM A := fun h => (h, Next (f h)).
Definition modify (f : host -> host) : hostM unit := fun h => (f h, Next tt).
(** The current moment, which then passes. *)
Definition moment : hostM nat := fun h => (set_moment (S (h_moment h)) h, Next (h_moment h)).

Notation "x ⇐ m ; k" := (bindM m (fun x => k))
  (at level 100, m at next level, right associativity).
Notation "m ;; k" := (bindM m (fun _ : unit => k))
  (at level 100, k at level 200, right associativity).

(** *** Memory helpers *)

Definition readBytes (ptr len : Z) : hostM (option bytes) :=
  if len =? 0 then ret (Some []) else gets (fun h => mRead (h_mem h) ptr len).
Definition readString (ptr len : Z) : hostM (option string) :=
  b ⇐ readBytes ptr len; ret (stringOf <$> b).
(** [mem.Write]; false leaves the memory as it was. *)
Definition memWrite (ptr : Z) (b : bytes) : hostM bool := fun h =>
  match mWrite (h_mem h) ptr b with
  | Some m => (set_mem m h, Next true)
  | None => (h, Next false)
  end.
Definition writeUint32 (ptr v : Z) : hostM bool := memWrite ptr (leBytes 4 v).
Definition writeUint64 (ptr v : Z) : hostM bool := memWrite ptr (leBytes 8 v).
Definition writeStatus (ptr status : Z) : hostM unit := _ ⇐ writeUint32 ptr status; ret tt.
(** Write a status and return. *)
Definition reply {A} (ptr status : Z) : hostM A := writeStatus ptr status ;; finish.

Definition len32 (b : bytes) : Z := wrapU32 (Z.of_nat (length b)).

(** The common tail: the data if it fits, its length in any case. *)
Definition writeBytesResponse (outPtr outCap outStatus outLen : Z) (data : bytes) : hostM unit :=
  if outCap <? len32 data then
    writeStatus outStatus statusBufferTooSmall ;;
    _ ⇐ writeUint32 outLen (len32 data); finish
  else
    ok ⇐ memWrite outPtr data;
    if ok then writeStatus outStatus statusOK ;; _ ⇐ writeUint32 outLen (len32 data); finish
    else reply outStatus statusInternal.

(** *** Capabilities *)

Context (env : hostEnv).

Definition capsAuthorize (token : Z) (cap : string) : hostM (unit + ErrUnauthorized) :=
  n ⇐ moment; ret (Authorize (e_now env n) token cap (e_caps env n)).
Definition capsLookup (token : Z) : hostM (option Capability) :=
  n ⇐ moment; ret (cap_Lookup (e_now env n) token (e_caps env n)).

(** [if err := h.caps.Authorize(...)] with a status and return on error. *)
Definition authorize (token : Z) (cap : string) (outStatus : Z) : hostM unit :=
  r ⇐ capsAuthorize token cap;
  match r with inl _ => ret tt | inr _ => reply outStatus statusUnauthorized end.
Definition holderOf (token outStatus : Z) : hostM Capability :=
  c ⇐ capsLookup token;
  match c with Some c => ret c | None => reply outStatus statusUnauthorized end.
Definition pluginNameForToken (token : Z) : hostM string :=
  c ⇐ capsLookup token; ret (match c with Some c => cap_PluginName c | None => ""%string end).

(** An argument that must be readable. *)
Definition argBytes (ptr len outStatus : Z) : hostM bytes :=
  b ⇐ readBytes ptr len;
  match b with Some b => ret b | None => reply outStatus statusInvalidArgs end.
Definition argString (ptr len outStatus : Z) : hostM string :=
  s ⇐ readString ptr len;
  match s with Some s => ret s | None => reply outStatus statusInvalidArgs end.
Definition require (b : bool) (outStatus status : Z) : hostM unit :=
  if b then ret tt else reply outStatus status.
(** A result that must not be an error. *)
Definition orStatus {A} (r : res A) (outStatus status : Z) : hostM A :=
  match r with Ok a => ret a | Err _ => reply outStatus status | Panic w => fault w end.
Definition nonEmpty (s : string) : bool := negb (bool_decide (s = ""%string)).

(** *** State *)

(** The prefix before the first colon, when it is a plugin's name. *)
Definition resolveCrossPluginStateKey (callerPlugin key : string) : string * string * bool :=
  match cut ":" key with
  | (prefix, Some rest) =>
    if bool_decide (prefix = ""%string) then (callerPlugin, key, false)
    else if negb (pluginNameMatch prefix) then (callerPlugin, key, false)
    else if bool_decide (prefix = callerPlugin) then (callerPlugin, rest, false)
    else (prefix, rest, true)
  | (_, None) => (callerPlugin, key, false)
  end.

(** [.*] of the regular expression: any run of characters but newline. *)
Fixpoint globRest (k : string -> bool) (s : string) : bool :=
  k s || match s with
         | EmptyString => false
         | String c s => negb (bool_decide (c = "010"%char)) && globRest k s
         end.
Fixpoint starMatch (p s : string) : bool :=
  match p with
  | EmptyString => bool_decide (s = ""%string)
  | String "*" p => globRest (starMatch p) s
  | String c p => match s with String d s => bool_decide (c = d) && starMatch p s | EmptyString => false end
  end.
(** The pattern is compiled as a regular expression over UTF-8: a pattern that
    is not valid UTF-8 does not compile, and in the subject every invalid byte
    counts as U+FFFD. *)
Definition matchGlob (pattern s : string) : bool :=
  if negb (Contains pattern "*") then bool_decide (pattern = s)
  else bool_decide (jsonString pattern = pattern) && starMatch pattern (jsonString s).

Definition isCrossPluginStateAllowed (readerPlugin targetPlugin key : string) : bool :=
  match e_grants env targetPlugin with
  | None => false
  | Some grants =>
    existsb (fun g => bool_decide (mg_Plugin g = readerPlugin) &&
                      existsb (fun pattern => matchGlob pattern key) (mg_Keys g)) grants
  end.

Definition stateGet (token keyPtr keyLen valPtr valCap outStatus outLen outVersion : Z) : hostM unit :=
  authorize token "state:kv" outStatus ;;
  key ⇐ argBytes keyPtr keyLen outStatus;
  c ⇐ holderOf token outStatus;
  let '(targetPlugin, actualKey, crossPlugin) := resolveCrossPluginStateKey (cap_PluginName c) (stringOf key) in
  (if crossPlugin : bool then
     authorize token ("state:cross_plugin:" +:+ targetPlugin) outStatus ;;
     require (isCrossPluginStateAllowed (cap_PluginName c) targetPlugin actualKey) outStatus statusUnauthorized
   else ret tt) ;;
  n ⇐ moment;
  db ⇐ gets h_db;
  entry ⇐ orStatus (StateGetWithContext (e_read env n) targetPlugin actualKey db) outStatus statusInternal;
  match entry with
  | None => reply outStatus statusNotFound
  | Some entry =>
    if valCap <? len32 (se_Value entry) then
      writeStatus outStatus statusBufferTooSmall ;;
      _ ⇐ writeUint32 outLen (len32 (se_Value entry)); finish
    else
      ok ⇐ memWrite valPtr (se_Value entry);
      require ok outStatus statusInternal ;;
      writeStatus outStatus statusOK ;;
      _ ⇐ writeUint32 outLen (len32 (se_Value entry));
      _ ⇐ writeUint64 outVersion (se_Version entry);
      finish
  end.

(** The loader's state calls on the database of the moment. *)
Definition loaderStatePut (plugin key : string) (value : bytes) (expectedVersion : Z)
  : hostM (Z + loaderErr) :=
  n ⇐ moment;
  fun h => let '(db, r) := StatePut (e_raft env n) plugin key value expectedVersion (h_db h) in
           (set_db db h, Next r).
Definition loaderStateDelete (plugin key : string) : hostM (unit + loaderErr) :=
  n ⇐ moment;
  fun h => let '(db, r) := StateDelete (e_raft env n) plugin key (h_db h) in (set_db db h, Next r).

Definition statePut (token keyPtr keyLen valPtr valLen expectedVersion outStatus outVersion : Z)
  : hostM unit :=
  authorize token "state:kv" outStatus ;;
  key ⇐ argBytes keyPtr keyLen outStatus;
  value ⇐ argBytes valPtr valLen outStatus;
  c ⇐ holderOf token outStatus;
  r ⇐ loaderStatePut (cap_PluginName c) (stringOf key) value expectedVersion;
  match r with
  | inr e => reply outStatus (if IsErrVersionMismatch e then statusVersionConflict else statusInternal)
  | inl newVer => writeStatus outStatus statusOK ;; _ ⇐ writeUint64 outVersion newVer; finish
  end.

Definition stateCas (token keyPtr keyLen valPtr valLen expectedVersion outStatus outVersion : Z)
  : hostM unit :=
  if expectedVersion =? 0 then reply outStatus statusInvalidArgs
  else statePut token keyPtr keyLen valPtr valLen expectedVersion outStatus outVersion.

Definition stateDelete (token keyPtr keyLen outStatus : Z) : hostM unit :=
  authorize token "state:kv" outStatus ;;
  key ⇐ argBytes keyPtr keyLen outStatus;
  c ⇐ holderOf token outStatus;
  r ⇐ loaderStateDelete (cap_PluginName c) (stringOf key);
  match r with
  | inr _ => reply outStatus statusInternal
  | inl _ => reply outStatus statusOK
  end.

Definition batchOne (plugin : string) (op : stateBatchOp) : hostM stateBatchResult :=
  if bool_decide (sbo_Op op = "put"%string) then
    r ⇐ loaderStatePut plugin (sbo_Key op) (sbo_Value op) (sbo_ExpectedVersion op);
    ret (match r with
         | inl ver => mkBatchResult statusOK ver
         | inr e => mkBatchResult (if IsErrVersionMismatch e then statusVersionConflict else statusInternal) 0
         end)
  else if bool_decide (sbo_Op op = "delete"%string) then
    r ⇐ loaderStateDelete plugin (sbo_Key op);
    ret (mkBatchResult (match r with inl _ => statusOK | inr _ => statusInternal end) 0)
  else ret (mkBatchResult statusInvalidArgs 0).
Fixpoint batchAll (plugin : string) (ops : list stateBatchOp) : hostM (list stateBatchResult) :=
  match ops with
  | [] => ret []
  | op :: ops => r ⇐ batchOne plugin op; rs ⇐ batchAll plugin ops; ret (r :: rs)
  end.

Definition stateBatch (token opsPtr opsLen outStatus outPtr outCap outLen : Z) : hostM unit :=
  authorize token "state:kv" outStatus ;;
  c ⇐ holderOf token outStatus;
  opsJSON ⇐ argBytes opsPtr opsLen outStatus;
  ops ⇐ orStatus (unmarshalBatch opsJSON) outStatus statusInvalidArgs;
  results ⇐ batchAll (cap_PluginName c) ops;
  out ⇐ orStatus (marshalResults results) outStatus statusInternal;
  writeBytesResponse outPtr outCap outStatus outLen out.

(** *** Storage *)

(** [storage:<verb>:<bucket>/*]. *)
Definition bucketCap (base bucket : string) : string := base +:+ ":" +:+ bucket +:+ "/*".

Definition storageGet (token bucketPtr bucketLen keyPtr keyLen outStatus outPtr outCap outLen : Z)
  : hostM unit :=
  authorize token "storage:get" outStatus ;;
  bucket ⇐ argString bucketPtr bucketLen outStatus;
  key ⇐ argString keyPtr keyLen outStatus;
  require (nonEmpty bucket && nonEmpty key) outStatus statusInvalidArgs ;;
  authorize token (bucketCap "storage:get" bucket) outStatus ;;
  pluginName ⇐ pluginNameForToken token;
  match e_storage env with
  | None => reply outStatus statusUnauthorized
  | Some st =>
    n ⇐ moment;
    modify (add_call (CallGetObject bucket key pluginName)) ;;
    match sc_GetObject st n bucket key pluginName with
    | inr e => reply outStatus (if isNotFoundErr (Some e) then statusNotFound else statusInternal)
    | inl data => writeBytesResponse outPtr outCap outStatus outLen data
    end
  end.

Definition storagePut (token bucketPtr bucketLen keyPtr keyLen bodyPtr bodyLen outStatus outEtagPtr
    outEtagCap outEtagLen : Z) : hostM unit :=
  authorize token "storage:put" outStatus ;;
  bucket ⇐ argString bucketPtr bucketLen outStatus;
  key ⇐ argString keyPtr keyLen outStatus;
  require (nonEmpty bucket && nonEmpty key) outStatus statusInvalidArgs ;;
  authorize token (bucketCap "storage:put" bucket) outStatus ;;
  body ⇐ argBytes bodyPtr bodyLen outStatus;
  pluginName ⇐ pluginNameForToken token;
  match e_storage env with
  | None => reply outStatus statusUnauthorized
  | Some st =>
    n ⇐ moment;
    modify (add_call (CallPutObject bucket key body pluginName)) ;;
    etag ⇐ orStatus (sc_PutObject st n bucket key body pluginName) outStatus statusInternal;
    let etagBytes := bytesOf etag in
    (if outEtagCap <? len32 etagBytes then _ ⇐ writeUint32 outEtagLen 0; ret tt
     else if negb (outEtagPtr =? 0) && negb (bool_decide (etagBytes = [])) then
       ok ⇐ memWrite outEtagPtr etagBytes;
       require ok outStatus statusInternal ;;
       _ ⇐ writeUint32 outEtagLen (len32 etagBytes); ret tt
     else _ ⇐ writeUint32 outEtagLen 0; ret tt) ;;
    reply outStatus statusOK
  end.

Definition storageList (outStatus : Z) : hostM unit := reply outStatus statusUnauthorized.
Definition storageDelete (outStatus : Z) : hostM unit := reply outStatus statusUnauthorized.

(** *** Vectors *)

(** [binary.LittleEndian.Uint32(b[i*4:])] for each i below [n]; the offset is a
    uint32, and a slice shorter than four bytes faults. *)
Definition float32At (b : bytes) (i : Z) : option Z :=
  let off := wrapU32 (i * 4) in
  if off + 4 <=? Z.of_nat (length b) then Some (le64 (take 4 (drop (Z.to_nat off) b))) else None.
Definition decodeFloats (n : Z) (b : bytes) : option (list Z) := mapM (float32At b) (seqZ 0 n).
Definition vectorArg (n : Z) (b : bytes) : hostM (list Z) :=
  match decodeFloats n b with Some v => ret v | None => fault "index out of range" end.

Definition vectorSearch (token bucketPtr bucketLen queryPtr queryLenFloats topK outStatus outPtr
    outCap outLen : Z) : hostM unit :=
  authorize token "vector:search" outStatus ;;
  bucket ⇐ argString bucketPtr bucketLen outStatus;
  require (nonEmpty bucket) outStatus statusInvalidArgs ;;
  authorize token (bucketCap "vector:search" bucket) outStatus ;;
  match e_vector env with
  | None => reply outStatus statusInternal
  | Some vec =>
    queryBytes ⇐ argBytes queryPtr (wrapU32 (queryLenFloats * 4)) outStatus;
    query ⇐ vectorArg queryLenFloats queryBytes;
    n ⇐ moment;
    modify (add_call (CallVectorSearch bucket query topK)) ;;
    results ⇐ orStatus (vec_Search vec n bucket query topK) outStatus statusInternal;
    out ⇐ orStatus (marshalHits results) outStatus statusInternal;
    writeBytesResponse outPtr outCap outStatus outLen out
  end.

Definition vectorIndex (token bucketPtr bucketLen keyPtr keyLen vecPtr vecLenFloats outStatus : Z)
  : hostM unit :=
  authorize token "vector:index" outStatus ;;
  bucket ⇐ argString bucketPtr bucketLen outStatus;
  require (nonEmpty bucket) outStatus statusInvalidArgs ;;
  key ⇐ argString keyPtr keyLen outStatus;
  require (nonEmpty key) outStatus statusInvalidArgs ;;
  authorize token (bucketCap "vector:index" bucket) outStatus ;;
  match vec ← e_vector env; vec_Insert vec with
  | None => reply outStatus statusInternal
  | Some insert =>
    vecBytes ⇐ argBytes vecPtr (wrapU32 (vecLenFloats * 4)) outStatus;
    require (negb (vecLenFloats =? 0)) outStatus statusInvalidArgs ;;
    values ⇐ vectorArg vecLenFloats vecBytes;
    plugin ⇐ pluginNameForToken token;
    n ⇐ moment;
    let id := bucket +:+ "/" +:+ key in
    modify (add_call (CallVectorInsert id bucket key values plugin)) ;;
    _ ⇐ orStatus (insert n id bucket key values plugin) outStatus statusInternal;
    reply outStatus statusOK
  end.

(** *** Network *)

Definition httpFetch (token methodPtr methodLen urlPtr urlLen headersPtr headersLen bodyPtr bodyLen
    timeoutMs outStatus outPtr outCap outLen : Z) : hostM unit :=
  authorize token "net:egress" outStatus ;;
  _ ⇐ holderOf token outStatus;
  method ⇐ argString methodPtr methodLen outStatus;
  rawURL ⇐ argString urlPtr urlLen outStatus;
  require (nonEmpty rawURL) outStatus statusInvalidArgs ;;
  headersJSON ⇐ argString headersPtr headersLen outStatus;
  body ⇐ argBytes bodyPtr bodyLen outStatus;
  match e_validator env with
  | None => reply outStatus statusUnauthorized
  | Some validator =>
    require (is_ok (Allow rawURL validator)) outStatus statusUnauthorized ;;
    f ⇐ gets h_fetcher;
    match f with
    | None => reply outStatus statusInternal
    | Some f =>
      headers ⇐ (if nonEmpty headersJSON
                 then orStatus (unmarshalHeaders (bytesOf headersJSON)) outStatus statusInvalidArgs
                 else ret None);
      let headers := map_to_list (default ∅ headers) in
      let timeout := if 0 <? timeoutMs then timeoutMs * Millisecond else 0 in
      n ⇐ moment;
      modify (add_call (CallFetch method rawURL headers body timeout)) ;;
      let '(f, result) := Fetch (e_newRequest env n) (e_do env n) method rawURL headers body timeout f in
      modify (set_fetcher (Some f)) ;;
      result ⇐ orStatus result outStatus statusInternal;
      out ⇐ orStatus (marshalFetch result) outStatus statusInternal;
      writeBytesResponse outPtr outCap outStatus outLen out
    end
  end.

(** *** Requests and server-sent events *)

Definition routeResponseWrite (token reqHandle statusCode headersPtr headersLen bodyPtr bodyLen
    outStatus : Z) : hostM unit :=
  authorize token "http:route" outStatus ;;
  body ⇐ argBytes bodyPtr bodyLen outStatus;
  headersJSON ⇐ argString headersPtr headersLen outStatus;
  headers ⇐ (if nonEmpty headersJSON
             then orStatus (unmarshalHeaders (bytesOf headersJSON)) outStatus statusInvalidArgs
             else ret None);
  requests ⇐ gets h_requests;
  let '(requests, r) := WriteResponse reqHandle statusCode (map_to_list (default ∅ headers)) body requests in
  modify (set_requests requests) ;;
  _ ⇐ orStatus r outStatus statusInternal;
  _ ⇐ capsLookup token;
  reply outStatus statusOK.

Definition routeEventPublish (token sessionID outStatus : Z) : hostM unit :=
  authorize token "event:publish" outStatus ;;
  c ⇐ holderOf token outStatus;
  let owner := sse_Owner sessionID (e_sse env) in
  require (nonEmpty owner) outStatus statusNotFound ;;
  require (bool_decide (owner = cap_PluginName c)) outStatus statusUnauthorized ;;
  reply outStatus statusOK.

Definition requestRead (reqHandle outPtr outCap outLen outStatus : Z) : hostM unit :=
  requests ⇐ gets h_requests;
  match GetRequest reqHandle requests with
  | None => reply outStatus statusInvalidArgs
  | Some req =>
    out ⇐ orStatus (marshalObject
      [("method", JString (rq_method req)); ("path", JString (rq_path req));
       ("headers", JMap (Some (list_to_map (rq_headers req))));
       ("body_len", JInt (Z.of_nat (length (rq_body req))));
       ("original_user", JString (rq_originalUser req))]%string) outStatus statusInternal;
    writeBytesResponse outPtr outCap outStatus outLen out
  end.

Definition requestBody (reqHandle outPtr outCap outLen outStatus : Z) : hostM unit :=
  requests ⇐ gets h_requests;
  match GetRequest reqHandle requests with
  | None => reply outStatus statusInvalidArgs
  | Some req => writeBytesResponse outPtr outCap outStatus outLen (rq_body req)
  end.

(** *** Events *)

Definition eventSubscribe (token eventTypePtr eventTypeLen outHandle outStatus : Z) : hostM unit :=
  authorize token "event:subscribe" outStatus ;;
  c ⇐ holderOf token outStatus;
  eventType ⇐ argString eventTypePtr eventTypeLen outStatus;
  require (nonEmpty eventType) outStatus statusInvalidArgs ;;
  evs ⇐ gets h_events;
  let '(evs, r) := SubscribePluginEvent (cap_PluginName c) eventType "on_event" evs in
  modify (set_events evs) ;;
  handle ⇐ orStatus r outStatus statusInternal;
  _ ⇐ writeUint64 outHandle handle;
  reply outStatus statusOK.

Definition eventUnsubscribe (token handle outStatus : Z) : hostM unit :=
  authorize token "event:subscribe" outStatus ;;
  c ⇐ holderOf token outStatus;
  evs ⇐ gets h_events;
  let '(evs, r) := UnsubscribePluginEvent (cap_PluginName c) handle evs in
  modify (set_events evs) ;;
  _ ⇐ orStatus r outStatus statusNotFound;
  reply outStatus statusOK.

Definition eventRead (token eventHandle outPtr outCap outLen outStatus : Z) : hostM unit :=
  authorize token "event:subscribe" outStatus ;;
  _ ⇐ holderOf token outStatus;
  ctxs ⇐ gets h_eventCtx;
  match getContext eventHandle ctxs with
  | None => reply outStatus statusNotFound
  | Some inv => writeBytesResponse outPtr outCap outStatus outLen (evi_payload inv)
  end.

Definition eventPublish (token eventPtr eventLen outStatus : Z) : hostM unit :=
  authorize token "event:publish" outStatus ;;
  _ ⇐ holderOf token outStatus;
  eventJSON ⇐ argBytes eventPtr eventLen outStatus;
  ev ⇐ orStatus (unmarshalEvent eventJSON) outStatus statusInvalidArgs;
  require (nonEmpty (ev_EventType ev)) outStatus statusInvalidArgs ;;
  require (e_bus env) outStatus statusInternal ;;
  modify (add_call (CallPublish ev)) ;;
  reply outStatus statusOK.

(** *** Tasks *)

Definition host_taskSchedule (token cronPtr cronLen payloadPtr payloadLen outHandle outStatus : Z)
  : hostM unit :=
  authorize token "task:schedule" outStatus ;;
  c ⇐ holderOf token outStatus;
  cronExpr ⇐ argString cronPtr cronLen outStatus;
  require (nonEmpty cronExpr) outStatus statusInvalidArgs ;;
  payload ⇐ readBytes payloadPtr payloadLen;
  sched ⇐ gets h_sched;
  let '(sched, r) := SchedulePluginTask (e_parseCron env) (cap_PluginName c) cronExpr (default [] payload)
                       "on_task" sched in
  modify (set_sched sched) ;;
  handle ⇐ orStatus r outStatus statusInternal;
  _ ⇐ writeUint64 outHandle handle;
  reply outStatus statusOK.

Definition taskUnschedule (token handle outStatus : Z) : hostM unit :=
  authorize token "task:schedule" outStatus ;;
  c ⇐ holderOf token outStatus;
  sched ⇐ gets h_sched;
  let '(sched, r) := UnschedulePluginTask (cap_PluginName c) handle sched in
  modify (set_sched sched) ;;
  _ ⇐ orStatus r outStatus statusNotFound;
  reply outStatus statusOK.

Definition taskRead (token taskHandle outPtr outCap outLen outStatus : Z) : hostM unit :=
  authorize token "task:schedule" outStatus ;;
  _ ⇐ holderOf token outStatus;
  ctxs ⇐ gets h_taskCtx;
  match getContext taskHandle ctxs with
  | None => reply outStatus statusNotFound
  | Some inv => writeBytesResponse outPtr outCap outStatus outLen (tki_payload inv)
  end.

(** *** Pipeline steps *)

(** The step's context, for its own plugin only. *)
Definition pipelineFor (token stepHandle outStatus : Z) : hostM pipelineInvocation :=
  authorize token "pipeline:step" outStatus ;;
  c ⇐ holderOf token outStatus;
  ctxs ⇐ gets h_pipeCtx;
  match getContext stepHandle ctxs with
  | None => reply outStatus statusNotFound
  | Some inv =>
    require (bool_decide (cap_PluginName c = pli_pluginName inv)) outStatus statusUnauthorized ;;
    ret inv
  end.

Definition pipelineRead (token stepHandle outPtr outCap outLen outStatus : Z) : hostM unit :=
  inv ⇐ pipelineFor token stepHandle outStatus;
  out ⇐ orStatus (marshalObject
    [("key", JString (pli_key inv)); ("bucket", JString (pli_bucket inv));
     ("content_type", JString (pli_contentType inv)); ("user_metadata", JMap (pli_userMetadata inv));
     ("body_len", JInt (Z.of_nat (length (pli_body inv))))]%string) outStatus statusInternal;
  writeBytesResponse outPtr outCap outStatus outLen out.

Definition pipelineBody (token stepHandle outPtr outCap outLen outStatus : Z) : hostM unit :=
  inv ⇐ pipelineFor token stepHandle outStatus;
  writeBytesResponse outPtr outCap outStatus outLen (pli_body inv).

Definition setContext {A} (handle : Z) (x : A) (t : handleTable A) : handleTable A :=
  mkTable (ht_next t) (<[handle := x]> (ht_map t)).

Definition pipelineOutputWrite (token stepHandle bodyPtr bodyLen contentTypePtr contentTypeLen
    metadataPtr metadataLen outStatus : Z) : hostM unit :=
  inv ⇐ pipelineFor token stepHandle outStatus;
  body ⇐ argBytes bodyPtr bodyLen outStatus;
  contentType ⇐ readString contentTypePtr contentTypeLen;
  metadataJSON ⇐ argBytes metadataPtr metadataLen outStatus;
  metadata ⇐ (if bool_decide (metadataJSON = []) then ret None
              else orStatus (unmarshalHeaders metadataJSON) outStatus statusInvalidArgs);
  modify (fun h => set_pipeCtx (setContext stepHandle
    (mkPipeInv (pli_pluginName inv) (pli_stepName inv) (pli_key inv) (pli_bucket inv)
       (pli_contentType inv) (pli_userMetadata inv) (pli_body inv) body
       (default ""%string contentType) metadata) (h_pipeCtx h)) h) ;;
  reply outStatus statusOK.

(** *** Hooks *)

(** The hook's context: the token is the module's own. *)
Definition hookFor (handle outStatus : Z) : hostM hookInvocation :=
  authorize (e_moduleToken env) "gateway:hook" outStatus ;;
  ctxs ⇐ gets h_hookCtx;
  match getContext handle ctxs with
  | None => reply outStatus statusInvalidArgs
  | Some inv => ret inv
  end.
(** [inv.ctx], whose fields fault when it is nil. *)
Definition ctxOf (inv : hookInvocation) : hostM HookContext :=
  match hi_ctx inv with Some c => ret c | None => fault "nil pointer dereference" end.

Definition hookRead (handle outPtr outCap outLen outStatus : Z) : hostM unit :=
  inv ⇐ hookFor handle outStatus;
  c ⇐ ctxOf inv;
  out ⇐ orStatus (marshalObject
    [("operation", JString (hc_Operation c)); ("phase", JString (hc_Phase c));
     ("bucket", JString (hc_Bucket c)); ("key", JString (hc_Key c)); ("method", JString (hc_Method c));
     ("headers", JMap (hc_Headers c)); ("body_len", JInt (Z.of_nat (length (hc_Body c))));
     ("original_user", JString (hc_OriginalUser c)); ("status_code", JInt (hc_StatusCode c))]%string)
    outStatus statusInternal;
  writeBytesResponse outPtr outCap outStatus outLen out.

Definition hookBody (handle outPtr outCap outLen outStatus : Z) : hostM unit :=
  inv ⇐ hookFor handle outStatus;
  c ⇐ ctxOf inv;
  writeBytesResponse outPtr outCap outStatus outLen (hc_Body c).

Definition putHookCtx (handle : Z) (inv : hookInvocation) : hostM unit :=
  modify (fun h => set_hookCtx (setContext handle inv (h_hookCtx h)) h).

Definition hookModify (handle patchPtr patchLen outStatus : Z) : hostM unit :=
  inv ⇐ hookFor handle outStatus;
  patchJSON ⇐ argBytes patchPtr patchLen outStatus;
  patch ⇐ orStatus (unmarshalPatch patchJSON) outStatus statusInvalidArgs;
  let '(inv, r) := applyPatch b64Decode patch inv in
  putHookCtx handle inv ;;
  _ ⇐ orStatus r outStatus statusInvalidArgs;
  reply outStatus statusOK.

Definition hookShortCircuit (handle statusCode headersPtr headersLen bodyPtr bodyLen outStatus : Z)
  : hostM unit :=
  inv ⇐ hookFor handle outStatus;
  headersJSON ⇐ argBytes headersPtr headersLen outStatus;
  body ⇐ argBytes bodyPtr bodyLen outStatus;
  headers ⇐ orStatus (unmarshalHeaders headersJSON) outStatus statusInvalidArgs;
  putHookCtx handle (with_abort (wrapS 32 statusCode) headers body false inv) ;;
  reply outStatus statusOK.

(** *** Imports of the core tier *)

(** A response struct: empty fields marked omitempty are left out, and a
    failing Marshal leaves an empty response. *)
Definition omitEmpty (fields : list (string * string)) : list (string * string) :=
  List.filter (fun kv => nonEmpty kv.2) fields.
Definition marshalled (fields : list (string * string)) : bytes :=
  match marshalStruct fields with Ok b => b | _ => [] end.

Definition iamPolicyEvaluate (token reqPtr reqLen outPtr outCap outStatus outLen : Z) : hostM unit :=
  authorize token "iam:policy:evaluate" outStatus ;;
  match e_policy env with
  | None => reply outStatus statusInternal
  | Some evaluate =>
    reqBytes ⇐ argBytes reqPtr reqLen outStatus;
    req ⇐ orStatus (unmarshalPolicyRequest reqBytes) outStatus statusInvalidArgs;
    n ⇐ moment;
    modify (add_call (CallPolicy req)) ;;
    let result := evaluate n req in
    let out := marshalled
      (("decision", pa_Decision result) ::
       omitEmpty [("matched_by", pa_MatchedBy result); ("policy_type", pa_PolicyType result);
                  ("details", pa_Details result)])%string in
    writeBytesResponse outPtr outCap outStatus outLen out
  end.

Definition kmsDataKeyGenerate (token reqPtr reqLen outPtr outCap outStatus outLen : Z) : hostM unit :=
  authorize token "kms:datakey:generate" outStatus ;;
  match e_dataKey env with
  | None => reply outStatus statusInternal
  | Some generate =>
    reqBytes ⇐ argBytes reqPtr reqLen outStatus;
    req ⇐ orStatus (unmarshalKeyRequest reqBytes) outStatus statusInvalidArgs;
    let len := if kr_Length req <=? 0 then 32 else kr_Length req in
    n ⇐ moment;
    modify (add_call (CallDataKey (kr_KeyID req) len)) ;;
    keys ⇐ orStatus (generate n (kr_KeyID req) len) outStatus statusInternal;
    let out := marshalled
      [("encrypted_dek", b64Encode keys.2); ("algorithm", "ECIES-P256-AES-256-GCM");
       ("key_id", kr_KeyID req)]%string in
    writeBytesResponse outPtr outCap outStatus outLen out
  end.

Definition cryptoAuditSign (token payloadPtr payloadLen outPtr outCap outStatus outLen : Z) : hostM unit :=
  authorize token "crypto:audit:sign" outStatus ;;
  match e_signer env with
  | None => reply outStatus statusInternal
  | Some sign =>
    payload ⇐ argBytes payloadPtr payloadLen outStatus;
    n ⇐ moment;
    modify (add_call (CallSign payload)) ;;
    sig ⇐ orStatus (sign n payload) outStatus statusInternal;
    writeBytesResponse outPtr outCap outStatus outLen sig
  end.

(** The loader's [RegisterHook]: persist, then add to the registry. *)
Definition RegisterHook (pluginName : string) (record : HookRecord) : hostM (res unit) :=
  match marshalHookRecord record with
  | Err e => ret (Err ("failed to marshal hook record: " +:+ e))
  | Panic w => fault w
  | Ok recordJSON =>
    n ⇐ moment;
    db ⇐ gets h_db;
    let '(db, r) := RaftApply (e_raft env n)
      (mkOp OpHookRegister pluginName (hr_HookID record) recordJSON 0) db in
    modify (set_db db) ;;
    match r with
    | inr _ => ret (Err "failed to apply hook registration")
    | inl _ => modify (fun h => set_hooks (hk_add record (h_hooks h)) h) ;; ret (Ok tt)
    end
  end.

Definition gatewayHookRegisterForOther (token reqPtr reqLen outStatus : Z) : hostM unit :=
  authorize token "gateway:hook:register_for_other" outStatus ;;
  require (e_hookRegistrar env) outStatus statusInternal ;;
  c ⇐ holderOf token outStatus;
  reqBytes ⇐ argBytes reqPtr reqLen outStatus;
  req ⇐ orStatus (unmarshalHookRequest reqBytes) outStatus statusInvalidArgs;
  require (nonEmpty (hq_Operation req) && nonEmpty (hq_HookType req) && nonEmpty (hq_Handler req))
    outStatus statusInvalidArgs ;;
  n ⇐ moment;
  let record := mkHook (cap_PluginName c)
    (cap_PluginName c +:+ "-dynamic-" +:+ pretty (e_now env n)) (hq_HookType req) (hq_Operation req)
    (hq_Condition req) (hq_Handler req) (hq_Priority req) (hq_OnFailure req) (hq_Critical req) in
  r ⇐ RegisterHook (cap_PluginName c) record;
  _ ⇐ orStatus r outStatus statusInternal;
  reply outStatus statusOK.

(** *** The exports

    [Instantiate] exports each import under its name.  A row also says which
    token and base capability the import checks first, where it reports its
    status, and which buffers of the caller it may write. *)

Record importSpec := mkImport {
  im_name : string; im_token : Z; im_cap : option string; im_status : Z;
  im_outs : list (Z * Z); im_run : hostM unit
}.

Inductive Instantiate : importSpec -> Prop :=
| imp_stateGet t kp kl vp vc st ol ov :
    Instantiate (mkImport "state.get" t (Some "state:kv"%string) st
      [(st, 4); (vp, vc); (ol, 4); (ov, 8)] (stateGet t kp kl vp vc st ol ov))
| imp_statePut t kp kl vp vl ev st ov :
    Instantiate (mkImport "state.put" t (Some "state:kv"%string) st
      [(st, 4); (ov, 8)] (statePut t kp kl vp vl ev st ov))
| imp_stateDelete t kp kl st :
    Instantiate (mkImport "state.delete" t (Some "state:kv"%string) st
      [(st, 4)] (stateDelete t kp kl st))
| imp_stateBatch t p l st op oc ol :
    Instantiate (mkImport "state.batch" t (Some "state:kv"%string) st
      [(st, 4); (op, oc); (ol, 4)] (stateBatch t p l st op oc ol))
| imp_storageGet t bp bl kp kl st op oc ol :
    Instantiate (mkImport "storage.get" t (Some "storage:get"%string) st
      [(st, 4); (op, oc); (ol, 4)] (storageGet t bp bl kp kl st op oc ol))
| imp_storagePut t bp bl kp kl dp dl st ep ec el :
    Instantiate (mkImport "storage.put" t (Some "storage:put"%string) st
      [(st, 4); (ep, ec); (el, 4)] (storagePut t bp bl kp kl dp dl st ep ec el))
| imp_storageList st :
    Instantiate (mkImport "storage.list" 0 None st
      [(st, 4)] (storageList st))
| imp_storageDelete st :
    Instantiate (mkImport "storage.delete" 0 None st
      [(st, 4)] (storageDelete st))
| imp_vectorSearch t bp bl qp ql k st op oc ol :
    Instantiate (mkImport "vector.search" t (Some "vector:search"%string) st
      [(st, 4); (op, oc); (ol, 4)] (vectorSearch t bp bl qp ql k st op oc ol))
| imp_vectorIndex t bp bl kp kl vp vl st :
    Instantiate (mkImport "vector.index" t (Some "vector:index"%string) st
      [(st, 4)] (vectorIndex t bp bl kp kl vp vl st))
| imp_httpFetch t mp ml up ul hp hl bp bl ms st op oc ol :
    Instantiate (mkImport "http.fetch" t (Some "net:egress"%string) st
      [(st, 4); (op, oc); (ol, 4)] (httpFetch t mp ml up ul hp hl bp bl ms st op oc ol))
| imp_routeResponseWrite t r c hp hl bp bl st :
    Instantiate (mkImport "route.response-write" t (Some "http:route"%string) st
      [(st, 4)] (routeResponseWrite t r c hp hl bp bl st))
| imp_routeEventPublish t s st :
    Instantiate (mkImport "route.event-publish" t (Some "event:publish"%string) st
      [(st, 4)] (routeEventPublish t s st))
| imp_requestRead r op oc ol st :
    Instantiate (mkImport "request.read" 0 None st
      [(st, 4); (op, oc); (ol, 4)] (requestRead r op oc ol st))
| imp_requestBody r op oc ol st :
    Instantiate (mkImport "request.body" 0 None st
      [(st, 4); (op, oc); (ol, 4)] (requestBody r op oc ol st))
| imp_eventSubscribe t ep el oh st :
    Instantiate (mkImport "event.subscribe" t (Some "event:subscribe"%string) st
      [(st, 4); (oh, 8)] (eventSubscribe t ep el oh st))
| imp_eventUnsubscribe t k st :
    Instantiate (mkImport "event.unsubscribe" t (Some "event:subscribe"%string) st
      [(st, 4)] (eventUnsubscribe t k st))
| imp_eventRead t k op oc ol st :
    Instantiate (mkImport "event.read" t (Some "event:subscribe"%string) st
      [(st, 4); (op, oc); (ol, 4)] (eventRead t k op oc ol st))
| imp_eventPublish t ep el st :
    Instantiate (mkImport "event.publish" t (Some "event:publish"%string) st
      [(st, 4)] (eventPublish t ep el st))
| imp_taskSchedule t cp cl pp pl oh st :
    Instantiate (mkImport "task.schedule" t (Some "task:schedule"%string) st
      [(st, 4); (oh, 8)] (host_taskSchedule t cp cl pp pl oh st))
| imp_taskUnschedule t k st :
    Instantiate (mkImport "task.unschedule" t (Some "task:schedule"%string) st
      [(st, 4)] (taskUnschedule t k st))
| imp_taskRead t k op oc ol st :
    Instantiate (mkImport "task.read" t (Some "task:schedule"%string) st
      [(st, 4); (op, oc); (ol, 4)] (taskRead t k op oc ol st))
| imp_pipelineRead t k op oc ol st :
    Instantiate (mkImport "pipeline.read" t (Some "pipeline:step"%string) st
      [(st, 4); (op, oc); (ol, 4)] (pipelineRead t k op oc ol st))
| imp_pipelineBody t k op oc ol st :
    Instantiate (mkImport "pipeline.body" t (Some "pipeline:step"%string) st
      [(st, 4); (op, oc); (ol, 4)] (pipelineBody t k op oc ol st))
| imp_pipelineOutputWrite t k bp bl cp cl mp ml st :
    Instantiate (mkImport "pipeline.output.write" t (Some "pipeline:step"%string) st
      [(st, 4)] (pipelineOutputWrite t k bp bl cp cl mp ml st))
| imp_hookRead k op oc ol st :
    Instantiate (mkImport "hook.read" (e_moduleToken env) (Some "gateway:hook"%string) st
      [(st, 4); (op, oc); (ol, 4)] (hookRead k op oc ol st))
| imp_hookBody k op oc ol st :
    Instantiate (mkImport "hook.body" (e_moduleToken env) (Some "gateway:hook"%string) st
      [(st, 4); (op, oc); (ol, 4)] (hookBody k op oc ol st))
| imp_hookModify k p l st :
    Instantiate (mkImport "hook.modify" (e_moduleToken env) (Some "gateway:hook"%string) st
      [(st, 4)] (hookModify k p l st))
| imp_hookShortCircuit k c hp hl bp bl st :
    Instantiate (mkImport "hook.short-circuit" (e_moduleToken env) (Some "gateway:hook"%string) st
      [(st, 4)] (hookShortCircuit k c hp hl bp bl st))
| imp_iamPolicyEvaluate t p l op oc st ol :
    Instantiate (mkImport "iam.policy.evaluate" t (Some "iam:policy:evaluate"%string) st
      [(st, 4); (op, oc); (ol, 4)] (iamPolicyEvaluate t p l op oc st ol))
| imp_kmsDataKeyGenerate t p l op oc st ol :
    Instantiate (mkImport "kms.datakey.generate" t (Some "kms:datakey:generate"%string) st
      [(st, 4); (op, oc); (ol, 4)] (kmsDataKeyGenerate t p l op oc st ol))
| imp_cryptoAuditSign t p l op oc st ol :
    Instantiate (mkImport "crypto.audit.sign" t (Some "crypto:audit:sign"%string) st
      [(st, 4); (op, oc); (ol, 4)] (cryptoAuditSign t p l op oc st ol))
| imp_gatewayHookRegisterForOther t p l st :
    Instantiate (mkImport "gateway.hook.register-for-other" t (Some "gateway:hook:register_for_other"%string) st
      [(st, 4)] (gatewayHookRegisterForOther t p l st))
| imp_stateCas t kp kl vp vl ev st ov : ev <> 0 ->
    Instantiate (mkImport "state.cas" t (Some "state:kv"%string) st
      [(st, 4); (ov, 8)] (stateCas t kp kl vp vl ev st ov))
| imp_stateCas0 t kp kl vp vl st ov :
    Instantiate (mkImport "state.cas" t None st [(st, 4)] (stateCas t kp kl vp vl 0 st ov)).
End Host.
Arguments Next {A}.
Arguments Done {A}.
Arguments Fault {A}.
