(* ===== verification/PluginHostTheorems.v ===== *)
(** * Plugin host imports: frames

    What a host computation may change is a reflexive and transitive relation
    between the states before and after.  [keeps R m] is closed under the
    combinators, so a frame of an import follows from frames of its parts. *)

From S2P Require Import Prelude GoStrings Bolt GoFloat GoJson PluginFsm PluginTrust.
From S2P Require Import PluginTrust PluginManifest PluginNet PluginRegistry.
From S2P Require Import PluginRegistryTheorems SystemScheduler SystemSchedulerTheorems.
From S2P Require Import PluginCalls PluginHost.
From Stdlib Require Import Ascii String.
From stdpp Require Import base list.

#[local] Open Scope Z_scope.

Create HintDb frame discriminated.

(** ** Plugin state through the replicated log *)

Section Db.
Context `{!Bolt, !BoltNested, !BoltLaws, !BoltNestedLaws, !GoQuote}.

Definition dbOk (f : option LoaderDB) : Prop := match f with Some db => initialised db | None => True end.
Definition stateOf (f : option LoaderDB) (q k : string) : option StateEntry := db ← f; stateAt db q k.

(** Nothing but the state and the hook records of [p] may differ. *)
Definition dbIso (p : string) (f f' : option LoaderDB) : Prop :=
  dbOk f -> dbOk f' /\ (forall q k, q <> p -> stateOf f' q k = stateOf f q k) /\
    db_registry <$> f' = db_registry <$> f /\ db_keys <$> f' = db_keys <$> f.

Lemma dbIso_refl p f : dbIso p f f.
Proof. by intros O. Qed.
Lemma dbIso_trans p f1 f2 f3 : dbIso p f1 f2 -> dbIso p f2 f3 -> dbIso p f1 f3.
Proof.
  intros A B O. destruct (A O) as (O2 & S & R & K). destruct (B O2) as (O3 & S' & R' & K').
  split_and!; [done| |congruence|congruence]. intros. by rewrite S', S.
Qed.

(** The operations that host imports submit. *)
Definition guestOp (t : string) : Prop := t = OpStatePut \/ t = OpStateDelete \/ t = OpHookRegister.

Lemma Apply_guestOp p op f : guestOp (op_Type op) -> op_Plugin op = p ->
  dbIso p f (Apply (Ok op) f).1.
Proof.
  intros T P. destruct f as [db|]; [|apply dbIso_refl].
  destruct (Apply (Ok op) (Some db)) as [f r] eqn:A. cbn [fst].
  apply Apply_cases in A as [[-> _]|(h & db' & Hh & E & -> & _)]; [apply dbIso_refl|].
  intros I. simpl in I. unfold stateOf. simpl.
  destruct T as [T|[T|T]]; rewrite T in Hh; injection Hh as <-.
  - pose proof (put_cases op db I) as C. rewrite E in C. destruct C as (_ & S & R & K & _ & I').
    split_and!; [done| |by rewrite R|by rewrite K]. intros q k N. rewrite S, decide_False; [done|]. naive_solver.
  - destruct (delete_data _ _ _ I E) as [I' S]. split_and!; [done| | |].
    + intros q k N. rewrite S, decide_False; [done|]. naive_solver.
    + unfold applyStateDelete in E. bind_inv E. destruct (bGet _ _); simplify_eq; try (bind_inv E; simplify_eq); done.
    + unfold applyStateDelete in E. bind_inv E. destruct (bGet _ _); simplify_eq; try (bind_inv E; simplify_eq); done.
  - unfold applyHookRegister in E. bind_inv E. simplify_eq. destruct I as (? & ? & ? & ?).
    split_and!; try done; by repeat split; eauto.
Qed.

Lemma RaftApply_iso p raft op f : guestOp (op_Type op) -> op_Plugin op = p -> jsonString p = p ->
  dbIso p f (RaftApply raft op f).1.
Proof.
  intros T P J. unfold RaftApply, ApplyRaw. destruct raft; [apply dbIso_refl..|].
  assert (dbIso p f (Apply (Ok (jsonOp op)) f).1) as A.
  { apply Apply_guestOp; simpl; [|by rewrite P]. by destruct T as [-> | [-> | ->]]; [left|right; left|right; right]. }
  destruct (Apply (Ok (jsonOp op)) f) as [f' r]. simpl in A. by destruct (ar_Success r); [|destruct (HasPrefix _ _)].
Qed.

Lemma StatePut_iso p raft k v e f : jsonString p = p -> dbIso p f (StatePut raft p k v e f).1.
Proof.
  intros J. unfold StatePut. pose proof (RaftApply_iso p raft (mkOp OpStatePut p k v e) f) as R.
  destruct (RaftApply _ _ _) as [f' [|]]; by apply R; [left|..].
Qed.
Lemma StateDelete_iso p raft k f : jsonString p = p -> dbIso p f (StateDelete raft p k f).1.
Proof. intros J. apply RaftApply_iso; [right; by left|done|done]. Qed.
End Db.

(** ** Frames *)

Lemma bindM_inv `{!Bolt, !GuestMemory, !Cron} {A B} (m : hostM A) (k : A -> hostM B) h h' b :
  bindM m k h = (h', Next b) -> exists a h1, m h = (h1, Next a) /\ k a h1 = (h', Next b).
Proof. unfold bindM. destruct (m h) as [h1 [a| |w]]; intros E; simplify_eq. by exists a, h1. Qed.

Section Frames.
Context `{!Bolt, !BoltNested, !GoQuote, !GuestMemory, !HostJson, !UrlLib, !Cron}.
Context (R : host -> host -> Prop) `{!Reflexive R, !Transitive R}.

Definition keepsAt {A} (h : host) (m : hostM A) : Prop := R h (m h).1.
Definition keeps {A} (m : hostM A) : Prop := forall h, keepsAt h m.

Lemma keeps_ret {A} (a : A) : keeps (ret a).
Proof. intros h. unfold keepsAt. simpl. reflexivity. Qed.
Lemma keeps_finish {A} : keeps (@finish _ _ _ A).
Proof. intros h. unfold keepsAt. simpl. reflexivity. Qed.
Lemma keeps_fault {A} w : keeps (@fault _ _ _ A w).
Proof. intros h. unfold keepsAt. simpl. reflexivity. Qed.
Lemma keeps_gets {A} (f : host -> A) : keeps (gets f).
Proof. intros h. unfold keepsAt. simpl. reflexivity. Qed.

Lemma keepsAt_bind {A B} h (m : hostM A) (k : A -> hostM B) :
  keepsAt h m -> (forall a h', keepsAt h' (k a)) -> keepsAt h (bindM m k).
Proof.
  unfold keepsAt, bindM. intros M K. destruct (m h) as [h' [a| |w]]; simpl in *; [|done..].
  etransitivity; [exact M|apply K].
Qed.
Lemma keeps_bind {A B} (m : hostM A) (k : A -> hostM B) :
  keeps m -> (forall a, keeps (k a)) -> keeps (bindM m k).
Proof. intros M K h. apply keepsAt_bind; [apply M|intros; apply K]. Qed.
(** What was read is known to the rest. *)
Lemma keeps_gets_bind {A B} (f : host -> A) (k : A -> hostM B) :
  (forall h, keepsAt h (k (f h))) -> keeps (bindM (gets f) k).
Proof. intros K h. apply K. Qed.
Lemma keepsAt_modify {B} h f (k : unit -> hostM B) :
  R h (f h) -> keeps (k tt) -> keepsAt h (bindM (modify f) k).
Proof. intros F K. unfold keepsAt, bindM. simpl. etransitivity; [exact F|apply K]. Qed.
End Frames.
Arguments keepsAt {_ _ _} R {A} h m.
Arguments keeps {_ _ _} R {A} m.
#[export] Hint Resolve keeps_ret keeps_finish keeps_fault keeps_gets : frame.

(** ** Frames of the helpers

    [allowed ptr b]: the relation admits writing [b] at [ptr]. *)

Section Helpers.
Context `{!Bolt, !BoltNested, !GoQuote, !GuestMemory, !HostJson, !UrlLib, !Cron}.

Class HostFrame (R : host -> host -> Prop) (allowed : Z -> bytes -> Prop) : Prop := {
  hf_refl :: Reflexive R;
  hf_trans :: Transitive R;
  hf_moment n h : R h (set_moment n h);
  hf_call c h : R h (add_call c h);
  hf_write h ptr b m : allowed ptr b -> mWrite (h_mem h) ptr b = Some m -> R h (set_mem m h)
}.

Context (R : host -> host -> Prop) (allowed : Z -> bytes -> Prop) `{!HostFrame R allowed}.
Context (env : hostEnv).

(** Any [n] bytes may be written at [ptr]. *)
Definition room (ptr : Z) (n : nat) : Prop := forall b, length b = n -> allowed ptr b.
(** A response of at most [cap] bytes, as the length test sees it. *)
Definition roomFor (ptr cap : Z) : Prop := forall b, len32 b <= cap -> allowed ptr b.

Lemma keeps_moment : keeps R moment.
Proof. intros h. apply hf_moment. Qed.
Lemma keeps_add_call c : keeps R (modify (add_call c)).
Proof. intros h. apply hf_call. Qed.
Lemma keeps_memWrite ptr b : allowed ptr b -> keeps R (memWrite ptr b).
Proof.
  intros A h. unfold keepsAt, memWrite. destruct (mWrite (h_mem h) ptr b) eqn:E; simpl;
    [by eapply hf_write|reflexivity].
Qed.
Lemma length_leBytes n v : length (leBytes n v) = n.
Proof. revert v. induction n as [|n IH]; intros v; simpl; [done|]. by rewrite IH. Qed.
Lemma keeps_writeUint32 ptr v : room ptr 4 -> keeps R (writeUint32 ptr v).
Proof. intros A. apply keeps_memWrite, A, length_leBytes. Qed.
Lemma keeps_writeUint64 ptr v : room ptr 8 -> keeps R (writeUint64 ptr v).
Proof. intros A. apply keeps_memWrite, A, length_leBytes. Qed.
Lemma keeps_writeStatus ptr v : room ptr 4 -> keeps R (writeStatus ptr v).
Proof. intros A. apply keeps_bind; [typeclasses eauto|by apply keeps_writeUint32|intros; apply keeps_ret; typeclasses eauto]. Qed.
Lemma keeps_reply {A} ptr v : room ptr 4 -> keeps R (@reply _ _ _ A ptr v).
Proof.
  intros P. apply keeps_bind; [typeclasses eauto|by apply keeps_writeStatus|].
  intros; apply keeps_finish; typeclasses eauto.
Qed.
Lemma keeps_readBytes ptr n : keeps R (readBytes ptr n).
Proof. intros h. unfold readBytes, keepsAt. destruct (n =? 0); simpl; reflexivity. Qed.
Lemma keeps_require b st v : room st 4 -> keeps R (require b st v).
Proof. intros P. destruct b; [apply keeps_ret; typeclasses eauto|by apply keeps_reply]. Qed.
Lemma keeps_orStatus {A} (r : res A) st v : room st 4 -> keeps R (orStatus r st v).
Proof.
  intros P. destruct r; [apply keeps_ret; typeclasses eauto|by apply keeps_reply|].
  apply keeps_fault; typeclasses eauto.
Qed.
End Helpers.
Arguments keeps_moment {_ _ _ R allowed _}.
#[export] Hint Resolve keeps_moment keeps_add_call keeps_memWrite keeps_writeUint32 keeps_writeUint64
  keeps_writeStatus keeps_reply keeps_readBytes keeps_require keeps_orStatus : frame.
#[export] Hint Extern 1 (Reflexive _) => typeclasses eauto : frame.
#[export] Hint Extern 1 (Transitive _) => typeclasses eauto : frame.
#[export] Hint Extern 1 (HostFrame _ _) => typeclasses eauto : frame.

(** Split a computation at its combinators; close the parts by hints. *)
Ltac frame_step :=
  match goal with
  | |- keeps _ (bindM _ _) => apply keeps_bind; [typeclasses eauto| |intros ?]
  | |- keeps _ (if ?b then _ else _) => destruct b eqn:?
  | |- keeps _ (match ?x with _ => _ end) => destruct x eqn:?
  | |- keeps _ _ => solve [eauto with frame]
  end.
Ltac frames := repeat frame_step.

(** Unfold the import at the head of the goal's computation. *)
Ltac head_of t := lazymatch t with ?f _ => head_of f | _ => t end.
Ltac open_import :=
  match goal with |- keeps _ ?m => let h := head_of m in unfold h end.

Section Helpers2.
Context `{!Bolt, !BoltNested, !GoQuote, !GuestMemory, !HostJson, !UrlLib, !Cron}.
Context (R : host -> host -> Prop) (allowed : Z -> bytes -> Prop) `{!HostFrame R allowed}.
Context (env : hostEnv).
Notation room := (room allowed).

Lemma keeps_readString ptr n : keeps R (readString ptr n).
Proof. unfold readString. frames. Qed.
Lemma keeps_capsAuthorize t c : keeps R (capsAuthorize env t c).
Proof. unfold capsAuthorize. frames. Qed.
Lemma keeps_capsLookup t : keeps R (capsLookup env t).
Proof. unfold capsLookup. frames. Qed.
Hint Resolve keeps_readString keeps_capsAuthorize keeps_capsLookup : frame.
Lemma keeps_authorize t c st : room st 4 -> keeps R (authorize env t c st).
Proof. unfold authorize. intros P. frames. Qed.
Lemma keeps_holderOf t st : room st 4 -> keeps R (holderOf env t st).
Proof. unfold holderOf. intros P. frames. Qed.
Lemma keeps_pluginNameForToken t : keeps R (pluginNameForToken env t).
Proof. unfold pluginNameForToken. frames. Qed.
Lemma keeps_argBytes ptr n st : room st 4 -> keeps R (argBytes ptr n st).
Proof. unfold argBytes. intros P. frames. Qed.
Lemma keeps_argString ptr n st : room st 4 -> keeps R (argString ptr n st).
Proof. unfold argString. intros P. frames. Qed.
Lemma keeps_vectorArg n b : keeps R (vectorArg n b).
Proof. unfold vectorArg. frames. Qed.
Lemma keeps_writeBytesResponse op oc st ol b :
  room st 4 -> room ol 4 -> roomFor allowed op oc -> keeps R (writeBytesResponse op oc st ol b).
Proof.
  unfold writeBytesResponse. intros P Q F. destruct (Z.ltb_spec oc (len32 b)); frames.
Qed.
Hint Resolve keeps_authorize keeps_holderOf : frame.
Lemma keeps_pipelineFor t k st : room st 4 -> keeps R (pipelineFor env t k st).
Proof. unfold pipelineFor. intros P. frames. Qed.
Lemma keeps_hookFor k st : room st 4 -> keeps R (hookFor env k st).
Proof. unfold hookFor. intros P. frames. Qed.
Lemma keeps_ctxOf inv : keeps R (ctxOf inv).
Proof. unfold ctxOf. frames. Qed.
End Helpers2.
#[export] Hint Resolve keeps_readString keeps_capsAuthorize keeps_capsLookup keeps_authorize keeps_holderOf
  keeps_pluginNameForToken keeps_argBytes keeps_argString keeps_vectorArg keeps_writeBytesResponse
  keeps_pipelineFor keeps_hookFor keeps_ctxOf : frame.

(** ** Writes stay in the caller's buffers *)

Section Buffers.
Context `{!Bolt, !BoltNested, !GoQuote, !GuestMemory, !GuestMemoryLaws, !HostJson, !UrlLib, !Cron}.
Context (env : hostEnv) (outs : list (Z * Z)).

Definition outside (a : Z) : Prop := forall p n, (p, n) ∈ outs -> a < p \/ p + n <= a.
(** Only bytes of the buffers differ. *)
Definition inBuffers (h h' : host) : Prop := mSize (h_mem h) < 2 ^ 32 ->
  mSize (h_mem h') = mSize (h_mem h) /\
  forall a, outside a -> mByte (h_mem h') a = mByte (h_mem h) a.
(** No memory holds 2^32 bytes more, so a length that wraps does not fit. *)
Definition fits (ptr : Z) (b : bytes) : Prop :=
  exists n, (ptr, n) ∈ outs /\ 0 <= ptr /\ (Z.of_nat (length b) < 2 ^ 32 -> Z.of_nat (length b) <= n).

#[export] Instance inBuffers_refl : Reflexive inBuffers.
Proof. by intros h S. Qed.
#[export] Instance inBuffers_trans : Transitive inBuffers.
Proof.
  intros h1 h2 h3 A B S. destruct (A S) as [S2 A']. destruct B as [S3 B']; [by rewrite S2|].
  split; [congruence|]. intros a O. by rewrite B', A'.
Qed.
#[export] Instance inBuffers_frame : HostFrame inBuffers fits.
Proof.
  split; try typeclasses eauto; try by intros ? ? S.
  intros h ptr b m (n & I & P & F) W S. cbn [h_mem set_mem].
  split; [by eapply mWrite_size|]. intros a O. eapply mWrite_out; [exact W|].
  assert (ptr + Z.of_nat (length b) <= mSize (h_mem h)) as Sz.
  { apply (mWrite_ok (h_mem h) ptr b P). by eexists. }
  specialize (F ltac:(lia)). destruct (O _ _ I); [left; lia|right; lia].
Qed.

Lemma keeps_same_mem {A} (m : hostM A) : (forall h, h_mem (m h).1 = h_mem h) -> keeps inBuffers m.
Proof. intros E h. unfold keepsAt, inBuffers. by rewrite E. Qed.

Hypothesis pointers : forall p n, (p, n) ∈ outs -> 0 <= p.
Lemma room_in ptr n : (ptr, Z.of_nat n) ∈ outs -> room fits ptr n.
Proof. intros I b L. exists (Z.of_nat n). split; [done|]. split; [by eapply pointers|]. lia. Qed.
Lemma fits_in ptr cap b : (ptr, cap) ∈ outs -> len32 b <= cap -> fits ptr b.
Proof.
  intros I L. exists cap. split; [done|]. split; [by eapply pointers|]. intros S.
  unfold len32, wrapU32 in L. rewrite wrapU_id in L by lia. done.
Qed.
Lemma roomFor_in ptr cap : (ptr, cap) ∈ outs -> roomFor fits ptr cap.
Proof. intros I b. by apply fits_in. Qed.

Lemma loaderStatePut_mem p k v e h : h_mem (loaderStatePut env p k v e h).1 = h_mem h.
Proof. unfold loaderStatePut, bindM. simpl. by destruct (StatePut _ _ _ _ _ _). Qed.
Lemma loaderStateDelete_mem p k h : h_mem (loaderStateDelete env p k h).1 = h_mem h.
Proof. unfold loaderStateDelete, bindM. simpl. by destruct (StateDelete _ _ _ _). Qed.
Lemma batchOne_keeps p op : keeps inBuffers (batchOne env p op).
Proof.
  unfold batchOne. pose proof (loaderStatePut_mem p (sbo_Key op)). pose proof (loaderStateDelete_mem p (sbo_Key op)).
  frames; apply keeps_same_mem; auto.
Qed.
Hint Resolve batchOne_keeps : frame.
Lemma batchAll_keeps p ops : keeps inBuffers (batchAll env p ops).
Proof. induction ops as [|op ops IH]; cbn [batchAll]; frames. Qed.
Lemma RegisterHook_keeps p r : keeps inBuffers (RegisterHook env p r).
Proof. unfold RegisterHook. frames; by apply keeps_same_mem. Qed.
End Buffers.

(** ** Isolation of plugins *)

(** Entries that do not belong to [p] are the same. *)
Definition others {A} (owner : A -> string) (p : string) (m m' : gmap Z A) : Prop :=
  forall i x, owner x <> p -> (m' !! i = Some x <-> m !! i = Some x).
Lemma others_refl {A} (owner : A -> string) p m : others owner p m m.
Proof. done. Qed.
Lemma others_trans {A} (owner : A -> string) p m1 m2 m3 :
  others owner p m1 m2 -> others owner p m2 m3 -> others owner p m1 m3.
Proof. intros A1 A2 i x N. rewrite (A2 i x N). by apply A1. Qed.
Lemma others_insert {A} (owner : A -> string) p (m : gmap Z A) i y :
  owner y = p -> (forall x, m !! i = Some x -> owner x = p) -> others owner p m (<[i := y]> m).
Proof.
  intros Y M j x N. destruct (decide (j = i)) as [->|J]; [|by rewrite lookup_insert_ne].
  rewrite lookup_insert_eq. split; [intros [= ->]; done|intros E; by apply M in E].
Qed.
Lemma others_delete {A} (owner : A -> string) p (m : gmap Z A) i x :
  m !! i = Some x -> owner x = p -> others owner p m (delete i m).
Proof.
  intros E O j y N. destruct (decide (j = i)) as [->|J]; [|by rewrite lookup_delete_ne].
  rewrite lookup_delete_eq. split; [done|]. congruence.
Qed.

Lemma ix_remove_items {A} (owner : A -> string) i x (r : pluginIndex A) : ix_items r !! i = Some x ->
  ix_items (ix_remove owner i r).1 = delete i (ix_items r) /\ (ix_remove owner i r).2 = Some x.
Proof. intros E. unfold ix_remove. by rewrite E. Qed.

Section Isolation.
Context `{!Bolt, !BoltNested, !BoltLaws, !BoltNestedLaws, !GoQuote, !GuestMemory, !HostJson, !UrlLib, !Cron}.
Context (env : hostEnv) (p : string).

Record iso (h h' : host) : Prop := {
  iso_db : dbIso p (h_db h) (h_db h');
  iso_events : others es_pluginName p (ix_items (h_events h)) (ix_items (h_events h'));
  iso_tasks : others tsc_pluginName p (ix_items (tr_index (h_sched h).2)) (ix_items (tr_index (h_sched h').2));
  iso_steps : others pli_pluginName p (ht_map (h_pipeCtx h)) (ht_map (h_pipeCtx h'));
  iso_hooks x : hr_PluginName x <> p -> x ∈ hk_hooks (h_hooks h') <-> x ∈ hk_hooks (h_hooks h);
  iso_ctxs : h_eventCtx h' = h_eventCtx h /\ h_taskCtx h' = h_taskCtx h
}.

(** Nothing shared between plugins differs. *)
Record quiet (h h' : host) : Prop := {
  q_db : h_db h' = h_db h; q_events : h_events h' = h_events h; q_sched : h_sched h' = h_sched h;
  q_pipe : h_pipeCtx h' = h_pipeCtx h; q_hooks : h_hooks h' = h_hooks h;
  q_ectx : h_eventCtx h' = h_eventCtx h; q_tctx : h_taskCtx h' = h_taskCtx h
}.

#[export] Instance quiet_frame : HostFrame quiet (fun _ _ => True).
Proof.
  split; try done.
  - intros h1 h2 h3 [] []. split; congruence.
Qed.

Lemma quiet_iso h h' : quiet h h' -> iso h h'.
Proof.
  intros [D E S P K C T]. split; rewrite ?D, ?E, ?S, ?P, ?K, ?C, ?T; auto using dbIso_refl, others_refl; done.
Qed.
Lemma iso_trans h1 h2 h3 : iso h1 h2 -> iso h2 h3 -> iso h1 h3.
Proof.
  intros [D1 E1 T1 S1 K1 [C1 C1']] [D2 E2 T2 S2 K2 [C2 C2']]. split; eauto using dbIso_trans, others_trans.
  - intros x N. rewrite (K2 x N). by apply K1.
  - split; congruence.
Qed.
#[export] Instance iso_frame : HostFrame iso (fun _ _ => True).
Proof.
  split; [intros ?|exact iso_trans|intros..]; apply quiet_iso; by split.
Qed.

(** A quiet prefix leaves what follows with the same shared state. *)
Lemma iso_after {A B} (m : hostM A) (k : A -> hostM B) h : keeps quiet m ->
  (forall a h', quiet h h' -> m h = (h', Next a) -> iso h (k a h').1) -> iso h (bindM m k h).1.
Proof.
  intros Q K. specialize (Q h). unfold keepsAt in Q. unfold bindM.
  destruct (m h) as [h' [a| |w]]; simpl in *; [by apply K|by apply quiet_iso..].
Qed.
Lemma iso_then {A B} (m : hostM A) (k : A -> hostM B) h :
  iso h (m h).1 -> (forall a, keeps quiet (k a)) -> iso h (bindM m k h).1.
Proof.
  intros M K. unfold bindM. destruct (m h) as [h' [a| |w]]; simpl in *; [|done..].
  eapply iso_trans; [exact M|apply quiet_iso, K].
Qed.
Lemma keeps_quiet_iso {A} (m : hostM A) : keeps quiet m -> keeps iso m.
Proof. intros Q h. apply quiet_iso, Q. Qed.

(** *** The parts of imports that change shared state *)

Hypothesis json_name : jsonString p = p.

Lemma loaderStatePut_iso k v e : keeps iso (loaderStatePut env p k v e).
Proof.
  intros h. unfold keepsAt, loaderStatePut, bindM, moment.
  pose proof (StatePut_iso p (e_raft env (h_moment h)) k v e (h_db h) json_name) as D.
  change (h_db (set_moment (S (h_moment h)) h)) with (h_db h).
  destruct (StatePut _ _ _ _ _ _) as [db r]. simpl in *. split; simpl; auto using others_refl; done.
Qed.
Lemma loaderStateDelete_iso k : keeps iso (loaderStateDelete env p k).
Proof.
  intros h. unfold keepsAt, loaderStateDelete, bindM, moment.
  pose proof (StateDelete_iso p (e_raft env (h_moment h)) k (h_db h) json_name) as D.
  change (h_db (set_moment (S (h_moment h)) h)) with (h_db h).
  destruct (StateDelete _ _ _ _) as [db r]. simpl in *. split; simpl; auto using others_refl; done.
Qed.

Lemma hk_add_elem r x k : x ∈ hk_hooks (hk_add r k) <-> x = r \/ x ∈ hk_hooks k.
Proof.
  unfold hk_add, resortLocked. simpl. destruct (sortStable_spec (hk_order k) (hk_hooks k ++ [r])) as [P _].
  rewrite P, elem_of_app, list_elem_of_singleton. tauto.
Qed.
Lemma RegisterHook_iso r : hr_PluginName r = p -> keeps iso (RegisterHook env p r).
Proof.
  intros O. unfold RegisterHook. destruct (marshalHookRecord r) as [b| |]; [|apply keeps_ret|apply keeps_fault];
    try typeclasses eauto.
  apply keeps_bind; [typeclasses eauto|apply keeps_moment|intros n].
  apply keeps_gets_bind. intros h.
  pose proof (RaftApply_iso p (e_raft env n) (mkOp OpHookRegister p (hr_HookID r) b 0) (h_db h)
    ltac:(right; by right) eq_refl json_name) as D.
  destruct (RaftApply _ _ _) as [db res]. cbn [fst] in D.
  apply keepsAt_modify; [typeclasses eauto|split; simpl; auto using others_refl; done|].
  destruct res; [|apply keeps_ret; typeclasses eauto].
  apply keeps_bind; [typeclasses eauto| |intros; apply keeps_ret; typeclasses eauto].
  intros h'. unfold keepsAt. split; cbn -[hk_add]; auto using dbIso_refl, others_refl.
  intros x N. rewrite hk_add_elem. naive_solver.
Qed.

Lemma Unsubscribe_others i r : others es_pluginName p (ix_items r) (ix_items (UnsubscribePluginEvent p i r).1).
Proof.
  unfold UnsubscribePluginEvent, ev_lookup. destruct (ix_items r !! i) as [s|] eqn:E; [|apply others_refl].
  case_bool_decide as O; [|apply others_refl]. cbn [fst]. unfold ev_remove.
  destruct (ix_remove_items es_pluginName i s r E) as [R _]. destruct (ix_remove _ _ _) as [r' y].
  cbn [fst] in *. rewrite R. by eapply others_delete.
Qed.
Lemma Subscribe_others pat hd r : index_ok es_pluginName r -> ix_next r < 2 ^ 64 - 1 ->
  others es_pluginName p (ix_items r) (ix_items (SubscribePluginEvent p pat hd r).1).
Proof.
  intros I N. unfold SubscribePluginEvent. case_bool_decide; [apply others_refl|]. unfold ev_add.
  set (mk := fun h => mkSub h p pat _).
  pose proof (ix_add_ok es_pluginName p mk r (fun _ => eq_refl) I N) as A.
  destruct (ix_add p mk r) as [r' i]. destruct A as (_ & F & R & _). cbn [fst]. rewrite R.
  apply others_insert; [done|]. intros x E. congruence.
Qed.

Lemma tr_remove_others i s r : tr_lookup i r = Some s -> tsc_pluginName s = p ->
  others tsc_pluginName p (ix_items (tr_index r)) (ix_items (tr_index (tr_remove i r).1)).
Proof.
  unfold tr_lookup. intros E O. destruct (ix_remove_items tsc_pluginName i s (tr_index r) E) as [R Rx].
  unfold tr_remove. destruct (ix_remove _ _ _) as [ix y]. cbn [fst snd] in *. subst y. cbn [fst tr_index].
  rewrite R. by eapply others_delete.
Qed.
Lemma Unschedule_others i st : others tsc_pluginName p (ix_items (tr_index st.2))
  (ix_items (tr_index (UnschedulePluginTask p i st).1.2)).
Proof.
  destruct st as [sched tasks]. unfold UnschedulePluginTask. cbn [snd].
  destruct (tr_lookup i tasks) as [s|] eqn:E; [|apply others_refl].
  case_bool_decide as O; cbn [negb]; [|apply others_refl].
  destruct sched as [sc|]; [|apply others_refl].
  destruct (sch_UnregisterTask _ _) as [sc' [u| |]]; cbn [fst snd]; try apply others_refl.
  by eapply tr_remove_others.
Qed.
Lemma Schedule_others parse sc pl hd st : index_ok tsc_pluginName (tr_index st.2) ->
  ix_next (tr_index st.2) < 2 ^ 64 - 1 ->
  others tsc_pluginName p (ix_items (tr_index st.2))
    (ix_items (tr_index (SchedulePluginTask parse p sc pl hd st).1.2)).
Proof.
  destruct st as [sched tasks]. intros I N. unfold SchedulePluginTask. cbn [snd] in *.
  case_bool_decide; [apply others_refl|]. destruct (parse sc); try apply others_refl.
  destruct sched as [s|]; [|apply others_refl]. unfold tr_add.
  set (mk := fun h => mkSchedule h p _ sc pl _).
  pose proof (ix_add_ok tsc_pluginName p mk (tr_index tasks) (fun _ => eq_refl) I N) as A.
  destruct (ix_add p mk (tr_index tasks)) as [r' i] eqn:Ai. destruct A as (_ & F & R & _).
  assert (others tsc_pluginName p (ix_items (tr_index tasks)) (ix_items r')) as O.
  { rewrite R. apply others_insert; [done|]. intros x E. congruence. }
  destruct (sch_RegisterTask _ _) as [s' [u| |]]; cbn [fst snd tr_index]; try exact O.
  eapply others_trans; [exact O|]. eapply (tr_remove_others i (mk i) (mkTasks r' _)); [|done].
  unfold tr_lookup. cbn [tr_index]. by rewrite R, lookup_insert_eq.
Qed.
End Isolation.

(** ** Plugin host imports: memory, authority and isolation *)

(** ** Memory *)

Section Memory.
Context `{!Bolt, !BoltNested, !GoQuote, !GuestMemory, !GuestMemoryLaws, !HostJson, !UrlLib, !Cron}.
Context (env : hostEnv).

(** The buffers of a row give room for what the imports write. *)
Ltac in_tac := first [apply list_elem_of_here | apply list_elem_of_further; in_tac].
Ltac room_tac :=
  first [ apply (room_in _ ltac:(eassumption) _ 4) | apply (room_in _ ltac:(eassumption) _ 8)
        | apply (roomFor_in _ ltac:(eassumption)) ]; in_tac.

Hint Extern 1 (room _ _ _) => room_tac : frame.
Hint Extern 1 (roomFor _ _ _) => room_tac : frame.
Hint Resolve batchAll_keeps RegisterHook_keeps : frame.
Hint Extern 2 (keeps (inBuffers _) (modify _)) => (apply keeps_same_mem; reflexivity) : frame.
Hint Extern 2 (keeps (inBuffers _) (putHookCtx _ _)) => (apply keeps_same_mem; reflexivity) : frame.
Hint Extern 2 (keeps (inBuffers _) (loaderStatePut _ _ _ _ _)) =>
  (apply keeps_same_mem, loaderStatePut_mem) : frame.
Hint Extern 2 (keeps (inBuffers _) (loaderStateDelete _ _ _)) =>
  (apply keeps_same_mem, loaderStateDelete_mem) : frame.

(** A host import writes nothing into the calling plugin's memory outside
    the buffers the plugin passed for results: the status word, the length,
    handle and version words, and the result buffer with the capacity it was
    given.  The memory's size does not change. *)
Theorem import_writes_stay_in_buffers (i : importSpec) (h : host) :
  Instantiate env i -> (forall p n, (p, n) ∈ im_outs i -> 0 <= p) -> mSize (h_mem h) < 2 ^ 32 ->
  let h' := (im_run i h).1 in
  mSize (h_mem h') = mSize (h_mem h) /\
  forall a, outside (im_outs i) a -> mByte (h_mem h') a = mByte (h_mem h) a.
Proof.
  intros I P S. cut (keeps (inBuffers (im_outs i)) (im_run i)); [intros K; by apply K|clear h S].
  destruct I; cbn [im_outs im_run] in *.
  all: open_import; rewrite ?Z.eqb_refl; frames.
  all: match goal with |- keeps _ (statePut _ _ _ _ _ _ _ _ _) => open_import; frames | _ => idtac end.
  all: eapply keeps_memWrite; [typeclasses eauto|].
  all: match goal with T : (_ <? _) = false |- _ => apply Z.ltb_ge in T end.
  all: eapply (fits_in _ P); [in_tac|done].
Qed.
End Memory.

(** ** Authority *)

Section Authority.
Context `{!Bolt, !BoltNested, !GoQuote, !GuestMemory, !HostJson, !UrlLib, !Cron}.
Context (env : hostEnv).

(** The state after one look at the table and a status word. *)
Definition refused (looks : nat) (st : Z) (h : host) : host :=
  (writeStatus st statusUnauthorized (set_moment (looks + h_moment h) h)).1.

Lemma writeStatus_next st v h : writeStatus st v h = ((writeStatus st v h).1, Next tt).
Proof. unfold writeStatus, bindM, writeUint32, memWrite. by destruct (mWrite _ _ _). Qed.
Lemma reply_done {A} st v h : @reply _ _ _ A st v h = ((writeStatus st v h).1, Done).
Proof. unfold reply, bindM. by rewrite (writeStatus_next st v h). Qed.
Lemma bind_done {A B} (m : hostM A) (k : A -> hostM B) h h' :
  m h = (h', Done) -> bindM m k h = (h', Done).
Proof. intros E. unfold bindM. by rewrite E. Qed.
Lemma bind_next {A B} (m : hostM A) (k : A -> hostM B) h h' a :
  m h = (h', Next a) -> bindM m k h = k a h'.
Proof. intros E. unfold bindM. by rewrite E. Qed.

(** The verdict on a token at a moment. *)
Definition authorised (n : nat) (token : Z) (cap : string) : Prop :=
  Authorize (e_now env n) token cap (e_caps env n) = inl tt.

#[export] Instance authorised_dec n token cap : Decision (authorised n token cap).
Proof. unfold authorised. destruct (Authorize _ _ _ _) as [[]|e]; [by left|by right]. Defined.

Lemma authorize_refused token cap st h : ~ authorised (h_moment h) token cap ->
  authorize env token cap st h = (refused 1 st h, Done).
Proof.
  unfold authorised. intros N. unfold authorize, capsAuthorize, bindM, moment, ret.
  destruct (Authorize _ _ _ _) as [[]|e]; [done|]. apply reply_done.
Qed.
Lemma authorize_passes token cap st h : authorised (h_moment h) token cap ->
  authorize env token cap st h = (set_moment (S (h_moment h)) h, Next tt).
Proof.
  unfold authorised. intros N. unfold authorize, capsAuthorize, bindM, moment, ret. by rewrite N.
Qed.

(** When the capability table does not authorise the caller's token for an
    import's capability at the moment of the call (an unknown, revoked or
    expired token, a capability that was not granted, or a core-tier import
    with a token of a lower tier), the import reports statusUnauthorized and
    does nothing else: no state, registry, memory or outside service sees the
    call.  This covers every export except storage.list and storage.delete,
    which always refuse, and request.read and request.body, which check no
    token. *)
Theorem unauthorised_import_only_reports (i : importSpec) (h : host) (cap : string) :
  Instantiate env i -> im_cap i = Some cap -> ~ authorised (h_moment h) (im_token i) cap ->
  im_run i h = (refused 1 (im_status i) h, Done).
Proof.
  intros I C N. destruct I; cbn [im_cap im_token im_run im_status] in *; simplify_eq.
  all: match goal with |- ?m _ = _ => let f := head_of m in unfold f end.
  all: try (destruct (Z.eqb_spec ev 0); [done|]; unfold statePut).
  all: try apply bind_done; by apply authorize_refused + (apply bind_done; by apply authorize_refused).
Qed.

(** *** Reading another plugin's state *)

Lemma argBytes_next ptr len st h b :
  (if len =? 0 then Some [] else mRead (h_mem h) ptr len) = Some b ->
  argBytes ptr len st h = (h, Next b).
Proof.
  intros E. unfold argBytes, readBytes, bindM. destruct (len =? 0); simpl; [by simplify_eq|].
  unfold gets. simpl. by rewrite E.
Qed.
Lemma holderOf_next token st h c : cap_Lookup (e_now env (h_moment h)) token (e_caps env (h_moment h)) = Some c ->
  holderOf env token st h = (set_moment (S (h_moment h)) h, Next c).
Proof. intros E. unfold holderOf, capsLookup, bindM, moment, ret. by rewrite E. Qed.

(** state.get with a key that names another plugin refuses, and its answer
    does not depend on any stored value, unless the caller's token holds the
    capability for that plugin's state when it is checked and the other
    plugin's manifest grants the caller a pattern that matches the key. *)
Theorem cross_plugin_read_needs_grant (t kp kl vp vc st ol ov : Z) (h : host) (keyBytes : bytes)
    (c : Capability) (q k : string) :
  let n := h_moment h in
  authorised n t "state:kv" ->
  (if kl =? 0 then Some [] else mRead (h_mem h) kp kl) = Some keyBytes ->
  cap_Lookup (e_now env (S n)) t (e_caps env (S n)) = Some c ->
  resolveCrossPluginStateKey (cap_PluginName c) (stringOf keyBytes) = (q, k, true) ->
  ~ (authorised (S (S n)) t ("state:cross_plugin:" +:+ q) /\
     isCrossPluginStateAllowed env (cap_PluginName c) q k = true) ->
  q <> cap_PluginName c /\ stateGet env t kp kl vp vc st ol ov h = (refused 3 st h, Done).
Proof.
  intros n A K L R N. split.
  { unfold resolveCrossPluginStateKey in R. destruct (cut _ _) as [prefix [rest|]]; simplify_eq.
    repeat case_bool_decide; simplify_eq; destruct (negb _); by simplify_eq. }
  unfold stateGet. rewrite (bind_next _ _ _ _ _ (authorize_passes _ _ _ _ A)).
  rewrite (bind_next _ _ _ _ _ (argBytes_next kp kl st (set_moment (S n) h) _ K)).
  rewrite (bind_next _ _ _ _ _ (holderOf_next t st (set_moment (S n) h) c L)). rewrite R. cbn [h_moment set_moment].
  apply bind_done. set (h2 := set_moment (S (S n)) h).
  destruct (decide (authorised (S (S n)) t ("state:cross_plugin:" +:+ q))) as [A2|A2].
  - rewrite (bind_next _ _ _ _ _ (authorize_passes t _ st h2 A2)).
    destruct (isCrossPluginStateAllowed _ _ _ _); [tauto|]. apply reply_done.
  - apply bind_done. exact (authorize_refused t _ st h2 A2).
Qed.
End Authority.

(** ** Isolation *)

Section Isolation.
Context `{!Bolt, !BoltNested, !BoltLaws, !BoltNestedLaws, !GoQuote, !GuestMemory, !HostJson, !UrlLib, !Cron}.
Context (env : hostEnv) (p : string) (json_name : jsonString p = p).

Definition tokenOf (t : Z) : Prop := forall n c, e_caps env n !! t = Some c -> cap_PluginName c = p.

Hint Extern 1 (room _ _ _) => (intros ? ?; exact I) : frame.
Hint Extern 1 (roomFor _ _ _) => (intros ? ?; exact I) : frame.
Hint Extern 1 True => exact I : frame.
Hint Extern 2 (keeps (iso _) (modify (set_requests _))) => (apply keeps_quiet_iso; intros ?; by split) : frame.
Hint Extern 2 (keeps (iso _) (modify (set_fetcher _))) => (apply keeps_quiet_iso; intros ?; by split) : frame.
Hint Extern 2 (keeps (iso _) (putHookCtx _ _)) => (apply keeps_quiet_iso; intros ?; by split) : frame.
Hint Extern 2 (keeps (iso _) (memWrite _ _)) =>
  (apply (keeps_memWrite _ (fun _ _ => True)); exact I) : frame.
Hint Resolve loaderStatePut_iso loaderStateDelete_iso RegisterHook_iso : frame.

Lemma holderOf_val t st h h' c : tokenOf t -> holderOf env t st h = (h', Next c) -> cap_PluginName c = p.
Proof.
  intros T E. unfold holderOf, capsLookup, bindM, moment, ret in E.
  destruct (cap_Lookup _ _ _) as [c'|] eqn:L; [|by rewrite reply_done in E]. simplify_eq.
  unfold cap_Lookup in L. destruct (_ !! t) as [c'|] eqn:C; [|done].
  eapply T. rewrite C. by repeat case_match_hyp L.
Qed.
Lemma keeps_holder_bind {B} t st (k : Capability -> hostM B) : tokenOf t ->
  (forall c, cap_PluginName c = p -> keeps (iso p) (k c)) -> keeps (iso p) (bindM (holderOf env t st) k).
Proof.
  intros T K h. apply iso_after; [eauto with frame|]. intros c h' Q E.
  eapply iso_trans; [by apply quiet_iso|]. eapply K, holderOf_val; eauto.
Qed.

(** As [frames], knowing that the token's holder is [p]. *)
Ltac iso_step T :=
  match goal with
  | |- keeps _ (bindM (holderOf _ _ _) _) => apply (keeps_holder_bind _ _ _ T);
    let C := fresh "C" in intros ? C; rewrite ?C
  | _ => frame_step
  end.

Lemma batchOne_iso op : keeps (iso p) (batchOne env p op).
Proof. unfold batchOne. frames. Qed.
Hint Resolve batchOne_iso : frame.
Lemma batchAll_iso ops : keeps (iso p) (batchAll env p ops).
Proof. induction ops as [|op ops IH]; cbn [batchAll]; frames. Qed.
Hint Resolve batchAll_iso : frame.

(** The prefix of an import up to its holder, then the rest from a state with
    the same shared parts. *)
Lemma iso_guarded {B} t cap st (k : Capability -> hostM B) h : tokenOf t ->
  (forall c h', quiet h h' -> cap_PluginName c = p -> iso p h (k c h').1) ->
  iso p h (bindM (authorize env t cap st) (fun _ => bindM (holderOf env t st) k) h).1.
Proof.
  intros T K. apply iso_after; [eauto with frame|]. intros [] h1 Q1 _.
  assert (iso p h (bindM (holderOf env t st) k h1).1); [|done].
  unfold bindM.
  pose proof (keeps_holderOf quiet (fun _ _ => True) env t st ltac:(intros ? ?; exact I) h1) as Q2.
  unfold keepsAt in Q2. destruct (holderOf env t st h1) as [h2 [c| |w]] eqn:E; cbn [fst] in *.
  - apply K; [by etransitivity|]. by eapply holderOf_val.
  - apply quiet_iso. by etransitivity.
  - apply quiet_iso. by etransitivity.
Qed.

(** Reading a registry and writing it back changed for [p] only. *)
Lemma iso_setEvents {B} st (f : eventRegistry -> eventRegistry * res B) (k : B -> hostM unit) code h :
  others es_pluginName p (ix_items (h_events h)) (ix_items (f (h_events h)).1) ->
  (forall b, keeps quiet (k b)) ->
  iso p h (bindM (gets h_events) (fun e => let '(e, r) := f e in
    bindM (modify (set_events e)) (fun _ => bindM (orStatus r st code) k)) h).1.
Proof.
  intros O K. unfold bindM at 1. simpl. destruct (f (h_events h)) as [e r]. cbn [fst] in O.
  apply iso_then; [|intros []; frames; apply K].
  split; simpl; auto using dbIso_refl, others_refl; done.
Qed.
Lemma iso_sched {B} st (f : option Scheduler * taskRegistry -> option Scheduler * taskRegistry * res B)
    (k : B -> hostM unit) code h :
  others tsc_pluginName p (ix_items (tr_index (h_sched h).2)) (ix_items (tr_index (f (h_sched h)).1.2)) ->
  (forall b, keeps quiet (k b)) ->
  iso p h (bindM (gets h_sched) (fun s => let '(s, r) := f s in
    bindM (modify (set_sched s)) (fun _ => bindM (orStatus r st code) k)) h).1.
Proof.
  intros O K. unfold bindM at 1. simpl. destruct (f (h_sched h)) as [s r]. cbn [fst] in O.
  apply iso_then; [|intros []; frames; apply K].
  split; simpl; auto using dbIso_refl, others_refl; done.
Qed.

(** New handles are fresh. *)
Definition roomy (h : host) : Prop :=
  index_ok es_pluginName (h_events h) /\ ix_next (h_events h) < 2 ^ 64 - 1 /\
  index_ok tsc_pluginName (tr_index (h_sched h).2) /\ ix_next (tr_index (h_sched h).2) < 2 ^ 64 - 1.

Lemma iso_next {A B} (m : hostM A) (k : A -> hostM B) h : keeps quiet m ->
  (forall a h', quiet h h' -> m h = (h', Next a) -> iso p h' (k a h').1) -> iso p h (bindM m k h).1.
Proof.
  intros M K. apply iso_after; [done|]. intros a h' Q E. eapply iso_trans; [by apply quiet_iso|by apply K].
Qed.

Lemma eventUnsubscribe_iso t k st h : tokenOf t -> iso p h (eventUnsubscribe env t k st h).1.
Proof.
  intros T. unfold eventUnsubscribe. apply iso_guarded; [done|]. intros c h' Q ->.
  eapply iso_trans; [by apply quiet_iso|]. apply iso_setEvents; [apply Unsubscribe_others|intros; frames].
Qed.
Lemma taskUnschedule_iso t k st h : tokenOf t -> iso p h (taskUnschedule env t k st h).1.
Proof.
  intros T. unfold taskUnschedule. apply iso_guarded; [done|]. intros c h' Q ->.
  eapply iso_trans; [by apply quiet_iso|]. apply iso_sched; [apply Unschedule_others|intros; frames].
Qed.
Lemma eventSubscribe_iso t a b oh st h : tokenOf t -> roomy h ->
  iso p h (eventSubscribe env t a b oh st h).1.
Proof.
  intros T (I & N & _). unfold eventSubscribe. apply iso_guarded; [done|]. intros c h1 Q1 ->.
  eapply iso_trans; [by apply quiet_iso|].
  apply iso_next; [frames|]. intros ev h2 Q2 _. apply iso_next; [frames|]. intros [] h3 Q3 _.
  assert (quiet h h3) as Q by (etransitivity; [exact Q1|etransitivity; [exact Q2|exact Q3]]).
  apply iso_setEvents; [|intros; frames]. destruct Q as [_ -> _ _ _ _ _]. by apply Subscribe_others.
Qed.
Lemma taskSchedule_iso t a b c d oh st h : tokenOf t -> roomy h ->
  iso p h (host_taskSchedule env t a b c d oh st h).1.
Proof.
  intros T (_ & _ & I & N). unfold host_taskSchedule. apply iso_guarded; [done|]. intros cp h1 Q1 ->.
  eapply iso_trans; [by apply quiet_iso|].
  apply iso_next; [frames|]. intros ev h2 Q2 _. apply iso_next; [frames|]. intros [] h3 Q3 _.
  apply iso_next; [frames|]. intros pl h4 Q4 _.
  assert (quiet h h4) as Q.
  { etransitivity; [exact Q1|]. etransitivity; [exact Q2|]. etransitivity; [exact Q3|exact Q4]. }
  apply iso_sched; [|intros; frames]. destruct Q as [_ _ -> _ _ _ _]. by apply Schedule_others.
Qed.

Lemma pipelineFor_val t k st h h' inv : tokenOf t -> pipelineFor env t k st h = (h', Next inv) ->
  ht_map (h_pipeCtx h') !! k = Some inv /\ pli_pluginName inv = p.
Proof.
  intros T E. unfold pipelineFor in E. apply bindM_inv in E as (? & h1 & _ & E).
  apply bindM_inv in E as (c & h2 & C & E). apply holderOf_val in C; [|done].
  apply bindM_inv in E as (ctxs & h3 & G & E). unfold gets in G. simplify_eq.
  destruct (getContext k (h_pipeCtx h3)) as [i|] eqn:L; [|by rewrite reply_done in E].
  apply bindM_inv in E as (? & h4 & R & E). unfold ret in E. simplify_eq. unfold require in R.
  case_bool_decide as O; [|by rewrite reply_done in R]. unfold ret in R. simplify_eq. split; [exact L|congruence].
Qed.
Lemma pipelineOutputWrite_iso t k a b c d e f st h : tokenOf t ->
  iso p h (pipelineOutputWrite env t k a b c d e f st h).1.
Proof.
  intros T. unfold pipelineOutputWrite. apply iso_next; [frames|]. intros inv h1 _ V.
  apply pipelineFor_val in V as [V O]; [|done].
  apply iso_next; [frames|]. intros body h2 Q2 _. apply iso_next; [frames|]. intros ct h3 Q3 _.
  apply iso_next; [frames|]. intros mj h4 Q4 _. apply iso_next; [frames|]. intros md h5 Q5 _.
  assert (quiet h1 h5) as [_ _ _ P _ _ _].
  { etransitivity; [exact Q2|]. etransitivity; [exact Q3|]. etransitivity; [exact Q4|exact Q5]. }
  apply iso_then; [|intros []; frames].
  split; simpl; auto using dbIso_refl, others_refl; try done.
  apply others_insert; [done|]. intros x E. rewrite P, V in E. by simplify_eq.
Qed.

(** C35: A call of an import with a token of plugin [p] leaves alone everything
    that other plugins own: their stored state, their event subscriptions, task
    schedules, pipeline-step contexts and registered hooks, the registry of
    installed plugins, the trusted keys, and the contexts of event and task
    calls.  (New handles are fresh as long as fewer than 2^64 - 1 were given
    out.  Requests and hook contexts are not protected: any plugin with the
    capability can answer or modify them by handle.) *)
Theorem import_isolates_plugins (i : importSpec) (h : host) :
  Instantiate env i -> tokenOf (im_token i) -> roomy h -> dbOk (h_db h) ->
  let h' := (im_run i h).1 in
  (forall q k, q <> p -> stateOf (h_db h') q k = stateOf (h_db h) q k) /\
  db_registry <$> h_db h' = db_registry <$> h_db h /\ db_keys <$> h_db h' = db_keys <$> h_db h /\
  others es_pluginName p (ix_items (h_events h)) (ix_items (h_events h')) /\
  others tsc_pluginName p (ix_items (tr_index (h_sched h).2)) (ix_items (tr_index (h_sched h').2)) /\
  others pli_pluginName p (ht_map (h_pipeCtx h)) (ht_map (h_pipeCtx h')) /\
  (forall x, hr_PluginName x <> p -> x ∈ hk_hooks (h_hooks h') <-> x ∈ hk_hooks (h_hooks h)) /\
  h_eventCtx h' = h_eventCtx h /\ h_taskCtx h' = h_taskCtx h.
Proof.
  intros I T Rm D. cut (iso p h (im_run i h).1).
  { intros [Db E S P K [C1 C2]]. destruct (Db D) as (_ & St & R & Ky). by split_and!. }
  destruct I; cbn [im_token im_run] in *;
    try (by apply eventUnsubscribe_iso || apply taskUnschedule_iso || apply eventSubscribe_iso
         || apply taskSchedule_iso || apply pipelineOutputWrite_iso);
    match goal with |- iso p h (?m h).1 => cut (keeps (iso p) m); [intros K; apply K|] end;
    open_import; rewrite ?Z.eqb_refl; repeat iso_step T.
  all: open_import; repeat iso_step T.
Qed.
End Isolation.

(** ** Examples on concrete libraries *)

Module HostDemo.
Import MapBolt MapNested.

(** A memory is its list of bytes. *)
Definition byteAt (m : list Z) (a : Z) : Z := if a <? 0 then 0 else nth (Z.to_nat a) m 0.
Definition writeAt (m : list Z) (p : Z) (b : list Z) : option (list Z) :=
  if (0 <=? p) && (p + Z.of_nat (length b) <=? Z.of_nat (length m))
  then Some (take (Z.to_nat p) m ++ b ++ drop (Z.to_nat p + length b) m) else None.
#[export] Instance listMemory : GuestMemory := {
  gmem := list Z;
  mSize m := Z.of_nat (length m);
  mByte := byteAt;
  mRead m p n := if p + n <=? Z.of_nat (length m) then Some (byteAt m <$> seqZ p n) else None;
  mWrite := writeAt
}.

Lemma writeAt_some m p b m' : writeAt m p b = Some m' ->
  0 <= p /\ p + Z.of_nat (length b) <= Z.of_nat (length m) /\
  m' = take (Z.to_nat p) m ++ b ++ drop (Z.to_nat p + length b) m.
Proof. unfold writeAt. destruct (_ && _) eqn:E; [|done]. intros. boolify. simplify_eq. auto with lia. Qed.

Lemma writeAt_ok m p b : 0 <= p ->
  (is_Some (writeAt m p b) <-> p + Z.of_nat (length b) <= Z.of_nat (length m)).
Proof.
  intros P. unfold writeAt. destruct (Z.leb_spec 0 p); [|lia]. cbn [andb].
  destruct (Z.leb_spec (p + Z.of_nat (length b)) (Z.of_nat (length m)));
    split; intros Q; first [done | by eexists | by destruct Q | lia].
Qed.

Lemma writeAt_out m p b m' a : writeAt m p b = Some m' ->
  a < p \/ p + Z.of_nat (length b) <= a -> byteAt m' a = byteAt m a.
Proof.
  intros W O. apply writeAt_some in W as (P & L & ->). unfold byteAt.
  destruct (Z.ltb_spec a 0); [done|]. destruct O.
  - rewrite !nth_lookup, lookup_app_l by (rewrite length_take; lia). by rewrite lookup_take_lt by lia.
  - rewrite !nth_lookup, lookup_app_r, length_take by (rewrite length_take; lia).
    rewrite lookup_app_r by lia. rewrite lookup_drop. do 2 f_equal. lia.
Qed.

#[export] Instance listMemory_laws : GuestMemoryLaws.
Proof.
  split; simpl; try done.
  - intros m p b m' W. apply writeAt_some in W as (P & L & ->).
    rewrite !length_app, length_take, length_drop. lia.
  - intros m p b P. by apply writeAt_ok.
  - intros m p b m' i x W E. apply writeAt_some in W as (P & L & ->). unfold byteAt.
    pose proof (lookup_lt_Some _ _ _ E). destruct (Z.ltb_spec (p + Z.of_nat i) 0); [lia|].
    replace (Z.to_nat (p + Z.of_nat i)) with (length (take (Z.to_nat p) m) + i)%nat
      by (rewrite length_take; lia).
    rewrite app_nth2_plus, app_nth1 by done. by apply nth_lookup_Some.
  - intros m p b m' a. apply writeAt_out.
Qed.

#[export] Instance noQuote : GoQuote := {| Quote s := s |}.
#[export] Instance noUrl : UrlLib := {| url_Parse _ := Err "url" |}.
#[export] Instance noJson : HostJson := {|
  unmarshalBatch _ := Err "json"; marshalResults _ := Ok [1]; unmarshalHeaders _ := Err "json";
  marshalObject _ := Ok [2]; marshalStruct _ := Ok [3]; marshalHits _ := Ok [4]; marshalFetch _ := Ok [5];
  unmarshalEvent _ := Err "json"; unmarshalPatch _ := Err "json"; unmarshalPolicyRequest _ := Err "json";
  unmarshalKeyRequest _ := Err "json"; unmarshalHookRequest _ := Err "json";
  marshalHookRecord _ := Ok [6]; b64Decode _ := Err "b64"; b64Encode _ := ""%string
|}.
End HostDemo.

Section HostExamples.
Import MapBolt MapNested HostDemo.
#[local] Existing Instance mapCron.

(** Token 7 is plugin "notes" with its own state; token 8 was revoked. *)
Definition demoCaps : CapabilityTable :=
  {[ 7 := mkCap "notes" 0 ["state:kv"; "event:subscribe"] 0 0 false;
     8 := mkCap "notes" 0 ["state:kv"] 0 0 true ]}%string.
Definition demoEnv : hostEnv := mkEnv (fun _ => 5) (fun _ => demoCaps) (fun _ => RaftApplies)
  (fun _ => ReadNoRaft) (fun _ => Some []) 7 None None None (fun _ _ _ _ _ => Ok tt)
  (fun _ _ _ _ _ _ => Err "net") true None None None true newTable (fun _ => Ok tt).
(** The bytes "k", "other:k" and room for results. *)
Definition demoMem : list Z := bytesOf "kother:k" ++ zeros 56.
Definition demoHost : host := mkHost 0 demoMem (Some emptyDB) newTable newTable newTable newTable newTable
  newIndex (Some NewScheduler, newTaskRegistry) newHookRegistry None [].

Definition demoPut : importSpec := mkImport "state.put" 7 (Some "state:kv"%string) 40 [(40, 4); (48, 8)]
  (statePut demoEnv 7 0 1 0 1 0 40 48).
Lemma demoPut_row : Instantiate demoEnv demoPut.
Proof. apply imp_statePut. Qed.

(** The value 107 is stored under "k", status 0 and version 1 are written. *)
Example demoPut_runs : let '(h, r) := im_run demoPut demoHost in
  r = Done /\ stateOf (h_db h) "notes" "k" = Some (mkEntry [107] 1) /\
  take 16 (drop 40 (h_mem h)) = [0; 0; 0; 0; 0; 0; 0; 0; 1; 0; 0; 0; 0; 0; 0; 0].
Proof. vm_compute. repeat split. Qed.

Lemma import_writes_stay_in_buffers_witness :
  byteAt (h_mem (im_run demoPut demoHost).1) 0 = 107 /\ byteAt (h_mem (im_run demoPut demoHost).1) 48 = 1.
Proof.
  split; [|vm_compute; reflexivity].
  destruct (import_writes_stay_in_buffers demoEnv demoPut demoHost) as [_ M];
    [exact demoPut_row| |vm_compute; reflexivity|].
  - intros p n I. unfold demoPut in I. cbn [im_outs] in I.
    repeat (apply elem_of_cons in I as [I|I]; [injection I as -> _; lia|]). by apply not_elem_of_nil in I.
  - etransitivity; [apply (M 0)|vm_compute; reflexivity].
    intros p n I. unfold demoPut in I. cbn [im_outs] in I.
    repeat (apply elem_of_cons in I as [I|I]; [injection I as -> _; lia|]). by apply not_elem_of_nil in I.
Defined.

Lemma import_isolates_plugins_witness :
  stateOf (h_db (im_run demoPut demoHost).1) "other" "k" = None /\
  is_Some (stateOf (h_db (im_run demoPut demoHost).1) "notes" "k").
Proof.
  split; [|vm_compute; by eexists].
  destruct (import_isolates_plugins demoEnv "notes" eq_refl demoPut demoHost) as [S _].
  - exact demoPut_row.
  - intros n c E. vm_compute in E. by injection E as <-.
  - split_and!; [apply newIndex_ok|done|apply newIndex_ok|done].
  - unfold dbOk, initialised. split_and!; by eexists.
  - rewrite S by done. vm_compute. reflexivity.
Defined.

(** With the revoked token the same call only writes status 1. *)
Lemma unauthorised_import_only_reports_witness :
  let i := mkImport "state.put" 8 (Some "state:kv"%string) 40 [(40, 4); (48, 8)]
             (statePut demoEnv 8 0 1 0 1 0 40 48) in
  im_run i demoHost = (refused 1 40 demoHost, Done) /\
  take 4 (drop 40 (h_mem (refused 1 40 demoHost))) = [1; 0; 0; 0].
Proof.
  intros i. split; [|vm_compute; reflexivity].
  apply (unauthorised_import_only_reports demoEnv i demoHost "state:kv");
    [apply imp_statePut|reflexivity|vm_compute; discriminate].
Defined.

(** The key "other:k" names another plugin. *)
Lemma cross_plugin_read_needs_grant_witness :
  stateGet demoEnv 7 1 7 16 8 40 44 48 demoHost = (refused 3 40 demoHost, Done).
Proof.
  apply (cross_plugin_read_needs_grant demoEnv 7 1 7 16 8 40 44 48 demoHost (bytesOf "other:k")
    (mkCap "notes" 0 ["state:kv"; "event:subscribe"] 0 0 false)%string "other" "k");
    try (vm_compute; reflexivity).
  intros [A _]. vm_compute in A. discriminate A.
Defined.

(** A plugin's own keys of the form "name:rest" can be written but not read:
    state.put stores the key as it is, state.get takes the prefix for a plugin. *)
Example own_key_with_colon_unreadable :
  let h := (statePut demoEnv 7 1 7 0 1 0 40 48 demoHost).1 in
  stateOf (h_db h) "notes" "other:k" = Some (mkEntry [107] 1) /\
  take 4 (drop 40 (h_mem (stateGet demoEnv 7 1 7 16 8 40 44 48 h).1)) = [1; 0; 0; 0].
Proof. split; vm_compute; reflexivity. Qed.
End HostExamples.

(** ** Lengths in units of four bytes wrap *)

Lemma decodeFloats_short n b : 2 ^ 30 <= n < 2 ^ 32 -> Z.of_nat (length b) = wrapU32 (n * 4) ->
  decodeFloats n b = None.
Proof.
  intros N L. unfold decodeFloats. apply eq_None_not_Some. intros [v E]. apply mapM_Some_1 in E.
  set (i := n mod 2 ^ 30). pose proof (Z.mod_pos_bound n (2 ^ 30) ltac:(lia)) as B. fold i in B.
  assert (wrapU32 (n * 4) = i * 4) as W.
  { unfold wrapU32, wrapU. change (2 ^ 32) with (2 ^ 30 * 4). by rewrite Z.mul_mod_distr_r. }
  assert (seqZ 0 n !! Z.to_nat i = Some i) as S by (apply lookup_seqZ; lia).
  destruct (Forall2_lookup_l _ _ _ _ _ E S) as (x & _ & F). unfold float32At in F.
  replace (wrapU32 (i * 4)) with (i * 4) in F by (unfold wrapU32; rewrite wrapU_id; lia).
  destruct (Z.leb_spec (i * 4 + 4) (Z.of_nat (length b))); [lia|done].
Qed.

Lemma decodeFloats_ok n b : 0 <= n < 2 ^ 30 -> Z.of_nat (length b) = wrapU32 (n * 4) ->
  is_Some (decodeFloats n b).
Proof.
  intros N L. unfold wrapU32 in L. rewrite wrapU_id in L by lia. apply mapM_is_Some, Forall_forall.
  intros i I. apply elem_of_seqZ in I. unfold float32At.
  assert (wrapU32 (i * 4) = i * 4) as W by (apply wrapU_id; lia). cbn beta. unfold compose. rewrite W.
  destruct (Z.leb_spec (i * 4 + 4) (Z.of_nat (length b))); [by eexists|lia].
Qed.
