(* ===== verification/PluginInvoke.v ===== *)
(** * Calling into plugins (internal/pluginloader/hooks.go, loader.go, events.go,
      scheduler.go, pipeline.go, sse.go)

    Each way of calling a plugin finds its holder, stores a context under a
    fresh handle, borrows an instance, runs an entry point with the handle, and
    turns what the plugin left in the context into the result.  The context is
    released on every path.  The run of the entry point is an argument: any
    change of the host's state (as the plugin's imports make it) and a status
    or an error. *)

From S2P Require Import Prelude GoStrings Bolt GoFloat GoJson PluginFsm.
From S2P Require Import PluginTrust PluginManifest PluginNet PluginRegistry.
From S2P Require Import SystemScheduler SystemSchedulerTheorems PluginCalls PluginHost.
From S2P Require Import PluginHostTheorems.
From Stdlib Require Import Ascii String.
From stdpp Require Import base list.

#[local] Open Scope Z_scope.

(** gRPC results. *)
Inductive rpcCode := InvalidArgument | NotFound | Unavailable | ResourceExhausted | Internal.
Inductive rpc (A : Type) := RpcOk (a : A) | RpcErr (code : rpcCode) (msg : string) | RpcPanic (w : string).
Arguments RpcOk {A}.
Arguments RpcErr {A}.
Arguments RpcPanic {A}.

(** What the loader knows of an installed plugin. *)
Record pluginInfo := mkInfo { pi_trustTier : Z; pi_reloading : bool }.

Record InvokeHookRequest := mkHookInvokeReq {
  ihq_PluginName : string; ihq_Handler : string; ihq_Context : option HookContext
}.
Record InvokeRouteRequest := mkRouteReq {
  irq_PluginName : string; irq_Method : string; irq_Path : string;
  irq_Headers : list (string * string); irq_Body : bytes; irq_OriginalUser : string
}.
Record InvokeRouteResponse := mkRouteResp {
  irr_StatusCode : Z; irr_Headers : list (string * string); irr_Body : bytes; irr_ErrorMessage : string
}.
Record ObjectInput := mkObjectInput {
  oi_Key : string; oi_Bucket : string; oi_ContentType : string; oi_UserMetadata : headerMap;
  oi_Content : option (res bytes)      (** what reading the content gives; [None] for nil *)
}.
Record ObjectOutput := mkObjectOutput {
  oo_Key : string; oo_Content : bytes; oo_Size : Z; oo_ContentType : string; oo_Metadata : headerMap
}.
Record ProcessResult := mkProcess { prs_UpdatedMetadata : gmap string string; prs_Outputs : list ObjectOutput }.

Section Invoke.
Context `{BoltNested} `{GuestMemory} `{Cron} `{GoQuote}.
(** The installed plugins, and the outcome of [pool.Borrow] for this call. *)
Context (plugins : string -> option pluginInfo) (borrow : res unit).

(** [inst.CallEntry] with the context's handle. *)
Definition entryPoint : Type := Z -> host -> host * res Z.

Definition set_eventCtx c (h : host) := mkHost (h_moment h) (h_mem h) (h_db h) (h_requests h) (h_hookCtx h)
  c (h_taskCtx h) (h_pipeCtx h) (h_events h) (h_sched h) (h_hooks h) (h_fetcher h) (h_calls h).
Definition set_taskCtx c (h : host) := mkHost (h_moment h) (h_mem h) (h_db h) (h_requests h) (h_hookCtx h)
  (h_eventCtx h) c (h_pipeCtx h) (h_events h) (h_sched h) (h_hooks h) (h_fetcher h) (h_calls h).

(** Store a context, borrow, run, read the context back, release it. *)
Definition withContext {C} (table : host -> handleTable C) (put : handleTable C -> host -> host)
    (ctx : C) (run : entryPoint) (h : host) : host * (C * res Z + string) :=
  let '(t, handle) := allocate ctx (table h) in
  let h := put t h in
  match borrow with
  | Ok _ =>
    let '(h, status) := run handle h in
    let ctx := default ctx (getContext handle (table h)) in
    (put (releaseContext handle (table h)) h, inl (ctx, status))
  | Err e => (put (releaseContext handle (table h)) h, inr e)
  | Panic e => (put (releaseContext handle (table h)) h, inr e)
  end.

Definition notInstalled (name : string) : string := "plugin " +:+ Quote name +:+ " not installed".

Definition InvokeHook (req : option InvokeHookRequest) (run : entryPoint) (h : host)
  : host * rpc InvokeHookResponse :=
  match req with
  | None => (h, RpcErr InvalidArgument "request is nil")
  | Some req =>
    if bool_decide (ihq_PluginName req = ""%string)
    then (h, RpcErr InvalidArgument "plugin_name is required")
    else if bool_decide (ihq_Handler req = ""%string)
    then (h, RpcErr InvalidArgument "handler is required")
    else
      match plugins (ihq_PluginName req) with
      | None => (h, RpcErr NotFound (notInstalled (ihq_PluginName req)))
      | Some holder =>
        if pi_reloading holder
        then (h, RpcErr Unavailable ("plugin " +:+ Quote (ihq_PluginName req) +:+ " is reloading"))
        else
          let inv := newHookInv (ihq_PluginName req) (ihq_Handler req) (cloneHookContext (ihq_Context req)) in
          match withContext h_hookCtx set_hookCtx inv run h with
          | (h, inr e) => (h, RpcErr ResourceExhausted ("failed to borrow plugin instance: " +:+ e))
          | (h, inl (inv, Err e)) => (h, RpcErr Internal ("plugin on_hook failed: " +:+ e))
          | (h, inl (inv, Panic w)) => (h, RpcPanic w)
          | (h, inl (inv, Ok statusCode)) =>
            (h, match hookOutcome statusCode (pi_trustTier holder) (ihq_Context req) inv with
                | Ok resp => RpcOk resp
                | Err e => RpcErr Internal e
                | Panic w => RpcPanic w
                end)
          end
      end
  end.

Definition InvokeRoute (req : option InvokeRouteRequest) (run : entryPoint) (h : host)
  : host * rpc InvokeRouteResponse :=
  match req with
  | None => (h, RpcErr InvalidArgument "request is nil")
  | Some req =>
    if bool_decide (irq_PluginName req = ""%string)
    then (h, RpcErr InvalidArgument "plugin_name is required")
    else
      match plugins (irq_PluginName req) with
      | None => (h, RpcErr NotFound (notInstalled (irq_PluginName req)))
      | Some holder =>
        if pi_reloading holder
        then (h, RpcErr Unavailable ("plugin " +:+ Quote (irq_PluginName req) +:+ " is reloading"))
        else
          let reqCtx := mkRequest (irq_Method req) (irq_Path req) (irq_Headers req) (irq_Body req)
                          (irq_OriginalUser req) 0 [] [] false in
          match withContext h_requests set_requests reqCtx run h with
          | (h, inr e) => (h, RpcErr ResourceExhausted ("failed to borrow plugin instance: " +:+ e))
          | (h, inl (_, Err e)) => (h, RpcErr Internal ("plugin on_request failed: " +:+ e))
          | (h, inl (_, Panic w)) => (h, RpcPanic w)
          | (h, inl (reqCtx, Ok _)) =>
            (h, if rq_respWritten reqCtx
                then RpcOk (mkRouteResp (wrapS 32 (rq_respStatus reqCtx)) (rq_respHeaders reqCtx)
                       (rq_respBody reqCtx)
                       (if 500 <=? rq_respStatus reqCtx then "plugin returned error status" else ""))
                else RpcErr Internal "plugin did not write a response")
          end
      end
  end.

(** [io.ReadAll(io.LimitReader(input.Content, 64<<20))]. *)
Definition stepBodyLimit : Z := 67108864.
Definition readStepBody (content : option (res bytes)) : res bytes :=
  match content with
  | None => Ok []
  | Some r =>
    b ← wrapErr "failed to read pipeline input body" r;
    Ok (if Z.of_nat (length b) <=? stepBodyLimit then b else take (Z.to_nat stepBodyLimit) b)
  end.

Definition InvokePipelineStep (pluginName stepName : string) (input : ObjectInput) (run : entryPoint)
    (h : host) : host * res ProcessResult :=
  match plugins pluginName with
  | None => (h, Err (notInstalled pluginName))
  | Some _ =>
    match readStepBody (oi_Content input) with
    | Err e => (h, Err e)
    | Panic w => (h, Panic w)
    | Ok body =>
      let inv := mkPipeInv pluginName stepName (oi_Key input) (oi_Bucket input) (oi_ContentType input)
                   (oi_UserMetadata input) body [] "" None in
      match withContext h_pipeCtx set_pipeCtx inv run h with
      | (h, inr e) => (h, Err ("failed to borrow plugin instance: " +:+ e))
      | (h, inl (_, Err e)) => (h, Err ("pipeline step " +:+ Quote stepName +:+ " failed: " +:+ e))
      | (h, inl (_, Panic w)) => (h, Panic w)
      | (h, inl (inv, Ok _)) =>
        (h, Ok (mkProcess (default ∅ (pli_outputMetadata inv))
                 (if bool_decide (pli_outputBody inv = []) then []
                  else [mkObjectOutput (oi_Key input) (pli_outputBody inv)
                          (Z.of_nat (length (pli_outputBody inv))) (pli_outputContentType inv)
                          (pli_outputMetadata inv)])))
      end
    end
  end.

(** Errors of an event handler are only logged. *)
Definition invokePluginEvent (sub : eventSub) (payload : bytes) (run : eventSub -> entryPoint) (h : host)
  : host :=
  match plugins (es_pluginName sub) with
  | None => h
  | Some _ => (withContext h_eventCtx set_eventCtx (mkEventInv (es_pluginName sub) payload) (run sub) h).1
  end.
(** [payload] is what [json.Marshal(ev)] gives. *)
Definition dispatchEventToPlugins (eventType : string) (payload : res bytes)
    (run : eventSub -> entryPoint) (h : host) : host :=
  match ev_matches eventType (h_events h), payload with
  | [], _ => h
  | subs, Ok payload => fold_left (fun h sub => invokePluginEvent sub payload run h) subs h
  | _, _ => h
  end.

Definition invokePluginTask (now : Time) (handle : Z) (run : entryPoint) (h : host) : host * res unit :=
  match tr_lookup handle (h_sched h).2 with
  | None => (h, Err ("task schedule " +:+ pretty handle +:+ " not found"))
  | Some sub =>
    match plugins (tsc_pluginName sub) with
    | None => (h, Err (notInstalled (tsc_pluginName sub)))
    | Some _ =>
      let inv := mkTaskInv (tsc_pluginName sub) (tsc_taskType sub) (tsc_payload sub) now in
      match withContext h_taskCtx set_taskCtx inv run h with
      | (h, inr e) => (h, Err ("failed to borrow instance: " +:+ e))
      | (h, inl (_, Err e)) =>
        (h, Err ("plugin " +:+ tsc_pluginName sub +:+ " handler " +:+ tsc_handler sub +:+ " failed: " +:+ e))
      | (h, inl (_, Panic w)) => (h, Panic w)
      | (h, inl (_, Ok _)) => (h, Ok tt)
      end
    end
  end.
End Invoke.

(** ** Calling into plugins: hook answers by tier, contexts, pipeline bodies *)

Section Proofs.
Context `{!Bolt, !BoltNested, !GoQuote, !GuestMemory, !Cron}.
Context (plugins : string -> option pluginInfo) (borrow : res unit).

(** The abort answer a plugin left in its context, as its tier may give it. *)
Definition allowedAbort (tier : Z) (inv : hookInvocation) (resp : InvokeHookResponse) : Prop :=
  ihr_Headers resp = hi_abortHeaders inv /\
  if bool_decide (tier < TierCore)
  then ihr_Body resp = [] /\
       ihr_StatusCode resp = (if bool_decide (hi_abortBody inv <> []) && (hi_abortStatus inv =? 0)
                              then 403 else hi_abortStatus inv)
  else ihr_Body resp = hi_abortBody inv /\ ihr_StatusCode resp = hi_abortStatus inv.

Lemma hookOutcome_spec code tier ctx inv resp : hookOutcome code tier ctx inv = Ok resp ->
  0 <= code <= 2 /\ is_Some ctx /\
  (ihr_Action resp = HOOK_ACTION_ABORT <-> code = 1 \/ hi_shortCircuit inv = true) /\
  (ihr_Action resp = HOOK_ACTION_ABORT -> allowedAbort tier inv resp) /\
  (ihr_Action resp = HOOK_ACTION_MODIFY -> ihr_ModifiedContext resp =
     match hi_modified inv with Some m => Some m | None => cloneHookContext ctx end).
Proof.
  unfold hookOutcome. intros E. apply bind_Ok in E as (r & R & E).
  destruct ctx as [c|]; [|done]. injection E as <-.
  assert (0 <= code <= 2) as C.
  { destruct (Z.eqb_spec code 0), (Z.eqb_spec code 1), (Z.eqb_spec code 2); try lia. done. }
  split; [done|]. split; [by eexists|].
  assert (forall m, let a := sanitizeHookAbortResponse (mkHookResp HOOK_ACTION_ABORT (hi_abortStatus inv)
    (hi_abortHeaders inv) (hi_abortBody inv) m) tier in
    ihr_Action a = HOOK_ACTION_ABORT /\ allowedAbort tier inv a) as S.
  { intros m. unfold sanitizeHookAbortResponse, allowedAbort. simpl.
    destruct (Z.ltb_spec tier TierCore), (Z.eqb_spec (hi_abortStatus inv) 0);
      repeat case_bool_decide; simpl; try done; try lia; naive_solver. }
  destruct (hi_shortCircuit inv) eqn:SC.
  { destruct (S (ihr_ModifiedContext r)) as [A1 A2]. rewrite A1. split; [naive_solver|]. by split. }
  destruct (Z.eqb_spec code 1) as [->|C1].
  { simpl in R. injection R as <-. destruct (S None) as [A1 A2]. rewrite A1. split; [naive_solver|]. by split. }
  assert (code = 0 \/ code = 2) as [-> | ->] by lia; simpl in R; injection R as <-.
  - destruct (hi_modified inv); simpl; split; naive_solver.
  - simpl. split; naive_solver.
Qed.

Lemma withContext_released {C} (table : host -> handleTable C) put ctx run h h' r :
  (forall t h, table (put t h) = t) -> withContext borrow table put ctx run h = (h', r) ->
  getContext (bump (ht_next (table h))) (table h') = None.
Proof.
  intros P. unfold withContext, allocate. intros E.
  destruct borrow as [[]| |]; [destruct (run _ _) as [h1 s]|..]; injection E as <- _;
    unfold getContext, releaseContext; rewrite P; cbn [ht_map]; by rewrite lookup_delete_eq.
Qed.

(** Whatever a plugin's entry point does, when InvokeHook answers ABORT the
    entry point returned 1 or short-circuited, and a plugin below the core tier
    cannot forge a response body: it answers with an empty body, with its own
    headers, and with its own status or, for a body without status, 403.  A
    MODIFY answer carries the context as the plugin modified it.  In every case
    the call's context is released afterwards. *)
Theorem lower_tier_cannot_forge_body (req : InvokeHookRequest) (run : entryPoint) (h h' : host)
    (holder : pluginInfo) (resp : InvokeHookResponse) :
  plugins (ihq_PluginName req) = Some holder ->
  InvokeHook plugins borrow (Some req) run h = (h', RpcOk resp) ->
  getContext (bump (ht_next (h_hookCtx h))) (h_hookCtx h') = None /\
  exists inv code, 0 <= code <= 2 /\
    (ihr_Action resp = HOOK_ACTION_ABORT <-> code = 1 \/ hi_shortCircuit inv = true) /\
    (ihr_Action resp = HOOK_ACTION_ABORT -> allowedAbort (pi_trustTier holder) inv resp) /\
    (ihr_Action resp = HOOK_ACTION_MODIFY -> ihr_ModifiedContext resp =
       match hi_modified inv with Some m => Some m | None => cloneHookContext (ihq_Context req) end).
Proof.
  intros P E. unfold InvokeHook in E. rewrite P in E.
  case_bool_decide; [done|]. case_bool_decide; [done|]. destruct (pi_reloading holder); [done|].
  destruct (withContext _ _ _ _ _ _) as [h1 [[inv [code| |]]|]] eqn:W; try done.
  apply withContext_released in W; [|done].
  destruct (hookOutcome _ _ _ _) as [r| |] eqn:O; simplify_eq. split; [done|].
  apply hookOutcome_spec in O as (C & _ & A & B & M). by exists inv, code.
Qed.

(** A status of 0 with an empty body is not defaulted to 403. *)
Lemma empty_abort_keeps_status_zero tier :
  sanitizeHookAbortResponse (mkHookResp HOOK_ACTION_ABORT 0 None [] None) tier
  = mkHookResp HOOK_ACTION_ABORT 0 None [] None.
Proof. reflexivity. Qed.

(** A request without a context makes InvokeHook fault after the plugin ran. *)
Lemma nil_context_faults plugin handler run h h' inv code holder :
  plugin <> ""%string -> handler <> ""%string -> plugins plugin = Some holder ->
  pi_reloading holder = false -> 0 <= code <= 2 ->
  withContext borrow h_hookCtx set_hookCtx (newHookInv plugin handler None) run h = (h', inl (inv, Ok code)) ->
  InvokeHook plugins borrow (Some (mkHookInvokeReq plugin handler None)) run h
  = (h', RpcPanic "nil pointer dereference").
Proof.
  intros N1 N2 P R C W. unfold InvokeHook. cbn [ihq_PluginName ihq_Handler ihq_Context cloneHookContext].
  rewrite !bool_decide_eq_false_2, P, R, W by done. unfold hookOutcome.
  destruct (Z.eqb_spec code 0), (Z.eqb_spec code 1), (Z.eqb_spec code 2); try lia; done.
Qed.

#[local] Opaque stepBodyLimit.
(** An object larger than 64 MiB reaches a pipeline step cut off, without an
    error. *)
Lemma pipeline_input_truncated b : stepBodyLimit < Z.of_nat (length b) ->
  readStepBody (Some (Ok b)) = Ok (take (Z.to_nat stepBodyLimit) b).
Proof.
  intros L. unfold readStepBody. simpl. destruct (Z.leb_spec (Z.of_nat (length b)) stepBodyLimit); [lia|done].
Qed.
End Proofs.

Section InvokeExamples.
Import MapBolt MapNested HostDemo.
#[local] Existing Instance mapCron.

(** An untrusted plugin that short-circuits with a body and no status. *)
Definition forging : entryPoint := fun handle h =>
  match getContext handle (h_hookCtx h) with
  | Some inv => (set_hookCtx (setContext handle (with_abort 0 None [111; 107] false inv) (h_hookCtx h)) h, Ok 1)
  | None => (h, Err "no context")
  end.
Definition demoReq : InvokeHookRequest := mkHookInvokeReq "notes" "on_hook"
  (Some (mkHC "s3:GetObject" "before" "b" "k" "GET" None [] "ann" 0)).

Definition demoInvoke := InvokeHook (fun _ => Some (mkInfo 0 false)) (Ok tt) (Some demoReq) forging demoHost.
Lemma lower_tier_cannot_forge_body_witness :
  exists resp, demoInvoke.2 = RpcOk resp /\ ihr_Body resp = [] /\ ihr_StatusCode resp = 403.
Proof.
  assert (demoInvoke.2 = RpcOk (mkHookResp HOOK_ACTION_ABORT 403 None [] None)) as E
    by (vm_compute; reflexivity).
  destruct demoInvoke as [h' r] eqn:D. cbn [snd] in E. subst r. unfold demoInvoke in D.
  destruct (lower_tier_cannot_forge_body (fun _ => Some (mkInfo 0 false)) (Ok tt) demoReq forging demoHost
    h' (mkInfo 0 false) _ eq_refl D) as (_ & inv & code & _ & _ & A & _).
  destruct (A eq_refl) as [_ [B _]]. eexists. split; [reflexivity|]. split; [exact B|reflexivity].
Defined.
End InvokeExamples.
