(* ===== verification/Integrity.v ===== *)
(** * Checksums and scrubbing (internal/metadata/integrity.go, ComputeChecksum of store.go)

    CRC-32 (IEEE and Castagnoli) and CRC-64 (ECMA) as Go's packages compute
    them, bit by bit; SHA-256 is a parameter.  A [hash.Hash] is a state that
    bytes are written into, so the readers and writers that checksum what
    passes through them are functions on that state. *)

From S2P Require Import Prelude GoIO GoStrings.
From Stdlib Require Import Ascii String.
From stdpp Require Import base list strings.

#[local] Open Scope Z_scope.

(** ** hash/crc32 and hash/crc64 *)

(** A reflected CRC: its width and polynomial. *)
Record crcSpec := mkCrc { crc_width : Z; crc_poly : Z }.
Definition crcIEEE : crcSpec := mkCrc 32 0xedb88320.
Definition crcCastagnoli : crcSpec := mkCrc 32 0x82f63b78.
Definition crcECMA : crcSpec := mkCrc 64 0xc96c5795d7870f42.

Definition crcMask (c : crcSpec) : Z := Z.ones (crc_width c).
Definition crcBit (c : crcSpec) (v : Z) : Z :=
  if Z.odd v then Z.lxor (Z.shiftr v 1) (crc_poly c) else Z.shiftr v 1.
Definition crcByte (c : crcSpec) (v b : Z) : Z := Nat.iter 8 (crcBit c) (Z.lxor v b).
(** [crc32.Update(crc, tab, p)]. *)
Definition crcUpdate (c : crcSpec) (crc : Z) (p : bytes) : Z :=
  Z.lxor (fold_left (crcByte c) p (Z.lxor crc (crcMask c))) (crcMask c).
Definition crcSum (c : crcSpec) (p : bytes) : Z := crcUpdate c 0 p.

(** [fmt.Sprintf("%0nx", v)] for a value of at most [n] digits. *)
Fixpoint fmtHex (n : nat) (v : Z) : string :=
  match n with
  | O => ""
  | S n => String (hexDigit (Z.shiftr v (4 * Z.of_nat n) mod 16)) (fmtHex n v)
  end.
(** Big-endian bytes, as [Sum] appends them. *)
Fixpoint beBytes (n : nat) (v : Z) : bytes :=
  match n with
  | O => []
  | S n => Z.shiftr v (8 * Z.of_nat n) mod 256 :: beBytes n v
  end.

(** ** Checksums *)

Definition ChecksumType := string.
Definition ChecksumCRC32C : ChecksumType := "CRC32C".
Definition ChecksumCRC64 : ChecksumType := "CRC64".
Definition ChecksumSHA256 : ChecksumType := "SHA256".

Class Sha256 := { sha256_Sum256 : bytes -> bytes }.

(** The state of a [hash.Hash]. *)
Inductive hash :=
| HashCrc (c : crcSpec) (crc : Z)
| HashSha (written : bytes).

Record ChecksumResult := mkChecksum { cr_Type : ChecksumType; cr_Value : string; cr_Computed : Time }.
Record ScrubConfig := mkScrubConfig {
  sc_Enabled : bool; sc_Interval : Duration; sc_BatchSize : Z; sc_StorageTiers : list Z;
  sc_Parallelism : Z; sc_OnCorruption : bool
}.
Record ScrubState := mkScrubState {
  ss_InProgress : bool; ss_StartedAt : Time; ss_LastRunAt : Time; ss_LastCompletedAt : Time;
  ss_ObjectsChecked : Z; ss_ObjectsCorrupt : Z; ss_Errors : Z; ss_CurrentBucket : string;
  ss_CurrentKey : string
}.
Record IntegrityStats := mkIntegrityStats {
  is_ChecksPerformed : Z; is_ChecksFailed : Z; is_CorruptionsDetected : Z; is_CorruptionsRepaired : Z;
  is_LastScrubAt : Time
}.
Record IntegrityChecker := mkChecker {
  ic_enabled : bool; ic_defaultType : ChecksumType; ic_scrubState : ScrubState; ic_stats : IntegrityStats
}.

Definition defaultScrubConfig : ScrubConfig :=
  mkScrubConfig true (30 * 24 * 60 * Minute) 1000 [] 4 false.
Definition NewIntegrityChecker (config : option ScrubConfig) : IntegrityChecker :=
  mkChecker (sc_Enabled (default defaultScrubConfig config)) ChecksumCRC32C
    (mkScrubState false 0 0 0 0 0 0 "" "") (mkIntegrityStats 0 0 0 0 0).

Definition orDefault (d typ : ChecksumType) : ChecksumType :=
  if bool_decide (typ = ""%string) then d else typ.

Section Checksums.
Context `{Sha256}.

Definition hashWrite (h : hash) (p : bytes) : hash :=
  match h with
  | HashCrc c crc => HashCrc c (crcUpdate c crc p)
  | HashSha w => HashSha (w ++ p)
  end.
Definition hashSum (h : hash) : bytes :=
  match h with
  | HashCrc c crc => beBytes (Z.to_nat (crc_width c / 8)) crc
  | HashSha w => sha256_Sum256 w
  end.
Definition newHash (typ : ChecksumType) : hash :=
  if bool_decide (typ = ChecksumCRC32C) then HashCrc crcCastagnoli 0
  else if bool_decide (typ = ChecksumCRC64) then HashCrc crcECMA 0
  else if bool_decide (typ = ChecksumSHA256) then HashSha []
  else HashCrc crcIEEE 0.

(** The method of the checker. *)
Definition ComputeChecksum (ic : IntegrityChecker) (data : bytes) (typ : ChecksumType) : string :=
  let typ := orDefault (ic_defaultType ic) typ in
  if bool_decide (typ = ChecksumCRC32C) then fmtHex 8 (crcSum crcCastagnoli data)
  else if bool_decide (typ = ChecksumCRC64) then fmtHex 16 (crcSum crcECMA data)
  else if bool_decide (typ = ChecksumSHA256) then hexEncode (sha256_Sum256 data)
  else fmtHex 8 (crcSum crcIEEE data).

(** The function of store.go. *)
Definition storeChecksum (data : bytes) (checksumType : string) : string :=
  if bool_decide (checksumType = "CRC32C"%string) then fmtHex 8 (crcSum crcCastagnoli data)
  else if bool_decide (checksumType = "SHA256"%string) then hexEncode (sha256_Sum256 data)
  else fmtHex 8 (crcSum crcIEEE data).

Definition mismatch (expected computed : string) (typ : ChecksumType) : string :=
  "checksum mismatch: expected " +:+ expected +:+ ", computed " +:+ computed +:+ " (type: " +:+ typ +:+ ")".

Definition Verify (ic : IntegrityChecker) (data : bytes) (expected : string) (typ : ChecksumType)
  : bool * option string :=
  let typ := orDefault (ic_defaultType ic) typ in
  let computed := ComputeChecksum ic data typ in
  if bool_decide (computed = expected) then (true, None)
  else (false, Some (mismatch expected computed typ)).

(** *** Readers and writers *)

Record IntegrityReader := mkIntegrityReader {
  ir_reader : reader; ir_checksum : hash; ir_typ : ChecksumType
}.
Definition NewIntegrityReader (ic : IntegrityChecker) (r : reader) (typ : ChecksumType) : IntegrityReader :=
  let typ := orDefault (ic_defaultType ic) typ in mkIntegrityReader r (newHash typ) typ.
Definition ir_Read (ir : IntegrityReader) (n : nat) : bytes * option rerr * IntegrityReader :=
  let '(got, err, r) := Read (ir_reader ir) n in
  (got, err, mkIntegrityReader r
    (if (0 <? length got)%nat then hashWrite (ir_checksum ir) got else ir_checksum ir) (ir_typ ir)).
Definition ir_Result (now : Time) (ir : IntegrityReader) : ChecksumResult :=
  mkChecksum (ir_typ ir) (hexEncode (hashSum (ir_checksum ir))) now.

(** [io.MultiWriter(w, h)]: the hash sees what the writer took in full;
    [w p] is what the writer answers. *)
Record IntegrityWriter := mkIntegrityWriter { iw_checksum : hash; iw_typ : ChecksumType }.
Definition NewIntegrityWriter (typ : ChecksumType) : IntegrityWriter :=
  let typ := orDefault ChecksumCRC32C typ in mkIntegrityWriter (newHash typ) typ.
Definition iw_Write (w : bytes -> Z * option rerr) (p : bytes) (iw : IntegrityWriter)
  : IntegrityWriter * (Z * option rerr) :=
  match w p with
  | (n, Some e) => (iw, (n, Some e))
  | (n, None) =>
    if n =? Z.of_nat (length p)
    then (mkIntegrityWriter (hashWrite (iw_checksum iw) p) (iw_typ iw), (Z.of_nat (length p), None))
    else (iw, (n, Some (EFail "short write")))
  end.
Definition iw_Result (now : Time) (iw : IntegrityWriter) : ChecksumResult :=
  mkChecksum (iw_typ iw) (hexEncode (hashSum (iw_checksum iw))) now.

(** A reader that compares each piece it delivers with the expected value. *)
Record ValidatingReader := mkValidating {
  vr_reader : reader; vr_expected : string; vr_checksumType : ChecksumType
}.
Definition vr_Read (ic : IntegrityChecker) (vr : ValidatingReader) (n : nat)
  : bytes * option rerr * ValidatingReader :=
  let '(got, err, r) := Read (vr_reader vr) n in
  if (0 <? length got)%nat && negb (bool_decide (vr_expected vr = ""%string)) then
    let typ := orDefault ChecksumCRC32C (vr_checksumType vr) in
    let vr := mkValidating r (vr_expected vr) typ in
    let checksum := ComputeChecksum ic got typ in
    if bool_decide (checksum = vr_expected vr) then (got, err, vr)
    else (got, Some (EFail (mismatch (vr_expected vr) checksum typ)), vr)
  else (got, err, mkValidating r (vr_expected vr) (vr_checksumType vr)).

(** *** Scrubbing *)

Record ObjectInfo := mkObjectInfo {
  oi_Key : string; oi_StorageTier : Z; oi_Size : Z; oi_Checksum : string; oi_ChecksumType : ChecksumType
}.

Definition shouldScrubTier (config : ScrubConfig) (tier : Z) : bool :=
  bool_decide (sc_StorageTiers config = []) || existsb (Z.eqb tier) (sc_StorageTiers config).

(** [io.ReadFull(ir, buf)]. *)
Fixpoint ir_readLoop (fuel : nat) (ir : IntegrityReader) (n : nat) (got : nat)
  : nat * option rerr * IntegrityReader :=
  match fuel with
  | O => (got, None, ir)
  | S fuel =>
    if (n <=? got)%nat then (got, None, ir)
    else
      match ir_Read ir (n - got) with
      | (p, Some e, ir) => ((got + length p)%nat, Some e, ir)
      | (p, None, ir) => ir_readLoop fuel ir n (got + length p)
      end
  end.
Definition ir_ReadFull (ir : IntegrityReader) (n : nat) : option rerr * IntegrityReader :=
  match ir_readLoop (S n) ir n 0 with
  | (got, err, ir) =>
    if (n <=? got)%nat then (None, ir)
    else (match err with
          | Some EOF => if (0 <? got)%nat then Some ErrUnexpectedEOF else Some EOF
          | e => e
          end, ir)
  end.

Definition scrubBuf : nat := Z.to_nat 32768.
(** The loop of [scrubObject]; [Err] when a read fails.  Each round but the
    last consumes a byte, so the object's length and two more rounds suffice. *)
Fixpoint scrubLoop (fuel : nat) (ir : IntegrityReader) : option IntegrityReader :=
  match fuel with
  | O => None
  | S fuel =>
    match ir_ReadFull ir scrubBuf with
    | (Some EOF, ir) => Some ir
    | (None, ir) | (Some ErrUnexpectedEOF, ir) => scrubLoop fuel ir
    | (Some (EFail _), _) => None
    end
  end.

Definition set_key (k : string) (s : ScrubState) : ScrubState :=
  mkScrubState (ss_InProgress s) (ss_StartedAt s) (ss_LastRunAt s) (ss_LastCompletedAt s)
    (ss_ObjectsChecked s) (ss_ObjectsCorrupt s) (ss_Errors s) (ss_CurrentBucket s) k.
Definition addCounts (checked corrupt errors : Z) (s : ScrubState) : ScrubState :=
  mkScrubState (ss_InProgress s) (ss_StartedAt s) (ss_LastRunAt s) (ss_LastCompletedAt s)
    (wrap64 (ss_ObjectsChecked s + checked)) (wrap64 (ss_ObjectsCorrupt s + corrupt))
    (wrap64 (ss_Errors s + errors)) (ss_CurrentBucket s) (ss_CurrentKey s).
Definition addStats (performed detected : Z) (s : IntegrityStats) : IntegrityStats :=
  mkIntegrityStats (wrap64 (is_ChecksPerformed s + performed)) (is_ChecksFailed s)
    (wrap64 (is_CorruptionsDetected s + detected)) (is_CorruptionsRepaired s) (is_LastScrubAt s).
Definition with_scrub (s : ScrubState) (t : IntegrityStats) (ic : IntegrityChecker) : IntegrityChecker :=
  mkChecker (ic_enabled ic) (ic_defaultType ic) s t.

(** [scrubObject]: [content] is what [ReadObject] answers, always asked with
    the empty bucket name; [onCorruption] what the handler returns. *)
Definition scrubObject (config : ScrubConfig) (content : res reader) (onCorruption : option string)
    (obj : ObjectInfo) (now : Time) (ic : IntegrityChecker) : IntegrityChecker :=
  let s := set_key (oi_Key obj) (ic_scrubState ic) in
  match content with
  | Ok r =>
    match scrubLoop (S (S (length (rd_data r)))) (NewIntegrityReader ic r (oi_ChecksumType obj)) with
    | None => with_scrub (addCounts 0 0 1 s) (ic_stats ic) ic
    | Some ir =>
      if bool_decide (cr_Value (ir_Result now ir) = oi_Checksum obj)
      then with_scrub (addCounts 1 0 0 s) (addStats 1 0 (ic_stats ic)) ic
      else with_scrub (addCounts 1 1 (if sc_OnCorruption config
                                      then match onCorruption with Some _ => 1 | None => 0 end else 0) s)
             (addStats 1 1 (ic_stats ic)) ic
    end
  | _ => with_scrub (addCounts 0 0 1 s) (ic_stats ic) ic
  end.

(** What the lister answers in a round, and what each object yields when it is
    read in that round. *)
Record scrubRound := mkRound {
  rnd_list : res (list ObjectInfo);
  rnd_read : ObjectInfo -> res reader;
  rnd_handler : ObjectInfo -> option string
}.

(** One pass over a batch; the goroutines of a batch commute on the counters
    and are run in order. *)
Definition scrubBatch (config : ScrubConfig) (rnd : scrubRound) (now : Time) (objects : list ObjectInfo)
    (ic : IntegrityChecker) : IntegrityChecker :=
  fold_left (fun ic obj =>
    if shouldScrubTier config (oi_StorageTier obj)
    then scrubObject config (rnd_read rnd obj) (rnd_handler rnd obj) obj now ic else ic) objects ic.

(** [ScrubBucket] asks the lister again until it answers with nothing.  [None]
    while [fuel] rounds have not finished, or when the first send on an
    unbuffered semaphore blocks. *)
Fixpoint scrubRounds (fuel : nat) (config : ScrubConfig) (rounds : nat -> scrubRound) (n : nat)
    (now : Time) (ic : IntegrityChecker) : option (IntegrityChecker * res unit) :=
  match fuel with
  | O => None
  | S fuel =>
    match rnd_list (rounds n) with
    | Ok [] => Some (ic, Ok tt)
    | Ok objects =>
      if sc_Parallelism config <? 0 then Some (ic, Panic "makechan: size out of range")
      else if (sc_Parallelism config =? 0) &&
              existsb (fun o => shouldScrubTier config (oi_StorageTier o)) objects then None
      else scrubRounds fuel config rounds (S n) now (scrubBatch config (rounds n) now objects ic)
    | Err e => Some (with_scrub (addCounts 0 0 1 (ic_scrubState ic)) (ic_stats ic) ic,
                     Err ("failed to list objects: " +:+ e))
    | Panic w => Some (ic, Panic w)
    end
  end.
Definition startScrub (bucket : string) (now : Time) (s : ScrubState) : ScrubState :=
  mkScrubState true now (ss_LastRunAt s) (ss_LastCompletedAt s) (ss_ObjectsChecked s)
    (ss_ObjectsCorrupt s) (ss_Errors s) bucket (ss_CurrentKey s).
Definition endScrub (now : Time) (s : ScrubState) : ScrubState :=
  mkScrubState false (ss_StartedAt s) (ss_LastRunAt s) now (ss_ObjectsChecked s) (ss_ObjectsCorrupt s)
    (ss_Errors s) (ss_CurrentBucket s) (ss_CurrentKey s).
Definition ScrubBucket (fuel : nat) (config : ScrubConfig) (rounds : nat -> scrubRound)
    (bucket : string) (started completed : Time) (ic : IntegrityChecker)
  : option (IntegrityChecker * res unit) :=
  let ic := with_scrub (startScrub bucket started (ic_scrubState ic)) (ic_stats ic) ic in
  '(ic, r) ← scrubRounds fuel config rounds 0 started ic;
  Some (with_scrub (endScrub completed (ic_scrubState ic)) (ic_stats ic) ic, r).

(** A tick of [runScrubLoop]: it scrubs nothing. *)
Definition scrubTick (now : Time) (ic : IntegrityChecker) : IntegrityChecker :=
  let s := ic_scrubState ic in
  with_scrub (mkScrubState (ss_InProgress s) (ss_StartedAt s) now (ss_LastCompletedAt s)
    (ss_ObjectsChecked s) (ss_ObjectsCorrupt s) (ss_Errors s) (ss_CurrentBucket s) (ss_CurrentKey s))
    (ic_stats ic) ic.

(** *** The repair log *)

Record RepairRecord := mkRepair {
  rr_ID : string; rr_Bucket : string; rr_Key : string; rr_OldChecksum : string;
  rr_NewChecksum : string; rr_RepairedAt : Time; rr_Success : bool; rr_Error : string
}.
Record RepairHandler := mkRepairs { rh_repairLog : list RepairRecord; rh_maxRecords : Z }.
Definition NewRepairHandler (maxRecords : Z) : RepairHandler :=
  mkRepairs [] (if maxRecords <=? 0 then 10000 else maxRecords).
Definition RecordRepair (uuid : string) (now : Time) (r : RepairRecord) (rh : RepairHandler)
  : RepairHandler :=
  let r := mkRepair (if bool_decide (rr_ID r = ""%string) then uuid else rr_ID r) (rr_Bucket r) (rr_Key r)
             (rr_OldChecksum r) (rr_NewChecksum r) now (rr_Success r) (rr_Error r) in
  mkRepairs (boundedAppend (Z.to_nat (rh_maxRecords rh)) (rh_repairLog rh) r) (rh_maxRecords rh).
Definition GetRepairHistory (limit : Z) (rh : RepairHandler) : list RepairRecord :=
  let n := Z.of_nat (length (rh_repairLog rh)) in
  let limit := if (limit <=? 0) || (n <? limit) then n else limit in
  lastn (Z.to_nat limit) (rh_repairLog rh).
End Checksums.

Example crc_check : (crcSum crcIEEE (map Z.of_nat (seq 49 9)),
  crcSum crcCastagnoli (map Z.of_nat (seq 49 9)), crcSum crcECMA (map Z.of_nat (seq 49 9)))
  = (0xcbf43926, 0xe3069283, 0x995dc9bbdf1939fa).
Proof. vm_compute. reflexivity. Qed.
