(* ===== verification/IntegrityTheorems.v ===== *)
(** * Checksums that stream, and a scrub that does not end

    A CRC of pieces is the CRC of the whole, so the integrity reader agrees
    with [ComputeChecksum] however its source fragments; the object scrub is
    exact; the loop over a bucket does not end while the lister answers. *)

From S2P Require Import Prelude GoIO GoStrings Integrity.
From Stdlib Require Import Ascii String.
From stdpp Require Import base list strings.

#[local] Open Scope Z_scope.

(** ** CRCs *)

Lemma lxor_twice a m : Z.lxor (Z.lxor a m) m = a.
Proof. by rewrite Z.lxor_assoc, Z.lxor_nilpotent, Z.lxor_0_r. Qed.

Lemma crcUpdate_app c crc p q : crcUpdate c (crcUpdate c crc p) q = crcUpdate c crc (p ++ q).
Proof. unfold crcUpdate. by rewrite lxor_twice, fold_left_app. Qed.
Lemma crcUpdate_nil c crc : crcUpdate c crc [] = crc.
Proof. apply lxor_twice. Qed.

(** A value of the CRC's width, as a property of its bits. *)
Definition fits (w v : Z) : Prop := forall i, w <= i -> Z.testbit v i = false.

Lemma fits_bounds w v : 0 <= w -> 0 <= v < 2 ^ w -> fits w v.
Proof. intros W [V0 V]  i I. destruct (Z.eq_dec v 0) as [->|]; [apply Z.bits_0|].
  apply Z.bits_above_log2; [done|]. apply Z.log2_lt_pow2 in V; lia. Qed.
Lemma fits_lxor w a b : fits w a -> fits w b -> fits w (Z.lxor a b).
Proof. intros A B i I. by rewrite Z.lxor_spec, A, B. Qed.
Lemma fits_shiftr w v : 0 <= w -> fits w v -> fits w (Z.shiftr v 1).
Proof. intros W F i I. rewrite Z.shiftr_spec by lia. apply F. lia. Qed.

Lemma crcUpdate_fits c crc p : 0 <= crc_width c -> fits (crc_width c) (crc_poly c) ->
  Forall (fun b => fits (crc_width c) b) p -> fits (crc_width c) crc ->
  fits (crc_width c) (crcUpdate c crc p).
Proof.
  intros W P B F. set (w := crc_width c) in *.
  assert (fits w (crcMask c)) as M.
  { intros i I. unfold crcMask. apply Z.ones_spec_high. unfold w in *. lia. }
  unfold crcUpdate. apply fits_lxor; [|done].
  pose proof (fits_lxor w crc (crcMask c) F M) as F'. revert F'. generalize (Z.lxor crc (crcMask c)).
  clear F. induction B as [|b p Hb B IH]; intros v F; simpl; [done|]. apply IH.
  unfold crcByte. apply (fits_lxor w v b F) in Hb. revert Hb. generalize (Z.lxor v b).
  intros x X. generalize 8%nat. intros n. induction n as [|n IHn]; [done|]. cbn [Nat.iter nat_rect]. unfold crcBit at 1.
  destruct (Z.odd _); [apply fits_lxor; [|done]|]; by apply fits_shiftr.
Qed.

(** ** Digits *)

Lemma fmtHex_beBytes n v : fmtHex (2 * n) v = hexEncode (beBytes n v).
Proof.
  induction n as [|n IH]; [done|]. replace (2 * S n)%nat with (S (S (2 * n)))%nat by lia.
  cbn [fmtHex beBytes hexEncode]. rewrite IH.
  replace (8 * Z.of_nat n) with (4 * Z.of_nat (2 * n)) by lia.
  replace (4 * Z.of_nat (S (2 * n))) with (4 * Z.of_nat (2 * n) + 4) by lia.
  rewrite <- Z.shiftr_shiftr by lia. set (x := Z.shiftr v _). rewrite Z.shiftr_div_pow2 by lia.
  f_equal; [|f_equal]; f_equal; change (2 ^ 4) with 16.
  - zlia.
  - zlia.
Qed.

(** ** What has passed through a reader *)

Section Streams.
Context `{Sha256}.

Lemma hashWrite_app h p q : hashWrite (hashWrite h p) q = hashWrite h (p ++ q).
Proof. destruct h; simpl; [by rewrite crcUpdate_app|by rewrite app_assoc]. Qed.
Lemma hashWrite_nil h : hashWrite h [] = h.
Proof. destruct h; simpl; [by rewrite crcUpdate_nil|by rewrite app_nil_r]. Qed.

(** The digest of a fresh hash is the checker's checksum. *)
Lemma digest_is_checksum ic typ p :
  hexEncode (hashSum (hashWrite (newHash (orDefault (ic_defaultType ic) typ)) p))
  = ComputeChecksum ic p typ.
Proof.
  unfold newHash, ComputeChecksum.
  case_bool_decide; [symmetry; apply (fmtHex_beBytes 4)|].
  case_bool_decide; [symmetry; apply (fmtHex_beBytes 8)|].
  case_bool_decide; [done|symmetry; apply (fmtHex_beBytes 4)].
Qed.

Definition absorbs (ir ir' : IntegrityReader) (p : bytes) : Prop :=
  rd_data (ir_reader ir) = p ++ rd_data (ir_reader ir') /\
  rd_end (ir_reader ir') = rd_end (ir_reader ir) /\
  ir_checksum ir' = hashWrite (ir_checksum ir) p /\ ir_typ ir' = ir_typ ir.

Lemma absorbs_refl ir : absorbs ir ir [].
Proof. unfold absorbs. by rewrite hashWrite_nil. Qed.
Lemma absorbs_trans a b c p q : absorbs a b p -> absorbs b c q -> absorbs a c (p ++ q).
Proof.
  intros (D1 & E1 & C1 & T1) (D2 & E2 & C2 & T2). unfold absorbs.
  by rewrite D1, D2, E2, C2, C1, hashWrite_app, T2, app_assoc.
Qed.

Lemma ir_Read_absorbs ir n p err ir' : ir_Read ir n = (p, err, ir') -> absorbs ir ir' p /\
  (rd_data (ir_reader ir) = [] -> p = [] /\ err = Some (rd_end (ir_reader ir))) /\
  (rd_data (ir_reader ir) <> [] -> err = None /\ ((0 < n)%nat -> p <> []) /\ (length p <= n)%nat).
Proof.
  unfold ir_Read, Read, absorbs. destruct (rd_data (ir_reader ir)) as [|x d] eqn:D; intros E; simplify_eq; simpl.
  { rewrite D, hashWrite_nil. split_and!; done. }
  set (m := fragment (ir_reader ir) n).
  assert (m <= n)%nat as M. { unfold m, fragment. destruct (rd_frag _); lia. }
  split_and!; try done.
  - by rewrite take_drop.
  - destruct (Nat.ltb_spec 0 (length (take m (x :: d)))) as [|L]; [done|].
    destruct (take m (x :: d)); [by rewrite hashWrite_nil|simpl in L; lia].
  - intros _. split_and!; [done| |rewrite length_take; lia]. intros N.
    assert (0 < m)%nat. { unfold m, fragment. destruct (rd_frag _); lia. }
    by destruct m; [lia|].
Qed.

(** Successive reads with buffers of the given sizes. *)
Fixpoint ir_reads (ns : list nat) (ir : IntegrityReader) : bytes * IntegrityReader :=
  match ns with
  | [] => ([], ir)
  | n :: ns => let '(p, _, ir) := ir_Read ir n in let '(q, ir) := ir_reads ns ir in (p ++ q, ir)
  end.

Lemma ir_reads_absorbs ns ir : absorbs ir (ir_reads ns ir).2 (ir_reads ns ir).1.
Proof.
  revert ir. induction ns as [|n ns IH]; intros ir; simpl; [apply absorbs_refl|].
  destruct (ir_Read ir n) as [[p err] ir1] eqn:R. apply ir_Read_absorbs in R as [A _].
  specialize (IH ir1). destruct (ir_reads ns ir1) as [q ir2]. simpl in *. by eapply absorbs_trans.
Qed.

(** However the source fragments and whatever buffers the consumer uses,
    after any number of reads the integrity reader's digest is
    [ComputeChecksum] of exactly the bytes it has delivered, which are a
    prefix of the source. *)
Theorem integrity_reader_checksum (ic : IntegrityChecker) (r : reader) (typ : ChecksumType)
    (ns : list nat) (now : Time) :
  let '(got, ir) := ir_reads ns (NewIntegrityReader ic r typ) in
  cr_Value (ir_Result now ir) = ComputeChecksum ic got typ /\
  rd_data r = got ++ rd_data (ir_reader ir).
Proof.
  pose proof (ir_reads_absorbs ns (NewIntegrityReader ic r typ)) as (D & _ & C & _).
  destruct (ir_reads _ _) as [got ir]. simpl in *. rewrite C. split; [apply digest_is_checksum|done].
Qed.

(** ** The scrub of an object *)

Lemma ir_readLoop_ok fuel ir n got g err ir' : (n - got < fuel)%nat ->
  ir_readLoop fuel ir n got = (g, err, ir') ->
  exists p, absorbs ir ir' p /\ g = (got + length p)%nat /\
    (err = None -> (n <= g)%nat) /\
    (forall e, err = Some e -> e = rd_end (ir_reader ir) /\ rd_data (ir_reader ir') = []).
Proof.
  revert ir got. induction fuel as [|fuel IH]; intros ir got F; simpl; [lia|].
  destruct (Nat.leb_spec n got) as [L|L].
  { intros E. simplify_eq. exists []. simpl. split_and!; [apply absorbs_refl|lia|done|done]. }
  destruct (ir_Read ir (n - got)) as [[p e] ir1] eqn:R.
  apply ir_Read_absorbs in R as (A & Z & NZ).
  destruct (decide (rd_data (ir_reader ir) = [])) as [D|D].
  - destruct (Z D) as [-> ->]. intros E. simplify_eq. exists []. simpl. split_and!; [done|lia|done|].
    intros e [= <-]. destruct A as (A & _). rewrite D in A. by simpl in A.
  - destruct (NZ D) as (-> & P & LP). specialize (P ltac:(lia)). intros E.
    assert (0 < length p)%nat by (destruct p; simpl; [done|lia]).
    destruct (IH ir1 (got + length p)%nat ltac:(lia) E) as (q & B & -> & N & S).
    exists (p ++ q). rewrite length_app. split_and!; [by eapply absorbs_trans|lia| |].
    + intros X. specialize (N X). lia.
    + intros e X. destruct (S e X) as [-> ?]. split; [|done]. by destruct A as (_ & -> & _).
Qed.

Lemma ir_ReadFull_ok ir n err ir' : (0 < n)%nat -> rd_end (ir_reader ir) = EOF ->
  ir_ReadFull ir n = (err, ir') ->
  exists p, absorbs ir ir' p /\
    if decide (rd_data (ir_reader ir) = []) then p = [] /\ err = Some EOF
    else p <> [] /\ (err = None \/ err = Some ErrUnexpectedEOF).
Proof.
  intros N EOFs. unfold ir_ReadFull. destruct (ir_readLoop (S n) ir n 0) as [[g e] ir1] eqn:R.
  apply ir_readLoop_ok in R as (p & A & -> & Z & En); [|lia]. simpl in *. intros E.
  exists p. destruct A as (D & A). case_decide as D0.
  - rewrite D0 in D. symmetry in D. apply app_eq_nil in D as [-> D]. simpl in *.
    destruct (Nat.leb_spec n 0); [lia|]. destruct e as [e|]; [|specialize (Z eq_refl); lia].
    destruct (En e eq_refl) as [-> _]. rewrite EOFs in E. simplify_eq. unfold absorbs. by rewrite D0, D.
  - destruct p as [|b p].
    { destruct e as [e|]; [|specialize (Z eq_refl); simpl in *; lia].
      destruct (En e eq_refl) as [_ S']. by rewrite D, S' in D0. }
    simpl in *. destruct (Nat.leb_spec n (S (length p))); simplify_eq; [by split_and!; auto|].
    destruct e as [e|]; [|specialize (Z eq_refl); lia]. destruct (En e eq_refl) as [-> _].
    rewrite EOFs. split_and!; auto. unfold absorbs. done.
Qed.

Lemma scrubBuf_pos : (0 < scrubBuf)%nat.
Proof. unfold scrubBuf. lia. Qed.
Opaque scrubBuf.

Lemma scrubLoop_ok fuel ir : (length (rd_data (ir_reader ir)) < fuel)%nat ->
  rd_end (ir_reader ir) = EOF ->
  exists ir', scrubLoop fuel ir = Some ir' /\ absorbs ir ir' (rd_data (ir_reader ir)).
Proof.
  revert ir. induction fuel as [|fuel IH]; intros ir F EOFs; [lia|]. simpl.
  destruct (ir_ReadFull ir scrubBuf) as [err ir1] eqn:R.
  apply ir_ReadFull_ok in R as (p & A & C); [|apply scrubBuf_pos|done].
  case_decide as D.
  - destruct C as [-> ->]. exists ir1. by rewrite D.
  - destruct C as [P C]. assert (EOFs' : rd_end (ir_reader ir1) = EOF) by (destruct A as (_ & -> & _); done).
    assert (L : (length (rd_data (ir_reader ir1)) < fuel)%nat).
    { destruct A as (A & _). rewrite A, length_app in F. destruct p; [done|simpl in F; lia]. }
    destruct (IH ir1 L EOFs') as (ir2 & E & B).
    exists ir2. split; [by destruct C as [-> | ->]|].
    pose proof A as (D' & _). rewrite D'. by eapply absorbs_trans.
Qed.

(** A readable object is counted as checked, and as corrupt exactly when the
    checksum of its content differs from the recorded one. *)
Lemma scrub_object_exact config r onCorruption obj now ic : rd_end r = EOF -> onCorruption = None ->
  let good := bool_decide (ComputeChecksum ic (rd_data r) (oi_ChecksumType obj) = oi_Checksum obj) in
  let n := if good then 0 else 1 in
  scrubObject config (Ok r) onCorruption obj now ic
  = with_scrub (addCounts 1 n 0 (set_key (oi_Key obj) (ic_scrubState ic))) (addStats 1 n (ic_stats ic)) ic.
Proof.
  intros E ->. unfold scrubObject.
  destruct (scrubLoop_ok (S (S (length (rd_data r)))) (NewIntegrityReader ic r (oi_ChecksumType obj)))
    as (ir & -> & (_ & _ & C & _)); [simpl; lia|done|].
  unfold ir_Result. rewrite C. simpl cr_Value. simpl ir_checksum. simpl ir_reader.
  rewrite digest_is_checksum. case_bool_decide; [done|]. by destruct (sc_OnCorruption config).
Qed.

(** ** The scrub of a bucket *)

(** [ScrubBucket] asks its lister for the first batch again and again
    without telling it where to continue, so with a lister that keeps
    answering with a batch (every lister of a bucket that has objects) it never
    returns. *)
Theorem scrub_never_ends (config : ScrubConfig) (rounds : nat -> scrubRound) (bucket : string)
    (started completed : Time) (ic : IntegrityChecker) :
  0 <= sc_Parallelism config ->
  (forall n, exists o l, rnd_list (rounds n) = Ok (o :: l)) ->
  forall fuel, ScrubBucket fuel config rounds bucket started completed ic = None.
Proof.
  intros P L fuel. unfold ScrubBucket.
  assert (forall n ic, scrubRounds fuel config rounds n started ic = None) as E; [|by rewrite E].
  induction fuel as [|fuel IH]; intros n ic'; [done|]. cbn [scrubRounds].
  destruct (L n) as (o & l & ->). destruct (Z.ltb_spec (sc_Parallelism config) 0); [lia|].
  by destruct (_ && _).
Qed.
End Streams.

(** ** Examples *)

Module IntegrityDemo.
#[export] Instance demoSha : Sha256 := {| sha256_Sum256 b := b |}.
Definition checker : IntegrityChecker := NewIntegrityChecker None.
Definition digits : bytes := map Z.of_nat (seq 49 9).
Definition demoObj : ObjectInfo := mkObjectInfo "k" 0 9 "e3069283" "CRC32C".
Definition sameBatch : scrubRound :=
  mkRound (Ok [demoObj]) (fun _ => Ok (newReader digits)) (fun _ => None).

Example checksum_of_digits :
  (ComputeChecksum checker digits "", ComputeChecksum checker digits ChecksumCRC64,
   ComputeChecksum checker digits "other") = ("e3069283", "995dc9bbdf1939fa", "cbf43926")%string.
Proof. vm_compute. reflexivity. Qed.

(** The validating reader compares the checksum of each piece with that of the
    whole: a good object passes in one read and fails in two. *)
Definition validate (r : reader) : option rerr :=
  (vr_Read checker (mkValidating r "e3069283" "") 9).1.2.
Example validated_in_one_read : validate (newReader digits) = None.
Proof. vm_compute. reflexivity. Qed.
Example rejected_in_two_reads : exists msg, validate (mkReader digits EOF [5%nat]) = Some (EFail msg).
Proof. eexists. vm_compute. reflexivity. Qed.

(** An empty expected value or an unknown name of a checksum is accepted. *)
Example checker_types_differ :
  (storeChecksum digits "CRC64", ComputeChecksum checker digits "CRC64")
  = ("cbf43926", "995dc9bbdf1939fa")%string.
Proof. vm_compute. reflexivity. Qed.
End IntegrityDemo.

Import IntegrityDemo.
Lemma scrub_never_ends_witness :
  ScrubBucket 3 defaultScrubConfig (fun _ => IntegrityDemo.sameBatch) "b" 1 2 IntegrityDemo.checker = None.
Proof.
  apply (scrub_never_ends defaultScrubConfig (fun _ => IntegrityDemo.sameBatch) "b" 1 2 IntegrityDemo.checker);
    [vm_compute; discriminate|]. intros n. by eexists _, _.
Defined.
