(* ===== verification/MetadataStore.v ===== *)
(** * Metadata records (internal/metadata/store.go)

    The records of objects, buckets, multipart and resumable uploads, and what
    becomes of each through [json.Marshal] and [json.Unmarshal], which is what
    the store's buckets hold.  A map or slice of Go is [None] when nil. *)

From S2P Require Import Prelude GoStrings Bolt GoFloat GoJson Integrity.
From Stdlib Require Import Ascii String SpecFloat.
From stdpp Require Import base list strings gmap sorting pretty.

#[local] Open Scope Z_scope.

Notation StringMap := (option (gmap string string)).

Record ObjectMetadata := mkObject {
  om_Key : string; om_Bucket : string; om_Size : Z; om_ContentType : string;
  om_ContentEncoding : string; om_ETag : string; om_Checksum : string; om_ChecksumType : string;
  om_UserMetadata : StringMap; om_StorageTier : Z; om_CreatedAt : Time; om_ModifiedAt : Time;
  om_AccessCount : Z; om_LastAccessedAt : Time; om_Encrypted : bool; om_EncryptedDEK : bytes;
  om_Vectorized : bool; om_VectorID : string; om_VersionID : string; om_IsLatest : bool;
  om_PreviousVersion : string; om_ObjectStatus : string; om_TieringLocked : bool;
  om_LockedTier : Z; om_PipelineResults : StringMap; om_DeleteMarker : bool;
  om_RetainUntil : option Time; om_SSECUsed : bool; om_SSECKeySHA256 : string;
  om_SSECAlgorithm : string
}.

Record QuotaConfig := mkQuota { qc_MaxObjects : Z; qc_MaxSizeBytes : Z; qc_WarnThreshold : float64 }.
Record CORSConfiguration := mkCors {
  cors_AllowedOrigins : option (list string); cors_AllowedMethods : option (list string);
  cors_AllowedHeaders : option (list string); cors_MaxAgeSeconds : Z
}.
Record ExpirationRule := mkExpiration {
  ex_Days : Z; ex_Date : option Time; ex_ExpiredObjectDeleteMarker : bool
}.
Record TransitionRule := mkTransition { tn_Days : Z; tn_StorageClass : Z }.
Record LifecycleRule := mkLifecycle {
  lc_Enabled : bool; lc_Prefix : string; lc_Expiration : option ExpirationRule;
  lc_Transitions : list TransitionRule
}.
Record BucketEncryption := mkBucketEnc { be_Algorithm : string; be_KMSKeyID : string }.
Record ObjectLockConfig := mkObjectLock { ol_Enabled : bool; ol_Mode : string; ol_Days : Z }.

Record UploadPart := mkPart {
  up_PartNumber : Z; up_ETag : string; up_Size : Z; up_Checksum : string; up_UploadedAt : Time;
  up_ChecksumType : string
}.
Record MultipartUpload := mkUpload {
  mu_UploadID : string; mu_Bucket : string; mu_Key : string; mu_Initiated : Time;
  mu_ExpiresAt : Time; mu_UserID : string; mu_ContentType : string; mu_Metadata : StringMap;
  mu_Parts : list UploadPart; mu_TotalSize : Z; mu_Encrypted : bool; mu_Checksum : string
}.
Record ResumableSession := mkSession {
  rs_UploadID : string; rs_Bucket : string; rs_Key : string; rs_Offset : Z; rs_TotalSize : Z;
  rs_ContentType : string; rs_Metadata : StringMap; rs_CreatedAt : Time; rs_ExpiresAt : Time;
  rs_Checksum : string; rs_Finalized : bool
}.

(** Documents of type [map[string]any] and their way through encoding/json. *)
Class AnyJson := {
  anyDoc : Type;
  anyJson : anyDoc -> res anyDoc
}.

Section Types.
Context `{AnyJson}.

Record BucketInfo := mkBucketInfo {
  bi_Name : string; bi_CreatedAt : Time; bi_OwnerID : string; bi_OwnerName : string;
  bi_Region : string; bi_ACL : string; bi_Quota : option QuotaConfig; bi_Policy : option anyDoc;
  bi_Tags : StringMap; bi_CORS : option CORSConfiguration; bi_Lifecycle : option LifecycleRule;
  bi_Encryption : option BucketEncryption; bi_ObjectCount : Z; bi_TotalSize : Z;
  bi_Versioning : bool; bi_LoggingEnabled : bool; bi_ObjectLock : option ObjectLockConfig;
  bi_StorageClass : string
}.

(** The assignments of the store's operations. *)
Definition stampObject (version : string) (created modified : Time) (latest : bool) (m : ObjectMetadata)
  : ObjectMetadata :=
  mkObject (om_Key m) (om_Bucket m) (om_Size m) (om_ContentType m) (om_ContentEncoding m) (om_ETag m)
    (om_Checksum m) (om_ChecksumType m) (om_UserMetadata m) (om_StorageTier m) created modified
    (om_AccessCount m) (om_LastAccessedAt m) (om_Encrypted m) (om_EncryptedDEK m) (om_Vectorized m)
    (om_VectorID m) version latest (om_PreviousVersion m) (om_ObjectStatus m) (om_TieringLocked m)
    (om_LockedTier m) (om_PipelineResults m) (om_DeleteMarker m) (om_RetainUntil m) (om_SSECUsed m)
    (om_SSECKeySHA256 m) (om_SSECAlgorithm m).
Definition with_Name (name : string) (i : BucketInfo) : BucketInfo :=
  mkBucketInfo name (bi_CreatedAt i) (bi_OwnerID i) (bi_OwnerName i) (bi_Region i) (bi_ACL i) (bi_Quota i)
    (bi_Policy i) (bi_Tags i) (bi_CORS i) (bi_Lifecycle i) (bi_Encryption i) (bi_ObjectCount i)
    (bi_TotalSize i) (bi_Versioning i) (bi_LoggingEnabled i) (bi_ObjectLock i) (bi_StorageClass i).
Definition with_usage (count size : Z) (i : BucketInfo) : BucketInfo :=
  mkBucketInfo (bi_Name i) (bi_CreatedAt i) (bi_OwnerID i) (bi_OwnerName i) (bi_Region i) (bi_ACL i)
    (bi_Quota i) (bi_Policy i) (bi_Tags i) (bi_CORS i) (bi_Lifecycle i) (bi_Encryption i) count size
    (bi_Versioning i) (bi_LoggingEnabled i) (bi_ObjectLock i) (bi_StorageClass i).
Definition zeroBucketInfo : BucketInfo :=
  mkBucketInfo "" 0 "" "" "" "" None None None None None None 0 0 false false None "".
Definition with_BucketCreatedAt (t : Time) (i : BucketInfo) : BucketInfo :=
  mkBucketInfo (bi_Name i) t (bi_OwnerID i) (bi_OwnerName i) (bi_Region i) (bi_ACL i) (bi_Quota i)
    (bi_Policy i) (bi_Tags i) (bi_CORS i) (bi_Lifecycle i) (bi_Encryption i) (bi_ObjectCount i)
    (bi_TotalSize i) (bi_Versioning i) (bi_LoggingEnabled i) (bi_ObjectLock i) (bi_StorageClass i).
Definition stampUpload (id : string) (initiated expires : Time) (u : MultipartUpload) : MultipartUpload :=
  mkUpload id (mu_Bucket u) (mu_Key u) initiated expires (mu_UserID u) (mu_ContentType u) (mu_Metadata u)
    (mu_Parts u) (mu_TotalSize u) (mu_Encrypted u) (mu_Checksum u).

(** ** Through JSON *)

Definition timeError : string := "json: error calling MarshalJSON for type time.Time".
Definition marshalTimes {A} (ts : list Time) (a : A) : res A :=
  if forallb jsonTime ts then Ok a else Err timeError.

(** A map is written with its keys in order and read back entry by entry. *)
Definition jsonEntries (m : gmap string string) : gmap string string :=
  fold_left (fun acc kv => <[jsonString kv.1 := jsonString kv.2]> acc)
    (merge_sort key_le (map_to_list m)) ∅.
Definition jsonMap (m : StringMap) : StringMap := jsonEntries <$> m.
(** With omitempty an empty map is left out. *)
Definition jsonMapOmit (m : StringMap) : StringMap :=
  match m with Some m' => if bool_decide (m' = ∅) then None else Some (jsonEntries m') | None => None end.
Definition jsonStrings (l : option (list string)) : option (list string) := map jsonString <$> l.

Definition marshalObject (m : ObjectMetadata) : res ObjectMetadata :=
  marshalTimes (om_CreatedAt m :: om_ModifiedAt m :: om_LastAccessedAt m ::
                match om_RetainUntil m with Some t => [t] | None => [] end)
    (mkObject (jsonString (om_Key m)) (jsonString (om_Bucket m)) (om_Size m)
      (jsonString (om_ContentType m)) (jsonString (om_ContentEncoding m)) (jsonString (om_ETag m))
      (jsonString (om_Checksum m)) (jsonString (om_ChecksumType m)) (jsonMap (om_UserMetadata m))
      (om_StorageTier m) (om_CreatedAt m) (om_ModifiedAt m) (om_AccessCount m) (om_LastAccessedAt m)
      (om_Encrypted m) (om_EncryptedDEK m) (om_Vectorized m) (jsonString (om_VectorID m))
      (jsonString (om_VersionID m)) (om_IsLatest m) (jsonString (om_PreviousVersion m))
      (jsonString (om_ObjectStatus m)) (om_TieringLocked m) (om_LockedTier m)
      (jsonMapOmit (om_PipelineResults m)) (om_DeleteMarker m) (om_RetainUntil m) (om_SSECUsed m)
      (jsonString (om_SSECKeySHA256 m)) (jsonString (om_SSECAlgorithm m))).

Definition finiteFloat (f : float64) : bool :=
  match f with S754_zero _ | S754_finite _ _ _ => true | _ => false end.
Definition marshalQuota (q : QuotaConfig) : res QuotaConfig :=
  if finiteFloat (qc_WarnThreshold q) then Ok q else Err "json: unsupported value".
Definition marshalLifecycle (l : LifecycleRule) : res LifecycleRule :=
  marshalTimes (match lc_Expiration l with
                | Some e => match ex_Date e with Some t => [t] | None => [] end
                | None => []
                end)
    (mkLifecycle (lc_Enabled l) (jsonString (lc_Prefix l)) (lc_Expiration l) (lc_Transitions l)).

Definition marshalOption {A} (f : A -> res A) (x : option A) : res (option A) :=
  match x with Some a => Some <$> f a | None => Ok None end.

Definition marshalBucket (i : BucketInfo) : res BucketInfo :=
  created ← marshalTimes [bi_CreatedAt i] (bi_CreatedAt i);
  quota ← marshalOption marshalQuota (bi_Quota i);
  policy ← marshalOption anyJson (bi_Policy i);
  lifecycle ← marshalOption marshalLifecycle (bi_Lifecycle i);
  Ok (mkBucketInfo (jsonString (bi_Name i)) created (jsonString (bi_OwnerID i))
        (jsonString (bi_OwnerName i)) (jsonString (bi_Region i)) (jsonString (bi_ACL i)) quota policy
        (jsonMapOmit (bi_Tags i))
        ((fun c => mkCors (jsonStrings (cors_AllowedOrigins c)) (jsonStrings (cors_AllowedMethods c))
                     (jsonStrings (cors_AllowedHeaders c)) (cors_MaxAgeSeconds c)) <$> bi_CORS i)
        lifecycle
        ((fun e => mkBucketEnc (jsonString (be_Algorithm e)) (jsonString (be_KMSKeyID e)))
           <$> bi_Encryption i)
        (bi_ObjectCount i) (bi_TotalSize i) (bi_Versioning i) (bi_LoggingEnabled i)
        ((fun o => mkObjectLock (ol_Enabled o) (jsonString (ol_Mode o)) (ol_Days o)) <$> bi_ObjectLock i)
        (jsonString (bi_StorageClass i))).

Definition jsonPart (p : UploadPart) : UploadPart :=
  mkPart (up_PartNumber p) (jsonString (up_ETag p)) (up_Size p) (jsonString (up_Checksum p))
    (up_UploadedAt p) (jsonString (up_ChecksumType p)).
Definition marshalPart (p : UploadPart) : res UploadPart := marshalTimes [up_UploadedAt p] (jsonPart p).
Definition marshalUpload (u : MultipartUpload) : res MultipartUpload :=
  marshalTimes (mu_Initiated u :: mu_ExpiresAt u :: map up_UploadedAt (mu_Parts u))
    (mkUpload (jsonString (mu_UploadID u)) (jsonString (mu_Bucket u)) (jsonString (mu_Key u))
      (mu_Initiated u) (mu_ExpiresAt u) (jsonString (mu_UserID u)) (jsonString (mu_ContentType u))
      (jsonMap (mu_Metadata u)) (map jsonPart (mu_Parts u)) (mu_TotalSize u) (mu_Encrypted u)
      (jsonString (mu_Checksum u))).
Definition marshalSession (s : ResumableSession) : res ResumableSession :=
  marshalTimes [rs_CreatedAt s; rs_ExpiresAt s]
    (mkSession (jsonString (rs_UploadID s)) (jsonString (rs_Bucket s)) (jsonString (rs_Key s))
      (rs_Offset s) (rs_TotalSize s) (jsonString (rs_ContentType s)) (jsonMap (rs_Metadata s))
      (rs_CreatedAt s) (rs_ExpiresAt s) (jsonString (rs_Checksum s)) (rs_Finalized s)).

(** ** What survives *)

Lemma marshalTimes_ok {A} ts (a b : A) : marshalTimes ts a = Ok b -> b = a.
Proof. unfold marshalTimes. by case_match_goal; intros; simplify_eq. Qed.

Lemma marshalObject_keeps m m' : marshalObject m = Ok m' ->
  om_Size m' = om_Size m /\ om_IsLatest m' = om_IsLatest m /\ om_DeleteMarker m' = om_DeleteMarker m /\
  om_Encrypted m' = om_Encrypted m /\ om_EncryptedDEK m' = om_EncryptedDEK m /\
  om_VersionID m' = jsonString (om_VersionID m) /\ om_Key m' = jsonString (om_Key m).
Proof. intros E%marshalTimes_ok. by subst. Qed.

Lemma marshalOption_quota (q q' : option QuotaConfig) : marshalOption marshalQuota q = Ok q' -> q' = q.
Proof.
  destruct q as [q|]; simpl; [|by intros; simplify_eq]. unfold marshalQuota.
  destruct (finiteFloat _); simpl; by intros; simplify_eq.
Qed.

Lemma marshalBucket_keeps i i' : marshalBucket i = Ok i' ->
  bi_ObjectCount i' = bi_ObjectCount i /\ bi_TotalSize i' = bi_TotalSize i /\ bi_Quota i' = bi_Quota i /\
  bi_Versioning i' = bi_Versioning i.
Proof. unfold marshalBucket. intros E. bind_inv E. simplify_eq. simpl. by apply marshalOption_quota in E1. Qed.
End Types.

(** ** The metadata store (internal/metadata/store.go)

    Objects, their versions, buckets with usage counters and quotas, multipart
    uploads with their parts and resumable sessions, each in a bucket of a
    bbolt database.  A write runs in one transaction: an error leaves the
    database as it was.  The counters of [stats] are changed inside the
    transaction's function, so before the commit.  Fresh UUIDs, clock readings
    and the outcomes of the commit and of the log file are arguments. *)

Definition ErrKeyNotFound : string := "key not found".
Definition ErrBucketNotFound : string := "bucket not found".
Definition ErrBucketAlreadyExists : string := "bucket already exists".
Definition ErrInvalidKey : string := "invalid key".
Definition ErrQuotaExceeded : string := "quota exceeded".
Definition ErrVersionNotFound : string := "version not found".

Record WALEntry := mkWAL {
  wal_Type : string; wal_Bucket : string; wal_Key : string; wal_Data : bytes; wal_Timestamp : Time;
  wal_Checksum : Z
}.

(** The JSON text of a record and of the log buffer. *)
Class MetaText := {
  objectText : ObjectMetadata -> bytes;
  walText : list WALEntry -> bytes
}.

Record MetadataStats := mkStats {
  st_ObjectCount : Z; st_BucketCount : Z; st_TotalSize : Z; st_UploadCount : Z; st_WALEntries : Z;
  st_LastCompaction : Time
}.

Section Store.
Context `{Bolt} `{AnyJson} `{MetaText}.

(** The buckets of the database that the store uses. *)
Record MetaDB := mkMetaDB {
  mdb_buckets : bucket BucketInfo;
  mdb_objects : bucket ObjectMetadata;
  mdb_versions : bucket ObjectMetadata;
  mdb_uploads : bucket MultipartUpload;
  mdb_parts : bucket UploadPart;
  mdb_index : bucket ObjectMetadata;
  mdb_resumable : bucket ResumableSession
}.

Record MetadataStore := mkMetaStore {
  ms_db : MetaDB;
  ms_walBuf : list WALEntry;
  ms_walFile : bytes;
  ms_syncedUp : Z;
  ms_stats : MetadataStats
}.

Definition NewBoltDBMetadataStore (db : MetaDB) (walFile : bytes) : MetadataStore :=
  mkMetaStore db [] walFile 0 (mkStats 0 0 0 0 0 0).
Definition emptyMetaDB : MetaDB := mkMetaDB bEmpty bEmpty bEmpty bEmpty bEmpty bEmpty bEmpty.

Definition set_db (db : MetaDB) (s : MetadataStore) : MetadataStore :=
  mkMetaStore db (ms_walBuf s) (ms_walFile s) (ms_syncedUp s) (ms_stats s).
Definition set_stats (st : MetadataStats) (s : MetadataStore) : MetadataStore :=
  mkMetaStore (ms_db s) (ms_walBuf s) (ms_walFile s) (ms_syncedUp s) st.
Definition set_buckets b (d : MetaDB) : MetaDB := mkMetaDB b (mdb_objects d) (mdb_versions d)
  (mdb_uploads d) (mdb_parts d) (mdb_index d) (mdb_resumable d).
Definition set_objects b (d : MetaDB) : MetaDB := mkMetaDB (mdb_buckets d) b (mdb_versions d)
  (mdb_uploads d) (mdb_parts d) (mdb_index d) (mdb_resumable d).
Definition set_versions b (d : MetaDB) : MetaDB := mkMetaDB (mdb_buckets d) (mdb_objects d) b
  (mdb_uploads d) (mdb_parts d) (mdb_index d) (mdb_resumable d).
Definition set_uploads b (d : MetaDB) : MetaDB := mkMetaDB (mdb_buckets d) (mdb_objects d)
  (mdb_versions d) b (mdb_parts d) (mdb_index d) (mdb_resumable d).
Definition set_parts b (d : MetaDB) : MetaDB := mkMetaDB (mdb_buckets d) (mdb_objects d)
  (mdb_versions d) (mdb_uploads d) b (mdb_index d) (mdb_resumable d).
Definition set_index b (d : MetaDB) : MetaDB := mkMetaDB (mdb_buckets d) (mdb_objects d)
  (mdb_versions d) (mdb_uploads d) (mdb_parts d) b (mdb_resumable d).
Definition set_resumable b (d : MetaDB) : MetaDB := mkMetaDB (mdb_buckets d) (mdb_objects d)
  (mdb_versions d) (mdb_uploads d) (mdb_parts d) (mdb_index d) b.

Definition addObjects (count size : Z) (st : MetadataStats) : MetadataStats :=
  mkStats (wrap64 (st_ObjectCount st + count)) (st_BucketCount st) (wrap64 (st_TotalSize st + size))
    (st_UploadCount st) (st_WALEntries st) (st_LastCompaction st).
Definition addBuckets (n : Z) (st : MetadataStats) : MetadataStats :=
  mkStats (st_ObjectCount st) (wrap64 (st_BucketCount st + n)) (st_TotalSize st)
    (st_UploadCount st) (st_WALEntries st) (st_LastCompaction st).
Definition addUploads (n : Z) (st : MetadataStats) : MetadataStats :=
  mkStats (st_ObjectCount st) (st_BucketCount st) (st_TotalSize st)
    (wrap64 (st_UploadCount st + n)) (st_WALEntries st) (st_LastCompaction st).

(** [db.Update(f)]: [f] yields the new buckets and what it did to the
    counters; [commit] is the outcome of the commit. *)
Definition Update (commit : res unit) (f : MetaDB -> res (MetaDB * (MetadataStats -> MetadataStats)))
    (s : MetadataStore) : MetadataStore * res unit :=
  match f (ms_db s) with
  | Ok (db, count) =>
    let s := set_stats (count (ms_stats s)) s in
    match commit with
    | Ok _ => (set_db db s, Ok tt)
    | e => (s, e)
    end
  | Err e => (s, Err e)
  | Panic w => (s, Panic w)
  end.

(** ** The log *)

(** What writing the buffer to the log file comes to; [Write] can fail after
    some bytes, [Sync] after all of them. *)
Inductive flushIO :=
| flushOk
| openFailed (e : string)
| writeFailed (n : nat) (e : string)
| syncFailed (e : string).

Definition flushWAL (io : flushIO) (s : MetadataStore) : MetadataStore * res unit :=
  if bool_decide (ms_walBuf s = []) then (s, Ok tt)
  else
    let data := walText (ms_walBuf s) in
    let wrote d := mkMetaStore (ms_db s) (ms_walBuf s) (ms_walFile s ++ d) (ms_syncedUp s) (ms_stats s) in
    match io with
    | openFailed e => (s, Err e)
    | writeFailed n e => (wrote (take n data), Err e)
    | syncFailed e => (wrote data, Err e)
    | flushOk =>
      (mkMetaStore (ms_db s) [] (ms_walFile s ++ data) (wrap64 (ms_syncedUp s + 1)) (ms_stats s), Ok tt)
    end.

Definition writeWAL (io : flushIO) (entry : WALEntry) (s : MetadataStore) : MetadataStore * res unit :=
  let entry := mkWAL (wal_Type entry) (wal_Bucket entry) (wal_Key entry) (wal_Data entry)
                 (wal_Timestamp entry) (crcSum crcIEEE (wal_Data entry)) in
  let s := mkMetaStore (ms_db s) (ms_walBuf s ++ [entry]) (ms_walFile s) (ms_syncedUp s) (ms_stats s) in
  if 100 <=? Z.of_nat (length (ms_walBuf s)) then flushWAL io s else (s, Ok tt).

(** ** Objects *)

Definition objectKey (bucket key : string) : string := bucket +:+ "/" +:+ key.
Definition indexKey (bucket prefix : string) : string := bucket +:+ "/" +:+ prefix.

(** Up to and with the last slash. *)
Fixpoint extractPrefix (key : string) : string :=
  match key with
  | EmptyString => EmptyString
  | String c k =>
    match extractPrefix k with
    | EmptyString => if decide (c = slash) then String c EmptyString else EmptyString
    | p => String c p
    end
  end.

Definition exceeds (info : BucketInfo) : bool :=
  match bi_Quota info with
  | Some q => ((0 <? qc_MaxObjects q) && (qc_MaxObjects q <? bi_ObjectCount info)) ||
              ((0 <? qc_MaxSizeBytes q) && (qc_MaxSizeBytes q <? bi_TotalSize info))
  | None => false
  end.

Definition marshalInfo (info : BucketInfo) : res BucketInfo :=
  wrapErr "failed to marshal bucket metadata" (marshalBucket info).

(** The usage of the bucket's record after a put, and the quota. *)
Definition chargeBucket (bkt : string) (isNew : bool) (sizeDelta : Z) (b : bucket BucketInfo)
  : res (bucket BucketInfo) :=
  match bGet b bkt with
  | None => Ok b
  | Some info =>
    let info := with_usage (if isNew then wrap64 (bi_ObjectCount info + 1) else bi_ObjectCount info)
                  (wrap64 (bi_TotalSize info + sizeDelta)) info in
    if exceeds info then Err ErrQuotaExceeded
    else info ← marshalInfo info; bPut b bkt info
  end.

Definition putTx (bkt key : string) (data : ObjectMetadata) (size : Z) (db : MetaDB)
  : res (MetaDB * (MetadataStats -> MetadataStats)) :=
  let existing := bGet (mdb_objects db) (objectKey bkt key) in
  let previousSize := match existing with Some e => om_Size e | None => 0 end in
  let isNew := match existing with Some _ => false | None => true end in
  let sizeDelta := wrap64 (size - previousSize) in
  objects ← bPut (mdb_objects db) (objectKey bkt key) data;
  let ik := indexKey bkt (extractPrefix key) in
  index ← match bGet (mdb_index db) ik with
          | None => bPut (mdb_index db) ik data
          | Some _ => Ok (mdb_index db)
          end;
  buckets ← chargeBucket bkt isNew sizeDelta (mdb_buckets db);
  Ok (set_buckets buckets (set_index index (set_objects objects db)),
      addObjects (if isNew then 1 else 0) sizeDelta).

(** The caller's record is stamped in place and returned with the result. *)
Definition PutObject (uuid : string) (now now' : Time) (io : flushIO) (commit : res unit)
    (bkt key : string) (metadata : ObjectMetadata) (s : MetadataStore)
  : MetadataStore * ObjectMetadata * res unit :=
  if bool_decide (bkt = ""%string) || bool_decide (key = ""%string)
  then (s, metadata, Err ErrInvalidKey)
  else
    let metadata := stampObject
      (if bool_decide (om_VersionID metadata = ""%string) then uuid else om_VersionID metadata)
      (if IsZero (om_CreatedAt metadata) then now else om_CreatedAt metadata) now' true metadata in
    match marshalObject metadata with
    | Ok data =>
      match writeWAL io (mkWAL "put_object" bkt key (objectText metadata) 0 0) s with
      | (s, Ok _) =>
        let '(s, r) := Update commit (putTx bkt key data (om_Size metadata)) s in (s, metadata, r)
      | (s, Err e) => (s, metadata, Err ("failed to write metadata WAL: " +:+ e))
      | (s, Panic w) => (s, metadata, Panic w)
      end
    | Err e => (s, metadata, Err ("failed to marshal metadata: " +:+ e))
    | Panic w => (s, metadata, Panic w)
    end.

Definition orErr {A} (e : string) (x : option A) : res A :=
  match x with Some a => Ok a | None => Err e end.

Definition GetObject (bkt key : string) (s : MetadataStore) : res ObjectMetadata :=
  orErr ErrKeyNotFound (bGet (mdb_objects (ms_db s)) (objectKey bkt key)).

(** The usage of the bucket's record after a delete, not below zero. *)
Definition releaseBucket (bkt : string) (size : Z) (b : bucket BucketInfo) : res (bucket BucketInfo) :=
  match bGet b bkt with
  | None => Ok b
  | Some info =>
    let count := wrap64 (bi_ObjectCount info - 1) in
    let total := wrap64 (bi_TotalSize info - size) in
    info ← marshalInfo (with_usage (Z.max 0 count) (Z.max 0 total) info);
    bPut b bkt info
  end.

Definition deleteTx (bkt key : string) (db : MetaDB) : res (MetaDB * (MetadataStats -> MetadataStats)) :=
  match bGet (mdb_objects db) (objectKey bkt key) with
  | None => Ok (db, fun st => st)
  | Some metadata =>
    buckets ← releaseBucket bkt (om_Size metadata) (mdb_buckets db);
    objects ← bDelete (mdb_objects db) (objectKey bkt key);
    versions ← deleteKeys (fst <$> scanPrefix (bkt +:+ "/" +:+ key +:+ "/") (mdb_versions db))
                 (mdb_versions db);
    Ok (set_versions versions (set_objects objects (set_buckets buckets db)),
        addObjects (-1) (wrap64 (- om_Size metadata)))
  end.
Definition DeleteObject (commit : res unit) (bkt key : string) (s : MetadataStore)
  : MetadataStore * res unit := Update commit (deleteTx bkt key) s.

(** Latest and not deleted. *)
Definition visible (m : ObjectMetadata) : bool := om_IsLatest m && negb (om_DeleteMarker m).

(** The cursor loop of a listing, at most [max] results. *)
Fixpoint collect {A B} (pick : A -> option B) (max : Z) (l : list A) : list B :=
  match l with
  | [] => []
  | x :: l =>
    if max <=? 0 then []
    else match pick x with Some b => b :: collect pick (max - 1) l | None => collect pick max l end
  end.

Definition pickVisible (x : string * ObjectMetadata) : option ObjectMetadata :=
  if visible x.2 then Some x.2 else None.
Definition ListObjects (bkt prefix : string) (maxKeys : Z) (s : MetadataStore) : list ObjectMetadata :=
  collect pickVisible maxKeys (scanPrefix (bkt +:+ "/" +:+ prefix) (mdb_objects (ms_db s))).

Record ListResult := mkList {
  ls_Objects : list ObjectMetadata; ls_CommonPrefixes : list string; ls_IsTruncated : bool;
  ls_NextMarker : string
}.

(** The first occurrence of [substr], compared at every offset. *)
Fixpoint indexOf (s substr : string) : option nat :=
  if (String.length s <? String.length substr)%nat then None
  else if bool_decide (stake (String.length substr) s = substr) then Some O
  else match s with
       | EmptyString => None
       | String _ s => S <$> indexOf s substr
       end.

(** The loop with a delimiter.  [objectKey := key[searchLen:]] is already past
    the prefix, [remainder := objectKey[len(prefix):]] skips its length again
    and faults on a shorter key. *)
Fixpoint delimited (prefix delimiter : string) (searchLen : nat) (max : Z) (seen : list string)
    (l : list (string * ObjectMetadata)) : res (list ObjectMetadata * list string) :=
  match l with
  | [] => Ok ([], seen)
  | (k, m) :: l =>
    if max <=? 0 then Ok ([], seen)
    else
      let objectKey := sdrop searchLen k in
      if (String.length objectKey <? String.length prefix)%nat
      then Panic "slice bounds out of range"
      else
        let remainder := sdrop (String.length prefix) objectKey in
        match (if bool_decide (delimiter = ""%string) then None else indexOf remainder delimiter) with
        | Some i =>
          let commonPrefix := prefix +:+ stake (i + String.length delimiter) remainder in
          delimited prefix delimiter searchLen max
            (if bool_decide (commonPrefix ∈ seen) then seen else seen ++ [commonPrefix]) l
        | None =>
          if visible m then
            '(objs, seen) ← delimited prefix delimiter searchLen (max - 1) seen l; Ok (m :: objs, seen)
          else delimited prefix delimiter searchLen max seen l
        end
  end.
Definition ListObjectsWithDelimiter (bkt prefix delimiter : string) (maxKeys : Z) (s : MetadataStore)
  : res ListResult :=
  let searchPrefix := bkt +:+ "/" +:+ prefix in
  '(objs, prefixes) ← delimited prefix delimiter (String.length searchPrefix) maxKeys []
                        (scanPrefix searchPrefix (mdb_objects (ms_db s)));
  let truncated := Z.of_nat (length objs) =? maxKeys in
  Ok (mkList objs prefixes truncated
        (if truncated then match last objs with Some m => om_Key m | None => ""%string end else ""%string)).

(** ** Buckets *)

Definition CreateBucket (now : Time) (commit : res unit) (bkt : string) (info : option BucketInfo)
    (s : MetadataStore) : MetadataStore * res unit :=
  if bool_decide (bkt = ""%string) then (s, Err ErrInvalidKey)
  else
    let info := with_Name bkt (default (with_BucketCreatedAt now zeroBucketInfo) info) in
    match wrapErr "failed to marshal bucket info" (marshalBucket info) with
    | Ok data =>
      Update commit (fun db =>
        match bGet (mdb_buckets db) bkt with
        | Some _ => Err (ErrBucketAlreadyExists +:+ ": " +:+ bkt)
        | None => b ← bPut (mdb_buckets db) bkt data; Ok (set_buckets b db, addBuckets 1)
        end) s
    | Err e => (s, Err e)
    | Panic w => (s, Panic w)
    end.

Definition GetBucket (bkt : string) (s : MetadataStore) : res BucketInfo :=
  orErr ErrBucketNotFound (bGet (mdb_buckets (ms_db s)) bkt).
Definition ListBuckets (s : MetadataStore) : list BucketInfo := snd <$> bForEach (mdb_buckets (ms_db s)).

Definition UpdateBucket (commit : res unit) (bkt : string) (info : BucketInfo) (s : MetadataStore)
  : MetadataStore * res unit :=
  match wrapErr "failed to marshal bucket info" (marshalBucket info) with
  | Ok data =>
    Update commit (fun db => b ← bPut (mdb_buckets db) bkt data; Ok (set_buckets b db, fun st => st)) s
  | Err e => (s, Err e)
  | Panic w => (s, Panic w)
  end.

(** The parts of each upload, one scan after the other. *)
Fixpoint deleteParts (uploadIDs : list string) (parts : bucket UploadPart) : res (bucket UploadPart) :=
  match uploadIDs with
  | [] => Ok parts
  | id :: ids => parts ← deleteKeys (fst <$> scanPrefix (id +:+ "/") parts) parts; deleteParts ids parts
  end.

Definition deleteBucketTx (bkt : string) (db : MetaDB) : res (MetaDB * (MetadataStats -> MetadataStats)) :=
  let prefix := bkt +:+ "/" in
  let objs := withPrefix prefix (bForEach (mdb_objects db)) in
  let totalSizeDelta := fold_left (fun t x => wrap64 (t + om_Size x.2)) objs 0 in
  objects ← deleteKeys (fst <$> objs) (mdb_objects db);
  versions ← deleteKeys (fst <$> withPrefix prefix (bForEach (mdb_versions db))) (mdb_versions db);
  let ups := withPrefix prefix (bForEach (mdb_uploads db)) in
  let uploadIDs := List.filter (fun id => negb (bool_decide (id = ""%string)))
                     (map (fun x => mu_UploadID x.2) ups) in
  uploads ← deleteKeys (fst <$> ups) (mdb_uploads db);
  parts ← deleteParts uploadIDs (mdb_parts db);
  resumable ← deleteKeys
    (fst <$> List.filter (fun x => bool_decide (rs_Bucket x.2 = bkt)) (bForEach (mdb_resumable db)))
    (mdb_resumable db);
  let db := set_resumable resumable (set_parts parts (set_uploads uploads
              (set_versions versions (set_objects objects db)))) in
  match bGet (mdb_buckets db) bkt with
  | None => Ok (db, fun st => st)
  | Some _ =>
    buckets ← bDelete (mdb_buckets db) bkt;
    Ok (set_buckets buckets db, fun st =>
      addUploads (- Z.of_nat (length ups))
        (addObjects (- Z.of_nat (length objs)) (wrap64 (- totalSizeDelta)) (addBuckets (-1) st)))
  end.
Definition DeleteBucket (commit : res unit) (bkt : string) (s : MetadataStore) : MetadataStore * res unit :=
  Update commit (deleteBucketTx bkt) s.

(** ** Versions *)

Definition versionKey (bkt key versionID : string) : string :=
  bkt +:+ "/" +:+ key +:+ "/" +:+ versionID.

Definition PutObjectVersion (uuid : string) (now now' : Time) (commit : res unit) (bkt key : string)
    (metadata : ObjectMetadata) (s : MetadataStore) : MetadataStore * ObjectMetadata * res unit :=
  let metadata := stampObject
    (if bool_decide (om_VersionID metadata = ""%string) then uuid else om_VersionID metadata)
    (if IsZero (om_CreatedAt metadata) then now else om_CreatedAt metadata) now' (om_IsLatest metadata)
    metadata in
  match marshalObject metadata with
  | Ok data =>
    let '(s, r) := Update commit (fun db =>
      b ← bPut (mdb_versions db) (versionKey bkt key (om_VersionID metadata)) data;
      Ok (set_versions b db, fun st => st)) s in (s, metadata, r)
  | Err e => (s, metadata, Err e)
  | Panic w => (s, metadata, Panic w)
  end.
Definition GetObjectVersion (bkt key versionID : string) (s : MetadataStore) : res ObjectMetadata :=
  orErr ErrVersionNotFound (bGet (mdb_versions (ms_db s)) (versionKey bkt key versionID)).
Definition ListObjectVersions (bkt key : string) (maxVersions : Z) (s : MetadataStore)
  : list ObjectMetadata :=
  collect (fun x => Some x.2) maxVersions
    (scanPrefix (bkt +:+ "/" +:+ key +:+ "/") (mdb_versions (ms_db s))).

(** ** Uploads *)

Definition Hour : Duration := 60 * Minute.
Definition uploadKey (bkt key uploadID : string) : string := bkt +:+ "/" +:+ key +:+ "/" +:+ uploadID.

Definition PutUpload (uuid : string) (now now' : Time) (commit : res unit) (upload : MultipartUpload)
    (s : MetadataStore) : MetadataStore * MultipartUpload * res unit :=
  let upload := stampUpload
    (if bool_decide (mu_UploadID upload = ""%string) then uuid else mu_UploadID upload)
    (if IsZero (mu_Initiated upload) then now else mu_Initiated upload)
    (if IsZero (mu_ExpiresAt upload) then Prelude.Add now' (24 * Hour) else mu_ExpiresAt upload) upload in
  match marshalUpload upload with
  | Ok data =>
    let '(s, r) := Update commit (fun db =>
      let k := uploadKey (mu_Bucket upload) (mu_Key upload) (mu_UploadID upload) in
      let uploadExists := bool_decide (is_Some (bGet (mdb_uploads db) k)) in
      b ← bPut (mdb_uploads db) k data;
      Ok (set_uploads b db, if uploadExists then fun st => st else addUploads 1)) s in (s, upload, r)
  | Err e => (s, upload, Err e)
  | Panic w => (s, upload, Panic w)
  end.
Definition GetUpload (bkt key uploadID : string) (s : MetadataStore) : res MultipartUpload :=
  orErr ErrKeyNotFound (bGet (mdb_uploads (ms_db s)) (uploadKey bkt key uploadID)).

Definition deleteUploadTx (bkt key uploadID : string) (db : MetaDB)
  : res (MetaDB * (MetadataStats -> MetadataStats)) :=
  let k := uploadKey bkt key uploadID in
  match bGet (mdb_uploads db) k with
  | None => Ok (db, fun st => st)
  | Some _ =>
    uploads ← bDelete (mdb_uploads db) k;
    parts ← deleteKeys (fst <$> scanPrefix (uploadID +:+ "/") (mdb_parts db)) (mdb_parts db);
    Ok (set_parts parts (set_uploads uploads db), addUploads (-1))
  end.
Definition DeleteUpload (commit : res unit) (bkt key uploadID : string) (s : MetadataStore)
  : MetadataStore * res unit := Update commit (deleteUploadTx bkt key uploadID) s.

Definition ListUploads (now : Time) (bkt : string) (s : MetadataStore) : list MultipartUpload :=
  List.filter (fun u => After (mu_ExpiresAt u) now)
    (snd <$> scanPrefix (bkt +:+ "/") (mdb_uploads (ms_db s))).
Definition ListExpiredUploads (now : Time) (s : MetadataStore) : list MultipartUpload :=
  List.filter (fun u => negb (After (mu_ExpiresAt u) now)) (snd <$> bForEach (mdb_uploads (ms_db s))).

(** [fmt.Sprintf("%s/%d", uploadID, partNumber)]. *)
Definition partKey (uploadID : string) (n : Z) : string := uploadID +:+ "/" +:+ pretty n.
Definition AddPart (commit : res unit) (uploadID : string) (part : UploadPart) (s : MetadataStore)
  : MetadataStore * res unit :=
  match marshalPart part with
  | Ok data =>
    Update commit (fun db =>
      b ← bPut (mdb_parts db) (partKey uploadID (up_PartNumber part)) data;
      Ok (set_parts b db, fun st => st)) s
  | Err e => (s, Err e)
  | Panic w => (s, Panic w)
  end.
(** In the order of the keys. *)
Definition GetParts (uploadID : string) (s : MetadataStore) : list UploadPart :=
  snd <$> scanPrefix (uploadID +:+ "/") (mdb_parts (ms_db s)).

(** ** Resumable sessions *)

Definition PutResumableSession (commit : res unit) (session : ResumableSession) (s : MetadataStore)
  : MetadataStore * res unit :=
  match wrapErr "failed to marshal resumable session" (marshalSession session) with
  | Ok data =>
    Update commit (fun db =>
      b ← bPut (mdb_resumable db) (rs_UploadID session) data; Ok (set_resumable b db, fun st => st)) s
  | Err e => (s, Err e)
  | Panic w => (s, Panic w)
  end.
Definition GetResumableSession (uploadID : string) (s : MetadataStore) : res ResumableSession :=
  orErr ErrKeyNotFound (bGet (mdb_resumable (ms_db s)) uploadID).
Definition DeleteResumableSession (commit : res unit) (uploadID : string) (s : MetadataStore)
  : MetadataStore * res unit :=
  Update commit (fun db =>
    b ← bDelete (mdb_resumable db) uploadID; Ok (set_resumable b db, fun st => st)) s.
Definition ListExpiredSessions (now : Time) (s : MetadataStore) : list ResumableSession :=
  List.filter (fun x => Before (rs_ExpiresAt x) now && negb (rs_Finalized x))
    (snd <$> bForEach (mdb_resumable (ms_db s))).

Definition GetStats (s : MetadataStore) : MetadataStats :=
  mkStats (st_ObjectCount (ms_stats s)) (st_BucketCount (ms_stats s)) (st_TotalSize (ms_stats s))
    (st_UploadCount (ms_stats s)) (ms_syncedUp s) (st_LastCompaction (ms_stats s)).
(** [Close]: the outcome of closing the database is [closed]. *)
Definition Close (io : flushIO) (closed : option string) (s : MetadataStore)
  : MetadataStore * option (list string) :=
  let '(s, r) := flushWAL io s in
  (s, match (match r with Err e => [e] | _ => [] end) ++ option_list closed with
      | [] => None
      | es => Some es
      end).
End Store.
