(* ===== verification/MetadataTheorems.v ===== *)
(** * Usage counters of buckets

    The counters kept in a bucket's record against the objects that are there,
    over every sequence of the store's operations, and the quota. *)

From S2P Require Import Prelude GoStrings Bolt Integrity MetadataStore.
From Stdlib Require Import Ascii String.
From stdpp Require Import base list strings.

#[local] Open Scope Z_scope.

(** ** Keys *)

Lemma inBucket_key bkt b key : nochar slash bkt = true -> nochar slash b = true ->
  HasPrefix (objectKey bkt key) (b +:+ "/") = bool_decide (bkt = b).
Proof. apply HasPrefix_sep. Qed.

Lemma inBucket_version bkt b key v : nochar slash bkt = true -> nochar slash b = true ->
  HasPrefix (versionKey bkt key v) (b +:+ "/") = bool_decide (bkt = b).
Proof. apply (inBucket_key bkt b (key +:+ "/" +:+ v)). Qed.

Lemma inBucket_one b b' k : nochar slash b = true -> nochar slash b' = true ->
  HasPrefix k (b +:+ "/") = true -> HasPrefix k (b' +:+ "/") = true -> b = b'.
Proof.
  intros N N' [t ->]%HasPrefix_spec. rewrite <- sapp_assoc. change ("/" +:+ t) with (String slash t).
  intros P. change "/"%string with (String slash "") in P.
  rewrite (HasPrefix_sep slash b b' t N N') in P. by boolify.
Qed.

Section Usage.
Context `{BoltLaws} `{AnyJson} `{MetaText}.

(** ** Transactions *)

Lemma Update_cases commit f s s' r : Update commit f s = (s', r) ->
  (exists db g, f (ms_db s) = Ok (db, g) /\ ms_stats s' = g (ms_stats s) /\
     ms_db s' = (if is_ok commit then db else ms_db s) /\ (r = Ok tt <-> is_ok commit = true)) \/
  (is_ok r = false /\ s' = s /\ forall x, f (ms_db s) <> Ok x).
Proof.
  unfold Update. destruct (f (ms_db s)) as [[db g]| |] eqn:F.
  - intros E. left. exists db, g. destruct commit as [[]| |]; simplify_eq; simpl; split_and!; done.
  - intros E. right. by simplify_eq.
  - intros E. right. by simplify_eq.
Qed.
Lemma Update_ok commit f s s' : Update commit f s = (s', Ok tt) ->
  exists g, f (ms_db s) = Ok (ms_db s', g).
Proof.
  intros E. apply Update_cases in E as [(db & g & F & _ & D & R)|[R _]]; [|done].
  destruct R as [R _]. rewrite R in D by done. subst. by exists g.
Qed.
Lemma Update_keeps commit f s s' r : Update commit f s = (s', r) -> r <> Ok tt -> ms_db s' = ms_db s.
Proof.
  intros E N. apply Update_cases in E as [(db & g & F & _ & D & R)|(_ & -> & _)]; [|done].
  destruct (is_ok commit); [|done]. by destruct N, R as [_ ->].
Qed.
Lemma Update_log commit f s s' r : Update commit f s = (s', r) ->
  ms_walBuf s' = ms_walBuf s /\ ms_walFile s' = ms_walFile s.
Proof.
  unfold Update. destruct (f (ms_db s)) as [[db g]| |]; [|by intros; simplify_eq..].
  by destruct commit; intros; simplify_eq.
Qed.

Lemma writeWAL_db io e s : ms_db (writeWAL io e s).1 = ms_db s.
Proof. unfold writeWAL, flushWAL. repeat case_match_goal; simpl; done. Qed.

(** ** The usage of a bucket *)






(** *** Puts *)


Lemma putTx_effect bkt key data size db db' g : putTx bkt key data size db = Ok (db', g) ->
  let k := objectKey bkt key in let old := bGet (mdb_objects db) k in
  bPut (mdb_objects db) k data = Ok (mdb_objects db') /\
  chargeBucket bkt (match old with Some _ => false | None => true end)
    (wrap64 (size - match old with Some e => om_Size e | None => 0 end)) (mdb_buckets db)
  = Ok (mdb_buckets db').
Proof.
  unfold putTx. intros E. apply bind_Ok in E as (a & E0 & E).
  apply bind_Ok in E as (a0 & _ & E). apply bind_Ok in E as (a1 & E2 & E). by simplify_eq.
Qed.




(** *** Deletions *)






Lemma deleteBucketTx_effect bkt db db' g : deleteBucketTx bkt db = Ok (db', g) ->
  deleteKeys (fst <$> withPrefix (bkt +:+ "/") (bForEach (mdb_objects db))) (mdb_objects db)
  = Ok (mdb_objects db') /\
  forall b, bGet (mdb_buckets db') b = if decide (b = bkt) then None else bGet (mdb_buckets db) b.
Proof.
  unfold deleteBucketTx. intros E. repeat (apply bind_Ok in E as (? & ? & E)).
  simpl in E. destruct (bGet (mdb_buckets db) bkt) eqn:G.
  - apply bind_Ok in E as (b' & D & E). simplify_eq. split; [done|]. intros k. simpl.
    apply (bGet_delete _ _ _ _ _ D).
  - simplify_eq. split; [done|]. intros k. simpl. case_decide; by subst.
Qed.

End Usage.

(** ** What the metadata store promises

    Exact usage counters and quotas over every history of calls, the listings
    against their specification, and what deletions remove. *)

Section Histories.
Context `{BoltLaws} `{AnyJson} `{MetaText}.

(** The calls that change the store. *)
Inductive metaOp :=
| OpPutObject (uuid : string) (now now' : Time) (io : flushIO) (commit : res unit) (bkt key : string)
    (m : ObjectMetadata)
| OpDeleteObject (commit : res unit) (bkt key : string)
| OpCreateBucket (now : Time) (commit : res unit) (bkt : string) (info : option BucketInfo)
| OpUpdateBucket (commit : res unit) (bkt : string) (info : BucketInfo)
| OpDeleteBucket (commit : res unit) (bkt : string)
| OpPutVersion (uuid : string) (now now' : Time) (commit : res unit) (bkt key : string)
    (m : ObjectMetadata)
| OpPutUpload (uuid : string) (now now' : Time) (commit : res unit) (u : MultipartUpload)
| OpDeleteUpload (commit : res unit) (bkt key uploadID : string)
| OpAddPart (commit : res unit) (uploadID : string) (p : UploadPart)
| OpPutSession (commit : res unit) (session : ResumableSession)
| OpDeleteSession (commit : res unit) (uploadID : string)
| OpFlush (io : flushIO).

Definition runOp (op : metaOp) (s : MetadataStore) : MetadataStore * res unit :=
  match op with
  | OpPutObject u n n' io c b k m => let '(s, _, r) := PutObject u n n' io c b k m s in (s, r)
  | OpDeleteObject c b k => DeleteObject c b k s
  | OpCreateBucket n c b i => CreateBucket n c b i s
  | OpUpdateBucket c b i => UpdateBucket c b i s
  | OpDeleteBucket c b => DeleteBucket c b s
  | OpPutVersion u n n' c b k m => let '(s, _, r) := PutObjectVersion u n n' c b k m s in (s, r)
  | OpPutUpload u n n' c up => let '(s, _, r) := PutUpload u n n' c up s in (s, r)
  | OpDeleteUpload c b k i => DeleteUpload c b k i s
  | OpAddPart c i p => AddPart c i p s
  | OpPutSession c x => PutResumableSession c x s
  | OpDeleteSession c i => DeleteResumableSession c i s
  | OpFlush io => flushWAL io s
  end.



(** *** The invariant *)







End Histories.

Section Theorems.
Context `{BoltLaws} `{AnyJson} `{MetaText}.

(** The objects stored under a bucket's name. *)
Definition objectsOf (bkt : string) (db : MetaDB) : list ObjectMetadata :=
  snd <$> withPrefix (bkt +:+ "/") (bForEach (mdb_objects db)).




(** ** Listings *)

Lemma collect_take {A B} (pick : A -> option B) max l :
  collect pick max l = take (Z.to_nat max) (omap pick l).
Proof.
  revert max. induction l as [|x l IH]; intros max; simpl; [by rewrite take_nil|].
  destruct (Z.leb_spec max 0); [by replace (Z.to_nat max) with 0%nat by lia|].
  destruct (pick x); rewrite IH; [|done]. replace (Z.to_nat max) with (S (Z.to_nat (max - 1))) by lia. done.
Qed.

(** ListObjects returns, in the order of their keys, the first maxKeys of
    the objects stored under the bucket whose key has the prefix, that are the
    latest version and not a delete marker, and no other. *)
Theorem list_objects_spec (bkt prefix : string) (maxKeys : Z) (s : MetadataStore) :
  ListObjects bkt prefix maxKeys s =
  take (Z.to_nat maxKeys)
    (List.filter visible (snd <$> withPrefix (objectKey bkt prefix) (bForEach (mdb_objects (ms_db s))))).
Proof.
  unfold ListObjects. rewrite collect_take, scanPrefix_filter. f_equal. unfold objectKey.
  induction (withPrefix _ _) as [|[k m] l IH]; [done|]. csimpl. unfold pickVisible at 1. simpl.
  destruct (visible m); by rewrite IH.
Qed.

(** A listing with a delimiter below a non-empty prefix reads past the end
    of every key that continues the prefix by less than the prefix's own
    length, so it faults when there is such an object (the key that equals the
    prefix is one) and the listing is not cut off before it. *)
Theorem delimited_listing_faults (bkt prefix delimiter key : string) (maxKeys : Z) (s : MetadataStore) :
  is_Some (bGet (mdb_objects (ms_db s)) (objectKey bkt (prefix +:+ key))) ->
  (String.length key < String.length prefix)%nat ->
  Z.of_nat (length (bForEach (mdb_objects (ms_db s)))) < maxKeys ->
  ListObjectsWithDelimiter bkt prefix delimiter maxKeys s = Panic "slice bounds out of range".
Proof.
  intros [m G] L Max. unfold ListObjectsWithDelimiter. rewrite scanPrefix_filter.
  set (sp := bkt +:+ "/" +:+ prefix).
  assert ((sp +:+ key, m) ∈ withPrefix sp (bForEach (mdb_objects (ms_db s)))) as I.
  { apply elem_of_withPrefix. split; [|apply HasPrefix_app]. apply bForEach_get. unfold sp.
    by rewrite <- !sapp_assoc. }
  assert (length (withPrefix sp (bForEach (mdb_objects (ms_db s))))
          <= length (bForEach (mdb_objects (ms_db s))))%nat as LE by apply List.filter_length_le.
  assert (forall l seen max, (sp +:+ key, m) ∈ l -> Z.of_nat (length l) < max ->
    delimited prefix delimiter (String.length sp) max seen l = Panic "slice bounds out of range") as D.
  2:{ rewrite D; [done|done|lia]. }
  clear I LE Max. induction l as [|[k x] l IH]; intros seen max I B; [by apply elem_of_nil in I|].
  simpl in B. cbn [delimited]. destruct (Z.leb_spec max 0); [lia|]. apply elem_of_cons in I as [I|I].
  - simplify_eq. rewrite sdrop_app. by destruct (Nat.ltb_spec (String.length key) (String.length prefix)); [|lia].
  - destruct (_ <? _)%nat; [done|].
    destruct (if bool_decide (delimiter = ""%string) then _ else _); [apply IH; [done|lia]|].
    destruct (visible x); [rewrite IH; [done|done|lia]|apply IH; [done|lia]].
Qed.

(** Without a prefix the listing is right: the visible objects without the
    delimiter, and each text up to the first delimiter once. *)
Definition folder (delimiter key : string) : option string :=
  (fun i => stake (i + String.length delimiter) key) <$> indexOf key delimiter.
Definition addNew (seen : list string) (p : string) : list string :=
  if bool_decide (p ∈ seen) then seen else seen ++ [p].

Lemma delimited_no_prefix delimiter n max seen l : delimiter <> ""%string ->
  Z.of_nat (length l) < max ->
  delimited "" delimiter n max seen l = Ok
    (omap (fun x => match folder delimiter (sdrop n x.1) with
                    | Some _ => None
                    | None => pickVisible x end) l,
     fold_left addNew (omap (fun x => folder delimiter (sdrop n x.1)) l) seen).
Proof.
  intros D. revert max seen. induction l as [|[k m] l IH]; intros max seen B; [done|].
  simpl in B. cbn [delimited]. destruct (Z.leb_spec max 0); [lia|].
  destruct (Nat.ltb_spec (String.length (sdrop n k)) 0); [lia|]. cbn [String.length sdrop].
  rewrite bool_decide_false by done. csimpl.
  destruct (indexOf (sdrop n k) delimiter) as [i|] eqn:I.
  - assert (folder delimiter (sdrop n k) = Some (stake (i + String.length delimiter) (sdrop n k))) as -> by
      (unfold folder; by rewrite I). by rewrite IH by lia.
  - assert (folder delimiter (sdrop n k) = None) as -> by (unfold folder; by rewrite I).
    unfold pickVisible at 1. simpl. destruct (visible m); by rewrite IH by lia.
Qed.

(** ** Deletions *)

Lemma deleteKeys_scan {V} (b b' : bucket V) p : deleteKeys (fst <$> scanPrefix p b) b = Ok b' ->
  forall k, bGet b' k = if HasPrefix k p then None else bGet b k.
Proof.
  intros D k. rewrite (deleteKeys_get _ _ _ _ D). case_decide as I; rewrite elem_of_prefix_scan in I.
  - by destruct I as [_ ->].
  - destruct (HasPrefix k p) eqn:P; [|done]. destruct (bGet b k) eqn:G; [|done].
    destruct I. split; [by eexists|done].
Qed.

(** DeleteObject removes the object and every version record whose key
    starts with "bucket/key/": its own versions, and also those of every object
    whose key continues it with a slash.  Other objects, other versions,
    uploads, parts and sessions stay. *)
Theorem delete_object_exact (commit : res unit) (bkt key : string) (s s' : MetadataStore) :
  DeleteObject commit bkt key s = (s', Ok tt) -> is_ok (GetObject bkt key s) = true ->
  (forall b k, GetObject b k s' =
     if decide (objectKey b k = objectKey bkt key) then Err ErrKeyNotFound else GetObject b k s) /\
  (forall b k v, GetObjectVersion b k v s' =
     if HasPrefix (versionKey b k v) (bkt +:+ "/" +:+ key +:+ "/")
     then Err ErrVersionNotFound else GetObjectVersion b k v s) /\
  (forall k' v, HasPrefix (versionKey bkt (key +:+ "/" +:+ k') v) (bkt +:+ "/" +:+ key +:+ "/") = true) /\
  (forall b k u, GetUpload b k u s' = GetUpload b k u s) /\ (forall u, GetParts u s' = GetParts u s) /\
  (forall u, GetResumableSession u s' = GetResumableSession u s).
Proof.
  intros [g E]%Update_ok X. unfold deleteTx, GetObject, GetObjectVersion, GetUpload, GetParts, GetResumableSession in *.
  destruct (bGet (mdb_objects (ms_db s)) (objectKey bkt key)) as [m|]; [|done].
  apply bind_Ok in E as (b & _ & E). apply bind_Ok in E as (o & DO & E). apply bind_Ok in E as (v & DV & E).
  simplify_eq. rewrite <- E. simpl. split_and!; [| | |done..].
  - intros b' k. rewrite (bGet_delete _ _ _ _ _ DO). by case_decide.
  - intros b' k w. rewrite (deleteKeys_scan _ _ _ DV). by case_match_goal.
  - intros k' w. apply HasPrefix_spec. exists (k' +:+ "/" +:+ w). unfold versionKey. by rewrite !sapp_assoc.
Qed.

(** A put is read back as encoding/json leaves it; other keys, and everything
    when it fails, stay. *)
Lemma PutObject_get uuid now now' io commit bkt key m s s' m' r :
  PutObject uuid now now' io commit bkt key m s = (s', m', r) ->
  (r = Ok tt -> exists data, marshalObject m' = Ok data /\
     m' = stampObject (if bool_decide (om_VersionID m = ""%string) then uuid else om_VersionID m)
            (if IsZero (om_CreatedAt m) then now else om_CreatedAt m) now' true m /\
     forall b k, GetObject b k s' = if decide (objectKey b k = objectKey bkt key) then Ok data
                                    else GetObject b k s) /\
  (r <> Ok tt -> forall b k, GetObject b k s' = GetObject b k s).
Proof.
  unfold PutObject. destruct (_ || _); [intros; simplify_eq; by split|].
  set (m1 := stampObject _ _ _ _ _). destruct (marshalObject m1) as [data| |] eqn:M;
    [|intros; simplify_eq; by split..].
  pose proof (writeWAL_db io (mkWAL "put_object" bkt key (objectText m1) 0 0) s) as W.
  destruct (writeWAL _ _ s) as [s1 [u| |]]; cbn [fst] in W;
    [|intros E; simplify_eq; (split; [done|]); intros _ b k; unfold GetObject; by rewrite W..].
  destruct (Update _ _ s1) as [s2 r2] eqn:U. intros E. simplify_eq. split.
  - intros ->. apply Update_ok in U as [g U]. apply putTx_effect in U as [P _].
    exists data. split; [done|]. split; [done|]. intros b k. unfold GetObject.
    rewrite (bGet_put _ _ _ _ _ _ P), W.
    by destruct (decide (objectKey b k = objectKey bkt key)).
  - intros N b k. apply Update_keeps in U; [|done]. unfold GetObject. by rewrite U, W.
Qed.

Lemma deleteParts_get ids (b b' : bucket UploadPart) : deleteParts ids b = Ok b' ->
  forall k, bGet b' k = if existsb (fun id => HasPrefix k (id +:+ "/")) ids then None else bGet b k.
Proof.
  revert b. induction ids as [|id ids IH]; simpl; intros b E k; [by simplify_eq|].
  apply bind_Ok in E as (b1 & D & E). rewrite (IH _ E), (deleteKeys_scan _ _ _ D).
  by destruct (existsb _ ids), (HasPrefix k _).
Qed.

Definition uploadsOf (bkt : string) (db : MetaDB) : list MultipartUpload :=
  snd <$> withPrefix (bkt +:+ "/") (bForEach (mdb_uploads db)).

Lemma deleteBucketTx_gets bkt db db' g : deleteBucketTx bkt db = Ok (db', g) ->
  let gone {V} (k : string) (x : option V) := if HasPrefix k (bkt +:+ "/") then None else x in
  (forall k, bGet (mdb_buckets db') k = if decide (k = bkt) then None else bGet (mdb_buckets db) k) /\
  (forall k, bGet (mdb_objects db') k = gone k (bGet (mdb_objects db) k)) /\
  (forall k, bGet (mdb_versions db') k = gone k (bGet (mdb_versions db) k)) /\
  (forall k, bGet (mdb_uploads db') k = gone k (bGet (mdb_uploads db) k)) /\
  (forall k, bGet (mdb_parts db') k =
     if existsb (fun id => HasPrefix k (id +:+ "/"))
          (List.filter (fun id => negb (bool_decide (id = ""%string))) (mu_UploadID <$> uploadsOf bkt db))
     then None else bGet (mdb_parts db) k) /\
  (forall k x, bGet (mdb_resumable db') k = Some x <->
     bGet (mdb_resumable db) k = Some x /\ rs_Bucket x <> bkt).
Proof.
  intros T gone. pose proof (deleteBucketTx_effect _ _ _ _ T) as [_ B]. split; [exact B|].
  unfold deleteBucketTx in T. cbv zeta in T. apply bind_Ok in T as (o & DO & T). apply bind_Ok in T as (v & DV & T).
  apply bind_Ok in T as (u & DU & T). apply bind_Ok in T as (p & DP & T). apply bind_Ok in T as (r & DR & T).
  rewrite <- scanPrefix_filter in DO. rewrite <- scanPrefix_filter in DV. rewrite <- scanPrefix_filter in DU.
  assert (mdb_objects db' = o /\ mdb_versions db' = v /\ mdb_uploads db' = u /\ mdb_parts db' = p /\
    mdb_resumable db' = r) as (-> & -> & -> & -> & ->).
  { simpl in T. destruct (bGet (mdb_buckets db) bkt); [apply bind_Ok in T as (? & _ & T)|]; by simplify_eq. }
  split_and!; try by apply deleteKeys_scan.
  - intros k. rewrite (deleteParts_get _ _ _ DP). unfold uploadsOf. by rewrite <- list_fmap_compose.
  - intros k x. rewrite (deleteKeys_get _ _ _ _ DR). case_decide as I.
    + split; [done|]. intros [G N]. apply list_elem_of_fmap in I as ([k' y] & -> & I).
      apply list_elem_of_In, filter_In in I as [I Y]. apply list_elem_of_In, bForEach_get in I.
      simpl in *. boolify. by simplify_eq.
    + split; [|by intros [? _]]. intros G. split; [done|]. intros X. destruct I. apply list_elem_of_fmap.
      exists (k, x). split; [done|]. apply list_elem_of_In, filter_In. split; [|by apply bool_decide_eq_true].
      by apply list_elem_of_In, bForEach_get.
Qed.

(** DeleteBucket removes the bucket's record and everything stored under
    its name: objects, versions and uploads, the parts of those uploads and
    the resumable sessions of the bucket.  Whatever belongs to another bucket
    with a slash-free name stays, and so do the parts of every upload ID that
    no upload of the deleted bucket has. *)
Theorem delete_bucket_exact (commit : res unit) (bkt : string) (s s' : MetadataStore) :
  nochar slash bkt = true ->
  (forall u, u ∈ uploadsOf bkt (ms_db s) -> nochar slash (mu_UploadID u) = true) ->
  DeleteBucket commit bkt s = (s', Ok tt) ->
  GetBucket bkt s' = Err ErrBucketNotFound /\ objectsOf bkt (ms_db s') = [] /\
  (forall k v, GetObjectVersion bkt k v s' = Err ErrVersionNotFound) /\ uploadsOf bkt (ms_db s') = [] /\
  (forall u x, GetResumableSession u s' = Ok x <-> GetResumableSession u s = Ok x /\ rs_Bucket x <> bkt) /\
  (forall id, nochar slash id = true -> id <> ""%string ->
     GetParts id s' = if bool_decide (id ∈ mu_UploadID <$> uploadsOf bkt (ms_db s)) then [] else GetParts id s) /\
  (forall b, nochar slash b = true -> b <> bkt -> GetBucket b s' = GetBucket b s /\
     objectsOf b (ms_db s') = objectsOf b (ms_db s) /\ uploadsOf b (ms_db s') = uploadsOf b (ms_db s) /\
     forall k v, GetObjectVersion b k v s' = GetObjectVersion b k v s).
Proof.
  intros N I [g E]%Update_ok. destruct (deleteBucketTx_gets _ _ _ _ E) as (B & O & V & U & P & R).
  assert (forall b k, nochar slash b = true -> b <> bkt -> HasPrefix k (b +:+ "/") = true ->
    HasPrefix k (bkt +:+ "/") = false) as Other.
  { intros b k Nb NE Q. destruct (HasPrefix k (bkt +:+ "/")) eqn:Q'; [|done]. destruct NE. by eapply inBucket_one. }
  unfold GetBucket, GetObjectVersion, GetResumableSession, GetParts, objectsOf, uploadsOf.
  split_and!.
  - by rewrite B, decide_True.
  - rewrite <- scanPrefix_filter, scanPrefix_none; [done|]. intros k Q. by rewrite O, Q.
  - intros k v. rewrite V. by rewrite inBucket_version, bool_decide_true.
  - rewrite <- scanPrefix_filter, scanPrefix_none; [done|]. intros k Q. by rewrite U, Q.
  - intros u x. specialize (R u x). destruct (bGet _ u), (bGet (mdb_resumable (ms_db s)) u); naive_solver.
  - intros id Nid NE. case_bool_decide as D.
    + rewrite scanPrefix_none; [done|]. intros k Q. rewrite P.
      rewrite (proj2 (existsb_exists _ _)); [done|]. exists id. split; [|done].
      apply filter_In. split; [by apply list_elem_of_In|]. by rewrite bool_decide_false.
    + f_equal. apply scanPrefix_ext. intros k Q. rewrite P. case_match_goal; [|done].
      apply existsb_exists in Heqb as (id' & [I' _]%filter_In & Q'). apply list_elem_of_In in I'.
      destruct D. assert (nochar slash id' = true) as N'.
      { apply list_elem_of_fmap in I' as (u & -> & I'). by apply I. }
      by rewrite (inBucket_one id id' k).
  - intros b Nb NE. split_and!.
    + by rewrite B, decide_False.
    + rewrite <- !scanPrefix_filter. f_equal. apply scanPrefix_ext. intros k Q. by rewrite O, (Other b k).
    + rewrite <- !scanPrefix_filter. f_equal. apply scanPrefix_ext. intros k Q. by rewrite U, (Other b k).
    + intros k v. rewrite V. by rewrite inBucket_version, bool_decide_false.
Qed.
End Theorems.

(** ** Examples *)

Module MetadataDemo.
Import MapBolt.
#[export] Instance noDocs : AnyJson := {| anyDoc := unit; anyJson d := Ok d |}.
#[export] Instance noText : MetaText := {| objectText _ := []; walText l := zeros (length l) |}.

Definition obj (key : string) (size : Z) : ObjectMetadata :=
  mkObject key "b" size "" "" "" "" "" None 0 5 5 0 0 false [] false "" "v1" false "" "" false 0 None false
    None false "" "".
Definition limited : BucketInfo :=
  mkBucketInfo "" 5 "" "" "" "" (Some (mkQuota 2 100 (SpecFloat.S754_zero false))) None None None None None
    0 0 false false None "".
Definition putOp (key : string) (size : Z) : metaOp :=
  OpPutObject "id" 6 7 flushOk (Ok tt) "b" key (obj key size).
Definition run (ops : list metaOp) : MetadataStore :=
  fold_left (fun s op => (runOp op s).1) ops (NewBoltDBMetadataStore emptyMetaDB []).
Definition history : list metaOp :=
  [OpCreateBucket 5 (Ok tt) "b" (Some limited); putOp "a" 30; putOp "a/x" 40; putOp "a" 50].

(** The third put replaces 30 bytes by 50; a third object, or 110 bytes, are refused. *)
Example usage_of_history :
  (fun i => (bi_ObjectCount i, bi_TotalSize i)) <$> GetBucket "b" (run history) = Ok (2, 90).
Proof. vm_compute. reflexivity. Qed.
Example over_quota :
  ((runOp (putOp "c" 1) (run history)).2, (runOp (putOp "a" 61) (run history)).2)
  = (Err ErrQuotaExceeded, Err ErrQuotaExceeded).
Proof. vm_compute. reflexivity. Qed.
(** The refused put stays in the log's buffer. *)
Example refused_put_is_logged :
  length (ms_walBuf (runOp (putOp "c" 1) (run history)).1) = 4%nat.
Proof. vm_compute. reflexivity. Qed.

(** Deleting "a" also deletes the versions of "a/x". *)
Definition versioned : MetadataStore :=
  run (history ++ [OpPutVersion "id" 6 7 (Ok tt) "b" "a/x" (obj "a/x" 40)]).
Example versions_below_are_lost :
  (is_ok (GetObjectVersion "b" "a/x" "v1" versioned),
   is_ok (GetObjectVersion "b" "a/x" "v1" (DeleteObject (Ok tt) "b" "a" versioned).1),
   is_ok (GetObject "b" "a/x" (DeleteObject (Ok tt) "b" "a" versioned).1)) = (true, false, true).
Proof. vm_compute. reflexivity. Qed.
Example versions_of_others_listed : length (ListObjectVersions "b" "a" 10 versioned) = 1%nat.
Proof. vm_compute. reflexivity. Qed.

(** A prefix that is also a key makes the listing fault, a longer rest is cut. *)
Example listing_below_prefix :
  let s := run [OpCreateBucket 5 (Ok tt) "b" None; putOp "dir/" 0; putOp "dir/abcdef" 1] in
  let t := run [OpCreateBucket 5 (Ok tt) "b" None; putOp "d/x/y/z" 1] in
  (ListObjectsWithDelimiter "b" "dir/" "/" 10 s, ls_CommonPrefixes <$> ListObjectsWithDelimiter "b" "d/" "/" 10 t)
  = (Panic "slice bounds out of range", Ok ["d/y/"%string]).
Proof. vm_compute. reflexivity. Qed.

(** Parts come in the order of their keys: 10 before 2. *)
Example parts_in_text_order :
  map up_PartNumber (GetParts "u" (run (map (fun n => OpAddPart (Ok tt) "u" (mkPart n "" 1 "" 5 "")) [1; 2; 10])))
  = [1; 10; 2].
Proof. vm_compute. reflexivity. Qed.
End MetadataDemo.

Section Witnesses.
Import MapBolt MetadataDemo.

End Witnesses.

Import MapBolt MetadataDemo.



Lemma delimited_listing_faults_witness :
  ListObjectsWithDelimiter "b" "a" "/" 10 (run history) = Panic "slice bounds out of range".
Proof.
  apply (delimited_listing_faults "b" "a" "/" "" 10 (run history));
    [vm_compute; by eauto|vm_compute; lia|vm_compute; reflexivity].
Defined.

Lemma delete_object_exact_witness :
  let s' := (DeleteObject (Ok tt) "b" "a" (run history)).1 in
  GetObject "b" "a" s' = Err ErrKeyNotFound /\ GetUpload "b" "a" "u" s' = GetUpload "b" "a" "u" (run history).
Proof.
  intros s'. destruct (DeleteObject (Ok tt) "b" "a" (run history)) as [t r] eqn:E.
  pose proof (f_equal snd E) as R. vm_compute in R.
  destruct (delete_object_exact (Ok tt) "b" "a" (run history) t) as (O & _ & _ & U & _);
    [rewrite E, <- R; reflexivity|vm_compute; reflexivity|].
  split; [exact (O "b"%string "a"%string)|apply U].
Defined.

Lemma no_uploads (l : list MultipartUpload) : l = [] ->
  forall u, u ∈ l -> nochar slash (mu_UploadID u) = true.
Proof. intros -> u I. by apply elem_of_nil in I. Qed.

Lemma delete_bucket_exact_witness :
  let s' := (DeleteBucket (Ok tt) "b" (run history)).1 in
  GetBucket "b" s' = Err ErrBucketNotFound /\ objectsOf "b" (ms_db s') = [].
Proof.
  destruct (DeleteBucket (Ok tt) "b" (run history)) as [t r] eqn:E.
  assert (r = Ok tt) as -> by (change r with (t, r).2; rewrite <- E; vm_compute; reflexivity).
  assert (uploadsOf "b" (ms_db (run history)) = []) as U by (vm_compute; reflexivity).
  pose proof (delete_bucket_exact (Ok tt) "b" (run history) t eq_refl (no_uploads _ U) E) as (B & O & _).
  split; [exact B|exact O].
Defined.

Lemma list_objects_spec_witness :
  ListObjects "b" "a" 1 (run history) =
  take 1 (List.filter visible (snd <$> withPrefix "b/a" (bForEach (mdb_objects (ms_db (run history)))))).
Proof. exact (list_objects_spec "b" "a" 1 (run history)). Defined.
