(* ===== verification/Storage.v ===== *)
(** * Storage backends and tiers (internal/storage/store.go)

    A file backend over a tree of files and directories, and the store that
    keeps objects in one backend per tier.  Each operation on files is one
    step; what the kernel can refuse beyond what the tree decides is an
    argument; the text of its errors names one path only.  The root is the list of names of an absolute path, and the
    trees of two backends are disjoint, as the paths of the tiers are. *)

From S2P Require Import Prelude GoStrings GoFloat GoJson Bolt Integrity MetadataStore.
From Stdlib Require Import Ascii String.
From stdpp Require Import base list strings gmap sorting pretty.

#[local] Open Scope Z_scope.

Definition ErrObjectNotFound : string := "object not found".
Definition ErrTierNotAvailable : string := "storage tier not available".

(** What [io.Copy] gets from a reader: the bytes, and the error they end with. *)
Record stream := mkStream { sr_data : bytes; sr_err : option string }.
Definition streamOf (b : bytes) : stream := mkStream b None.
(** [io.LimitReader(r, n)]: no read after the n-th byte. *)
Definition LimitReader (n : Z) (d : stream) : stream :=
  if n <=? Z.of_nat (length (sr_data d)) then streamOf (take (Z.to_nat n) (sr_data d)) else d.

(** ** Paths (package path/filepath) *)

Notation path := (list string) (only parsing).
Fixpoint Clean (up : path) (names : list string) : path :=
  match names with
  | [] => rev up
  | n :: names =>
    if bool_decide (n = ""%string) || bool_decide (n = "."%string) then Clean up names
    else if bool_decide (n = ".."%string) then Clean (tail up) names
    else Clean (n :: up) names
  end.
(** [filepath.Join(root, p)] for a clean absolute root. *)
Definition pathJoin (root : path) (p : string) : path := Clean (rev root) (Split slash p).
Definition parent (p : path) : path := removelast p.
Definition pathText (p : path) : string := "/" +:+ strJoin "/" p.
Fixpoint commonLen (p q : path) : nat :=
  match p, q with
  | a :: p, b :: q => if bool_decide (a = b) then S (commonLen p q) else O
  | _, _ => O
  end.
(** [filepath.Rel(root, p)]. *)
Definition Rel (root p : path) : string :=
  let k := commonLen root p in
  match (repeat ".."%string (length root - k) ++ drop k p)%list with
  | [] => "."
  | l => strJoin "/" l
  end.

(** ** The tree of files *)

Inductive node := File (b : bytes) | Dir.
Notation tree := (gmap path node) (only parsing).
Inductive found := Found (n : node) | NotExist | NotDir.

Definition nodeAt (t : tree) (p : path) : option node := match p with [] => Some Dir | _ => t !! p end.
(** Walk down from the directory [pre]. *)
Fixpoint walk (t : tree) (pre rest : path) : found :=
  match nodeAt t pre, rest with
  | None, _ => NotExist
  | Some n, [] => Found n
  | Some Dir, c :: rest => walk t (pre ++ [c]) rest
  | Some (File _), _ => NotDir
  end.
Definition stat (t : tree) (p : path) : found := walk t [] p.

Definition pathErr (op : string) (p : path) (e : string) : string :=
  op +:+ " " +:+ pathText p +:+ ": " +:+ e.

(** [os.MkdirAll]: the directories from [pre] down, until a file is in the way. *)
Fixpoint mkdirs (pre rest : path) (t : tree) : tree * res unit :=
  match nodeAt t pre with
  | Some (File _) => (t, Err (pathErr "mkdir" pre "not a directory"))
  | n =>
    let t := match n with None => <[pre := Dir]> t | _ => t end in
    match rest with [] => (t, Ok tt) | c :: rest => mkdirs (pre ++ [c]) rest t end
  end.

Definition below (p q : path) : bool := bool_decide (take (length p) q = p).
Definition strictlyBelow (p q : path) : bool := below p q && bool_decide (p <> q).
Definition emptyDir (t : tree) (p : path) : bool :=
  forallb (fun x => negb (strictlyBelow p x.1)) (map_to_list t).

(** A refusal of the kernel that the tree does not explain. *)
Notation ioFail := (option string) (only parsing).
Definition orIO {A} (io : ioFail) (m : res A) : res A := match io with Some e => Err e | None => m end.

(** Outcomes of the calls that write a file; [MkdirAll] can fail after some of
    the directories. *)
Record putIO := mkPutIO {
  pio_mkdir : option (nat * string); pio_create : ioFail; pio_copy : ioFail; pio_sync : ioFail;
  pio_close : ioFail; pio_rename : ioFail
}.
Definition goodIO : putIO := mkPutIO None None None None None None.

Definition MkdirAll (io : option (nat * string)) (p : path) (t : tree) : tree * res unit :=
  match io with
  | Some (k, e) => let '(t, r) := mkdirs [] (take k p) t in (t, r ≫= fun _ => Err e)
  | None => mkdirs [] p t
  end.
(** [os.CreateTemp(dir, ".tmp-"+filepath.Base(p))]: the base name of the root
    directory is a separator. *)
Definition CreateTemp (io : ioFail) (p : path) : res unit :=
  if bool_decide (p = []) then Err "createtemp .tmp-/: pattern contains path separator"
  else orIO io (Ok tt).
(** [os.Rename] of a temporary file, which is not part of the tree. *)
Definition renameTemp (io : ioFail) (p : path) (b : bytes) (t : tree) : tree * res unit :=
  match stat t p with
  | Found Dir => (t, Err (pathErr "rename" p "file exists"))
  | _ => match io with Some e => (t, Err e) | None => (<[p := File b]> t, Ok tt) end
  end.

(** The steps shared by Put and PutReader; the temporary file goes when one fails. *)
Definition writeFile (createMsg copyMsg : string) (io : putIO) (checkSize : Z -> res unit)
    (checkClose : bool) (full : path) (data : stream) (t : tree) : tree * res unit :=
  let '(t, r) := MkdirAll (pio_mkdir io) (parent full) t in
  match wrapErr "failed to create directory" r ≫= fun _ =>
        wrapErr createMsg (CreateTemp (pio_create io) full) ≫= fun _ =>
        wrapErr copyMsg (orIO (pio_copy io) (orIO (sr_err data) (Ok tt))) ≫= fun _ =>
        checkSize (Z.of_nat (length (sr_data data))) ≫= fun _ =>
        orIO (pio_sync io) (Ok tt) ≫= fun _ =>
        if checkClose then orIO (pio_close io) (Ok tt) else Ok tt with
  | Ok _ => let '(t, r) := renameTemp (pio_rename io) full (sr_data data) t in
            (t, wrapErr "failed to rename temp file" r)
  | e => (t, e)
  end.

(** ** FileBackend *)

Record FileBackend := mkFileBackend { fb_rootDir : path; fb_tree : tree }.
Definition on_tree {A} (f : tree -> tree * A) (b : FileBackend) : FileBackend * A :=
  let '(t, a) := f (fb_tree b) in (mkFileBackend (fb_rootDir b) t, a).

Definition fb_Put (io : putIO) (p : string) (data : stream) (size : Z) (b : FileBackend)
  : FileBackend * res unit :=
  let check written :=
    if (0 <? size) && negb (written =? size)
    then Err ("incomplete write: expected " +:+ pretty size +:+ ", got " +:+ pretty written)%string
    else Ok tt in
  let io := mkPutIO (pio_mkdir io) (pio_create io) (pio_copy io)
    ((fun e => "failed to sync file: " +:+ e)%string <$> pio_sync io)
    ((fun e => "failed to close temp file: " +:+ e)%string <$> pio_close io) (pio_rename io) in
  on_tree (writeFile "failed to create temp file" "failed to write file" io check true
             (pathJoin (fb_rootDir b) p) data) b.

(** A directory opens like a file; reading from it fails. *)
Definition openFile (io : ioFail) (full : path) (t : tree) : res stream :=
  match io with
  | Some e => Err ("failed to open file: " +:+ e)
  | None =>
    match stat t full with
    | Found (File b) => Ok (streamOf b)
    | Found Dir => Ok (mkStream [] (Some (pathErr "read" full "is a directory")))
    | NotExist => Err ErrObjectNotFound
    | NotDir => Err ("failed to open file: " +:+ pathErr "open" full "not a directory")
    end
  end.
Definition fb_Get (io : ioFail) (p : string) (b : FileBackend) : res stream :=
  openFile io (pathJoin (fb_rootDir b) p) (fb_tree b).

(** [os.Remove] also removes an empty directory. *)
Definition removePath (io : ioFail) (full : path) (t : tree) : tree * res unit :=
  match io, stat t full with
  | Some e, _ => (t, Err e)
  | None, NotExist => (t, Ok tt)
  | None, NotDir => (t, Err (pathErr "remove" full "not a directory"))
  | None, Found (File _) => (delete full t, Ok tt)
  | None, Found Dir =>
    if bool_decide (full = []) then (t, Err (pathErr "remove" full "device or resource busy"))
    else if emptyDir t full then (delete full t, Ok tt)
    else (t, Err (pathErr "remove" full "directory not empty"))
  end.
Definition fb_Delete (io : ioFail) (p : string) (b : FileBackend) : FileBackend * res unit :=
  on_tree (fun t => let '(t, r) := removePath io (pathJoin (fb_rootDir b) p) t in
                    (t, wrapErr "failed to delete file" r)) b.

Definition statFile (io : ioFail) (full : path) (t : tree) : res (option node) :=
  match io, stat t full with
  | Some e, _ => Err ("failed to stat file: " +:+ e)
  | None, Found n => Ok (Some n)
  | None, NotExist => Ok None
  | None, NotDir => Err ("failed to stat file: " +:+ pathErr "stat" full "not a directory")
  end.
Definition fb_Exists (io : ioFail) (p : string) (b : FileBackend) : res bool :=
  (fun n => bool_decide (is_Some n)) <$> statFile io (pathJoin (fb_rootDir b) p) (fb_tree b).
(** The size of a directory is up to the file system. *)
Definition fb_Size (dirSize : Z) (io : ioFail) (p : string) (b : FileBackend) : res Z :=
  match statFile io (pathJoin (fb_rootDir b) p) (fb_tree b) with
  | Ok (Some (File c)) => Ok (Z.of_nat (length c))
  | Ok (Some Dir) => Ok dirSize
  | Ok None => Err ErrObjectNotFound
  | Err e => Err e
  | Panic w => Panic w
  end.

(** The order in which [filepath.Walk] visits: names of a directory in order. *)
Fixpoint namesLe (p q : path) : bool :=
  match p, q with
  | [], _ => true
  | _ :: _, [] => false
  | a :: p, b :: q => if bool_decide (a = b) then namesLe p q else sltb a b
  end.
Definition path_le (x y : path * node) : Prop := namesLe x.1 y.1 = true.
#[export] Instance path_le_dec : RelDecision path_le.
Proof. intros x y. unfold path_le. apply _. Defined.

Definition isFile (n : node) : bool := match n with File _ => true | Dir => false end.
Definition fb_List (io : ioFail) (prefix : string) (b : FileBackend) : res (list string) :=
  let searchPath := pathJoin (fb_rootDir b) prefix in
  match io, stat (fb_tree b) searchPath with
  | Some e, _ => Err ("failed to stat list prefix: " +:+ e)
  | None, NotExist => Ok []
  | None, NotDir => Err ("failed to stat list prefix: " +:+ pathErr "stat" searchPath "not a directory")
  | None, Found _ =>
    Ok ((fun x => Rel (fb_rootDir b) x.1) <$>
        filter (fun x => below searchPath x.1 && isFile x.2 = true)
          (merge_sort path_le (map_to_list (fb_tree b))))
  end.

Definition quoted (s : string) : string := String (ascii_of_nat 34) (s +:+ String (ascii_of_nat 34) "").
(** Digits of [%x]. *)
Definition fmtx (n : Z) : string := fmtHex (Z.to_nat (Z.log2 n / 4 + 1)) n.
Definition fb_PutReader (io : putIO) (p : string) (data : stream) (b : FileBackend)
  : FileBackend * res string :=
  let io := mkPutIO (pio_mkdir io) (pio_create io) (pio_copy io)
    ((fun e => "failed to sync temp file: " +:+ e)%string <$> pio_sync io) (pio_close io)
    (pio_rename io) in
  let '(b, r) := on_tree (writeFile "failed to create temp file" "failed to write temp file" io
                   (fun _ => Ok tt) false (pathJoin (fb_rootDir b) p) data) b in
  (b, (fun _ => quoted (fmtx (Z.of_nat (length (sr_data data))))) <$> r).

Definition fb_GetRange (io : ioFail) (p : string) (offset len : Z) (b : FileBackend) : res stream :=
  let full := pathJoin (fb_rootDir b) p in
  file ← openFile io full (fb_tree b);
  if offset <? 0 then Err ("failed to seek file: " +:+ pathErr "seek" full "invalid argument")
  else Ok (LimitReader (Z.max 0 len) (mkStream (drop (Z.to_nat offset) (sr_data file)) (sr_err file))).

(** A directory moves with everything below it. *)
Definition moveTree (old new : path) (t : tree) : tree :=
  list_to_map ((fun x => (if below old x.1 then new ++ drop (length old) x.1 else x.1, x.2))
               <$> map_to_list t).
Definition renamePath (io : ioFail) (old new : path) (t : tree) : tree * res unit :=
  match stat t new, stat t old with
  | Found Dir, _ => (t, Err (pathErr "rename" old "file exists"))
  | _, NotExist => (t, Err (pathErr "rename" old "no such file or directory"))
  | _, NotDir => (t, Err (pathErr "rename" old "not a directory"))
  | at_new, Found n =>
    match io with
    | Some e => (t, Err e)
    | None =>
      match n, at_new with
      | File c, _ => (<[new := File c]> (delete old t), Ok tt)
      | Dir, Found _ => (t, Err (pathErr "rename" old "not a directory"))
      | Dir, _ =>
        if strictlyBelow old new then (t, Err (pathErr "rename" old "invalid argument"))
        else (moveTree old new t, Ok tt)
      end
    end
  end.
Definition fb_AtomicRename (mkIO : option (nat * string)) (io : ioFail) (oldPath newPath : string)
    (b : FileBackend) : FileBackend * res unit :=
  let old := pathJoin (fb_rootDir b) oldPath in
  let new := pathJoin (fb_rootDir b) newPath in
  on_tree (fun t =>
    let '(t, r) := MkdirAll mkIO (parent new) t in
    match wrapErr "failed to create target directory" r with
    | Ok _ => let '(t, r) := renamePath io old new t in (t, wrapErr "failed to rename file" r)
    | e => (t, e)
    end) b.

(** ** The interface of a backend

    What the tiers and the gateway use of [BackendStorage]; a backend is given
    by the state it keeps. *)

Record backendIO := mkBackendIO { bio_put : putIO; bio_get : ioFail; bio_delete : ioFail; bio_size : ioFail }.
Definition calm : backendIO := mkBackendIO goodIO None None None.

Class BackendStorage (B : Type) := {
  be_Put : putIO -> string -> stream -> Z -> B -> B * res unit;
  be_Get : ioFail -> string -> B -> res stream;
  be_Delete : ioFail -> string -> B -> B * res unit;
  be_Size : ioFail -> string -> B -> res Z
}.
#[export] Instance FileStorage (dirSize : Z) : BackendStorage FileBackend := {
  be_Put := fb_Put; be_Get := fb_Get; be_Delete := fb_Delete; be_Size := fb_Size dirSize
}.

(** ** TieredObjectStore *)

Notation StorageTier := Z (only parsing).
Definition TierHot : StorageTier := 0.
Definition TierWarm : StorageTier := 1.
Definition TierCold : StorageTier := 2.
Definition TierArchive : StorageTier := 3.
Definition tierString (t : StorageTier) : string :=
  if t =? TierHot then "HOT" else if t =? TierWarm then "WARM" else if t =? TierCold then "COLD"
  else if t =? TierArchive then "ARCHIVE" else "UNKNOWN".
Definition ParseStorageTier (s : string) : StorageTier :=
  if bool_decide (s ∈ ["HOT"; "hot"; "Hot"])%string then TierHot
  else if bool_decide (s ∈ ["WARM"; "warm"; "Warm"])%string then TierWarm
  else if bool_decide (s ∈ ["COLD"; "cold"; "Cold"])%string then TierCold
  else if bool_decide (s ∈ ["ARCHIVE"; "archive"; "Archive"])%string then TierArchive
  else TierCold.

(** The shape the storage layer hands out. *)
Record CommonMetadata := mkCommon {
  cm_Key : string; cm_Bucket : string; cm_Size : Z; cm_ContentType : string;
  cm_ContentEncoding : string; cm_ETag : string; cm_UserMetadata : StringMap;
  cm_StorageTier : StorageTier; cm_CreatedAt : Time; cm_ModifiedAt : Time; cm_AccessCount : Z;
  cm_LastAccessedAt : Time; cm_Encrypted : bool; cm_Vectorized : bool; cm_VersionID : string
}.
Definition metadataToCommon (m : ObjectMetadata) : CommonMetadata :=
  mkCommon (om_Key m) (om_Bucket m) (om_Size m) (om_ContentType m) (om_ContentEncoding m) (om_ETag m)
    (om_UserMetadata m) (om_StorageTier m) (om_CreatedAt m) (om_ModifiedAt m) (om_AccessCount m)
    (om_LastAccessedAt m) (om_Encrypted m) (om_Vectorized m) (om_VersionID m).
Definition with_StorageTier (t : StorageTier) (m : ObjectMetadata) : ObjectMetadata :=
  mkObject (om_Key m) (om_Bucket m) (om_Size m) (om_ContentType m) (om_ContentEncoding m) (om_ETag m)
    (om_Checksum m) (om_ChecksumType m) (om_UserMetadata m) t (om_CreatedAt m) (om_ModifiedAt m)
    (om_AccessCount m) (om_LastAccessedAt m) (om_Encrypted m) (om_EncryptedDEK m) (om_Vectorized m)
    (om_VectorID m) (om_VersionID m) (om_IsLatest m) (om_PreviousVersion m) (om_ObjectStatus m)
    (om_TieringLocked m) (om_LockedTier m) (om_PipelineResults m) (om_DeleteMarker m) (om_RetainUntil m)
    (om_SSECUsed m) (om_SSECKeySHA256 m) (om_SSECAlgorithm m).

(** Arguments of a call of the metadata store's PutObject. *)
Record metaIO := mkMetaIO {
  mio_uuid : string; mio_now : Time; mio_now2 : Time; mio_wal : flushIO; mio_commit : res unit
}.

Section Tiers.
Context {B : Type} `{BackendStorage B} `{Bolt} `{AnyJson} `{MetaText}.

Record TieredObjectStore := mkTiered {
  ts_tiers : gmap StorageTier B;
  ts_currentSize : gmap StorageTier Z;
  ts_maxSize : gmap StorageTier Z
}.
Definition NewTieredObjectStore : TieredObjectStore := mkTiered ∅ ∅ ∅.
Definition RegisterTier (tier : StorageTier) (backend : B) (maxSize : Z) (s : TieredObjectStore)
  : TieredObjectStore :=
  mkTiered (<[tier := backend]> (ts_tiers s)) (ts_currentSize s) (<[tier := maxSize]> (ts_maxSize s)).
Definition GetTierBackend (tier : StorageTier) (s : TieredObjectStore) : option B := ts_tiers s !! tier.
(** A missing entry of a Go map reads as zero. *)
Definition GetTierSize (tier : StorageTier) (s : TieredObjectStore) : Z :=
  default 0 (ts_currentSize s !! tier).
Definition addSize (tier : StorageTier) (n : Z) (s : TieredObjectStore) : TieredObjectStore :=
  mkTiered (ts_tiers s) (<[tier := wrap64 (GetTierSize tier s + n)]> (ts_currentSize s)) (ts_maxSize s).
Definition set_tier (tier : StorageTier) (b : B) (s : TieredObjectStore) : TieredObjectStore :=
  mkTiered (<[tier := b]> (ts_tiers s)) (ts_currentSize s) (ts_maxSize s).
Definition makePath (bucket key : string) : string := bucket +:+ "/" +:+ key.

Definition ts_Put (io : backendIO) (bkt key : string) (data : stream) (size : Z) (tier : StorageTier)
    (s : TieredObjectStore) : TieredObjectStore * res unit :=
  match ts_tiers s !! tier with
  | None => (s, Err ErrTierNotAvailable)
  | Some backend =>
    let '(backend, r) := be_Put (bio_put io) (makePath bkt key) data size backend in
    let s := set_tier tier backend s in
    match wrapErr "failed to put object" r with
    | Ok _ => (addSize tier size s, Ok tt)
    | e => (s, e)
    end
  end.

Definition ts_Get (io : backendIO) (bkt key : string) (tier : StorageTier) (s : TieredObjectStore)
  : res stream :=
  match ts_tiers s !! tier with
  | None => Err ErrTierNotAvailable
  | Some backend => wrapErr "failed to get object" (be_Get (bio_get io) (makePath bkt key) backend)
  end.

Definition ts_Delete (io : backendIO) (bkt key : string) (tier : StorageTier) (s : TieredObjectStore)
  : TieredObjectStore * res unit :=
  match ts_tiers s !! tier with
  | None => (s, Err ErrTierNotAvailable)
  | Some backend =>
    let size := match be_Size (bio_size io) (makePath bkt key) backend with Ok n => n | _ => 0 end in
    let '(backend, r) := be_Delete (bio_delete io) (makePath bkt key) backend in
    let s := set_tier tier backend s in
    match wrapErr "failed to delete object" r with
    | Ok _ => (addSize tier (- size) s, Ok tt)
    | e => (s, e)
    end
  end.

Definition ts_Head (bkt key : string) (meta : option MetadataStore) : res CommonMetadata :=
  match meta with
  | None => Err ErrObjectNotFound
  | Some m =>
    match MetadataStore.GetObject bkt key m with
    | Ok o => Ok (metadataToCommon o)
    | Err _ => Err ErrObjectNotFound
    | Panic w => Panic w
    end
  end.

(** The reader of the source file keeps the content it was opened on, so a
    put to the same file does not change what it delivers. *)
Definition ts_Migrate (ioFrom ioTo : backendIO) (closed : ioFail) (mio : metaIO) (bkt key : string)
    (fromTier toTier : StorageTier) (s : TieredObjectStore) (meta : option MetadataStore)
  : TieredObjectStore * option MetadataStore * res unit :=
  match meta with
  | None => (s, meta, Err ErrObjectNotFound)
  | Some ms =>
    match MetadataStore.GetObject bkt key ms with
    | Err _ => (s, meta, Err ErrObjectNotFound)
    | Panic w => (s, meta, Panic w)
    | Ok m =>
      if negb (om_StorageTier m =? fromTier) then (s, meta, Err "object is not in source tier")
      else
      match ts_tiers s !! fromTier, ts_tiers s !! toTier with
      | Some srcBackend, Some dstBackend =>
        let srcPath := makePath bkt key in
        match wrapErr "failed to read from source" (be_Get (bio_get ioFrom) srcPath srcBackend) with
        | Ok reader =>
          let '(dstBackend, r) := be_Put (bio_put ioTo) srcPath reader (om_Size m) dstBackend in
          let s := set_tier toTier dstBackend s in
          match wrapErr "failed to write to destination" r,
                wrapErr "failed to close source after migration" (orIO closed (Ok tt)) with
          | Ok _, Ok _ =>
            let '(srcBackend, r) :=
              be_Delete (bio_delete ioFrom) srcPath (default srcBackend (ts_tiers s !! fromTier)) in
            let s := set_tier fromTier srcBackend s in
            match wrapErr "failed to delete source after migration" r with
            | Ok _ =>
              let s := addSize toTier (om_Size m) (addSize fromTier (- om_Size m) s) in
              let '(ms, _, r) := MetadataStore.PutObject (mio_uuid mio) (mio_now mio) (mio_now2 mio)
                (mio_wal mio) (mio_commit mio) bkt key (with_StorageTier toTier m) ms in
              (s, Some ms, wrapErr "failed to update metadata after migration" r)
            | e => (s, meta, e)
            end
          | Ok _, e => (s, meta, e)
          | e, _ => (s, meta, e)
          end
        | Err e => (s, meta, Err e)
        | Panic w => (s, meta, Panic w)
        end
      | _, _ => (s, meta, Err ErrTierNotAvailable)
      end
    end
  end.
End Tiers.
Arguments TieredObjectStore B : clear implicits.

(** ** The locks of objects

    [lockObject] and [unlockObject] of one object, step by step.  The map has
    the lock that [LoadOrStore] finds; a lock has its mutex and the count of
    its users.  A call is where its program counter says: it has loaded a
    lock, waits for the mutex, works under it, has loaded the lock to release,
    or has released it. *)

Inductive lockPC := Calling | Loaded (l : nat) | Waiting (l : nat) | Working | Releasing (l : nat)
                  | Released (l : nat) | Returned.
#[export] Instance lockPC_eq_dec : EqDecision lockPC.
Proof. solve_decision. Defined.

Record objectLock := mkLock { ol_mu : bool; ol_refs : Z }.
#[export] Instance objectLock_eq_dec : EqDecision objectLock.
Proof. solve_decision. Defined.

(** Unlocking a mutex that is not locked ends the process. *)
Record lockState := mkLockState {
  lk_current : option nat; lk_locks : list objectLock; lk_calls : list lockPC; lk_crashed : bool
}.
#[export] Instance lockState_eq_dec : EqDecision lockState.
Proof. solve_decision. Defined.

Definition moveTo (i : nat) (pc : lockPC) (s : lockState) : lockState :=
  mkLockState (lk_current s) (lk_locks s) (<[i := pc]> (lk_calls s)) (lk_crashed s).
Definition setLock (l : nat) (mu : bool) (refs : Z) (s : lockState) : lockState :=
  mkLockState (lk_current s) (<[l := mkLock mu refs]> (lk_locks s)) (lk_calls s) (lk_crashed s).

(** The next step of the i-th call, if it has one. *)
Definition lockStep (i : nat) (s : lockState) : option lockState :=
  if lk_crashed s then None else
  pc ← lk_calls s !! i;
  match pc with
  | Calling =>
    match lk_current s with
    | Some l => Some (moveTo i (Loaded l) s)
    | None =>
      let l := length (lk_locks s) in
      Some (moveTo i (Loaded l)
             (mkLockState (Some l) (lk_locks s ++ [mkLock false 0]) (lk_calls s) false))
    end
  | Loaded l =>
    ol ← lk_locks s !! l;
    Some (moveTo i (Waiting l) (setLock l (ol_mu ol) (ol_refs ol + 1) s))
  | Waiting l =>
    ol ← lk_locks s !! l;
    if ol_mu ol then None else Some (moveTo i Working (setLock l true (ol_refs ol) s))
  | Working =>
    match lk_current s with
    | None => Some (moveTo i Returned s)
    | Some l => Some (moveTo i (Releasing l) s)
    end
  | Releasing l =>
    ol ← lk_locks s !! l;
    if ol_mu ol then Some (moveTo i (Released l) (setLock l false (ol_refs ol) s))
    else Some (mkLockState (lk_current s) (lk_locks s) (lk_calls s) true)
  | Released l =>
    ol ← lk_locks s !! l;
    let s := setLock l (ol_mu ol) (ol_refs ol - 1) s in
    Some (moveTo i Returned
            (if ol_refs ol - 1 =? 0 then mkLockState None (lk_locks s) (lk_calls s) (lk_crashed s) else s))
  | Returned => None
  end.

(** A schedule names the call that moves; a call that cannot is skipped. *)
Fixpoint runLocks (schedule : list nat) (s : lockState) : lockState :=
  match schedule with
  | [] => s
  | i :: schedule => runLocks schedule (default s (lockStep i s))
  end.
Definition calls (n : nat) : lockState := mkLockState None [] (repeat Calling n) false.
Definition working (s : lockState) : nat := length (filter (fun pc => pc = Working) (lk_calls s)).
