(* ===== verification/StorageTheorems.v ===== *)
(** * Storage backends and tiers: theorems

    A file backend implements a map from cleaned paths to contents; the tiers
    are proved against that interface.  Locks of objects: exclusive for two
    calls, not for three. *)

From S2P Require Import Prelude GoStrings GoText Bolt Integrity MetadataStore MetadataTheorems Storage.
From Stdlib Require Import Ascii String.
From stdpp Require Import base list strings gmap.

#[local] Open Scope Z_scope.

(** ** The tree *)

(** Everything lies in directories. *)
Definition treeOk (t : tree) : Prop :=
  forall q n, t !! q = Some n -> forall k, (k < length q)%nat -> nodeAt t (take k q) = Some Dir.

Lemma nodeAt_cons t p : p <> [] -> nodeAt t p = t !! p.
Proof. by destruct p. Qed.
Lemma nodeAt_insert p n t q : p <> [] ->
  nodeAt (<[p := n]> t) q = if decide (q = p) then Some n else nodeAt t q.
Proof.
  intros P. destruct q as [|c q]; [by rewrite decide_False|]. rewrite !nodeAt_cons by done.
  case_decide; subst; [by rewrite lookup_insert_eq|by rewrite lookup_insert_ne].
Qed.
Lemma nodeAt_delete p t q : p <> [] ->
  nodeAt (delete p t) q = if decide (q = p) then None else nodeAt t q.
Proof.
  intros P. destruct q as [|c q]; [by rewrite decide_False|]. rewrite !nodeAt_cons by done.
  case_decide; subst; [by rewrite lookup_delete_eq|by rewrite lookup_delete_ne].
Qed.

(** A walk arrives where every directory on the way is one. *)
Lemma walk_found t pre rest n : walk t pre rest = Found n <->
  (forall k, (k < length rest)%nat -> nodeAt t (pre ++ take k rest) = Some Dir) /\
  nodeAt t (pre ++ rest) = Some n.
Proof.
  revert pre. induction rest as [|c rest IH]; intros pre; cbn [walk].
  - rewrite app_nil_r. destruct (nodeAt t pre) as [[b|]|]; split; try done;
      first [intros [= <-]; split; [simpl; lia|done] | by intros [_ [= <-]] | by intros [_ ?]].
  - destruct (nodeAt t pre) as [[b|]|] eqn:E.
    + split; [done|]. intros [D _]. specialize (D 0%nat ltac:(simpl; lia)).
      rewrite take_0, app_nil_r in D. congruence.
    + rewrite IH, <- app_assoc. simpl. split; intros [D F]; (split; [|done]).
      * intros [|k] K; simpl; [by rewrite app_nil_r|]. specialize (D k ltac:(lia)).
        by rewrite <- app_assoc in D.
      * intros k K. rewrite <- app_assoc. apply (D (S k)). lia.
    + split; [done|]. intros [D _]. specialize (D 0%nat ltac:(simpl; lia)).
      rewrite take_0, app_nil_r in D. congruence.
Qed.

Lemma treeOk_above t q n k : treeOk t -> nodeAt t q = Some n -> (k < length q)%nat ->
  nodeAt t (take k q) = Some Dir.
Proof. intros T N K. destruct q as [|c q]; [simpl in K; lia|]. by apply (T _ n). Qed.

Lemma stat_found t q n : treeOk t -> stat t q = Found n <-> nodeAt t q = Some n.
Proof.
  intros T. unfold stat. rewrite walk_found. simpl. split; [by intros [_ N]|]. intros N.
  split; [|done]. intros k K. by apply (treeOk_above t q n).
Qed.

(** The content of the file at a path. *)
Definition fileAt (t : tree) (q : path) : option bytes :=
  match nodeAt t q with Some (File b) => Some b | _ => None end.
Lemma fileAt_stat t q c : treeOk t -> fileAt t q = Some c <-> stat t q = Found (File c).
Proof.
  intros T. rewrite stat_found by done. unfold fileAt.
  destruct (nodeAt t q) as [[]|]; split; intros; by simplify_eq.
Qed.

(** ** Directories are added, files stay *)

Definition grows (t t' : tree) : Prop :=
  (forall q n, nodeAt t q = Some n -> nodeAt t' q = Some n) /\
  (forall q c, nodeAt t' q = Some (File c) -> nodeAt t q = Some (File c)).

Lemma grows_files t t' q : grows t t' -> fileAt t' q = fileAt t q.
Proof.
  intros [A F]. unfold fileAt. destruct (nodeAt t q) as [[c|]|] eqn:E.
  - by rewrite (A _ _ E).
  - by rewrite (A _ _ E).
  - destruct (nodeAt t' q) as [[c|]|] eqn:E'; [|done..]. apply F in E'. congruence.
Qed.

Lemma mkdirs_spec pre rest t t' r : mkdirs pre rest t = (t', r) -> treeOk t ->
  (forall k, (k < length pre)%nat -> nodeAt t (take k pre) = Some Dir) ->
  treeOk t' /\ grows t t' /\
  (r = Ok tt -> forall k, (k <= length rest)%nat -> nodeAt t' (pre ++ take k rest) = Some Dir).
Proof.
  revert pre t. induction rest as [|c rest IH]; intros pre t E T D; cbn [mkdirs] in E.
  all: assert (forall n, nodeAt t pre = n -> (forall b, n <> Some (File b)) ->
    let t1 := match n with None => <[pre := Dir]> t | _ => t end in
    treeOk t1 /\ grows t t1 /\ nodeAt t1 pre = Some Dir) as G.
  1,3: intros [[b|]|] N F; [by destruct (F b)| |]; simpl;
       [by repeat split|]; assert (pre <> []) as P by (intros ->; by simpl in N);
       rewrite nodeAt_insert, decide_True by done; (split; [|split; [split|done]]).
  1,4: intros q n L k K; rewrite nodeAt_insert by done; case_decide; [done|];
       destruct (decide (q = pre)) as [->|Q]; [by apply D|];
       rewrite lookup_insert_ne in L by done; by apply (T q n).
  1-4: intros q n; rewrite nodeAt_insert by done; case_decide; subst; congruence.
  - destruct (nodeAt t pre) as [[b|]|] eqn:N; simplify_eq; [by repeat split|..];
      destruct (G _ eq_refl ltac:(done)) as (T1 & G1 & D1); simpl in *;
      (split; [done|split; [done|]]); intros _ [|k] K; try (simpl in K; lia); simpl; by rewrite app_nil_r.
  - assert (forall t1, treeOk t1 -> grows t t1 -> nodeAt t1 pre = Some Dir ->
      mkdirs (pre ++ [c]) rest t1 = (t', r) -> treeOk t' /\ grows t t' /\
      (r = Ok tt -> forall k, (k <= length (c :: rest))%nat -> nodeAt t' (pre ++ take k (c :: rest)) = Some Dir))
      as Step.
    { intros t1 T1 [A1 F1] D1 E1. apply IH in E1 as (T' & [A' F'] & D'); [|done|].
      - split; [done|]. split; [split; intros; eauto|]. intros R [|k] K; simpl.
        + rewrite app_nil_r. by apply A'.
        + specialize (D' R k ltac:(simpl in K; lia)). by rewrite <- app_assoc in D'.
      - intros k K. rewrite length_app in K. simpl in K. destruct (decide (k = length pre)) as [->|].
        + by rewrite take_app_length.
        + rewrite take_app_le by lia. apply A1, D. lia. }
    destruct (nodeAt t pre) as [[b|]|] eqn:N; [simplify_eq; by repeat split|..];
      destruct (G _ eq_refl ltac:(done)) as (T1 & G1 & D1); by apply (Step _ T1 G1 D1).
Qed.

Lemma MkdirAll_spec io p t t' r : MkdirAll io p t = (t', r) -> treeOk t ->
  treeOk t' /\ grows t t' /\
  (r = Ok tt -> forall k, (k <= length p)%nat -> nodeAt t' (take k p) = Some Dir).
Proof.
  unfold MkdirAll. intros E T. destruct io as [[n e]|].
  - destruct (mkdirs [] (take n p) t) as [t1 r1] eqn:M. simplify_eq.
    apply mkdirs_spec in M as (T1 & G1 & _); [|done|simpl; lia].
    split; [done|]. split; [done|]. by destruct r1.
  - apply mkdirs_spec in E as (T1 & G1 & D1); [|done|simpl; lia]. split; [done|]. by split.
Qed.

(** ** Writing and removing a file *)

Lemma parent_take p k : (k < length p)%nat -> take k (parent p) = take k p /\ (k <= length (parent p))%nat.
Proof.
  intros K. unfold parent. rewrite removelast_firstn_len, length_take, take_take.
  split; [f_equal|]; lia.
Qed.

Lemma renameTemp_spec io p b t t' r : renameTemp io p b t = (t', r) -> treeOk t -> p <> [] ->
  (forall k, (k < length p)%nat -> nodeAt t (take k p) = Some Dir) ->
  treeOk t' /\
  (r = Ok tt -> forall q, fileAt t' q = if decide (q = p) then Some b else fileAt t q) /\
  (r <> Ok tt -> t' = t).
Proof.
  unfold renameTemp. intros E T P D.
  assert (stat t p <> Found Dir -> treeOk (<[p := File b]> t)) as Ins.
  { intros S q n L k K. rewrite nodeAt_insert by done.
    destruct (decide (q = p)) as [->|Q].
    - rewrite decide_False; [by apply D|]. intros X. apply (f_equal length) in X.
      rewrite length_take in X. lia.
    - rewrite lookup_insert_ne in L by done. pose proof (T _ _ L _ K) as N.
      case_decide as X; [|done]. rewrite X in N. exfalso. by apply S, stat_found. }
  assert (stat t p <> Found Dir -> forall q,
    fileAt (<[p := File b]> t) q = if decide (q = p) then Some b else fileAt t q) as F.
  { intros S q. unfold fileAt. rewrite nodeAt_insert by done. by case_decide. }
  destruct (stat t p) as [[]| |] eqn:S; [|by simplify_eq|..]; destruct io; simplify_eq;
    (split; [try done; by apply Ins|]); (split; [intros R; simplify_eq; try by apply F|]); done.
Qed.

Definition sizeRule (size : Z) (data : stream) : Prop := 0 < size -> size = Z.of_nat (length (sr_data data)).

Lemma orIO_ok {A} io (m : res A) a : orIO io m = Ok a -> io = None /\ m = Ok a.
Proof. by destruct io. Qed.
Lemma wrapErr_ok {A} ctx (m : res A) a : wrapErr ctx m = Ok a -> m = Ok a.
Proof. by destruct m. Qed.

Lemma writeFile_spec m1 m2 io check close full data t t' r :
  writeFile m1 m2 io check close full data t = (t', r) -> treeOk t ->
  treeOk t' /\
  (r = Ok tt -> sr_err data = None /\ check (Z.of_nat (length (sr_data data))) = Ok tt /\
     forall q, fileAt t' q = if decide (q = full) then Some (sr_data data) else fileAt t q) /\
  (r <> Ok tt -> forall q, fileAt t' q = fileAt t q).
Proof.
  unfold writeFile. intros E T. destruct (MkdirAll _ _ _) as [t1 r1] eqn:M.
  apply MkdirAll_spec in M as (T1 & G1 & D1); [|done].
  destruct (_ ≫= _) as [u|e|w] eqn:X; [|simplify_eq; split; [done|split; [done|]];
    intros _ q; by apply grows_files..].
  bind_inv X. apply wrapErr_ok in E0, E1, E2. apply orIO_ok in E2 as [_ E2].
  apply orIO_ok in E2 as [Z2 _]. destruct x, x0, x1, x2.
  assert (full <> []) as P. { intros ->. by cbn in E1. }
  destruct (renameTemp _ _ _ _) as [t2 r2] eqn:R. simplify_eq.
  apply renameTemp_spec in R as (T2 & F2 & N2); [|done..|].
  2: { intros k K. destruct (parent_take _ _ K) as [<- ?]. by apply D1. }
  split; [done|]. split.
  - intros W%wrapErr_ok. split; [done|]. split; [done|]. intros q. rewrite F2 by done.
    case_decide; [done|]. by apply grows_files.
  - intros W q. rewrite N2 by (intros ->; by apply W). by apply grows_files.
Qed.

Lemma emptyDir_spec t p q n : emptyDir t p = true -> t !! q = Some n -> below p q = true -> q = p.
Proof.
  unfold emptyDir. rewrite forallb_forall. intros A L B.
  specialize (A (q, n) (proj1 (list_elem_of_In _ _) (proj2 (elem_of_map_to_list _ _ _) L))).
  apply negb_true_iff in A. unfold strictlyBelow in A. cbn [fst] in A. rewrite B in A. simpl in A.
  apply bool_decide_eq_false in A. by destruct (decide (q = p)); [|destruct A].
Qed.

Lemma removePath_spec io p t t' r : removePath io p t = (t', r) -> treeOk t ->
  treeOk t' /\
  (r = Ok tt -> forall q, fileAt t' q = if decide (q = p) then None else fileAt t q) /\
  (r <> Ok tt -> t' = t).
Proof.
  unfold removePath. intros E T.
  assert (forall n, p <> [] -> nodeAt t p = Some n ->
    (forall q m, t !! q = Some m -> below p q = true -> q = p) ->
    treeOk (delete p t) /\ forall q, fileAt (delete p t) q = if decide (q = p) then None else fileAt t q) as Del.
  { intros n P N A. split.
    - intros q m L k K. rewrite nodeAt_delete by done. apply lookup_delete_Some in L as [Q L].
      rewrite decide_False; [by apply (T q m)|]. intros X. apply Q. symmetry. apply (A q m L).
      unfold below. apply bool_decide_eq_true. rewrite <- X. rewrite length_take. f_equal. lia.
    - intros q. unfold fileAt. rewrite nodeAt_delete by done. by case_decide. }
  destruct io as [e|]; [by simplify_eq|].
  destruct (stat t p) as [[b|]| |] eqn:S; try by simplify_eq.
  - simplify_eq. apply stat_found in S; [|done].
    assert (p <> []) as P by (intros ->; by simpl in S).
    destruct (Del _ P S) as [D F].
    { intros q m L B. unfold below in B. apply bool_decide_eq_true in B.
      destruct (decide (length p < length q)%nat) as [K|K].
      - pose proof (T q m L _ K) as N. rewrite B in N. congruence.
      - rewrite take_ge in B by lia. done. }
    split; [done|]. by split.
  - apply stat_found in S; [|done]. destruct (decide (p = [])) as [->|P].
    { rewrite bool_decide_true in E by done. by simplify_eq. }
    rewrite bool_decide_false in E by done.
    destruct (emptyDir t p) eqn:Em; simplify_eq; [|by repeat split].
    destruct (Del _ P S) as [D F]; [intros q m; by apply emptyDir_spec|].
    split; [done|]. by split.
  - injection E as <- <-. split; [done|]. split; [|done]. intros _ q. case_decide as Q; [|done]. subst q.
    unfold fileAt. destruct (nodeAt t p) as [n|] eqn:N; [|done]. apply (stat_found _ _ n) in N; [|done].
    congruence.
Qed.

(** ** What a backend promises

    Paths name places, a place has a content or not, and each operation
    changes at most the place it is called for, or nothing when it fails. *)
Class BackendLaws (B : Type) `{BackendStorage B} := {
  be_ok : B -> Prop;
  be_loc : B -> string -> path;
  be_at : B -> path -> option bytes;
  be_Put_law io p d size b b' r : be_Put io p d size b = (b', r) -> be_ok b ->
    be_ok b' /\ be_loc b' = be_loc b /\
    (r = Ok tt -> sr_err d = None /\ sizeRule size d /\
       forall q, be_at b' q = if decide (q = be_loc b p) then Some (sr_data d) else be_at b q) /\
    (r <> Ok tt -> forall q, be_at b' q = be_at b q);
  be_Delete_law io p b b' r : be_Delete io p b = (b', r) -> be_ok b ->
    be_ok b' /\ be_loc b' = be_loc b /\
    (r = Ok tt -> forall q, be_at b' q = if decide (q = be_loc b p) then None else be_at b q) /\
    (r <> Ok tt -> forall q, be_at b' q = be_at b q);
  be_Get_law p b c : be_ok b -> be_Get None p b = Ok (streamOf c) <-> be_at b (be_loc b p) = Some c;
  be_Get_io e p b d : be_ok b -> be_Get e p b = Ok d -> e = None;
  be_Get_calm p b d : be_Get None p b = Ok d -> sr_err d = None \/ sr_data d = [];
  be_Size_law p b c : be_ok b -> be_at b (be_loc b p) = Some c ->
    be_Size None p b = Ok (Z.of_nat (length c))
}.

Lemma fb_Put_spec io p d size b b' r : fb_Put io p d size b = (b', r) -> treeOk (fb_tree b) ->
  treeOk (fb_tree b') /\ fb_rootDir b' = fb_rootDir b /\
  (r = Ok tt -> sr_err d = None /\ sizeRule size d /\ forall q, fileAt (fb_tree b') q =
     if decide (q = pathJoin (fb_rootDir b) p) then Some (sr_data d) else fileAt (fb_tree b) q) /\
  (r <> Ok tt -> forall q, fileAt (fb_tree b') q = fileAt (fb_tree b) q).
Proof.
  unfold fb_Put, on_tree. intros E T. destruct (writeFile _ _ _ _ _ _ _ _) as [t' r'] eqn:W.
  simplify_eq. simpl. apply writeFile_spec in W as (T' & A & F); [|done].
  split; [done|]. split; [done|]. split; [|done]. intros R. destruct (A R) as (Z & C & V).
  split; [done|]. split; [|done]. intros P. destruct ((0 <? size) && _) eqn:S; [done|].
  destruct (0 <? size) eqn:S1; boolify; [|lia]. simpl in S. boolify. lia.
Qed.

Lemma fb_Delete_spec io p b b' r : fb_Delete io p b = (b', r) -> treeOk (fb_tree b) ->
  treeOk (fb_tree b') /\ fb_rootDir b' = fb_rootDir b /\
  (r = Ok tt -> forall q, fileAt (fb_tree b') q =
     if decide (q = pathJoin (fb_rootDir b) p) then None else fileAt (fb_tree b) q) /\
  (r <> Ok tt -> forall q, fileAt (fb_tree b') q = fileAt (fb_tree b) q).
Proof.
  unfold fb_Delete, on_tree. intros E T. destruct (removePath _ _ _) as [t' r'] eqn:W.
  simplify_eq. simpl. apply removePath_spec in W as (T' & A & F); [|done].
  split; [done|]. split; [done|]. split; [intros R%wrapErr_ok; by apply A|].
  intros R q. by rewrite F by (intros ->; by apply R).
Qed.

Lemma fb_PutReader_spec io p d b b' r : fb_PutReader io p d b = (b', r) -> treeOk (fb_tree b) ->
  treeOk (fb_tree b') /\ fb_rootDir b' = fb_rootDir b /\
  (is_ok r = true -> sr_err d = None /\ forall q, fileAt (fb_tree b') q =
     if decide (q = pathJoin (fb_rootDir b) p) then Some (sr_data d) else fileAt (fb_tree b) q) /\
  (is_ok r = false -> forall q, fileAt (fb_tree b') q = fileAt (fb_tree b) q).
Proof.
  unfold fb_PutReader, on_tree. intros E T. destruct (writeFile _ _ _ _ _ _ _ _) as [t' r'] eqn:W.
  simplify_eq. simpl. apply writeFile_spec in W as (T' & A & F); [|done].
  split; [done|]. split; [done|].
  destruct r' as [[]| |]; simpl; (split; intros R; try done); [|by apply F..].
  by destruct (A eq_refl) as (? & _ & ?).
Qed.

Lemma fb_Get_spec p b c : treeOk (fb_tree b) ->
  fb_Get None p b = Ok (streamOf c) <-> fileAt (fb_tree b) (pathJoin (fb_rootDir b) p) = Some c.
Proof.
  intros T. rewrite fileAt_stat by done. unfold fb_Get, openFile.
  destruct (stat _ _) as [[]| |]; split; intros E; unfold streamOf in *; by simplify_eq.
Qed.

#[export, refine] Instance FileStorageLaws (dirSize : Z) : @BackendLaws FileBackend (FileStorage dirSize) := {
  be_ok b := treeOk (fb_tree b);
  be_loc b := pathJoin (fb_rootDir b);
  be_at b := fileAt (fb_tree b)
}.
Proof.
  - intros io p d size b b' r E T. destruct (fb_Put_spec _ _ _ _ _ _ _ E T) as (? & R & ?). by rewrite R.
  - intros io p b b' r E T. destruct (fb_Delete_spec _ _ _ _ _ E T) as (? & R & ?). by rewrite R.
  - intros p b c. apply fb_Get_spec.
  - intros [e|] p b d _; simpl; [|done]. unfold fb_Get, openFile. done.
  - intros p b d. simpl. unfold fb_Get, openFile. destruct (stat _ _) as [[]| |]; intros; simplify_eq; auto.
  - intros p b c T F%fileAt_stat; [|done]. simpl. unfold fb_Size, statFile. by rewrite F.
Defined.

(** Operations on files and what they do to a map from places to contents. *)
Inductive fileOp :=
| OpPut (io : putIO) (p : string) (data : stream) (size : Z)
| OpPutReader (io : putIO) (p : string) (data : stream)
| OpDelete (io : ioFail) (p : string).
Definition fileStep (op : fileOp) (b : FileBackend) : FileBackend * bool :=
  match op with
  | OpPut io p d size => let '(b, r) := fb_Put io p d size b in (b, is_ok r)
  | OpPutReader io p d => let '(b, r) := fb_PutReader io p d b in (b, is_ok r)
  | OpDelete io p => let '(b, r) := fb_Delete io p b in (b, is_ok r)
  end.
Definition mapStep (root : path) (op : fileOp) (ok : bool) (m : path -> option bytes) (q : path)
  : option bytes :=
  if ok then
    match op with
    | OpPut _ p d _ | OpPutReader _ p d => if decide (q = pathJoin root p) then Some (sr_data d) else m q
    | OpDelete _ p => if decide (q = pathJoin root p) then None else m q
    end
  else m q.
(** The backend and the map after a sequence of operations. *)
Fixpoint runFiles (ops : list fileOp) (b : FileBackend) (m : path -> option bytes)
  : FileBackend * (path -> option bytes) :=
  match ops with
  | [] => (b, m)
  | op :: ops => let '(b', ok) := fileStep op b in runFiles ops b' (mapStep (fb_rootDir b) op ok m)
  end.

Lemma res_unit_cases (r : res unit) : (is_ok r = true /\ r = Ok tt) \/ (is_ok r = false /\ r <> Ok tt).
Proof. destruct r as [[]| |]; auto. Qed.

Lemma fileStep_spec op b b' ok : fileStep op b = (b', ok) -> treeOk (fb_tree b) ->
  treeOk (fb_tree b') /\ fb_rootDir b' = fb_rootDir b /\
  forall q, fileAt (fb_tree b') q = mapStep (fb_rootDir b) op ok (fileAt (fb_tree b)) q.
Proof.
  intros E T. destruct op as [io p d size|io p d|io p]; simpl in E.
  - destruct (fb_Put _ _ _ _ _) as [b1 r] eqn:P. simplify_eq.
    apply fb_Put_spec in P as (T' & R & A & F); [|done]. split; [done|]. split; [done|].
    unfold mapStep. destruct (res_unit_cases r) as [[-> ->]|[-> N]]; [by apply A|by apply F].
  - destruct (fb_PutReader _ _ _ _) as [b1 r] eqn:P. simplify_eq.
    apply fb_PutReader_spec in P as (T' & R & A & F); [|done]. split; [done|]. split; [done|].
    unfold mapStep. destruct (is_ok r); [by apply A|by apply F].
  - destruct (fb_Delete _ _ _) as [b1 r] eqn:P. simplify_eq.
    apply fb_Delete_spec in P as (T' & R & A & F); [|done]. split; [done|]. split; [done|].
    unfold mapStep. destruct (res_unit_cases r) as [[-> ->]|[-> N]]; [by apply A|by apply F].
Qed.

Lemma mapStep_ext root op ok m m' : (forall q, m q = m' q) -> forall q, mapStep root op ok m q = mapStep root op ok m' q.
Proof. intros E q. unfold mapStep. destruct ok, op; try case_decide; auto. Qed.
Lemma runFiles_spec ops b m : treeOk (fb_tree b) -> (forall q, fileAt (fb_tree b) q = m q) ->
  let '(b', m') := runFiles ops b m in
  treeOk (fb_tree b') /\ fb_rootDir b' = fb_rootDir b /\ forall q, fileAt (fb_tree b') q = m' q.
Proof.
  revert b m. induction ops as [|op ops IH]; intros b m T M; simpl; [done|].
  destruct (fileStep op b) as [b1 ok] eqn:E. apply fileStep_spec in E as (T1 & R1 & M1); [|done].
  specialize (IH b1 (mapStep (fb_rootDir b) op ok m) T1).
  destruct (runFiles _ _ _) as [b' m']. destruct IH as (T' & R' & M').
  { intros q. rewrite M1. by apply mapStep_ext. }
  split; [done|]. split; [congruence|done].
Qed.

(** C29: The file backend implements a map from cleaned paths to contents: after any
    sequence of puts, PutReaders and deletes, failing ones included, a read
    delivers exactly what the map has at its path. *)
Theorem file_backend_refines_map ops b :
  treeOk (fb_tree b) ->
  let '(b', m) := runFiles ops b (fileAt (fb_tree b)) in
  treeOk (fb_tree b') /\
  forall p c, fb_Get None p b' = Ok (streamOf c) <-> m (pathJoin (fb_rootDir b) p) = Some c.
Proof.
  intros T. pose proof (runFiles_spec ops b _ T (fun _ => eq_refl)) as S.
  destruct (runFiles _ _ _) as [b' m]. destruct S as (T' & R & M). split; [done|]. intros p c.
  rewrite fb_Get_spec by done. by rewrite R, M.
Qed.

(** ** Tiers over any backend that keeps these promises *)

Section Tiers.
Context {B : Type} `{BackendLaws B} `{BoltLaws} `{AnyJson} `{MetaText}.
Implicit Types s : TieredObjectStore B.

Definition tiersOk s : Prop := forall t b, ts_tiers s !! t = Some b -> be_ok b.
(** The place of an object in a tier, and what is there. *)
Definition place (tier : StorageTier) (bkt key : string) s : option path :=
  (fun b => be_loc b (makePath bkt key)) <$> ts_tiers s !! tier.
Definition contentAt (tier : StorageTier) (q : path) s : option bytes :=
  b ← ts_tiers s !! tier; be_at b q.

Lemma ts_Get_spec bkt key tier s c : tiersOk s ->
  ts_Get calm bkt key tier s = Ok (streamOf c) <->
  exists q, place tier bkt key s = Some q /\ contentAt tier q s = Some c.
Proof.
  intros T. unfold ts_Get, place, contentAt. destruct (ts_tiers s !! tier) as [b|] eqn:L; simpl.
  - specialize (T _ _ L). split.
    + intros E%wrapErr_ok. eexists. split; [done|]. by apply be_Get_law.
    + intros (q & [= <-] & E). apply be_Get_law in E; [|done]. by rewrite E.
  - split; [done|]. by intros (q & ? & _).
Qed.

Lemma contentAt_set tier b s t q : contentAt t q (set_tier tier b s) =
  if decide (t = tier) then be_at b q else contentAt t q s.
Proof.
  unfold contentAt, set_tier. simpl. case_decide; subst;
    [by rewrite lookup_insert_eq|by rewrite lookup_insert_ne].
Qed.
Lemma place_set tier b b0 s : ts_tiers s !! tier = Some b0 -> be_loc b = be_loc b0 ->
  forall t bkt key, place t bkt key (set_tier tier b s) = place t bkt key s.
Proof.
  intros L E t bkt key. unfold place, set_tier. simpl. destruct (decide (t = tier)) as [->|N].
  - by rewrite lookup_insert_eq, L; simpl; rewrite E.
  - by rewrite lookup_insert_ne.
Qed.
Lemma tiersOk_set tier b s : tiersOk s -> be_ok b -> tiersOk (set_tier tier b s).
Proof.
  intros T O t b'. unfold set_tier. simpl. intros [[<- <-]|[N L]]%lookup_insert_Some; [done|by eapply T].
Qed.

(** What an operation on one place of one tier may change. *)
Definition changesAt (tier : StorageTier) (q : path) (c : option bytes) s s' : Prop :=
  tiersOk s' /\ (forall t bkt key, place t bkt key s' = place t bkt key s) /\
  forall t q', contentAt t q' s' = if decide (t = tier /\ q' = q) then c else contentAt t q' s.
Definition keepsAll s s' : Prop :=
  tiersOk s' /\ (forall t bkt key, place t bkt key s' = place t bkt key s) /\
  forall t q', contentAt t q' s' = contentAt t q' s.

Lemma set_tier_changes tier b b' q c s : tiersOk s -> ts_tiers s !! tier = Some b -> be_ok b' ->
  be_loc b' = be_loc b -> (forall q', be_at b' q' = if decide (q' = q) then c else be_at b q') ->
  changesAt tier q c s (set_tier tier b' s).
Proof.
  intros T L O Lc A. split; [by apply tiersOk_set|]. split; [by apply (place_set tier b' b)|].
  intros t q'. rewrite contentAt_set.
  destruct (decide (t = tier)) as [->|N]; [|by rewrite decide_False by naive_solver].
  rewrite A. unfold contentAt. rewrite L. simpl.
  by destruct (decide (q' = q)) as [->|]; [rewrite decide_True|rewrite decide_False by naive_solver].
Qed.
Lemma set_tier_keeps tier b b' s : tiersOk s -> ts_tiers s !! tier = Some b -> be_ok b' ->
  be_loc b' = be_loc b -> (forall q', be_at b' q' = be_at b q') -> keepsAll s (set_tier tier b' s).
Proof.
  intros T L O Lc A. split; [by apply tiersOk_set|]. split; [by apply (place_set tier b' b)|].
  intros t q'. rewrite contentAt_set. case_decide; subst; [|done]. unfold contentAt. by rewrite L.
Qed.

(** A put of one backend, and a delete, as changes of the tiers. *)
Lemma tier_Put io p d size tier b b' r s : be_Put io p d size b = (b', r) -> tiersOk s ->
  ts_tiers s !! tier = Some b ->
  (r = Ok tt -> sr_err d = None /\ sizeRule size d /\
     changesAt tier (be_loc b p) (Some (sr_data d)) s (set_tier tier b' s)) /\
  (r <> Ok tt -> keepsAll s (set_tier tier b' s)).
Proof.
  intros P T L. apply be_Put_law in P as (O & Lc & A & F); [|by eapply T]. split; intros R.
  - destruct (A R) as (Z & Sz & V). split; [done|]. split; [done|]. by apply (set_tier_changes _ b).
  - by apply (set_tier_keeps _ b); auto.
Qed.
Lemma tier_Delete io p tier b b' r s : be_Delete io p b = (b', r) -> tiersOk s ->
  ts_tiers s !! tier = Some b ->
  (r = Ok tt -> changesAt tier (be_loc b p) None s (set_tier tier b' s)) /\
  (r <> Ok tt -> keepsAll s (set_tier tier b' s)).
Proof.
  intros P T L. apply be_Delete_law in P as (O & Lc & A & F); [|by eapply T]. split; intros R.
  - apply (set_tier_changes _ b); auto.
  - by apply (set_tier_keeps _ b); auto.
Qed.

Lemma ts_Put_spec io bkt key d size tier s s' r : ts_Put io bkt key d size tier s = (s', r) -> tiersOk s ->
  (r = Ok tt -> exists q, place tier bkt key s = Some q /\ sr_err d = None /\ sizeRule size d /\
     changesAt tier q (Some (sr_data d)) s s') /\
  (r <> Ok tt -> keepsAll s s').
Proof.
  unfold ts_Put. intros E T. destruct (ts_tiers s !! tier) as [b|] eqn:L; [|by simplify_eq].
  destruct (be_Put _ _ _ _ _) as [b' r'] eqn:P. pose proof (tier_Put _ _ _ _ _ _ _ _ _ P T L) as [A F].
  destruct r' as [[]| |]; simpl in E; simplify_eq; (split; [intros R|by intros; try apply F]); [|done..].
  destruct (A eq_refl) as (Z & Sz & C). exists (be_loc b (makePath bkt key)).
  split; [unfold place; by rewrite L|by split_and!].
Qed.
Lemma ts_Delete_spec io bkt key tier s s' r : ts_Delete io bkt key tier s = (s', r) -> tiersOk s ->
  (r = Ok tt -> exists q, place tier bkt key s = Some q /\ changesAt tier q None s s') /\
  (r <> Ok tt -> keepsAll s s').
Proof.
  unfold ts_Delete. intros E T. destruct (ts_tiers s !! tier) as [b|] eqn:L; [|by simplify_eq].
  destruct (be_Delete _ _ _) as [b' r'] eqn:P. pose proof (tier_Delete _ _ _ _ _ _ _ P T L) as [A F].
  destruct r' as [[]| |]; simpl in E; simplify_eq; (split; [intros R|by intros; try apply F]); [|done..].
  exists (be_loc b (makePath bkt key)). split; [unfold place; by rewrite L|]. by apply A.
Qed.

(** The places a migration goes through: nothing happens, or the copy is
    made, or the source is removed too and the metadata is written. *)
Lemma ts_Migrate_cases ioFrom ioTo closed mio bkt key fromTier toTier s ms s' meta' r m c :
  ts_Migrate ioFrom ioTo closed mio bkt key fromTier toTier s (Some ms) = (s', meta', r) -> tiersOk s ->
  MetadataStore.GetObject bkt key ms = Ok m -> ts_Get calm bkt key fromTier s = Ok (streamOf c) ->
  (r <> Ok tt /\ meta' = Some ms /\ keepsAll s s') \/
  exists qf qt s1, place fromTier bkt key s = Some qf /\ place toTier bkt key s = Some qt /\
    (0 < om_Size m -> om_Size m = Z.of_nat (length c)) /\ changesAt toTier qt (Some c) s s1 /\
    ((r <> Ok tt /\ meta' = Some ms /\ keepsAll s1 s') \/
     (changesAt fromTier qf None s1 s' /\ exists ms' m' r',
        MetadataStore.PutObject (mio_uuid mio) (mio_now mio) (mio_now2 mio) (mio_wal mio) (mio_commit mio)
          bkt key (with_StorageTier toTier m) ms = (ms', m', r') /\
        meta' = Some ms' /\ (r = Ok tt <-> r' = Ok tt))).
Proof.
  intros E T G C. apply ts_Get_spec in C as (qf & Pf & C); [|done].
  assert (keepsAll s s) as K0 by done.
  unfold ts_Migrate in E. rewrite G in E. destruct (negb _); [left; simplify_eq; by split_and!|].
  destruct (ts_tiers s !! fromTier) as [bf|] eqn:Lf; [|left; simplify_eq; by split_and!].
  destruct (ts_tiers s !! toTier) as [bt|] eqn:Lt; [|left; simplify_eq; by split_and!].
  destruct (wrapErr _ (be_Get _ _ bf)) as [d| |] eqn:D; [|left; simplify_eq; by split_and!..].
  apply wrapErr_ok in D. pose proof (be_Get_io _ _ _ _ (T _ _ Lf) D) as Z. rewrite Z in D.
  unfold place in Pf. rewrite Lf in Pf. simpl in Pf. injection Pf as <-.
  unfold contentAt in C. rewrite Lf in C. simpl in C.
  apply (be_Get_law _ _ _ (T _ _ Lf)) in C. rewrite C in D. injection D as <-.
  destruct (be_Put _ _ _ _ bt) as [bt' rp] eqn:P.
  pose proof (proj1 (proj2 (be_Put_law _ _ _ _ _ _ _ P (T _ _ Lt)))) as LcB.
  pose proof (tier_Put _ _ _ _ _ _ _ _ _ P T Lt) as [A F].
  destruct rp as [[]| |]; [|left; simpl in E; simplify_eq; split_and!; [done|done|by apply F]..].
  cbn [wrapErr] in E. destruct (A eq_refl) as (_ & Sz & Ch). right.
  exists (be_loc bf (makePath bkt key)), (be_loc bt (makePath bkt key)), (set_tier toTier bt' s).
  split; [unfold place; by rewrite Lf|]. split; [unfold place; by rewrite Lt|]. split; [done|].
  split; [done|]. assert (keepsAll (set_tier toTier bt' s) (set_tier toTier bt' s)) as K1 by (by split; [apply Ch|]).
  destruct (wrapErr _ (orIO closed _)); [|left; simplify_eq; by split_and!..].
  destruct (be_Delete _ _ _) as [bf' rd] eqn:Dl.
  assert (exists b0, ts_tiers (set_tier toTier bt' s) !! fromTier = Some b0 /\
            default bf (ts_tiers (set_tier toTier bt' s) !! fromTier) = b0 /\ be_loc b0 = be_loc bf)
    as (b0 & L0 & D0 & Lc).
  { unfold set_tier. simpl. destruct (decide (fromTier = toTier)) as [->|N].
    - rewrite lookup_insert_eq. exists bt'. split; [done|]. split; [done|]. congruence.
    - rewrite lookup_insert_ne by done. exists bf. by rewrite Lf. }
  rewrite D0 in Dl. pose proof (tier_Delete _ _ _ _ _ _ _ Dl (proj1 Ch) L0) as [A2 F2].
  destruct rd as [[]| |]; simpl in E; [|left; simplify_eq; split_and!; [done|done|by apply F2]..].
  right. destruct (PutObject _ _ _ _ _ _ _ _ _) as [[ms' m'] r'] eqn:PO. simplify_eq.
  split; [rewrite <- Lc; by apply A2|]. exists ms', m', r'. split; [done|]. split; [done|].
  by destruct r' as [[]| |].
Qed.
Lemma changed_get bkt key tier q c s s' b k : place tier bkt key s = Some q ->
  changesAt tier q (Some c) s s' -> ts_Get calm bkt key tier s' = Ok (streamOf c) /\
  forall t d, t <> tier \/ place t b k s <> Some q -> tiersOk s ->
    ts_Get calm b k t s' = Ok (streamOf d) <-> ts_Get calm b k t s = Ok (streamOf d).
Proof.
  intros P (T' & Pl & C). split.
  - apply ts_Get_spec; [done|]. exists q. rewrite Pl, C, decide_True by done. done.
  - intros t d N T. rewrite !ts_Get_spec by done. rewrite Pl. split; intros (q' & L & D); exists q';
      (split; [done|]); rewrite C, decide_False in * by naive_solver; done.
Qed.

(** What was put is what a get delivers; objects at other places and in other
    tiers keep their content, and a put that fails changes nothing at all. *)
Theorem put_then_get io bkt key d size tier s s' r :
  ts_Put io bkt key d size tier s = (s', r) -> tiersOk s ->
  (r = Ok tt -> ts_Get calm bkt key tier s' = Ok d /\ sizeRule size d /\
     forall b k t c, t <> tier \/ place t b k s <> place tier bkt key s ->
       ts_Get calm b k t s' = Ok (streamOf c) <-> ts_Get calm b k t s = Ok (streamOf c)) /\
  (r <> Ok tt -> forall b k t c,
     ts_Get calm b k t s' = Ok (streamOf c) <-> ts_Get calm b k t s = Ok (streamOf c)).
Proof.
  intros E T. destruct (ts_Put_spec _ _ _ _ _ _ _ _ _ E T) as [A F]. split; intros R.
  - destruct (A R) as (q & P & Z & Sz & C). destruct d as [d e]. simpl in *. subst e.
    destruct (changed_get _ _ _ _ _ _ _ bkt key P C) as [G _]. split; [done|]. split; [done|].
    intros b k t c N. rewrite P in N. by apply (changed_get _ _ _ _ _ _ _ b k P C).
  - intros b k t c. destruct (F R) as (T' & Pl & C). rewrite !ts_Get_spec by done.
    setoid_rewrite Pl. by setoid_rewrite C.
Qed.

(** C30: Migration to another tier: on success the object is in the new tier and no
    longer in the old one, and its metadata says so; whatever fails, its content
    is still in one of the two. *)
Theorem migrate_moves_object ioFrom ioTo closed mio bkt key fromTier toTier s ms s' meta' r m c :
  ts_Migrate ioFrom ioTo closed mio bkt key fromTier toTier s (Some ms) = (s', meta', r) ->
  tiersOk s -> fromTier <> toTier -> MetadataStore.GetObject bkt key ms = Ok m ->
  ts_Get calm bkt key fromTier s = Ok (streamOf c) ->
  (ts_Get calm bkt key fromTier s' = Ok (streamOf c) \/ ts_Get calm bkt key toTier s' = Ok (streamOf c)) /\
  (r = Ok tt -> ts_Get calm bkt key toTier s' = Ok (streamOf c) /\
     (forall c', ts_Get calm bkt key fromTier s' <> Ok (streamOf c')) /\
     (0 < om_Size m -> om_Size m = Z.of_nat (length c)) /\
     exists ms' m', meta' = Some ms' /\ MetadataStore.GetObject bkt key ms' = Ok m' /\
       om_StorageTier m' = toTier /\ om_Size m' = om_Size m).
Proof.
  intros E T N G C. pose proof C as C0. apply ts_Get_spec in C0 as (q0 & P0 & C0); [|done].
  destruct (ts_Migrate_cases _ _ _ _ _ _ _ _ _ _ _ _ _ _ _ E T G C)
    as [(R & _ & T' & Pl & K)|(qf & qt & s1 & Pf & Pt & Sz & (T1 & P1 & C1) & M)].
  { split; [|done]. left. apply ts_Get_spec; [done|]. exists q0. by rewrite Pl, K. }
  destruct M as [(R & _ & T' & Pl & K)|((T' & Pl & K) & ms' & m' & r' & PO & -> & R)].
  { split; [|done]. right. apply ts_Get_spec; [done|]. exists qt. by rewrite Pl, P1, K, C1, decide_True. }
  assert (ts_Get calm bkt key toTier s' = Ok (streamOf c)) as Got.
  { apply ts_Get_spec; [done|]. exists qt. rewrite Pl, P1, K, decide_False, C1, decide_True by naive_solver.
    done. }
  split; [by right|]. intros ->. split; [done|]. split; [|split; [done|]].
  - intros c' X. apply ts_Get_spec in X as (q & Q & X); [|done]. rewrite Pl, P1, Pf in Q. simplify_eq.
    by rewrite K, decide_True in X.
  - apply PutObject_get in PO as [A _]. destruct (A (proj1 R eq_refl)) as (data & D & -> & V).
    exists ms', data. split; [done|]. rewrite V, decide_True by done. split; [done|].
    apply marshalTimes_ok in D. by subst.
Qed.

(** Migrating an object to the tier it is in deletes its data: the copy goes to
    the file that the last step removes. *)
Theorem migrate_within_tier_deletes ioFrom ioTo closed mio bkt key tier s ms s' meta' m c :
  ts_Migrate ioFrom ioTo closed mio bkt key tier tier s (Some ms) = (s', meta', Ok tt) ->
  tiersOk s -> MetadataStore.GetObject bkt key ms = Ok m ->
  ts_Get calm bkt key tier s = Ok (streamOf c) ->
  forall c', ts_Get calm bkt key tier s' <> Ok (streamOf c').
Proof.
  intros E T G C c' X.
  destruct (ts_Migrate_cases _ _ _ _ _ _ _ _ _ _ _ _ _ _ _ E T G C)
    as [(R & _)|(qf & qt & s1 & Pf & Pt & Sz & (T1 & P1 & C1) & [(R & _)|((T' & Pl & K) & _)])]; [done..|].
  apply ts_Get_spec in X as (q & Q & X); [|done]. rewrite Pl, P1, Pf in Q. simplify_eq.
  by rewrite K, decide_True in X.
Qed.

(** An object whose file has another length than its recorded size, as every
    encrypted one, cannot be migrated; nothing changes. *)
Theorem migrate_needs_recorded_size ioFrom ioTo closed mio bkt key fromTier toTier s ms s' meta' r m c :
  ts_Migrate ioFrom ioTo closed mio bkt key fromTier toTier s (Some ms) = (s', meta', r) ->
  tiersOk s -> MetadataStore.GetObject bkt key ms = Ok m ->
  ts_Get calm bkt key fromTier s = Ok (streamOf c) ->
  0 < om_Size m -> om_Size m <> Z.of_nat (length c) ->
  r <> Ok tt /\ meta' = Some ms /\
  forall b k t d, ts_Get calm b k t s' = Ok (streamOf d) <-> ts_Get calm b k t s = Ok (streamOf d).
Proof.
  intros E T G C P N.
  destruct (ts_Migrate_cases _ _ _ _ _ _ _ _ _ _ _ _ _ _ _ E T G C)
    as [(R & M & T' & Pl & K)|(qf & qt & s1 & Pf & Pt & Sz & _)]; [|by destruct N; auto].
  split; [done|]. split; [done|]. intros b k t d. rewrite !ts_Get_spec by done.
  setoid_rewrite Pl. by setoid_rewrite K.
Qed.
End Tiers.

(** ** Which keys share a file *)

Lemma Split_nonempty c s : Split c s <> [].
Proof. induction s as [|d s IH]; simpl; [done|]. case_decide; [done|]. by destruct (Split c s). Qed.
Lemma Split_cat c a b : Split c (a +:+ String c b) = (Split c a ++ Split c b)%list.
Proof.
  induction a as [|d a IH]; [simpl; by rewrite decide_True|].
  change (String d a +:+ String c b) with (String d (a +:+ String c b)). cbn [Split]. rewrite IH.
  case_decide; [done|]. pose proof (Split_nonempty c a). by destruct (Split c a).
Qed.
Lemma Split_join_inv c s : strJoin (String c "") (Split c s) = s.
Proof.
  pose proof (Split_nonempty c) as NE.
  induction s as [|d s IH]; [done|]. cbn [Split]. destruct (decide (d = c)) as [->|N].
  - destruct (Split c s) as [|x l] eqn:E; [by apply NE in E|].
    change (strJoin (String c "") ("" :: x :: l)) with (String c (strJoin (String c "") (x :: l))). by rewrite IH.
  - destruct (Split c s) as [|x [|y l]] eqn:E; [by apply NE in E|simpl in *; by subst|].
    change (strJoin (String c "") (String d x :: y :: l))
      with (String d (strJoin (String c "") (x :: y :: l))). by rewrite IH.
Qed.

(** A name that [Clean] keeps, and keys made of such names. *)
Definition plainName (n : string) : Prop := n <> ""%string /\ n <> "."%string /\ n <> ".."%string.
Definition plainKey (k : string) : Prop := Forall plainName (Split slash k).

Lemma Clean_plain up l rest : Forall plainName l -> Clean up (l ++ rest) = Clean (rev l ++ up) rest.
Proof.
  intros F. revert up. induction F as [|n l (E & D & DD) F IH]; intros up; [done|].
  cbn [app Clean]. rewrite !bool_decide_false by done. simpl. rewrite IH. by rewrite <- app_assoc.
Qed.
Lemma pathJoin_plain root p : plainKey p -> pathJoin root p = (root ++ Split slash p)%list.
Proof.
  intros P. unfold pathJoin. rewrite <- (app_nil_r (Split slash p)), Clean_plain by done. simpl.
  by rewrite rev_app_distr, !rev_involutive, app_nil_r.
Qed.
Lemma makePath_plain b k : plainName b -> nochar slash b = true -> plainKey k ->
  plainKey (makePath b k) /\ Split slash (makePath b k) = b :: Split slash k.
Proof.
  intros B N K. unfold makePath, plainKey. change ("/" +:+ k)%string with (String slash k).
  rewrite Split_app by done. split; [by constructor|done].
Qed.

(** Under one root, keys of plain names have files of their own; a doubled
    slash, a dot or a pair of dots makes two keys share a file, even across
    buckets. *)
Theorem keys_and_files (root : path) :
  (forall b k b' k', plainName b -> nochar slash b = true -> plainKey k ->
     plainName b' -> nochar slash b' = true -> plainKey k' ->
     pathJoin root (makePath b k) = pathJoin root (makePath b' k') -> b = b' /\ k = k') /\
  (forall b x y, pathJoin root (makePath b (x +:+ "//" +:+ y)) = pathJoin root (makePath b (x +:+ "/" +:+ y)) /\
     pathJoin root (makePath b (x +:+ "/./" +:+ y)) = pathJoin root (makePath b (x +:+ "/" +:+ y))) /\
  (forall b b' k, plainName b -> nochar slash b = true ->
     pathJoin root (makePath b ("../" +:+ makePath b' k)) = pathJoin root (makePath b' k)).
Proof.
  split_and!.
  - intros b k b' k' B N K B' N' K' E.
    destruct (makePath_plain b k) as [P1 S1]; [done..|]. destruct (makePath_plain b' k') as [P2 S2]; [done..|].
    rewrite !pathJoin_plain, S1, S2 in E by done. apply app_inv_head in E. injection E as -> E.
    split; [done|]. rewrite <- (Split_join_inv slash k), <- (Split_join_inv slash k'). by rewrite E.
  - intros b x y. unfold pathJoin, makePath.
    change ("/" +:+ (x +:+ "//" +:+ y))%string with (String slash (x +:+ String slash (EmptyString +:+ String slash y))).
    change ("/" +:+ (x +:+ "/./" +:+ y))%string with (String slash (x +:+ String slash ("." +:+ String slash y))).
    change ("/" +:+ (x +:+ "/" +:+ y))%string with (String slash (x +:+ String slash y)).
    rewrite !Split_cat. change (Split slash "") with [""%string]. change (Split slash ".") with ["."%string].
    rewrite !(app_assoc (Split slash b)). generalize (Split slash b ++ Split slash x)%list as l, (rev root) as up.
    induction l as [|n l IH]; intros up; [done|]. cbn [app Clean].
    destruct (_ || _); [by apply IH|]. destruct (bool_decide _); by apply IH.
  - intros b b' k B N. unfold pathJoin, makePath at 1.
    change ("/" +:+ ("../" +:+ makePath b' k))%string with (String slash (".." +:+ String slash (makePath b' k))).
    rewrite Split_app by done. rewrite (Split_app slash "..") by done.
    change (b :: ".."%string :: Split slash (makePath b' k)) with ([b] ++ (".."%string :: Split slash (makePath b' k)))%list.
    rewrite Clean_plain by by constructor. done.
Qed.

(** ** The locks of objects *)

(** Every state that some schedule of the calls reaches. *)
Fixpoint explore (fuel : nat) (n : nat) (todo seen : list lockState) : list lockState :=
  match fuel, todo with
  | S fuel, s :: todo =>
    if bool_decide (s ∈ seen) then explore fuel n todo seen
    else explore fuel n (omap (fun i => lockStep i s) (seq 0 n) ++ todo)%list (s :: seen)
  | _, _ => seen
  end.
Definition closed (n : nat) (l : list lockState) : bool :=
  forallb (fun s => forallb (fun i => bool_decide (default s (lockStep i s) ∈ l)) (seq 0 n)) l.

Lemma lockStep_calls i s s' : lockStep i s = Some s' -> length (lk_calls s') = length (lk_calls s).
Proof.
  unfold lockStep. destruct (lk_crashed s); [done|]. intros E.
  destruct (lk_calls s !! i) as [pc|] eqn:L; [|done]. unfold mbind, option_bind in E.
  destruct pc as [|l|l| |l|l|]; repeat case_match_hyp E; simplify_eq; simpl; by rewrite ?length_insert.
Qed.
Lemma closed_run n l s schedule : closed n l = true -> length (lk_calls s) = n -> s ∈ l ->
  runLocks schedule s ∈ l.
Proof.
  intros C. revert s. induction schedule as [|i schedule IH]; intros s N I; [done|]. simpl.
  destruct (lockStep i s) as [s'|] eqn:E; simpl; [|by apply IH].
  apply IH; [by rewrite (lockStep_calls _ _ _ E)|].
  assert (i < n)%nat as K.
  { destruct (decide (i < n)%nat) as [|K]; [done|]. unfold lockStep in E. destruct (lk_crashed s); [done|].
    by rewrite (lookup_ge_None_2 (lk_calls s)) in E by lia. }
  unfold closed in C. rewrite forallb_forall in C. specialize (C s (proj1 (list_elem_of_In _ _) I)).
  rewrite forallb_forall in C. specialize (C i (proj2 (in_seq n 0 i) ltac:(lia))).
  rewrite E in C. by apply bool_decide_eq_true in C.
Qed.

Definition reached2 : list lockState := explore 200 2 [calls 2] [].

(** Two calls on an object never work at once, and none is stopped; with a
    third, the lock that one has loaded can be dropped from the map before it
    is counted: two calls work at once, and the process can end by unlocking a
    mutex that is not locked. *)
Theorem object_lock_not_exclusive :
  (forall schedule, (working (runLocks schedule (calls 2)) <= 1)%nat /\
                    lk_crashed (runLocks schedule (calls 2)) = false) /\
  working (runLocks [0;0;0;1;0;0;0;1;1;2;2;2]%nat (calls 3)) = 2%nat /\
  lk_crashed (runLocks [0;0;0;1;0;0;0;1;1;2;2;2;1;1;2;2]%nat (calls 3)) = true.
Proof.
  split; [|by vm_compute]. intros schedule.
  assert (runLocks schedule (calls 2) ∈ reached2) as R.
  { apply (closed_run 2); [by vm_compute|done|]. apply (bool_decide_unpack _). by vm_compute. }
  assert (forallb (fun s => (working s <=? 1)%nat && negb (lk_crashed s)) reached2 = true) as A by by vm_compute.
  rewrite forallb_forall in A. specialize (A _ (proj1 (list_elem_of_In _ _) R)).
  apply andb_true_iff in A as [W N]. apply Nat.leb_le in W. by apply negb_true_iff in N.
Qed.

(** ** Sizes of tiers and an example *)

Module StorageDemo.
Import MapBolt MetadataDemo.
#[local] Existing Instance FileStorage.

Definition root : path := ["data"; "hot"]%string.
Definition hot : FileBackend := mkFileBackend root ∅.
Definition cold : FileBackend := mkFileBackend ["data"; "cold"]%string ∅.
#[export] Instance disk : BackendStorage FileBackend := FileStorage 4096.
#[export] Instance diskLaws : BackendLaws FileBackend := FileStorageLaws 4096.
Definition tiers0 : TieredObjectStore FileBackend :=
  RegisterTier TierCold cold 100 (RegisterTier TierHot hot 10 NewTieredObjectStore).
Definition body : stream := streamOf [104; 105].
Definition tiers1 : TieredObjectStore FileBackend := (ts_Put calm "b" "k" body 2 TierHot tiers0).1.

Lemma treeOk_empty : treeOk ∅.
Proof. intros q n E. by rewrite lookup_empty in E. Qed.
Lemma tiersOk0 : tiersOk tiers0.
Proof.
  intros t b. unfold tiers0, RegisterTier. simpl.
  intros [[<- <-]|[_ [[<- <-]|[_ E]]%lookup_insert_Some]]%lookup_insert_Some; [apply treeOk_empty..|].
  by rewrite lookup_empty in E.
Qed.
Lemma tiersOk1 : tiersOk tiers1.
Proof.
  destruct (ts_Put calm "b" "k" body 2 TierHot tiers0) as [s r] eqn:E.
  destruct (ts_Put_spec _ _ _ _ _ _ _ _ _ E tiersOk0) as [A F].
  replace tiers1 with s by (unfold tiers1; by rewrite E).
  destruct (res_unit_cases r) as [[_ ->]|[_ N]]; [|by destruct (F N)].
  by destruct (A eq_refl) as (q & _ & _ & _ & ? & _).
Qed.

(** An overwrite is added to the tier's size without taking off what it
    replaces: after two puts of a key and its removal two bytes remain. *)
Example tier_size_drifts :
  let s := (ts_Put calm "b" "k" body 2 TierHot tiers1).1 in
  (GetTierSize TierHot s, GetTierSize TierHot (ts_Delete calm "b" "k" TierHot s).1) = (4, 2).
Proof. vm_compute. reflexivity. Qed.
(** Nothing compares the size with the tier's limit. *)
Example tier_limit_unused :
  is_ok (ts_Put calm "b" "big" (streamOf (zeros 12)) 12 TierHot tiers1).2 = true.
Proof. vm_compute. reflexivity. Qed.
(** A key below another key's file cannot be stored, and a directory reads as an object. *)
Example key_below_file :
  (is_ok (ts_Put calm "b" "k/x" body 2 TierHot tiers1).2,
   match ts_Get calm "b" "" TierHot tiers1 with Ok d => sr_err d | _ => None end)
  = (false, Some "read /data/hot/b: is a directory"%string).
Proof. vm_compute. reflexivity. Qed.
Example listing :
  fb_List None "b" (fb_Put goodIO "b/a/z" body 0 (fb_Put goodIO "b/a.x" body 0 hot).1).1
  = Ok ["b/a/z"; "b/a.x"]%string.
Proof. vm_compute. reflexivity. Qed.

Definition mio : metaIO := mkMetaIO "id" 6 7 flushOk (Ok tt).
Definition records : MetadataStore :=
  run [OpCreateBucket 5 (Ok tt) "b" None; putOp "k" 2].
Definition record : ObjectMetadata := stampObject "v1" 5 7 true (obj "k" 2).
Definition migrated (toTier : StorageTier) := ts_Migrate calm calm None mio "b" "k" TierHot toTier tiers1 (Some records).
End StorageDemo.

Section Witnesses.
Import MapBolt MetadataDemo StorageDemo.

Lemma file_backend_refines_map_witness :
  let '(b', m) := runFiles [OpPut goodIO "b/k" body 2; OpDelete None "b/../b/k"; OpPutReader goodIO "k" body]
                    hot (fileAt (fb_tree hot)) in
  treeOk (fb_tree b') /\
  forall p c, fb_Get None p b' = Ok (streamOf c) <-> m (pathJoin (fb_rootDir hot) p) = Some c.
Proof. apply (file_backend_refines_map _ hot). apply treeOk_empty. Defined.

Lemma put_then_get_witness :
  ts_Get calm "b" "k" TierHot tiers1 = Ok body /\ sizeRule 2 body.
Proof.
  destruct (put_then_get calm "b" "k" body 2 TierHot tiers0 tiers1 (Ok tt)) as [A _];
    [vm_compute; reflexivity|apply tiersOk0|]. destruct (A eq_refl) as (G & S & _). by split.
Defined.

Lemma migrate_moves_object_witness :
  ts_Get calm "b" "k" TierCold (migrated TierCold).1.1 = Ok body /\
  forall c, ts_Get calm "b" "k" TierHot (migrated TierCold).1.1 <> Ok (streamOf c).
Proof.
  destruct (migrate_moves_object calm calm None mio "b" "k" TierHot TierCold tiers1 records
    (migrated TierCold).1.1 (migrated TierCold).1.2 (Ok tt) record [104; 105]) as [_ A];
    [vm_compute; reflexivity|apply tiersOk1|done|vm_compute; reflexivity|vm_compute; reflexivity|].
  destruct (A eq_refl) as (G & D & _). by split.
Defined.

Lemma migrate_within_tier_deletes_witness :
  ts_Get calm "b" "k" TierHot tiers1 = Ok body /\
  forall c, ts_Get calm "b" "k" TierHot (migrated TierHot).1.1 <> Ok (streamOf c).
Proof.
  split; [vm_compute; reflexivity|].
  apply (migrate_within_tier_deletes calm calm None mio "b" "k" TierHot tiers1 records
    (migrated TierHot).1.1 (migrated TierHot).1.2 record [104; 105]);
    [vm_compute; reflexivity|apply tiersOk1|vm_compute; reflexivity|vm_compute; reflexivity].
Defined.

Definition ciphered : TieredObjectStore FileBackend := (ts_Put calm "b" "k" (streamOf [1; 2; 3]) 0 TierHot tiers0).1.
Lemma ciphered_ok : tiersOk ciphered.
Proof.
  destruct (ts_Put calm "b" "k" (streamOf [1; 2; 3]) 0 TierHot tiers0) as [s r] eqn:E.
  destruct (ts_Put_spec _ _ _ _ _ _ _ _ _ E tiersOk0) as [A F].
  replace ciphered with s by (unfold ciphered; by rewrite E).
  destruct (res_unit_cases r) as [[_ ->]|[_ N]]; [|by destruct (F N)].
  by destruct (A eq_refl) as (q & _ & _ & _ & ? & _).
Qed.
Lemma migrate_needs_recorded_size_witness :
  (ts_Migrate calm calm None mio "b" "k" TierHot TierCold ciphered (Some records)).2 <> Ok tt.
Proof.
  pose (x := ts_Migrate calm calm None mio "b" "k" TierHot TierCold ciphered (Some records)).
  apply (migrate_needs_recorded_size calm calm None mio "b" "k" TierHot TierCold ciphered records
    x.1.1 x.1.2 x.2 record [1; 2; 3]);
    [by destruct x as [[] ?] eqn:E; subst x; rewrite E|apply ciphered_ok|vm_compute; reflexivity
    |vm_compute; reflexivity|done|done].
Defined.
End Witnesses.
