(* ===== verification/GatewayHttp.v ===== *)
(** * Requests as the gateway reads them

    What net/http and net/url hand to the handlers: header maps with canonical
    keys, percent-encoding, and the parsed query.  The Host header is not in
    the map: net/http moves it to the request's Host field. *)

From S2P Require Import Prelude GoStrings.
From Stdlib Require Import Ascii String.
From stdpp Require Import base list strings gmap sorting.

#[local] Open Scope nat_scope.

(** ** Header keys *)

Definition isAlnum (c : ascii) : bool :=
  let n := nat_of_ascii c in
  (48 <=? n) && (n <=? 57) || (65 <=? n) && (n <=? 90) || (97 <=? n) && (n <=? 122).

(** A byte of a token in RFC 7230. *)
Definition isToken (c : ascii) : bool :=
  isAlnum c || existsb (fun d => bool_decide (c = d)) (list_ascii_of_string "!#$%&'*+-.^_`|~").

(** [textproto.CanonicalMIMEHeaderKey]: upper case at the start and after a
    hyphen, lower case elsewhere; a key with another byte is left alone. *)
Fixpoint canonLoop (upper : bool) (s : string) : string :=
  match s with
  | EmptyString => EmptyString
  | String c s =>
    String (if upper then upperc c else lowerc c) (canonLoop (bool_decide (c = "-"%char)) s)
  end.
Definition CanonicalHeaderKey (s : string) : string :=
  if forallb isToken (list_ascii_of_string s) then canonLoop true s else s.

Record Request := mkRequest {
  r_Method : string;
  r_Host : string;
  r_Path : string;          (** URL.Path, already decoded *)
  r_RawQuery : string;
  r_Header : gmap string (list string);   (** by canonical key *)
  r_Body : bytes;
  r_RemoteAddr : string
}.

(** [r.Header.Values(h)] and [r.Header.Get(h)]. *)
Definition HeaderValues (h : string) (r : Request) : list string :=
  default [] (r_Header r !! CanonicalHeaderKey h).
Definition HeaderGet (h : string) (r : Request) : string :=
  match HeaderValues h r with v :: _ => v | [] => "" end.

(** ** Percent-encoding *)

Definition unhex (c : ascii) : option nat :=
  let n := nat_of_ascii c in
  if (48 <=? n) && (n <=? 57) then Some (n - 48)
  else if (97 <=? n) && (n <=? 102) then Some (n - 87)
  else if (65 <=? n) && (n <=? 70) then Some (n - 55)
  else None.
Definition upperhex (n : nat) : ascii := if n <? 10 then ascii_of_nat (48 + n) else ascii_of_nat (55 + n).

(** [url.QueryUnescape] ([plus]) and [url.PathUnescape]; [None] on a bad
    escape. *)
Fixpoint unescape (plus : bool) (s : string) : option string :=
  match s with
  | EmptyString => Some EmptyString
  | String "%" (String a (String b s)) =>
    match unhex a, unhex b with
    | Some x, Some y => String (ascii_of_nat (16 * x + y)) <$> unescape plus s
    | _, _ => None
    end
  | String "%" _ => None
  | String c s =>
    String (if plus && bool_decide (c = "+"%char) then " "%char else c) <$> unescape plus s
  end.
Definition QueryUnescape : string -> option string := unescape true.
Definition PathUnescape : string -> option string := unescape false.

Definition unreserved (c : ascii) : bool :=
  isAlnum c || existsb (fun d => bool_decide (c = d)) (list_ascii_of_string "-_.~").
Definition escapeByte (c : ascii) (s : string) : string :=
  String "%" (String (upperhex (nat_of_ascii c / 16)) (String (upperhex (nat_of_ascii c mod 16)) s)).

(** [url.QueryEscape]: a space becomes a plus. *)
Fixpoint QueryEscape (s : string) : string :=
  match s with
  | EmptyString => EmptyString
  | String c s =>
    if unreserved c then String c (QueryEscape s)
    else if bool_decide (c = " "%char) then String "+" (QueryEscape s)
    else escapeByte c (QueryEscape s)
  end.
(** [url.PathEscape], for one segment. *)
Fixpoint PathEscape (s : string) : string :=
  match s with
  | EmptyString => EmptyString
  | String c s =>
    if unreserved c || existsb (fun d => bool_decide (c = d)) (list_ascii_of_string "$&+:=@")
    then String c (PathEscape s) else escapeByte c (PathEscape s)
  end.

(** ** The query *)

(** [r.URL.Query()]: pairs with a semicolon or a bad escape are dropped. *)
Definition parsePair (p : string) : option (string * string) :=
  if bool_decide (p = ""%string) || negb (nochar ";"%char p) then None
  else
    let '(k, v) := cut "="%char p in
    k ← QueryUnescape k; v ← QueryUnescape (default ""%string v); Some (k, v).
Definition addValue (q : gmap string (list string)) (kv : string * string) : gmap string (list string) :=
  <[kv.1 := default [] (q !! kv.1) ++ [kv.2]]> q.
Definition ParseQuery (raw : string) : gmap string (list string) :=
  fold_left addValue (omap parsePair (Split "&"%char raw)) ∅.
Definition Query (r : Request) : gmap string (list string) := ParseQuery (r_RawQuery r).
Definition QueryGet (k : string) (r : Request) : string :=
  match Query r !! k with Some (v :: _) => v | _ => "" end.

(** ** Order of strings *)

Definition string_le (s t : string) : Prop := bool_decide (s = t) || sltb s t = true.
#[export] Instance string_le_dec : RelDecision string_le.
Proof. intros s t. unfold string_le. apply _. Defined.

(** ** Round trips *)

Lemma unhex_upperhex n : n < 16 -> unhex (upperhex n) = Some n.
Proof. do 16 (destruct n as [|n]; [done|]). lia. Qed.

Lemma unescape_escapeByte plus c s : unescape plus (escapeByte c s) = String c <$> unescape plus s.
Proof.
  unfold escapeByte. cbn [unescape]. pose proof (nat_ascii_bounded c).
  rewrite !unhex_upperhex by (try apply Nat.mod_upper_bound; try apply Nat.Div0.div_lt_upper_bound; lia).
  do 2 f_equal. rewrite <- (ascii_nat_embedding c) at 3. f_equal.
  symmetry. apply Nat.div_mod_eq.
Qed.

Lemma unescape_plain plus c s : c <> "%"%char -> (plus = true -> c <> "+"%char) ->
  unescape plus (String c s) = String c <$> unescape plus s.
Proof.
  intros N P. cbn [unescape].
  assert ((plus && bool_decide (c = "+"%char)) = false) as ->.
  { destruct plus; [|done]. simpl. rewrite bool_decide_false; auto. }
  destruct c as [[] [] [] [] [] [] [] []]; try done; by destruct s as [|? [|? ?]].
Qed.

Lemma unreserved_plain c : unreserved c = true -> c <> "%"%char /\ c <> "+"%char.
Proof. intros U. split; intros ->; by vm_compute in U. Qed.

Lemma QueryUnescape_Escape s : QueryUnescape (QueryEscape s) = Some s.
Proof.
  unfold QueryUnescape. induction s as [|c s IH]; [done|]. cbn [QueryEscape].
  destruct (unreserved c) eqn:U.
  - apply unreserved_plain in U as [U1 U2]. rewrite unescape_plain by done. by rewrite IH.
  - case_bool_decide as E; [subst; cbn; by rewrite IH|]. by rewrite unescape_escapeByte, IH.
Qed.
Lemma PathUnescape_Escape s : PathUnescape (PathEscape s) = Some s.
Proof.
  unfold PathUnescape. induction s as [|c s IH]; [done|]. cbn [PathEscape].
  destruct (_ || _) eqn:U; [|by rewrite unescape_escapeByte, IH].
  rewrite unescape_plain; [by rewrite IH| |done]. intros ->. by vm_compute in U.
Qed.
