(* ===== verification/SigV4.v ===== *)
(** * AWS Signature Version 4 (internal/gateway/sigv4.go)

    Parsing of the Authorization header, the canonical request, the string to
    sign, the signing key, and the checks of header signatures and presigned
    URLs.  HMAC and SHA-256 are parameters, and so is the parsing of times;
    the clock readings are arguments. *)

From S2P Require Import Prelude GoStrings CryptoLib IamMatch Integrity GatewayHttp.
From Stdlib Require Import Ascii String.
From stdpp Require Import base list strings gmap sorting.

#[local] Open Scope Z_scope.

(** [time.Parse] of the layout 20060102T150405Z, [Format] of 20060102, and
    [time.ParseDuration]. *)
Class SigTime := {
  ParseBasic : string -> option Time;
  FormatDay : Time -> string;
  ParseDuration : string -> option Duration
}.

Record sigV4Params := mkSig {
  sp_AccessKey : string; sp_Date : string; sp_Region : string; sp_Service : string;
  sp_SignedHeaders : list string; sp_Signature : string
}.

Definition algorithm : string := "AWS4-HMAC-SHA256".
Definition newline : string := String (ascii_of_nat 10) "".
Definition newlinec : ascii := ascii_of_nat 10.

Section Sig.
Context `{GoUnicode} `{GoParsers} `{CryptoLib} `{Sha256} `{SigTime}.

(** One field of the header; a later one overrides. *)
Definition authField (acc : string * string * string) (part : string) : string * string * string :=
  let '(credential, signedHeaders, signature) := acc in
  let part := TrimSpace part in
  if HasPrefix part "Credential=" then (TrimPrefix part "Credential=", signedHeaders, signature)
  else if HasPrefix part "SignedHeaders=" then (credential, TrimPrefix part "SignedHeaders=", signature)
  else if HasPrefix part "Signature=" then (credential, signedHeaders, TrimPrefix part "Signature=")
  else acc.

(** The scope of a credential: access key, date, region, service. *)
Definition parseCredential (bad credential : string) : res (string * string * string * string) :=
  match Split slash credential with
  | [accessKey; date; region; service; terminator] =>
    if bool_decide (terminator = "aws4_request"%string) then Ok (accessKey, date, region, service)
    else Err ("invalid credential terminator: " +:+ terminator)
  | _ => Err bad
  end.

Definition parseAuthorizationHeader (auth : string) : res sigV4Params :=
  if negb (HasPrefix auth (algorithm +:+ " ")) then Err "invalid AWS signature version"
  else
    let parts := SplitOn ", " (TrimPrefix auth (algorithm +:+ " ")) in
    let '(credential, signedHeaders, signature) := fold_left authField parts (""%string, ""%string, ""%string) in
    if bool_decide (credential = ""%string) || bool_decide (signedHeaders = ""%string)
       || bool_decide (signature = ""%string)
    then Err "missing required fields in Authorization header"
    else
      '(accessKey, date, region, service) ← parseCredential
        "invalid credential format, expected accessKey/date/region/service/aws4_request" credential;
      Ok (mkSig accessKey date region service (Split ";"%char signedHeaders) signature).

Definition hmacSHA256 (key : bytes) (data : string) : bytes := hmac_sha256 key (bytes_of_string data).
Definition sha256Hash (data : string) : string := hexEncode (sha256_Sum256 (bytes_of_string data)).

Definition deriveSigningKey (secretKey date region service : string) : bytes :=
  let kDate := hmacSHA256 (bytes_of_string ("AWS4" +:+ secretKey)) date in
  let kRegion := hmacSHA256 kDate region in
  let kService := hmacSHA256 kRegion service in
  hmacSHA256 kService "aws4_request".

Definition getCanonicalURI (path : string) : string :=
  let path := if bool_decide (path = ""%string) then "/"%string else path in
  let decoded := default path (PathUnescape path) in
  let canonical := strJoin "/" (map PathEscape (Split slash decoded)) in
  if HasPrefix canonical "/" then canonical else "/" +:+ canonical.

Definition canonicalPair (p : string) : string * string :=
  let '(k, v) := cut "="%char p in
  let v := default ""%string v in
  (QueryEscape (default k (QueryUnescape k)), QueryEscape (default v (QueryUnescape v))).
Definition pair_le (x y : string * string) : Prop :=
  (if bool_decide (x.1 = y.1) then bool_decide (x.2 = y.2) || sltb x.2 y.2 else sltb x.1 y.1) = true.
#[global] Instance pair_le_dec : RelDecision pair_le.
Proof. intros x y. unfold pair_le. apply _. Defined.

Definition getCanonicalQueryString (rawQuery : string) : string :=
  if bool_decide (rawQuery = ""%string) then ""%string
  else
    let params := List.filter (fun p => negb (bool_decide (p = ""%string))) (Split "&"%char rawQuery) in
    strJoin "&" (map (fun p => p.1 +:+ "=" +:+ p.2) (merge_sort pair_le (map canonicalPair params))).

Definition canonicalHeader (r : Request) (h : string) : string :=
  h +:+ ":" +:+ strJoin "," (map TrimSpace (HeaderValues h r)) +:+ newline.
Definition canonicalHeaders (r : Request) (signedHeaders : list string) : string :=
  strJoin "" (map (canonicalHeader r) signedHeaders).

Definition buildCanonicalRequest (method path queryString : string) (signedHeaders : list string)
    (r : Request) (payloadHash : string) : string :=
  strJoin newline [method; getCanonicalURI path; getCanonicalQueryString queryString;
    canonicalHeaders r signedHeaders; strJoin ";" signedHeaders; payloadHash].

Definition buildStringToSign (timestamp date region service canonicalRequest : string) : string :=
  strJoin newline [algorithm; timestamp;
    date +:+ "/" +:+ region +:+ "/" +:+ service +:+ "/aws4_request"; sha256Hash canonicalRequest].

Definition computeSignature (signingKey : bytes) (stringToSign : string) : string :=
  hexEncode (hmacSHA256 signingKey stringToSign).

Definition getPayloadHash (r : Request) : string :=
  let v := HeaderGet "x-amz-content-sha256" r in
  if bool_decide (v <> ""%string) then v
  else
    let v := QueryGet "X-Amz-Content-SHA256" r in
    if bool_decide (v <> ""%string) then v else sha256Hash "".

Definition parseTimestamp (timestamp : string) : res Time :=
  match ParseBasic timestamp with
  | Some t => Ok t
  | None =>
    match ParseRFC3339 timestamp with
    | Some t => Ok t
    | None => Err ("invalid timestamp format: " +:+ timestamp)
    end
  end.

Definition maxSkew : Duration := 15 * Minute.
Definition validateTimestamp (timestamp date : string) (now : Time) : res unit :=
  t ← parseTimestamp timestamp;
  let diff := Sub now t in
  if (diff <? - maxSkew) || (maxSkew <? diff) then Err "request timestamp too far from current time"
  else if bool_decide (FormatDay t <> date) then Err "date in credential does not match timestamp date"
  else Ok tt.

Definition validatePresignedExpiry (timestamp expiresStr : string) (now : Time) : res unit :=
  t ← parseTimestamp timestamp;
  match ParseDuration (expiresStr +:+ "s") with
  | None => Err ("invalid X-Amz-Expires: " +:+ expiresStr)
  | Some expires => if After now (Prelude.Add t expires) then Err "presigned URL has expired" else Ok tt
  end.

Definition signatureOf (secretKey timestamp date region service canonicalRequest : string) : string :=
  computeSignature (deriveSigningKey secretKey date region service)
    (buildStringToSign timestamp date region service canonicalRequest).

Definition verifySigV4Header (r : Request) (secretKey : string) (now : Time) : res unit :=
  params ← parseAuthorizationHeader (HeaderGet "Authorization" r);
  let timestamp := if bool_decide (HeaderGet "x-amz-date" r = ""%string) then HeaderGet "Date" r
                   else HeaderGet "x-amz-date" r in
  if bool_decide (timestamp = ""%string) then Err "missing x-amz-date or Date header"
  else
    _ ← validateTimestamp timestamp (sp_Date params) now;
    let canonicalRequest := buildCanonicalRequest (r_Method r) (r_Path r) (r_RawQuery r)
                              (sp_SignedHeaders params) r (getPayloadHash r) in
    if bool_decide (signatureOf secretKey timestamp (sp_Date params) (sp_Region params)
                      (sp_Service params) canonicalRequest = sp_Signature params)
    then Ok tt else Err "signature mismatch".

Definition filterQueryParams (q : gmap string (list string)) (excluded : string -> bool) : string :=
  strJoin "&" (merge_sort string_le
    (flat_map (fun kv => if excluded kv.1 then []
                         else map (fun v => QueryEscape kv.1 +:+ "=" +:+ QueryEscape v) kv.2)
       (map_to_list q))).

Definition need (what value : string) : res string :=
  if bool_decide (value = ""%string) then Err ("missing " +:+ what +:+ " in presigned URL") else Ok value.

(** [now] for the expiry, [now'] for the timestamp. *)
Definition verifySigV4PresignedURL (r : Request) (secretKey : string) (now now' : Time) : res unit :=
  credential ← need "X-Amz-Credential" (QueryGet "X-Amz-Credential" r);
  '(_, date, region, service) ← parseCredential "invalid X-Amz-Credential format" credential;
  signedHeadersStr ← need "X-Amz-SignedHeaders" (QueryGet "X-Amz-SignedHeaders" r);
  signature ← need "X-Amz-Signature" (QueryGet "X-Amz-Signature" r);
  timestamp ← need "X-Amz-Date" (QueryGet "X-Amz-Date" r);
  let expiresStr := QueryGet "X-Amz-Expires" r in
  _ ← (if bool_decide (expiresStr = ""%string) then Ok tt
       else validatePresignedExpiry timestamp expiresStr now);
  _ ← validateTimestamp timestamp date now';
  let canonicalQueryString := getCanonicalQueryString
        (filterQueryParams (Query r) (fun k => bool_decide (k = "X-Amz-Signature"%string))) in
  let canonicalRequest := buildCanonicalRequest (r_Method r) (r_Path r) canonicalQueryString
                            (Split ";"%char signedHeadersStr) r (getPayloadHash r) in
  if bool_decide (signatureOf secretKey timestamp date region service canonicalRequest = signature)
  then Ok tt else Err "presigned URL signature mismatch".
End Sig.
