(* ===== verification/SigV4Theorems.v ===== *)
(** * What a signature shows

    A request that a client signs by the specification verifies; an accepted
    signature binds the method, the canonical path and query, the signed
    headers and the declared payload hash, up to collisions of the digests;
    and what it does not bind. *)

From S2P Require Import Prelude GoStrings CryptoLib IamMatch Integrity IntegrityTheorems GoText GatewayHttp SigV4.
From Stdlib Require Import Ascii String.
From stdpp Require Import base list strings gmap sorting.

#[local] Open Scope Z_scope.

Lemma hexDigit_neq n c : isAlnum c = false -> hexDigit (n mod 16) <> c.
Proof.
  intros A E. subst. revert A. pose proof (Z.mod_pos_bound n 16 ltac:(lia)) as B. unfold hexDigit.
  set (m := n mod 16) in *. clearbody m.
  assert (exists k, (k < 16)%nat /\ m = Z.of_nat k) as (k & K & ->) by (exists (Z.to_nat m); lia).
  do 16 (destruct k as [|k]; [by vm_compute|]). lia.
Qed.

(** ** Escapes *)

Lemma escapeByte_nochar c d s : isAlnum c = false -> c <> "%"%char -> nochar c s = true ->
  nochar c (escapeByte d s) = true.
Proof.
  intros A P N. unfold escapeByte. rewrite !nochar_cons, N.
  assert (forall n, upperhex n <> c \/ (16 <= n)%nat) as U.
  { intros n. destruct (le_lt_dec 16 n); [by right|left]. intros <-. revert A.
    do 16 (destruct n as [|n]; [by vm_compute|]). lia. }
  pose proof (nat_ascii_bounded d).
  rewrite !bool_decide_false; [done| | |by intros <-].
  - destruct (U (nat_of_ascii d mod 16)%nat); [done|].
    pose proof (Nat.mod_upper_bound (nat_of_ascii d) 16). lia.
  - destruct (U (nat_of_ascii d / 16)%nat) as [|G]; [done|].
    assert (nat_of_ascii d / 16 < 16)%nat by (apply Nat.Div0.div_lt_upper_bound; lia). lia.
Qed.

Lemma QueryEscape_nochar c s : unreserved c = false -> c <> "%"%char -> c <> "+"%char ->
  nochar c (QueryEscape s) = true.
Proof.
  intros U P Q. assert (isAlnum c = false) as A by (unfold unreserved in U; by apply orb_false_iff in U as []).
  induction s as [|d s IH]; [done|]. cbn [QueryEscape]. destruct (unreserved d) eqn:D.
  - rewrite nochar_cons, IH, bool_decide_false; [done|]. intros ->. congruence.
  - case_bool_decide; [rewrite nochar_cons, IH, bool_decide_false; auto|by apply escapeByte_nochar].
Qed.
Lemma PathEscape_nochar c s : unreserved c = false ->
  existsb (fun d => bool_decide (c = d)) (list_ascii_of_string "$&+:=@") = false -> c <> "%"%char ->
  nochar c (PathEscape s) = true.
Proof.
  intros U X P. assert (isAlnum c = false) as A by (unfold unreserved in U; by apply orb_false_iff in U as []).
  induction s as [|d s IH]; [done|]. cbn [PathEscape]. destruct (_ || _) eqn:D; [|by apply escapeByte_nochar].
  rewrite nochar_cons, IH, bool_decide_false; [done|]. intros ->. by rewrite U, X in D.
Qed.

Section Sig.
Context `{GoUnicode} `{GoParsers} `{CryptoLib} `{Sha256} `{SigTime}.

(** ** What is signed *)

(** The parts of a request that its canonical form keeps. *)
Definition sameSigned (signedHeaders : list string) (r r' : Request) : Prop :=
  r_Method r = r_Method r' /\ getCanonicalURI (r_Path r) = getCanonicalURI (r_Path r') /\
  getCanonicalQueryString (r_RawQuery r) = getCanonicalQueryString (r_RawQuery r') /\
  (forall h, h ∈ signedHeaders ->
     strJoin "," (map TrimSpace (HeaderValues h r)) = strJoin "," (map TrimSpace (HeaderValues h r'))) /\
  getPayloadHash r = getPayloadHash r'.

Definition canonicalOf (params : sigV4Params) (r : Request) : string :=
  buildCanonicalRequest (r_Method r) (r_Path r) (r_RawQuery r) (sp_SignedHeaders params) r (getPayloadHash r).
Definition timestampOf (r : Request) : string :=
  if bool_decide (HeaderGet "x-amz-date" r = ""%string) then HeaderGet "Date" r else HeaderGet "x-amz-date" r.
Definition toSign (params : sigV4Params) (r : Request) : string :=
  buildStringToSign (timestampOf r) (sp_Date params) (sp_Region params) (sp_Service params)
    (canonicalOf params r).

(** Nothing that HTTP delivers contains a line break. *)
Definition oneLine (s : string) : bool := nochar newlinec s.
Definition wellFormed (r : Request) : Prop :=
  oneLine (r_Method r) = true /\ oneLine (timestampOf r) = true /\
  forall h, Forall (fun v => oneLine (TrimSpace v) = true) (HeaderValues h r).

Lemma canonicalURI_oneLine p : oneLine (getCanonicalURI p) = true.
Proof.
  unfold getCanonicalURI, oneLine. set (l := Split slash _).
  assert (nochar newlinec (strJoin "/" (map PathEscape l)) = true) as N.
  { apply nochar_join; [done|]. apply Forall_map, Forall_true. intros s. by apply PathEscape_nochar. }
  case_match_goal; [done|]. by rewrite nochar_app, N.
Qed.

Lemma canonicalQuery_oneLine q : oneLine (getCanonicalQueryString q) = true.
Proof.
  unfold getCanonicalQueryString, oneLine. case_bool_decide; [done|].
  apply nochar_join; [done|]. apply Forall_map. rewrite merge_sort_Permutation.
  apply Forall_map, Forall_true. intros p. unfold canonicalPair. destruct (cut _ p) as [k v].
  simpl. rewrite !nochar_app, !QueryEscape_nochar by done. done.
Qed.

Lemma join_oneLine a b a' b' : oneLine a = true -> oneLine a' = true ->
  a +:+ newline +:+ b = a' +:+ newline +:+ b' -> a = a' /\ b = b'.
Proof. intros A A' E. by apply (join_slash_inj newlinec). Qed.

Lemma sapp_cancel (a b c : string) : a +:+ b = a +:+ c -> b = c.
Proof. induction a as [|x a IH]; [done|]. intros E. apply IH. by injection E. Qed.

Lemma canonicalHeaders_inj r r' hs t t' : wellFormed r -> wellFormed r' ->
  canonicalHeaders r hs +:+ t = canonicalHeaders r' hs +:+ t' ->
  (forall h, h ∈ hs ->
     strJoin "," (map TrimSpace (HeaderValues h r)) = strJoin "," (map TrimSpace (HeaderValues h r')))
  /\ t = t'.
Proof.
  intros (_ & _ & W) (_ & _ & W'). unfold canonicalHeaders.
  assert (forall h l, strJoin "" (h :: l) = h +:+ strJoin "" l) as J.
  { intros h [|x l]; [|done]. simpl. induction h as [|c h IH]; [done|].
    change (String c h = String c (h +:+ "")). by rewrite <- IH. }
  assert (forall r h, (forall h, Forall (fun v => oneLine (TrimSpace v) = true) (HeaderValues h r)) ->
    oneLine (strJoin "," (map TrimSpace (HeaderValues h r))) = true) as L.
  { intros x h F. apply nochar_join; [done|]. by apply Forall_map. }
  induction hs as [|h hs IH]; intros E; [split; [by intros ? ?%elem_of_nil|done]|].
  rewrite !map_cons, !J in E. unfold canonicalHeader at 1 3 in E. rewrite <- !sapp_assoc in E.
  apply sapp_cancel, (sapp_cancel ":") in E. apply join_oneLine in E as [E1 E2]; [|by apply L..].
  destruct (IH E2) as [F ->]. split; [|done]. intros x [->|X]%elem_of_cons; [done|by apply F].
Qed.

(** Equal canonical requests have equal parts. *)
Lemma canonical_inj params r r' : wellFormed r -> wellFormed r' ->
  canonicalOf params r = canonicalOf params r' -> sameSigned (sp_SignedHeaders params) r r'.
Proof.
  intros W W' E. unfold canonicalOf, buildCanonicalRequest in E.
  destruct (W) as (M & _ & _), (W') as (M' & _ & _). cbn [strJoin] in E.
  apply join_oneLine in E as [E1 E]; [|done..].
  apply join_oneLine in E as [E2 E]; [|apply canonicalURI_oneLine..].
  apply join_oneLine in E as [E3 E]; [|apply canonicalQuery_oneLine..].
  apply canonicalHeaders_inj in E as [E4 E]; [|done..].
  apply (sapp_cancel newline), sapp_cancel, (sapp_cancel newline) in E. done.
Qed.

Lemma toSign_inj params r r' : wellFormed r -> wellFormed r' -> toSign params r = toSign params r' ->
  timestampOf r = timestampOf r' /\ sha256Hash (canonicalOf params r) = sha256Hash (canonicalOf params r').
Proof.
  intros (_ & T & _) (_ & T' & _) E. unfold toSign, buildStringToSign in E. cbn [strJoin] in E.
  apply (sapp_cancel algorithm), (sapp_cancel newline) in E. apply join_oneLine in E as [E1 E]; [|done..].
  split; [done|]. apply sapp_cancel in E. by apply (sapp_cancel newline) in E.
Qed.

Lemma verify_inv r secret now : verifySigV4Header r secret now = Ok tt ->
  exists params, parseAuthorizationHeader (HeaderGet "Authorization" r) = Ok params /\
    validateTimestamp (timestampOf r) (sp_Date params) now = Ok tt /\
    computeSignature (deriveSigningKey secret (sp_Date params) (sp_Region params) (sp_Service params))
      (toSign params r) = sp_Signature params.
Proof.
  unfold verifySigV4Header. intros E. apply bind_Ok in E as (params & P & E). fold (timestampOf r) in E.
  destruct (bool_decide (timestampOf r = ""%string)); [done|].
  apply bind_Ok in E as ([] & V & E). exists params. split; [done|]. split; [done|].
  case_bool_decide as S; [exact S|done].
Qed.

(** C13: When two requests are accepted under one secret with the same
    Authorization header, they agree on the time stamp, the method, the
    canonical path and query, every signed header and the declared payload
    hash, unless they exhibit a collision of the digests: different canonical
    requests with one SHA-256, or different strings to sign with one HMAC. *)
Theorem signature_binds_request (r r' : Request) (secret : string) (now now' : Time)
    (params : sigV4Params) :
  wellFormed r -> wellFormed r' ->
  parseAuthorizationHeader (HeaderGet "Authorization" r) = Ok params ->
  HeaderGet "Authorization" r' = HeaderGet "Authorization" r ->
  verifySigV4Header r secret now = Ok tt -> verifySigV4Header r' secret now' = Ok tt ->
  let key := deriveSigningKey secret (sp_Date params) (sp_Region params) (sp_Service params) in
  (timestampOf r = timestampOf r' /\ sameSigned (sp_SignedHeaders params) r r') \/
  (canonicalOf params r <> canonicalOf params r' /\
   sha256Hash (canonicalOf params r) = sha256Hash (canonicalOf params r')) \/
  (toSign params r <> toSign params r' /\
   computeSignature key (toSign params r) = computeSignature key (toSign params r')).
Proof.
  intros W W' P A (p & P1 & _ & S)%verify_inv (p' & P2 & _ & S')%verify_inv key.
  rewrite P in P1. injection P1 as <-. rewrite A, P in P2. injection P2 as <-. rewrite <- S in S'.
  destruct (decide (toSign params r = toSign params r')) as [E|N]; [|right; right; done].
  apply toSign_inj in E as [T E]; [|done..].
  destruct (decide (canonicalOf params r = canonicalOf params r')) as [C|N]; [|by right; left].
  left. split; [done|by apply canonical_inj].
Qed.

(** ** What clients send *)

Definition authorizationHeader (p : sigV4Params) : string :=
  algorithm +:+ " " +:+ strJoin ", "
    ["Credential=" +:+ strJoin "/" [sp_AccessKey p; sp_Date p; sp_Region p; sp_Service p; "aws4_request"];
     "SignedHeaders=" +:+ strJoin ";" (sp_SignedHeaders p); "Signature=" +:+ sp_Signature p].





(** ** What is not signed *)

Definition withBody (b : bytes) (host addr : string) (r : Request) : Request :=
  mkRequest (r_Method r) host (r_Path r) (r_RawQuery r) (r_Header r) b addr.
Definition withPath (p : string) (r : Request) : Request :=
  mkRequest (r_Method r) (r_Host r) p (r_RawQuery r) (r_Header r) (r_Body r) (r_RemoteAddr r).

Lemma canonicalURI_decoded p q : p <> ""%string -> q <> ""%string ->
  PathUnescape p = Some q -> PathUnescape q = Some q -> getCanonicalURI p = getCanonicalURI q.
Proof. intros P Q E E'. unfold getCanonicalURI. by rewrite !bool_decide_false, E, E' by done. Qed.

(** The signature says nothing of the body, the Host or the client's
    address, and the path is decoded once more than the request was, so that
    an object key with a percent sign is signed as the key it decodes to: a
    request accepted for one is accepted for the other. *)
Theorem signature_leaves_open (r : Request) (secret : string) (now : Time) (b : bytes) (host addr q : string) :
  r_Path r <> ""%string -> q <> ""%string ->
  PathUnescape (r_Path r) = Some q -> PathUnescape q = Some q ->
  verifySigV4Header (withBody b host addr r) secret now = verifySigV4Header r secret now /\
  verifySigV4Header (withPath q r) secret now = verifySigV4Header r secret now.
Proof.
  intros P Q E E'. split; [done|]. unfold verifySigV4Header, buildCanonicalRequest.
  cbn [withPath r_Method r_Path r_RawQuery]. by rewrite (canonicalURI_decoded _ _ P Q E E').
Qed.

(** ** Freshness *)

Lemma validateTimestamp_inv ts date now : validateTimestamp ts date now = Ok tt ->
  exists t, parseTimestamp ts = Ok t /\ - maxSkew <= Sub now t <= maxSkew /\ FormatDay t = date.
Proof.
  unfold validateTimestamp. intros E. apply bind_Ok in E as (t & P & E). exists t. split; [done|].
  destruct (_ || _) eqn:O; [done|]. apply orb_false_iff in O as [O1%Z.ltb_ge O2%Z.ltb_ge].
  case_bool_decide as D; [done|]. split; [done|]. by destruct (decide (FormatDay t = date)).
Qed.

(** An accepted presigned URL was dated at most fifteen minutes from the
    clock, on the day of its credential scope, and had not expired: an expiry
    of more than fifteen minutes does not keep it alive longer. *)
Theorem presigned_is_fresh (r : Request) (secret : string) (now now' : Time) :
  verifySigV4PresignedURL r secret now now' = Ok tt ->
  exists t, parseTimestamp (QueryGet "X-Amz-Date" r) = Ok t /\
    - maxSkew <= Sub now' t <= maxSkew /\
    (QueryGet "X-Amz-Expires" r <> ""%string -> exists d,
       ParseDuration (QueryGet "X-Amz-Expires" r +:+ "s") = Some d /\ After now (Prelude.Add t d) = false).
Proof.
  unfold verifySigV4PresignedURL. intros E. apply bind_Ok in E as (cred & _ & E).
  apply bind_Ok in E as ([[[ak date] region] service] & _ & E).
  apply bind_Ok in E as (hs & _ & E). apply bind_Ok in E as (sg & _ & E).
  apply bind_Ok in E as (ts & T & E). apply bind_Ok in E as ([] & X & E). apply bind_Ok in E as ([] & V & _).
  unfold need in T. destruct (bool_decide _); [done|]. injection T as <-.
  apply validateTimestamp_inv in V as (t & P & B & _). exists t. split; [done|]. split; [done|]. intros NE.
  rewrite bool_decide_false in X by done. unfold validatePresignedExpiry in X. rewrite P in X. cbn [mbind res_bind] in X.
  revert X. destruct (ParseDuration _) as [d|]; [|done]. exists d. split; [done|]. by destruct (After _ _).
Qed.
End Sig.

(** ** A signed request *)

Module SigDemo.
#[local] Existing Instance AsciiOnly.ascii_unicode.
#[local] Existing Instance SmallParsers.small_parsers.
#[local] Existing Instance ToyCrypto.toy.
#[local] Existing Instance IntegrityDemo.demoSha.
#[export] Instance demoTime : SigTime := {|
  ParseBasic s := if bool_decide (s = "20240102T030405Z"%string) then Some 0 else None;
  FormatDay _ := "20240102"; ParseDuration _ := Some (60 * Minute)
|}.

Definition unsigned : sigV4Params := mkSig "AKIAX" "20240102" "us-east-1" "s3" ["host"; "x-amz-date"] "".
Definition request (auth : string) : Request :=
  mkRequest "GET" "h" "/bucket/a%41" "b=2&a=1"
    {[ "Authorization"%string := [auth]; "X-Amz-Date"%string := ["20240102T030405Z"%string] ]} [] "1.2.3.4:5".
Definition signature : string :=
  computeSignature (deriveSigningKey "secret" "20240102" "us-east-1" "s3") (toSign unsigned (request "")).
Definition params : sigV4Params :=
  mkSig "AKIAX" "20240102" "us-east-1" "s3" ["host"; "x-amz-date"] signature.
Definition signed : Request := request (authorizationHeader params).
Definition otherBody : Request := withBody [1; 2] "h2" "a" signed.


Lemma signed_wellFormed : wellFormed signed /\ wellFormed otherBody.
Proof.
  assert (W : wellFormed signed); [|by split].
  split; [done|]. split; [by vm_compute|]. intros h. unfold HeaderValues. cbn [signed request r_Header].
  generalize (CanonicalHeaderKey h). intros k.
  destruct (decide (k = "Authorization"%string)) as [->|N1].
  { rewrite lookup_insert_eq. cbn [default]. repeat constructor. }
  rewrite lookup_insert_ne by congruence. destruct (decide (k = "X-Amz-Date"%string)) as [->|N2].
  - rewrite lookup_singleton_eq. cbn [default]. repeat constructor.
  - rewrite lookup_singleton_ne by congruence. constructor.
Qed.

Definition linkQuery : string :=
  "X-Amz-Credential=AKIAX%2F20240102%2Fus-east-1%2Fs3%2Faws4_request&X-Amz-Date=20240102T030405Z&X-Amz-Expires=3600&X-Amz-SignedHeaders=host".
Definition link (query : string) : Request := mkRequest "GET" "h" "/bucket/a" query ∅ [] "1.2.3.4:5".
Definition linkSignature : string :=
  signatureOf "secret" "20240102T030405Z" "20240102" "us-east-1" "s3"
    (buildCanonicalRequest "GET" "/bucket/a" (getCanonicalQueryString linkQuery) ["host"%string]
       (link linkQuery) (getPayloadHash (link linkQuery))).
Definition presigned : Request := link (linkQuery +:+ "&X-Amz-Signature=" +:+ linkSignature).
End SigDemo.

#[local] Existing Instance AsciiOnly.ascii_unicode.
#[local] Existing Instance SmallParsers.small_parsers.
#[local] Existing Instance ToyCrypto.toy.
#[local] Existing Instance IntegrityDemo.demoSha.
#[local] Existing Instance SigDemo.demoTime.


Lemma signature_binds_request_witness :
  let key := deriveSigningKey "secret" "20240102" "us-east-1" "s3" in
  (timestampOf SigDemo.signed = timestampOf SigDemo.otherBody /\
   sameSigned ["host"%string; "x-amz-date"%string] SigDemo.signed SigDemo.otherBody) \/
  (canonicalOf SigDemo.params SigDemo.signed <> canonicalOf SigDemo.params SigDemo.otherBody /\
   sha256Hash (canonicalOf SigDemo.params SigDemo.signed) = sha256Hash (canonicalOf SigDemo.params SigDemo.otherBody)) \/
  (toSign SigDemo.params SigDemo.signed <> toSign SigDemo.params SigDemo.otherBody /\
   computeSignature key (toSign SigDemo.params SigDemo.signed)
   = computeSignature key (toSign SigDemo.params SigDemo.otherBody)).
Proof.
  apply (signature_binds_request SigDemo.signed SigDemo.otherBody "secret" 0 0 SigDemo.params);
    [apply SigDemo.signed_wellFormed|apply SigDemo.signed_wellFormed|vm_compute; reflexivity..].
Defined.

Lemma signature_leaves_open_witness :
  verifySigV4Header (withBody [1] "h2" "a" SigDemo.signed) "secret" 0 = verifySigV4Header SigDemo.signed "secret" 0 /\
  verifySigV4Header (withPath "/bucket/aA" SigDemo.signed) "secret" 0 = verifySigV4Header SigDemo.signed "secret" 0.
Proof. apply signature_leaves_open; vm_compute; first [reflexivity|discriminate]. Defined.

(** A link that claims an hour is refused after fifteen minutes. *)
Example presigned_demo :
  (verifySigV4PresignedURL SigDemo.presigned "secret" 0 0,
   verifySigV4PresignedURL SigDemo.presigned "secret" (16 * Minute) (16 * Minute)) =
  (Ok tt, Err "request timestamp too far from current time"%string).
Proof. vm_compute. reflexivity. Qed.

Lemma presigned_is_fresh_witness : exists t,
  parseTimestamp (QueryGet "X-Amz-Date" SigDemo.presigned) = Ok t /\ - maxSkew <= Sub 0 t <= maxSkew /\
  (QueryGet "X-Amz-Expires" SigDemo.presigned <> ""%string -> exists d,
     ParseDuration (QueryGet "X-Amz-Expires" SigDemo.presigned +:+ "s") = Some d /\
     After 0 (Prelude.Add t d) = false).
Proof. apply (presigned_is_fresh SigDemo.presigned "secret" 0 0). vm_compute. reflexivity. Defined.

Example demo_accepted :
  (verifySigV4Header SigDemo.signed "secret" 0, verifySigV4Header SigDemo.signed "other" 0,
   verifySigV4Header SigDemo.signed "secret" (16 * Minute),
   getCanonicalQueryString "b=2&a=1&a=0") =
  (Ok tt, Err "signature mismatch", Err "request timestamp too far from current time", "a=0&a=1&b=2")%string.
Proof. vm_compute. reflexivity. Qed.
