(* ===== verification/GatewayAuth.v ===== *)
(** * The gateway's users and credentials (internal/gateway/auth.go)

    Passwords with a lock-out after repeated failures, tokens, signatures of
    the gateway's own users, the user table and its file, and the permission
    check of the legacy handlers.  bcrypt and the JWT library are parameters;
    clock readings, random draws and outcomes of file writes are arguments.
    Go walks the user table in an unspecified order; the walk here is in the
    order of [map_to_list], and the theorems show when the order is immaterial.
    Of RequireAuthForBucket the loop over the IAM bridge is left out: it hands
    a nil user to CheckIAMAccess, which then accepts, and ignores the result. *)

From S2P Require Import Prelude GoStrings GoText CryptoLib IamTypes IamMatch IamEval Integrity GatewayHttp SigV4.
From Stdlib Require Import Ascii String.
From stdpp Require Import base list strings gmap.

#[local] Open Scope Z_scope.

(** golang-jwt with HMAC methods: [jwt_Parse] also checks the expiry against
    the clock. *)
Record Claims := mkClaims {
  cl_UserID : string; cl_Role : string; cl_Perms : list string;
  cl_ExpiresAt : Time; cl_IssuedAt : Time; cl_Issuer : string
}.
Class JwtLib := {
  jwt_Parse : string -> string -> Time -> res Claims;
  jwt_Sign : string -> Claims -> res string;
  (** [bcrypt.CompareHashAndPassword(hash, password) == nil] *)
  bcrypt_Compare : string -> string -> bool
}.
(** What the two libraries document. *)
Class JwtLaws `{JwtLib} := {
  jwt_roundtrip key c token now : jwt_Sign key c = Ok token ->
    jwt_Parse key token now = if Before now (cl_ExpiresAt c) then Ok c else Err "token is expired"
}.

(** [jwt.NewNumericDate]: whole seconds. *)
Definition NewNumericDate (t : Time) : Time := t - t mod Second.

Record failedLoginTracker := mkTracker { fl_count : Z; fl_firstFail : Time; fl_blockedUntil : Time }.

Record AuthConfig := mkAuthConfig {
  ac_JWTSecret : string; ac_RequireAuth : bool; ac_AnonymousRead : bool;
  ac_TokenExpiry : Duration; ac_RefreshExpiry : Duration
}.
Record AuthHandler := mkAuth {
  ah_secretKey : string;
  ah_users : gmap string User;
  ah_config : AuthConfig;
  ah_failedLogins : gmap string failedLoginTracker
}.

Definition with_users (u : gmap string User) (a : AuthHandler) : AuthHandler :=
  mkAuth (ah_secretKey a) u (ah_config a) (ah_failedLogins a).
Definition with_failed (f : gmap string failedLoginTracker) (a : AuthHandler) : AuthHandler :=
  mkAuth (ah_secretKey a) (ah_users a) (ah_config a) f.
Definition SetRequireAuth (require : bool) (a : AuthHandler) : AuthHandler :=
  let c := ah_config a in
  mkAuth (ah_secretKey a) (ah_users a)
    (mkAuthConfig (ac_JWTSecret c) require (ac_AnonymousRead c) (ac_TokenExpiry c) (ac_RefreshExpiry c))
    (ah_failedLogins a).
Definition SetAnonymousRead (allow : bool) (a : AuthHandler) : AuthHandler :=
  let c := ah_config a in
  mkAuth (ah_secretKey a) (ah_users a)
    (mkAuthConfig (ac_JWTSecret c) (ac_RequireAuth c) allow (ac_TokenExpiry c) (ac_RefreshExpiry c))
    (ah_failedLogins a).

(** ** Start *)

(** What the constructor reads: the environment, 32 and 16 random bytes, the
    hash of the administrator's password, and the user file. *)
Record Startup := mkStartup {
  st_secret1 : string;        (** CIPHERLAKE_JWT_SECRET *)
  st_secret2 : string;        (** JWT_SECRET *)
  st_drawSecret : res bytes;
  st_adminPassword : string;  (** CIPHERLAKE_ADMIN_PASSWORD *)
  st_drawPassword : res bytes;
  st_hash : string -> string;    (** of the password; empty on an error *)
  st_adminSecretKey : string; (** CIPHERLAKE_ADMIN_SECRET_KEY *)
  st_userFile : option (gmap string User)   (** [None]: unreadable or not JSON *)
}.

Definition defaultAuthConfig : AuthConfig :=
  mkAuthConfig "" false true (24 * 60 * Minute) (7 * 24 * 60 * Minute).

Definition orElse (v w : string) : string := if bool_decide (v = ""%string) then w else v.

Definition loadUser (users : gmap string User) (name : string) (user : User) : gmap string User :=
  if bool_decide (name = "admin"%string) then
    match users !! "admin"%string with
    | Some adm =>
      <["admin"%string := mkUser (us_ID adm) (us_Name adm)
          (orElse (us_PasswordHash user) (us_PasswordHash adm)) (us_SecretKey adm)
          (us_Role user) (us_Permissions user) (us_BucketPermissions adm)]> users
    | None => users
    end
  else <[name := user]> users.
Definition loadUsers (stored : option (gmap string User)) (a : AuthHandler) : AuthHandler :=
  match stored with
  | None => a
  | Some stored =>
    with_users (fold_left (fun us kv => loadUser us kv.1 kv.2) (map_to_list stored) (ah_users a)) a
  end.

(** [None]: the constructor returns nil. *)
Definition NewAuthHandlerWithConfig (cfg : option AuthConfig) (st : Startup) : option AuthHandler :=
  let cfg := default defaultAuthConfig cfg in
  let secret := orElse (orElse (ac_JWTSecret cfg) (st_secret1 st)) (st_secret2 st) in
  secretKey ← (if bool_decide (secret = ""%string)
               then match st_drawSecret st with Ok b => Some (hexEncode b) | _ => None end
               else Some secret);
  adminPassword ← (if bool_decide (st_adminPassword st = ""%string)
                   then match st_drawPassword st with Ok b => Some (encode64 b) | _ => None end
                   else Some (st_adminPassword st));
  let admin := mkUser "user-001" "admin" (st_hash st adminPassword) (st_adminSecretKey st) "admin"
                 ["read"; "write"; "delete"; "admin"]%string None in
  Some (loadUsers (st_userFile st)
          (mkAuth secretKey {[ "admin"%string := admin ]} cfg ∅)).

(** ** Lock-out *)

(** The clock readings of one attempt, in their order. *)
Record loginTimes := mkTimes { lt_check : Time; lt_since : Time; lt_first : Time; lt_block : Time }.

Definition lockWindow : Duration := 15 * Minute.

Definition isBlocked (key : string) (now : Time) (a : AuthHandler) : bool :=
  match ah_failedLogins a !! key with
  | None => false
  | Some tracker => Before now (fl_blockedUntil tracker)
  end.
Definition bumpTracker (ts : loginTimes) (tracker : failedLoginTracker) : failedLoginTracker :=
  let tracker := if lockWindow <? Sub (lt_since ts) (fl_firstFail tracker)
                 then mkTracker 0 (lt_first ts) (fl_blockedUntil tracker) else tracker in
  let count := fl_count tracker + 1 in
  mkTracker count (fl_firstFail tracker)
    (if 5 <=? count then Prelude.Add (lt_block ts) lockWindow else fl_blockedUntil tracker).
Definition recordFailedLogin (key : string) (ts : loginTimes) (a : AuthHandler) : AuthHandler :=
  with_failed (<[key := bumpTracker ts (default (mkTracker 0 0 0) (ah_failedLogins a !! key))]> (ah_failedLogins a)) a.
Definition resetFailedLogins (key : string) (a : AuthHandler) : AuthHandler :=
  with_failed (delete key (ah_failedLogins a)) a.

(** ** Credentials *)

Definition hasName (name : string) (u : User) : bool := bool_decide (us_Name u = name).
Definition findUser (f : User -> bool) (a : AuthHandler) : option User :=
  List.find f ((map_to_list (ah_users a)).*2).

Definition anonymousUser (perms : list string) : User :=
  mkUser "anonymous" "anonymous" "" "" "anonymous" perms None.

(** The first part up to a colon and the rest. *)
Definition splitCredentials (decoded : string) : res (string * string) :=
  match cut ":"%char decoded with
  | (u, Some p) => Ok (u, p)
  | _ => Err "invalid basic auth format"
  end.
Definition decodeBasicAuth (encoded : string) : res (string * string) :=
  decoded ← wrapErr "invalid basic auth encoding" (DecodeString encoded);
  splitCredentials (string_of_bytes decoded).

Definition extractAWSAccessKey `{GoUnicode} (auth : string) : string :=
  match Index auth "Credential=" with
  | None => ""
  | Some idx =>
    let credPart := sdrop (idx + 11) auth in
    let credPart := (cut ","%char credPart).1 in
    TrimSpace (cut slash credPart).1
  end.

Section Auth.
Context `{GoUnicode} `{GoParsers} `{CryptoLib} `{Sha256} `{SigTime} `{JwtLib}.

(** The readings of one request: the login's, the token's, the signature's
    two, and that of the lookup of temporary credentials. *)
Record Clock := mkClock {
  ck_login : loginTimes; ck_jwt : Time; ck_sig : Time; ck_sig' : Time; ck_temp : Time
}.

Definition validateBasicAuth (encoded : string) (ts : loginTimes) (a : AuthHandler) : AuthHandler * res User :=
  match decodeBasicAuth encoded with
  | Ok (accessKey, secretKey) =>
    if isBlocked accessKey (lt_check ts) a
    then (a, Err "account temporarily locked due to too many failed attempts")
    else
      match findUser (fun u => hasName accessKey u && bcrypt_Compare (us_PasswordHash u) secretKey) a with
      | Some user => (resetFailedLogins accessKey a, Ok user)
      | None => (recordFailedLogin accessKey ts a, Err "invalid credentials")
      end
  | Err e => (a, Err e)
  | Panic w => (a, Panic w)
  end.

Definition validateJWT (tokenString : string) (now : Time) (a : AuthHandler) : res User :=
  claims ← wrapErr "failed to parse JWT" (jwt_Parse (ah_secretKey a) tokenString now);
  Ok (mkUser (cl_UserID claims) (cl_UserID claims) "" "" (cl_Role claims) (cl_Perms claims) None).

(** The check of a user's own signature, shared by the two forms. *)
Definition signedBy (accessKey failure : string) (verify : string -> res unit) (a : AuthHandler) : res User :=
  match findUser (hasName accessKey) a with
  | None => Err "invalid AWS credentials"
  | Some user =>
    if bool_decide (us_SecretKey user = ""%string) then Err "user has no secret key configured for SigV4 signing"
    else match verify (us_SecretKey user) with
         | Ok _ => Ok user
         | Err _ => Err failure
         | Panic w => Panic w
         end
  end.
Definition validateAWSSignature (r : Request) (ck : Clock) (a : AuthHandler) : res User :=
  let authorization := HeaderGet "Authorization" r in
  if bool_decide (authorization <> ""%string) then
    if negb (HasPrefix authorization algorithm) then Err "invalid AWS signature version"
    else
      let accessKey := extractAWSAccessKey authorization in
      if bool_decide (accessKey = ""%string) then Err "missing access key in AWS signature"
      else signedBy accessKey "AWS signature verification failed"
             (fun secret => verifySigV4Header r secret (ck_sig ck)) a
  else
    let accessKey := (cut slash (QueryGet "X-Amz-Credential" r)).1 in
    if bool_decide (accessKey = ""%string)
    then Err "missing authorization header or presigned URL parameters"
    else signedBy accessKey "presigned URL signature verification failed"
           (fun secret => verifySigV4PresignedURL r secret (ck_sig ck) (ck_sig' ck)) a.

(** [AuthHandler.Authenticate]. *)
Definition auth_Authenticate (r : Request) (ck : Clock) (a : AuthHandler) : AuthHandler * res User :=
  let authHeader := HeaderGet "Authorization" r in
  if bool_decide (authHeader = ""%string) then
    (a, if ac_RequireAuth (ah_config a) then Err "authentication required"
        else Ok (anonymousUser ["read"; "write"; "delete"]%string))
  else
    match cut " "%char authHeader with
    | (scheme, Some rest) =>
      let kind := ToLower scheme in
      if bool_decide (kind = "basic"%string) then validateBasicAuth rest (ck_login ck) a
      else if bool_decide (kind = "bearer"%string) then (a, validateJWT rest (ck_jwt ck) a)
      else if bool_decide (kind = "aws4-hmac-sha256"%string) then (a, validateAWSSignature r ck a)
      else (a, Err ("unsupported authorization type: " +:+ scheme))
    | _ => (a, Err "invalid authorization header format")
    end.

Definition GetUserID (r : Request) (ck : Clock) (a : AuthHandler) : AuthHandler * res string :=
  match auth_Authenticate r ck a with
  | (a, Ok user) => (a, Ok (us_ID user))
  | (a, Err _) => (a, Ok "anonymous"%string)
  | (a, Panic w) => (a, Panic w)
  end.

(** ** Permissions of the legacy handlers *)

(** The first required permission that nothing in the list grants. *)
Definition firstMissing (all : string) (perms required : list string) : option string :=
  List.find (fun p => negb (existsb (fun q => bool_decide (q = p) || bool_decide (q = all)) perms)) required.

Definition checkBucketPermission (user : User) (bp : gmap string (list string)) (bucket : string)
    (required : list string) : res User :=
  let bucketPerms := match bp !! bucket with
                     | Some ps => ps
                     | None => default [] (bp !! "*"%string)
                     end in
  match bucketPerms with
  | [] =>
    match us_Permissions user with
    | [] => Err ("permission denied: no access to bucket " +:+ bucket)
    | perms =>
      match firstMissing "admin" perms required with
      | Some _ => Err ("permission denied: no access to bucket " +:+ bucket)
      | None => Ok user
      end
    end
  | _ =>
    match firstMissing "*" bucketPerms required with
    | Some p => Err ("permission denied: requires " +:+ p +:+ " on bucket " +:+ bucket)
    | None => Ok user
    end
  end.

Definition checkPermissions (user : User) (bucket : string) (required : list string) : res User :=
  if bool_decide (us_Role user = "admin"%string) then Ok user
  else
    match us_BucketPermissions user with
    | Some bp =>
      if bool_decide (bucket <> ""%string) then checkBucketPermission user bp bucket required
      else
        match firstMissing "admin" (us_Permissions user) required with
        | Some p => Err ("permission denied: requires " +:+ p)
        | None => Ok user
        end
    | None =>
      match firstMissing "admin" (us_Permissions user) required with
      | Some p => Err ("permission denied: requires " +:+ p)
      | None => Ok user
      end
    end.

Definition RequireAuthForBucket (r : Request) (ck : Clock) (bucket : string) (required : list string)
    (a : AuthHandler) : AuthHandler * res User :=
  match auth_Authenticate r ck a with
  | (a, Ok user) => (a, checkPermissions user bucket required)
  | (a, Err e) =>
    (a, if negb (ac_RequireAuth (ah_config a)) then Ok (anonymousUser ["read"; "write"; "delete"]%string)
        else if ac_AnonymousRead (ah_config a) then
          match List.find (fun p => negb (bool_decide (p = "read"%string))) required with
          | Some p => Err ("permission denied: requires " +:+ p)
          | None => Ok (anonymousUser ["read"%string])
          end
        else Err e)
  | (a, Panic w) => (a, Panic w)
  end.
Definition RequireAuth (r : Request) (ck : Clock) (required : list string) (a : AuthHandler) :=
  RequireAuthForBucket r ck "" required a.

(** ** Tokens *)

(** [now] for the expiry and [now'] for the time of issue. *)
Definition GenerateTokenWithExpiry (userID : string) (expiry : Duration) (now now' : Time) (a : AuthHandler)
  : res string :=
  let '(role, perms) := match ah_users a !! userID with
                        | Some u => (us_Role u, us_Permissions u)
                        | None => ("user", ["read"; "write"])%string
                        end in
  jwt_Sign (ah_secretKey a)
    (mkClaims userID role perms (NewNumericDate (Prelude.Add now expiry)) (NewNumericDate now') "cipherlake").
Definition GenerateToken (userID : string) (now now' : Time) (a : AuthHandler) : res string :=
  GenerateTokenWithExpiry userID (ac_TokenExpiry (ah_config a)) now now' a.
Definition GenerateRefreshToken (userID : string) (now now' : Time) (a : AuthHandler) : res string :=
  GenerateTokenWithExpiry userID (ac_RefreshExpiry (ah_config a)) now now' a.
Definition RefreshToken (refreshToken : string) (t now now' : Time) (a : AuthHandler) : res string :=
  claims ← wrapErr "invalid refresh token" (jwt_Parse (ah_secretKey a) refreshToken t);
  GenerateToken (cl_UserID claims) now now' a.

(** ** The user table *)

(** [generateSecretKey]: a failed draw is a fault. *)
Definition generateSecretKey (draw : res bytes) : res string :=
  match draw with
  | Ok b => Ok (hexEncode b)
  | _ => Panic "crypto/rand.Read failed: unable to generate secret key"
  end.

(** [hash] is the outcome of [bcrypt.GenerateFromPassword], [saved] that of
    [saveUsersLocked]; the table keeps the change when the file is not written. *)
Definition AddUser (id name secretKey role : string) (permissions : list string)
    (bucketPermissions : option (gmap string (list string))) (hash : res string) (draw : res bytes)
    (saved : res unit) (a : AuthHandler) : AuthHandler * res unit :=
  match wrapErr "failed to hash password" hash with
  | Ok h =>
    match (if bool_decide (secretKey = ""%string) then generateSecretKey draw else Ok secretKey) with
    | Ok secretKey =>
      match ah_users a !! name with
      | Some _ => (a, Err ("user " +:+ name +:+ " already exists"))
      | None =>
        (with_users (<[name := mkUser id name h secretKey role permissions bucketPermissions]> (ah_users a)) a, saved)
      end
    | Err e => (a, Err e)
    | Panic w => (a, Panic w)
    end
  | Err e => (a, Err e)
  | Panic w => (a, Panic w)
  end.

Definition RemoveUser (name : string) (saved : res unit) (a : AuthHandler) : AuthHandler * res unit :=
  if bool_decide (name = "admin"%string) then (a, Err "cannot remove admin user")
  else
    match ah_users a !! name with
    | None => (a, Err ("user " +:+ name +:+ " not found"))
    | Some _ => (with_users (delete name (ah_users a)) a, saved)
    end.

Definition UpdateUser (name role : string) (permissions : option (list string))
    (bucketPermissions : option (gmap string (list string))) (saved : res unit) (a : AuthHandler)
  : AuthHandler * res unit :=
  match ah_users a !! name with
  | None => (a, Err ("user " +:+ name +:+ " not found"))
  | Some u =>
    let u := mkUser (us_ID u) (us_Name u) (us_PasswordHash u) (us_SecretKey u) (orElse role (us_Role u))
               (default (us_Permissions u) permissions)
               (match bucketPermissions with Some _ => bucketPermissions | None => us_BucketPermissions u end) in
    (with_users (<[name := u]> (ah_users a)) a, saved)
  end.

Definition ChangePassword (name : string) (hash : res string) (saved : res unit) (a : AuthHandler)
  : AuthHandler * res unit :=
  match ah_users a !! name with
  | None => (a, Err ("user " +:+ name +:+ " not found"))
  | Some u =>
    match wrapErr "failed to hash password" hash with
    | Ok h =>
      let u := mkUser (us_ID u) (us_Name u) h (us_SecretKey u) (us_Role u) (us_Permissions u)
                 (us_BucketPermissions u) in
      (with_users (<[name := u]> (ah_users a)) a, saved)
    | Err e => (a, Err e)
    | Panic w => (a, Panic w)
    end
  end.

(** Copies without the secrets. *)
Definition publicUser (u : User) : User :=
  mkUser (us_ID u) (us_Name u) "" "" (us_Role u) (us_Permissions u) (us_BucketPermissions u).
Definition ListUsers (a : AuthHandler) : list User := map publicUser ((map_to_list (ah_users a)).*2).
Definition GetUser (name : string) (a : AuthHandler) : res User :=
  match ah_users a !! name with
  | None => Err ("user " +:+ name +:+ " not found")
  | Some u => Ok (publicUser u)
  end.
End Auth.
