(* ===== verification/GatewayProvider.v ===== *)
(** * Who is asking (internal/gateway/auth_provider.go, iam_bridge.go, s3.go,
    and the user endpoints of auth.go)

    Access keys and temporary credentials of the IAM service in front of the
    gateway's own users, the identity handed to the handlers, the permission
    check, and the administration endpoints for users. *)

From S2P Require Import Prelude GoStrings GoText CryptoLib Bolt IamTypes IamMatch IamStore IamEval IamService.
From S2P Require Import IamEval Integrity GatewayHttp SigV4 GatewayAuth.
From Stdlib Require Import Ascii String.
From stdpp Require Import base list strings gmap.

#[local] Open Scope Z_scope.

Record Identity := mkIdentity {
  id_ID : string; id_Name : string; id_Role : string; id_Permissions : list string;
  id_BucketPerms : option (gmap string (list string));
  id_IsIAM : bool; id_IAMUserID : string; id_Source : string
}.

Definition ActionRead : string := "read".
Definition ActionWrite : string := "write".
Definition ActionDelete : string := "delete".
Definition ActionAdmin : string := "admin".

Definition TempKeyPrefix : string := "ASIA".
Definition isIAMAccessKey (accessKey : string) : bool :=
  HasPrefix accessKey AccessKeyIDPrefix || HasPrefix accessKey TempKeyPrefix.
Definition containsPrefix (s prefix : string) : bool := Contains s prefix.
Definition containsAKIAOrASIA (s : string) : bool := containsPrefix s "AKIA" || containsPrefix s "ASIA".

Definition anonymousIdentity (anonymousRead : bool) : Identity :=
  let perms := if anonymousRead then [ActionRead; ActionWrite; ActionDelete] else [ActionRead] in
  mkIdentity "anonymous" "anonymous" "anonymous" perms None false "" "legacy".

Definition toAuthIdentity (u : User) (iamUser : option IAMUser) : Identity :=
  let '(isIAM, iamID, source) :=
    match iamUser with
    | Some iu => (true, iu_ID iu, "iam"%string)
    | None => if HasPrefix (us_Name u) "sts:" then (true, ""%string, "sts"%string)
              else (false, ""%string, "legacy"%string)
    end in
  mkIdentity (us_ID u) (us_Name u) (us_Role u) (us_Permissions u) (us_BucketPermissions u) isIAM iamID source.

(** The synthetic user of a temporary credential. *)
Definition tempUser (accessKey : string) : User :=
  mkUser accessKey ("sts:" +:+ accessKey) "" "" "user" ["read"; "write"; "delete"]%string None.

(** [strings.LastIndex(s, ":")]: the text before the last colon. *)
Fixpoint beforeLast (c : ascii) (s : string) : option string :=
  match s with
  | EmptyString => None
  | String d s =>
    match beforeLast c s with
    | Some t => Some (String d t)
    | None => if bool_decide (d = c) then Some EmptyString else None
    end
  end.
Definition extractClientIP `{GoUnicode} (r : Request) : string :=
  let xff := HeaderGet "X-Forwarded-For" r in
  if bool_decide (xff <> ""%string) then TrimSpace (cut ","%char xff).1
  else
    let xri := HeaderGet "X-Real-IP" r in
    if bool_decide (xri <> ""%string) then xri
    else default (r_RemoteAddr r) (beforeLast ":"%char (r_RemoteAddr r)).

Definition mapActionToIAM (action : string) : string :=
  if bool_decide (action = ActionRead) then "s3:GetObject"
  else if bool_decide (action = ActionWrite) then "s3:PutObject"
  else if bool_decide (action = ActionDelete) then "s3:DeleteObject"
  else if bool_decide (action = ActionAdmin) then "s3:*"
  else action.

(** [legacyPermissionChecker.Check]. *)
Definition grants (all action : string) (perms : list string) : bool :=
  existsb (fun p => bool_decide (p = action) || bool_decide (p = all)) perms.
Definition legacyCheck (identity : Identity) (action bucket : string) : res unit :=
  let bucketPerms :=
    if bool_decide (bucket <> ""%string) then
      match id_BucketPerms identity with
      | Some bp => match bp !! bucket with
                   | Some ps => ps
                   | None => default [] (bp !! "*"%string)
                   end
      | None => []
      end
    else [] in
  match bucketPerms with
  | [] => if grants "admin" action (id_Permissions identity) then Ok tt
          else Err ("permission denied: requires " +:+ action)
  | _ => if grants "*" action bucketPerms then Ok tt
         else Err ("permission denied: requires " +:+ action +:+ " on bucket " +:+ bucket)
  end.

Section Provider.
Context `{GoUnicode} `{GoParsers} `{CryptoLib} `{Sha256} `{SigTime} `{JwtLib} `{Bolt}.

(** The IAM service behind the bridge. *)
Record Bridge := mkBridge { br_store : IAMStore; br_master : MasterKey }.

(** The secret of an access key: [Err], the lookup failed; [Ok (_, Err)], the
    secret does not decrypt. *)
Definition accessKeySecret (accessKey : string) (b : Bridge) : res (IAMUser * res string) :=
  '(iamUser, ak) ← GetUserByAccessKeyID accessKey (br_store b);
  match DecryptSecretKey (br_master b) (ak_SecretKeyEnc ak) with
  | Panic w => Panic w
  | secret => Ok (iamUser, secret)
  end.

Definition legacyOnly (x : AuthHandler * res User) : AuthHandler * res (User * option IAMUser) :=
  (x.1, user ← x.2; Ok (user, None)).

Definition validateBasicAuthIAM (encoded : string) (ck : Clock) (b : Bridge) (a : AuthHandler)
  : AuthHandler * res (User * option IAMUser) :=
  match decodeBasicAuth encoded with
  | Ok (accessKey, secretKey) =>
    if HasPrefix accessKey AccessKeyIDPrefix then
      (a, match accessKeySecret accessKey b with
          | Ok (iamUser, Ok secret) =>
            if bool_decide (secretKey = secret) then Ok (iamUserToLegacy iamUser, Some iamUser)
            else Err "invalid credentials"
          | Panic w => Panic w
          | _ => Err "invalid credentials"
          end)
    else if HasPrefix accessKey TempKeyPrefix then
      (a, match GetTempCredential accessKey (ck_temp ck) (br_store b) with
          | Ok tempCred =>
            if bool_decide (secretKey = tc_SecretAccessKey tempCred) then Ok (tempUser accessKey, None)
            else Err "invalid credentials"
          | Panic w => Panic w
          | Err _ => Err "invalid credentials"
          end)
    else legacyOnly (validateBasicAuth encoded (ck_login ck) a)
  | Err e => (a, Err e)
  | Panic w => (a, Panic w)
  end.

(** A temporary credential with its session token and a signature. *)
Definition tempSigned (accessKey sessionToken failure : string) (verify : string -> res unit) (ck : Clock)
    (b : Bridge) : res (User * option IAMUser) :=
  match GetTempCredential accessKey (ck_temp ck) (br_store b) with
  | Ok tempCred =>
    if bool_decide (sessionToken <> tc_SessionToken tempCred) then Err "invalid session token"
    else match verify (tc_SecretAccessKey tempCred) with
         | Ok _ => Ok (tempUser accessKey, None)
         | Err _ => Err failure
         | Panic w => Panic w
         end
  | Err _ => Err "invalid temporary credentials"
  | Panic w => Panic w
  end.
(** An access key with a signature; [None]: not an access key known here. *)
Definition keySigned (accessKey failure : string) (verify : string -> res unit) (b : Bridge)
  : option (res (User * option IAMUser)) :=
  if HasPrefix accessKey AccessKeyIDPrefix then
    match accessKeySecret accessKey b with
    | Ok (iamUser, Ok secret) =>
      Some match verify secret with
           | Ok _ => Ok (iamUserToLegacy iamUser, Some iamUser)
           | Err _ => Err failure
           | Panic w => Panic w
           end
    | Ok (_, _) => Some (Err "failed to decrypt secret key")
    | Panic w => Some (Panic w)
    | Err _ => None
    end
  else None.

Definition validatePresignedURLIAM (r : Request) (ck : Clock) (b : Bridge) (a : AuthHandler)
  : res (User * option IAMUser) :=
  let credential := QueryGet "X-Amz-Credential" r in
  if bool_decide (credential = ""%string) then Err "missing authorization header or presigned URL parameters"
  else
    let accessKey := (cut slash credential).1 in
    let verify := fun secret => verifySigV4PresignedURL r secret (ck_sig ck) (ck_sig' ck) in
    match keySigned accessKey "presigned URL signature verification failed" verify b with
    | Some x => x
    | None =>
      if HasPrefix accessKey TempKeyPrefix
      then tempSigned accessKey (QueryGet "X-Amz-Security-Token" r)
             "presigned URL signature verification failed" verify ck b
      else user ← validateAWSSignature r ck a; Ok (user, None)
    end.

Definition validateAWSSignatureIAM (r : Request) (ck : Clock) (b : Bridge) (a : AuthHandler)
  : res (User * option IAMUser) :=
  let authorization := HeaderGet "Authorization" r in
  if bool_decide (authorization = ""%string) then validatePresignedURLIAM r ck b a
  else if negb (HasPrefix authorization algorithm) then Err "invalid AWS signature version"
  else
    let accessKey := extractAWSAccessKey authorization in
    if bool_decide (accessKey = ""%string) then Err "missing access key in AWS signature"
    else
      let verify := fun secret => verifySigV4Header r secret (ck_sig ck) in
      match keySigned accessKey "AWS signature verification failed" verify b with
      | Some x => x
      | None =>
        if HasPrefix accessKey TempKeyPrefix
        then tempSigned accessKey
               (orElse (HeaderGet "X-Amz-Security-Token" r) (QueryGet "X-Amz-Security-Token" r))
               "AWS signature verification failed" verify ck b
        else user ← validateAWSSignature r ck a; Ok (user, None)
      end.

Definition AuthenticateWithIAM (r : Request) (ck : Clock) (b : Bridge) (a : AuthHandler)
  : AuthHandler * res (User * option IAMUser) :=
  let authHeader := HeaderGet "Authorization" r in
  if bool_decide (authHeader = ""%string) then
    (a, if ac_RequireAuth (ah_config a) then Err "authentication required"
        else Ok (anonymousUser ["read"%string], None))
  else
    match cut " "%char authHeader with
    | (scheme, Some rest) =>
      let kind := ToLower scheme in
      if bool_decide (kind = "basic"%string) then validateBasicAuthIAM rest ck b a
      else if bool_decide (kind = "bearer"%string) then legacyOnly (a, validateJWT rest (ck_jwt ck) a)
      else if bool_decide (kind = "aws4-hmac-sha256"%string) then (a, validateAWSSignatureIAM r ck b a)
      else (a, Err ("unsupported authorization type: " +:+ scheme))
    | _ => (a, Err "invalid authorization header format")
    end.

Definition looksLikeIAMRequest (r : Request) : bool :=
  let authHeader := HeaderGet "Authorization" r in
  if bool_decide (authHeader <> ""%string) then
    match cut " "%char authHeader with
    | (scheme, Some rest) =>
      let kind := ToLower scheme in
      if bool_decide (kind = "aws4-hmac-sha256"%string) then true
      else if bool_decide (kind = "basic"%string) then
        match decodeBasicAuth rest with Ok (user, _) => isIAMAccessKey user | _ => false end
      else containsAKIAOrASIA authHeader
    | _ => false
    end
  else
    let credential := QueryGet "X-Amz-Credential" r in
    if bool_decide (credential = ""%string) then false else isIAMAccessKey (cut slash credential).1.

(** [gatewayAuthProvider.Authenticate]. *)
Definition provider_Authenticate (r : Request) (ck : Clock) (br : option Bridge) (a : AuthHandler)
  : AuthHandler * res Identity :=
  let '(a, early) :=
    match br with
    | Some b => if looksLikeIAMRequest r then AuthenticateWithIAM r ck b a else (a, Err "")
    | None => (a, Err "")
    end in
  match early with
  | Ok (u, iu) => (a, Ok (toAuthIdentity u iu))
  | Panic w => (a, Panic w)
  | Err _ =>
    match auth_Authenticate r ck a with
    | (a, Ok u) => (a, Ok (toAuthIdentity u None))
    | (a, Err e) =>
      (a, if negb (ac_RequireAuth (ah_config a)) then Ok (anonymousIdentity (ac_AnonymousRead (ah_config a)))
          else Err e)
    | (a, Panic w) => (a, Panic w)
    end
  end.

(** [gatewayAuthProvider.Check]; [None]: the evaluation has not finished. *)
Definition provider_Check (fuel : nat) (identity : option Identity) (action bucket key : string) (r : Request)
    (now : Time) (br : option Bridge) : option (res unit) :=
  match identity with
  | None => Some (Err "authentication required")
  | Some identity =>
    if bool_decide (id_Role identity = "admin"%string) then Some (Ok tt)
    else
      match (if id_IsIAM identity then br else None) with
      | Some b =>
        match IamStore.GetUser (id_Name identity) (br_store b) with
        | Ok iamUser =>
          CheckIAMAccess fuel (br_store b) (Some iamUser) (mapActionToIAM action) bucket key (extractClientIP r) now
        | Err _ => Some (legacyCheck identity action bucket)
        | Panic w => Some (Panic w)
        end
      | None => Some (legacyCheck identity action bucket)
      end
  end.

(** [requireIdentity] of s3.go, with both collaborators set. *)
Definition requireIdentity (fuel : nat) (r : Request) (ck : Clock) (now : Time) (action bucket key : string)
    (br : option Bridge) (a : AuthHandler) : AuthHandler * option (res Identity) :=
  match provider_Authenticate r ck br a with
  | (a, Ok identity) =>
    (a, (fun x => _ ← x; Ok identity) <$> provider_Check fuel (Some identity) action bucket key r now br)
  | (a, Err e) => (a, Some (Err e))
  | (a, Panic w) => (a, Some (Panic w))
  end.

Definition getUserID (r : Request) (ck : Clock) (br : option Bridge) (a : AuthHandler) : AuthHandler * res string :=
  match provider_Authenticate r ck br a with
  | (a, Ok identity) => (a, Ok (id_ID identity))
  | (a, Err _) => (a, Ok "anonymous"%string)
  | (a, Panic w) => (a, Panic w)
  end.

(** ** The administration endpoints for users *)

Record CreateUserRequest := mkCreate {
  cr_ID : string; cr_Name : string; cr_Password : string; cr_SecretKey : string; cr_Role : string;
  cr_Permissions : option (list string); cr_BucketPermissions : option (gmap string (list string))
}.
Record UpdateUserRequest := mkUpdate {
  up_Role : string; up_Permissions : option (list string); up_BucketPermissions : option (gmap string (list string))
}.

(** The body of a request, decoded; [None]: not JSON of that type. *)
Record AdminBody := mkAdminBody {
  ab_Create : option CreateUserRequest; ab_Update : option UpdateUserRequest; ab_Password : option string
}.
(** Outcomes of the calls outside: the hash, the draw of a secret key, the file. *)
Record AdminCalls := mkCalls {
  mc_hash : string -> res string; mc_draw : res bytes; mc_saved : res unit; mc_newID : string
}.

Inductive answer :=
| Text (status : Z) (message : string)
| Users (users : list User)
| OneUser (status : Z) (user : option User)
| Empty (status : Z)
| Faulted (why : string).

Definition requireAdminAuth (r : Request) (ck : Clock) (a : AuthHandler) : AuthHandler * option answer :=
  match auth_Authenticate r ck a with
  | (a, Ok user) =>
    (a, if bool_decide (us_Role user = "admin"%string) then None
        else Some (Text 401 "Unauthorized: admin access required"))
  | (a, Err _) => (a, Some (Text 401 "Unauthorized: admin access required"))
  | (a, Panic w) => (a, Some (Faulted w))
  end.

(** Run [f] for an administrator. *)
Definition asAdmin (r : Request) (ck : Clock) (f : AuthHandler -> AuthHandler * answer) (a : AuthHandler)
  : AuthHandler * answer :=
  match requireAdminAuth r ck a with
  | (a, None) => f a
  | (a, Some refused) => (a, refused)
  end.

Definition userOf (x : res User) : option User := match x with Ok u => Some u | _ => None end.

Definition createUser (body : AdminBody) (mc : AdminCalls) (a : AuthHandler) : AuthHandler * answer :=
  match ab_Create body with
  | None => (a, Text 400 "Invalid request body")
  | Some req =>
    if bool_decide (cr_Name req = ""%string) || bool_decide (cr_Password req = ""%string)
    then (a, Text 400 "name and password are required")
    else
      match AddUser (orElse (cr_ID req) (mc_newID mc)) (cr_Name req) (cr_SecretKey req)
              (orElse (cr_Role req) "user") (default ["read"; "write"]%string (cr_Permissions req))
              (cr_BucketPermissions req) (mc_hash mc (cr_Password req)) (mc_draw mc) (mc_saved mc) a with
      | (a, Ok _) => (a, OneUser 201 (userOf (GatewayAuth.GetUser (cr_Name req) a)))
      | (a, Err e) => (a, Text 409 e)
      | (a, Panic w) => (a, Faulted w)
      end
  end.

Definition handleUsers (r : Request) (ck : Clock) (body : AdminBody) (mc : AdminCalls) (a : AuthHandler)
  : AuthHandler * answer :=
  if bool_decide (r_Method r = "GET"%string) then asAdmin r ck (fun a => (a, Users (GatewayAuth.ListUsers a))) a
  else if bool_decide (r_Method r = "POST"%string) then asAdmin r ck (createUser body mc) a
  else (a, Text 405 "Method not allowed").

Definition showUser (name : string) (a : AuthHandler) : AuthHandler * answer :=
  (a, match GatewayAuth.GetUser name a with
      | Ok u => OneUser 200 (Some u) | Err e => Text 404 e | Panic w => Faulted w end).
Definition updateUser (name : string) (body : AdminBody) (mc : AdminCalls) (a : AuthHandler) : AuthHandler * answer :=
  match ab_Update body with
  | None => (a, Text 400 "Invalid request body")
  | Some req =>
    match UpdateUser name (up_Role req) (up_Permissions req) (up_BucketPermissions req) (mc_saved mc) a with
    | (a, Ok _) => (a, OneUser 200 (userOf (GatewayAuth.GetUser name a)))
    | (a, Err e) => (a, Text 404 e)
    | (a, Panic w) => (a, Faulted w)
    end
  end.
Definition deleteUser (name : string) (mc : AdminCalls) (a : AuthHandler) : AuthHandler * answer :=
  match RemoveUser name (mc_saved mc) a with
  | (a, Ok _) => (a, Empty 204)
  | (a, Err e) => (a, Text 400 e)
  | (a, Panic w) => (a, Faulted w)
  end.
Definition patchUser (r : Request) (name : string) (body : AdminBody) (mc : AdminCalls) (a : AuthHandler)
  : AuthHandler * answer :=
  if bool_decide (QueryGet "action" r = "change-password"%string) then
    match ab_Password body with
    | None => (a, Text 400 "Invalid request body")
    | Some password =>
      if bool_decide (password = ""%string) then (a, Text 400 "password is required")
      else
        match ChangePassword name (mc_hash mc password) (mc_saved mc) a with
        | (a, Ok _) => (a, Empty 204)
        | (a, Err e) => (a, Text 404 e)
        | (a, Panic w) => (a, Faulted w)
        end
    end
  else (a, Text 400 "Unknown action").

Definition handleUserByName (r : Request) (ck : Clock) (body : AdminBody) (mc : AdminCalls) (a : AuthHandler)
  : AuthHandler * answer :=
  let name := TrimPrefix (r_Path r) "/admin/users/" in
  if bool_decide (name = ""%string) then (a, Text 400 "User name is required")
  else if bool_decide (r_Method r = "GET"%string) then asAdmin r ck (showUser name) a
  else if bool_decide (r_Method r = "PUT"%string) then asAdmin r ck (updateUser name body mc) a
  else if bool_decide (r_Method r = "DELETE"%string) then asAdmin r ck (deleteUser name mc) a
  else if bool_decide (r_Method r = "PATCH"%string) then asAdmin r ck (patchUser r name body mc) a
  else (a, Text 405 "Method not allowed").
End Provider.
