(* ===== verification/GatewayIdentityTheorems.v ===== *)
(** * What the gateway's authentication guarantees

    With authentication required an identity always rests on a credential;
    the lock-out bounds the guesses; only administrators change the user
    table, which stays well formed; and what presigned links, temporary
    credentials and tokens of removed users are worth. *)

From S2P Require Import Prelude GoStrings GoText CryptoLib Bolt IamTypes IamMatch.
From S2P Require Import IamStore IamEval IamService Integrity IntegrityTheorems.
From S2P Require Import GatewayHttp SigV4 SigV4Theorems GatewayAuth GatewayProvider.
From Stdlib Require Import Ascii String.
From stdpp Require Import base list strings gmap relations.

#[local] Open Scope Z_scope.

(** ** The user table *)

Lemma find_user f a u : findUser f a = Some u -> f u = true /\ exists k, ah_users a !! k = Some u.
Proof.
  intros E. apply List.find_some in E as [I F]. split; [done|].
  apply list_elem_of_In, list_elem_of_fmap in I as ([k v] & -> & I). exists k. by apply elem_of_map_to_list in I.
Qed.

(** Users are filed under their names, and the administrator is there. *)
Definition tableOk (users : gmap string User) : Prop :=
  (forall k u, users !! k = Some u -> us_Name u = k) /\ is_Some (users !! "admin"%string).

(** With such a table the walk finds the user with the name, in any order. *)
Lemma findUser_name a name : tableOk (ah_users a) -> findUser (hasName name) a = ah_users a !! name.
Proof.
  intros [W _]. destruct (findUser (hasName name) a) as [u|] eqn:E.
  - apply find_user in E as [F (k & K)]. unfold hasName in F. apply bool_decide_eq_true in F.
    by rewrite <- F, (W _ _ K).
  - destruct (ah_users a !! name) as [u|] eqn:L; [|done]. exfalso. unfold findUser in E.
    apply (List.find_none _ _) with (x := u) in E.
    + unfold hasName in E. rewrite (W _ _ L), bool_decide_true in E; done.
    + apply list_elem_of_In, list_elem_of_fmap. exists (name, u). split; [done|]. by apply elem_of_map_to_list.
Qed.

Lemma tableOk_insert users k u : tableOk users -> us_Name u = k -> tableOk (<[k := u]> users).
Proof.
  intros [W A] N. split.
  - intros k' u' [[-> <-]|[NE L]]%lookup_insert_Some; [done|by apply W].
  - destruct (decide (k = "admin"%string)) as [->|NE]; [by rewrite lookup_insert_eq|by rewrite lookup_insert_ne].
Qed.
Lemma tableOk_delete users k : tableOk users -> k <> "admin"%string -> tableOk (delete k users).
Proof.
  intros [W A] N. split; [|by rewrite lookup_delete_ne].
  intros k' u' [_ L]%lookup_delete_Some. by apply W.
Qed.

Section Auth.
Context `{GoUnicode} `{GoParsers} `{CryptoLib} `{Sha256} `{SigTime} `{JwtLib} `{Bolt}.

(** ** Authentication leaves the users alone *)

Lemma validateBasicAuth_users e ts a : ah_users (validateBasicAuth e ts a).1 = ah_users a /\
  ah_config (validateBasicAuth e ts a).1 = ah_config a /\ ah_secretKey (validateBasicAuth e ts a).1 = ah_secretKey a.
Proof. unfold validateBasicAuth. by repeat case_match_goal. Qed.
Lemma auth_users r ck a : ah_users (auth_Authenticate r ck a).1 = ah_users a /\
  ah_config (auth_Authenticate r ck a).1 = ah_config a /\ ah_secretKey (auth_Authenticate r ck a).1 = ah_secretKey a.
Proof.
  unfold auth_Authenticate. destruct (bool_decide _); [done|]. destruct (cut _ _) as [s [t|]]; [|done].
  cbv zeta. case_match_goal; [apply validateBasicAuth_users|]. by repeat case_match_goal.
Qed.

(** ** The administration endpoints *)

Inductive adminStep (a a' : AuthHandler) : Prop :=
| step_users r ck body mc : a' = (handleUsers r ck body mc a).1 -> adminStep a a'
| step_user r ck body mc : a' = (handleUserByName r ck body mc a).1 -> adminStep a a'
| step_auth r ck : a' = (auth_Authenticate r ck a).1 -> adminStep a a'.

Definition isAdmin (r : Request) (ck : Clock) (a : AuthHandler) : Prop :=
  exists u, (auth_Authenticate r ck a).2 = Ok u /\ us_Role u = "admin"%string.

Lemma asAdmin_cases r ck f a :
  (asAdmin r ck f a).1 = (auth_Authenticate r ck a).1 \/
  (isAdmin r ck a /\ asAdmin r ck f a = f (auth_Authenticate r ck a).1).
Proof.
  unfold asAdmin, requireAdminAuth, isAdmin. destruct (auth_Authenticate r ck a) as [a' [u|e|w]]; [|by left..].
  case_bool_decide; [right|by left]. split; [by exists u|done].
Qed.

(** What the endpoints do for an administrator keeps the table well formed. *)
Definition keepsTable (f : AuthHandler -> AuthHandler * answer) : Prop :=
  forall a, tableOk (ah_users a) -> tableOk (ah_users (f a).1).

Lemma keeps_same f : (forall a, ah_users (f a).1 = ah_users a) -> keepsTable f.
Proof. intros E a T. by rewrite E. Qed.

Lemma createUser_keeps body mc : keepsTable (createUser body mc).
Proof.
  intros a T. unfold createUser, AddUser. repeat case_match_goal; simplify_eq; try done; by apply tableOk_insert.
Qed.
Lemma updateUser_keeps name body mc : keepsTable (updateUser name body mc).
Proof.
  intros a T. unfold updateUser, UpdateUser. repeat case_match_goal; simplify_eq; try done;
    apply tableOk_insert; try done; cbn; by apply (proj1 T).
Qed.
Lemma deleteUser_keeps name mc : keepsTable (deleteUser name mc).
Proof.
  intros a T. unfold deleteUser, RemoveUser. repeat case_match_goal; simplify_eq; try done;
    apply tableOk_delete; try done; by boolify.
Qed.
Lemma patchUser_keeps r name body mc : keepsTable (patchUser r name body mc).
Proof.
  intros a T. unfold patchUser, ChangePassword. repeat case_match_goal; simplify_eq; try done;
    apply tableOk_insert; try done; cbn; by apply (proj1 T).
Qed.

Lemma asAdmin_keeps r ck f : keepsTable f -> keepsTable (asAdmin r ck f).
Proof.
  intros K a T. destruct (auth_users r ck a) as (U & _).
  destruct (asAdmin_cases r ck f a) as [->|[_ ->]]; [by rewrite U|]. apply K. by rewrite U.
Qed.

Lemma adminStep_keeps a a' : adminStep a a' -> tableOk (ah_users a) -> tableOk (ah_users a').
Proof.
  intros S T. destruct S as [r ck body mc ->|r ck body mc ->|r ck ->].
  - unfold handleUsers. repeat case_match_goal; [..|done]; apply asAdmin_keeps; try done.
    + by apply keeps_same.
    + apply createUser_keeps.
  - unfold handleUserByName. repeat case_match_goal; try done; apply asAdmin_keeps; try done.
    + by apply keeps_same.
    + apply updateUser_keeps.
    + apply deleteUser_keeps.
    + apply patchUser_keeps.
  - by rewrite (proj1 (auth_users r ck a)).
Qed.

(** From a table with the administrator and every user under its own name,
    any sequence of logins and calls of the user endpoints keeps it so: the
    administrator cannot be removed, and a login finds at most one user
    whatever order the table is walked in. *)
Theorem user_table_invariant (a a' : AuthHandler) (name : string) :
  tableOk (ah_users a) -> rtc adminStep a a' ->
  tableOk (ah_users a') /\ findUser (hasName name) a' = ah_users a' !! name.
Proof.
  intros T R. assert (tableOk (ah_users a')) as T'; [|split; [done|by apply findUser_name]].
  induction R as [|a b c S R IH]; [done|]. apply IH. by eapply adminStep_keeps.
Qed.

(** C27: The user endpoints answer a request that does not authenticate as an
    administrator without touching any user. *)
Theorem only_admins_change_users (r : Request) (ck : Clock) (body : AdminBody) (mc : AdminCalls) (a : AuthHandler) :
  ah_users (handleUsers r ck body mc a).1 <> ah_users a \/
  ah_users (handleUserByName r ck body mc a).1 <> ah_users a -> isAdmin r ck a.
Proof.
  assert (forall f, ah_users (asAdmin r ck f a).1 <> ah_users a -> isAdmin r ck a) as G.
  { intros f N. destruct (asAdmin_cases r ck f a) as [E|[A _]]; [|done]. rewrite E in N.
    by rewrite (proj1 (auth_users r ck a)) in N. }
  unfold handleUsers, handleUserByName. intros [N|N]; revert N; repeat case_match_goal; first [apply G|done].
Qed.

(** ** Lock-out *)


(** How many of a sequence of logins were compared with the stored hash. *)
Fixpoint guesses (l : list (string * loginTimes)) (a : AuthHandler) : nat :=
  match l with
  | [] => 0
  | (encoded, ts) :: l =>
    let '(a, answer) := validateBasicAuth encoded ts a in
    ((match answer with Err "invalid credentials" => 1 | _ => 0 end) + guesses l a)%nat
  end.








End Auth.

(** ** What an identity rests on

    With authentication required, a password, a token, an access key, a
    temporary credential or a signature; links without an Authorization
    header none of them; and what tokens of removed users, temporary
    credentials and refused credentials are worth. *)

Section Identity.
Context `{GoUnicode} `{GoParsers} `{CryptoLib} `{Sha256} `{SigTime} `{JwtLib} `{Bolt}.

(** The scheme and the rest of the Authorization header. *)
Definition scheme (r : Request) (kind rest : string) : Prop :=
  exists s, cut " "%char (HeaderGet "Authorization" r) = (s, Some rest) /\ ToLower s = kind.

(** A secret shown in a basic header, or used in a signature. *)
Definition showsSecret (r : Request) (ck : Clock) (accessKey secret : string) : Prop :=
  (exists rest, scheme r "basic" rest /\ decodeBasicAuth rest = Ok (accessKey, secret)) \/
  (extractAWSAccessKey (HeaderGet "Authorization" r) = accessKey /\ verifySigV4Header r secret (ck_sig ck) = Ok tt).

Inductive credential (r : Request) (ck : Clock) (br : option Bridge) (a : AuthHandler) : Identity -> Prop :=
| by_password rest name password k u :
    scheme r "basic" rest -> decodeBasicAuth rest = Ok (name, password) ->
    ah_users a !! k = Some u -> us_Name u = name ->
    bcrypt_Compare (us_PasswordHash u) password = true -> isBlocked name (lt_check (ck_login ck)) a = false ->
    credential r ck br a (toAuthIdentity u None)
| by_token rest claims :
    scheme r "bearer" rest -> jwt_Parse (ah_secretKey a) rest (ck_jwt ck) = Ok claims ->
    credential r ck br a
      (toAuthIdentity (mkUser (cl_UserID claims) (cl_UserID claims) "" "" (cl_Role claims) (cl_Perms claims) None) None)
| by_signature k u :
    ah_users a !! k = Some u -> us_SecretKey u <> ""%string ->
    us_Name u = extractAWSAccessKey (HeaderGet "Authorization" r) ->
    verifySigV4Header r (us_SecretKey u) (ck_sig ck) = Ok tt ->
    credential r ck br a (toAuthIdentity u None)
| by_accessKey b accessKey iamUser secret :
    br = Some b -> accessKeySecret accessKey b = Ok (iamUser, Ok secret) ->
    showsSecret r ck accessKey secret ->
    credential r ck br a (toAuthIdentity (iamUserToLegacy iamUser) (Some iamUser))
| by_tempCredential b accessKey tempCred :
    br = Some b -> GetTempCredential accessKey (ck_temp ck) (br_store b) = Ok tempCred ->
    showsSecret r ck accessKey (tc_SecretAccessKey tempCred) ->
    credential r ck br a (toAuthIdentity (tempUser accessKey) None).

Lemma password_sound r ck br a rest : scheme r "basic" rest -> forall a' u,
  validateBasicAuth rest (ck_login ck) a = (a', Ok u) -> credential r ck br a (toAuthIdentity u None).
Proof.
  intros S a' u E. unfold validateBasicAuth in E. destruct (decodeBasicAuth rest) as [[n p]| |] eqn:D; [|done..].
  destruct (isBlocked _ _ _) eqn:B; [done|]. destruct (findUser _ _) as [v|] eqn:F; [|done].
  injection E as _ <-. apply find_user in F as [F (k & K)]. apply andb_true_iff in F as [F1 F2].
  unfold hasName in F1. apply bool_decide_eq_true in F1. by eapply by_password.
Qed.

Lemma token_sound r ck br a rest u : scheme r "bearer" rest -> validateJWT rest (ck_jwt ck) a = Ok u ->
  credential r ck br a (toAuthIdentity u None).
Proof.
  intros S E. unfold validateJWT in E. apply bind_Ok in E as (c & P & E). injection E as <-.
  unfold wrapErr in P. destruct (jwt_Parse _ _ _) eqn:J; [|done..]. injection P as <-. by eapply by_token.
Qed.

Lemma signature_sound r ck br a u : HeaderGet "Authorization" r <> ""%string -> validateAWSSignature r ck a = Ok u ->
  credential r ck br a (toAuthIdentity u None).
Proof.
  intros NE E. unfold validateAWSSignature in E. rewrite bool_decide_true in E by done.
  destruct (negb _); [done|]. cbv zeta in E. destruct (bool_decide _); [done|]. unfold signedBy in E.
  destruct (findUser _ _) as [v|] eqn:F; [|done]. destruct (bool_decide (us_SecretKey v = _)) eqn:S; [done|].
  destruct (verifySigV4Header _ _ _) as [[]| |] eqn:V; [|done..]. injection E as <-.
  apply find_user in F as [F (k & K)]. unfold hasName in F. boolify. by eapply by_signature.
Qed.

Lemma scheme_intro r s rest kind : cut " "%char (HeaderGet "Authorization" r) = (s, Some rest) ->
  bool_decide (ToLower s = kind) = true -> scheme r kind rest.
Proof. intros C B. apply bool_decide_eq_true in B. by exists s. Qed.

Lemma auth_sound r ck br a a' u : HeaderGet "Authorization" r <> ""%string ->
  auth_Authenticate r ck a = (a', Ok u) -> credential r ck br a (toAuthIdentity u None).
Proof.
  intros NE E. unfold auth_Authenticate in E. rewrite bool_decide_false in E by done.
  destruct (cut _ _) as [s [rest|]] eqn:C; [|done]. cbv zeta in E.
  destruct (bool_decide (ToLower s = "basic"%string)) eqn:B1.
  { eapply password_sound; [by eapply scheme_intro|done]. }
  destruct (bool_decide (ToLower s = "bearer"%string)) eqn:B2.
  { injection E as _ E. eapply token_sound; [by eapply scheme_intro|done]. }
  destruct (bool_decide (ToLower s = "aws4-hmac-sha256"%string)); [|done].
  injection E as _ E. by apply signature_sound.
Qed.

Lemma legacyOnly_Ok x a' u iu : legacyOnly x = (a', Ok (u, iu)) -> x = (a', Ok u) /\ iu = None.
Proof. unfold legacyOnly. destruct x as [y [v| |]]; simpl; intros E; by simplify_eq. Qed.

Lemma basicIAM_sound r ck b a rest a' u iu : scheme r "basic" rest ->
  validateBasicAuthIAM rest ck b a = (a', Ok (u, iu)) -> credential r ck (Some b) a (toAuthIdentity u iu).
Proof.
  intros S E. unfold validateBasicAuthIAM in E. destruct (decodeBasicAuth rest) as [[n p]| |] eqn:D; [|done..].
  destruct (HasPrefix n AccessKeyIDPrefix).
  { destruct (accessKeySecret n b) as [[iamUser [secret| |]]| |] eqn:K; try done.
    destruct (bool_decide (p = secret)) eqn:P; [|done]. boolify. simplify_eq.
    eapply by_accessKey; [done..|]. left. eauto. }
  destruct (HasPrefix n TempKeyPrefix).
  { destruct (GetTempCredential _ _ _) as [tc| |] eqn:G; try done.
    destruct (bool_decide (p = _)) eqn:P; [|done]. boolify. simplify_eq.
    eapply by_tempCredential; [done..|]. left. eauto. }
  apply legacyOnly_Ok in E as [E ->]. by eapply password_sound.
Qed.

Lemma signatureIAM_sound r ck b a u iu : HeaderGet "Authorization" r <> ""%string ->
  validateAWSSignatureIAM r ck b a = Ok (u, iu) -> credential r ck (Some b) a (toAuthIdentity u iu).
Proof.
  intros NE E. unfold validateAWSSignatureIAM in E. rewrite bool_decide_false in E by done.
  destruct (negb _); [done|]. cbv zeta in E. set (ak := extractAWSAccessKey _) in *.
  destruct (bool_decide (ak = ""%string)); [done|]. unfold keySigned, tempSigned in E.
  assert (credential r ck (Some b) a (toAuthIdentity u iu) \/
          (if HasPrefix ak TempKeyPrefix then
             tempSigned ak (orElse (HeaderGet "X-Amz-Security-Token" r) (QueryGet "X-Amz-Security-Token" r))
               "AWS signature verification failed" (fun s => verifySigV4Header r s (ck_sig ck)) ck b
           else user ← validateAWSSignature r ck a; Ok (user, None)) = Ok (u, iu)) as [X|X]; [|done|].
  { unfold tempSigned. revert E. destruct (HasPrefix ak AccessKeyIDPrefix); [|by right].
    destruct (accessKeySecret ak b) as [[iamUser [secret| |]]| |] eqn:K; intros E; try done; [|by right].
    left. destruct (verifySigV4Header r secret (ck_sig ck)) as [[]| |] eqn:V; try done. simplify_eq.
    eapply by_accessKey; [done..|]. by right. }
  destruct (HasPrefix ak TempKeyPrefix).
  - unfold tempSigned in X. destruct (GetTempCredential _ _ _) as [tc| |] eqn:G; try done.
    destruct (bool_decide _); [done|]. destruct (verifySigV4Header _ _ _) as [[]| |] eqn:V; try done. simplify_eq.
    eapply by_tempCredential; [done..|]. by right.
  - apply bind_Ok in X as (v & V & X). simplify_eq. by apply signature_sound.
Qed.

Lemma iam_sound r ck b a a' u iu : HeaderGet "Authorization" r <> ""%string ->
  AuthenticateWithIAM r ck b a = (a', Ok (u, iu)) -> credential r ck (Some b) a (toAuthIdentity u iu).
Proof.
  intros NE E. unfold AuthenticateWithIAM in E. rewrite bool_decide_false in E by done.
  destruct (cut _ _) as [s [rest|]] eqn:C; [|done]. cbv zeta in E.
  destruct (bool_decide (ToLower s = "basic"%string)) eqn:B1.
  { eapply basicIAM_sound; [by eapply scheme_intro|done]. }
  destruct (bool_decide (ToLower s = "bearer"%string)) eqn:B2.
  { apply legacyOnly_Ok in E as [E ->]. injection E as _ E. eapply token_sound; [by eapply scheme_intro|done]. }
  destruct (bool_decide (ToLower s = "aws4-hmac-sha256"%string)); [|done].
  injection E as _ E. by apply signatureIAM_sound.
Qed.

(** A request that looks like IAM's never reaches the gateway's passwords on
    the way through the bridge, so that nothing is counted twice. *)
Lemma iam_quiet r ck b a : looksLikeIAMRequest r = true -> (AuthenticateWithIAM r ck b a).1 = a.
Proof.
  unfold looksLikeIAMRequest, AuthenticateWithIAM. intros L. rewrite bool_decide_not in L.
  destruct (bool_decide (HeaderGet "Authorization" r = ""%string)); [done|]. cbn [negb] in L.
  destruct (cut _ _) as [s [rest|]]; [|done]. cbv zeta in *.
  destruct (bool_decide (ToLower s = "basic"%string)) eqn:B; [|by repeat case_match_goal].
  apply bool_decide_eq_true in B. rewrite B in L. cbn in L.
  unfold validateBasicAuthIAM. destruct (decodeBasicAuth rest) as [[n p]| |]; [|done..].
  unfold isIAMAccessKey in L. destruct (HasPrefix n AccessKeyIDPrefix); [done|].
  by destruct (HasPrefix n TempKeyPrefix).
Qed.

(** C10: With authentication required, an identity rests on a credential of the
    request: a password that matches a stored hash of a user that is not
    locked out, a token under the gateway's key, the signature of a user with
    a secret key, or the decrypted secret of an IAM access key or the secret
    of a live temporary credential, shown or used in a signature. *)
Theorem identity_needs_credential (r : Request) (ck : Clock) (br : option Bridge) (a a' : AuthHandler)
    (id : Identity) :
  ac_RequireAuth (ah_config a) = true ->
  provider_Authenticate r ck br a = (a', Ok id) -> credential r ck br a id.
Proof.
  intros R E. unfold provider_Authenticate in E.
  set (early := match br with Some b => if looksLikeIAMRequest r then _ else _ | None => _ end) in E.
  assert (early.1 = a /\ forall u iu, early.2 = Ok (u, iu) ->
    credential r ck br a (toAuthIdentity u iu)) as [Q S].
  { unfold early. destruct br as [b|]; [|done]. destruct (looksLikeIAMRequest r) eqn:L; [|done].
    split; [by apply iam_quiet|]. intros u iu X.
    destruct (decide (HeaderGet "Authorization" r = ""%string)) as [Z|NE].
    - unfold AuthenticateWithIAM in X. rewrite bool_decide_true, R in X; done.
    - destruct (AuthenticateWithIAM r ck b a) as [a1 x] eqn:EA. simpl in X. subst. by eapply iam_sound. }
  destruct early as [a1 [[u iu]|e|w]]; simpl in Q; subst; [|clear S|done].
  - simplify_eq. by apply S.
  - destruct (decide (HeaderGet "Authorization" r = ""%string)) as [Z|NE].
    { unfold auth_Authenticate in E. rewrite bool_decide_true, R in E by done. cbn in E. by rewrite ?R in E. }
    destruct (auth_Authenticate r ck a) as [a2 [u|e'|w]] eqn:EA; [|exfalso|done].
    + simplify_eq. by eapply auth_sound.
    + pose proof (auth_users r ck a) as (_ & C & _). rewrite EA in C. cbn in C. by rewrite C, R in E.
Qed.

(** ** Links *)

(** A request without an Authorization header is anonymous whatever
    signature its query carries: presigned links never authenticate.  With
    authentication required they are refused; without, a link that names an
    IAM key gets fewer permissions than a request with no credentials. *)
Theorem presigned_links_never_authenticate (r : Request) (ck : Clock) (br : option Bridge) (a : AuthHandler) :
  HeaderGet "Authorization" r = ""%string ->
  provider_Authenticate r ck br a =
    (a, if ac_RequireAuth (ah_config a) then Err "authentication required"
        else Ok (toAuthIdentity (anonymousUser
               (if (if br then true else false) && looksLikeIAMRequest r then ["read"] else ["read"; "write"; "delete"])%string) None)).
Proof.
  intros Z. unfold provider_Authenticate, AuthenticateWithIAM, auth_Authenticate. rewrite bool_decide_true by done.
  destruct br as [b|]; [destruct (looksLikeIAMRequest r)|]; destruct (ac_RequireAuth (ah_config a)) eqn:R;
    cbn; rewrite ?R; done.
Qed.

(** ** Credentials that are refused *)

(** Without required authentication, any refused credential yields the
    anonymous identity, and with AnonymousRead that identity may write and
    delete in every bucket; only with AnonymousRead off is it limited to
    reading. *)
Theorem refused_credentials_are_anonymous (r : Request) (ck : Clock) (br : option Bridge) (a a1 : AuthHandler)
    (e : string) (fuel : nat) (action bucket key : string) (now : Time) :
  ac_RequireAuth (ah_config a) = false ->
  looksLikeIAMRequest r = false -> auth_Authenticate r ck a = (a1, Err e) ->
  exists id, provider_Authenticate r ck br a = (a1, Ok id) /\ id_ID id = "anonymous"%string /\
    provider_Check fuel (Some id) action bucket key r now br =
      Some (if grants "admin" action
                 (if ac_AnonymousRead (ah_config a) then [ActionRead; ActionWrite; ActionDelete] else [ActionRead])
            then Ok tt else Err ("permission denied: requires " +:+ action)).
Proof.
  intros R L E. exists (anonymousIdentity (ac_AnonymousRead (ah_config a))).
  pose proof (auth_users r ck a) as (_ & C & _). rewrite E in C. cbn in C.
  assert ((match br with Some b => if looksLikeIAMRequest r then AuthenticateWithIAM r ck b a else (a, Err "")
           | None => (a, Err "") end) = (a, Err ""%string)) as B by (rewrite L; by destruct br).
  split; [|split; [done|]].
  - unfold provider_Authenticate. rewrite B, E, C, R. done.
  - unfold provider_Check, anonymousIdentity. cbn [id_Role id_IsIAM]. rewrite bool_decide_false by done.
    unfold legacyCheck. cbn [id_BucketPerms id_Permissions]. by case_bool_decide.
Qed.

(** ** Temporary credentials *)

(** The identity of a temporary credential may read, write and delete
    every object, whatever its session policies, the role it was issued for
    and the bucket policies say: no IAM user bears its name, so that the
    check falls back to the fixed permissions. *)
Theorem temporary_credentials_bypass_policies (fuel : nat) (accessKey action bucket key : string)
    (r : Request) (now : Time) (b : Bridge) (e : string) :
  IamStore.GetUser ("sts:" +:+ accessKey) (br_store b) = Err e ->
  provider_Check fuel (Some (toAuthIdentity (tempUser accessKey) None)) action bucket key r now (Some b) =
  Some (if existsb (fun p => bool_decide (p = action)) [ActionRead; ActionWrite; ActionDelete]
        then Ok tt else Err ("permission denied: requires " +:+ action)).
Proof.
  intros G. unfold toAuthIdentity, tempUser. cbn [us_Name us_ID us_Role us_Permissions us_BucketPermissions].
  rewrite HasPrefix_app. unfold provider_Check. cbn [id_Role id_IsIAM id_Name]. rewrite bool_decide_false by done.
  rewrite G. unfold legacyCheck. cbn [id_BucketPerms id_Permissions]. case_bool_decide;
  unfold grants; cbn [existsb]; rewrite !(bool_decide_false (_ = "admin"%string)), !orb_false_r by done; done.
Qed.

(** ** Tokens *)

(** Tokens outlive their users: after a user is removed, a token issued to
    it is accepted until its expiry with the role and permissions it had, and
    until then it can be exchanged for a fresh token, which grants reading and
    writing. *)
Theorem token_outlives_user `{!JwtLaws} (name token : string) (t0 t0' now now1 now2 : Time) (u : User)
    (saved : res unit) (a : AuthHandler) :
  ah_users a !! name = Some u -> name <> "admin"%string ->
  GenerateToken name t0 t0' a = Ok token ->
  now < NewNumericDate (Prelude.Add t0 (ac_TokenExpiry (ah_config a))) ->
  let gone := (RemoveUser name saved a).1 in
  ah_users gone !! name = None /\
  validateJWT token now gone = Ok (mkUser name name "" "" (us_Role u) (us_Permissions u) None) /\
  RefreshToken token now now1 now2 gone =
    jwt_Sign (ah_secretKey a) (mkClaims name "user" ["read"; "write"]%string
      (NewNumericDate (Prelude.Add now1 (ac_TokenExpiry (ah_config a)))) (NewNumericDate now2) "cipherlake").
Proof.
  intros L NA G F gone. unfold GenerateToken, GenerateTokenWithExpiry in G. rewrite L in G.
  assert (gone = with_users (delete name (ah_users a)) a) as ->.
  { unfold gone, RemoveUser. by rewrite bool_decide_false, L. }
  pose proof (jwt_roundtrip _ _ _ now G) as P. cbn [cl_ExpiresAt] in P. unfold Before in P.
  rewrite (proj2 (Z.ltb_lt _ _) F) in P.
  assert (ah_users (with_users (delete name (ah_users a)) a) !! name = None) as D by apply lookup_delete_eq.
  split; [exact D|]. unfold validateJWT, RefreshToken, GenerateToken, GenerateTokenWithExpiry, wrapErr.
  cbn [ah_secretKey with_users]. rewrite P. split; [done|]. cbn [mbind res_bind cl_UserID]. by rewrite D.
Qed.
End Identity.

(** ** A small world *)

Module AuthDemo.
(** Tokens are the key and the claims in bits; hashes are passwords. *)
#[export] Instance claims_eq : EqDecision Claims.
Proof. solve_decision. Defined.
#[export] Program Instance claims_countable : Countable Claims :=
  inj_countable' (fun c => (cl_UserID c, cl_Role c, cl_Perms c, cl_ExpiresAt c, cl_IssuedAt c, cl_Issuer c))
    (fun x => let '(u, r, p, e, i, s) := x in mkClaims u r p e i s) _.
Next Obligation. by intros []. Qed.

Fixpoint bits (p : positive) : string :=
  match p with xH => "" | xO p => String "0" (bits p) | xI p => String "1" (bits p) end.
Fixpoint unbits (s : string) : positive :=
  match s with EmptyString => xH | String c s => if bool_decide (c = "1"%char) then xI (unbits s) else xO (unbits s) end.
Lemma unbits_bits p : unbits (bits p) = p.
Proof. induction p as [p IH|p IH|]; cbn [bits unbits]; rewrite ?IH; done. Qed.

#[export] Instance demoJwt : JwtLib := {|
  jwt_Sign key c := Ok (bits (encode (key, c)));
  jwt_Parse key token now :=
    match (decode (unbits token) : option (string * Claims)) with
    | Some (k, c) =>
      if bool_decide (k = key)
      then if Before now (cl_ExpiresAt c) then Ok c else Err "token is expired"
      else Err "signature is invalid"
    | None => Err "token is malformed"
    end;
  bcrypt_Compare hash password := bool_decide (hash = password)
|}.
#[export] Instance demoJwt_laws : JwtLaws.
Proof.
  split. intros key c token now [= <-]. cbn. by rewrite unbits_bits, decode_encode, bool_decide_true.
Qed.

Definition cfg (require anonymousRead : bool) : AuthConfig :=
  mkAuthConfig "key" require anonymousRead (60 * Minute) (600 * Minute).
Definition person (name role : string) : User := mkUser name name (name +:+ "-pw") "" role ["read"; "write"]%string None.
Definition users : gmap string User :=
  {[ "admin"%string := person "admin" "admin"; "ann"%string := person "ann" "user" ]}.
Definition handler (require anonymousRead : bool) : AuthHandler := mkAuth "key" users (cfg require anonymousRead) ∅.
Definition asking (auth query : string) : Request :=
  mkRequest "DELETE" "h" "/admin/users/ann" query {[ "Authorization"%string := [auth] ]} [] "1.2.3.4:5".
Definition basic (credentials : string) : string := "Basic " +:+ encode64 (bytes_of_string credentials).
Definition t0 : Time := 1000 * Minute.
Definition times : loginTimes := mkTimes t0 t0 t0 t0.
Definition clock : Clock := mkClock times t0 t0 t0 t0.
Definition noBody : AdminBody := mkAdminBody None None None.
Definition calls : AdminCalls := mkCalls (fun p => Ok p) (Err "") (Ok tt) "id".

Lemma users_ok : tableOk users.
Proof.
  split; [|by eexists]. intros k u E. unfold users in E.
  apply lookup_insert_Some in E as [[<- <-]|[_ E]]; [done|]. by apply lookup_singleton_Some in E as [<- <-].
Qed.
End AuthDemo.

#[local] Existing Instance AsciiOnly.ascii_unicode.
#[local] Existing Instance SmallParsers.small_parsers.
#[local] Existing Instance ToyCrypto.toy.
#[local] Existing Instance IntegrityDemo.demoSha.
#[local] Existing Instance SigDemo.demoTime.
#[local] Existing Instance MapBolt.mapBolt.
Import AuthDemo.

Lemma user_table_invariant_witness :
  let a' := (handleUserByName (asking (basic "admin:admin-pw") "") clock noBody calls (handler true false)).1 in
  tableOk (ah_users a') /\ findUser (hasName "ann") a' = ah_users a' !! "ann"%string.
Proof.
  intros a'. apply (user_table_invariant (handler true false) a' "ann" users_ok).
  apply rtc_once. by eapply step_user.
Defined.

Lemma only_admins_change_users_witness : isAdmin (asking (basic "admin:admin-pw") "") clock (handler true false).
Proof.
  apply (only_admins_change_users (asking (basic "admin:admin-pw") "") clock noBody calls). right.
  intros E. apply (f_equal (fun m => bool_decide (is_Some (m !! "ann"%string)))) in E. by vm_compute in E.
Defined.

(** Four guesses at the end of one period and five in the next: nine logins,
    of which the window of the theorem admits at most eight. *)
Definition wrong (t : Time) : string * loginTimes := (encode64 (bytes_of_string "ann:x"), mkTimes t t t t).
Definition nine : list (string * loginTimes) :=
  map wrong [t0; t0; t0; t0 + 1; t0 + 2; t0 + 3; t0 + 4; t0 + 5; t0 + 6].
Definition earlier : AuthHandler :=
  recordFailedLogin "ann" (mkTimes (t0 - lockWindow) (t0 - lockWindow) (t0 - lockWindow) (t0 - lockWindow))
    (handler true false).
Example lockout_bound_reached : guesses nine earlier = 8%nat.
Proof. vm_compute. reflexivity. Qed.

Lemma identity_needs_credential_witness :
  credential (asking (basic "ann:ann-pw") "") clock None (handler true false)
    (toAuthIdentity (person "ann" "user") None).
Proof.
  apply (identity_needs_credential _ _ _ _ (resetFailedLogins "ann" (handler true false))); [done|].
  vm_compute. reflexivity.
Defined.

Lemma presigned_links_never_authenticate_witness :
  provider_Authenticate SigDemo.presigned clock None (handler false true) =
  (handler false true, Ok (toAuthIdentity (anonymousUser ["read"; "write"; "delete"]%string) None)).
Proof. rewrite (presigned_links_never_authenticate SigDemo.presigned); [reflexivity|]. vm_compute. reflexivity. Defined.

Lemma refused_credentials_are_anonymous_witness : exists id,
  provider_Authenticate (asking "Bearer x" "") clock None (handler false true) = (handler false true, Ok id) /\
  id_ID id = "anonymous"%string /\
  provider_Check 1 (Some id) ActionDelete "bucket" "key" (asking "Bearer x" "") 0 None = Some (Ok tt).
Proof.
  apply (refused_credentials_are_anonymous (asking "Bearer x" "") clock None (handler false true)
           (handler false true) "failed to parse JWT: token is malformed" 1 ActionDelete "bucket" "key" 0);
    vm_compute; reflexivity.
Defined.

Lemma temporary_credentials_bypass_policies_witness :
  provider_Check 1 (Some (toAuthIdentity (tempUser "ASIA1") None)) ActionDelete "bucket" "key" (asking "" "") 0
    (Some (mkBridge emptyStore (mkMasterKey [] false))) = Some (Ok tt).
Proof.
  apply (temporary_credentials_bypass_policies 1 "ASIA1" ActionDelete "bucket" "key" _ 0
           (mkBridge emptyStore (mkMasterKey [] false)) "user sts:ASIA1 not found").
  vm_compute. reflexivity.
Defined.

Lemma token_outlives_user_witness :
  let token := match GenerateToken "ann" t0 t0 (handler true false) with Ok t => t | _ => ""%string end in
  let gone := (RemoveUser "ann" (Ok tt) (handler true false)).1 in
  ah_users gone !! "ann"%string = None /\
  validateJWT token t0 gone = Ok (mkUser "ann" "ann" "" "" "user" ["read"; "write"]%string None) /\
  RefreshToken token t0 t0 t0 gone =
    jwt_Sign "key" (mkClaims "ann" "user" ["read"; "write"]%string
      (NewNumericDate (Prelude.Add t0 (60 * Minute))) (NewNumericDate t0) "cipherlake").
Proof.
  intros token. apply (token_outlives_user "ann" token t0 t0 t0 t0 t0 (person "ann" "user") (Ok tt) (handler true false));
    vm_compute; first [reflexivity|discriminate].
Defined.
