(* ===== verification/IamAdmin.v ===== *)
(** * The IAM administration API (internal/iam/admin_api.go)

    The router and the handlers over the IAM service.  encoding/json into the
    request types is a parameter; draws and clock readings are arguments.
    cmd/cipherlake/main.go mounts the API under "/iam/", strips that prefix,
    and puts no authentication in front of it. *)

From S2P Require Import Prelude GoStrings CryptoLib Bolt IamTypes IamMatch IamStore IamEval IamService GatewayHttp.
From Stdlib Require Import Ascii String.
From stdpp Require Import base list strings gmap.

#[local] Open Scope Z_scope.

(** Decoding a body into a struct of string fields ([None]: an error, which
    leaves the fields empty), and into the types with documents. *)
Class IamJson := {
  decodeStrings : bytes -> option (string -> string);
  decodePolicyRequest : bytes -> option (string * string * PolicyDocument);
  decodeRoleRequest : bytes -> option (string * string * PolicyDocument * Z);
  decodeDocument : bytes -> option PolicyDocument
}.

(** What a request draws and reads outside the store. *)
Record AdminDraws := mkDraws { dr_id : res bytes; dr_key : KeyRand; dr_now : Time; dr_now' : Time }.

Record userResponse := mkUserResponse {
  ur_ID : string; ur_Name : string; ur_DisplayName : string; ur_AccessKeyCount : Z;
  ur_Groups : list string; ur_AttachedPolicies : list string; ur_CreatedAt : string
}.
Record keyResponse := mkKeyResponse {
  kr_AccessKeyID : string; kr_Status : string; kr_CreatedAt : string; kr_Description : string
}.

Inductive reply :=
| JError (status : Z) (message : string)
| JStatus (word : string)
| JUsers (users : list userResponse)
| JCreatedUser (id name displayName createdAt : string)
| JKeys (keys : list keyResponse)
| JCreatedKey (result : CreateAccessKeyResult)
| JGroups (groups : list IAMGroup)
| JGroup (group : IAMGroup)
| JPolicies (policies : list IAMPolicy)
| JPolicy (policy : IAMPolicy)
| JRoles (roles : list IAMRole)
| JRole (role : IAMRole)
| JBucketPolicy (policy : BucketPolicy)
| JSimulation (result : option SimulateResponse)
| JFault (why : string).

(** The cases of the switch, with the name it cuts out. *)
Inductive route :=
| RListUsers | RCreateUser | RDeleteUser (name : string)
| RListAccessKeys (userName : string) | RCreateAccessKey (userName : string) | RDeleteAccessKey
| RActivate | RDeactivate
| RListGroups | RCreateGroup | RDeleteGroup (name : string) | RAddUserToGroup | RRemoveUserFromGroup
| RListPolicies | RCreatePolicy | RDeletePolicy (name : string)
| RAttachUserPolicy | RDetachUserPolicy | RAttachGroupPolicy | RDetachGroupPolicy
| RListRoles | RCreateRole | RDeleteRole (name : string) | RAttachRolePolicy | RDetachRolePolicy
| RGetBucketPolicy (bucket : string) | RPutBucketPolicy (bucket : string) | RDeleteBucketPolicy (bucket : string)
| RSimulate | RNotFound.

Definition under (prefix path : string) : bool := HasPrefix path prefix.
Definition framed (prefix suffix path : string) : bool := HasPrefix path prefix && HasSuffix path suffix.

Definition route_of (method urlPath : string) : route :=
  let path := TrimPrefix (TrimPrefix urlPath "/admin/") "/" in
  let meth := fun m => bool_decide (method = m) in
  let at_ := fun p => bool_decide (path = p) in
  let GET := meth "GET"%string in let POST := meth "POST"%string in
  let PUT := meth "PUT"%string in let DELETE := meth "DELETE"%string in
  if GET && at_ "users"%string then RListUsers
  else if POST && at_ "users"%string then RCreateUser
  else if DELETE && under "users/" path then RDeleteUser (TrimPrefix path "users/")
  else if GET && framed "users/" "/access-keys" path
  then RListAccessKeys (TrimSuffix (TrimPrefix path "users/") "/access-keys")
  else if POST && framed "users/" "/access-keys" path
  then RCreateAccessKey (TrimSuffix (TrimPrefix path "users/") "/access-keys")
  else if DELETE && under "access-keys/" path then RDeleteAccessKey
  else if PUT && framed "access-keys/" "/activate" path then RActivate
  else if PUT && framed "access-keys/" "/deactivate" path then RDeactivate
  else if GET && at_ "groups"%string then RListGroups
  else if POST && at_ "groups"%string then RCreateGroup
  else if DELETE && under "groups/" path then RDeleteGroup (TrimPrefix path "groups/")
  else if POST && framed "groups/" "/users" path then RAddUserToGroup
  else if DELETE && framed "groups/" "/users" path then RRemoveUserFromGroup
  else if GET && at_ "policies"%string then RListPolicies
  else if POST && at_ "policies"%string then RCreatePolicy
  else if DELETE && under "policies/" path then RDeletePolicy (TrimPrefix path "policies/")
  else if POST && framed "users/" "/policies" path then RAttachUserPolicy
  else if DELETE && framed "users/" "/policies" path then RDetachUserPolicy
  else if POST && framed "groups/" "/policies" path then RAttachGroupPolicy
  else if DELETE && framed "groups/" "/policies" path then RDetachGroupPolicy
  else if GET && at_ "roles"%string then RListRoles
  else if POST && at_ "roles"%string then RCreateRole
  else if DELETE && under "roles/" path then RDeleteRole (TrimPrefix path "roles/")
  else if POST && framed "roles/" "/policies" path then RAttachRolePolicy
  else if DELETE && framed "roles/" "/policies" path then RDetachRolePolicy
  else if GET && under "bucket-policies/" path then RGetBucketPolicy (TrimPrefix path "bucket-policies/")
  else if PUT && under "bucket-policies/" path then RPutBucketPolicy (TrimPrefix path "bucket-policies/")
  else if DELETE && under "bucket-policies/" path then RDeleteBucketPolicy (TrimPrefix path "bucket-policies/")
  else if POST && at_ "iam/simulate"%string then RSimulate
  else RNotFound.

(** The name a handler cuts out of the whole URL path: both cuts are at the
    front, and the last one removes the empty suffix. *)
Definition nameIn (prefix suffix urlPath : string) : string :=
  TrimSuffix (TrimPrefix (TrimPrefix urlPath prefix) suffix) "".

Section Admin.
Context `{GoUnicode} `{GoParsers} `{CryptoLib} `{Bolt} `{IamJson}.

(** Run an operation and turn its outcome into an answer. *)
Definition answer {A} (m : IAM A) (onErr : Z) (onOk : A -> reply) (s : IAMStore) : IAMStore * reply :=
  match m s with
  | (s, Ok x) => (s, onOk x)
  | (s, Err e) => (s, JError onErr e)
  | (s, Panic w) => (s, JFault w)
  end.
Definition done_ {A} (word : string) (_ : A) : reply := JStatus word.

Definition toUserResponse (u : IAMUser) : userResponse :=
  mkUserResponse (iu_ID u) (iu_Name u) (iu_DisplayName u) (Z.of_nat (length (iu_AccessKeys u)))
    (iu_Groups u) (iu_AttachedPolicies u) (FormatRFC3339 (iu_CreatedAt u)).
Definition listUsers (s : IAMStore) : reply := JUsers (map toUserResponse (ListUsers s)).

(** A handler that needs the body. *)
Definition withBody {B} (decoded : option B) (f : B -> IAMStore -> IAMStore * reply) (s : IAMStore)
  : IAMStore * reply :=
  match decoded with
  | Some b => f b s
  | None => (s, JError 400 "invalid request body")
  end.

Definition createUser (body : bytes) (d : AdminDraws) : IAMStore -> IAMStore * reply :=
  withBody (decodeStrings body) (fun req =>
    answer (CreateUser (req "name"%string) (req "display_name"%string) (dr_id d) (dr_now d)) 409
      (fun u => JCreatedUser (iu_ID u) (iu_Name u) (iu_DisplayName u) (FormatRFC3339 (iu_CreatedAt u)))).
Definition deleteUser (name : string) : IAMStore -> IAMStore * reply :=
  answer (DeleteUser name) 404 (done_ "deleted").

Definition toKeyResponse (k : AccessKey) : keyResponse :=
  mkKeyResponse (ak_AccessKeyID k) (ak_Status k) (FormatRFC3339 (ak_CreatedAt k)) (ak_Description k).
Definition listAccessKeys (userName : string) : IAMStore -> IAMStore * reply :=
  answer (ListAccessKeys userName) 404 (fun keys => JKeys (map toKeyResponse keys)).
(** A body that does not decode is ignored. *)
Definition fieldOf (body : bytes) (f : string) : string :=
  match decodeStrings body with Some req => req f | None => "" end.
Definition createAccessKey (mk : MasterKey) (userName : string) (body : bytes) (d : AdminDraws)
  : IAMStore -> IAMStore * reply :=
  answer (CreateAccessKey mk userName (fieldOf body "description") (dr_key d) (dr_now d)) 400 JCreatedKey.
Definition deleteAccessKey (body : bytes) : IAMStore -> IAMStore * reply :=
  withBody (decodeStrings body) (fun req =>
    answer (DeleteAccessKey (req "user_name"%string) (req "access_key_id"%string)) 404 (done_ "deleted")).
Definition activateAccessKey (urlPath : string) (body : bytes) : IAMStore -> IAMStore * reply :=
  answer (ActivateAccessKey (fieldOf body "user_name") (nameIn "/admin/access-keys/" "/activate" urlPath)) 404
    (done_ "active").
Definition deactivateAccessKey (urlPath : string) (body : bytes) : IAMStore -> IAMStore * reply :=
  answer (DeactivateAccessKey (fieldOf body "user_name") (nameIn "/admin/access-keys/" "/deactivate" urlPath)) 404
    (done_ "inactive").

Definition createGroup (body : bytes) (d : AdminDraws) : IAMStore -> IAMStore * reply :=
  withBody (decodeStrings body) (fun req =>
    answer (CreateGroup (req "name"%string) (req "description"%string) (dr_now d)) 409 JGroup).
Definition deleteGroup (name : string) : IAMStore -> IAMStore * reply :=
  answer (DeleteGroup name) 404 (done_ "deleted").
Definition addUserToGroup (urlPath : string) (body : bytes) : IAMStore -> IAMStore * reply :=
  withBody (decodeStrings body) (fun req =>
    answer (AddUserToGroup (req "user_name"%string) (nameIn "/admin/groups/" "/users" urlPath)) 400 (done_ "added")).
Definition removeUserFromGroup (urlPath : string) (body : bytes) : IAMStore -> IAMStore * reply :=
  withBody (decodeStrings body) (fun req =>
    answer (RemoveUserFromGroup (req "user_name"%string) (nameIn "/admin/groups/" "/users" urlPath)) 400
      (done_ "removed")).

Definition createPolicy (body : bytes) (d : AdminDraws) : IAMStore -> IAMStore * reply :=
  withBody (decodePolicyRequest body) (fun '(name, description, document) =>
    answer (CreatePolicy name description document (dr_now d) (dr_now' d)) 409 JPolicy).
Definition deletePolicy (name : string) : IAMStore -> IAMStore * reply :=
  answer (DeletePolicy name) 404 (done_ "deleted").

(** The six handlers that attach or detach a policy differ in the operation,
    the prefix and the word. *)
Definition changePolicy (op : string -> string -> IAM unit) (prefix word urlPath : string) (body : bytes)
  : IAMStore -> IAMStore * reply :=
  withBody (decodeStrings body) (fun req =>
    answer (op (nameIn prefix "/policies" urlPath) (req "policy_name"%string)) 400 (done_ word)).
Definition attachUserPolicy := changePolicy AttachUserPolicy "/admin/users/" "attached".
Definition detachUserPolicy := changePolicy DetachUserPolicy "/admin/users/" "detached".
Definition attachGroupPolicy := changePolicy AttachGroupPolicy "/admin/groups/" "attached".
Definition detachGroupPolicy := changePolicy DetachGroupPolicy "/admin/groups/" "detached".
Definition attachRolePolicy := changePolicy AttachRolePolicy "/admin/roles/" "attached".
Definition detachRolePolicy := changePolicy DetachRolePolicy "/admin/roles/" "detached".

Definition createRole (body : bytes) (d : AdminDraws) : IAMStore -> IAMStore * reply :=
  withBody (decodeRoleRequest body) (fun '(name, description, trustPolicy, duration) =>
    answer (CreateRole name description trustPolicy duration (dr_now d)) 409 JRole).
Definition deleteRole (name : string) : IAMStore -> IAMStore * reply :=
  answer (DeleteRole name) 404 (done_ "deleted").

Definition getBucketPolicy (name : string) : IAMStore -> IAMStore * reply :=
  answer (gets (GetBucketPolicy name)) 404 JBucketPolicy.
Definition putBucketPolicy (name : string) (body : bytes) (d : AdminDraws) : IAMStore -> IAMStore * reply :=
  withBody (decodeDocument body) (fun document =>
    answer (PutBucketPolicy name document (dr_now d)) 400 (done_ "updated")).
Definition deleteBucketPolicy (name : string) : IAMStore -> IAMStore * reply :=
  answer (DeleteBucketPolicy name) 404 (done_ "deleted").

Definition simulatePolicy (fuel : nat) (body : bytes) (d : AdminDraws) : IAMStore -> IAMStore * reply :=
  withBody (decodeStrings body) (fun req s =>
    (s, if bool_decide (req "principal"%string = ""%string) || bool_decide (req "action"%string = ""%string)
           || bool_decide (req "resource"%string = ""%string)
        then JError 400 "principal, action, and resource are required"
        else
          let ctx := mkEvalContext (req "principal"%string) (req "action"%string) (req "resource"%string) ∅
                       (req "source_ip"%string) (dr_now d) (req "user_agent"%string) "" ∅ ∅ ∅ "" "" in
          JSimulation (Simulate fuel (Some s) ctx))).

Definition handle (fuel : nat) (mk : MasterKey) (rt : route) (urlPath : string) (body : bytes) (d : AdminDraws)
    (s : IAMStore) : IAMStore * reply :=
  match rt with
  | RListUsers => (s, listUsers s)
  | RCreateUser => createUser body d s
  | RDeleteUser name => deleteUser name s
  | RListAccessKeys userName => listAccessKeys userName s
  | RCreateAccessKey userName => createAccessKey mk userName body d s
  | RDeleteAccessKey => deleteAccessKey body s
  | RActivate => activateAccessKey urlPath body s
  | RDeactivate => deactivateAccessKey urlPath body s
  | RListGroups => (s, JGroups (ListGroups s))
  | RCreateGroup => createGroup body d s
  | RDeleteGroup name => deleteGroup name s
  | RAddUserToGroup => addUserToGroup urlPath body s
  | RRemoveUserFromGroup => removeUserFromGroup urlPath body s
  | RListPolicies => (s, JPolicies (ListPolicies s))
  | RCreatePolicy => createPolicy body d s
  | RDeletePolicy name => deletePolicy name s
  | RAttachUserPolicy => attachUserPolicy urlPath body s
  | RDetachUserPolicy => detachUserPolicy urlPath body s
  | RAttachGroupPolicy => attachGroupPolicy urlPath body s
  | RDetachGroupPolicy => detachGroupPolicy urlPath body s
  | RListRoles => (s, JRoles (ListRoles s))
  | RCreateRole => createRole body d s
  | RDeleteRole name => deleteRole name s
  | RAttachRolePolicy => attachRolePolicy urlPath body s
  | RDetachRolePolicy => detachRolePolicy urlPath body s
  | RGetBucketPolicy name => getBucketPolicy name s
  | RPutBucketPolicy name => putBucketPolicy name body d s
  | RDeleteBucketPolicy name => deleteBucketPolicy name s
  | RSimulate => simulatePolicy fuel body d s
  | RNotFound => (s, JError 404 "not found")
  end.

Definition ServeHTTP (fuel : nat) (mk : MasterKey) (r : Request) (d : AdminDraws) (s : IAMStore) : IAMStore * reply :=
  handle fuel mk (route_of (r_Method r) (r_Path r)) (r_Path r) (r_Body r) d s.

(** As mounted by the main program. *)
Definition mounted (fuel : nat) (mk : MasterKey) (r : Request) (d : AdminDraws) (s : IAMStore) : IAMStore * reply :=
  ServeHTTP fuel mk
    (mkRequest (r_Method r) (r_Host r) (TrimPrefix (r_Path r) "/iam") (r_RawQuery r) (r_Header r) (r_Body r)
       (r_RemoteAddr r)) d s.
End Admin.
