(* ===== verification/IamAdminTheorems.v ===== *)
(** * What the IAM administration API does

    Four of its routes cannot be reached and four more look for names that
    do not exist; a key it creates for a user works at the gateway, and it
    asks nobody who they are. *)

From S2P Require Import Prelude GoStrings GoText CryptoLib Bolt IamTypes IamMatch IamStore IamEval IamService.
From S2P Require Import IamServiceProofs IamProperties IamEval Integrity IntegrityTheorems.
From S2P Require Import GatewayHttp SigV4 SigV4Theorems GatewayAuth GatewayProvider GatewayIdentityTheorems IamAdmin.
From Stdlib Require Import Ascii String.
From stdpp Require Import base list strings gmap.

#[local] Open Scope Z_scope.

(** ** Routing *)

Lemma under_framed p s path : framed p s path = true -> under p path = true.
Proof. unfold framed, under. by intros [? _]%andb_true_iff. Qed.

Ltac route_cases :=
  unfold route_of; cbv zeta;
  repeat match goal with |- context [if ?b then _ else _] => destruct b eqn:? end.

(** A DELETE under "users/", "groups/" or "roles/" deletes the thing itself. *)
Lemma detach_unreachable m p :
  route_of m p <> RRemoveUserFromGroup /\ route_of m p <> RDetachUserPolicy /\
  route_of m p <> RDetachGroupPolicy /\ route_of m p <> RDetachRolePolicy.
Proof.
  route_cases; split_and!; try done; exfalso; boolify;
  repeat match goal with
  | H : framed _ _ _ = true |- _ => apply under_framed in H
  | H : bool_decide ?P && ?b = false |- _ => rewrite (bool_decide_true P) in H by done; cbn in H
  end; congruence.
Qed.

(** The four handlers that a name is cut out for, and where they look. *)
Definition cutRoute (rt : route) : bool :=
  match rt with
  | RAddUserToGroup | RAttachUserPolicy | RAttachGroupPolicy | RAttachRolePolicy => true
  | _ => false
  end.
Lemma cutRoute_path m p : cutRoute (route_of m p) = true ->
  exists k, k ∈ ["users"; "groups"; "roles"]%string /\
    HasPrefix (TrimPrefix (TrimPrefix p "/admin/") "/") (k +:+ "/") = true.
Proof.
  route_cases; try done; intros _; boolify;
  match goal with
  | H : framed "groups/" _ _ = true |- _ => exists "groups"%string
  | H : framed "roles/" _ _ = true |- _ => exists "roles"%string
  | H : framed "users/" _ _ = true |- _ => exists "users"%string
  end; (split; [set_solver|by eapply under_framed]).
Qed.

Lemma TrimSuffix_empty s : TrimSuffix s "" = s.
Proof.
  unfold TrimSuffix. destruct (HasSuffix s ""); [|done]. cbn [String.length]. rewrite Nat.sub_0_r.
  induction s as [|c s IH]; [done|]. cbn [String.length stake]. by rewrite IH.
Qed.

(** On a path of the mounted API nothing is cut away. *)
Lemma nameIn_whole p1 p2 k y : k ∈ ["users"; "groups"; "roles"]%string ->
  p1 ∈ ["/admin/users/"; "/admin/groups/"; "/admin/roles/"]%string -> p2 ∈ ["/users"; "/policies"]%string ->
  (k = "users"%string -> p2 = "/policies"%string) ->
  nameIn p1 p2 ("/" +:+ k +:+ "/" +:+ y) = "/" +:+ k +:+ "/" +:+ y.
Proof.
  intros K P1 P2 U. unfold nameIn. rewrite TrimSuffix_empty.
  set_unfold in K. set_unfold in P1. set_unfold in P2.
  destruct_or! K; destruct_or! P1; destruct_or! P2; subst; try done; by specialize (U eq_refl).
Qed.

Section Admin.
Context `{GoUnicode} `{GoParsers} `{CryptoLib} `{Sha256} `{SigTime} `{JwtLib} `{BL : Bolt} `{!BoltLaws} `{IamJson}.

Definition noSlash (k : string) : Prop := nochar slash k = true.
(** Names of users, groups and roles as the API is meant to be used. *)
Definition plainNames (s : IAMStore) : Prop :=
  (forall k u, bGet (is_users s) k = Some u -> noSlash k) /\
  (forall k g, bGet (is_groups s) k = Some g -> noSlash k) /\
  (forall k r, bGet (is_roles s) k = Some r -> noSlash k).

Lemma plain_absent {V} (b : bucket V) what k y : (forall k v, bGet b k = Some v -> noSlash k) ->
  found what ("/" +:+ k +:+ "/" +:+ y) (bGet b ("/" +:+ k +:+ "/" +:+ y)) = Err (what +:+ " " +:+ ("/" +:+ k +:+ "/" +:+ y) +:+ " not found").
Proof. intros P. destruct (bGet b _) eqn:E; [|done]. apply P in E. by vm_compute in E. Qed.

(** An operation that only reads and fails. *)
Definition failsQuietly {A} (m : IAM A) (s : IAMStore) : Prop := exists e, m s = (s, Err e).

Lemma absent_user_fails p k y s : plainNames s -> failsQuietly (AttachUserPolicy ("/" +:+ k +:+ "/" +:+ y) p) s.
Proof.
  intros (P & _). eexists. unfold AttachUserPolicy, mbind, iam_bind, gets, IamStore.GetUser. cbv beta. by rewrite plain_absent.
Qed.
Lemma absent_group_fails p k y s : plainNames s -> failsQuietly (AttachGroupPolicy ("/" +:+ k +:+ "/" +:+ y) p) s.
Proof.
  intros (_ & P & _). eexists. unfold AttachGroupPolicy, mbind, iam_bind, gets, GetGroup. cbv beta. by rewrite plain_absent.
Qed.
Lemma absent_role_fails p k y s : plainNames s -> failsQuietly (AttachRolePolicy ("/" +:+ k +:+ "/" +:+ y) p) s.
Proof.
  intros (_ & _ & P). eexists. unfold AttachRolePolicy, mbind, iam_bind, gets, GetRole. cbv beta. by rewrite plain_absent.
Qed.
Lemma absent_member_fails u k y s : plainNames s -> failsQuietly (AddUserToGroup u ("/" +:+ k +:+ "/" +:+ y)) s.
Proof.
  intros (_ & P & _). unfold failsQuietly, AddUserToGroup, mbind, iam_bind, gets, GetGroup.
  rewrite (plain_absent (is_groups s)) by done. unfold IamStore.GetUser, found.
  destruct (bGet (is_users s) u); cbn; by eexists.
Qed.

Lemma withBody_fails {B} (dec : option B) f s : (forall b, exists st e, f b s = (s, JError st e)) ->
  exists st e, withBody dec f s = (s, JError st e).
Proof. intros F. unfold withBody. destruct dec; [apply F|by do 2 eexists]. Qed.
Lemma answer_fails {A} (m : IAM A) st ok s : failsQuietly m s -> exists st' e, answer m st ok s = (s, JError st' e).
Proof. intros (e & E). unfold answer. rewrite E. by do 2 eexists. Qed.

Lemma mounted_path rest : HasPrefix rest "admin/" = false ->
  TrimPrefix ("/iam/" +:+ rest) "/iam" = "/" +:+ rest /\
  TrimPrefix (TrimPrefix ("/" +:+ rest) "/admin/") "/" = rest.
Proof.
  intros N. assert (TrimPrefix ("/" +:+ rest) "/admin/" = "/" +:+ rest) as E.
  { unfold TrimPrefix. change (HasPrefix ("/" +:+ rest) "/admin/") with (HasPrefix rest "admin/"). by rewrite N. }
  rewrite E. split; [apply (TrimPrefix_app "/iam" ("/" +:+ rest))|apply (TrimPrefix_app "/" rest)].
Qed.

(** The administration API cannot change attachments or memberships.  No
    request reaches the handlers that detach a policy or remove a member: the
    case that deletes the user, group or role comes first.  The handlers that
    attach or add cut the name at the wrong end and look for one with slashes
    in it, so that with plain names every such request is answered with an
    error and changes nothing. *)
Theorem admin_api_cannot_attach (fuel : nat) (mk : MasterKey) (r : Request) (d : AdminDraws) (s : IAMStore)
    (rest : string) :
  plainNames s -> r_Path r = "/iam/" +:+ rest -> HasPrefix rest "admin/" = false ->
  let rt := route_of (r_Method r) ("/" +:+ rest) in
  (rt <> RRemoveUserFromGroup /\ rt <> RDetachUserPolicy /\ rt <> RDetachGroupPolicy /\ rt <> RDetachRolePolicy) /\
  (cutRoute rt = true -> exists status e, mounted fuel mk r d s = (s, JError status e)).
Proof.
  intros P Path N rt. split; [apply detach_unreachable|]. intros C.
  destruct (mounted_path rest N) as [M1 M2].
  destruct (cutRoute_path _ _ C) as (k & K & PP). rewrite M2 in PP.
  apply HasPrefix_spec in PP as [y Ey]. rewrite <- sapp_assoc in Ey.
  unfold mounted, ServeHTTP. cbn [r_Method r_Path r_Body]. rewrite Path, M1.
  fold rt. assert (rt = rt) as RT by done. revert C RT. generalize rt at 1 2 4. intros rt' C RT.
  subst rest. destruct rt'; try done; cbn [handle].
  - apply withBody_fails. intros b. apply answer_fails.
    destruct (decide (k = "users"%string)) as [->|NU].
    + exfalso. clear -RT. subst rt. revert RT. route_cases; try done. intros _. boolify.
      match goal with H : framed "groups/" _ _ = true |- _ => apply under_framed in H; by vm_compute in H end.
    + rewrite nameIn_whole; [by apply absent_member_fails|done|set_solver|set_solver|done].
  - apply withBody_fails. intros b. apply answer_fails.
    rewrite nameIn_whole; [by apply absent_user_fails|done|set_solver|set_solver|done].
  - apply withBody_fails. intros b. apply answer_fails.
    rewrite nameIn_whole; [by apply absent_group_fails|done|set_solver|set_solver|done].
  - apply withBody_fails. intros b. apply answer_fails.
    rewrite nameIn_whole; [by apply absent_role_fails|done|set_solver|set_solver|done].
Qed.

(** ** Keys for anyone *)

(** No stored user has a key with this ID. *)
Definition freshKey (id : string) (s : IAMStore) : Prop :=
  forall k u, bGet (is_users s) k = Some u -> Forall (fun ak => ak_AccessKeyID ak <> id) (iu_AccessKeys u).

Lemma fresh_inactive id l : Forall (fun ak => ak_AccessKeyID ak <> id) l ->
  existsb (fun ak => bool_decide (ak_AccessKeyID ak = id) && bool_decide (ak_Status ak = AccessKeyActive)) l = false.
Proof. induction 1 as [|ak l N F IH]; [done|]. cbn. by rewrite bool_decide_false. Qed.
Lemma fresh_find id l ak : Forall (fun ak => ak_AccessKeyID ak <> id) l -> ak_AccessKeyID ak = id ->
  List.find (isKey id) (l ++ [ak]) = Some ak.
Proof.
  intros F E. induction F as [|x l N F IH]; cbn; unfold isKey at 1.
  - by rewrite bool_decide_true.
  - by rewrite bool_decide_false.
Qed.

(** The key just created is the one the gateway finds, with its secret. *)
Lemma created_key_secret `{!CryptoLaws} mk userName description kr t s s' out :
  CreateAccessKey mk userName description kr t s = (s', Ok out) ->
  (forall u, bGet (is_users s) userName = Some u -> iu_Name u = userName) ->
  freshKey (cr_AccessKeyID out) s ->
  exists u, iu_Name u = userName /\ HasPrefix (cr_AccessKeyID out) AccessKeyIDPrefix = true /\
    accessKeySecret (cr_AccessKeyID out) (mkBridge s' mk) = Ok (u, Ok (cr_SecretAccessKey out)).
Proof.
  unfold CreateAccessKey, mbind, iam_bind, gets, lift, wrapI, IamStore.GetUser, found.
  destruct (bGet (is_users s) userName) as [user|] eqn:Eu; [|done]. simpl.
  destruct (generateRandomString 16 _) as [kid|e|w]; [|done..].
  destruct (generateRandomString 40 _) as [secret|e|w]; [|done..].
  destruct (mk_Encrypt mk (bytes_of_string secret) _) as [enc|e|w] eqn:Ee; [|done..].
  simpl. unfold PutUser, update. simpl.
  destruct (bPut (is_users s) (iu_Name user) _) as [b|e|w] eqn:P; [|done..]. simpl.
  intros [= <- <-] Nm F. specialize (Nm user eq_refl). rewrite Nm in P. cbn [cr_AccessKeyID] in *.
  set (id := AccessKeyIDPrefix +:+ kid) in *. set (ak := mkAccessKey id enc _ _ _ _) in P.
  set (u' := with_keys (iu_AccessKeys user ++ [ak]) user) in P.
  assert (hasActiveKey id u' = true) as HK.
  { unfold hasActiveKey, u'. cbn [iu_AccessKeys with_keys]. rewrite existsb_app. cbn.
    rewrite !bool_decide_true by done. by rewrite orb_true_r. }
  exists u'. split; [done|]. split; [apply HasPrefix_app|]. unfold accessKeySecret. cbn [br_store br_master].
  assert (List.find (hasActiveKey id) (IamStore.ListUsers (set_users b s)) = Some u') as FU.
  { destruct (List.find _ _) as [v|] eqn:FV.
    - apply List.find_some in FV as [I A]. apply list_elem_of_In, list_elem_of_fmap_1 in I as ([k w] & -> & I).
      apply bForEach_get in I. cbn in I. rewrite (bGet_put _ _ _ _ _ _ P) in I.
      case_decide; [by injection I as <-|]. unfold hasActiveKey in A. cbn in A.
      by rewrite fresh_inactive in A by (by eapply F).
    - exfalso. apply (List.find_none _ _) with (x := u') in FV; [congruence|].
      apply list_elem_of_In, list_elem_of_fmap. exists (userName, u'). split; [done|]. apply bForEach_get. cbn.
      rewrite (bGet_put _ _ _ _ _ _ P). by rewrite decide_True. }
  unfold GetUserByAccessKeyID, GetUserByAccessKey. cbn [orFail]. rewrite FU. cbn [mbind res_bind].
  unfold u' at 1. cbn [iu_AccessKeys with_keys]. rewrite fresh_find by (done || by eapply F).
  cbn [mbind res_bind ak_SecretKeyEnc ak]. unfold DecryptSecretKey.
  rewrite (mk_roundtrip _ _ _ _ Ee). cbn. by rewrite string_bytes_roundtrip.
Qed.

(** Anyone can make itself a working credential of any user.  Whatever
    the headers of a request are, the administration API creates a key for
    the user in its path and shows the secret, and a request to the gateway
    with that key and secret is then authenticated as that user; as the user
    "admin" it passes every check. *)
Theorem anyone_mints_credentials `{!CryptoLaws} (fuel : nat) (mk : MasterKey) (r q : Request) (d : AdminDraws)
    (s s' : IAMStore) (userName rest sch : string) (out : CreateAccessKeyResult) (ck : Clock) (a : AuthHandler) :
  route_of (r_Method r) (TrimPrefix (r_Path r) "/iam") = RCreateAccessKey userName ->
  mounted fuel mk r d s = (s', JCreatedKey out) ->
  (forall u, bGet (is_users s) userName = Some u -> iu_Name u = userName) ->
  freshKey (cr_AccessKeyID out) s ->
  cut " "%char (HeaderGet "Authorization" q) = (sch, Some rest) -> ToLower sch = "basic"%string ->
  decodeBasicAuth rest = Ok (cr_AccessKeyID out, cr_SecretAccessKey out) ->
  exists id, provider_Authenticate q ck (Some (mkBridge s' mk)) a = (a, Ok id) /\ id_Name id = userName /\
    (userName = "admin"%string -> forall action bucket key now,
       provider_Check fuel (Some id) action bucket key q now (Some (mkBridge s' mk)) = Some (Ok tt)).
Proof.
  intros R M W F C L D. unfold mounted, ServeHTTP in M. cbn [r_Method r_Path r_Body] in M. rewrite R in M.
  cbn [handle] in M. unfold createAccessKey, answer in M.
  destruct (CreateAccessKey _ _ _ _ _ s) as [s1 [o|e|w]] eqn:E; [|done..]. injection M as <- <-.
  destruct (created_key_secret _ _ _ _ _ _ _ _ E W F) as (u & N & P & K).
  exists (toAuthIdentity (iamUserToLegacy u) (Some u)).
  assert (HeaderGet "Authorization" q <> ""%string) as NE by (intros Z; by rewrite Z in C).
  split; [|split; [exact N|]].
  - unfold provider_Authenticate, looksLikeIAMRequest, AuthenticateWithIAM.
    rewrite bool_decide_true, (bool_decide_false (HeaderGet _ _ = _)), C, L by done. cbn [bool_decide decide_rel].
    rewrite D. unfold isIAMAccessKey. rewrite P. unfold validateBasicAuthIAM. rewrite D, P, K.
    rewrite (bool_decide_true (cr_SecretAccessKey o = _)) by done. done.
  - intros -> action bucket key now. unfold provider_Check, toAuthIdentity, iamUserToLegacy.
    rewrite N. cbn [id_Role us_Role]. by rewrite !bool_decide_true.
Qed.
End Admin.

(** ** Examples *)

Module IamAdminDemo.
#[export] Instance demoJson : IamJson := {|
  decodeStrings body := match body with [] => None | _ => Some (fun _ => string_of_bytes body) end;
  decodePolicyRequest _ := None; decodeRoleRequest _ := None; decodeDocument _ := None
|}.
Definition ask (method path : string) : Request := mkRequest method "h" path "" ∅ (bytes_of_string "ops") "1.2.3.4:5".
Definition draws : AdminDraws := mkDraws (Ok []) demoRand 0 0.
End IamAdminDemo.

#[local] Existing Instance AsciiOnly.ascii_unicode.
#[local] Existing Instance SmallParsers.small_parsers.
#[local] Existing Instance ToyCrypto.toy.
#[local] Existing Instance IntegrityDemo.demoSha.
#[local] Existing Instance SigDemo.demoTime.
#[local] Existing Instance MapBolt.mapBolt.
#[local] Existing Instance MapBolt.mapBolt_laws.
#[local] Existing Instance ToyCrypto.toy_laws.
Import AuthDemo IamAdminDemo.

Definition withAdmin : IAMStore := (CreateUser "admin" "" (Ok []) 0 emptyStore).1.

Example routing :
  (route_of "DELETE" "/users/bob/policies", route_of "POST" "/users/bob/policies",
   route_of "POST" "/users/policies", route_of "GET" "/admin/users/bob/access-keys") =
  (RDeleteUser "bob/policies", RAttachUserPolicy, RAttachUserPolicy, RListAccessKeys "bob").
Proof. vm_compute. reflexivity. Qed.

Lemma withAdmin_get k u : bGet (is_users withAdmin) k = Some u ->
  k = "admin"%string /\ iu_Name u = "admin"%string /\ iu_AccessKeys u = [].
Proof.
  intros E. assert (is_users withAdmin = <["admin"%string := mkIAMUser "u_000000000000" "admin" "" [] [] [] [] "" "" 0 None]>
    (∅ : gmap string IAMUser)) as U by (vm_compute; reflexivity).
  rewrite U in E. change ((<["admin"%string := mkIAMUser "u_000000000000" "admin" "" [] [] [] [] "" "" 0 None]>
    (∅ : gmap string IAMUser)) !! k = Some u) in E. apply lookup_insert_Some in E as [[<- <-]|[_ E]]; [done|]. by rewrite lookup_empty in E.
Qed.

Lemma admin_api_cannot_attach_witness :
  exists status e, mounted 1 demoKey (ask "POST" "/iam/users/admin/policies") draws withAdmin
                   = (withAdmin, JError status e).
Proof.
  destruct (admin_api_cannot_attach 1 demoKey (ask "POST" "/iam/users/admin/policies") draws withAdmin
              "users/admin/policies") as [_ F]; [|vm_compute; reflexivity..|].
  - split; [|split].
    + intros k u [-> _]%withAdmin_get. by vm_compute.
    + intros k g E. change ((∅ : gmap string IAMGroup) !! k = Some g) in E. by rewrite lookup_empty in E.
    + intros k g E. change ((∅ : gmap string IAMRole) !! k = Some g) in E. by rewrite lookup_empty in E.
  - apply F. vm_compute. reflexivity.
Defined.

Definition minted : IAMStore * reply := mounted 1 demoKey (ask "POST" "/iam/users/admin/access-keys") draws withAdmin.
Lemma anyone_mints_credentials_witness : exists id out,
  minted.2 = JCreatedKey out /\
  provider_Authenticate (asking (basic (cr_AccessKeyID out +:+ ":" +:+ cr_SecretAccessKey out)) "") clock
    (Some (mkBridge minted.1 demoKey)) (handler true false) = (handler true false, Ok id) /\
  id_Name id = "admin"%string.
Proof.
  set (out := mkAKResult "AKIA0000000000000000" "0000000000000000000000000000000000000000" AccessKeyActive 0).
  assert (minted.2 = JCreatedKey out) as M by (vm_compute; reflexivity).
  destruct (anyone_mints_credentials 1 demoKey (ask "POST" "/iam/users/admin/access-keys")
              (asking (basic (cr_AccessKeyID out +:+ ":" +:+ cr_SecretAccessKey out)) "") draws withAdmin minted.1
              "admin" (encode64 (bytes_of_string (cr_AccessKeyID out +:+ ":" +:+ cr_SecretAccessKey out))) "Basic" out
              clock (handler true false)) as (id & A & N & _); [..|exists id, out; split; [exact M|split; [exact A|exact N]]].
  - vm_compute. reflexivity.
  - fold minted. rewrite <- M. by destruct minted.
  - intros u E. apply withAdmin_get in E. apply E.
  - intros k u E. apply withAdmin_get in E as (_ & _ & ->). constructor.
  - vm_compute. reflexivity.
  - vm_compute. reflexivity.
  - vm_compute. reflexivity.
Defined.
