(* ===== verification/AdminAuth.v ===== *)
(** * The secured administration server's authenticator
    (internal/gateway/admin_auth.go)

    Addresses, bearer tokens, client certificates, roles and the audit log.
    Parsing of addresses and ranges, and of tokens, are parameters; clock
    readings are arguments.  [getClientIP] never trusts proxy headers, since
    its configuration lookup always answers nil. *)

From S2P Require Import Prelude GoStrings GatewayHttp.
From Stdlib Require Import Ascii String.
From stdpp Require Import base list strings gmap.

#[local] Open Scope Z_scope.

Class NetLib := {
  (** The host of [net.SplitHostPort], empty on an error. *)
  SplitHost : string -> string;
  (** [net.ParseCIDR(cidr)] and [Contains(net.ParseIP(ip))]; [None]: no range. *)
  cidrContains : string -> option (string -> bool);
  (** [jwt.Parse] with an HMAC key: the claim user_id, if it is a string. *)
  parseJWT : string -> string -> Time -> res string;
  (** What is signed is the user, the expiry and the time of issue, in seconds. *)
  signJWT : string -> string -> Z -> Z -> res string
}.

Record AuditEntry := mkAudit {
  ae_Timestamp : Time; ae_UserID : string; ae_IP : string; ae_Method : string; ae_Path : string;
  ae_Status : Z; ae_Error : string; ae_UserAgent : string
}.
Record AuditLogger := mkAuditLog { al_entries : list AuditEntry; al_maxSize : Z }.

Definition NewAuditLogger (maxSize : Z) : AuditLogger := mkAuditLog [] (if maxSize <=? 0 then 10000 else maxSize).
Definition Log (entry : AuditEntry) (now : Time) (l : AuditLogger) : AuditLogger :=
  let entry := mkAudit now (ae_UserID entry) (ae_IP entry) (ae_Method entry) (ae_Path entry) (ae_Status entry)
                 (ae_Error entry) (ae_UserAgent entry) in
  mkAuditLog (boundedAppend (Z.to_nat (al_maxSize l)) (al_entries l) entry) (al_maxSize l).
Definition GetEntries (limit : Z) (l : AuditLogger) : list AuditEntry :=
  let n := Z.of_nat (length (al_entries l)) in
  let limit := if (limit <=? 0) || (n <? limit) then n else limit in
  lastn (Z.to_nat limit) (al_entries l).

Record AdminUser := mkAdminUser {
  au_ID : string; au_Name : string; au_Token : string; au_Role : string;
  au_AllowedIPs : list string; au_CreatedAt : Time; au_ExpiresAt : option Time
}.
Record AdminAuthenticator := mkAdmin {
  aa_AllowedIPs : list string;
  aa_token : string;
  aa_users : gmap string AdminUser;
  aa_log : AuditLogger
}.
Definition with_adminUsers (u : gmap string AdminUser) (a : AdminAuthenticator) : AdminAuthenticator :=
  mkAdmin (aa_AllowedIPs a) (aa_token a) u (aa_log a).
Definition with_log (l : AuditLogger) (a : AdminAuthenticator) : AdminAuthenticator :=
  mkAdmin (aa_AllowedIPs a) (aa_token a) (aa_users a) l.

(** [token]: the trimmed content of the token file, empty if there is none;
    [draw]: 32 random bytes; [log]: a logger of the configuration. *)
Definition NewAdminAuthenticator (allowedIPs : list string) (token : string) (draw : res bytes)
    (log : option AuditLogger) (now : Time) : res AdminAuthenticator :=
  token ← (if bool_decide (token = ""%string)
           then match draw with
                | Ok b => Ok (hexEncode b)
                | Err e => Err ("failed to generate admin token: " +:+ e)
                | Panic w => Panic w
                end
           else Ok token);
  Ok (mkAdmin allowedIPs token
        {[ "admin"%string := mkAdminUser "admin-001" "admin" token "admin" allowedIPs now None ]}
        (default (NewAuditLogger 10000) log)).

Record AdminPermissions := mkPermissions {
  CanViewStatus : bool; CanManageBuckets : bool; CanManageUsers : bool; CanRunTiering : bool;
  CanManageKeys : bool; CanRebuildIndex : bool; CanViewMetrics : bool; CanViewLogs : bool
}.
Definition GetPermissions (role : string) : AdminPermissions :=
  if bool_decide (role = "admin"%string) then mkPermissions true true true true true true true true
  else if bool_decide (role = "operator"%string) then mkPermissions true false false true false true true true
  else if bool_decide (role = "viewer"%string) then mkPermissions true false false false false false true false
  else mkPermissions false false false false false false false false.

(** Whether the switch of [RequirePermission] refuses; it has no case for the
    other permissions and no default. *)
Definition refuses (permission : string) (p : AdminPermissions) : bool :=
  if bool_decide (permission = "view_status"%string) then negb (CanViewStatus p)
  else if bool_decide (permission = "manage_buckets"%string) then negb (CanManageBuckets p)
  else if bool_decide (permission = "run_tiering"%string) then negb (CanRunTiering p)
  else if bool_decide (permission = "manage_keys"%string) then negb (CanManageKeys p)
  else if bool_decide (permission = "rebuild_index"%string) then negb (CanRebuildIndex p)
  else if bool_decide (permission = "view_logs"%string) then negb (CanViewLogs p)
  else false.

(** What a client shows: the request and, over TLS, the subject of its
    verified certificate. *)
Record Caller := mkCaller { ca_request : Request; ca_subject : option string }.

Section Admin.
Context `{GoUnicode} `{NetLib}.

Definition getClientIP (r : Request) : string :=
  let ip := SplitHost (r_RemoteAddr r) in
  if bool_decide (ip <> ""%string) then ip else r_RemoteAddr r.
Definition isIPInRange (ip cidr : string) : bool :=
  match cidrContains cidr with Some inside => inside ip | None => false end.

Definition allowedIP (clientIP ip : string) : bool :=
  bool_decide (ip = "*"%string) || bool_decide (ip = clientIP) || isIPInRange clientIP ip.

Definition adminWith (f : AdminUser -> bool) (a : AdminAuthenticator) : option AdminUser :=
  List.find f ((map_to_list (aa_users a)).*2).

Definition validateBearerToken (token : string) (now now' : Time) (a : AdminAuthenticator) : res AdminUser :=
  match adminWith (fun u => bool_decide (au_Token u = token)) a with
  | Some user =>
    match au_ExpiresAt user with
    | Some e => if After now e then Err "token expired" else Ok user
    | None => Ok user
    end
  | None =>
    match parseJWT (aa_token a) token now' with
    | Ok id =>
      if bool_decide (id <> ""%string) then
        match adminWith (fun u => bool_decide (au_ID u = id)) a with
        | Some user => Ok user
        | None => Err "invalid token"
        end
      else Err "invalid token"
    | Err _ => Err "invalid token"
    | Panic w => Panic w
    end
  end.

Definition validateMTLS (c : Caller) (a : AdminAuthenticator) : res AdminUser :=
  match ca_subject c with
  | None => Err "mTLS certificate not provided"
  | Some subject =>
    match adminWith (fun u => bool_decide (au_Name u = subject)) a with
    | Some user => Ok user
    | None => Err "mTLS certificate subject not authorized"
    end
  end.

Definition admin_Authenticate (c : Caller) (now now' : Time) (a : AdminAuthenticator) : res AdminUser :=
  let r := ca_request c in
  let clientIP := getClientIP r in
  if bool_decide (aa_AllowedIPs a <> []) && negb (existsb (allowedIP clientIP) (aa_AllowedIPs a))
  then Err ("IP " +:+ clientIP +:+ " not allowed")
  else
    let authHeader := HeaderGet "Authorization" r in
    if bool_decide (authHeader = ""%string) then Err "missing authorization header"
    else
      match cut " "%char authHeader with
      | (scheme, Some rest) =>
        if bool_decide (ToLower scheme = "bearer"%string) then validateBearerToken rest now now' a
        else if bool_decide (ToLower scheme = "mtls"%string) then validateMTLS c a
        else Err "unsupported authorization type"
      | _ => Err "invalid authorization header format"
      end.

Definition admin_GenerateToken (userID : string) (expiry : Duration) (now now' : Time) (a : AdminAuthenticator)
  : res string :=
  signJWT (aa_token a) userID (Prelude.Add now expiry / Second) (now' / Second).

(** [n1] and [n2] are the readings in the ID and in the token, [n3] that of
    creation, [n4] that of the expiry; [decimal] is the verb %d. *)
Definition CreateUser (decimal : Z -> string) (name role : string) (allowedIPs : list string) (expiry : Duration)
    (n1 n2 n3 n4 : Time) (a : AdminAuthenticator) : AdminAuthenticator * AdminUser :=
  let user := mkAdminUser ("user-" +:+ decimal n1) name (aa_token a +:+ "-" +:+ decimal n2) role allowedIPs n3
                (if 0 <? expiry then Some (Prelude.Add n4 expiry) else None) in
  (with_adminUsers (<[name := user]> (aa_users a)) a, user).
Definition DeleteUser (name : string) (a : AdminAuthenticator) : AdminAuthenticator :=
  with_adminUsers (delete name (aa_users a)) a.

Definition logAccess (r : Request) (status : Z) (err : string) (now : Time) (a : AdminAuthenticator)
  : AdminAuthenticator :=
  with_log (Log (mkAudit 0 "unknown" (getClientIP r) (r_Method r) (r_Path r) status err
                   (HeaderGet "User-Agent" r)) now (aa_log a)) a.

(** [RequirePermission(permission)(next)]: the status of a refusal, or [None]
    when [next] runs. *)
Definition RequirePermission (permission : string) (c : Caller) (now now' t : Time) (a : AdminAuthenticator)
  : AdminAuthenticator * res (option Z) :=
  match admin_Authenticate c now now' a with
  | Ok user =>
    if refuses permission (GetPermissions (au_Role user))
    then (logAccess (ca_request c) 403 "permission denied" t a, Ok (Some 403))
    else (logAccess (ca_request c) 200 "" t a, Ok None)
  | Err e => (logAccess (ca_request c) 401 e t a, Ok (Some 401))
  | Panic w => (a, Panic w)
  end.

(** The routes of [NewSecureAdminServer] and what they require; the metrics
    require nothing. *)
Definition secureRoutes : list (string * option string) :=
  [("/admin/status", Some "view_status"); ("/admin/tiering/decisions", Some "view_status");
   ("/admin/tiering/run", Some "run_tiering"); ("/admin/vector/stats", Some "view_status");
   ("/admin/vector/rebuild", Some "rebuild_index"); ("/admin/metrics", None);
   ("/admin/audit", Some "view_logs")]%string.

(** ** The audit log *)

Lemma Log_bound e now l : 0 <= al_maxSize l -> Z.of_nat (length (al_entries l)) <= al_maxSize l ->
  Z.of_nat (length (al_entries (Log e now l))) <= al_maxSize (Log e now l).
Proof.
  intros M L. cbn [Log al_entries al_maxSize].
  match goal with |- Z.of_nat (length (boundedAppend ?m ?x ?y)) <= _ =>
    pose proof (boundedAppend_bound m x y ltac:(lia)) end. lia.
Qed.

Definition adminAct (a a' : AdminAuthenticator) : Prop :=
  (exists p c n n' t, a' = (RequirePermission p c n n' t a).1) \/
  (exists dec name role ips e n1 n2 n3 n4, a' = (CreateUser dec name role ips e n1 n2 n3 n4 a).1) \/
  (exists name, a' = DeleteUser name a).

Lemma adminAct_log a a' : adminAct a a' ->
  aa_log a' = aa_log a \/ exists e now, aa_log a' = Log e now (aa_log a).
Proof.
  intros [(p & c & n & n' & t & ->)|[(? & ? & ? & ? & ? & ? & ? & ? & ? & ->)|[name ->]]]; [|by left..].
  unfold RequirePermission. repeat case_match_goal; cbn; eauto.
Qed.

(** The audit log never outgrows its size, whatever requests arrive, and every
    answered request is its last entry. *)
Lemma audit_log_bounded a a' : Z.of_nat (length (al_entries (aa_log a))) <= al_maxSize (aa_log a) ->
  0 <= al_maxSize (aa_log a) -> rtc adminAct a a' ->
  Z.of_nat (length (al_entries (aa_log a'))) <= al_maxSize (aa_log a').
Proof.
  intros L M R. assert (Z.of_nat (length (al_entries (aa_log a'))) <= al_maxSize (aa_log a') /\
    0 <= al_maxSize (aa_log a')) as []; [|done].
  induction R as [|a b c S R IH]; [done|]. apply IH; destruct (adminAct_log _ _ S) as [->|(e & now & ->)]; try done.
  by apply Log_bound.
Qed.

(** ** Permissions *)

(** The middleware passes every authenticated administrator, whatever its
    role, for a permission without a case of its own: managing users and
    viewing metrics are never refused, and a user whose own list of addresses
    is empty or excludes the caller passes as well. *)
Theorem permissions_without_a_case (permission : string) (c : Caller) (now now' t : Time)
    (a : AdminAuthenticator) (u : AdminUser) :
  permission ∉ ["view_status"; "manage_buckets"; "run_tiering"; "manage_keys"; "rebuild_index"; "view_logs"]%string ->
  admin_Authenticate c now now' a = Ok u ->
  (RequirePermission permission c now now' t a).2 = Ok None.
Proof.
  intros N A. unfold RequirePermission. rewrite A. unfold refuses.
  rewrite !bool_decide_false by (intros ->; apply N; set_solver). done.
Qed.
End Admin.
