(* ===== verification/GatewayCore.v ===== *)
(** * What the gateway's handlers share

    Names and ranges of requests (s3.go), upload requests, checksums and
    metadata of objects (object_upload_request.go, object_checksum.go,
    object_metadata.go), customer keys (s3/ssec.go, object_ssec.go), response
    headers (object_response.go), and the monad of handlers: a state, and a
    value or the reply that ends the request.  Time formats and MD5 are
    parameters; XML bodies are kept as documents. *)

From S2P Require Import Prelude GoStrings GoText GoFloat GoJson Bolt Integrity MetadataStore Storage GatewayHttp.
From Stdlib Require Import Ascii String.
From stdpp Require Import base list strings gmap pretty.

#[local] Open Scope Z_scope.

(** ** Numbers in requests: strconv.ParseInt with base 10 and 64 bits *)

Fixpoint decimal (acc : Z) (s : string) : option Z :=
  match s with
  | EmptyString => Some acc
  | String c s =>
    let n := Z.of_nat (nat_of_ascii c) in
    if (48 <=? n) && (n <=? 57) then decimal (10 * acc + (n - 48)) s else None
  end.
Definition ParseInt (s : string) : option Z :=
  let '(neg, digits) := match s with
                        | String "+" r => (false, r)
                        | String "-" r => (true, r)
                        | _ => (false, s)
                        end in
  if bool_decide (digits = ""%string) then None
  else
    n ← decimal 0 digits;
    let n := if neg : bool then - n else n in
    if (int64_min <=? n) && (n <=? int64_max) then Some n else None.

(** ** Names *)

Definition isLowerAlnum (c : ascii) : bool :=
  let n := Z.of_nat (nat_of_ascii c) in ((48 <=? n) && (n <=? 57)) || ((97 <=? n) && (n <=? 122)).
Definition isBucketChar (c : ascii) : bool :=
  isLowerAlnum c || bool_decide (c = "."%char) || bool_decide (c = "-"%char).
(** [^[a-z0-9][a-z0-9.-]{1,61}[a-z0-9]$]. *)
Definition bucketNameRegex (s : string) : bool :=
  let l := list_ascii_of_string s in
  (3 <=? Z.of_nat (length l)) && (Z.of_nat (length l) <=? 63) && forallb isBucketChar l &&
  match head l, last l with Some a, Some b => isLowerAlnum a && isLowerAlnum b | _, _ => false end.
(** [(?:^|/)\.\.(?:$|/)]. *)
Definition pathTraversalPattern (s : string) : bool := bool_decide (".."%string ∈ Split slash s).
Definition controlCharPattern (s : string) : bool :=
  existsb (fun c => Z.of_nat (nat_of_ascii c) <? 32) (list_ascii_of_string s).
Definition encodedTraversalPattern (s : string) : bool :=
  let s := smap lowerc s in Contains s "%2e%2e" || Contains s "%2e." || Contains s "..%2e".

Definition validateBucketName (name : string) : bool :=
  negb ((Z.of_nat (String.length name) <? 3) || (63 <? Z.of_nat (String.length name))) &&
  bucketNameRegex name && negb (HasPrefix name "xn--") && negb (HasSuffix name "-s3alias").
Definition validateObjectKey (key : string) : bool :=
  negb (1024 <? Z.of_nat (String.length key)) && negb (pathTraversalPattern key) &&
  negb (controlCharPattern key).
Definition validateContentType `{GoUnicode} (contentType : string) : bool :=
  if bool_decide (contentType = ""%string) then true
  else
    let lower := ToLower contentType in
    forallb (fun b => negb (HasPrefix lower b))
      ["application/x-msdos-program"; "application/x-msdownload"]%string.

(** ** Ranges *)

Definition parseRangeHeader (rangeHeader : string) (totalSize : Z) : res (Z * Z) :=
  if negb (HasPrefix rangeHeader "bytes=") then Err "invalid range header format"
  else
    bounds ← match Split "-" (TrimPrefix rangeHeader "bytes=") with
      | [a; b] =>
        if bool_decide (a = ""%string) then
          match ParseInt b with
          | Some n => let start := wrap64 (totalSize - n) in
                      Ok (if start <? 0 then 0 else start, wrap64 (totalSize - 1))
          | None => Err "invalid range end"
          end
        else
          match ParseInt a with
          | Some start =>
            if bool_decide (b = ""%string) then Ok (start, wrap64 (totalSize - 1))
            else match ParseInt b with Some n => Ok (start, n) | None => Err "invalid range end" end
          | None => Err "invalid range start"
          end
      | _ => Err "invalid range specification"
      end;
    let '(start, last) := bounds in
    if (last <? start) || (totalSize <=? start) then Err "range not satisfiable"
    else Ok (start, if totalSize <=? last then wrap64 (totalSize - 1) else last).

(** ** Parameters of the handlers *)

Class HttpLib := {
  md5_Sum : bytes -> bytes;
  (** [t.Format(http.TimeFormat)] and [time.Parse(http.TimeFormat, s)]. *)
  httpTime : Time -> string;
  parseHttpTime : string -> option Time;
  rfc3339 : Time -> string
}.

(** ** Upload requests *)

Definition defaultObjectContentType : string := "application/octet-stream".
Definition objectContentType (r : Request) : string :=
  let ct := HeaderGet "Content-Type" r in
  if bool_decide (ct = ""%string) then defaultObjectContentType else ct.
Definition parseObjectContentType `{GoUnicode} (r : Request) : res string :=
  let ct := objectContentType r in
  if validateContentType ct then Ok ct else Err ("unsupported content type: " +:+ ct).

Definition tooLarge (size max : Z) : string :=
  "Object size " +:+ pretty size +:+ " exceeds maximum allowed size " +:+ pretty max.
Inductive uploadLength :=
| Sized (n : Z) (body : stream)
| TooLarge (size max : Z)
| LengthErr (e : string).
(** Without a Content-Length the body is read into memory. *)
Definition resolveUploadContentLength (maxUploadBytes contentLength : Z) (body : stream) : uploadLength :=
  let check n body := if (0 <? maxUploadBytes) && (maxUploadBytes <? n) then TooLarge n maxUploadBytes
                      else Sized n body in
  if 0 <=? contentLength then check contentLength body
  else
    let body := if 0 <? maxUploadBytes then LimitReader (wrap64 (maxUploadBytes + 1)) body else body in
    match sr_err body with
    | Some e => LengthErr ("failed to read request body: " +:+ e)
    | None => check (Z.of_nat (length (sr_data body))) (streamOf (sr_data body))
    end.

(** [x-amz-meta-] headers, by lower case name, their first value. *)
Definition parseUserMetadata `{GoUnicode} (r : Request) : gmap string string :=
  fold_left (fun m kv =>
      match kv.2 with
      | v :: _ => if HasPrefix (ToLower kv.1) "x-amz-meta-"
                  then <[TrimPrefix (ToLower kv.1) "x-amz-meta-" := v]> m else m
      | [] => m
      end) (map_to_list (r_Header r)) ∅.

(** ** Checksums of uploads

    The recorder sees every byte that is read from the body. *)

Section Checksums.
Context `{HttpLib} `{Sha256}.

Record objectChecksumRecorder := mkRecorder { ck_provided : string; ck_type : string }.
Definition newObjectChecksumRecorder (r : Request) : objectChecksumRecorder :=
  let crc := HeaderGet "x-amz-checksum-crc32c" r in
  let sha := HeaderGet "x-amz-checksum-sha256" r in
  let md := HeaderGet "x-amz-checksum-md5" r in
  let cmd := HeaderGet "Content-MD5" r in
  if negb (bool_decide (crc = ""%string)) then mkRecorder crc "crc32c"
  else if negb (bool_decide (sha = ""%string)) then mkRecorder sha "sha256"
  else if negb (bool_decide (md = ""%string)) then mkRecorder md "md5"
  else if negb (bool_decide (cmd = ""%string)) then mkRecorder cmd "md5"
  else mkRecorder "" "".
Definition computedChecksum (typ : string) (data : bytes) : string :=
  encode64 (if bool_decide (typ = "crc32c"%string) then beBytes 4 (crcSum crcCastagnoli data)
            else if bool_decide (typ = "md5"%string) then md5_Sum data else sha256_Sum256 data).
(** [Finalize]: the checksum and its type, or the message of a mismatch. *)
Definition Finalize (ck : objectChecksumRecorder) (data : bytes) : res (string * string) :=
  if bool_decide (ck_type ck = ""%string) then Ok (computedChecksum "sha256" data, "sha256"%string)
  else
    let stored := computedChecksum (ck_type ck) data in
    if bool_decide (ck_provided ck = stored) then Ok (stored, ck_type ck)
    else Err (smap upperc (ck_type ck) +:+ " checksum mismatch: expected " +:+ ck_provided ck +:+
              ", got " +:+ stored).

(** ** Customer keys *)

Definition hAlgorithm : string := "x-amz-server-side-encryption-customer-algorithm".
Definition hKey : string := "x-amz-server-side-encryption-customer-key".
Definition hKeyMD5 : string := "x-amz-server-side-encryption-customer-key-MD5".
Definition ParseSSECHeaders (r : Request) : res (option bytes) :=
  let algorithm := HeaderGet hAlgorithm r in
  let keyB64 := HeaderGet hKey r in
  let keyMD5B64 := HeaderGet hKeyMD5 r in
  if bool_decide (algorithm = ""%string) && bool_decide (keyB64 = ""%string) &&
     bool_decide (keyMD5B64 = ""%string) then Ok None
  else if negb (bool_decide (algorithm = "AES256"%string))
  then Err "invalid SSE-C algorithm: must be AES256"
  else if bool_decide (keyB64 = ""%string)
  then Err "SSE-C customer key is required when algorithm is specified"
  else
    match DecodeString keyB64 with
    | Ok clientKey =>
      if negb (length clientKey =? 32)%nat
      then Err "invalid SSE-C customer key: must be 256-bit (32 bytes)"
      else if bool_decide (keyMD5B64 = ""%string) then Err "SSE-C customer key MD5 is required"
      else
        match DecodeString keyMD5B64 with
        | Ok expectedMD5 =>
          if bool_decide (expectedMD5 = md5_Sum clientKey) then Ok (Some clientKey)
          else Err "SSE-C customer key MD5 mismatch"
        | _ => Err "invalid SSE-C customer key MD5: not valid base64"
        end
    | _ => Err "invalid SSE-C customer key: not valid base64"
    end.
Definition ComputeSSECKeySHA256 (clientKey : bytes) : string := hexEncode (sha256_Sum256 clientKey).
Definition objectSSECAlgorithm (used : bool) : string := if used then "AES256" else "".
End Checksums.

(** ** Metadata of a new object *)

Record activeObjectMetadataInput := mkActive {
  ai_Bucket : string; ai_Key : string; ai_Size : Z; ai_ContentType : string; ai_ETag : string;
  ai_UserMetadata : StringMap; ai_StorageTier : StorageTier; ai_Encrypted : bool; ai_VersionID : string;
  ai_Checksum : string; ai_ChecksumType : string; ai_EncryptedDEK : bytes; ai_SSECUsed : bool;
  ai_SSECKeySHA256 : string; ai_ServerSideEncryption : string; ai_Now : Time
}.
Definition buildActiveObjectMetadata (clock : Time) (uuid : string) (i : activeObjectMetadataInput)
  : CommonMetadata * ObjectMetadata :=
  let now := if IsZero (ai_Now i) then clock else ai_Now i in
  let versionID := if bool_decide (ai_VersionID i = ""%string) then uuid else ai_VersionID i in
  let tier := if ai_StorageTier i =? 0 then TierHot else ai_StorageTier i in
  (mkCommon (ai_Key i) (ai_Bucket i) (ai_Size i) (ai_ContentType i) "" (ai_ETag i) (ai_UserMetadata i)
     tier now now 0 now (ai_Encrypted i) false versionID,
   mkObject (ai_Key i) (ai_Bucket i) (ai_Size i) (ai_ContentType i) "" (ai_ETag i) (ai_Checksum i)
     (ai_ChecksumType i) (ai_UserMetadata i) tier now now 0 now (ai_Encrypted i) (ai_EncryptedDEK i)
     false "" versionID true "" "active" false 0 None false None (ai_SSECUsed i) (ai_SSECKeySHA256 i)
     (ai_ServerSideEncryption i)).
Definition with_Checksum (checksum typ : string) (m : ObjectMetadata) : ObjectMetadata :=
  mkObject (om_Key m) (om_Bucket m) (om_Size m) (om_ContentType m) (om_ContentEncoding m) (om_ETag m)
    checksum typ (om_UserMetadata m) (om_StorageTier m) (om_CreatedAt m) (om_ModifiedAt m)
    (om_AccessCount m) (om_LastAccessedAt m) (om_Encrypted m) (om_EncryptedDEK m) (om_Vectorized m)
    (om_VectorID m) (om_VersionID m) (om_IsLatest m) (om_PreviousVersion m) (om_ObjectStatus m)
    (om_TieringLocked m) (om_LockedTier m) (om_PipelineResults m) (om_DeleteMarker m) (om_RetainUntil m)
    (om_SSECUsed m) (om_SSECKeySHA256 m) (om_SSECAlgorithm m).

(** ** Replies *)

Notation headers := (gmap string string) (only parsing).
Definition setHeader (k v : string) (h : headers) : headers := <[CanonicalHeaderKey k := v]> h.

Record ListContent := mkContent {
  lc_Key : string; lc_LastModified : Time; lc_ETag : string; lc_Size : Z; lc_StorageClass : string
}.
Record PartEntry := mkPartEntry {
  pe_PartNumber : Z; pe_ETag : string; pe_LastModified : Time; pe_Size : Z; pe_Checksum : string
}.
Record UploadEntry := mkUploadEntry { ue_Key : string; ue_UploadID : string; ue_Initiated : Time }.

(** What a handler encodes as XML (JSON for a resumable session). *)
Inductive document :=
| ListBucketsDoc (buckets : list (string * Time))
| ListObjectsDoc (name prefix marker : string) (maxKeys : Z) (delimiter : string) (truncated : bool)
    (nextMarker : string) (contents : list ListContent) (commonPrefixes : list string)
| ListObjectsV2Doc (name prefix startAfter token nextToken : string) (keyCount maxKeys : Z)
    (delimiter : string) (truncated : bool) (contents : list ListContent) (commonPrefixes : list string)
| LocationDoc (location : string)
| VersioningDoc
| AclDoc (ownerID ownerName : string) (grants : list (string * string))
| DeleteDoc (deleted : list (string * string)) (errors : list (string * string * string))
| CopyDoc (lastModified etag : string)
| CreateUploadDoc (bucket key uploadID : string)
| CompleteUploadDoc (location bucket key etag : string)
| ListPartsDoc (bucket key uploadID : string) (maxParts : Z) (truncated : bool) (parts : list PartEntry)
| ListUploadsDoc (bucket : string) (maxUploads : Z) (truncated : bool) (uploads : list UploadEntry)
| SessionDoc (uploadID location : string).
Inductive payload := Body (b : bytes) | Doc (d : document).

(** An error of a handler: its text, and the sentinel of the metadata store
    that [errors.Is] finds in it. *)
Record herr := mkHErr { he_text : string; he_is : option string }.
Definition errText (s : string) : herr := mkHErr s None.
Definition ErrBucketNotEmpty : string := "bucket not empty".
Definition ErrTransactionFailed : string := "transaction failed".
Definition sentinels : list string :=
  [ErrKeyNotFound; ErrBucketNotFound; ErrBucketAlreadyExists; ErrBucketNotEmpty; ErrInvalidKey;
   ErrVersionNotFound; ErrQuotaExceeded; ErrTransactionFailed].
(** [fmt.Errorf(ctx + ": %w", err)] around an error of the metadata store. *)
Definition metaErr (ctx e : string) : herr :=
  mkHErr (ctx +:+ ": " +:+ e) (if bool_decide (e ∈ sentinels) then Some e else None).

(** How a request ends: an answer is written, perhaps with an error after it;
    writeError; an error before anything is written; a panic. *)
Inductive reply :=
| Answer (status : Z) (h : headers) (p : payload) (late : option herr)
| Refuse (status : Z) (code message : string)
| Fail (e : herr)
| Crash (why : string).

Definition classifyHandlerError (e : herr) : Z * string * string :=
  match he_is e with
  | Some s =>
    if bool_decide (s = ErrKeyNotFound) then (404, "NoSuchKey", "The specified key does not exist.")%string
    else if bool_decide (s = ErrBucketNotFound)
    then (404, "NoSuchBucket", "The specified bucket does not exist.")%string
    else if bool_decide (s = ErrBucketAlreadyExists)
    then (409, "BucketAlreadyExists", "The requested bucket name is not available.")%string
    else if bool_decide (s = ErrBucketNotEmpty)
    then (409, "BucketNotEmpty", "The bucket you tried to delete is not empty.")%string
    else if bool_decide (s = ErrInvalidKey) then (400, "InvalidKey", "The specified key is not valid.")%string
    else if bool_decide (s = ErrVersionNotFound)
    then (404, "NoSuchVersion", "The specified version does not exist.")%string
    else if bool_decide (s = ErrQuotaExceeded)
    then (429, "QuotaExceeded", "The bucket quota has been exceeded.")%string
    else (503, "TransactionFailed", "The metadata transaction could not be committed.")%string
  | None =>
    let msg := he_text e in
    if HasPrefix msg "access denied" then (403, "AccessDenied"%string, msg)
    else if HasPrefix msg "method not allowed"
    then (405, "MethodNotAllowed", "The specified method is not allowed against this resource.")%string
    else if HasPrefix msg "uploadId is required" || HasPrefix msg "missing"
    then (400, "InvalidRequest"%string, msg)
    else (500, "InternalError", "An internal error occurred")%string
  end.
(** What the client sees, after handleRequest has dealt with a returned error. *)
Definition settleReply (r : reply) : reply :=
  match r with
  | Fail e => let '(status, code, message) := classifyHandlerError e in Refuse status code message
  | r => r
  end.
Definition statusOf (r : reply) : Z :=
  match settleReply r with Answer s _ _ _ => s | Refuse s _ _ => s | Fail _ | Crash _ => 0 end.

(** ** Response headers of an object *)

Section ResponseHeaders.
Context `{HttpLib}.

Record objectResponseHeaderOptions := mkOptions {
  ro_ContentLength : Z; ro_ETag : string; ro_AcceptRanges : bool; ro_CacheControl : string;
  ro_CacheStatus : string; ro_ContentRange : string; ro_IncludeStorageClass : bool
}.
Definition setUnlessEmpty (k v : string) (h : headers) : headers :=
  if bool_decide (v = ""%string) then h else setHeader k v h.
Definition setObjectEncryptionResponseHeaders (r : Request) (m : ObjectMetadata) (h : headers) : headers :=
  if om_SSECUsed m then setUnlessEmpty hKeyMD5 (HeaderGet hKeyMD5 r) (setHeader hAlgorithm "AES256" h)
  else if om_Encrypted m then setHeader "x-amz-server-side-encryption" "AES256" h else h.
Definition checksumHeader (typ : string) : option string :=
  if bool_decide (typ ∈ ["crc32c"; "sha256"; "md5"]%string) then Some ("x-amz-checksum-" +:+ typ) else None.
Definition setChecksumResponseHeaders (r : Request) (m : ObjectMetadata) (h : headers) : headers :=
  if negb (bool_decide (HeaderGet "x-amz-checksum-mode" r = "ENABLED"%string)) &&
     (bool_decide (om_Checksum m = ""%string) || bool_decide (om_ChecksumType m = ""%string)) then h
  else match checksumHeader (om_ChecksumType m) with Some k => setHeader k (om_Checksum m) h | None => h end.
Definition writeObjectResponseHeaders (r : Request) (m : ObjectMetadata) (o : objectResponseHeaderOptions)
    (h : headers) : headers :=
  let etag := if bool_decide (ro_ETag o = ""%string) then quoted (om_ETag m) else ro_ETag o in
  let h := setHeader "Content-Type" (om_ContentType m) h in
  let h := setHeader "Content-Length" (pretty (ro_ContentLength o)) h in
  let h := setHeader "ETag" etag h in
  let h := setHeader "Last-Modified" (httpTime (om_ModifiedAt m)) h in
  let h := if ro_AcceptRanges o then setHeader "Accept-Ranges" "bytes" h else h in
  let h := setUnlessEmpty "Cache-Control" (ro_CacheControl o) h in
  let h := setUnlessEmpty "X-Cache" (ro_CacheStatus o) h in
  let h := setUnlessEmpty "Content-Range" (ro_ContentRange o) h in
  let h := if ro_IncludeStorageClass o
           then setHeader "X-Amz-Storage-Class" (tierString (om_StorageTier m)) h else h in
  let h := setObjectEncryptionResponseHeaders r m h in
  let h := fold_left (fun h kv => setHeader ("X-Amz-Meta-" +:+ kv.1) kv.2 h)
             (map_to_list (default ∅ (om_UserMetadata m))) h in
  setChecksumResponseHeaders r m h.
End ResponseHeaders.
