(* ===== verification/GatewayObjects.v ===== *)
(** * Objects through the gateway (internal/gateway/object_service.go)

    Put, get, head, delete, multi-delete and copy, over the metadata store,
    the tiers, the object cache and the encryption coordinator.  A handler is
    a function on the gateway's state that yields a value or the reply that
    ends the request.  What [requireIdentity] and [requestUserID] answer for
    the request is an argument (GatewayProvider has them), as are fresh UUIDs,
    clock readings and outcomes of I/O; the client takes everything that is
    written to it.  The notifications sent after the work is done (tiering,
    vector and text index, audit log, events, metrics) are left out, the
    background tasks are recorded. *)

From S2P Require Import Prelude GoIO GoStrings GoText GoFloat GoJson Bolt CryptoLib Stream StreamProofs Keys Token.
From S2P Require Import Coordinator Cache Integrity MetadataStore Storage GatewayHttp GatewayCore.
From Stdlib Require Import Ascii String.
From stdpp Require Import base list strings gmap pretty.

#[local] Open Scope Z_scope.

Definition ActionRead : string := "read".
Definition ActionWrite : string := "write".
Definition ActionDelete : string := "delete".
Definition ActionAdmin : string := "admin".

(** Who sent the request: [requireIdentity] by action, bucket and key, and
    the user's id. *)
Record Caller := mkCaller { who_may : string -> string -> string -> res unit; who_userID : string }.

Record objectWriteTaskRequest := mkWriteTask {
  wt_Bucket : string; wt_Key : string; wt_ContentType : string; wt_Metadata : StringMap;
  wt_UserID : string; wt_VersionID : string; wt_SkipVectorize : bool; wt_SkipFTS : bool
}.

(** The configuration that the handlers read. *)
Record Config := mkConfig {
  cf_CryptoEnabled : bool;
  cf_AnonymousRead : bool;
  cf_MaxUploadBytes : Z;
  cf_opa : option (OpaInput -> res bool);
  cf_uploadsDir : list string;        (** of multipart uploads *)
  cf_resumableDir : list string;
  cf_DefaultExpiry : Duration
}.

Section Gateway.
Context {B : Type} `{BackendStorage B} `{Bolt} `{AnyJson} `{MetaText} `{CryptoLib, CryptoServices}.

Record Gateway := mkGateway {
  g_metadata : MetadataStore;
  g_store : TieredObjectStore B;
  g_cache : option ObjectCache;
  g_crypto : option svc;              (** the coordinator's services *)
  g_heap : heap;
  g_tasks : list objectWriteTaskRequest;
  g_disk : tree                       (** the directories of uploads *)
}.
Definition set_metadata m (g : Gateway) :=
  mkGateway m (g_store g) (g_cache g) (g_crypto g) (g_heap g) (g_tasks g) (g_disk g).
Definition set_store s (g : Gateway) :=
  mkGateway (g_metadata g) s (g_cache g) (g_crypto g) (g_heap g) (g_tasks g) (g_disk g).
Definition set_cache c (g : Gateway) :=
  mkGateway (g_metadata g) (g_store g) c (g_crypto g) (g_heap g) (g_tasks g) (g_disk g).
Definition set_crypto c h (g : Gateway) :=
  mkGateway (g_metadata g) (g_store g) (g_cache g) c h (g_tasks g) (g_disk g).
Definition set_disk d (g : Gateway) :=
  mkGateway (g_metadata g) (g_store g) (g_cache g) (g_crypto g) (g_heap g) (g_tasks g) d.
Definition addTask t (g : Gateway) :=
  mkGateway (g_metadata g) (g_store g) (g_cache g) (g_crypto g) (g_heap g) (g_tasks g ++ [t]) (g_disk g).

(** ** The monad of handlers *)

Definition Handler (A : Type) : Type := Gateway -> Gateway * (A + reply).
#[export] Instance handler_ret : MRet Handler := fun A a g => (g, inl a).
#[export] Instance handler_bind : MBind Handler := fun A C f m g =>
  match m g with
  | (g, inl a) => f a g
  | (g, inr r) => (g, inr r)
  end.
Definition stop {A} (r : reply) : Handler A := fun g => (g, inr r).
Definition gets {A} (f : Gateway -> A) : Handler A := fun g => (g, inl (f g)).
Definition modify (f : Gateway -> Gateway) : Handler unit := fun g => (f g, inl tt).
Definition onMetadata {A} (f : MetadataStore -> MetadataStore * A) : Handler A := fun g =>
  let '(m, a) := f (g_metadata g) in (set_metadata m g, inl a).
Definition onStore {A} (f : TieredObjectStore B -> TieredObjectStore B * A) : Handler A := fun g =>
  let '(s, a) := f (g_store g) in (set_store s g, inl a).
Definition onDisk {A} (f : tree -> tree * A) : Handler A := fun g =>
  let '(t, a) := f (g_disk g) in (set_disk t g, inl a).
(** The value of a call, or the reply its error leads to. *)
Definition orStop {A} (m : res A) (k : string -> reply) : Handler A :=
  match m with Ok a => mret a | Err e => stop (k e) | Panic w => stop (Crash w) end.
Definition failWith (ctx e : string) : reply := Fail (errText (ctx +:+ ": " +:+ e)).
Definition run (h : Handler reply) (g : Gateway) : Gateway * reply :=
  match h g with (g, inl r) => (g, r) | (g, inr r) => (g, r) end.

Definition needMethod (m : string) (r : Request) : Handler unit :=
  if bool_decide (r_Method r = m) then mret tt else stop (Fail (errText "method not allowed")).
Definition isPresignedURL (r : Request) : bool := negb (bool_decide (QueryGet "X-Amz-Credential" r = ""%string)).
Definition requireAccess (c : Caller) (ctx action bkt key : string) : Handler unit :=
  orStop (who_may c action bkt key) (failWith ctx).

(** ** Encryption on the way to the store *)

(** A reader as [io.Copy] sees it, and the buffers it passes to [Read]. *)
Definition toReader (d : stream) : reader :=
  mkReader (sr_data d) (match sr_err d with None => EOF | Some e => EFail e end) [].
Definition copyBufs (n : nat) : list nat := repeat 32768%nat (21 * n + 22).
Definition drained (x : option (res bytes)) : stream :=
  match x with
  | Some (Ok b) => streamOf b
  | Some (Err e) | Some (Panic e) => mkStream [] (Some e)
  | None => mkStream [] (Some "no progress"%string)
  end.
Definition sealed (h : heap) (d : stream) (e : streamingEncryptReader) : stream :=
  drained (drain (encRead 3 h) (copyBufs (length (sr_data d))) e []).
Definition opened (h : heap) (d : stream) (e : streamingDecryptReader) : stream :=
  drained (drain (decRead (2 + length (sr_data d)) h) (copyBufs (length (sr_data d))) e []).

(** What is stored instead of the body. *)
Record encoded := mkEncoded {
  en_data : stream; en_metadata : bytes; en_encrypted : bool; en_size : Z; en_ssec : bool; en_keySHA : string
}.

Section Handlers.
Context `{GoUnicode} `{HttpLib} `{Sha256}.
Context (cfg : Config).

(** [EncryptWithClientKey], then [zeroClientKey]: the reader is drained by the
    store, after both. *)
Definition encryptForClient (clientKey : bytes) (nonce : res bytes) (n : Z) (body : stream) : Handler encoded :=
  let keySHA := ComputeSSECKeySHA256 clientKey in
  h ← gets g_heap;
  let '(h, loc) := alloc h clientKey in
  let enc := EncryptWithClientKey (toReader body) loc n nonce h in
  let h := clearBytes h loc in
  s ← gets g_crypto;
  _ ← modify (set_crypto s h);
  '(reader, metadata, size) ← orStop enc (fun _ => Fail (errText "SSE-C encryption failed"));
  mret (mkEncoded (sealed h body reader) metadata true size true keySHA).

(** [EncryptOperation]. *)
Definition encryptForUser (op : OpEnv) (userID bkt key : string) (n : Z) (body : stream) (s : svc)
  : Handler encoded :=
  h ← gets g_heap;
  let '(h, s, enc) := EncryptOperation (cf_opa cfg) op userID bkt key (toReader body) n h s in
  _ ← modify (set_crypto (Some s) h);
  '(reader, _, metadata, size) ← orStop enc (failWith "encryption failed");
  mret (mkEncoded (sealed h body reader) metadata true size false "").

Record PutEnv := mkPutEnv {
  pe_now : Time; pe_etag : string; pe_version : string; pe_nonce : res bytes; pe_op : OpEnv;
  pe_io : backendIO; pe_undo : backendIO; pe_meta : metaIO
}.

Definition encodeUpload (env : PutEnv) (clientKey : option bytes) (userID bkt key : string) (n : Z)
    (body : stream) : Handler encoded :=
  crypto ← gets g_crypto;
  match clientKey, crypto with
  | Some k, Some _ => encryptForClient k (pe_nonce env) n body
  | Some _, None =>
    stop (Fail (errText "SSE-C encryption requested but encryption services are not enabled"))
  | None, Some s =>
    if cf_CryptoEnabled cfg then encryptForUser (pe_op env) userID bkt key n body s
    else mret (mkEncoded body [] false n false "")
  | None, None => mret (mkEncoded body [] false n false "")
  end.

(** [putObjectMetadataAfterStore] and [putStoredObjectWithMetadata]. *)
Definition putObjectMetadataAfterStore (mio : metaIO) (undo : backendIO) (bkt key : string)
    (tier : StorageTier) (m : ObjectMetadata) : Handler ObjectMetadata :=
  '(m, r) ← onMetadata (fun s =>
     let '(s, m, r) := MetadataStore.PutObject (mio_uuid mio) (mio_now mio) (mio_now2 mio) (mio_wal mio)
                         (mio_commit mio) bkt key m s in (s, (m, r)));
  match r with
  | Ok _ => mret m
  | Err e => _ ← onStore (ts_Delete undo bkt key tier); stop (Fail (metaErr "failed to store metadata" e))
  | Panic w => stop (Crash w)
  end.
Definition putStoredObjectWithMetadata (io : backendIO) (mio : metaIO) (undo : backendIO) (bkt key : string)
    (data : stream) (size : Z) (tier : StorageTier) (m : ObjectMetadata) (storeErrMessage : string)
  : Handler ObjectMetadata :=
  r ← onStore (ts_Put io bkt key data size tier);
  _ ← orStop r (failWith storeErrMessage);
  putObjectMetadataAfterStore mio undo bkt key tier m.

Definition writeTask (r : Request) (bkt key contentType : string) (metadata : StringMap)
    (userID versionID : string) : objectWriteTaskRequest :=
  mkWriteTask bkt key contentType metadata userID versionID
    (bool_decide (HeaderGet "X-Vectorize" r = "false"%string))
    (bool_decide (HeaderGet "X-FTS-Index" r = "false"%string)).

Definition putHeaders (r : Request) (etag versionID checksum typ : string) (e : encoded) : headers :=
  let h := setHeader "x-amz-version-id" versionID (setHeader "ETag" (quoted etag) ∅) in
  let h := if en_ssec e then setUnlessEmpty hKeyMD5 (HeaderGet hKeyMD5 r) (setHeader hAlgorithm "AES256" h)
           else if en_encrypted e then setHeader "x-amz-server-side-encryption" "AES256" h else h in
  match checksumHeader typ with Some k => setHeader k checksum h | None => h end.

(** [handlePutObject]; a presigned request is not treated differently, and
    its method has just been checked. *)
Definition handlePutObject (c : Caller) (env : PutEnv) (r : Request) (contentLength : Z) (body : stream)
    (bkt key : string) : Handler reply :=
  _ ← needMethod "PUT" r;
  _ ← requireAccess c "access denied" ActionWrite bkt key;
  contentType ← orStop (parseObjectContentType r) (fun e => Fail (errText e));
  '(n, body) ← match resolveUploadContentLength (cf_MaxUploadBytes cfg) contentLength body with
    | Sized n body => mret (n, body)
    | TooLarge n max => stop (Refuse 413 "EntityTooLarge" (tooLarge n max))
    | LengthErr e => stop (Fail (errText e))
    end;
  let userMeta := parseUserMetadata r in
  let ck := newObjectChecksumRecorder r in
  clientKey ← orStop (ParseSSECHeaders r) (Refuse 400 "InvalidRequest");
  e ← encodeUpload env clientKey (who_userID c) bkt key n body;
  let '(common, meta) := buildActiveObjectMetadata (pe_now env) (pe_version env)
    (mkActive bkt key n contentType (pe_etag env) (Some userMeta) TierHot (en_encrypted e) "" "" ""
       (en_metadata e) (en_ssec e) (en_keySHA e) (objectSSECAlgorithm (en_ssec e)) 0) in
  stored ← onStore (ts_Put (pe_io env) bkt key (en_data e) (en_size e) TierHot);
  _ ← orStop stored (failWith "failed to store object");
  '(checksum, typ) ← match Finalize ck (sr_data body) with
    | Ok x => mret x
    | Err e => _ ← onStore (ts_Delete (pe_undo env) bkt key TierHot); stop (Refuse 400 "BadDigest" e)
    | Panic w => stop (Crash w)
    end;
  _ ← putObjectMetadataAfterStore (pe_meta env) (pe_undo env) bkt key TierHot (with_Checksum checksum typ meta);
  _ ← modify (addTask (writeTask r bkt key contentType (Some userMeta) (who_userID c) (cm_VersionID common)));
  mret (Answer 200 (putHeaders r (pe_etag env) (cm_VersionID common) checksum typ e) (Body []) None).

(** ** Reading *)

Definition isBucketPublicRead (bkt : string) : Handler bool :=
  if cf_AnonymousRead cfg then mret true
  else gets (fun g => match GetBucket bkt (g_metadata g) with
                      | Ok info => bool_decide (bi_ACL info ∈ ["public-read"; "public-read-write"]%string)
                      | _ => false
                      end).

Definition isClientDisconnected (e : string) : bool :=
  bool_decide (e = "context canceled"%string) || Contains e "broken pipe" || Contains e "connection reset" ||
  Contains e "client disconnected" || Contains e "use of closed connection".

Definition missingSSECKeyMessage : string := "Object encrypted with SSE-C requires customer key headers".
Definition mismatchSSECKeyMessage : string :=
  "The provided SSE-C key does not match the key used to encrypt the object".
Definition validateObjectSSECKey (r : Request) (m : ObjectMetadata) (invalidKeyMessage : string) : Handler bytes :=
  match ParseSSECHeaders r with
  | Err _ => stop (Refuse 400 "InvalidRequest" invalidKeyMessage)
  | Panic w => stop (Crash w)
  | Ok None => stop (Refuse 403 "AccessDenied" missingSSECKeyMessage)
  | Ok (Some clientKey) =>
    if bool_decide (ComputeSSECKeySHA256 clientKey = om_SSECKeySHA256 m) then mret clientKey
    else stop (Refuse 403 "AccessDenied" mismatchSSECKeyMessage)
  end.

Record GetEnv := mkGetEnv {
  ge_io : backendIO; ge_op : OpEnv; ge_cacheAge : Time; ge_cacheUsed : Time; ge_cacheSet : Time * Time
}.

Definition internalError : reply :=
  Refuse 500 "InternalError" "An internal error occurred while processing the object".

(** [DecryptWithClientKey], then [zeroClientKey], then the reads. *)
Definition decryptForClient (clientKey : bytes) (m : ObjectMetadata) (data : stream) : Handler stream :=
  h ← gets g_heap;
  s ← gets g_crypto;
  match s with
  | Some _ =>
    if bool_decide (om_EncryptedDEK m = []) then mret data
    else
      let '(h, loc) := alloc h clientKey in
      let dec := DecryptWithClientKey (toReader data) loc (om_EncryptedDEK m) (om_Size m) h in
      let h := clearBytes h loc in
      _ ← modify (set_crypto s h);
      reader ← orStop dec (fun _ => internalError);
      mret (opened h data reader)
  | None => mret data
  end.

(** [DecryptOperation]; with the fallback header the stored bytes are read
    first and returned as they are when it fails. *)
Definition decryptForUser (op : OpEnv) (userID bkt key : string) (r : Request) (m : ObjectMetadata)
    (data : stream) (s : svc) : Handler (stream * Z * headers) :=
  let rawFallback := bool_decide (HeaderGet "x-amz-raw-decryption-fallback" r = "true"%string) in
  data ← (if rawFallback then
            let raw := LimitReader (cf_MaxUploadBytes cfg) data in
            match sr_err raw with
            | Some _ => stop internalError
            | None => mret (streamOf (sr_data raw))
            end
          else mret data);
  h ← gets g_heap;
  let '(h, s, dec) := DecryptOperation (cf_opa cfg) op userID bkt key (toReader data) "" (om_EncryptedDEK m) h s in
  _ ← modify (set_crypto (Some s) h);
  match dec with
  | Ok reader => mret (opened h data reader, om_Size m, ∅)
  | Err _ =>
    if rawFallback then mret (data, Z.of_nat (length (sr_data data)), setHeader "x-amz-decryption-fallback" "true" ∅)
    else stop internalError
  | Panic w => stop (Crash w)
  end.

(** The body of the object, its length and headers set on the way. *)
Definition decodeObject (c : Caller) (env : GetEnv) (r : Request) (bkt key : string) (m : ObjectMetadata)
    (data : stream) : Handler (stream * Z * headers) :=
  crypto ← gets g_crypto;
  if om_SSECUsed m then
    clientKey ← validateObjectSSECKey r m "Invalid SSE-C customer key headers";
    data ← decryptForClient clientKey m data;
    mret (data, om_Size m, ∅)
  else
    match crypto with
    | Some s =>
      if om_Encrypted m && negb (bool_decide (om_EncryptedDEK m = []))
      then decryptForUser (ge_op env) (who_userID c) bkt key r m data s
      else mret (data, om_Size m, ∅)
    | None => mret (data, om_Size m, ∅)
    end.

(** The conditional headers: [Some] reply ends the request. *)
Definition conditional (r : Request) (m : ObjectMetadata) : option reply :=
  let etag := quoted (om_ETag m) in
  let ifNoneMatch := HeaderGet "If-None-Match" r in
  let ifMatch := HeaderGet "If-Match" r in
  let ifModifiedSince := HeaderGet "If-Modified-Since" r in
  if negb (bool_decide (ifNoneMatch = ""%string)) &&
     (bool_decide (ifNoneMatch = "*"%string) || bool_decide (ifNoneMatch = etag))
  then Some (Answer 304 ∅ (Body []) None)
  else if negb (bool_decide (ifMatch = ""%string)) && negb (bool_decide (ifMatch = "*"%string)) &&
          negb (bool_decide (ifMatch = etag))
  then Some (Refuse 412 "PreconditionFailed" "ETag does not match")
  else if bool_decide (ifModifiedSince = ""%string) then None
  else match parseHttpTime ifModifiedSince with
       | Some t => if After (om_ModifiedAt m) t then None else Some (Answer 304 ∅ (Body []) None)
       | None => None
       end.

Definition cacheable (r : Request) (m : ObjectMetadata) : bool :=
  (om_Size m <? 1048576) && bool_decide (HeaderGet "Range" r = ""%string) && negb (om_Encrypted m).

Definition noSuchKey (key : string) : reply := Refuse 404 "NoSuchKey" ("Object '" +:+ key +:+ "' not found").

(** What is left to deliver: the part that the Range header names. *)
Definition rangeOf (r : Request) (m : ObjectMetadata) (data : stream) (contentLength : Z)
  : Handler (stream * Z * string * Z) :=
  let rangeHeader := HeaderGet "Range" r in
  if bool_decide (rangeHeader = ""%string) then mret (data, contentLength, ""%string, 200)
  else
    '(start, last) ← orStop (parseRangeHeader rangeHeader (om_Size m)) (Refuse 416 "InvalidRange");
    mret (LimitReader (last - start + 1) (mkStream (drop (Z.to_nat start) (sr_data data)) (sr_err data)),
          last - start + 1,
          ("bytes " +:+ pretty start +:+ "-" +:+ pretty last +:+ "/" +:+ pretty (om_Size m))%string, 206).

Definition streamError (e : option string) : option herr :=
  match e with
  | Some e => if isClientDisconnected e then None else Some (errText ("failed to stream object body: " +:+ e))
  | None => None
  end.

Definition handleGetObject (c : Caller) (env : GetEnv) (r : Request) (bkt key : string) : Handler reply :=
  _ ← needMethod "GET" r;
  public ← isBucketPublicRead bkt;
  _ ← (if negb (isPresignedURL r) && negb public then requireAccess c "access denied" ActionRead bkt key
       else mret tt);
  found ← gets (fun g => MetadataStore.GetObject bkt key (g_metadata g));
  m ← orStop found (fun _ => noSuchKey key);
  if om_DeleteMarker m then mret (Refuse 404 "NoSuchKey" "Object has been deleted")
  else
  match conditional r m with
  | Some reply => mret reply
  | None =>
  let etag := quoted (om_ETag m) in
  let answer n range cacheStatus h := writeObjectResponseHeaders r m
        (mkOptions n etag true "max-age=3600" cacheStatus range false) h in
  cache ← gets g_cache;
  cached ← match cache with
    | Some oc => if cacheable r m
                 then let '(oc, v) := oc_Get (ge_cacheAge env) (ge_cacheUsed env) (bkt +:+ "/" +:+ key) oc in
                      _ ← modify (set_cache (Some oc)); mret v
                 else mret None
    | None => mret None
    end;
  match cached with
  | Some data => mret (Answer 200 (answer (Z.of_nat (length data)) "" "HIT" ∅) (Body data) None)
  | None =>
  opening ← gets (fun g => ts_Get (ge_io env) bkt key (om_StorageTier m) (g_store g));
  data ← orStop opening (fun _ => noSuchKey key);
  '(data, n, h) ← decodeObject c env r bkt key m data;
  '(data, n, range, status) ← rangeOf r m data n;
  cache ← gets g_cache;
  let h := answer n range (match cache with Some _ => "MISS" | None => "" end) h in
  let toClient := Answer status h (Body (sr_data data)) (streamError (sr_err data)) in
  match cache with
  | Some oc =>
    if cacheable r m then
      let first := LimitReader 1048576 data in
      match sr_err first with
      | None =>
        _ ← modify (set_cache (Some (oc_Set (ge_cacheSet env).1 (ge_cacheSet env).2 (bkt +:+ "/" +:+ key)
                                       (sr_data first) oc)));
        mret (Answer status h (Body (sr_data first)) None)
      | Some _ => mret (Answer status h (Body []) (streamError (sr_err data)))
      end
    else mret toClient
  | None => mret toClient
  end
  end end.

Definition handleHeadObject (c : Caller) (r : Request) (bkt key : string) : Handler reply :=
  _ ← needMethod "HEAD" r;
  public ← isBucketPublicRead bkt;
  _ ← (if public : bool then mret tt else requireAccess c "access denied" ActionRead bkt key);
  found ← gets (fun g => MetadataStore.GetObject bkt key (g_metadata g));
  m ← orStop found (fun e => Fail (metaErr "object not found" e));
  _ ← (if om_SSECUsed m then _ ← validateObjectSSECKey r m "Invalid SSE-C customer key headers"; mret tt
       else mret tt);
  mret (Answer 200 (writeObjectResponseHeaders r m (mkOptions (om_Size m) "" false "" "" "" true) ∅) (Body []) None).

(** ** Removing and copying *)

Record DeleteEnv := mkDeleteEnv {
  de_now : Time; de_etag : string; de_version : string; de_io : backendIO; de_commit : res unit; de_meta : metaIO
}.

Definition deleteMarker (env : DeleteEnv) (bkt key : string) (m : ObjectMetadata) : ObjectMetadata :=
  mkObject key bkt 0 "application/octet-stream" "" (de_etag env) "" "" None (om_StorageTier m) (de_now env)
    (de_now env) 0 0 false [] false "" (de_version env) true "" "delete-marker" false 0 None true None false "" "".

(** Data, cache entry and record of an object. *)
Definition removeObject (env : DeleteEnv) (bkt key : string) (m : ObjectMetadata)
  : Handler (res unit * res unit) :=
  r ← onStore (ts_Delete (de_io env) bkt key (om_StorageTier m));
  match r with
  | Ok _ =>
    _ ← modify (fun g => set_cache (oc_Delete (bkt +:+ "/" +:+ key) <$> g_cache g) g);
    d ← onMetadata (MetadataStore.DeleteObject (de_commit env) bkt key);
    mret (Ok tt, d)
  | e => mret (e, Ok tt)
  end.

Definition retained (env : DeleteEnv) (r : Request) (m : ObjectMetadata) : bool :=
  negb (bool_decide (HeaderGet "x-amz-bypass-governance-retention" r = "true"%string)) &&
  match om_RetainUntil m with Some t => After t (de_now env) | None => false end.

Definition handleDeleteObject (c : Caller) (env : DeleteEnv) (r : Request) (bkt key : string) : Handler reply :=
  _ ← needMethod "DELETE" r;
  _ ← requireAccess c "access denied" ActionDelete bkt key;
  found ← gets (fun g => MetadataStore.GetObject bkt key (g_metadata g));
  m ← orStop found (fun _ => Answer 204 ∅ (Body []) None);
  if retained env r m then mret (Refuse 403 "ObjectLocked" "Object is under retention lock")
  else
    let softDelete := negb (bool_decide (HeaderGet "x-amz-delete-marker" r = "false"%string)) in
    versioningEnabled ← gets (fun g => match GetBucket bkt (g_metadata g) with
                                       | Ok info => bi_Versioning info | _ => false end);
    if softDelete && versioningEnabled then
      '(marker, p) ← onMetadata (fun s =>
         let '(s, m, p) := MetadataStore.PutObject (mio_uuid (de_meta env)) (mio_now (de_meta env))
           (mio_now2 (de_meta env)) (mio_wal (de_meta env)) (mio_commit (de_meta env)) bkt key
           (deleteMarker env bkt key m) s in (s, (m, p)));
      _ ← orStop p (fun e => Fail (metaErr "failed to create delete marker" e));
      mret (Answer 204 (setHeader "x-amz-version-id" (om_VersionID marker)
                          (setHeader "x-amz-delete-marker" "true" ∅)) (Body []) None)
    else
      '(s, d) ← removeObject env bkt key m;
      _ ← orStop s (failWith "failed to delete object data");
      _ ← orStop d (fun e => Fail (metaErr "failed to delete object metadata" e));
      mret (Answer 204 ∅ (Body []) None).

(** [handleDeleteObjects]: each key on its own; [keys] and [quiet] are the XML
    body, [None] when it does not parse. *)
Record DeleteResult := mkDeleteResult {
  dr_Deleted : list (string * string); dr_Error : list (string * string * string)
}.
Definition deleteOne (env : DeleteEnv) (quiet : bool) (bkt key : string) (acc : DeleteResult)
  : Handler DeleteResult :=
  let failed code msg := mret (mkDeleteResult (dr_Deleted acc) (dr_Error acc ++ [(key, code, msg)])) in
  found ← gets (fun g => MetadataStore.GetObject bkt key (g_metadata g));
  match found with
  | Panic w => stop (Crash w)
  | Err _ => failed "NoSuchKey"%string ("Object '" +:+ key +:+ "' not found")%string
  | Ok m =>
    '(s, d) ← removeObject env bkt key m;
    match s, d with
    | Panic w, _ | _, Panic w => stop (Crash w)
    | Err e, _ => failed "InternalError"%string ("Failed to delete object data: " +:+ e)%string
    | Ok _, Err e => failed "InternalError"%string ("Failed to delete object metadata: " +:+ e)%string
    | Ok _, Ok _ =>
      mret (if quiet then acc
            else mkDeleteResult (dr_Deleted acc ++ [(key, om_VersionID m)]) (dr_Error acc))
    end
  end.
Fixpoint deleteEach (quiet : bool) (bkt : string) (keys : list (DeleteEnv * string)) (acc : DeleteResult)
  : Handler DeleteResult :=
  match keys with
  | [] => mret acc
  | (env, key) :: keys => acc ← deleteOne env quiet bkt key acc; deleteEach quiet bkt keys acc
  end.
Definition handleDeleteObjects (r : Request) (bkt : string)
    (parsed : res (list (DeleteEnv * string) * bool)) : Handler reply :=
  _ ← needMethod "POST" r;
  '(keys, quiet) ← orStop parsed (failWith "failed to parse delete request");
  acc ← deleteEach quiet bkt keys (mkDeleteResult [] []);
  mret (Answer 200 ∅ (Doc (DeleteDoc (dr_Deleted acc) (dr_Error acc))) None).

Definition handleCopyObject (c : Caller) (env : PutEnv) (get : backendIO) (r : Request) (bkt key : string)
  : Handler reply :=
  _ ← needMethod "PUT" r;
  _ ← requireAccess c "access denied" ActionWrite bkt key;
  let copySource := HeaderGet "x-amz-copy-source" r in
  if bool_decide (copySource = ""%string) then stop (Fail (errText "missing x-amz-copy-source header"))
  else
  match cut slash (TrimPrefix copySource "/") with
  | (_, None) => stop (Fail (errText "invalid copy source format, expected /bucket/key"))
  | (srcBucket, Some srcKey) =>
    _ ← requireAccess c "access denied on source" ActionRead srcBucket srcKey;
    let notFound := ("Source object '" +:+ srcBucket +:+ "/" +:+ srcKey +:+ "' not found")%string in
    found ← gets (fun g => MetadataStore.GetObject srcBucket srcKey (g_metadata g));
    src ← orStop found (fun _ => Refuse 404 "NoSuchKey" notFound);
    if om_DeleteMarker src then mret (Refuse 404 "NoSuchKey" "Source object has been deleted")
    else
      opening ← gets (fun g => ts_Get get srcBucket srcKey (om_StorageTier src) (g_store g));
      data ← orStop opening (failWith "failed to read source object");
      let userMeta := parseUserMetadata r ∪ default ∅ (om_UserMetadata src) in
      let ct := HeaderGet "Content-Type" r in
      let contentType := if bool_decide (ct = ""%string) then om_ContentType src else ct in
      let meta := (buildActiveObjectMetadata (pe_now env) ""
        (mkActive bkt key (om_Size src) contentType (pe_etag env) (Some userMeta) TierHot (om_Encrypted src)
           (pe_version env) "" "" [] false "" "" 0)).2 in
      _ ← putStoredObjectWithMetadata (pe_io env) (pe_meta env) (pe_undo env) bkt key data (om_Size src)
            TierHot meta "failed to copy object";
      mret (Answer 200
              (setHeader "x-amz-copy-source-version-id" (om_VersionID src)
                 (setHeader "x-amz-version-id" (pe_version env) (setHeader "ETag" (quoted (pe_etag env)) ∅)))
              (Doc (CopyDoc (rfc3339 (pe_now env)) (quoted (pe_etag env)))) None)
  end.
End Handlers.
End Gateway.
