(* ===== verification/GatewayBuckets.v ===== *)
(** * Buckets through the gateway (internal/gateway/bucket_service.go, bucket_list.go)

    Creating, deleting, heading and listing buckets, and their ACLs.  Parsing
    an XML body is an argument: [None] when there is no body or it does not
    parse. *)

From S2P Require Import Prelude GoIO GoStrings GoText GoFloat GoJson Bolt CryptoLib Coordinator Cache.
From S2P Require Import Integrity MetadataStore Storage GatewayHttp GatewayCore GatewayObjects.
From Stdlib Require Import Ascii String.
From stdpp Require Import base list strings gmap.

#[local] Open Scope Z_scope.

Definition defaultOwnerID : string := "cipherlake-owner".
Definition objectListContent (m : ObjectMetadata) : ListContent :=
  mkContent (om_Key m) (om_ModifiedAt m) (om_ETag m) (om_Size m) (tierString (om_StorageTier m)).
(** The part of a key up to the delimiter after the prefix. *)
Definition commonPrefixForObject (key prefix delimiter : string) : option string :=
  if bool_decide (delimiter = ""%string) || negb (HasPrefix key prefix) then None
  else match Index (sdrop (String.length prefix) key) delimiter with
       | Some i => Some (stake (String.length prefix + i + String.length delimiter) key)
       | None => None
       end.
(** Entries of a page: contents, and a prefix for every key that has one. *)
Definition pageOf (prefix delimiter : string) (objects : list ObjectMetadata) : list ListContent * list string :=
  fold_left (fun acc m => match commonPrefixForObject (om_Key m) prefix delimiter with
                          | Some p => (acc.1, acc.2 ++ [p])
                          | None => (acc.1 ++ [objectListContent m], acc.2)
                          end) objects ([], []).
Definition nextKey (truncated : bool) (contents : list ListContent) : string :=
  match (if truncated then last contents else None) with Some c => lc_Key c | None => "" end.
(** What follows the entry with key [k]; nothing when there is none. *)
Fixpoint after (k : string) (passed : bool) (objects : list ObjectMetadata) : list ObjectMetadata :=
  match objects with
  | [] => []
  | m :: objects =>
    if bool_decide (om_Key m = k) then after k true objects
    else if passed then m :: after k passed objects else after k passed objects
  end.

Definition maxKeysOf (dflt : Z) (s : string) : Z :=
  if bool_decide (s = ""%string) then dflt else default dflt (ParseInt s).

Definition AllUsers : string := "http://acs.amazonaws.com/groups/global/AllUsers".
Definition validACLs : list string := ["private"; "public-read"; "public-read-write"; "authenticated-read"].
(** The ACL that the grants of a policy document amount to; a grant is the
    grantee's type and id and the permission. *)
Definition aclOfGrants (grants : list (string * string * string)) : string :=
  let has p := existsb (fun g => bool_decide (g = ("Group", AllUsers, p)%string)) grants in
  if has "READ"%string && has "WRITE"%string then "public-read-write"
  else if has "READ"%string then "public-read" else "private".

Section Buckets.
Context {B : Type} `{BackendStorage B} `{Bolt} `{AnyJson} `{MetaText} `{CryptoLib, CryptoServices}.
#[local] Notation Handler := (Handler (B := B)).

Definition handleListBuckets (r : Request) : Handler reply :=
  _ ← needMethod "GET" r;
  buckets ← gets (fun g => ListBuckets (g_metadata g));
  mret (Answer 200 ∅ (Doc (ListBucketsDoc ((fun b => (bi_Name b, bi_CreatedAt b)) <$> buckets))) None).

(** [userID] is [getUserID], [location] the constraint in the body. *)
Definition handleCreateBucket (now : Time) (commit : res unit) (userID : string) (location : option string)
    (r : Request) (bkt : string) : Handler reply :=
  _ ← needMethod "PUT" r;
  let acl := HeaderGet "x-amz-acl" r in
  let acl := if bool_decide (acl = ""%string) then "private"%string else acl in
  let owner := if bool_decide (userID ∈ [""; "anonymous"]%string) then "admin"%string else userID in
  let region := match location with
                | Some l => if bool_decide (l = ""%string) then "us-east-1"%string else l
                | None => "us-east-1"%string
                end in
  let info := mkBucketInfo bkt now owner owner region acl None None None None None None 0 0 false false None "" in
  r ← onMetadata (CreateBucket now commit bkt (Some info));
  _ ← orStop r (fun e => Fail (metaErr "failed to create bucket" e));
  mret (Answer 200 (setHeader "Location" ("/" +:+ bkt) ∅) (Body []) None).

Definition notEmpty (bkt what : string) : reply :=
  Fail (mkHErr (ErrBucketNotEmpty +:+ ": bucket " +:+ bkt +:+ " still has " +:+ what) (Some ErrBucketNotEmpty)).
Definition handleDeleteBucket (now : Time) (commit : res unit) (r : Request) (bkt : string) : Handler reply :=
  _ ← needMethod "DELETE" r;
  found ← gets (fun g => GetBucket bkt (g_metadata g));
  _ ← orStop found (fun e => Fail (metaErr "failed to delete bucket" e));
  objects ← gets (fun g => ListObjects bkt "" 1 (g_metadata g));
  if negb (bool_decide (objects = [])) then mret (notEmpty bkt "objects")
  else
    uploads ← gets (fun g => ListUploads now bkt (g_metadata g));
    if negb (bool_decide (uploads = [])) then mret (notEmpty bkt "in-progress multipart uploads")
    else
      d ← onMetadata (DeleteBucket commit bkt);
      _ ← orStop d (fun e => Fail (metaErr "failed to delete bucket" e));
      mret (Answer 204 ∅ (Body []) None).

Definition handleHeadBucket (r : Request) (bkt : string) : Handler reply :=
  _ ← needMethod "HEAD" r;
  found ← gets (fun g => GetBucket bkt (g_metadata g));
  _ ← orStop found (fun e => Fail (metaErr "bucket not found" e));
  mret (Answer 200 ∅ (Body []) None).

(** [handleListObjectsV2]: the page is fetched from the start of the listing
    and then cut at the token. *)
Definition handleListObjectsV2 (r : Request) (bkt prefix delimiter : string) (maxKeys : Z) : Handler reply :=
  let startAfter := QueryGet "start-after" r in
  let token := QueryGet "continuation-token" r in
  objects ← gets (fun g => ListObjects bkt prefix (wrap64 (maxKeys + 1)) (g_metadata g));
  let objects := if negb (bool_decide (startAfter = ""%string)) then after startAfter false objects
                 else if negb (bool_decide (token = ""%string)) then after token false objects
                 else objects in
  let truncated := maxKeys <? Z.of_nat (length objects) in
  if truncated && (maxKeys <? 0) then stop (Crash "slice bounds out of range")
  else
    let objects := if truncated then take (Z.to_nat maxKeys) objects else objects in
    let '(contents, prefixes) := pageOf prefix delimiter objects in
    mret (Answer 200 ∅ (Doc (ListObjectsV2Doc bkt prefix startAfter token (nextKey truncated contents)
            (Z.of_nat (length objects)) maxKeys delimiter truncated contents prefixes)) None).

Definition handleListObjects (r : Request) (bkt : string) : Handler reply :=
  _ ← needMethod "GET" r;
  let prefix := QueryGet "prefix" r in
  let delimiter := QueryGet "delimiter" r in
  let maxKeys := maxKeysOf 1000 (QueryGet "max-keys" r) in
  if bool_decide (QueryGet "list-type" r = "2"%string)
  then handleListObjectsV2 r bkt prefix delimiter maxKeys
  else
    objects ← gets (fun g => ListObjects bkt prefix maxKeys (g_metadata g));
    let truncated := bool_decide (Z.of_nat (length objects) = maxKeys) in
    let '(contents, prefixes) := pageOf prefix delimiter objects in
    mret (Answer 200 ∅ (Doc (ListObjectsDoc bkt prefix (QueryGet "marker" r) maxKeys delimiter truncated
            (nextKey truncated contents) contents prefixes)) None).

Definition noSuchBucket : reply := Refuse 404 "NoSuchBucket" "The specified bucket does not exist.".
Definition bucketOr404 (bkt : string) : Handler BucketInfo :=
  found ← gets (fun g => GetBucket bkt (g_metadata g));
  orStop found (fun _ => noSuchBucket).

Definition handleGetBucketLocation (bkt : string) : Handler reply :=
  info ← bucketOr404 bkt;
  let location := bi_Region info in
  mret (Answer 200 ∅ (Doc (LocationDoc (if bool_decide (location = "us-east-1"%string) then ""%string else location)))
          None).

Definition handleGetBucketAcl (bkt : string) : Handler reply :=
  info ← bucketOr404 bkt;
  let orAdmin s := if bool_decide (s = ""%string) then "admin"%string else s in
  let owner := orAdmin (bi_OwnerID info) in
  let acl := bi_ACL info in
  mret (Answer 200 ∅ (Doc (AclDoc owner (orAdmin (bi_OwnerName info))
    ([(owner, "FULL_CONTROL"%string)] ++
     (if bool_decide (acl ∈ ["public-read"; "public-read-write"]%string) then [(AllUsers, "READ"%string)] else []) ++
     (if bool_decide (acl = "public-read-write"%string) then [(AllUsers, "WRITE"%string)] else [])))) None).

Definition with_ACL (acl : string) (i : BucketInfo) : BucketInfo :=
  mkBucketInfo (bi_Name i) (bi_CreatedAt i) (bi_OwnerID i) (bi_OwnerName i) (bi_Region i) acl (bi_Quota i)
    (bi_Policy i) (bi_Tags i) (bi_CORS i) (bi_Lifecycle i) (bi_Encryption i) (bi_ObjectCount i)
    (bi_TotalSize i) (bi_Versioning i) (bi_LoggingEnabled i) (bi_ObjectLock i) (bi_StorageClass i).
Definition handlePutBucketAcl (commit : res unit) (grants : option (list (string * string * string)))
    (r : Request) (bkt : string) : Handler reply :=
  info ← bucketOr404 bkt;
  let acl := HeaderGet "x-amz-acl" r in
  let acl := if bool_decide (acl = ""%string) then QueryGet "acl" r else acl in
  let acl := match grants with Some l => aclOfGrants l | None => acl end in
  let acl := if bool_decide (acl ∈ validACLs) then acl else "private"%string in
  u ← onMetadata (UpdateBucket commit bkt (with_ACL acl info));
  _ ← orStop u (fun e => Fail (metaErr "failed to update bucket ACL" e));
  mret (Answer 200 ∅ (Body []) None).

Definition handleGetBucketVersioning (bkt : string) : Handler reply :=
  _ ← bucketOr404 bkt;
  mret (Answer 200 ∅ (Doc VersioningDoc) None).
End Buckets.
