(* ===== verification/GatewayUploads.v ===== *)
(** * Uploads in pieces (internal/gateway/multipart.go, resumable.go and their cleanups)

    Multipart uploads keep their parts as files of a directory per upload,
    resumable uploads append to one file per session.  Both directories are in
    the tree of the gateway's state; paths are joined from the upload id as the
    request gives it.  Outcomes of system calls, clock readings and UUIDs are
    arguments; a handler's writes to one file are one step. *)

From S2P Require Import Prelude GoIO GoStrings GoText GoFloat GoJson Bolt CryptoLib Coordinator Cache.
From S2P Require Import Integrity MetadataStore Storage GatewayHttp GatewayCore GatewayObjects.
From Stdlib Require Import Ascii String.
From stdpp Require Import base list strings gmap sorting pretty.

#[local] Open Scope Z_scope.

(** ** Files *)

(** [os.Create] or [os.OpenFile] for appending: a directory cannot be opened. *)
Definition openForWrite (io : ioFail) (p : path) (t : tree) : res unit :=
  match stat t p with
  | Found Dir => Err (pathErr "open" p "is a directory")
  | NotDir => Err (pathErr "open" p "not a directory")
  | _ => orIO io (Ok tt)
  end.

Definition tempOf (p : path) : path := parent p ++ [default ""%string (last p) +:+ ".tmp"]%string.
(** The body into a temporary file next to [full], then renamed. *)
Definition writePart (io : putIO) (full : path) (body : stream) (t : tree) : tree * res Z :=
  let '(t, r) := MkdirAll (pio_mkdir io) (parent full) t in
  match wrapErr "failed to create upload directory" r ≫= fun _ =>
        wrapErr "failed to create part file" (openForWrite (pio_create io) (tempOf full) t) ≫= fun _ =>
        wrapErr "failed to write part data" (orIO (pio_copy io) (orIO (sr_err body) (Ok tt))) ≫= fun _ =>
        wrapErr "failed to sync part file" (orIO (pio_sync io) (Ok tt)) with
  | Ok _ => let '(t, r) := renameTemp (pio_rename io) full (sr_data body) t in
            (t, (fun _ => Z.of_nat (length (sr_data body))) <$> wrapErr "failed to finalize part file" r)
  | Err e => (t, Err e)
  | Panic w => (t, Panic w)
  end.

Definition filesBelow (dir : path) (t : tree) : list path :=
  fst <$> filter (fun x => below dir x.1 && isFile x.2 = true) (merge_sort path_le (map_to_list t)).
Fixpoint removeAll (io : path -> ioFail) (ps : list path) (t : tree) : tree * list string :=
  match ps with
  | [] => (t, [])
  | p :: ps =>
    let '(t, r) := removePath (io p) p t in
    let '(t, es) := removeAll io ps t in
    (t, match r with Err e => ("failed to remove part file " +:+ pathText p +:+ ": " +:+ e)%string :: es | _ => es end)
  end.
(** [cleanupParts]: every file below the directory, then the directory; the
    errors that it joins. *)
Definition cleanupFiles (io : path -> ioFail) (dir : path) (t : tree) : tree * list string :=
  match stat t dir with
  | NotExist => (t, [])
  | NotDir => (t, ["failed to stat upload dir " +:+ pathText dir]%string)
  | Found _ =>
    let '(t, es) := removeAll io (filesBelow dir t) t in
    let '(t, r) := removePath (io dir) dir t in
    (t, es ++ match r with Err e => ["failed to remove upload dir " +:+ pathText dir +:+ ": " +:+ e]%string
                        | _ => [] end)
  end.

(** The pipe that a merge reads from: the parts in order, until one cannot be
    opened, and the total size at the end. *)
Fixpoint mergeParts (opening : path -> ioFail) (dir : path) (parts : list UploadPart) (t : tree)
    (acc : bytes) (totalSize : Z) : stream :=
  match parts with
  | [] =>
    if Z.of_nat (length acc) =? totalSize then streamOf acc
    else mkStream acc (Some ("part merge size mismatch: expected " +:+ pretty totalSize +:+ ", got " +:+
                             pretty (Z.of_nat (length acc))))%string
  | p :: parts =>
    let n := pretty (up_PartNumber p) in
    let full := pathJoin dir ("part-" +:+ n) in
    match openFile (opening full) full t with
    | Ok d =>
      match sr_err d with
      | None => mergeParts opening dir parts t (acc ++ sr_data d) totalSize
      | Some e => mkStream (acc ++ sr_data d) (Some ("failed to copy part " +:+ n +:+ ": " +:+ e))%string
      end
    | Err e | Panic e => mkStream acc (Some ("failed to open part " +:+ n +:+ ": " +:+ e))%string
    end
  end.

Definition part_le (p q : UploadPart) : Prop := up_PartNumber p <= up_PartNumber q.
#[local] Instance part_le_dec : RelDecision part_le.
Proof. intros p q. unfold part_le. apply _. Defined.

Section Uploads.
Context {B : Type} `{BackendStorage B} `{Bolt} `{AnyJson} `{MetaText} `{CryptoLib, CryptoServices}.
Context `{GoUnicode} `{HttpLib} `{Sha256}.
Context (cfg : Config).
#[local] Notation Handler := (Handler (B := B)).

(** ** Multipart uploads *)

Definition getUploadDir (uploadID : string) : path := pathJoin (cf_uploadsDir cfg) uploadID.
Definition getPartPath (uploadID : string) (n : Z) : path := pathJoin (getUploadDir uploadID) ("part-" +:+ pretty n).

Record UploadEnv := mkUploadEnv {
  ue_now : Time; ue_now2 : Time; ue_uuid : string; ue_version : string; ue_commit : res unit;
  ue_files : path -> ioFail; ue_part : putIO; ue_put : backendIO; ue_undo : backendIO; ue_meta : metaIO;
  ue_op : OpEnv
}.

Definition HandleCreateMultipartUpload (c : Caller) (env : UploadEnv) (r : Request) (bkt key : string)
  : Handler reply :=
  _ ← needMethod "POST" r;
  _ ← requireAccess c "access denied" ActionWrite bkt key;
  let upload := mkUpload (ue_uuid env) bkt key (ue_now env) (Prelude.Add (ue_now2 env) (24 * Hour))
    (who_userID c) (objectContentType r) (Some (parseUserMetadata r)) [] 0 false "" in
  p ← onMetadata (fun s => let '(s, _, p) := PutUpload "" 0 0 (ue_commit env) upload s in (s, p));
  _ ← orStop p (fun e => Fail (metaErr "failed to create upload" e));
  d ← onDisk (MkdirAll (pio_mkdir (ue_part env)) (getUploadDir (ue_uuid env)));
  _ ← orStop d (failWith "failed to create upload directory");
  mret (Answer 200 (setHeader "x-amz-upload-id" (ue_uuid env) ∅)
          (Doc (CreateUploadDoc bkt key (ue_uuid env))) None).

Definition partETag (uploadID partNumberStr : string) : string :=
  hexEncode (sha256_Sum256 (bytes_of_string (uploadID +:+ partNumberStr))).

(** The upload that the request names, not expired. *)
Definition openUpload (env : UploadEnv) (bkt key uploadID : string) : Handler MultipartUpload :=
  found ← gets (fun g => GetUpload bkt key uploadID (g_metadata g));
  upload ← orStop found (fun e => Fail (metaErr "upload not found" e));
  if After (ue_now env) (mu_ExpiresAt upload) then stop (Fail (errText "upload has expired")) else mret upload.

Definition uploadIDOf (r : Request) : Handler string :=
  let uploadID := QueryGet "uploadId" r in
  if bool_decide (uploadID = ""%string) then stop (Fail (errText "uploadId is required")) else mret uploadID.

Definition HandleUploadPart (c : Caller) (env : UploadEnv) (r : Request) (body : stream) (bkt key : string)
  : Handler reply :=
  _ ← needMethod "PUT" r;
  _ ← requireAccess c "access denied" ActionWrite bkt key;
  uploadID ← uploadIDOf r;
  let partNumberStr := QueryGet "partNumber" r in
  match ParseInt partNumberStr with
  | None => stop (Fail (errText "invalid partNumber"))
  | Some n =>
    if (n <? 1) || (10000 <? n) then stop (Fail (errText "invalid partNumber"))
    else
      _ ← openUpload env bkt key uploadID;
      w ← onDisk (writePart (ue_part env) (getPartPath uploadID n) body);
      written ← orStop w (fun e => Fail (errText e));
      let checksum := encode64 (sha256_Sum256 (sr_data body)) in
      let etag := partETag uploadID partNumberStr in
      p ← onMetadata (AddPart (ue_commit env) uploadID (mkPart n etag written checksum (ue_now2 env) ""));
      match p with
      | Ok _ =>
        mret (Answer 200 (setHeader "x-amz-checksum-sha256" checksum (setHeader "ETag" (quoted etag) ∅))
                (Body []) None)
      | Err e =>
        _ ← onDisk (removePath (ue_files env (getPartPath uploadID n)) (getPartPath uploadID n));
        stop (Fail (metaErr "failed to add part" e))
      | Panic w => stop (Crash w)
      end
  end.

Definition cleanupParts (io : path -> ioFail) (uploadID : string) : Handler (list string) :=
  onDisk (cleanupFiles io (getUploadDir uploadID)).

(** The list of parts in the body of the request is not read. *)
Definition HandleCompleteMultipartUpload (c : Caller) (env : UploadEnv) (r : Request) (bkt key : string)
  : Handler reply :=
  _ ← needMethod "POST" r;
  _ ← requireAccess c "access denied" ActionWrite bkt key;
  uploadID ← uploadIDOf r;
  upload ← openUpload env bkt key uploadID;
  parts ← gets (fun g => GetParts uploadID (g_metadata g));
  if bool_decide (parts = []) then stop (Fail (errText "no parts uploaded"))
  else
    let parts := merge_sort part_le parts in
    let totalSize := fold_left (fun n p => wrap64 (n + up_Size p)) parts 0 in
    let meta := (buildActiveObjectMetadata (ue_now2 env) (ue_version env)
      (mkActive bkt key totalSize (mu_ContentType upload) (ue_uuid env) (mu_Metadata upload) TierHot
         (mu_Encrypted upload) "" "" "" [] false "" "" 0)).2 in
    data ← gets (fun g => mergeParts (ue_files env) (getUploadDir uploadID) parts (g_disk g) [] totalSize);
    _ ← putStoredObjectWithMetadata (ue_put env) (ue_meta env) (ue_undo env) bkt key data totalSize
          (om_StorageTier meta) meta "failed to store merged object";
    _ ← cleanupParts (ue_files env) uploadID;
    d ← onMetadata (DeleteUpload (ue_commit env) bkt key uploadID);
    _ ← orStop d (fun e => Fail (metaErr "failed to finalize upload metadata" e));
    _ ← modify (addTask (writeTask r bkt key (mu_ContentType upload) (mu_Metadata upload) (mu_UserID upload)
                           (om_VersionID meta)));
    mret (Answer 200 (setHeader "ETag" (quoted (ue_uuid env)) ∅)
            (Doc (CompleteUploadDoc ("/" +:+ bkt +:+ "/" +:+ key) bkt key (ue_uuid env))) None).

(** The files go first, whatever upload the id names. *)
Definition HandleAbortMultipartUpload (c : Caller) (env : UploadEnv) (r : Request) (bkt key : string)
  : Handler reply :=
  _ ← needMethod "DELETE" r;
  _ ← requireAccess c "access denied" ActionWrite bkt key;
  uploadID ← uploadIDOf r;
  _ ← cleanupParts (ue_files env) uploadID;
  d ← onMetadata (DeleteUpload (ue_commit env) bkt key uploadID);
  _ ← orStop d (fun e => Fail (metaErr "failed to abort upload" e));
  mret (Answer 204 ∅ (Body []) None).

Definition numberOr (dflt : Z) (s : string) : Z :=
  if bool_decide (s = ""%string) then dflt else default dflt (ParseInt s).
(** The loop of a listing: entries that pass, at most [max], and whether it was cut. *)
Fixpoint page {A C} (pick : A -> option C) (max : Z) (l : list A) (acc : list C) : list C * bool :=
  match l with
  | [] => (acc, false)
  | x :: l =>
    match pick x with
    | None => page pick max l acc
    | Some y => if max <=? Z.of_nat (length acc) then (acc, true) else page pick max l (acc ++ [y])
    end
  end.
Definition HandleListParts (r : Request) (bkt key : string) : Handler reply :=
  _ ← needMethod "GET" r;
  uploadID ← uploadIDOf r;
  parts ← gets (fun g => GetParts uploadID (g_metadata g));
  let maxParts := numberOr 1000 (QueryGet "max-parts" r) in
  let marker := numberOr 0 (QueryGet "part-number-marker" r) in
  let '(l, truncated) := page (fun p =>
      if up_PartNumber p <=? marker then None
      else Some (mkPartEntry (up_PartNumber p) (quoted (up_ETag p)) (up_UploadedAt p) (up_Size p) (up_Checksum p)))
    maxParts parts [] in
  mret (Answer 200 ∅ (Doc (ListPartsDoc bkt key uploadID maxParts truncated l)) None).
Definition HandleListUploads (now : Time) (r : Request) (bkt : string) : Handler reply :=
  _ ← needMethod "GET" r;
  uploads ← gets (fun g => ListUploads now bkt (g_metadata g));
  let maxUploads := numberOr 1000 (QueryGet "max-uploads" r) in
  let '(l, truncated) := page (fun u => Some (mkUploadEntry (mu_Key u) (mu_UploadID u) (mu_Initiated u)))
    maxUploads uploads [] in
  mret (Answer 200 ∅ (Doc (ListUploadsDoc bkt maxUploads truncated l)) None).

(** One round of the cleanup; the errors that it joins. *)
Fixpoint cleanupUploads (commit : string -> res unit) (io : path -> ioFail) (uploads : list MultipartUpload)
    (es : list string) : Handler (list string) :=
  match uploads with
  | [] => mret es
  | u :: uploads =>
    d ← onMetadata (DeleteUpload (commit (mu_UploadID u)) (mu_Bucket u) (mu_Key u) (mu_UploadID u));
    match d with
    | Ok _ =>
      pe ← cleanupParts io (mu_UploadID u);
      cleanupUploads commit io uploads (es ++ pe)
    | Err e =>
      cleanupUploads commit io uploads (es ++ ["delete expired upload " +:+ mu_UploadID u +:+ ": " +:+ e]%string)
    | Panic w => stop (Crash w)
    end
  end.
Definition CleanupExpiredUploads (now : Time) (commit : string -> res unit) (io : path -> ioFail)
  : Handler (list string) :=
  uploads ← gets (fun g => ListExpiredUploads now (g_metadata g));
  cleanupUploads commit io uploads [].

(** ** Resumable uploads *)

Definition getTempFilePath (uploadID : string) : path := pathJoin (cf_resumableDir cfg) (uploadID +:+ ".tmp").

Definition with_progress (offset : Z) (checksum : string) (s : ResumableSession) : ResumableSession :=
  mkSession (rs_UploadID s) (rs_Bucket s) (rs_Key s) offset (rs_TotalSize s) (rs_ContentType s) (rs_Metadata s)
    (rs_CreatedAt s) (rs_ExpiresAt s) checksum (rs_Finalized s).
Definition finalized (s : ResumableSession) : ResumableSession :=
  mkSession (rs_UploadID s) (rs_Bucket s) (rs_Key s) (rs_Offset s) (rs_TotalSize s) (rs_ContentType s)
    (rs_Metadata s) (rs_CreatedAt s) (rs_ExpiresAt s) (rs_Checksum s) true.

Record ResumableEnv := mkResumableEnv {
  re_now : Time; re_now2 : Time; re_uuid : string; re_version : string; re_commit : res unit;
  re_create : ioFail; re_append : option (nat * string); re_sync : ioFail; re_read : ioFail;
  re_truncate : ioFail; re_remove : ioFail; re_put : backendIO; re_undo : backendIO; re_meta : metaIO;
  re_op : OpEnv
}.

Definition denied (e : string) : reply := Refuse 401 "AccessDenied" e.
Definition badRequest (msg : string) : reply := Refuse 400 "InvalidRequest" msg.

Definition HandleCreateSession (c : Caller) (env : ResumableEnv) (r : Request) (bkt key : string)
  : Handler reply :=
  _ ← orStop (who_may c ActionWrite bkt key) denied;
  let uploadID := re_uuid env in
  let totalSize := default (-1) (ParseInt (HeaderGet "Upload-Length" r)) in
  let session := mkSession uploadID bkt key 0 totalSize (objectContentType r) (Some (parseUserMetadata r))
    (re_now env) (Prelude.Add (re_now2 env) (cf_DefaultExpiry cfg)) "" false in
  p ← onMetadata (PutResumableSession (re_commit env) session);
  _ ← orStop p (fun e => Fail (metaErr "failed to create resumable session" e));
  let full := getTempFilePath uploadID in
  d ← onDisk (fun t => match openForWrite (re_create env) full t with
                       | Ok _ => (<[full := File []]> t, Ok tt)
                       | e => (t, e)
                       end);
  match d with
  | Ok _ =>
    let location := ("/" +:+ bkt +:+ "/" +:+ key +:+ "?uploadId=" +:+ uploadID)%string in
    mret (Answer 201 (setHeader "X-CipherLake-Upload-Id" uploadID
            (setHeader "Upload-Offset" "0" (setHeader "Location" location ∅)))
            (Doc (SessionDoc uploadID location)) None)
  | Err e =>
    _ ← onMetadata (DeleteResumableSession (re_commit env) uploadID);
    stop (failWith "failed to create temp file" e)
  | Panic w => stop (Crash w)
  end.

(** The checks that the handlers of a session share. *)
Definition openSession (env : ResumableEnv) (r : Request) (bkt key : string) : Handler (string * ResumableSession) :=
  let uploadID := QueryGet "uploadId" r in
  if bool_decide (uploadID = ""%string) then stop (badRequest "uploadId is required")
  else
    found ← gets (fun g => GetResumableSession uploadID (g_metadata g));
    session ← orStop found (fun _ => Refuse 404 "NoSuchUpload" "Upload session not found");
    if negb (bool_decide (rs_Bucket session = bkt) && bool_decide (rs_Key session = key))
    then stop (badRequest "Bucket/key mismatch")
    else if After (re_now env) (rs_ExpiresAt session)
    then stop (Refuse 410 "UploadExpired" "Upload session has expired")
    else mret (uploadID, session).
Definition notFinalized (s : ResumableSession) : Handler unit :=
  if rs_Finalized s then stop (badRequest "Upload session already finalized") else mret tt.

(** Appending keeps what was written before an error. *)
Definition appendFile (env : ResumableEnv) (full : path) (body : stream) (t : tree) : tree * res Z :=
  match stat t full with
  | Found (File old) =>
    match re_append env with
    | Some (n, e) => (<[full := File (old ++ take n (sr_data body))]> t, Err ("failed to write data: " +:+ e))
    | None =>
      let t := <[full := File (old ++ sr_data body)]> t in
      match sr_err body, re_sync env with
      | Some e, _ => (t, Err ("failed to write data: " +:+ e))
      | None, Some e => (t, Err ("failed to sync temp file: " +:+ e))
      | None, None => (t, Ok (Z.of_nat (length (sr_data body))))
      end
    end
  | Found Dir => (t, Err ("failed to open temp file: " +:+ pathErr "open" full "is a directory"))
  | NotExist => (t, Err ("failed to open temp file: " +:+ pathErr "open" full "no such file or directory"))
  | NotDir => (t, Err ("failed to open temp file: " +:+ pathErr "open" full "not a directory"))
  end.
Definition computeFileChecksum (io : ioFail) (full : path) (t : tree) : res string :=
  d ← openFile io full t;
  match sr_err d with None => Ok (encode64 (sha256_Sum256 (sr_data d))) | Some e => Err e end.
Definition truncateFile (io : ioFail) (full : path) (n : Z) (t : tree) : tree :=
  match io, stat t full with
  | None, Found (File b) =>
    let n := Z.to_nat n in <[full := File (take n b ++ zeros (n - length b))]> t
  | _, _ => t
  end.
(** The digest of "sha256 <digest>". *)
Definition providedDigest (header : string) : string :=
  match cut " " header with
  | (alg, Some digest) => if bool_decide (ToLower alg = "sha256"%string) then digest else ""
  | _ => ""
  end.

Definition cleanupSession (env : ResumableEnv) (uploadID : string) : Handler unit :=
  _ ← onDisk (removePath (re_remove env) (getTempFilePath uploadID));
  _ ← onMetadata (DeleteResumableSession (re_commit env) uploadID);
  mret tt.

Definition encodeFile (env : ResumableEnv) (userID bkt key : string) (n : Z) (data : stream) : Handler encoded :=
  crypto ← gets g_crypto;
  match crypto with
  | Some s => if cf_CryptoEnabled cfg then encryptForUser cfg (re_op env) userID bkt key n data s
              else mret (mkEncoded data [] false n false "")
  | None => mret (mkEncoded data [] false n false "")
  end.

Definition HandleFinalize (c : Caller) (env : ResumableEnv) (r : Request) (bkt key : string) : Handler reply :=
  _ ← orStop (who_may c ActionWrite bkt key) denied;
  '(uploadID, session) ← openSession env r bkt key;
  _ ← notFinalized session;
  let full := getTempFilePath uploadID in
  opening ← gets (fun g => openFile (re_read env) full (g_disk g));
  data ← orStop opening (failWith "failed to open temp file");
  let n := Z.of_nat (length (sr_data data)) in
  e ← encodeFile env (who_userID c) bkt key n data;
  t ← gets g_disk;
  let checksum := if bool_decide (rs_Checksum session = ""%string)
                  then match computeFileChecksum (re_read env) full t with Ok cs => cs | _ => "" end
                  else rs_Checksum session in
  let meta := (buildActiveObjectMetadata (re_now2 env) ""
    (mkActive bkt key n (rs_ContentType session) (re_uuid env) (rs_Metadata session) TierHot (en_encrypted e)
       (re_version env) "" "" (en_metadata e) false "" "" 0)).2 in
  _ ← putStoredObjectWithMetadata (re_put env) (re_meta env) (re_undo env) bkt key (en_data e) (en_size e)
        TierHot (with_Checksum checksum "sha256" meta) "failed to store object";
  _ ← onMetadata (PutResumableSession (re_commit env) (finalized session));
  _ ← cleanupSession env uploadID;
  _ ← modify (addTask (writeTask r bkt key (rs_ContentType session) (rs_Metadata session) (who_userID c)
                         (re_version env)));
  let h := setHeader "x-amz-version-id" (re_version env) (setHeader "ETag" (quoted (re_uuid env)) ∅) in
  let h := if en_encrypted e then setHeader "x-amz-server-side-encryption" "AES256" h else h in
  mret (Answer 200 (setHeader "X-CipherLake-Upload-Id" uploadID h) (Body []) None).

Definition HandlePatch (c : Caller) (env : ResumableEnv) (r : Request) (body : stream) (bkt key : string)
  : Handler reply :=
  _ ← orStop (who_may c ActionWrite bkt key) denied;
  '(uploadID, session) ← openSession env r bkt key;
  _ ← notFinalized session;
  let offsetStr := HeaderGet "Upload-Offset" r in
  if bool_decide (offsetStr = ""%string) then stop (badRequest "Upload-Offset header is required")
  else
  match ParseInt offsetStr with
  | None => stop (badRequest "Invalid Upload-Offset header")
  | Some clientOffset =>
  if negb (clientOffset =? rs_Offset session)
  then stop (Refuse 409 "OffsetMismatch" ("Offset mismatch: client sent " +:+ pretty clientOffset +:+
                                          ", server has " +:+ pretty (rs_Offset session)))
  else
  let provided := providedDigest (HeaderGet "Upload-Checksum" r) in
  let full := getTempFilePath uploadID in
  w ← onDisk (appendFile env full body);
  written ← orStop w (fun e => Fail (errText e));
  let newOffset := wrap64 (rs_Offset session + written) in
  t ← gets g_disk;
  let computed := if negb (bool_decide (provided = ""%string)) || (0 <? newOffset)
                  then match computeFileChecksum (re_read env) full t with Ok cs => cs | _ => "" end
                  else ""%string in
  if negb (bool_decide (provided = ""%string)) && negb (bool_decide (computed = provided)) then
    _ ← onDisk (fun t => (truncateFile (re_truncate env) full (rs_Offset session) t, tt));
    stop (Refuse 400 "BadDigest" ("Checksum mismatch: expected " +:+ provided +:+ ", got " +:+ computed))
  else
    let session := with_progress newOffset
      (if bool_decide (computed = ""%string) then rs_Checksum session else computed) session in
    p ← onMetadata (PutResumableSession (re_commit env) session);
    _ ← orStop p (fun e => Fail (metaErr "failed to update session" e));
    if bool_decide (HeaderGet "X-CipherLake-Finalize" r = "1"%string) then HandleFinalize c env r bkt key
    else
      let h := setHeader "Upload-Offset" (pretty newOffset) ∅ in
      let h := if bool_decide (computed = ""%string) then h
               else setHeader "Upload-Checksum" ("sha256 " +:+ computed) h in
      mret (Answer 204 (setHeader "X-CipherLake-Upload-Id" uploadID h) (Body []) None)
  end.

Definition HandleHead (c : Caller) (env : ResumableEnv) (r : Request) (bkt key : string) : Handler reply :=
  _ ← orStop (who_may c ActionRead bkt key) denied;
  '(uploadID, session) ← openSession env r bkt key;
  let h := setHeader "Upload-Offset" (pretty (rs_Offset session)) ∅ in
  let h := if 0 <? rs_TotalSize session then setHeader "Upload-Length" (pretty (rs_TotalSize session)) h else h in
  let h := if bool_decide (rs_Checksum session = ""%string) then h
           else setHeader "Upload-Checksum" ("sha256 " +:+ rs_Checksum session) h in
  mret (Answer 204 (setHeader "X-CipherLake-Upload-Id" uploadID h) (Body []) None).

(** One round of the cleanup of sessions; the errors that it joins. *)
Fixpoint cleanupSessions (commit : string -> res unit) (io : path -> ioFail) (sessions : list ResumableSession)
    (es : list string) : Handler (list string) :=
  match sessions with
  | [] => mret es
  | s :: sessions =>
    let full := getTempFilePath (rs_UploadID s) in
    d ← onDisk (removePath (io full) full);
    match d with
    | Ok _ =>
      m ← onMetadata (DeleteResumableSession (commit (rs_UploadID s)) (rs_UploadID s));
      match m with
      | Ok _ => cleanupSessions commit io sessions es
      | Err e => cleanupSessions commit io sessions
                   (es ++ ["delete resumable upload metadata " +:+ rs_UploadID s +:+ ": " +:+ e]%string)
      | Panic w => stop (Crash w)
      end
    | Err e => cleanupSessions commit io sessions
                 (es ++ ["delete resumable upload file " +:+ rs_UploadID s +:+ ": " +:+ e]%string)
    | Panic w => stop (Crash w)
    end
  end.
Definition resumable_cleanup (now : Time) (commit : string -> res unit) (io : path -> ioFail)
  : Handler (list string) :=
  sessions ← gets (fun g => ListExpiredSessions now (g_metadata g));
  cleanupSessions commit io sessions [].
End Uploads.
