(* ===== verification/GatewayS3.v ===== *)
(** * Routing of requests (internal/gateway/s3.go)

    [handleRequest]: the bucket from the host or the path, the checks of names,
    and which handler runs.  The search handlers, the answer of the rate
    limiter and the bodies that handlers parse are arguments; the access log
    and tracing are left out. *)

From S2P Require Import Prelude GoIO GoStrings GoText GoFloat GoJson Bolt CryptoLib Coordinator Cache.
From S2P Require Import Integrity MetadataStore Storage GatewayHttp GatewayCore GatewayObjects.
From S2P Require Import GatewayBuckets GatewayUploads.
From Stdlib Require Import Ascii String.
From stdpp Require Import base list strings gmap.

#[local] Open Scope Z_scope.

(** ** The bucket in the Host header *)

(** Before and after the last [sep]. *)
Fixpoint cutLast (sep : ascii) (s : string) : option (string * string) :=
  match s with
  | EmptyString => None
  | String c s =>
    match cutLast sep s with
    | Some (a, b) => Some (String c a, b)
    | None => if decide (c = sep) then Some (""%string, s) else None
    end
  end.
(** The host of [net.SplitHostPort]; [None] for its errors. *)
Definition SplitHost (hostport : string) : option string :=
  match cutLast ":" hostport with
  | None => None
  | Some (host, port) =>
    if negb (nochar "["%char port && nochar "]"%char port) then None
    else
    match host with
    | String "[" rest =>
      match cut "]" rest with
      | (h, Some ""%string) => if nochar "["%char h then Some h else None
      | _ => None
      end
    | _ => if nochar ":"%char host && nochar "["%char host && nochar "]"%char host then Some host else None
    end
  end.

Section Host.
Context `{GoUnicode}.
Fixpoint hostBucket (h : string) (domains : list string) : string :=
  match domains with
  | [] => ""
  | d :: domains =>
    let d := TrimSpace (ToLower d) in
    let suffix := ("." +:+ d)%string in
    if bool_decide (d = ""%string) || negb (HasSuffix h suffix) then hostBucket h domains
    else
      let bucket := TrimSuffix h suffix in
      if negb (bool_decide (bucket = ""%string)) && bucketNameRegex bucket then bucket
      else hostBucket h domains
  end.
Definition extractVirtualHostedBucket (host domains : string) : string :=
  if bool_decide (domains = ""%string) then ""
  else hostBucket (ToLower (default host (SplitHost host))) (Split "," domains).
End Host.

(** ** Which handler *)

Inductive bucketCall :=
| PutBucketAcl | CreateBucketCall | DeleteBucketCall | HeadBucketCall | DeleteObjectsCall
| GetLocation | FtsSearch | GetBucketAcl | GetVersioning | ListUploadsCall | ListObjectsCall
| BucketError (msg : string).
Inductive objectCall :=
| ResumablePatch | ResumableHead | ResumableFinalize | UploadPartCall | CompleteUpload | AbortUpload
| ListPartsCall | CopyObject | PutObjectCall | GetObjectCall | HeadObjectCall | DeleteObjectCall
| ObjectPost | ObjectError (msg : string).
Inductive rootCall :=
| VectorSearch | RootFtsSearch | CreateSession (bkt key : string) | FinalizeSession (bkt key : string)
| CreateUpload (bkt key : string) | RootError (msg : string).
Inductive route :=
| Preflight | ListBucketsCall | RootPost | BucketRoute (bkt : string) | ObjectRoute (bkt key : string)
| NoRoute | BadRequest (code message : string).

Definition has (q : string) (r : Request) : bool := bool_decide (is_Some (Query r !! q)).
Definition isMethod (m : string) (r : Request) : bool := bool_decide (r_Method r = m).

Definition bucketCallOf (r : Request) : bucketCall :=
  if isMethod "PUT" r then if has "acl" r then PutBucketAcl else CreateBucketCall
  else if isMethod "DELETE" r then DeleteBucketCall
  else if isMethod "HEAD" r then HeadBucketCall
  else if isMethod "POST" r then
    if has "delete" r then DeleteObjectsCall else BucketError "unsupported POST operation on bucket"
  else if isMethod "GET" r then
    if has "location" r then GetLocation
    else if has "fts_search" r then FtsSearch
    else if has "acl" r then GetBucketAcl
    else if has "versioning" r then GetVersioning
    else if has "uploads" r then ListUploadsCall
    else ListObjectsCall
  else BucketError "method not allowed".

Definition objectCallOf (resumable : bool) (r : Request) : objectCall :=
  if has "uploadId" r && resumable && bool_decide (HeaderGet "X-CipherLake-Resumable" r = "1"%string) then
    if isMethod "PATCH" r then ResumablePatch
    else if isMethod "HEAD" r then ResumableHead
    else if isMethod "POST" r then
      if has "finalize" r then ResumableFinalize
      else ObjectError "unsupported POST operation for resumable upload"
    else ObjectError "method not allowed for resumable upload"
  else if has "uploadId" r then
    if isMethod "PUT" r then UploadPartCall
    else if isMethod "POST" r then CompleteUpload
    else if isMethod "DELETE" r then AbortUpload
    else if isMethod "GET" r then ListPartsCall
    else ObjectError "method not allowed for multipart upload"
  else if isMethod "PUT" r then
    if bool_decide (HeaderGet "x-amz-copy-source" r = ""%string) then PutObjectCall else CopyObject
  else if isMethod "GET" r then GetObjectCall
  else if isMethod "HEAD" r then HeadObjectCall
  else if isMethod "DELETE" r then DeleteObjectCall
  else if isMethod "POST" r then ObjectPost
  else ObjectError "method not allowed".

(** Bucket and key of a path, "" where there is none. *)
Definition pathNames (path : string) : string * string :=
  let '(bkt, key) := cut slash (TrimPrefix path "/") in (bkt, default ""%string key).
Definition rootCallOf (resumable : bool) (path : string) (r : Request) : rootCall :=
  if has "vector_search" r then VectorSearch
  else if has "fts_search" r then RootFtsSearch
  else if has "resumable" r && resumable then
    let '(bkt, key) := pathNames path in
    if bool_decide (bkt = ""%string) || bool_decide (key = ""%string)
    then RootError "bucket and key are required for resumable upload" else CreateSession bkt key
  else if has "uploadId" r && has "finalize" r && resumable then
    let '(bkt, key) := pathNames path in FinalizeSession bkt key
  else if has "uploads" r then
    let bkt := QueryGet "bucket" r in
    let '(bkt, key) := if bool_decide (bkt = ""%string) && (1 <? Z.of_nat (String.length path))
                       then pathNames path else (bkt, QueryGet "key" r) in
    CreateUpload bkt key
  else RootError "unsupported POST operation".

Definition routePath (rawPath : string) (path : string) (r : Request) : route :=
  if 1024 <? Z.of_nat (String.length path) then BadRequest "InvalidURI" "Object key too long"
  else if pathTraversalPattern path || controlCharPattern path || encodedTraversalPattern rawPath ||
          encodedTraversalPattern (r_RawQuery r)
  then BadRequest "InvalidURI" "Invalid characters in path"
  else if bool_decide (path = "/"%string) then
    if isMethod "GET" r then ListBucketsCall else if isMethod "POST" r then RootPost else NoRoute
  else if 1 <? Z.of_nat (String.length path) then
    let '(bkt, key) := cut slash (TrimPrefix path "/") in
    if negb (validateBucketName bkt)
    then BadRequest "InvalidBucketName" "Bucket name must be between 3-63 characters, lowercase letters, numbers, hyphens, and periods"
    else
      match default ""%string key with
      | ""%string => BucketRoute bkt
      | key => if validateObjectKey key then ObjectRoute bkt key
               else BadRequest "InvalidKey" "Object key contains invalid characters"
      end
  else NoRoute.

Definition requestPath `{GoUnicode} (domain : string) (r : Request) : string :=
  match extractVirtualHostedBucket (r_Host r) domain with
  | ""%string => r_Path r
  | b => "/" +:+ b +:+ r_Path r
  end.

Section S3.
Context {B : Type} `{BackendStorage B} `{Bolt} `{AnyJson} `{MetaText} `{CryptoLib, CryptoServices}.
Context `{GoUnicode} `{HttpLib} `{Sha256}.
Context (cfg : Config) (domain : string) (resumable : bool).
#[local] Notation Handler := (Handler (B := B)).
#[local] Notation Gateway := (Gateway (B := B)).

(** What a request brings along, for whichever handler runs. *)
Record Input := mkInput {
  in_caller : Caller; in_rawPath : string; in_body : stream; in_contentLength : Z;
  in_limited : option (string * string);     (** the rate limiter refuses: limit type, retry after *)
  in_put : PutEnv; in_copy : backendIO; in_get : GetEnv; in_delete : DeleteEnv; in_upload : UploadEnv;
  in_resumable : ResumableEnv; in_now : Time; in_commit : res unit;
  in_deleteKeys : res (list (DeleteEnv * string) * bool); in_location : option string;
  in_grants : option (list (string * string * string));
  in_bucketUser : string; in_search : reply
}.

Definition handleBucketOperations (i : Input) (r : Request) (bkt : string) : Handler reply :=
  let c := in_caller i in
  let need action := requireAccess c "access denied" action bkt "" in
  match bucketCallOf r with
  | PutBucketAcl => _ ← need ActionAdmin; handlePutBucketAcl (in_commit i) (in_grants i) r bkt
  | CreateBucketCall =>
    _ ← need ActionWrite; handleCreateBucket (in_now i) (in_commit i) (in_bucketUser i) (in_location i) r bkt
  | DeleteBucketCall => _ ← need ActionAdmin; handleDeleteBucket (in_now i) (in_commit i) r bkt
  | HeadBucketCall => _ ← need ActionRead; handleHeadBucket r bkt
  | DeleteObjectsCall => _ ← need ActionDelete; handleDeleteObjects r bkt (in_deleteKeys i)
  | GetLocation => handleGetBucketLocation bkt
  | FtsSearch => mret (in_search i)
  | GetBucketAcl => _ ← need ActionRead; handleGetBucketAcl bkt
  | GetVersioning => handleGetBucketVersioning bkt
  | ListUploadsCall => HandleListUploads (in_now i) r bkt
  | ListObjectsCall =>
    public ← isBucketPublicRead cfg bkt;
    _ ← (if public : bool then mret tt else need ActionRead);
    handleListObjects r bkt
  | BucketError msg => mret (Fail (errText msg))
  end.

Definition handleObjectOperations (i : Input) (r : Request) (bkt key : string) : Handler reply :=
  let c := in_caller i in
  match objectCallOf resumable r with
  | ResumablePatch => HandlePatch cfg c (in_resumable i) r (in_body i) bkt key
  | ResumableHead => HandleHead c (in_resumable i) r bkt key
  | ResumableFinalize => HandleFinalize cfg c (in_resumable i) r bkt key
  | UploadPartCall => HandleUploadPart cfg c (in_upload i) r (in_body i) bkt key
  | CompleteUpload => HandleCompleteMultipartUpload cfg c (in_upload i) r bkt key
  | AbortUpload => HandleAbortMultipartUpload cfg c (in_upload i) r bkt key
  | ListPartsCall => HandleListParts r bkt key
  | CopyObject => handleCopyObject c (in_put i) (in_copy i) r bkt key
  | PutObjectCall => handlePutObject cfg c (in_put i) r (in_contentLength i) (in_body i) bkt key
  | GetObjectCall => handleGetObject cfg c (in_get i) r bkt key
  | HeadObjectCall => handleHeadObject cfg c r bkt key
  | DeleteObjectCall => handleDeleteObject c (in_delete i) r bkt key
  | ObjectPost => mret (if has "vector_search" r then in_search i
                        else Fail (errText "unsupported POST operation"))
  | ObjectError msg => mret (Fail (errText msg))
  end.

Definition handlePOST (i : Input) (r : Request) (path : string) : Handler reply :=
  let c := in_caller i in
  match rootCallOf resumable path r with
  | VectorSearch | RootFtsSearch => mret (in_search i)
  | CreateSession bkt key => HandleCreateSession cfg c (in_resumable i) r bkt key
  | FinalizeSession bkt key => HandleFinalize cfg c (in_resumable i) r bkt key
  | CreateUpload bkt key => HandleCreateMultipartUpload cfg c (in_upload i) r bkt key
  | RootError msg => mret (Fail (errText msg))
  end.

Definition unauthorized (e : string) : reply := Refuse 401 "AccessDenied" e.
Definition handleRoute (i : Input) (r : Request) (path : string) : Handler reply :=
  let c := in_caller i in
  match routePath (in_rawPath i) path r with
  | Preflight => mret (Answer 200 ∅ (Body []) None)
  | ListBucketsCall => _ ← orStop (who_may c ActionRead "" "") unauthorized; handleListBuckets r
  | RootPost => _ ← orStop (who_may c ActionWrite "" "") unauthorized; handlePOST i r path
  | BucketRoute bkt => handleBucketOperations i r bkt
  | ObjectRoute bkt key => handleObjectOperations i r bkt key
  | NoRoute => mret (Refuse 404 "NoSuchResource" "The specified resource does not exist.")
  | BadRequest code message => mret (Refuse 400 code message)
  end.

Definition slowDown (limitType retryAfter : string) : reply :=
  Refuse 429 "SlowDown" ("Rate limit exceeded (" +:+ limitType +:+ "). Please retry after " +:+ retryAfter +:+ "s.").
Definition handleRequest (i : Input) (r : Request) (g : Gateway) : Gateway * reply :=
  if isMethod "OPTIONS" r then (g, Answer 200 ∅ (Body []) None)
  else
    match in_limited i with
    | Some (limitType, retryAfter) => (g, slowDown limitType retryAfter)
    | None =>
      let '(g, reply) := run (handleRoute i r (requestPath domain r)) g in (g, settleReply reply)
    end.

(** The origin that [setCORSHeaders] allows, from the bucket in the host. *)
Definition corsOrigin (r : Request) (vhostBucket : string) (g : Gateway) : string :=
  let origin := HeaderGet "Origin" r in
  let allowed := match GetBucket vhostBucket (g_metadata g) with
    | Ok info => match bi_CORS info with
                 | Some c => default [] (cors_AllowedOrigins c)
                 | None => []
                 end
    | _ => []
    end in
  if negb (bool_decide (origin = ""%string)) &&
     existsb (fun a => bool_decide (a = "*"%string) || bool_decide (a = origin)) allowed
  then origin else "*".
End S3.
