(* ===== verification/GatewayObjectsTheorems.v ===== *)
(** * The object service as a map

    Without encryption and without a cache, puts, gets and deletes through the
    gateway behave as operations on a map from buckets and keys to contents,
    on any backend that keeps its laws and for keys that have places of their
    own. *)

From S2P Require Import Prelude GoIO GoStrings GoText GoFloat GoJson Bolt CryptoLib Stream StreamProofs Keys Token.
From S2P Require Import Coordinator LocalServices Cache Integrity MetadataStore MetadataTheorems Storage StorageTheorems.
From S2P Require Import IntegrityTheorems LocalServices CryptoTheorems GatewayHttp GatewayCore GatewayObjects.
From Stdlib Require Import Ascii String.
From stdpp Require Import base list strings gmap pretty.

#[local] Open Scope Z_scope.

(** ** Replies and the monad *)

Lemma Fail_status e : 400 <= statusOf (Fail e).
Proof.
  unfold statusOf, settleReply, classifyHandlerError.
  destruct (he_is e); repeat case_bool_decide; repeat destruct (HasPrefix _ _); simpl; lia.
Qed.

#[export] Hint Unfold run mbind handler_bind mret handler_ret stop gets modify onMetadata onStore onDisk orStop
  needMethod requireAccess failWith : handler.

Section Objects.
Context {B : Type} `{BackendLaws B} `{BoltLaws} `{AnyJson} `{MetaText} `{CryptoLib, CryptoServices}.
Context `{GoUnicode} `{HttpLib} `{Sha256}.
Context (cfg : Config).
#[local] Notation Handler := (Handler (B := B)).
#[local] Notation Gateway := (Gateway (B := B)).
Implicit Types (g : Gateway) (s : TieredObjectStore B) (ms : MetadataStore).

(** ** What a request for one object may touch *)

Definition touches (b k : string) s s' : Prop :=
  tiersOk s' /\ (forall t b' k', place t b' k' s' = place t b' k' s) /\
  forall t q, place t b k s <> Some q -> contentAt t q s' = contentAt t q s.
Definition touchesRecord (b k : string) ms ms' : Prop :=
  forall b' k', objectKey b' k' <> objectKey b k ->
    MetadataStore.GetObject b' k' ms' = MetadataStore.GetObject b' k' ms.

Lemma touches_refl b k s : tiersOk s -> touches b k s s.
Proof. by split. Qed.
Lemma keepsAll_touches b k s s' : keepsAll s s' -> touches b k s s'.
Proof. intros (T & P & C). by split. Qed.
Lemma changesAt_touches b k t q c s s' : place t b k s = Some q -> changesAt t q c s s' -> touches b k s s'.
Proof.
  intros P (T & Pl & C). split; [done|]. split; [done|]. intros t' q' N. rewrite C, decide_False; [done|].
  by intros [-> ->].
Qed.
Lemma ts_Put_touches io b k d n t s s' r : ts_Put io b k d n t s = (s', r) -> tiersOk s -> touches b k s s'.
Proof.
  intros E T. destruct (ts_Put_spec _ _ _ _ _ _ _ _ _ E T) as [A F].
  destruct (res_unit_cases r) as [[_ R]|[_ R]]; [|by apply keepsAll_touches, F].
  destruct (A R) as (q & P & _ & _ & C). by eapply changesAt_touches.
Qed.
Lemma ts_Delete_touches io b k t s s' r : ts_Delete io b k t s = (s', r) -> tiersOk s -> touches b k s s'.
Proof.
  intros E T. destruct (ts_Delete_spec _ _ _ _ _ _ _ E T) as [A F].
  destruct (res_unit_cases r) as [[_ R]|[_ R]]; [|by apply keepsAll_touches, F].
  destruct (A R) as (q & P & C). by eapply changesAt_touches.
Qed.
Lemma PutObject_touches uuid now now' io commit b k m ms ms' m' r :
  MetadataStore.PutObject uuid now now' io commit b k m ms = (ms', m', r) -> touchesRecord b k ms ms'.
Proof.
  intros E b' k' N. destruct (PutObject_get _ _ _ _ _ _ _ _ _ _ _ _ E) as [A F].
  destruct (res_unit_cases r) as [[_ R]|[_ R]]; [|by apply F].
  destruct (A R) as (data & _ & _ & V). by rewrite V, decide_False.
Qed.


(** What a get of the object finds: no content for a delete marker. *)
Definition served (b k : string) g : option bytes :=
  match MetadataStore.GetObject b k (g_metadata g) with
  | Ok m => if om_DeleteMarker m then None
            else q ← place (om_StorageTier m) b k (g_store g); contentAt (om_StorageTier m) q (g_store g)
  | _ => None
  end.

(** What a handler for one object may touch, and its service settings. *)
Definition localTo (b k : string) g g' : Prop :=
  touches b k (g_store g) (g_store g') /\ touchesRecord b k (g_metadata g) (g_metadata g') /\
  g_cache g' = g_cache g /\ g_crypto g' = g_crypto g.


(** The steps of a run. *)
Lemma run_bind {A} (m : Handler A) (f : A -> Handler reply) g :
  run (m ≫= f) g = match m g with (g, inl a) => run (f a) g | (g, inr r) => (g, r) end.
Proof. unfold run, mbind, handler_bind. by destruct (m g) as [? []]. Qed.
Lemma run_orStop {A} (x : res A) e (f : A -> Handler reply) g :
  run (orStop x e ≫= f) g = match x with Ok a => run (f a) g | Err w => (g, e w) | Panic w => (g, Crash w) end.
Proof. rewrite run_bind. by destruct x. Qed.
Lemma run_ret r g : run (mret r) g = (g, r).
Proof. done. Qed.
Lemma handler_gets {A} (x : Gateway -> A) (f : A -> Handler reply) g : run (gets x ≫= f) g = run (f (x g)) g.
Proof. done. Qed.
Lemma run_need w r (f : unit -> Handler reply) g :
  run (needMethod w r ≫= f) g =
  if bool_decide (r_Method r = w) then run (f tt) g else (g, Fail (errText "method not allowed")).
Proof. unfold needMethod. rewrite run_bind. by case_bool_decide. Qed.

Definition clean (b k : string) g : Prop :=
  forall m, MetadataStore.GetObject b k (g_metadata g) = Ok m -> om_SSECUsed m = false.

Lemma Sized_data n body n' body' : cf_MaxUploadBytes cfg < int64_max ->
  resolveUploadContentLength (cf_MaxUploadBytes cfg) n body = Sized n' body' -> sr_data body' = sr_data body.
Proof.
  unfold resolveUploadContentLength. generalize (cf_MaxUploadBytes cfg) as max. intros max L.
  destruct (0 <=? n) eqn:P; [destruct (_ && _); intros; by simplify_eq|].
  destruct (0 <? max) eqn:M.
  - rewrite wrap64_id by (boolify; unfold in_int64, int64_min, int64_max in *; lia).
    destruct (sr_err (LimitReader (max + 1) body)); [done|]. simpl.
    destruct (max <? _) eqn:O; [done|]. intros; simplify_eq. boolify. unfold LimitReader in *. simpl in *.
    revert O. repeat case_match; simpl; intros; auto; rewrite ?length_take in *; try (rewrite take_ge; [done|lia]); lia.
  - destruct (sr_err body); [done|]. simpl. intros; by simplify_eq.
Qed.

(** Storing: the data, then the record, and the data is removed again when the
    record cannot be written. *)
Lemma store_record_spec mio undo b k m g g' x :
  putObjectMetadataAfterStore mio undo b k TierHot m g = (g', x) -> tiersOk (g_store g) ->
  localTo b k g g' /\ (om_SSECUsed m = false -> clean b k g -> clean b k g') /\
  match x with
  | inl m' => exists o, MetadataStore.GetObject b k (g_metadata g') = Ok o /\ om_ETag o = jsonString (om_ETag m) /\
      om_StorageTier o = om_StorageTier m /\ om_DeleteMarker o = om_DeleteMarker m /\
      om_Size o = om_Size m /\ om_Encrypted o = om_Encrypted m /\ om_EncryptedDEK o = om_EncryptedDEK m /\
      om_SSECUsed o = om_SSECUsed m /\ g_store g' = g_store g
  | inr rep => statusOf rep <> 200
  end.
Proof.
  intros E T. unfold putObjectMetadataAfterStore in E.
  unfold mbind at 1, handler_bind at 1, onMetadata at 1 in E.
  destruct (MetadataStore.PutObject _ _ _ _ _ _ _ _ _) as [[ms m'] r] eqn:P.
  pose proof (PutObject_touches _ _ _ _ _ _ _ _ _ _ _ _ P) as Tm.
  destruct (PutObject_get _ _ _ _ _ _ _ _ _ _ _ _ P) as [A F].
  assert (r <> Ok tt -> clean b k g -> clean b k (set_metadata ms g)) as Cl.
  { intros R C o. simpl. rewrite F by done. apply C. }
  destruct r as [[]|e|w].
  - injection E as <- <-. destruct (A eq_refl) as (data & D & -> & V). apply marshalTimes_ok in D. subst data.
    specialize (V b k). rewrite decide_True in V by done.
    split; [split; [by apply touches_refl|by split]|]. split.
    + intros NS _ o O. simpl in O. rewrite V in O. by injection O as <-.
    + eexists. split; [exact V|]. by split_and!.
  - unfold mbind, handler_bind, onStore in E.
    destruct (ts_Delete undo b k TierHot (g_store (set_metadata ms g))) as [s u] eqn:U. injection E as <- <-.
    apply ts_Delete_touches in U; [|done]. split; [by split; [|split]|]. split; [by intros _; apply Cl|].
    pose proof (Fail_status (metaErr "failed to store metadata" e)). lia.
  - injection E as <- <-. split; [split; [by apply touches_refl|by split]|]. split; [by intros _; apply Cl|]. done.
Qed.


Lemma served_record b k m g : MetadataStore.GetObject b k (g_metadata g) = Ok m ->
  served b k g = if om_DeleteMarker m then None
                 else q ← place (om_StorageTier m) b k (g_store g); contentAt (om_StorageTier m) q (g_store g).
Proof. intros E. unfold served. by rewrite E. Qed.
Lemma Finalize_nopanic ck d w : Finalize ck d <> Panic w.
Proof. unfold Finalize. by repeat case_bool_decide. Qed.

(** How an upload without encryption ends: before the store, when the data
    cannot be stored, after a digest that does not match, or with its record. *)
Definition early (rep : reply) : Prop :=
  match rep with
  | Answer _ _ _ _ => False
  | Refuse st code _ => st <> 200 /\ code <> "BadDigest"%string
  | Fail e => he_is e = None
  | Crash _ => True
  end.
Inductive putEnds (env : PutEnv) (b k : string) (body : stream) g : Gateway -> reply -> Prop :=
| put_early rep : early rep -> putEnds env b k body g g rep
| put_unstored d n s1 r rep : ts_Put (pe_io env) b k d n TierHot (g_store g) = (s1, r) -> r <> Ok tt ->
    early rep -> putEnds env b k body g (set_store s1 g) rep
| put_bad_digest d n s1 s2 r e : ts_Put (pe_io env) b k d n TierHot (g_store g) = (s1, Ok tt) ->
    sr_data d = sr_data body -> ts_Delete (pe_undo env) b k TierHot s1 = (s2, r) ->
    putEnds env b k body g (set_store s2 (set_store s1 g)) (Refuse 400 "BadDigest" e)
| put_unrecorded d n s1 m g2 rep : ts_Put (pe_io env) b k d n TierHot (g_store g) = (s1, Ok tt) ->
    sr_data d = sr_data body -> om_SSECUsed m = false ->
    putObjectMetadataAfterStore (pe_meta env) (pe_undo env) b k TierHot m (set_store s1 g) = (g2, inr rep) ->
    putEnds env b k body g g2 rep
| put_recorded d n s1 m m' g2 rep t : ts_Put (pe_io env) b k d n TierHot (g_store g) = (s1, Ok tt) ->
    sr_data d = sr_data body ->
    putObjectMetadataAfterStore (pe_meta env) (pe_undo env) b k TierHot m (set_store s1 g) = (g2, inl m') ->
    om_SSECUsed m = false -> om_Encrypted m = false -> om_DeleteMarker m = false ->
    om_StorageTier m = TierHot -> om_Size m = n -> om_ETag m = pe_etag env -> statusOf rep = 200 ->
    putEnds env b k body g (addTask t g2) rep.

Lemma early_status rep : early rep -> statusOf rep <> 200.
Proof. destruct rep as [| |e|]; simpl; [done|by intros []| |done]. pose proof (Fail_status e). lia. Qed.

Lemma handlePutObject_ends c env r n body b k g g' rep :
  run (handlePutObject cfg c env r n body b k) g = (g', rep) -> g_crypto g = None ->
  cf_MaxUploadBytes cfg < int64_max -> putEnds env b k body g g' rep.
Proof.
  intros E NK Max. unfold handlePutObject in E. rewrite run_need in E.
  case_bool_decide; [|simplify_eq; by apply put_early].
  unfold requireAccess in E. rewrite run_orStop in E. destruct (who_may _ _ _ _); [|simplify_eq; by apply put_early..].
  rewrite run_orStop in E. destruct (parseObjectContentType _) as [ct| |]; [|simplify_eq; by apply put_early..].
  rewrite run_bind in E. destruct (resolveUploadContentLength _ _ _) as [n' body'| |] eqn:Z;
    [|unfold stop in E; simplify_eq; by apply put_early..].
  apply Sized_data in Z; [|done]. cbn -[ParseSSECHeaders] in E. rewrite run_orStop in E.
  destruct (ParseSSECHeaders r) as [[key|]| |];
    [|..|simplify_eq; by apply put_early|simplify_eq; by apply put_early];
    rewrite run_bind in E; unfold encodeUpload in E; unfold mbind at 1, handler_bind at 1, gets at 1 in E;
    rewrite NK in E; [unfold stop in E; simplify_eq; by apply put_early|].
  cbn -[ts_Put Finalize] in E. rewrite run_bind in E. unfold onStore at 1 in E.
  destruct (ts_Put _ _ _ _ _ _ _) as [s1 r1] eqn:P. rewrite run_orStop in E.
  destruct r1 as [[]| |]; [|simplify_eq; by eapply put_unstored..].
  rewrite run_bind in E. destruct (Finalize _ _) as [[ck typ]|e|w] eqn:F; [| |by apply Finalize_nopanic in F].
  2:{ unfold mbind, handler_bind, onStore, stop in E. destruct (ts_Delete _ _ _ _ _) as [s2 r2] eqn:U.
      simplify_eq. by eapply put_bad_digest. }
  cbn [mret handler_ret] in E. rewrite run_bind in E.
  destruct (putObjectMetadataAfterStore _ _ _ _ _ _ _) as [g2 [m'|rep']] eqn:M.
  - rewrite run_bind in E. cbn in E. simplify_eq. eapply put_recorded; [exact P|exact Z|exact M|done..].
  - simplify_eq. eapply put_unrecorded; [exact P|exact Z| |exact M]; done.
Qed.





(** A request for the whole object, whatever its state. *)
Definition plainGet (r : Request) : Prop :=
  r_Method r = "GET"%string /\ HeaderGet "Range" r = ""%string /\ HeaderGet "If-None-Match" r = ""%string /\
  HeaderGet "If-Match" r = ""%string /\ HeaderGet "If-Modified-Since" r = ""%string.



(** Without a cache and without encryption a get changes nothing. *)
Definition still {A} (h : Handler A) : Prop :=
  forall g, g_cache g = None -> g_crypto g = None -> (h g).1 = g.
Lemma still_pure {A} (h : Handler A) (x : A + reply) : h = (fun g => (g, x)) -> still h.
Proof. by intros -> g _ _. Qed.
Lemma still_ret {A} (a : A) : still (mret a).
Proof. by eapply still_pure. Qed.
Lemma still_stop {A} r : still (stop (A := A) r).
Proof. by eapply still_pure. Qed.
Lemma still_orStop {A} (x : res A) e : still (orStop x e).
Proof. destruct x; [apply still_ret|apply still_stop..]. Qed.
#[local] Hint Resolve still_ret still_stop still_orStop : still.


(** ** Requests for objects, and what they do to a map *)


Notation objectMap := (string -> string -> option bytes) (only parsing).





(** ** Uploads that are refused after their data was stored *)




(** ** The cache *)

(** An accepted upload leaves the cache as it is: a get that finds the object
    there answers with the content from before the upload, under the new entity
    tag. *)
Theorem put_leaves_stale_cache c env r n body b k g g' rep oc :
  run (handlePutObject cfg c env r n body b k) g = (g', rep) -> statusOf rep = 200 ->
  g_crypto g = None -> cf_MaxUploadBytes cfg < int64_max -> tiersOk (g_store g) -> g_cache g = Some oc ->
  exists m, MetadataStore.GetObject b k (g_metadata g') = Ok m /\ om_ETag m = jsonString (pe_etag env) /\
    g_cache g' = Some oc /\
    forall c2 env2 r2 oc2 old, plainGet r2 -> who_may c2 ActionRead b k = Ok tt -> om_Size m < 1048576 ->
      oc_Get (ge_cacheAge env2) (ge_cacheUsed env2) (b +:+ "/" +:+ k) oc = (oc2, Some old) ->
      (run (handleGetObject cfg c2 env2 r2 b k) g').2 =
      Answer 200 (writeObjectResponseHeaders r2 m
        (mkOptions (Z.of_nat (length old)) (quoted (om_ETag m)) true "max-age=3600" "HIT" "" false) ∅)
        (Body old) None.
Proof.
  intros E St NK Max T NC. apply handlePutObject_ends in E; [|done..].
  destruct E as [rep Ea|d n0 s1 r1 rep P N Ea|d n0 s1 s2 r1 e P Dt U|d n0 s1 m1 g2 rep P Dt Ss M
                |d n0 s1 m1 m2 g2 rep t P Dt M Ss En De Ti1 _ Et _]; try (by apply early_status in Ea); [done| |].
  { apply store_record_spec in M as (_ & _ & X); [done|by eapply ts_Put_touches]. }
  apply store_record_spec in M as (L & _ & o & O & Eo & _ & De' & _ & En' & _); [|by eapply ts_Put_touches].
  destruct L as (_ & _ & C & _). exists o. split; [done|]. split; [by rewrite Eo, Et|].
  split; [simpl; by rewrite C|]. intros c2 env2 r2 oc2 old (Me & Ra & C1 & C2 & C3) W Sz Hit.
  unfold handleGetObject. rewrite run_need, bool_decide_true by done. rewrite run_bind.
  assert (exists p, isBucketPublicRead cfg b (addTask t g2) = (addTask t g2, inl p)) as [p' ->].
  { unfold isBucketPublicRead. destruct (cf_AnonymousRead cfg); by eexists. }
  rewrite run_bind.
  assert ((if negb (isPresignedURL r2) && negb p' then requireAccess c2 "access denied" ActionRead b k
           else mret tt) (addTask t g2) = (addTask t g2, inl tt)) as ->.
  { destruct (_ && _); [|done]. unfold requireAccess. by rewrite W. }
  rewrite handler_gets, run_orStop. cbn [addTask g_metadata]. rewrite O, De', De.
  unfold conditional. rewrite C1, C2, C3. simpl. rewrite handler_gets. cbn [addTask g_cache].
  rewrite C. cbn [set_store g_cache]. rewrite NC. unfold cacheable. rewrite Ra, En', En, bool_decide_true by done.
  replace (om_Size o <? 1048576) with true by (symmetry; apply Z.ltb_lt; lia). cbn [andb negb].
  rewrite run_bind, Hit. done.
Qed.

(** ** Who may read *)

(** A request that carries the query parameter of a presigned link is answered
    whoever sends it: no signature is checked. *)
Theorem presigned_get_skips_authentication c c' env r b k g :
  isPresignedURL r = true -> who_userID c = who_userID c' ->
  run (handleGetObject cfg c env r b k) g = run (handleGetObject cfg c' env r b k) g.
Proof. intros P U. unfold handleGetObject, decodeObject. by rewrite P, U. Qed.


(** ** Encryption *)

Section Encryption.
Context {laws : CryptoLaws} {contract : KeyCustody}.

Lemma copyBufs_enough key nonce data : Z.of_nat (length data) < 2 ^ 46 ->
  enough (copyBufs (length data)) (length (encStream key nonce 0 data)).
Proof.
  intros L. unfold copyBufs. split.
  - apply Forall_forall. intros x I%list_elem_of_In%repeat_spec. subst x. by apply Nat.ltb_lt.
  - rewrite repeat_length. apply Nat2Z.inj_lt. unfold numChunks in *.
    assert (0 <= (Z.of_nat (length data) + 32767) / 32768 <= Z.of_nat (length data) + 1) as N.
    { split; [apply Z.div_pos; lia|]. apply Z.div_le_upper_bound; lia. }
    rewrite length_encStream; [|lia|].
    + unfold numChunks. repeat case_decide; simpl; lia.
    + unfold numChunks. assert ((Z.of_nat (length data) + 32767) / 32768 <= 2 ^ 31 + 1); [|lia].
      apply Z.div_le_upper_bound; lia.
Qed.

Lemma sealed_zero h body l nonce : slice h l = zeros 32 -> sr_err body = None ->
  Z.of_nat (length (sr_data body)) < 2 ^ 46 ->
  sealed h body (newStreamingEncryptReader (toReader body) l nonce) =
  streamOf (encStream (zeros 32) nonce 0 (sr_data body)).
Proof.
  intros S E L. unfold sealed. rewrite (enc_reader_delivers h (toReader body) l nonce _ (zeros 32)); [done..| |].
  - unfold toReader. by rewrite E.
  - by apply copyBufs_enough.
Qed.

Lemma encodeUpload_zero env key u b k n body g g' e (v : svc) :
  encodeUpload cfg env key u b k n body g = (g', inl e) -> g_crypto g = Some v -> paired v ->
  sr_err body = None -> Z.of_nat (length (sr_data body)) < 2 ^ 46 ->
  (is_Some key \/ cf_CryptoEnabled cfg = true) ->
  (forall ck, key = Some ck -> length ck = 32%nat) ->
  g_store g' = g_store g /\ g_metadata g' = g_metadata g /\ en_encrypted e = true /\
  exists nonce, en_data e = streamOf (encStream (zeros 32) nonce 0 (sr_data body)) /\
    (en_metadata e = 1 :: nonce \/ exists rest, en_metadata e = nonce ++ rest).
Proof.
  intros E K Pa Er L Mode Len. unfold encodeUpload in E.
  unfold mbind at 1, handler_bind at 1, gets at 1 in E. rewrite K in E. destruct key as [ck|].
  - specialize (Len _ eq_refl). unfold encryptForClient in E.
    unfold mbind at 1, handler_bind at 1, gets at 1 in E.
    pose proof (slice_alloc (g_heap g) ck) as Sa. destruct (alloc (g_heap g) ck) as [h loc]. simpl in Sa.
    unfold mbind, handler_bind, gets, modify in E. cbn [g_crypto] in E. unfold EncryptWithClientKey in E.
    rewrite Sa, decide_True in E by done.
    destruct (randBuf ssecNonceSize (pe_nonce env)) as [nonce| |] eqn:R; simpl in E; [|done..].
    injection E as <- <-. simpl. split_and!; [done..|]. exists nonce. split; [|eauto].
    apply sealed_zero; [|done..]. by rewrite slice_clear, Sa, Len.
  - destruct Mode as [[? ?]|Mode]; [done|]. rewrite Mode in E. unfold encryptForUser in E.
    unfold mbind at 1, handler_bind at 1, gets at 1 in E.
    destruct (EncryptOperation _ _ _ _ _ _ _ _ _) as [[h' s'] x] eqn:EO.
    unfold mbind, handler_bind, modify in E. destruct x as [[[[r kid] md] est]| |]; simpl in E; [|done..].
    injection E as <- <-. simpl. split_and!; [done..|].
    apply EncryptOperation_inv in EO
      as (c & tok & s1 & s2 & d & xx & pub & sk & dek & nonce & l & Et & Eg & Es & Ek & Ex & Hn & -> & -> & Hz).
    pose proof (paired_write_token (oe_token (pe_op env)) (oe_now (pe_op env)) u b k 30 v Pa) as Hp1.
    rewrite Et in Hp1.
    destruct (generate_store _ _ _ _ _ _ _ _ _ _ _ _ _ _ _ _ _ Hp1 Eg Es) as (dek' & Hl & (sk' & Ek' & Ex') & _).
    assert (dek = dek') as -> by congruence. exists nonce. split; [|by left].
    apply sealed_zero; [|done..]. by rewrite Hz, Hl.
Qed.

Lemma encodeUpload_fails env key u b k n body g g' rep :
  encodeUpload cfg env key u b k n body g = (g', inr rep) -> statusOf rep <> 200.
Proof.
  assert (forall e, statusOf (Fail e) <> 200) as Failed by (intros e; pose proof (Fail_status e); lia).
  unfold encodeUpload, encryptForClient, encryptForUser, mbind, handler_bind, gets, modify, stop, orStop, failWith.
  destruct key as [ck|], (g_crypto g) as [s|]; simpl; [| | |done].
  - destruct (EncryptWithClientKey _ _ _ _ _) as [[[? ?] ?]| |]; simpl; intros; by simplify_eq; try apply Failed.
  - intros; by simplify_eq; try apply Failed.
  - destruct (cf_CryptoEnabled cfg); [|done].
    destruct (EncryptOperation _ _ _ _ _ _ _ _ _) as [[h' s'] [[[[? ?] ?] ?]| |]]; simpl; intros; by simplify_eq; try apply Failed.
Qed.

Lemma ParseSSEC_length r ck : ParseSSECHeaders r = Ok (Some ck) -> length ck = 32%nat.
Proof.
  unfold ParseSSECHeaders. repeat case_bool_decide; simpl; try done.
  all: destruct (DecodeString _) as [x| |]; simpl; try done.
  all: destruct (length x =? 32)%nat eqn:L; simpl; try done.
  all: destruct (DecodeString _) as [y| |]; simpl; try done.
  all: case_bool_decide; intros; simplify_eq; by apply Nat.eqb_eq.
Qed.

(** C1: What the gateway stores for an upload that it encrypts, under the
    customer's key or a data key of its own, is the body enciphered with the
    all-zero key and a nonce that is part of the record: the record and the
    stored bytes are enough to read the object. *)
Theorem encrypted_uploads_use_zero_key c env r n body b k g g' rep (v : svc) :
  run (handlePutObject cfg c env r n body b k) g = (g', rep) -> statusOf rep = 200 ->
  g_crypto g = Some v -> paired v -> tiersOk (g_store g) -> cf_MaxUploadBytes cfg < int64_max ->
  sr_err body = None -> Z.of_nat (length (sr_data body)) < 2 ^ 46 ->
  (exists ck, ParseSSECHeaders r = Ok (Some ck)) \/ cf_CryptoEnabled cfg = true ->
  exists m nonce, MetadataStore.GetObject b k (g_metadata g') = Ok m /\ om_Encrypted m = true /\
    (om_EncryptedDEK m = 1 :: nonce \/ exists rest, om_EncryptedDEK m = nonce ++ rest) /\
    served b k g' = Some (encStream (zeros 32) nonce 0 (sr_data body)).
Proof.
  intros E St K Pa T Max Er L Mode.
  assert (forall e, statusOf (Fail e) <> 200) as Failed by (intros e; pose proof (Fail_status e); lia).
  unfold handlePutObject in E. rewrite run_need in E. case_bool_decide; [|simplify_eq; by apply Failed in St].
  unfold requireAccess in E. rewrite run_orStop in E.
  destruct (who_may _ _ _ _); [|simplify_eq; by try apply Failed in St..].
  rewrite run_orStop in E. destruct (parseObjectContentType _) as [ct| |]; [|simplify_eq; by try apply Failed in St..].
  rewrite run_bind in E. destruct (resolveUploadContentLength _ _ _) as [n' body'| |] eqn:Z;
    [|unfold stop in E; simplify_eq; by try apply Failed in St..].
  pose proof (Sized_data _ _ _ _ Max Z) as Zd.
  assert (sr_err body' = None) as Er'.
  { unfold resolveUploadContentLength in Z. destruct (0 <=? n); [destruct (_ && _); by simplify_eq|].
    destruct (sr_err (if 0 <? cf_MaxUploadBytes cfg then _ else _)); [done|]. destruct (_ && _); by simplify_eq. }
  cbn -[ParseSSECHeaders] in E. rewrite run_orStop in E.
  destruct (ParseSSECHeaders r) as [key| |] eqn:PS; [|simplify_eq..]; [|done..].
  rewrite run_bind in E. destruct (encodeUpload _ _ _ _ _ _ _ _ g) as [g1 [e|rep']] eqn:En.
  2:{ simplify_eq. by apply encodeUpload_fails in En. }
  rewrite <- Zd in L. destruct (encodeUpload_zero _ _ _ _ _ _ _ _ _ _ _ En K Pa Er' L) as (Sg & Mg & Ee & nonce & Ed & Em).
  { destruct Mode as [[ck Hck]|]; [left; injection Hck as ->; eauto|by right]. }
  { intros ck ->. by eapply ParseSSEC_length. }
  cbn -[ts_Put Finalize] in E. rewrite run_bind in E. unfold onStore at 1 in E. rewrite Sg, Ed in E.
  destruct (ts_Put _ _ _ _ _ _ _) as [s1 r1] eqn:P. rewrite run_orStop in E.
  destruct r1 as [[]| |]; [|simplify_eq; by try apply Failed in St..].
  rewrite run_bind in E. destruct (Finalize _ _) as [[cks typ]|e'|w]; [| |unfold stop in E; by simplify_eq].
  2:{ unfold mbind, handler_bind, onStore, stop in E. destruct (ts_Delete _ _ _ _ _) as [s2 r2]. by simplify_eq. }
  cbn [mret handler_ret] in E. rewrite run_bind in E.
  destruct (ts_Put_spec _ _ _ _ _ _ _ _ _ P T) as [A _]. destruct (A eq_refl) as (q & Q & _ & _ & (T1 & Pl & C)).
  destruct (putObjectMetadataAfterStore _ _ _ _ _ _ _) as [g2 x] eqn:M.
  apply store_record_spec in M as (_ & _ & X); [|done].
  destruct x as [m'|rep']; [|by simplify_eq]. destruct X as (o & O & _ & Ti & De & _ & En' & EDK & _ & St').
  rewrite run_bind in E. cbn in E. simplify_eq. simpl in *.
  exists o, nonce. split; [done|]. split; [by rewrite En'|]. split; [by rewrite EDK|].
  match goal with |- served b k ?x = _ => rewrite (served_record b k o x O) end.
  rewrite De, Ti. simpl. rewrite St'. simpl. rewrite Pl, Q. unfold mbind, option_bind.
  by rewrite C, decide_True, Zd.
Qed.
End Encryption.

(** ** Copies *)

(** Copying an object whose stored bytes are not as many as its record says,
    as those of every encrypted object, fails and changes nothing. *)
Theorem copy_of_encrypted_fails c env get r b k sb sk g g' rep m stored :
  run (handleCopyObject c env get r b k) g = (g', rep) -> tiersOk (g_store g) ->
  cut slash (TrimPrefix (HeaderGet "x-amz-copy-source" r) "/") = (sb, Some sk) ->
  MetadataStore.GetObject sb sk (g_metadata g) = Ok m ->
  ts_Get calm sb sk (om_StorageTier m) (g_store g) = Ok (streamOf stored) ->
  0 < om_Size m -> om_Size m <> Z.of_nat (length stored) ->
  statusOf rep <> 200 /\ keepsAll (g_store g) (g_store g') /\ g_metadata g' = g_metadata g.
Proof.
  intros E T Cu G Gt P N.
  assert (forall e, statusOf (Fail e) <> 200) as Failed by (intros e; pose proof (Fail_status e); lia).
  assert (keepsAll (g_store g) (g_store g)) as K0 by done.
  unfold handleCopyObject in E. rewrite run_need in E.
  case_bool_decide; [|simplify_eq; by split; [apply Failed|]].
  unfold requireAccess in E. rewrite run_orStop in E. destruct (who_may _ ActionWrite _ _);
    [|simplify_eq; by split; [first [apply Failed|done]|]..].
  case_bool_decide as Hs; [unfold run, stop in E; simplify_eq; by split; [apply Failed|]|].
  rewrite Cu, run_orStop in E. destruct (who_may _ ActionRead _ _);
    [|simplify_eq; by split; [first [apply Failed|done]|]..].
  rewrite handler_gets, G, run_orStop in E.
  destruct (om_DeleteMarker m); [rewrite run_ret in E; by simplify_eq|].
  rewrite handler_gets, run_orStop in E.
  destruct (ts_Get get _ _ _ _) as [d| |] eqn:D; [|simplify_eq; by split; [first [apply Failed|done]|]..].
  assert (d = streamOf stored) as ->.
  { unfold ts_Get in D, Gt. destruct (ts_tiers (g_store g) !! om_StorageTier m) as [be|] eqn:L; [|done].
    apply wrapErr_ok in D, Gt. pose proof (be_Get_io _ _ _ _ (T _ _ L) D) as Z. rewrite Z in D. simpl in Gt. congruence. }
  rewrite run_bind in E. unfold putStoredObjectWithMetadata in E.
  unfold mbind at 1, handler_bind at 1, onStore at 1 in E.
  destruct (ts_Put _ _ _ _ _ _ _) as [s1 r1] eqn:Pu. destruct (ts_Put_spec _ _ _ _ _ _ _ _ _ Pu T) as [A F].
  destruct (res_unit_cases r1) as [[_ R]|[_ R]].
  - destruct (A R) as (q & _ & _ & Sz & _). by destruct N; apply Sz.
  - unfold mbind at 1, handler_bind at 1 in E. destruct r1 as [[]| |]; [done|..]; cbn [orStop stop] in E; unfold stop in E;
      simplify_eq; (split; [first [apply Failed|done]|]; split; [by apply F|done]).
Qed.
End Objects.

(** ** A gateway over directories *)

Module GatewayDemo.
Import MapBolt MetadataDemo StorageDemo.
#[export] Instance demoHttp : HttpLib := {|
  md5_Sum := take 1; httpTime _ := "some day"%string; parseHttpTime _ := None; rfc3339 _ := "now"%string
|}.
#[local] Existing Instance AsciiOnly.ascii_unicode.
#[local] Existing Instance ToyCrypto.toy.
#[local] Existing Instance ToyCrypto.toy_laws.
#[local] Existing Instance IntegrityDemo.demoSha.
#[local] Existing Instance Demo.services.
#[local] Existing Instance Demo.contract.

Definition cfg : Config := mkConfig true false 1000 None ["data"; "uploads"]%string ["data"; "resumable"]%string 100.
Definition owner : Caller := mkCaller (fun _ _ _ => Ok tt) "ann".
Definition stranger : Caller := mkCaller (fun _ _ _ => Err "access denied"%string) "anonymous".
Definition withHeaders (method : string) (h : list (string * string)) : Request :=
  mkRequest method "host" "/bkt/k" "" (list_to_map ((fun x => (CanonicalHeaderKey x.1, [x.2])) <$> h)) [] "".
Definition presigned : Request := mkRequest "GET" "host" "/bkt/k" "X-Amz-Credential=x" ∅ [] "".

(** A bucket of at most 40 bytes. *)
Definition small : BucketInfo :=
  mkBucketInfo "" 5 "" "" "" "" (Some (mkQuota 0 40 (SpecFloat.S754_zero false))) None None None None None
    0 0 false false None "".
Definition records0 : MetadataStore :=
  MetadataDemo.run [OpCreateBucket 5 (Ok tt) "bkt" (Some small)].
Definition gateway0 : Gateway (B := FileBackend) := mkGateway records0 tiers0 None None ∅ [] ∅.
Definition sealing : Gateway (B := FileBackend) := mkGateway records0 tiers0 None (Some Demo.start) ∅ [] ∅.
Definition caching : Gateway (B := FileBackend) :=
  mkGateway records0 tiers0 (Some (NewObjectCache 100 100)) None ∅ [] ∅.

#[local] Notation run := GatewayObjects.run (only parsing).
Definition op : OpEnv := Demo.env1.
Definition putEnv (etag : string) : PutEnv :=
  mkPutEnv 6 etag "v1" (Ok [1; 2; 3]) op calm calm mio.
Definition getEnv : GetEnv := mkGetEnv calm op 7 7 (7, 7).
Definition deleteEnv : DeleteEnv := mkDeleteEnv 8 "d" "v2" calm (Ok tt) mio.
Definition put (etag : string) (h : list (string * string)) (data : bytes) : Handler (B := FileBackend) reply :=
  handlePutObject cfg owner (putEnv etag) (withHeaders "PUT" h) (Z.of_nat (length data)) (streamOf data) "bkt" "k".
Definition get (c : Caller) (r : Request) : Handler (B := FileBackend) reply :=
  handleGetObject cfg c getEnv r "bkt" "k".
Definition one : bytes := [111; 110; 101].
Definition stored1 : Gateway := (run (put "e1" [] one) gateway0).1.

(** What a client sees of a reply: the status, the body, the entity tag. *)
Definition view (r : reply) : Z * bytes * option string :=
  match settleReply r with
  | Answer st h (Body b) _ => (st, b, h !! "Etag"%string)
  | r => (statusOf r, [], None)
  end.

Example put_and_get :
  (view (run (put "e1" [] one) gateway0).2, view (run (get owner (withHeaders "GET" [])) stored1).2)
  = ((200, [], Some (quoted "e1")), (200, one, Some (quoted "e1"))).
Proof. vm_compute. reflexivity. Qed.
Example range_of_object :
  view (run (get owner (withHeaders "GET" [("Range", "bytes=1-")%string])) stored1).2 = (206, [110; 101], Some (quoted "e1")).
Proof. vm_compute. reflexivity. Qed.

(** *** Witnesses *)


Definition anyone (method : string) : Request := withHeaders method [].



(** The object is stored and read, which caches it, and overwritten. *)
Definition cached1 : Gateway (B := FileBackend) := (run (get owner (anyone "GET")) (run (put "e1" [] one) caching).1).1.
Definition cache1 : ObjectCache := default (NewObjectCache 0 0) (g_cache cached1).
Lemma cached1_ok : tiersOk (g_store cached1).
Proof.
  destruct (run (put "e1" [] one) caching) as [g rep] eqn:E.
  replace (g_store cached1) with (g_store g) by (apply (f_equal fst) in E; simpl in E; subst g; by vm_compute).
  unfold put in E. apply handlePutObject_ends in E; [|done..]. destruct E; try apply tiersOk0.
  - eapply ts_Put_touches; [done|]. apply tiersOk0.
  - eapply ts_Delete_touches; [done|]. eapply ts_Put_touches; [done|]. apply tiersOk0.
  - match goal with M : putObjectMetadataAfterStore _ _ _ _ _ _ _ = _ |- _ => eapply store_record_spec in M as [L _]; [apply L|] end.
    eapply ts_Put_touches; [done|]. apply tiersOk0.
  - match goal with M : putObjectMetadataAfterStore _ _ _ _ _ _ _ = _ |- _ => eapply store_record_spec in M as [L _]; [apply L|] end.
    eapply ts_Put_touches; [done|]. apply tiersOk0.
Qed.
Lemma put_leaves_stale_cache_witness :
  view (run (get owner (anyone "GET")) (run (put "e2" [] [50]) cached1).1).2 = (200, one, Some (quoted "e2")).
Proof.
  destruct (put_leaves_stale_cache cfg owner (putEnv "e2") (withHeaders "PUT" []) 1 (streamOf [50]) "bkt" "k"
    cached1 (run (put "e2" [] [50]) cached1).1 (run (put "e2" [] [50]) cached1).2 cache1) as (m & G & Et & _ & St);
    [by unfold put; destruct (run _ _)|by vm_compute|by vm_compute|done|apply cached1_ok|by vm_compute|].
  unfold get. erewrite St; [| | |by vm_compute in G; simplify_eq|].
  - rewrite Et. by vm_compute in G; simplify_eq; vm_compute.
  - by repeat split.
  - done.
  - by vm_compute.
Defined.

Lemma presigned_get_skips_authentication_witness :
  view (run (get stranger presigned) stored1).2 = (200, one, Some (quoted "e1")).
Proof.
  unfold get.
  rewrite (presigned_get_skips_authentication cfg stranger (mkCaller (fun _ _ _ => Ok tt) "anonymous") getEnv presigned "bkt" "k" stored1);
    [by vm_compute|by vm_compute|done].
Defined.

(** An upload under a data key and one under a customer's key of 32 ones. *)
Definition customer : list (string * string) :=
  [(hAlgorithm, "AES256"%string); (hKey, encode64 (repeat 1 32)); (hKeyMD5, encode64 [1])].
Definition enciphered (h : list (string * string)) : Gateway (B := FileBackend) * reply := run (put "e1" h one) sealing.
Lemma encrypted_uploads_use_zero_key_witness :
  (exists nonce, served "bkt" "k" (enciphered []).1 = Some (encStream (zeros 32) nonce 0 one)) /\
  (exists nonce, served "bkt" "k" (enciphered customer).1 = Some (encStream (zeros 32) nonce 0 one)) /\
  (statusOf (enciphered []).2, statusOf (enciphered customer).2) = (200, 200).
Proof.
  assert (statusOf (enciphered []).2 = 200 /\ statusOf (enciphered customer).2 = 200) as [S1 S2] by (split; by vm_compute).
  split; [|split; [|by rewrite S1, S2]].
  - destruct (encrypted_uploads_use_zero_key cfg owner (putEnv "e1") (withHeaders "PUT" []) 3 (streamOf one) "bkt" "k"
      sealing (enciphered []).1 (enciphered []).2 Demo.start) as (m & nonce & _ & _ & _ & A);
      [apply surjective_pairing|exact S1|reflexivity|vm_compute; by repeat split|apply tiersOk0|reflexivity|reflexivity
      |unfold one; simpl; lia|by right|exists nonce; exact A].
  - destruct (encrypted_uploads_use_zero_key cfg owner (putEnv "e1") (withHeaders "PUT" customer) 3 (streamOf one)
      "bkt" "k" sealing (enciphered customer).1 (enciphered customer).2 Demo.start) as (m & nonce & _ & _ & _ & A);
      [apply surjective_pairing|exact S2|reflexivity|vm_compute; by repeat split|apply tiersOk0|reflexivity|reflexivity
      |unfold one; simpl; lia|by right|exists nonce; exact A].
Defined.
(** Which a reader of the store deciphers with zeros, without the customer's key. *)
Example reading_without_the_key :
  match ts_Get calm "bkt" "k" TierHot (g_store (enciphered customer).1) with
  | Ok d => drain (decRead 8 (<[0%nat := zeros 32]> ∅)) Demo.bufs
              (newStreamingDecryptReader (newReader (sr_data d)) 0 [1; 2; 3; 0; 0; 0; 0; 0; 0; 0; 0; 0]) []
  | _ => None
  end = Some (Ok one).
Proof. vm_compute. reflexivity. Qed.

(** Three stored bytes under a record of two. *)
Definition longer : Gateway (B := FileBackend) := mkGateway records ciphered None None ∅ [] ∅.
Definition copyRequest : Request := withHeaders "PUT" [("x-amz-copy-source", "/b/k")%string].
Lemma copy_of_encrypted_fails_witness :
  statusOf (run (handleCopyObject owner (putEnv "e2") calm copyRequest "bkt" "l") longer).2 <> 200.
Proof.
  apply (copy_of_encrypted_fails owner (putEnv "e2") calm copyRequest "bkt" "l" "b" "k" longer
    (run (handleCopyObject owner (putEnv "e2") calm copyRequest "bkt" "l") longer).1
    (run (handleCopyObject owner (putEnv "e2") calm copyRequest "bkt" "l") longer).2 record [1; 2; 3]);
    [apply surjective_pairing|apply ciphered_ok|by vm_compute|by vm_compute|by vm_compute|done|done].
Defined.
(** The same for a copy of an object that the gateway itself encrypted. *)
Example copy_of_upload :
  statusOf (run (handleCopyObject owner (putEnv "e2") calm
    (withHeaders "PUT" [("x-amz-copy-source", "/bkt/k")%string]) "bkt" "l") (enciphered []).1).2 = 500.
Proof. vm_compute. reflexivity. Qed.

(** Retention: a single delete is refused, unless a header asks to bypass it;
    deleting several keys and overwriting do not ask. *)
Definition retainedRecord : ObjectMetadata :=
  mkObject "k" "bkt" 3 "" "" "e1" "" "" None 0 5 5 0 0 false [] false "" "v1" true "" "active" false 0 None false
    (Some 1000) false "" "".
Definition retaining : Gateway (B := FileBackend) :=
  set_metadata (MetadataStore.PutObject "id" 6 7 flushOk (Ok tt) "bkt" "k" retainedRecord (g_metadata stored1)).1.1 stored1.
Definition deleted (h : list (string * string)) := run (handleDeleteObject owner deleteEnv (withHeaders "DELETE" h) "bkt" "k") retaining.
Example retention :
  (statusOf (deleted []).2, statusOf (deleted [("x-amz-bypass-governance-retention", "true")%string]).2,
   match (run (handleDeleteObjects (anyone "POST") "bkt" (Ok ([(deleteEnv, "k"%string)], false))) retaining).2 with
   | Answer st _ (Doc (DeleteDoc d e)) _ => Some (st, d, e)
   | _ => None
   end,
   statusOf (run (put "e3" [] [1]) retaining).2)
  = (403, 204, Some (200, [("k", "v1")%string], []), 200).
Proof. vm_compute. reflexivity. Qed.
(** After a soft delete a head request still finds the object. *)
Definition versioned : Gateway (B := FileBackend) :=
  set_metadata (MetadataStore.PutObject "id" 6 7 flushOk (Ok tt) "bkt" "k"
    (deleteMarker deleteEnv "bkt" "k" retainedRecord) (g_metadata stored1)).1.1 stored1.
Example head_of_delete_marker :
  (statusOf (run (handleHeadObject cfg owner (anyone "HEAD") "bkt" "k") versioned).2,
   statusOf (run (get owner (anyone "GET")) versioned).2) = (200, 404).
Proof. vm_compute. reflexivity. Qed.
End GatewayDemo.
