(* ===== verification/GatewayTheorems.v ===== *)
(** * Requests: who may change what, names, ranges and listings

    What holds of every request that goes through the router, of the names and
    ranges it accepts, and of the pages of a listing. *)

From S2P Require Import Prelude GoIO GoStrings GoText GoFloat GoJson Bolt CryptoLib Stream StreamProofs Keys Token.
From S2P Require Import Coordinator LocalServices Cache Integrity MetadataStore MetadataTheorems.
From S2P Require Import Storage StorageTheorems IntegrityTheorems LocalServices CryptoTheorems GatewayHttp.
From S2P Require Import GatewayCore GatewayObjects GatewayObjectsTheorems GatewayBuckets GatewayUploads GatewayS3.
From Stdlib Require Import Ascii String.
From stdpp Require Import base list strings gmap pretty.

#[local] Open Scope Z_scope.

(** ** What a caller without rights can do *)

Section Frames.
Context {B : Type} `{BackendStorage B} `{Bolt} `{AnyJson} `{MetaText} `{CryptoLib, CryptoServices}.
Context `{GoUnicode} `{HttpLib} `{Sha256}.
Context (cfg : Config) (domain : string) (resumable : bool).
#[local] Notation Handler := (Handler (B := B)).
#[local] Notation Gateway := (Gateway (B := B)).
Implicit Types g : Gateway.

(** Records, data, upload files and background tasks stay as they are; the
    cache and the keys in memory may change. *)
Definition untouched g g' : Prop :=
  g_metadata g' = g_metadata g /\ g_store g' = g_store g /\ g_disk g' = g_disk g /\ g_tasks g' = g_tasks g.
Definition harmless {A} (h : Handler A) : Prop := forall g, untouched g (h g).1.

Lemma harmless_bind {A C} (m : Handler A) (f : A -> Handler C) :
  harmless m -> (forall a, harmless (f a)) -> harmless (m ≫= f).
Proof.
  intros M F g. specialize (M g). unfold mbind, handler_bind. destruct (m g) as [g1 [a|r]]; simpl in *; [|done].
  destruct M as (M1 & M2 & M3 & M4), (F a g1) as (F1 & F2 & F3 & F4).
  by split_and!; etransitivity; [|eassumption| |eassumption| |eassumption| |eassumption].
Qed.
Lemma harmless_ret {A} (a : A) : harmless (mret a).
Proof. by intros g. Qed.
Lemma harmless_stop {A} r : harmless (stop (A := A) r).
Proof. by intros g. Qed.
Lemma harmless_gets {A} (f : Gateway -> A) : harmless (gets f).
Proof. by intros g. Qed.
Lemma harmless_orStop {A} (x : res A) e : harmless (orStop x e).
Proof. by destruct x; intros g. Qed.
Lemma harmless_need w r : harmless (needMethod w r).
Proof. unfold needMethod. by case_bool_decide; intros g. Qed.
Lemma harmless_access c ctx a b k : harmless (requireAccess c ctx a b k).
Proof. apply harmless_orStop. Qed.
Lemma harmless_public b : harmless (isBucketPublicRead cfg b).
Proof. unfold isBucketPublicRead. by destruct (cf_AnonymousRead cfg); intros g. Qed.
Lemma harmless_cache f : harmless (modify (fun g => set_cache (f g) g)).
Proof. by intros g. Qed.
Lemma harmless_crypto s h : harmless (modify (set_crypto s h)).
Proof. by intros g. Qed.
(** A refused check ends the request. *)
Lemma refused_access {A} c ctx a b k (f : unit -> Handler A) :
  is_ok (who_may c a b k) = false -> harmless (requireAccess c ctx a b k ≫= f).
Proof. intros N g. unfold requireAccess. by destruct (who_may c a b k). Qed.
Lemma refused_orStop {A C} (x : res A) e (f : A -> Handler C) : is_ok x = false -> harmless (orStop x e ≫= f).
Proof. intros N g. by destruct x. Qed.
End Frames.

#[export] Hint Resolve harmless_ret harmless_stop harmless_gets harmless_orStop harmless_need harmless_access
  harmless_public harmless_cache harmless_crypto : harmless.
Ltac harmless :=
  cbv zeta;
  lazymatch goal with
  | |- harmless (mbind _ _) => apply harmless_bind; [harmless|intros ?; harmless]
  | |- harmless (match ?x with _ => _ end) => destruct x; harmless
  | |- _ => auto with harmless
  end.

Section Denied.
Context {B : Type} `{BackendStorage B} `{Bolt} `{AnyJson} `{MetaText} `{CryptoLib, CryptoServices}.
Context `{GoUnicode} `{HttpLib} `{Sha256}.
Context (cfg : Config) (domain : string) (resumable : bool).
#[local] Notation Handler := (Handler (B := B)).
#[local] Notation harmless := (harmless (B := B)).
#[local] Notation Gateway := (Gateway (B := B)).
Implicit Types g : Gateway.

(** *** Handlers that only read *)

Lemma harmless_validate r m msg : harmless (validateObjectSSECKey r m msg).
Proof. unfold validateObjectSSECKey. harmless. Qed.
Lemma harmless_decryptForClient ck m d : harmless (decryptForClient ck m d).
Proof. unfold decryptForClient. harmless. Qed.
Lemma harmless_decryptForUser op u b k r m d s : harmless (decryptForUser cfg op u b k r m d s).
Proof. unfold decryptForUser. harmless. Qed.
#[local] Hint Resolve harmless_validate harmless_decryptForClient harmless_decryptForUser : harmless.
Lemma harmless_decode c env r b k m d : harmless (decodeObject cfg c env r b k m d).
Proof. unfold decodeObject. harmless. Qed.
Lemma harmless_range r m d n : harmless (rangeOf r m d n).
Proof. unfold rangeOf. harmless. Qed.
#[local] Hint Resolve harmless_decode harmless_range : harmless.
Lemma get_harmless c env r b k : harmless (handleGetObject cfg c env r b k).
Proof. unfold handleGetObject. harmless. Qed.
Lemma head_harmless c r b k : harmless (handleHeadObject cfg c r b k).
Proof. unfold handleHeadObject. harmless. Qed.
Lemma bucketOr404_harmless b : harmless (bucketOr404 (B := B) b).
Proof. unfold bucketOr404. harmless. Qed.
#[local] Hint Resolve bucketOr404_harmless : harmless.
Lemma bucket_reads_harmless now r b :
  harmless (handleListBuckets (B := B) r) /\ harmless (handleHeadBucket (B := B) r b) /\
  harmless (handleGetBucketLocation (B := B) b) /\ harmless (handleGetBucketAcl (B := B) b) /\
  harmless (handleGetBucketVersioning (B := B) b) /\ harmless (HandleListUploads (B := B) now r b) /\
  harmless (handleListObjects (B := B) r b).
Proof.
  unfold handleListBuckets, handleHeadBucket, handleGetBucketLocation, handleGetBucketAcl,
    handleGetBucketVersioning, HandleListUploads, handleListObjects, handleListObjectsV2.
  split_and!; harmless.
Qed.
Lemma list_parts_harmless r b k : harmless (HandleListParts (B := B) r b k).
Proof. unfold HandleListParts, uploadIDOf. harmless. Qed.
Lemma openSession_harmless env r b k : harmless (openSession (B := B) env r b k).
Proof. unfold openSession. harmless. Qed.
#[local] Hint Resolve openSession_harmless : harmless.
Lemma session_head_harmless c env r b k : harmless (HandleHead (B := B) c env r b k).
Proof. unfold HandleHead. harmless. Qed.
#[local] Hint Resolve get_harmless head_harmless list_parts_harmless session_head_harmless : harmless.

(** *** Handlers that write *)

(** The caller may at most read. *)
Definition readsOnly (c : Caller) : Prop := forall a b k, a <> ActionRead -> is_ok (who_may c a b k) = false.
Ltac refused R :=
  cbv zeta;
  first
    [ solve [first [apply refused_access|apply refused_orStop]; apply R; compute; discriminate]
    | apply harmless_bind; [solve [auto with harmless]|intros ?; refused R] ].

Lemma object_writes_refused c (R : readsOnly c) r b k penv denv get n body :
  harmless (handlePutObject cfg c penv r n body b k) /\ harmless (handleDeleteObject c denv r b k) /\
  harmless (handleCopyObject c penv get r b k).
Proof.
  unfold handlePutObject, handleDeleteObject, handleCopyObject. split_and!; refused R.
Qed.
Lemma upload_writes_refused c (R : readsOnly c) r b k env body :
  harmless (HandleCreateMultipartUpload cfg c env r b k) /\ harmless (HandleUploadPart cfg c env r body b k) /\
  harmless (HandleCompleteMultipartUpload cfg c env r b k) /\ harmless (HandleAbortMultipartUpload cfg c env r b k).
Proof.
  unfold HandleCreateMultipartUpload, HandleUploadPart, HandleCompleteMultipartUpload, HandleAbortMultipartUpload.
  split_and!; refused R.
Qed.
Lemma session_writes_refused c (R : readsOnly c) r b k env body :
  harmless (HandleCreateSession cfg c env r b k) /\ harmless (HandlePatch cfg c env r body b k) /\
  harmless (HandleFinalize cfg c env r b k).
Proof. unfold HandleCreateSession, HandlePatch, HandleFinalize. split_and!; refused R. Qed.

Lemma bucket_requests_refused i r b : readsOnly (in_caller i) -> harmless (handleBucketOperations cfg i r b).
Proof.
  intros R. unfold handleBucketOperations.
  destruct (bucket_reads_harmless (in_now i) r b) as (? & ? & ? & ? & ? & ? & ?).
  destruct (bucketCallOf r); try solve [refused R]; harmless.
Qed.
Lemma object_requests_refused i r b k : readsOnly (in_caller i) -> harmless (handleObjectOperations cfg resumable i r b k).
Proof.
  intros R. unfold handleObjectOperations.
  destruct (object_writes_refused _ R r b k (in_put i) (in_delete i) (in_copy i) (in_contentLength i) (in_body i)) as (? & ? & ?).
  destruct (upload_writes_refused _ R r b k (in_upload i) (in_body i)) as (? & ? & ? & ?).
  destruct (session_writes_refused _ R r b k (in_resumable i) (in_body i)) as (? & ? & ?).
  destruct (objectCallOf resumable r); harmless.
Qed.

(** C9: A caller that may at most read changes nothing, whatever it sends:
    no record, no data, no file of an upload, no background task. *)
Theorem readers_change_nothing i r g :
  readsOnly (in_caller i) -> untouched g (handleRequest cfg domain resumable i r g).1.
Proof.
  intros R. unfold handleRequest. destruct (isMethod _ _); [done|]. destruct (in_limited i) as [[]|]; [done|].
  assert (harmless (handleRoute cfg resumable i r (requestPath domain r))) as Hm.
  { unfold handleRoute. destruct (routePath _ _ _).
    - harmless.
    - destruct (bucket_reads_harmless (in_now i) r "") as (? & _). harmless.
    - refused R.
    - by apply bucket_requests_refused.
    - by apply object_requests_refused.
    - harmless.
    - harmless. }
  specialize (Hm g). unfold run. by destruct (handleRoute _ _ _ _ _ g) as [g1 [a|a]].
Qed.
End Denied.

(** ** Numbers and ranges *)

Lemma decimal_nonneg acc s n : 0 <= acc -> decimal acc s = Some n -> 0 <= n.
Proof.
  revert acc. induction s as [|c s IH]; simpl; intros acc A E; [by simplify_eq|].
  destruct (_ && _) eqn:D; [|done]. boolify. eapply IH; [|exact E]. lia.
Qed.
Lemma ParseInt_bounds s n : ParseInt s = Some n -> in_int64 n.
Proof.
  unfold ParseInt. destruct (match s with String "+" r => (false, r) | String "-" r => (true, r) | _ => (false, s) end)
    as [neg digits]. case_bool_decide; [done|]. unfold mbind, option_bind.
  destruct (decimal 0 digits) as [m|]; [|done]. destruct (_ && _) eqn:D; [|done]. intros [= <-]. boolify. by split.
Qed.
Lemma ParseInt_nonneg s n : nochar "-" s = true -> ParseInt s = Some n -> 0 <= n.
Proof.
  unfold ParseInt. intros N E.
  assert (match s with String "+" r => (false, r) | String "-" r => (true, r) | _ => (false, s) end =
          (false, match s with String "+" r => r | _ => s end)) as D.
  { destruct s as [|c s]; [done|]. by destruct c as [[] [] [] [] [] [] [] []]. }
  rewrite D in E. case_bool_decide; [done|]. unfold mbind, option_bind in E.
  destruct (decimal 0 _) as [m|] eqn:M; [|done]. destruct (_ && _); simplify_eq. by eapply decimal_nonneg.
Qed.
Lemma Split_pieces c s : Forall (fun p => nochar c p = true) (Split c s).
Proof.
  induction s as [|d s IH]; simpl; [by repeat constructor|]. case_decide as N; [by constructor|].
  destruct (Split c s) as [|p l] eqn:E; [by apply Split_nonempty in E|]. apply Forall_cons in IH as [Hp Hl].
  constructor; [|done]. simpl. by rewrite bool_decide_true, Hp.
Qed.

(** A range that is accepted lies within the object. *)
Theorem parse_range_sound h n a b : 0 <= n <= int64_max ->
  parseRangeHeader h n = Ok (a, b) -> 0 <= a <= b /\ b < n.
Proof.
  intros N. unfold parseRangeHeader, mbind, res_bind. destruct (negb _); [done|].
  pose proof (Split_pieces "-" (TrimPrefix h "bytes=")) as F.
  destruct (Split "-" _) as [|x [|y [|]]]; [done|done| |done].
  apply Forall_cons in F as [Fx [Fy _]%Forall_cons].
  assert (in_int64 (n - 1)) as I1 by (unfold in_int64, int64_min, int64_max in *; lia).
  case_bool_decide.
  - destruct (ParseInt y) as [p|] eqn:P; [|done]. pose proof (ParseInt_nonneg _ _ Fy P).
    pose proof (ParseInt_bounds _ _ P) as Pb.
    rewrite !wrap64_id by (unfold in_int64, int64_min, int64_max in *; lia).
    destruct (_ || _) eqn:O; [done|]. intros [= <- <-]. revert O. 
    repeat case_match; boolify; intros; boolify; lia.
  - destruct (ParseInt x) as [p|] eqn:P; [|done]. pose proof (ParseInt_nonneg _ _ Fx P).
    case_bool_decide.
    + rewrite !wrap64_id by done. destruct (_ || _) eqn:O; [done|]. intros [= <- <-]. boolify.
      repeat case_match; boolify; lia.
    + destruct (ParseInt y) as [q|] eqn:Q; [|done]. destruct (_ || _) eqn:O; [done|]. intros [= <- <-]. boolify.
      rewrite ?wrap64_id by done. repeat case_match; boolify; lia.
Qed.

(** ** Routes *)

Lemma bucketChar_noslash c : isBucketChar c = true -> c <> slash.
Proof. intros E ->. by vm_compute in E. Qed.
Lemma validBucket_plain b : validateBucketName b = true -> plainName b /\ nochar slash b = true.
Proof.
  unfold validateBucketName, bucketNameRegex. intros E. boolify.
  match goal with H : forallb isBucketChar _ = true |- _ => rename H into F end.
  assert (nochar slash b = true) as N.
  { clear -F. induction b as [|c b IH]; [done|]. simpl in F. boolify. simpl.
    rewrite bool_decide_true by by apply bucketChar_noslash. by apply IH. }
  split; [|done]. split_and!; intros ->; simpl in *; lia.
Qed.
Lemma cut_slash_app a b : nochar slash a = true -> cut slash (a +:+ "/" +:+ b) = (a, Some b).
Proof. intros N. change ("/" +:+ b)%string with (String slash b). by apply cut_app. Qed.

(** The path of an object, in a form that no check of the router refuses. *)
Definition acceptable (rawPath : string) (b k : string) (r : Request) : Prop :=
  validateBucketName b = true /\ validateObjectKey k = true /\ k <> ""%string /\
  (String.length b + String.length k <= 1022)%nat /\
  encodedTraversalPattern rawPath = false /\ encodedTraversalPattern (r_RawQuery r) = false.

Lemma traversal_app b k : plainName b -> nochar slash b = true ->
  pathTraversalPattern ("/" +:+ b +:+ "/" +:+ k) = pathTraversalPattern k.
Proof.
  intros (E & D & DD) N. unfold pathTraversalPattern.
  change ("/" +:+ b +:+ "/" +:+ k)%string with (String slash (b +:+ String slash k)).
  change (Split slash (String slash (b +:+ String slash k))) with (""%string :: Split slash (b +:+ String slash k)).
  rewrite Split_app by done. apply bool_decide_ext. rewrite !elem_of_cons. split; [|by auto].
  intros [?|[?|?]]; congruence.
Qed.
Lemma control_app a b : controlCharPattern (a +:+ b) = controlCharPattern a || controlCharPattern b.
Proof.
  unfold controlCharPattern. induction a as [|c a IH]; [done|]. simpl. rewrite IH. by rewrite orb_assoc.
Qed.
Lemma bucketChar_printable c : isBucketChar c = true -> (Z.of_nat (nat_of_ascii c) <? 32) = false.
Proof. by destruct c as [[] [] [] [] [] [] [] []]. Qed.
Lemma validBucket_control b : validateBucketName b = true -> controlCharPattern b = false.
Proof.
  unfold validateBucketName, bucketNameRegex, controlCharPattern. intros E. boolify.
  match goal with H : forallb isBucketChar _ = true |- _ => rename H into F end. clear -F.
  induction b as [|c b IH]; [done|]. simpl in *. boolify. by rewrite bucketChar_printable, IH.
Qed.

(** The route of an object's path is that object: the name of the bucket ends
    at the first slash, whatever the key has. *)
Theorem object_path_routes rawPath b k r : acceptable rawPath b k r ->
  routePath rawPath ("/" +:+ b +:+ "/" +:+ k) r = ObjectRoute b k.
Proof.
  intros (Vb & Vk & Ne & Len & Raw & Que). destruct (validBucket_plain b Vb) as [Pb Nb].
  assert (Z.of_nat (String.length ("/" +:+ b +:+ "/" +:+ k)) = 2 + Z.of_nat (String.length b + String.length k)) as L.
  { change ("/" +:+ b +:+ "/" +:+ k)%string with (String slash (b +:+ String slash k)). simpl.
    rewrite length_sapp. simpl. lia. }
  unfold routePath. rewrite L.
  rewrite (proj2 (Z.ltb_ge 1024 _)) by lia.
  assert (Vk' := Vk). unfold validateObjectKey in Vk'. boolify.
  rewrite traversal_app, control_app, control_app, (validBucket_control b Vb), control_app, Raw, Que by done.
  match goal with H : pathTraversalPattern k = false |- _ => rewrite H end.
  match goal with H : controlCharPattern k = false |- _ => rewrite H end.
  change (controlCharPattern "/" || (false || (controlCharPattern "/" || false))) with false. cbn [orb].
  rewrite bool_decide_false by (intros E; apply (f_equal (fun s => Z.of_nat (String.length s))) in E;
    rewrite L in E; simpl in E; lia).
  rewrite (proj2 (Z.ltb_lt 1 _)) by lia.
  rewrite TrimPrefix_app, cut_slash_app by done. rewrite Vb. cbn [negb default]. destruct k as [|c k]; [done|].
  cbn -[validateObjectKey]. by rewrite Vk.
Qed.



(** Uploads in pieces are started by posting to the root path only, and there a
    resumable one cannot name an object: no request reaches
    HandleCreateSession, and a multipart upload must name its object in
    the query. *)
Theorem uploads_start_only_at_root resumable rawPath path r :
  (routePath rawPath path r = RootPost -> path = "/"%string /\
     (forall b k, rootCallOf resumable path r <> CreateSession b k) /\
     (forall b k, rootCallOf resumable path r = CreateUpload b k -> b = QueryGet "bucket" r /\ k = QueryGet "key" r)) /\
  (r_Method r = "POST"%string -> has "uploadId" r = false -> objectCallOf resumable r = ObjectPost).
Proof.
  split.
  - unfold routePath. destruct (1024 <? _); [done|]. destruct (_ || _); [done|].
    case_bool_decide as P; [|destruct (1 <? _); [|done]; destruct (cut _ _) as [? [[]|]];
      by repeat (case_match; simpl in *)]. intros _. subst path. split; [done|].
    unfold rootCallOf. change (pathNames "/") with (""%string, ""%string). split; intros b k.
    + repeat case_match; simplify_eq; done.
    + rewrite andb_false_r. destruct (has "vector_search" r); [done|]. destruct (has "fts_search" r); [done|].
      destruct (_ && resumable); [done|]. destruct (_ && _ && _); [done|]. destruct (has "uploads" r); [|done].
      intros [= <- <-]. done.
  - intros M U. unfold objectCallOf. rewrite U. unfold isMethod. by rewrite M.
Qed.

(** ** Pages of a listing *)

Lemma after_sub k passed l m : m ∈ after k passed l -> m ∈ l.
Proof.
  revert passed. induction l as [|x l IH]; intros passed; simpl; [done|].
  case_bool_decide; [|destruct passed]; rewrite ?elem_of_cons; [|intros [->|I]|]; eauto.
Qed.
Lemma pageOf_sub prefix delimiter l c : c ∈ (pageOf prefix delimiter l).1 -> c ∈ objectListContent <$> l.
Proof.
  unfold pageOf. set (step := fun _ _ => _).
  assert (forall l acc, c ∈ (fold_left step l acc).1 -> c ∈ acc.1 \/ c ∈ objectListContent <$> l) as G.
  { clear l. induction l as [|m l IH]; intros acc; simpl; [by left|]. intros I. apply IH in I as [I|I].
    - unfold step in I. destruct (commonPrefixForObject _ _ _); simpl in I; [by left|].
      rewrite elem_of_app, list_elem_of_singleton in I. rewrite elem_of_cons. naive_solver.
    - right. rewrite elem_of_cons. by right. }
  intros I. apply G in I as [I|I]; [|done]. by apply not_elem_of_nil in I.
Qed.

Section Listings.
Context {B : Type} `{BackendStorage B} `{Bolt} `{AnyJson} `{MetaText} `{CryptoLib, CryptoServices}.

(** A listing of the second version never gets past its first page and one
    object: whatever the token or the start, it reads the listing from its
    beginning, and what it shows is among the first [maxKeys + 1] objects. *)
Theorem list_v2_stays_on_first_page r bkt prefix delimiter maxKeys (g : Gateway (B := B)) st h
    n p sa tok next kc mk d tr contents prefixes late :
  (run (handleListObjectsV2 r bkt prefix delimiter maxKeys) g).2 =
    Answer st h (Doc (ListObjectsV2Doc n p sa tok next kc mk d tr contents prefixes)) late ->
  forall c, c ∈ contents ->
    c ∈ objectListContent <$> ListObjects bkt prefix (wrap64 (maxKeys + 1)) (g_metadata g).
Proof.
  unfold handleListObjectsV2. rewrite handler_gets. cbv zeta.
  set (objects := ListObjects _ _ _ _). intros E c I.
  assert (forall l : list ObjectMetadata, (forall m, m ∈ l -> m ∈ objects) -> c ∈ objectListContent <$> l -> c ∈ objectListContent <$> objects)
    as Sub. { intros l S (m & -> & Im)%list_elem_of_fmap. apply list_elem_of_fmap. eauto. }
  set (rest := if negb (bool_decide (QueryGet "start-after" r = ""%string)) then _ else _) in E.
  assert (forall m, m ∈ rest -> m ∈ objects) as R.
  { unfold rest. intros m. repeat case_match; eauto using after_sub. }
  destruct ((maxKeys <? Z.of_nat (length rest)) && (maxKeys <? 0)); [done|].
  destruct (pageOf _ _ _) as [cs ps] eqn:Pg. rewrite run_ret in E. injection E as <- <- <- <- <- <- <- <- <- <- <- <- <- <-.
  assert (c ∈ (cs, ps).1) as I' by done. rewrite <- Pg in I'. apply pageOf_sub in I'.
  eapply Sub; [|exact I']. intros m Im. apply R. destruct (maxKeys <? _); [|done].
  by apply elem_of_take in Im as (i & ? & _); eapply list_elem_of_lookup_2.
Qed.
End Listings.

(** ** Examples and witnesses *)

Module RequestDemo.
Import MapBolt MetadataDemo StorageDemo GatewayDemo.
#[local] Existing Instance AsciiOnly.ascii_unicode.
#[local] Existing Instance ToyCrypto.toy.
#[local] Existing Instance IntegrityDemo.demoSha.
#[local] Existing Instance Demo.services.
#[local] Notation run := GatewayObjects.run (only parsing).

Definition uploadEnv (id : string) : UploadEnv :=
  mkUploadEnv 6 6 id "v1" (Ok tt) (fun _ => None) goodIO calm calm mio op.
Definition sessionEnv : ResumableEnv :=
  mkResumableEnv 6 6 "s1" "v1" (Ok tt) None None None None None None calm calm mio op.
Definition input (c : Caller) (body : bytes) : Input :=
  mkInput c "" (streamOf body) (Z.of_nat (length body)) None (putEnv "e1") calm getEnv deleteEnv (uploadEnv "u1")
    sessionEnv 6 (Ok tt) (Ok ([(deleteEnv, "k"%string)], false)) None None "ann" (Refuse 404 "" "").
Definition asks (method path query : string) : Request := mkRequest method "host" path query ∅ [] "".
Definition handle (c : Caller) (method path query : string) (body : bytes) (g : Gateway (B := FileBackend)) :=
  handleRequest cfg "" true (input c body) (asks method path query) g.

Lemma readers_change_nothing_witness :
  untouched stored1 (handle stranger "DELETE" "/bkt/k" "" [] stored1).1 /\
  untouched stored1 (handle stranger "PUT" "/bkt/k" "" [1] stored1).1 /\
  untouched stored1 (handle stranger "DELETE" "/bkt" "" [] stored1).1.
Proof. split_and!; by apply readers_change_nothing. Defined.

Lemma parse_range_sound_witness :
  parseRangeHeader "bytes=-2" 5 = Ok (3, 4) /\ 0 <= 3 <= 4 /\ 4 < 5.
Proof.
  assert (parseRangeHeader "bytes=-2" 5 = Ok (3, 4)) as E by reflexivity.
  split; [exact E|]. eapply parse_range_sound; [|exact E]. by vm_compute.
Defined.
Example ranges :
  (parseRangeHeader "bytes=2-9" 5, parseRangeHeader "bytes=5-" 5, parseRangeHeader "bytes=0-1,3-4" 5)
  = (Ok (2, 4), Err "range not satisfiable", Err "invalid range specification").
Proof. reflexivity. Qed.

Lemma object_path_routes_witness :
  routePath "" "/my.bucket/a/../../b" (asks "GET" "" "") <> ObjectRoute "my.bucket" "a/../../b" /\
  routePath "" "/my.bucket/a//b" (asks "GET" "" "") = ObjectRoute "my.bucket" "a//b".
Proof.
  split; [by vm_compute|]. apply (object_path_routes "" "my.bucket" "a//b").
  split_and!; [by vm_compute|by vm_compute|done|simpl; lia|by vm_compute|by vm_compute].
Defined.

(** Three objects, pages of one: the token of the first page leads to a page
    that ends the listing, the third object is never shown. *)
Definition three : Gateway (B := FileBackend) :=
  fold_left (fun g k => (handle owner "PUT" ("/bkt/" +:+ k) "" [1] g).1) ["a"; "b"; "c"]%string gateway0.
Definition pageKeys (query : string) : option (list string * bool * string) :=
  match (handle owner "GET" "/bkt" query [] three).2 with
  | Answer _ _ (Doc (ListObjectsV2Doc _ _ _ _ next _ _ _ truncated contents _)) _ =>
    Some (lc_Key <$> contents, truncated, next)
  | _ => None
  end.
Definition secondPage : reply :=
  (run (handleListObjectsV2 (asks "GET" "/bkt" "continuation-token=a") "bkt" "" "" 1) three).2.
Definition shown (rep : reply) : list ListContent :=
  match rep with Answer _ _ (Doc (ListObjectsV2Doc _ _ _ _ _ _ _ _ _ l _)) _ => l | _ => [] end.
Lemma list_v2_stays_on_first_page_witness :
  (pageKeys "list-type=2&max-keys=1", pageKeys "list-type=2&max-keys=1&continuation-token=a",
   pageKeys "list-type=2&max-keys=1&continuation-token=b")
  = (Some (["a"%string], true, "a"%string), Some (["b"%string], false, ""%string), Some ([], false, ""%string)) /\
  forall rep, secondPage = rep -> forall c, c ∈ shown rep ->
    c ∈ objectListContent <$> ListObjects "bkt" "" (wrap64 (1 + 1)) (g_metadata three).
Proof.
  split; [by vm_compute|]. intros rep E c I.
  destruct rep as [st h [x|d] late| | |]; try destruct d; try exact (False_ind _ (not_elem_of_nil c I)).
  eapply list_v2_stays_on_first_page; [exact E|exact I].
Defined.
(** Without a token the first version repeats the first page whatever the marker. *)
Example marker_ignored :
  match (handle owner "GET" "/bkt" "max-keys=2&marker=b" [] three).2 with
  | Answer _ _ (Doc (ListObjectsDoc _ _ marker _ _ truncated next contents _)) _ =>
    Some (marker, lc_Key <$> contents, truncated, next)
  | _ => None
  end = Some ("b", ["a"; "b"], true, "b")%string.
Proof. vm_compute. reflexivity. Qed.
(** A negative page size faults in the second version. *)
Example negative_max_keys :
  (handle owner "GET" "/bkt" "list-type=2&max-keys=-1" [] three).2 = Crash "slice bounds out of range".
Proof. vm_compute. reflexivity. Qed.
(** The standard request for a multipart upload is not supported, and a
    delete of one key answers 204 whether or not it is there. *)
Example standard_upload_request :
  statusOf (handle owner "POST" "/bkt/k" "uploads" [] three).2 = 500.
Proof. vm_compute. reflexivity. Qed.
Example delete_of_nothing : statusOf (handle owner "DELETE" "/bkt/zz" "" [] three).2 = 204.
Proof. vm_compute. reflexivity. Qed.
(** Whatever a bucket's rules say, an origin that they do not name is allowed
    by the star. *)
Example cors_allows_all (g : Gateway (B := FileBackend)) (r : Request) (b : string) :
  corsOrigin r b g = "*"%string \/ corsOrigin r b g = HeaderGet "Origin" r.
Proof. unfold corsOrigin. destruct (_ && _); auto. Qed.
End RequestDemo.
