(* ===== verification/GatewayUploadsTheorems.v ===== *)
(** * Uploads in pieces

    What a completed multipart upload stores, what an abort removes, and what
    an interrupted resumable upload leaves behind. *)

From S2P Require Import Prelude GoIO GoStrings GoText GoFloat GoJson Bolt CryptoLib Stream StreamProofs Keys Token.
From S2P Require Import Coordinator LocalServices Cache Integrity MetadataStore MetadataTheorems.
From S2P Require Import Storage StorageTheorems IntegrityTheorems LocalServices CryptoTheorems GatewayHttp.
From S2P Require Import GatewayCore GatewayObjects GatewayObjectsTheorems GatewayBuckets GatewayUploads GatewayS3.
From S2P Require Import GatewayTheorems.
From Stdlib Require Import Ascii String.
From stdpp Require Import base list strings gmap sorting pretty.

#[local] Open Scope Z_scope.

(** ** Files of uploads *)

Definition notDir (t : tree) (p : path) : Prop := p = [] \/ nodeAt t p <> Some Dir.
Lemma fileAt_nil t : fileAt t [] = None.
Proof. done. Qed.

Lemma removePath_notDir p t t' r : removePath None p t = (t', r) -> treeOk t -> notDir t p ->
  treeOk t' /\ (forall q, fileAt t' q = if decide (q = p) then None else fileAt t q) /\
  forall q, notDir t q -> notDir t' q.
Proof.
  intros E T N. destruct (removePath_spec _ _ _ _ _ E T) as (T' & A & F). split; [done|].
  destruct N as [->|N].
  { vm_compute in E. injection E as <- <-. split; [|done]. intros q. by case_decide; subst. }
  unfold removePath in E. destruct (stat t p) as [[c|]| |] eqn:St.
  - injection E as <- <-. split; [by apply A|]. intros q [->|Nq]; [by left|right].
    assert (p <> []) as P by (intros ->; vm_compute in St; done). rewrite nodeAt_delete by done.
    by case_decide.
  - apply (stat_found _ _ _ T) in St. by apply N in St.
  - injection E as <- <-. split; [by apply A|done].
  - injection E as <- <-. split; [|done]. intros q. case_decide as Q; [|done]. subst q.
    destruct (fileAt t p) as [c|] eqn:C; [|done]. apply (fileAt_stat _ _ _ T) in C. congruence.
Qed.
Lemma removeAll_spec ps t t' es : removeAll (fun _ => None) ps t = (t', es) -> treeOk t ->
  (forall p, p ∈ ps -> notDir t p) ->
  treeOk t' /\ forall q, fileAt t' q = if decide (q ∈ ps) then None else fileAt t q.
Proof.
  revert t t' es. induction ps as [|p ps IH]; intros t t' es; cbn [removeAll].
  - intros [= <- <-] T _. split; [done|]. intros q. by rewrite decide_False by apply not_elem_of_nil.
  - destruct (removePath None p t) as [t1 r] eqn:R. destruct (removeAll _ ps t1) as [t2 es2] eqn:A.
    intros [= <- <-] T F. destruct (removePath_notDir _ _ _ _ R T) as (T1 & V & D); [apply F; by left|].
    destruct (IH _ _ _ A T1) as [T2 W]; [intros q I; apply D, F; by right|]. split; [done|]. intros q. rewrite W, V.
    repeat case_decide; set_solver.
Qed.

Lemma filesBelow_elem dir t q : q ∈ filesBelow dir t <-> below dir q = true /\ exists c, t !! q = Some (File c).
Proof.
  unfold filesBelow. rewrite list_elem_of_fmap. split.
  - intros ([q' n] & -> & [B I]%list_elem_of_filter). simpl in *. apply andb_true_iff in B as [B Fi].
    rewrite merge_sort_Permutation, elem_of_map_to_list in I. split; [done|]. destruct n; [by eexists|done].
  - intros [B [c L]]. exists (q, File c). split; [done|]. apply list_elem_of_filter. split; [by simpl; rewrite B|].
    by rewrite merge_sort_Permutation, elem_of_map_to_list.
Qed.

Lemma filesBelow_notDir dir t q : q ∈ filesBelow dir t -> notDir t q.
Proof.
  intros [_ [c L]]%filesBelow_elem. destruct q as [|x q]; [by left|right]. simpl. by rewrite L.
Qed.
Lemma fileAt_below dir t q : below dir q = true -> (q ∈ filesBelow dir t) \/ fileAt t q = None.
Proof.
  intros B. destruct (fileAt t q) as [c|] eqn:F; [|by right]. left. apply filesBelow_elem. split; [done|].
  exists c. unfold fileAt in F. destruct q as [|x q]; [done|]. simpl in F. destruct (t !! (x :: q)) as [[]|]; by simplify_eq.
Qed.

(** The clean-up of an upload's directory: nothing below it is left, nothing
    else is touched. *)
Lemma cleanupFiles_spec dir t t' es : cleanupFiles (fun _ => None) dir t = (t', es) -> treeOk t ->
  treeOk t' /\ forall q, fileAt t' q = if below dir q then None else fileAt t q.
Proof.
  unfold cleanupFiles. intros E T.
  assert (forall q, stat t dir = NotExist \/ stat t dir = NotDir -> below dir q = true -> fileAt t q = None) as Out.
  { intros q St B. destruct (fileAt t q) as [c|] eqn:F; [|done]. exfalso.
    apply bool_decide_eq_true in B. destruct (decide (q = dir)) as [->|Nq].
    - apply (fileAt_stat _ _ _ T) in F. rewrite F in St. by destruct St.
    - unfold fileAt in F. destruct (nodeAt t q) as [[]|] eqn:No; try done.
      assert (nodeAt t dir = Some Dir) as D.
      { rewrite <- B. eapply treeOk_above; [done..|]. apply Nat.le_neq. split.
        - rewrite <- B, length_take. lia.
        - intros L. apply Nq. rewrite <- B. by rewrite L, firstn_all. }
      apply (stat_found _ _ _ T) in D. rewrite D in St. by destruct St. }
  destruct (stat t dir) as [n| |] eqn:St.
  - destruct (removeAll _ _ t) as [t1 es1] eqn:A. destruct (removePath None dir t1) as [t2 r] eqn:R.
    injection E as <- <-. destruct (removeAll_spec _ _ _ _ A T) as [T1 V]; [apply filesBelow_notDir|].
    destruct (removePath_spec _ _ _ _ _ R T1) as (T2 & Yes & No). split; [done|].
    assert (forall q, fileAt t1 q = if below dir q then None else fileAt t q) as W.
    { intros q. rewrite V. case_decide as I.
      - apply filesBelow_elem in I as [-> _]. done.
      - destruct (below dir q) eqn:B; [|done]. by destruct (fileAt_below dir t q B). }
    intros q. destruct (res_unit_cases r) as [[_ Rr]|[_ Rr]]; [rewrite (Yes Rr)|rewrite (No Rr); apply W].
    case_decide as Q; [|apply W]. subst q. unfold below. by rewrite firstn_all, bool_decide_true.
  - injection E as <- <-. split; [done|]. intros q. destruct (below dir q) eqn:B; [|done]. apply Out; auto.
  - injection E as <- <-. split; [done|]. intros q. destruct (below dir q) eqn:B; [|done]. apply Out; auto.
Qed.

Section Uploads.
Context {B : Type} `{BackendLaws B} `{BoltLaws} `{AnyJson} `{MetaText} `{CryptoLib, CryptoServices}.
Context `{GoUnicode} `{HttpLib} `{Sha256}.
Context (cfg : Config).
#[local] Notation Handler := (Handler (B := B)).
#[local] Notation Gateway := (Gateway (B := B)).
Implicit Types g : Gateway.

(** ** Aborting *)

(** An abort removes every file below the directory that the upload id leads
    to from the directory of uploads, whether or not there is such an upload,
    whoever's it is, and wherever the id leads. *)
Theorem abort_empties_any_directory c env r b k g :
  r_Method r = "DELETE"%string -> who_may c ActionWrite b k = Ok tt ->
  QueryGet "uploadId" r <> ""%string -> ue_files env = (fun _ => None) -> treeOk (g_disk g) ->
  forall q, fileAt (g_disk (run (HandleAbortMultipartUpload cfg c env r b k) g).1) q =
    if below (pathJoin (cf_uploadsDir cfg) (QueryGet "uploadId" r)) q then None else fileAt (g_disk g) q.
Proof.
  intros M W U F T q. unfold HandleAbortMultipartUpload. rewrite run_need, bool_decide_true by done.
  unfold requireAccess. rewrite run_orStop, W, run_bind. unfold uploadIDOf. rewrite bool_decide_false by done.
  cbn [mret handler_ret]. rewrite run_bind. unfold cleanupParts, onDisk. rewrite F.
  destruct (cleanupFiles _ _ (g_disk g)) as [t es] eqn:C. rewrite run_bind. unfold onMetadata.
  destruct (DeleteUpload _ _ _ _ _) as [ms d]. rewrite run_orStop.
  apply cleanupFiles_spec in C as [_ V]; [|done]. by destruct d; apply V.
Qed.

(** ** Completing *)

(** The file of a part, and what reading it delivers. *)
Definition partContent (env : UploadEnv) (uploadID : string) (t : tree) (p : UploadPart) (c : bytes) : Prop :=
  let full := getPartPath cfg uploadID (up_PartNumber p) in
  openFile (ue_files env full) full t = Ok (streamOf c).
Lemma mergeParts_spec env uploadID parts t acc total :
  sr_err (mergeParts (ue_files env) (getUploadDir cfg uploadID) parts t acc total) = None ->
  exists cs, Forall2 (partContent env uploadID t) parts cs /\
    sr_data (mergeParts (ue_files env) (getUploadDir cfg uploadID) parts t acc total) = acc ++ concat cs /\
    Z.of_nat (length (acc ++ concat cs)) = total.
Proof.
  revert acc. induction parts as [|p parts IH]; intros acc; cbn [mergeParts].
  - destruct (_ =? total) eqn:L; [|done]. intros _. exists []. simpl. rewrite app_nil_r. boolify.
    split; [constructor|]. by split.
  - destruct (openFile _ _ t) as [d| |] eqn:O; [|done..]. destruct (sr_err d) as [e|] eqn:Er; [done|].
    intros E. destruct (IH _ E) as (cs & F & D & L). exists (sr_data d :: cs). simpl. rewrite app_assoc.
    split; [|by split]. constructor; [|done]. unfold partContent, getPartPath. rewrite O. by destruct d; simpl in *; subst.
Qed.

#[local] Existing Instance part_le_dec.
#[local] Instance part_le_total : Total part_le.
Proof. intros p q. unfold part_le. lia. Qed.
Lemma parts_sorted l : Sorted part_le (merge_sort part_le l) /\ merge_sort part_le l ≡ₚ l.
Proof.
  split; [|apply merge_sort_Permutation]. apply Sorted_merge_sort. apply _.
Qed.

(** C20: A completed multipart upload stores the contents of its parts in the order
    of their numbers, all that were uploaded, whatever the list in the request
    says; nothing of it is encrypted, whatever the configuration. *)
Theorem complete_concatenates_parts c env r b k g g' rep :
  run (HandleCompleteMultipartUpload cfg c env r b k) g = (g', rep) -> statusOf rep = 200 -> tiersOk (g_store g) ->
  exists parts cs upload m,
    parts ≡ₚ GetParts (QueryGet "uploadId" r) (g_metadata g) /\ Sorted part_le parts /\
    Forall2 (partContent env (QueryGet "uploadId" r) (g_disk g)) parts cs /\
    GetUpload b k (QueryGet "uploadId" r) (g_metadata g) = Ok upload /\
    MetadataStore.GetObject b k (g_metadata g') = Ok m /\ om_Encrypted m = mu_Encrypted upload /\
    om_EncryptedDEK m = [] /\ served b k g' = Some (concat cs).
Proof.
  intros E St T.
  assert (forall e, statusOf (Fail e) <> 200) as Failed by (intros e; pose proof (Fail_status e); lia).
  unfold HandleCompleteMultipartUpload in E. rewrite run_need in E.
  case_bool_decide; [|simplify_eq; by apply Failed in St].
  unfold requireAccess in E. rewrite run_orStop in E.
  destruct (who_may _ _ _ _); [|simplify_eq; by try apply Failed in St..].
  rewrite run_bind in E. unfold uploadIDOf in E. case_bool_decide; [unfold stop in E; simplify_eq; by apply Failed in St|].
  cbn [mret handler_ret] in E. rewrite run_bind in E. unfold openUpload in E.
  unfold mbind at 1, handler_bind at 1, gets at 1 in E.
  destruct (GetUpload _ _ _ _) as [upload| |] eqn:GU;
    [|unfold mbind, handler_bind, orStop, stop in E; simplify_eq; by try apply Failed in St..].
  unfold mbind at 1, handler_bind at 1, orStop at 1 in E. cbn [mret handler_ret] in E.
  destruct (After _ _); [unfold stop in E; simplify_eq; by apply Failed in St|]. cbn [mret handler_ret] in E.
  rewrite handler_gets in E. case_bool_decide; [unfold run, stop in E; simplify_eq; by apply Failed in St|].
  destruct (parts_sorted (GetParts (QueryGet "uploadId" r) (g_metadata g))) as [So Pe].
  cbv zeta in E. set (parts := merge_sort _ _) in *. rewrite handler_gets in E.
  set (total := fold_left _ parts 0) in *. set (data := mergeParts _ _ _ _ _ _) in E.
  match type of E with context [om_StorageTier ?x] => change (om_StorageTier x) with TierHot in E end.
  rewrite run_bind in E. unfold putStoredObjectWithMetadata in E.
  unfold mbind at 1, handler_bind at 1, onStore at 1 in E.
  destruct (ts_Put _ _ _ _ _ _ _) as [s1 r1] eqn:P. destruct (ts_Put_spec _ _ _ _ _ _ _ _ _ P T) as [A _].
  pose proof (ts_Put_touches _ _ _ _ _ _ _ _ _ P T) as (T1 & _).
  destruct r1 as [[]| |];
    [|unfold mbind, handler_bind, orStop, stop, failWith in E; simplify_eq; by try apply Failed in St..].
  destruct (A eq_refl) as (q & Q & Er & _ & (_ & Pl & C)).
  destruct (mergeParts_spec env _ parts (g_disk g) [] total Er) as (cs & F & D & _).
  unfold mbind at 1, handler_bind at 1, orStop at 1 in E. cbn [mret handler_ret] in E.
  match type of E with context [putObjectMetadataAfterStore ?a ?u ?x ?y ?z ?m ?g0] =>
    destruct (putObjectMetadataAfterStore a u x y z m g0) as [g2 [m'|rep']] eqn:M end.
  2:{ simplify_eq. apply store_record_spec in M as (_ & _ & X); [|done]. done. }
  apply store_record_spec in M as (_ & _ & o & O & _ & Ti & De & _ & En & Dek & _ & Sg); [|done].
  rewrite run_bind in E. unfold cleanupParts, onDisk in E. destruct (cleanupFiles _ _ _) as [t es].
  rewrite run_bind in E. unfold onMetadata in E. destruct (DeleteUpload _ _ _ _ _) as [ms d] eqn:DU.
  rewrite run_orStop in E. destruct d as [[]| |]; [|simplify_eq; by try apply Failed in St..].
  assert (forall b k, MetadataStore.GetObject b k ms = MetadataStore.GetObject b k (g_metadata g2)) as Keep.
  { unfold DeleteUpload in DU. apply Update_ok in DU as [f DU]. intros b' k'. unfold MetadataStore.GetObject.
    f_equal. revert DU. unfold deleteUploadTx. simpl. destruct (bGet _ _); [|by intros [= <- _]].
    intros DU. apply bind_Ok in DU as (x1 & _ & DU). apply bind_Ok in DU as (x2 & _ & DU). by injection DU as <- _. }
  rewrite run_bind in E. cbn in E. simplify_eq. exists parts, cs, upload, o.
  split; [done|]. split; [done|]. split; [done|]. split; [done|].
  assert (MetadataStore.GetObject b k ms = Ok o) as O' by by rewrite Keep.
  split; [done|]. split; [done|]. split; [done|].
  match goal with |- served b k ?x = _ => rewrite (served_record b k o x O') end.
  rewrite De, Ti. change (om_StorageTier _) with TierHot. simpl. rewrite Sg. simpl. rewrite Pl, Q. unfold mbind, option_bind.
  rewrite C, decide_True by done. unfold data. by rewrite D.
Qed.

(** ** Resuming *)






End Uploads.

(** ** Examples and witnesses *)

Module UploadDemo.
Import MapBolt MetadataDemo StorageDemo GatewayDemo RequestDemo.
#[local] Existing Instance AsciiOnly.ascii_unicode.
#[local] Existing Instance ToyCrypto.toy.
#[local] Existing Instance IntegrityDemo.demoSha.
#[local] Existing Instance Demo.services.
#[local] Notation run := GatewayObjects.run (only parsing).
#[local] Notation Gateway := (Gateway (B := FileBackend)).

(** Two parts, the second one first, of an upload with the id u1. *)
Definition asked (method query : string) (h : list (string * string)) : Request :=
  mkRequest method "host" "/bkt/k" query (list_to_map ((fun x => (CanonicalHeaderKey x.1, [x.2])) <$> h)) [] "".
Definition create (g : Gateway) : Gateway :=
  (run (HandleCreateMultipartUpload cfg owner (uploadEnv "u1") (asked "POST" "" []) "bkt" "k") g).1.
Definition part (n : string) (data : bytes) (g : Gateway) : Gateway :=
  (run (HandleUploadPart cfg owner (uploadEnv "u1") (asked "PUT" ("uploadId=u1&partNumber=" +:+ n) []) (streamOf data) "bkt" "k") g).1.
Definition uploaded : Gateway := part "10" [51] (part "1" [49] (part "2" [50] (create gateway0))).
Definition completed : Gateway * reply :=
  run (HandleCompleteMultipartUpload cfg owner (uploadEnv "u1") (asked "POST" "uploadId=u1" []) "bkt" "k") uploaded.
Example completes :
  (statusOf completed.2, view (run (get owner (anyone "GET")) completed.1).2) = (200, (200, [49; 50; 51], Some (quoted "u1"))).
Proof. vm_compute. reflexivity. Qed.
Lemma store_of_parts : g_store uploaded = tiers0.
Proof. vm_compute. reflexivity. Qed.
Lemma complete_concatenates_parts_witness : exists cs, served "bkt" "k" completed.1 = Some (concat cs).
Proof.
  destruct (complete_concatenates_parts cfg owner (uploadEnv "u1") (asked "POST" "uploadId=u1" []) "bkt" "k"
    uploaded completed.1 completed.2) as (parts & cs & upload & m & _ & _ & _ & _ & _ & _ & _ & A);
    [apply surjective_pairing|vm_compute; reflexivity|rewrite store_of_parts; apply tiersOk0|].
  exists cs. exact A.
Defined.

Definition sessions : tree := <[["data"; "resumable"]%string := Dir]> (<[["data"]%string := Dir]> ∅).
(** A session in the directory of resumable uploads, and an abort whose upload
    id leads there. *)
Definition session : Gateway :=
  (run (HandleCreateSession cfg owner sessionEnv (asked "POST" "" []) "bkt" "k") (set_disk sessions gateway0)).1.
Lemma sessions_ok : treeOk sessions.
Proof.
  intros q n L k K. unfold sessions in L. apply lookup_insert_Some in L as [[<- _]|[_ L]].
  - simpl in K. destruct k as [|[|[|k]]]; [done|by vm_compute|lia|lia].
  - apply lookup_insert_Some in L as [[<- _]|[_ L]]; [|by rewrite lookup_empty in L].
    simpl in K. destruct k as [|[|k]]; [done|lia|lia].
Qed.
Definition sessionFile : path := getTempFilePath cfg "s1".
Lemma session_disk : g_disk session = <[sessionFile := File []]> sessions.
Proof. vm_compute. reflexivity. Qed.
Lemma session_ok : treeOk (g_disk session).
Proof.
  rewrite session_disk. intros q n L k K. apply lookup_insert_Some in L as [[<- _]|[_ L]].
  - unfold sessionFile in K. vm_compute in K. destruct k as [|[|[|[|k]]]]; [done|by vm_compute|by vm_compute|lia|lia].
  - pose proof (sessions_ok _ _ L k K) as D. rewrite nodeAt_insert by done. case_decide as E; [|done].
    rewrite E in D. by vm_compute in D.
Qed.

Lemma abort_empties_any_directory_witness :
  fileAt (g_disk session) sessionFile = Some [] /\
  fileAt (g_disk (run (HandleAbortMultipartUpload cfg owner (uploadEnv "")
    (asked "DELETE" "uploadId=../resumable" []) "bkt" "k") session).1) sessionFile = None.
Proof.
  split; [vm_compute; reflexivity|].
  rewrite (abort_empties_any_directory cfg owner (uploadEnv "") (asked "DELETE" "uploadId=../resumable" []) "bkt" "k");
    [vm_compute; reflexivity|reflexivity|reflexivity|by vm_compute|reflexivity|apply session_ok].
Defined.

End UploadDemo.
