(* ===== verification/Fts.v ===== *)
(** * Full-text search (internal/fts: tokenizer.go, bm25.go, segment.go, index.go,
      compaction.go, hybrid.go)

    The tokenizer with its stemmer, segments of posting lists, the index over
    them with its table of documents, compaction, and the fusion with vector
    results.  Unicode's tables beyond ASCII and math.Log are parameters; what
    sort.Slice does with equal elements, and the order in which Go walks a map
    where it shows, are arguments.  Segments are shared pointers: the active
    one is named by its id.  Background compaction is a call like any other,
    since it takes the index's locks. *)

From S2P Require Import Prelude GoIO GoStrings GoText GoFloat GoJson Bolt CryptoLib Stream Integrity.
From Stdlib Require Import Ascii String SpecFloat.
From stdpp Require Import base list strings gmap sorting.

#[local] Open Scope Z_scope.

(** ** Runes *)

(** unicode.IsLetter, IsDigit and ToLower from U+0080 on. *)
Class RuneTables := {
  rune_IsLetter : Z -> bool;
  rune_IsDigit : Z -> bool;
  rune_ToLower : Z -> Z;
}.
Class FloatMath := { math_Log : float64 -> float64 }.

Definition codeOf (c : ascii) : Z := Z.of_nat (nat_of_ascii c).
Definition contBits (c : ascii) : Z := codeOf c - 128.
Definition RuneError : Z := 65533.

(** [for _, r := range s]. *)
Fixpoint runes (s : string) : list Z :=
  match s with
  | EmptyString => []
  | String a s1 =>
    if inRange 0 127 a then codeOf a :: runes s1 else
    match s1 with
    | EmptyString => [RuneError]
    | String b s2 =>
      if lead2 a b then ((codeOf a - 192) * 64 + contBits b) :: runes s2 else
      match s2 with
      | EmptyString => RuneError :: runes s1
      | String c s3 =>
        if lead3 a b && isCont c
        then ((codeOf a - 224) * 4096 + contBits b * 64 + contBits c) :: runes s3 else
        match s3 with
        | EmptyString => RuneError :: runes s1
        | String d s4 =>
          if lead4 a b && isCont c && isCont d
          then ((codeOf a - 240) * 262144 + contBits b * 4096 + contBits c * 64 + contBits d) :: runes s4
          else RuneError :: runes s1
        end
      end
    end
  end.
(** [WriteRune]. *)
Definition encodeRune (r : Z) : string :=
  let tail n := 128 + (r / n) mod 64 in
  string_of_bytes
    (if (0 <=? r) && (r <? 128) then [r]
     else if (128 <=? r) && (r <? 2048) then [192 + r / 64; tail 1]
     else if ((2048 <=? r) && (r <? 55296)) || ((57344 <=? r) && (r <? 65536))
     then [224 + r / 4096; tail 64; tail 1]
     else if (65536 <=? r) && (r <=? 1114111) then [240 + r / 262144; tail 4096; tail 64; tail 1]
     else [239; 191; 189]).

Definition between (lo hi r : Z) : bool := (lo <=? r) && (r <=? hi).
Definition IsLetter `{RuneTables} (r : Z) : bool :=
  if r <? 128 then between 65 90 r || between 97 122 r else rune_IsLetter r.
Definition IsDigit `{RuneTables} (r : Z) : bool :=
  if r <? 128 then between 48 57 r else rune_IsDigit r.
Definition lowerRune `{RuneTables} (r : Z) : Z :=
  if r <? 128 then if between 65 90 r then r + 32 else r else rune_ToLower r.

(** ** The stemmer *)

Definition isVowel (c : ascii) : bool :=
  bool_decide (c ∈ ["a"; "e"; "i"; "o"; "u"]%char).
Fixpoint containsVowel (word : string) : bool :=
  match word with EmptyString => false | String c word => isVowel c || containsVowel word end.

(** [w[:len(w)-n]] and [w[len(w)-n:]]. *)
Definition chop (n : nat) (w : string) : string := stake (String.length w - n) w.
Definition ending (n : nat) (w : string) : string := sdrop (String.length w - n) w.

Definition doubleConsonant (word : string) : bool :=
  match ending 2 word with
  | String b (String a EmptyString) => bool_decide (a = b) && negb (isVowel a)
  | _ => false
  end.
Definition cvcPattern (word : string) : bool :=
  match ending 3 word with
  | String c (String b (String a EmptyString)) =>
    negb (isVowel c) && isVowel b && negb (isVowel a) && negb (bool_decide (a ∈ ["w"; "x"; "y"]%char))
  | _ => false
  end.

(** The inner loops of [measure], over the rest of the word. *)
Fixpoint skipWhile (f : ascii -> bool) (w : string) : string :=
  match w with
  | EmptyString => EmptyString
  | String c w' => if f c then skipWhile f w' else w
  end.
Definition isConsonant (c : ascii) : bool := negb (isVowel c).
(** Its outer loop; every round consumes a letter. *)
Fixpoint measureLoop (fuel : nat) (w : string) (m : Z) : Z :=
  match fuel with
  | O => m
  | S fuel =>
    match w with
    | EmptyString => m
    | _ =>
      match skipWhile isVowel w with
      | EmptyString => m
      | w => measureLoop fuel (skipWhile isConsonant w) (m + 1)
      end
    end
  end.
Definition measure (word : string) : Z :=
  measureLoop (String.length word) (skipWhile isConsonant word) 0.

Definition step1a (w : string) : string :=
  if HasSuffix w "sses" then chop 2 w
  else if HasSuffix w "ies" then chop 2 w
  else if HasSuffix w "ss" then w
  else if HasSuffix w "s" then chop 1 w else w.
(** With the flag [step1bExtra]. *)
Definition step1b (w : string) : string * bool :=
  if HasSuffix w "eed" then (if 0 <? measure (chop 3 w) then chop 1 w else w, false)
  else if HasSuffix w "ed" then if containsVowel (chop 2 w) then (chop 2 w, true) else (w, false)
  else if HasSuffix w "ing" then if containsVowel (chop 3 w) then (chop 3 w, true) else (w, false)
  else (w, false).
Definition step1bTidy (w : string) : string :=
  if HasSuffix w "at" || HasSuffix w "bl" || HasSuffix w "iz" then w +:+ "e"
  else if doubleConsonant w && negb (HasSuffix w "l") && negb (HasSuffix w "s") && negb (HasSuffix w "z")
  then chop 1 w
  else if (measure w =? 1) && cvcPattern w then w +:+ "e" else w.
Definition step1c (w : string) : string :=
  if HasSuffix w "y" && containsVowel (chop 1 w) then chop 1 w +:+ "i" else w.

(** The first suffix of a table that fits decides. *)
Fixpoint replaceSuffix (table : list (string * string)) (w : string) : string :=
  match table with
  | [] => w
  | (suffix, replacement) :: table =>
    if HasSuffix w suffix then
      let stem := chop (String.length suffix) w in
      if 0 <? measure stem then stem +:+ replacement else w
    else replaceSuffix table w
  end.
Definition suffixes2 : list (string * string) :=
  [("ational", "ate"); ("tional", "tion"); ("enci", "ence"); ("anci", "ance"); ("izer", "ize");
   ("abli", "able"); ("alli", "al"); ("entli", "ent"); ("eli", "e"); ("ousli", "ous");
   ("ization", "ize"); ("ation", "ate"); ("ator", "ate"); ("alism", "al"); ("iveness", "ive");
   ("fulness", "ful"); ("ousness", "ous"); ("aliti", "al"); ("iviti", "ive"); ("biliti", "ble")]%string.
Definition suffixes3 : list (string * string) :=
  [("icate", "ic"); ("ative", ""); ("alize", "al"); ("iciti", "ic"); ("ical", "ic"); ("ful", "");
   ("ness", "")]%string.
Definition suffixes4 : list string :=
  ["al"; "ance"; "ence"; "er"; "ic"; "able"; "ible"; "ant"; "ement"; "ment"; "ent"; "ion"; "ou"; "ism";
   "ate"; "iti"; "ous"; "ive"; "ize"]%string.
Fixpoint step4 (table : list string) (w : string) : string :=
  match table with
  | [] => w
  | s :: table =>
    if HasSuffix w s then
      let stem := chop (String.length s) w in
      if bool_decide (s = "ion"%string) then
        if (HasSuffix stem "s" || HasSuffix stem "t") && (1 <? measure stem) then stem else w
      else if 1 <? measure stem then stem else w
    else step4 table w
  end.
Definition step5a (w : string) : string :=
  if HasSuffix w "e" then
    let stem := chop 1 w in
    if 1 <? measure stem then stem
    else if (measure stem =? 1) && negb (cvcPattern stem) then stem else w
  else w.
Definition step5b (w : string) : string :=
  if doubleConsonant w && HasSuffix w "ll" && (1 <? measure w) then chop 1 w else w.

Definition porterStem (word : string) : string :=
  if (String.length word <=? 2)%nat then word
  else
    let '(w, extra) := step1b (step1a word) in
    let w := step1c (if extra then step1bTidy w else w) in
    step5b (step5a (step4 suffixes4 (replaceSuffix suffixes3 (replaceSuffix suffixes2 w)))).

(** ** The tokenizer *)

Record Token := mkToken { tok_Term : string; tok_Position : Z }.

Definition stopWords : list string :=
  ["a"; "an"; "and"; "are"; "as"; "at"; "be"; "by"; "for"; "from"; "has"; "he"; "in"; "is"; "it"; "its";
   "of"; "on"; "that"; "the"; "to"; "was"; "were"; "will"; "with"]%string.
Definition keeps (word : string) : bool :=
  negb (bool_decide (word ∈ stopWords)) && (1 <? String.length word)%nat.

Section Tokens.
Context `{RuneTables}.

Fixpoint tokenizeLoop (rs : list Z) (buf : string) (pos : Z) : list Token :=
  match rs with
  | [] => if bool_decide (buf <> ""%string) && keeps buf then [mkToken (porterStem buf) pos] else []
  | r :: rs =>
    if IsLetter r || IsDigit r then tokenizeLoop rs (buf +:+ encodeRune (lowerRune r)) pos
    else if bool_decide (buf <> ""%string) && keeps buf
    then mkToken (porterStem buf) pos :: tokenizeLoop rs "" (pos + 1)
    else tokenizeLoop rs "" pos
  end.
Definition Tokenize (text : string) : list Token := tokenizeLoop (runes text) "" 0.
End Tokens.

(** ** Posting lists *)

Record Posting := mkPosting { p_DocID : Z; p_TermFreq : Z; p_Positions : list Z }.

(** binary.AppendUvarint of a uint64: ten groups of seven bits suffice. *)
Fixpoint appendUvarint (fuel : nat) (x : Z) : bytes :=
  match fuel with
  | O => [byteOf x]
  | S fuel => if x <? 128 then [byteOf x] else byteOf (Z.lor x 128) :: appendUvarint fuel (Z.shiftr x 7)
  end.
Definition AppendUvarint (x : Z) : bytes := appendUvarint 10 x.

(** binary.Uvarint: the value and the number of bytes read, which is 0 when the
    buffer ends too early and negative when the value overflows. *)
Fixpoint uvarintLoop (b : bytes) (i : nat) (x s : Z) : Z * Z :=
  match b with
  | [] => (0, 0)
  | c :: b =>
    if (i =? 10)%nat then (0, - (Z.of_nat i + 1))
    else if c <? 128 then
      if (i =? 9)%nat && (1 <? c) then (0, - (Z.of_nat i + 1))
      else (Z.lor x (wrapU64 (Z.shiftl c s)), Z.of_nat i + 1)
    else uvarintLoop b (S i) (Z.lor x (wrapU64 (Z.shiftl (Z.land c 127) s))) (s + 7)
  end.
Definition Uvarint (b : bytes) : Z * Z := uvarintLoop b 0 0 0.

Fixpoint encodePositions (prevPos : Z) (positions : list Z) : bytes :=
  match positions with
  | [] => []
  | pos :: positions => AppendUvarint (wrapU64 (pos - prevPos)) ++ encodePositions pos positions
  end.
Fixpoint encodeFrom (prevDocID : Z) (postings : list Posting) : bytes :=
  match postings with
  | [] => []
  | p :: postings =>
    AppendUvarint (wrapU64 (p_DocID p - prevDocID)) ++ AppendUvarint (wrapU64 (p_TermFreq p)) ++
    AppendUvarint (Z.of_nat (length (p_Positions p))) ++ encodePositions 0 (p_Positions p) ++
    encodeFrom (p_DocID p) postings
  end.
Definition EncodePostings (postings : list Posting) : bytes := encodeFrom 0 postings.

(** The loop over positions: what is left in [make([]int, n)] stays zero when
    the data ends. *)
Fixpoint decodePositions (n : nat) (data : bytes) (prevPos : Z) : list Z * bytes :=
  match n with
  | O => ([], data)
  | S n =>
    let '(delta, k) := Uvarint data in
    if k <=? 0 then (repeat 0 (S n), data)
    else
      let pos := wrap64 (prevPos + wrap64 delta) in
      let '(l, data) := decodePositions n (drop (Z.to_nat k) data) pos in
      (pos :: l, data)
  end.
(** A slice of ints longer than this is a fault. *)
Definition maxInts : Z := 2 ^ 45.
(** Every round reads at least three bytes. *)
Fixpoint decodeLoop (fuel : nat) (data : bytes) (prevDocID : Z) (acc : list Posting) : res (list Posting) :=
  match fuel with
  | O => Ok acc
  | S fuel =>
    match data with
    | [] => Ok acc
    | _ =>
      let '(delta, n) := Uvarint data in
      if n <=? 0 then Ok acc else
      let data := drop (Z.to_nat n) data in
      let docID := wrapU64 (prevDocID + delta) in
      let '(tf, n) := Uvarint data in
      if n <=? 0 then Ok acc else
      let data := drop (Z.to_nat n) data in
      let '(posCount, n) := Uvarint data in
      if n <=? 0 then Ok acc else
      let data := drop (Z.to_nat n) data in
      if maxInts <? posCount then Panic "makeslice: len out of range"
      else
        let '(positions, data) := decodePositions (Z.to_nat posCount) data 0 in
        decodeLoop fuel data docID (acc ++ [mkPosting docID (wrap64 tf) positions])
    end
  end.
Definition DecodePostings (data : bytes) : res (list Posting) := decodeLoop (length data) data 0 [].

(** ** Segments *)

Record Segment := mkSegment {
  seg_id : Z; seg_postings : gmap string (list Posting); seg_docLens : gmap Z Z; seg_docCount : Z;
  seg_flushed : bool; seg_maxDocs : Z }.
Definition NewSegment (id maxDocs : Z) : Segment := mkSegment id ∅ ∅ 0 false maxDocs.

Definition termPositions (tokens : list Token) : gmap string (list Z) :=
  foldl (fun m t => <[tok_Term t := default [] (m !! tok_Term t) ++ [tok_Position t]]> m) ∅ tokens.
Definition termFreq (tokens : list Token) : gmap string Z :=
  foldl (fun m t => <[tok_Term t := default 0 (m !! tok_Term t) + 1]> m) ∅ tokens.
Definition documentPostings (docID : Z) (tokens : list Token) : gmap string (list Posting) :=
  map_imap (fun term positions => Some [mkPosting docID (default 0 (termFreq tokens !! term)) positions])
    (termPositions tokens).

(** With whether the segment is full. *)
Definition seg_AddDocument (docID : Z) (tokens : list Token) (s : Segment) : Segment * bool :=
  let s := mkSegment (seg_id s)
    (union_with (fun old new => Some (old ++ new)) (seg_postings s) (documentPostings docID tokens))
    (<[docID := Z.of_nat (length tokens)]> (seg_docLens s)) (seg_docCount s + 1) (seg_flushed s)
    (seg_maxDocs s) in
  (s, seg_maxDocs s <=? seg_docCount s).
Definition seg_Search (term : string) (s : Segment) : list Posting := default [] (seg_postings s !! term).
Definition seg_DeleteDocument (docID : Z) (s : Segment) : Segment :=
  mkSegment (seg_id s)
    (omap (fun l => match filter (fun p => p_DocID p <> docID) l with [] => None | l => Some l end)
       (seg_postings s))
    (delete docID (seg_docLens s)) (seg_docCount s - 1) (seg_flushed s) (seg_maxDocs s).
Definition totalLength (lens : gmap Z Z) : Z := map_fold (fun _ => Z.add) 0 lens.
Definition seg_GetStats (s : Segment) : Z * Z * float64 :=
  (seg_docCount s, Z.of_nat (size (seg_postings s)),
   if 0 <? seg_docCount s then fdiv (fofZ (totalLength (seg_docLens s))) (fofZ (seg_docCount s)) else fofZ 0).
Definition SetFlushed (f : bool) (s : Segment) : Segment :=
  mkSegment (seg_id s) (seg_postings s) (seg_docLens s) (seg_docCount s) f (seg_maxDocs s).

(** ** The segment manager *)

Record SegmentManager := mkManager {
  sm_segments : list Segment; sm_mergeQueue : list Z; sm_maxSegments : Z; sm_nextSegID : Z;
  sm_activeSeg : Z; sm_segmentSize : Z }.
Definition DefaultSegmentSize : Z := 1024.
Definition NewSegmentManager (segmentSize maxSegments : Z) : SegmentManager :=
  let segmentSize := if segmentSize <=? 0 then DefaultSegmentSize else segmentSize in
  let maxSegments := if maxSegments <=? 0 then 10 else maxSegments in
  mkManager [NewSegment 1 segmentSize] [] maxSegments 1 1 segmentSize.

Definition onSegment (id : Z) (f : Segment -> Segment) (l : list Segment) : list Segment :=
  (fun s => if seg_id s =? id then f s else s) <$> l.
(** The queue holds a hundred signals; further ones are dropped. *)
Definition signalMerge (sm : SegmentManager) : SegmentManager :=
  let n := Z.of_nat (length (sm_segments sm)) in
  if (sm_maxSegments sm <=? n) && (length (sm_mergeQueue sm) <? 100)%nat
  then mkManager (sm_segments sm) (sm_mergeQueue sm ++ [n]) (sm_maxSegments sm) (sm_nextSegID sm)
         (sm_activeSeg sm) (sm_segmentSize sm)
  else sm.
Definition sm_AddDocument (docID : Z) (tokens : list Token) (sm : SegmentManager) : SegmentManager :=
  let segments := onSegment (sm_activeSeg sm) (fun s => (seg_AddDocument docID tokens s).1) (sm_segments sm) in
  let full := existsb (fun s => (seg_id s =? sm_activeSeg sm) && (seg_AddDocument docID tokens s).2)
                (sm_segments sm) in
  if full then
    let id := sm_nextSegID sm + 1 in
    signalMerge (mkManager (onSegment (sm_activeSeg sm) (SetFlushed true) segments ++
                              [NewSegment id (sm_segmentSize sm)])
                   (sm_mergeQueue sm) (sm_maxSegments sm) id id (sm_segmentSize sm))
  else mkManager segments (sm_mergeQueue sm) (sm_maxSegments sm) (sm_nextSegID sm) (sm_activeSeg sm)
         (sm_segmentSize sm).
Definition sm_Search (term : string) (sm : SegmentManager) : list Posting :=
  sm_segments sm ≫= seg_Search term.
Definition set_segments (l : list Segment) (sm : SegmentManager) : SegmentManager :=
  mkManager l (sm_mergeQueue sm) (sm_maxSegments sm) (sm_nextSegID sm) (sm_activeSeg sm) (sm_segmentSize sm).
Definition sm_DeleteDocument (docID : Z) (sm : SegmentManager) : SegmentManager :=
  set_segments (seg_DeleteDocument docID <$> sm_segments sm) sm.
Definition sm_GetStats (sm : SegmentManager) : Z * float64 :=
  let '(totalDocs, totalLen) :=
    foldl (fun acc s => let '(dc, _, adl) := seg_GetStats s in
                        (acc.1 + dc, fadd acc.2 (fmul adl (fofZ dc)))) (0, fofZ 0) (sm_segments sm) in
  (totalDocs, if 0 <? totalDocs then fdiv totalLen (fofZ totalDocs) else fofZ 0).

Definition mergePostings (l : list Segment) : gmap string (list Posting) :=
  foldl (fun m s => union_with (fun old new => Some (old ++ new)) m (seg_postings s)) ∅ l.
Definition mergeDocLens (l : list Segment) : gmap Z Z := foldl (fun m s => seg_docLens s ∪ m) ∅ l.
Definition MergeSegments (sm : SegmentManager) : SegmentManager :=
  if (length (sm_segments sm) <=? 1)%nat then sm
  else
    let isActive s := seg_id s =? sm_activeSeg sm in
    let toMerge := filter (fun s => isActive s = false) (sm_segments sm) in
    if (length toMerge <=? 1)%nat then sm
    else
      let id := sm_nextSegID sm + 1 in
      let merged := mkSegment id (mergePostings toMerge) (mergeDocLens toMerge)
                      (Z.of_nat (size (mergeDocLens toMerge))) true
                      (sm_segmentSize sm * Z.of_nat (length toMerge)) in
      let active := match last (filter (fun s => isActive s = true) (sm_segments sm)) with
                    | Some s => [s] | None => [] end in
      mkManager (merged :: active) (sm_mergeQueue sm) (sm_maxSegments sm) id (sm_activeSeg sm)
        (sm_segmentSize sm).

(** ** Scores *)

Record BM25Scorer := mkScorer { bm_K1 : float64; bm_B : float64; bm_AvgDL : float64; bm_DocCount : Z }.
Definition NewBM25Scorer (k1 b : float64) : BM25Scorer := mkScorer k1 b (fofZ 0) 0.
Definition half : float64 := fdiv (fofZ 1) (fofZ 2).
Definition Score `{FloatMath} (tf df dl : Z) (s : BM25Scorer) : float64 :=
  if (bm_DocCount s =? 0) || (df =? 0) then fofZ 0
  else
    let idf := math_Log (fadd (fdiv (fadd (fsub (fofZ (bm_DocCount s)) (fofZ df)) half)
                                    (fadd (fofZ df) half)) (fofZ 1)) in
    let avgDL := if SFeqb (bm_AvgDL s) (fofZ 0) then fofZ 1 else bm_AvgDL s in
    let numerator := fmul (fofZ tf) (fadd (bm_K1 s) (fofZ 1)) in
    let denominator := fadd (fofZ tf)
      (fmul (bm_K1 s) (fadd (fsub (fofZ 1) (bm_B s)) (fdiv (fmul (bm_B s) (fofZ dl)) avgDL))) in
    fdiv (fmul idf numerator) denominator.
Definition UpdateStats (docCount : Z) (avgDL : float64) (s : BM25Scorer) : BM25Scorer :=
  mkScorer (bm_K1 s) (bm_B s) avgDL docCount.

(** ** The index *)

(** The terms not [seen] before, once each. *)
Fixpoint distinct (seen terms : list string) : list string :=
  match terms with
  | [] => []
  | t :: terms => if bool_decide (t ∈ seen) then distinct seen terms else t :: distinct (t :: seen) terms
  end.

Record DocInfo := mkDocInfo { di_DocID : Z; di_Bucket : string; di_Key : string; di_Version : string; di_Length : Z }.
Record SearchResult := mkResult { sr_DocID : Z; sr_Score : float64; sr_Bucket : string; sr_Key : string }.

Definition be16 (v : Z) : bytes := [byteOf (Z.shiftr v 8); byteOf v].
Definition be16dec (b : bytes) : Z :=
  match b with b0 :: b1 :: _ => Z.lor b1 (Z.shiftl b0 8) | _ => 0 end.
Definition be64dec (b : bytes) : Z := Z.lor (be32dec (drop 4 b)) (Z.shiftl (be32dec b) 32).

(** The value [persistDocInfo] writes, and what [loadDocsFromDB] makes of one. *)
Definition lengthField (s : string) : bytes := be16 (wrapU 16 (Z.of_nat (String.length s))) ++ bytes_of_string s.
Definition docValue (bkt key versionID : string) (docLen : Z) : bytes :=
  lengthField bkt ++ lengthField key ++ lengthField versionID ++ be32 (wrapU32 docLen).
Definition readField (v : bytes) : option (string * bytes) :=
  if (length v <? 2)%nat then None
  else
    let n := Z.to_nat (be16dec v) in
    if (length v <? 2 + n)%nat then None
    else Some (string_of_bytes (take n (drop 2 v)), drop (2 + n) v).
Definition parseDoc (docID : Z) (v : bytes) : option DocInfo :=
  if (length v <? 14)%nat then None
  else
    '(bkt, v) ← readField v;
    '(key, v) ← readField v;
    '(version, v) ← readField v;
    if (length v <? 4)%nat then None else Some (mkDocInfo docID bkt key version (be32dec v)).

Section Index.
Context `{Bolt, RuneTables, FloatMath, Sha256, GoUnicode}.

Record InvertedIndex := mkIndex {
  ix_db : bucket bytes; ix_segments : SegmentManager; ix_scorer : BM25Scorer; ix_docs : gmap Z DocInfo;
  ix_termDF : gmap string Z; ix_closed : bool; ix_maxDocs : Z; ix_evictList : list Z;
  ix_indexSize : Z; ix_maxIndexSize : Z }.
Definition with_segments sm ix := mkIndex (ix_db ix) sm (ix_scorer ix) (ix_docs ix) (ix_termDF ix)
  (ix_closed ix) (ix_maxDocs ix) (ix_evictList ix) (ix_indexSize ix) (ix_maxIndexSize ix).
Definition with_scorer s ix := mkIndex (ix_db ix) (ix_segments ix) s (ix_docs ix) (ix_termDF ix)
  (ix_closed ix) (ix_maxDocs ix) (ix_evictList ix) (ix_indexSize ix) (ix_maxIndexSize ix).
Definition with_docs docs evict ix := mkIndex (ix_db ix) (ix_segments ix) (ix_scorer ix) docs (ix_termDF ix)
  (ix_closed ix) (ix_maxDocs ix) evict (ix_indexSize ix) (ix_maxIndexSize ix).
Definition with_termDF df ix := mkIndex (ix_db ix) (ix_segments ix) (ix_scorer ix) (ix_docs ix) df
  (ix_closed ix) (ix_maxDocs ix) (ix_evictList ix) (ix_indexSize ix) (ix_maxIndexSize ix).
Definition with_db db ix := mkIndex db (ix_segments ix) (ix_scorer ix) (ix_docs ix) (ix_termDF ix)
  (ix_closed ix) (ix_maxDocs ix) (ix_evictList ix) (ix_indexSize ix) (ix_maxIndexSize ix).
Definition with_maxDocs n ix := mkIndex (ix_db ix) (ix_segments ix) (ix_scorer ix) (ix_docs ix) (ix_termDF ix)
  (ix_closed ix) n (ix_evictList ix) (ix_indexSize ix) (ix_maxIndexSize ix).
Definition with_quota size maxSize ix := mkIndex (ix_db ix) (ix_segments ix) (ix_scorer ix) (ix_docs ix)
  (ix_termDF ix) (ix_closed ix) (ix_maxDocs ix) (ix_evictList ix) size maxSize.

(** [docID] as a key of the bucket. *)
Definition docKey (docID : Z) : string := string_of_bytes (be64 docID).
Definition loadDoc (m : gmap Z DocInfo) (entry : string * bytes) : gmap Z DocInfo :=
  let docID := be64dec (bytes_of_string entry.1) in
  match parseDoc docID entry.2 with Some d => <[docID := d]> m | None => m end.
Definition loadDocsFromDB (db : bucket bytes) : gmap Z DocInfo := foldl loadDoc ∅ (bForEach db).
(** 1.2 and 0.75. *)
Definition k1 : float64 := fdiv (fofZ 12) (fofZ 10).
Definition b075 : float64 := fdiv (fofZ 3) (fofZ 4).
(** Once the database is open. *)
Definition NewInvertedIndex (db : bucket bytes) : InvertedIndex :=
  mkIndex db (NewSegmentManager DefaultSegmentSize 10) (NewBM25Scorer k1 b075) (loadDocsFromDB db) ∅ false
    100000 [] 0 10737418240.

Definition refreshScorer (ix : InvertedIndex) : InvertedIndex :=
  let '(docCount, avgDL) := sm_GetStats (ix_segments ix) in
  with_scorer (UpdateStats docCount avgDL (ix_scorer ix)) ix.
Fixpoint evictLoop (evict : list Z) (ix : InvertedIndex) : InvertedIndex :=
  match evict with
  | [] => with_docs (ix_docs ix) [] ix
  | evictID :: rest =>
    if Z.of_nat (size (ix_docs ix)) <=? ix_maxDocs ix then with_docs (ix_docs ix) evict ix
    else match ix_docs ix !! evictID with
         | Some _ => evictLoop rest (refreshScorer (with_docs (delete evictID (ix_docs ix)) rest
                       (with_segments (sm_DeleteDocument evictID (ix_segments ix)) ix)))
         | None => evictLoop rest ix
         end
  end.
Definition evictExcessDocs (ix : InvertedIndex) : InvertedIndex := evictLoop (ix_evictList ix) ix.
Definition SetMaxDocs (max : Z) (ix : InvertedIndex) : InvertedIndex := evictExcessDocs (with_maxDocs max ix).

Definition ComputeDocID (bkt key versionID : string) : Z :=
  be64dec (sha256_Sum256 (bytes_of_string (bkt +:+ "#" +:+ key +:+ "#" +:+ versionID))).
Definition IsQuotaExceeded (ix : InvertedIndex) : bool :=
  (0 <? ix_maxIndexSize ix) && (ix_maxIndexSize ix <? ix_indexSize ix).
Definition countTerms (tokens : list Token) (df : gmap string Z) : gmap string Z :=
  foldl (fun df t => <[t := default 0 (df !! t) + 1]> df) df (distinct [] (tok_Term <$> tokens)).
Definition indexTokens (docID : Z) (tokens : list Token) (ix : InvertedIndex) : InvertedIndex :=
  refreshScorer (with_termDF (countTerms tokens (ix_termDF ix))
    (with_segments (sm_AddDocument docID tokens (ix_segments ix)) ix)).
Definition AddDocument (docID : Z) (tokens : list Token) (ix : InvertedIndex) : InvertedIndex * res unit :=
  if ix_closed ix then (ix, Err "index is closed")
  else if IsQuotaExceeded ix then (ix, Err "FTS index disk quota exceeded")
  else (indexTokens docID tokens ix, Ok tt).
Definition AddDocumentWithInfo (bkt key versionID text : string) (ix : InvertedIndex)
  : InvertedIndex * res unit :=
  let docID := ComputeDocID bkt key versionID in
  let tokens := Tokenize text in
  if ix_closed ix then (ix, Err "index is closed")
  else if IsQuotaExceeded ix then (ix, Err "FTS index disk quota exceeded")
  else
    let n := Z.of_nat (length tokens) in
    let ix := with_docs (<[docID := mkDocInfo docID bkt key versionID n]> (ix_docs ix))
                (ix_evictList ix ++ [docID]) ix in
    let ix := evictExcessDocs (indexTokens docID tokens ix) in
    match bPut (ix_db ix) (docKey docID) (docValue bkt key versionID n) with
    | Ok db => (with_db db ix, Ok tt)
    | Err e => (ix, Err ("failed to persist doc info: " +:+ e))
    | Panic w => (ix, Panic w)
    end.

Definition DeleteDocument (docID : Z) (ix : InvertedIndex) : InvertedIndex * res unit :=
  if ix_closed ix then (ix, Err "index is closed")
  else
    let ix := with_docs (delete docID (ix_docs ix)) (ix_evictList ix)
                (with_segments (sm_DeleteDocument docID (ix_segments ix)) ix) in
    match bDelete (ix_db ix) (docKey docID) with
    | Ok db => (refreshScorer (with_db db ix), Ok tt)
    | Err e => (ix, Err ("failed to delete doc info: " +:+ e))
    | Panic w => (ix, Panic w)
    end.
(** The documents in the order in which Go walks the map. *)
Definition DeleteDocumentByKey (walk : list DocInfo) (bkt key : string) (ix : InvertedIndex)
  : InvertedIndex * res unit :=
  match filter (fun d => di_Bucket d = bkt /\ di_Key d = key) walk with
  | [] => (ix, Ok tt)
  | d :: _ => DeleteDocument (di_DocID d) ix
  end.
Definition GetDocInfo (docID : Z) (ix : InvertedIndex) : option DocInfo := ix_docs ix !! docID.

Definition addScore (m : gmap Z float64) (docID : Z) (x : float64) : gmap Z float64 :=
  <[docID := fadd (default (fofZ 0) (m !! docID)) x]> m.
Definition scorePostings (term : string) (ix : InvertedIndex) (m : gmap Z float64) : gmap Z float64 :=
  foldl (fun m p =>
           let dl := match ix_docs ix !! p_DocID p with Some d => di_Length d | None => 0 end in
           addScore m (p_DocID p) (Score (p_TermFreq p) (default 0 (ix_termDF ix !! term)) dl (ix_scorer ix)))
    m (sm_Search term (ix_segments ix)).
Definition docScores (tokens : list Token) (ix : InvertedIndex) : gmap Z float64 :=
  foldl (fun m t => scorePostings t ix m) ∅ (distinct [] (tok_Term <$> tokens)).
(** [order] is the order in which the map is walked; sorting it by score keeps
    the order of equal ones, so every outcome of sort.Slice is that of some
    order. *)
Definition score_le (x y : Z * float64) : Prop := fgt y.2 x.2 = false.
#[export] Instance score_le_dec : RelDecision score_le.
Proof. intros x y. unfold score_le. apply _. Defined.
Definition ranked (order : list Z) (topK : Z) (m : gmap Z float64) : list (Z * float64) :=
  take (Z.to_nat topK) (merge_sort score_le (omap (fun d => (d,.) <$> m !! d) order)).
Definition Search (order : list Z) (query : string) (topK : Z) (ix : InvertedIndex) : res (list SearchResult) :=
  if ix_closed ix then Err "index is closed"
  else
    match Tokenize query with
    | [] => Ok []
    | tokens =>
      if topK <? 0 then Panic "slice bounds out of range"
      else Ok ((fun '(d, x) => match ix_docs ix !! d with
                               | Some info => mkResult d x (di_Bucket info) (di_Key info)
                               | None => mkResult d x "" "" end)
                 <$> ranked order topK (docScores tokens ix))
    end.

(** ** Compaction *)

Definition updateTermStats (ix : InvertedIndex) : InvertedIndex :=
  refreshScorer (with_termDF
    (map_imap (fun term _ => match sm_Search term (ix_segments ix) with
                             | [] => None
                             | postings => Some (Z.of_nat (length postings)) end) (ix_termDF ix)) ix).
Definition runCompaction (ix : InvertedIndex) : InvertedIndex :=
  if (length (sm_segments (ix_segments ix)) <=? 1)%nat then ix
  else updateTermStats (with_segments (MergeSegments (ix_segments ix)) ix).
(** [size] is what the walk of the directory adds up. *)
Definition checkDiskQuota (size : res Z) (ix : InvertedIndex) : InvertedIndex :=
  match size with Ok n => with_quota n (ix_maxIndexSize ix) ix | _ => ix end.

(** ** Fusion with vector results *)

Record HybridWeights := mkWeights { hw_BM25Weight : float64; hw_VectorWeight : float64; hw_RRFConstant : Z }.
Definition DefaultHybridWeights : HybridWeights := mkWeights half half 60.
Record HybridResult := mkHybrid { hr_DocID : Z; hr_Bucket : string; hr_Key : string; hr_Score : float64 }.
Record VectorSearchResult := mkVector { vr_Bucket : string; vr_ObjectKey : string; vr_Score : float64 }.

Definition mapKey (bkt key : string) : string := bkt +:+ "/" +:+ key.
(** Later results of one key take over its rank. *)
Definition vectorRankMap (vectorResults : list VectorSearchResult) : gmap string Z :=
  list_to_map (rev (imap (fun rank vr => (mapKey (vr_Bucket vr) (vr_ObjectKey vr), Z.of_nat rank)) vectorResults)).
Definition rrfTerm (weight : float64) (k rank : Z) : float64 := fdiv weight (fofZ (k + rank + 1)).
Definition hybridWeights (w : HybridWeights) : HybridWeights :=
  let w := if SFeqb (hw_BM25Weight w) (fofZ 0) && SFeqb (hw_VectorWeight w) (fofZ 0)
           then DefaultHybridWeights else w in
  mkWeights (hw_BM25Weight w) (hw_VectorWeight w) (if hw_RRFConstant w <=? 0 then 60 else hw_RRFConstant w).

(** The scores that are fused: of the text results by rank, of indexed documents
    among the vector results, and of the other vector results under an id of
    their own. *)
Definition fuse (w : HybridWeights) (bm25 : list SearchResult) (vectorResults : list VectorSearchResult)
    (ix : InvertedIndex) : gmap Z float64 :=
  let k := hw_RRFConstant w in
  let ranks := vectorRankMap vectorResults in
  let m := foldl (fun m '(rank, r) => addScore m (sr_DocID r) (rrfTerm (hw_BM25Weight w) k rank)) ∅
             (imap (fun rank r => (Z.of_nat rank, r)) bm25) in
  let m := map_fold (fun docID info m =>
             match ranks !! mapKey (di_Bucket info) (di_Key info) with
             | Some rank => addScore m docID (rrfTerm (hw_VectorWeight w) k rank)
             | None => m end) m (ix_docs ix) in
  let indexed := omap (fun r => (fun info => mapKey (di_Bucket info) (di_Key info)) <$> GetDocInfo (sr_DocID r) ix)
                   bm25 in
  let only : gmap string VectorSearchResult :=
    list_to_map (rev ((fun vr => (mapKey (vr_Bucket vr) (vr_ObjectKey vr), vr)) <$> vectorResults)) in
  map_fold (fun key vr m =>
    match ranks !! key with
    | Some rank => <[ComputeDocID (vr_Bucket vr) (vr_ObjectKey vr) "vector" :=
                       rrfTerm (hw_VectorWeight w) k rank]> m
    | None => m end) m (filter (fun x => x.1 ∉ indexed) only).
Definition hybridNamed (vectorResults : list VectorSearchResult) (ix : InvertedIndex) (x : Z * float64)
  : HybridResult :=
  match GetDocInfo x.1 ix with
  | Some info => mkHybrid x.1 (di_Bucket info) (di_Key info) x.2
  | None =>
    match filter (fun vr => ComputeDocID (vr_Bucket vr) (vr_ObjectKey vr) "vector" = x.1) vectorResults with
    | vr :: _ => mkHybrid x.1 (vr_Bucket vr) (vr_ObjectKey vr) x.2
    | [] => mkHybrid x.1 "" "" x.2
    end
  end.
Definition HybridSearch (order1 order2 : list Z) (query : string) (topK : Z) (weights : HybridWeights)
    (vectorResults : list VectorSearchResult) (ix : InvertedIndex) : res (list HybridResult) :=
  let w := hybridWeights weights in
  bm25 ← Search order1 query (wrap64 (topK * 2)) ix;
  if topK <? 0 then Panic "slice bounds out of range"
  else Ok (hybridNamed vectorResults ix <$> ranked order2 topK (fuse w bm25 vectorResults ix)).
Definition ComputeRRFScore (rank k : Z) : float64 := fdiv (fofZ 1) (fofZ (k + rank)).

(** ** Snippets *)

(** [s[i:j]]. *)
Definition slice (s : string) (i j : Z) : res string :=
  if (0 <=? i) && (i <=? j) && (j <=? Z.of_nat (String.length s))
  then Ok (stake (Z.to_nat (j - i)) (sdrop (Z.to_nat i) s)) else Panic "slice bounds out of range".
Definition bestPos (lowerText : string) (tokens : list Token) : option nat :=
  foldl (fun best t => match Index lowerText (tok_Term t), best with
                       | Some i, Some b => Some (Nat.min i b)
                       | Some i, None => Some i
                       | None, b => b end) None tokens.
Definition GenerateSnippet (text : string) (tokens : list Token) (snippetLen : Z) : res string :=
  let snippetLen := if snippetLen <=? 0 then 100 else snippetLen in
  let n := Z.of_nat (String.length text) in
  match bestPos (ToLower text) tokens with
  | None => Ok (if snippetLen <? n then stake (Z.to_nat snippetLen) text +:+ "..." else text)
  | Some pos =>
    let start := Z.max 0 (Z.of_nat pos - Z.quot snippetLen 2) in
    let stop := Z.min n (start + snippetLen) in
    snippet ← slice text start stop;
    Ok ((if 0 <? start then "..." else "") +:+ snippet +:+ (if stop <? n then "..." else ""))
  end.

(** The loop over the matches of one term. [None]: it has not ended. *)
Fixpoint highlightLoop (fuel : nat) (term lower result : string) (lastIdx : nat) (acc : string)
  : option (res string) :=
  match fuel with
  | O => None
  | S fuel =>
    match Index (sdrop lastIdx lower) term with
    | None => Some (Ok (acc +:+ sdrop lastIdx result))
    | Some idx =>
      let absIdx := (lastIdx + idx)%nat in
      let stop := (absIdx + String.length term)%nat in
      match slice result (Z.of_nat lastIdx) (Z.of_nat absIdx), slice result (Z.of_nat absIdx) (Z.of_nat stop) with
      | Ok before, Ok hit =>
        highlightLoop fuel term lower result stop (acc +:+ before +:+ "<em>" +:+ hit +:+ "</em>")
      | _, _ => Some (Panic "slice bounds out of range")
      end
    end
  end.
Fixpoint HighlightTerms (fuel : nat) (text : string) (tokens : list Token) : option (res string) :=
  match tokens with
  | [] => Some (Ok text)
  | t :: tokens =>
    match highlightLoop fuel (tok_Term t) (ToLower text) text 0 "" with
    | Some (Ok text) => HighlightTerms fuel text tokens
    | r => r
    end
  end.
End Index.
