(* ===== verification/FtsTheorems.v ===== *)
(** * Full-text search: codecs, the index against its specification, snippets

    Posting lists and document records come back from their bytes; a search
    finds the documents that were added and not deleted, whatever merges
    happened; the table of documents is bounded; and what a restart and a
    deletion do to the index. *)

From S2P Require Import Prelude GoIO GoStrings GoText GoFloat GoJson Bolt CryptoLib Stream StreamProofs Integrity Fts.
From Stdlib Require Import Ascii String SpecFloat.
From stdpp Require Import base list strings gmap sorting.

#[local] Open Scope Z_scope.

(** ** Variable-length integers *)

Lemma low7 x : 0 <= x -> byteOf (Z.lor x 128) = 128 + x mod 128 /\ Z.land (128 + x mod 128) 127 = x mod 128.
Proof.
  intros X. split.
  - unfold byteOf. change 256 with (2 ^ 8). transitivity (Z.lor (x mod 2 ^ 7) (Z.shiftl 1 7)).
    + apply Z.bits_inj'. intros n N. change (Z.shiftl 1 7) with (2 ^ 7). change 128 with (2 ^ 7).
      rewrite Z.testbit_mod_pow2, !Z.lor_spec, Z.testbit_mod_pow2 by lia.
      destruct (decide (n = 7)) as [->|]; [by rewrite Z.pow2_bits_true, !orb_true_r|].
      rewrite Z.pow2_bits_false, !orb_false_r by lia.
      destruct (n <? 7) eqn:L; [by replace (n <? 8) with true by lia|].
      by replace (n <? 8) with false by lia.
    + rewrite lor_disjoint_add by zlia. change (2 ^ 7) with 128. lia.
  - change 127 with (Z.ones 7). rewrite Z.land_ones by done. change (2 ^ 7) with 128. zlia.
Qed.

Lemma uvarint_append fuel x i acc rest :
  0 <= x < 2 ^ (64 - 7 * Z.of_nat i) -> (i + fuel = 10)%nat -> (i < 10)%nat -> 0 <= acc < 2 ^ (7 * Z.of_nat i) ->
  uvarintLoop (appendUvarint fuel x ++ rest) i acc (7 * Z.of_nat i)
  = (acc + x * 2 ^ (7 * Z.of_nat i), Z.of_nat (i + length (appendUvarint fuel x))).
Proof.
  revert x i acc. induction fuel as [|fuel IH]; intros x i acc X F I A; [lia|].
  assert (2 ^ 64 = 2 ^ (7 * Z.of_nat i) * 2 ^ (64 - 7 * Z.of_nat i)) as P64
    by (rewrite <- Z.pow_add_r by lia; f_equal; lia).
  assert (0 < 2 ^ (7 * Z.of_nat i)) as Pp by lia. simpl appendUvarint.
  destruct (x <? 128) eqn:L.
  - simpl. unfold byteOf. rewrite Z.mod_small by lia. replace (x <? 128) with true by done.
    rewrite (proj2 (Nat.eqb_neq i 10)) by lia.
    replace ((i =? 9)%nat && (1 <? x)) with false.
    2:{ destruct (Nat.eqb_spec i 9) as [->|]; [|done]. change (64 - 7 * Z.of_nat 9) with 1 in X. lia. }
    unfold wrapU64, wrapU. rewrite Z.mod_small by (rewrite Z.shiftl_mul_pow2 by lia; nia).
    rewrite lor_disjoint_add by lia. f_equal. lia.
  - destruct (low7 x) as [B Lw]; [lia|].
    assert (i < 9)%nat. { destruct (decide (i = 9)%nat) as [->|]; [|lia]. change (64 - 7 * Z.of_nat 9) with 1 in X. lia. }
    simpl. rewrite B. rewrite (proj2 (Nat.eqb_neq i 10)) by lia. rewrite (proj2 (Z.ltb_ge (128 + x mod 128) 128)) by zlia.
    rewrite Lw. unfold wrapU64, wrapU.
    assert (2 ^ (7 * Z.of_nat i + 7) <= 2 ^ 64) as B7 by (apply Z.pow_le_mono_r; lia).
    rewrite Z.pow_add_r in B7 by lia. change (2 ^ 7) with 128 in B7.
    pose proof (Z.mod_pos_bound x 128 eq_refl) as M.
    rewrite Z.mod_small by (rewrite Z.shiftl_mul_pow2 by lia; generalize dependent (x mod 128); intros; nia).
    rewrite lor_disjoint_add by lia.
    replace (7 * Z.of_nat i + 7) with (7 * Z.of_nat (S i)) by lia.
    rewrite Z.shiftr_div_pow2 by lia. change (2 ^ 7) with 128.
    rewrite IH; [|split|lia|lia|].
    + replace (7 * Z.of_nat (S i)) with (7 * Z.of_nat i + 7) by lia. rewrite Z.pow_add_r by lia. change (2 ^ 7) with 128.
      f_equal; [|lia]. rewrite (Z.div_mod x 128) at 3 by done. ring.
    + zlia.
    + apply Z.div_lt_upper_bound; [done|]. change 128 with (2 ^ 7). rewrite <- Z.pow_add_r by lia.
      replace (7 + (64 - 7 * Z.of_nat (S i))) with (64 - 7 * Z.of_nat i) by lia. lia.
    + replace (7 * Z.of_nat (S i)) with (7 * Z.of_nat i + 7) by lia. rewrite Z.pow_add_r by lia. change (2 ^ 7) with 128.
      generalize dependent (x mod 128). intros. nia.
Qed.

Lemma varint_nonempty x : (0 < length (AppendUvarint x))%nat.
Proof.
  change (AppendUvarint x) with
    (if x <? 128 then [byteOf x] else byteOf (Z.lor x 128) :: appendUvarint 9 (Z.shiftr x 7)).
  destruct (x <? 128); cbn [length]; lia.
Qed.

Lemma Uvarint_Append x rest : 0 <= x < 2 ^ 64 ->
  Uvarint (AppendUvarint x ++ rest) = (x, Z.of_nat (length (AppendUvarint x))) /\ (0 < length (AppendUvarint x))%nat.
Proof.
  intros X. split; [|apply varint_nonempty].
  unfold Uvarint, AppendUvarint. change 0 with (7 * Z.of_nat 0) at 2.
  rewrite uvarint_append; [|exact X|lia|lia|done]. f_equal. change (2 ^ (7 * Z.of_nat 0)) with 1. lia.
Qed.

(** ** Posting lists *)

Definition isU64 (x : Z) : Prop := 0 <= x < 2 ^ 64.
Definition postingOk (p : Posting) : Prop :=
  isU64 (p_DocID p) /\ in_int64 (p_TermFreq p) /\ Forall in_int64 (p_Positions p) /\
  Z.of_nat (length (p_Positions p)) <= maxInts.

Lemma wrapU64_range x : isU64 (wrapU64 x).
Proof. unfold isU64, wrapU64, wrapU. apply Z.mod_pos_bound. done. Qed.
Lemma wrap64_wrapU x : in_int64 x -> wrap64 (wrapU64 x) = x.
Proof.
  unfold in_int64, int64_min, int64_max, wrap64, wrapU64, wrapS, wrapU. intros B.
  rewrite Z.add_mod_idemp_l by done. rewrite Z.mod_small by lia. lia.
Qed.
Lemma delta64 x y : in_int64 x -> wrap64 (y + wrap64 (wrapU64 (x - y))) = x.
Proof.
  intros B. rewrite <- (wrap64_wrapU x) at 2 by done. unfold wrap64, wrapU64, wrapS, wrapU.
  f_equal. rewrite <- (Z.mod_small (x mod 2 ^ 64) (2 ^ 64)) by (apply Z.mod_pos_bound; done).
  replace (y + (((x - y) mod 2 ^ 64 + 2 ^ (64 - 1)) mod 2 ^ 64 - 2 ^ (64 - 1)) + 2 ^ (64 - 1))
    with (y + ((x - y) mod 2 ^ 64 + 2 ^ (64 - 1)) mod 2 ^ 64) by lia.
  rewrite Z.mod_mod by done. rewrite Zplus_mod_idemp_r.
  replace (y + ((x - y) mod 2 ^ 64 + 2 ^ (64 - 1))) with ((y + 2 ^ (64 - 1)) + (x - y) mod 2 ^ 64) by lia.
  rewrite Zplus_mod_idemp_r. rewrite Zplus_mod_idemp_l. f_equal. lia.
Qed.
Lemma deltaU64 x y : isU64 x -> wrapU64 (y + wrapU64 (x - y)) = x.
Proof.
  intros B. unfold wrapU64, wrapU. rewrite Zplus_mod_idemp_r.
  replace (y + (x - y)) with x by lia. by apply Z.mod_small.
Qed.

(** What one value contributes to a decoder. *)
Lemma drop_varint x rest : isU64 x ->
  Uvarint (AppendUvarint x ++ rest) = (x, Z.of_nat (length (AppendUvarint x))) /\
  (Z.of_nat (length (AppendUvarint x)) <=? 0) = false /\
  drop (Z.to_nat (Z.of_nat (length (AppendUvarint x)))) (AppendUvarint x ++ rest) = rest.
Proof.
  intros X. destruct (Uvarint_Append x rest X) as [E P]. split; [done|]. split; [lia|].
  by rewrite Nat2Z.id, drop_app_length.
Qed.

Lemma positions_roundtrip l prev rest : Forall in_int64 l ->
  decodePositions (length l) (encodePositions prev l ++ rest) prev = (l, rest).
Proof.
  revert prev. induction l as [|x l IH]; intros prev F; [done|]. apply Forall_cons in F as [X F].
  simpl. rewrite <- app_assoc.
  destruct (drop_varint (wrapU64 (x - prev)) (encodePositions x l ++ rest)) as (E & P & D); [apply wrapU64_range|].
  rewrite E, P, D, delta64 by done. by rewrite IH.
Qed.

Lemma encode_length prev l : (3 * length l <= length (encodeFrom prev l))%nat.
Proof.
  revert prev. induction l as [|p l IH]; intros prev; [done|]. cbn [encodeFrom length].
  rewrite !length_app. specialize (IH (p_DocID p)).
  pose proof (varint_nonempty (wrapU64 (p_DocID p - prev))). pose proof (varint_nonempty (wrapU64 (p_TermFreq p))).
  pose proof (varint_nonempty (Z.of_nat (length (p_Positions p)))). lia.
Qed.

Lemma decode_encode fuel prev l acc : Forall postingOk l -> (length l < fuel)%nat ->
  decodeLoop fuel (encodeFrom prev l) prev acc = Ok (acc ++ l).
Proof.
  revert fuel prev acc. induction l as [|p l IH]; intros fuel prev acc F N; (destruct fuel as [|fuel]; [simpl in N; lia|]).
  { simpl. by rewrite app_nil_r. }
  apply Forall_cons in F as [(D & T & Ps & L) F].
  assert (isU64 (Z.of_nat (length (p_Positions p)))) as Pl by (unfold isU64, maxInts in *; lia).
  destruct (drop_varint (wrapU64 (p_DocID p - prev)) (AppendUvarint (wrapU64 (p_TermFreq p)) ++
    AppendUvarint (Z.of_nat (length (p_Positions p))) ++ encodePositions 0 (p_Positions p) ++
    encodeFrom (p_DocID p) l)) as (E1 & P1 & D1); [apply wrapU64_range|].
  destruct (drop_varint (wrapU64 (p_TermFreq p)) (AppendUvarint (Z.of_nat (length (p_Positions p))) ++
    encodePositions 0 (p_Positions p) ++ encodeFrom (p_DocID p) l)) as (E2 & P2 & D2); [apply wrapU64_range|].
  destruct (drop_varint (Z.of_nat (length (p_Positions p))) (encodePositions 0 (p_Positions p) ++
    encodeFrom (p_DocID p) l) Pl) as (E3 & P3 & D3).
  cbn [encodeFrom decodeLoop]. rewrite E1.
  destruct (_ ++ _ ++ _ ++ _ ++ _) as [|b bs] eqn:Bs in |- *.
  { apply (f_equal length) in Bs. rewrite !length_app in Bs. simpl in Bs. lia. }
  rewrite <- Bs, P1, D1, E2, P2, D2, E3, P3, D3, (proj2 (Z.ltb_ge _ _)) by done.
  rewrite Nat2Z.id, positions_roundtrip, deltaU64, wrap64_wrapU by done.
  rewrite IH by (try done; simpl in N; lia). rewrite <- app_assoc. by destruct p.
Qed.

(** Posting lists of 64-bit values, in any order, come back from their
    compressed bytes. *)
Theorem postings_roundtrip l : Forall postingOk l -> DecodePostings (EncodePostings l) = Ok l.
Proof.
  intros F. unfold DecodePostings, EncodePostings. destruct l as [|p l]; [done|].
  apply (decode_encode _ 0 (p :: l) []); [done|].
  pose proof (encode_length 0 (p :: l)). simpl length in *. lia.
Qed.

(** ** Stems are never empty, so highlighting ends *)

Lemma stake_length n s : String.length (stake n s) = Nat.min n (String.length s).
Proof. revert s. induction n as [|n IH]; intros [|c s]; simpl; try done. by rewrite IH. Qed.
Lemma length_nonempty s : (0 < String.length s)%nat -> s <> ""%string.
Proof. by destruct s; [simpl; lia|]. Qed.
Lemma chop_nonempty n w : (n < String.length w)%nat -> chop n w <> ""%string.
Proof. intros L. apply length_nonempty. unfold chop. rewrite stake_length. lia. Qed.
Lemma HasSuffix_length w s : HasSuffix w s = true -> (String.length s <= String.length w)%nat.
Proof. unfold HasSuffix. intros [L _]%andb_prop. by apply Nat.leb_le in L. Qed.
Lemma measured w m : 0 <= m -> (m <? measure w) = true -> w <> ""%string.
Proof. intros M E ->. change (measure "") with 0 in E. lia. Qed.
Lemma voweled w : containsVowel w = true -> w <> ""%string.
Proof. by intros E ->. Qed.
Lemma app_nonempty w c s : (w +:+ String c s)%string <> ""%string.
Proof. by destruct w. Qed.
Lemma doubled w : doubleConsonant w = true -> (2 <= String.length w)%nat.
Proof. by destruct w as [|a [|b w]]; simpl; [..|lia]. Qed.

Lemma step1a_nonempty w : (2 < String.length w)%nat -> step1a w <> ""%string.
Proof.
  intros L. unfold step1a. repeat case_match; try (apply chop_nonempty; lia). apply length_nonempty. lia.
  all: apply length_nonempty; lia.
Qed.
Lemma step1b_nonempty w : w <> ""%string -> (step1b w).1 <> ""%string.
Proof.
  intros N. unfold step1b. destruct (HasSuffix w "eed") eqn:E; simpl.
  { destruct (0 <? _); [|done]. apply HasSuffix_length in E. simpl in E. apply chop_nonempty. lia. }
  repeat case_match; simpl; eauto using voweled.
Qed.
Lemma step1bTidy_nonempty w : w <> ""%string -> step1bTidy w <> ""%string.
Proof.
  intros N. unfold step1bTidy. destruct (_ || _); [apply app_nonempty|].
  destruct (doubleConsonant w) eqn:D; simpl.
  - apply doubled in D. destruct (_ && _ && _); [apply chop_nonempty; lia|]. case_match; [apply app_nonempty|done].
  - case_match; [apply app_nonempty|done].
Qed.
Lemma step1c_nonempty w : w <> ""%string -> step1c w <> ""%string.
Proof. intros N. unfold step1c. case_match; [apply app_nonempty|done]. Qed.
Lemma replaceSuffix_nonempty table w : w <> ""%string -> replaceSuffix table w <> ""%string.
Proof.
  intros N. induction table as [|[s r] table IH]; simpl; [done|]. destruct (HasSuffix w s); [|done].
  destruct (0 <? _) eqn:M; [|done]. apply measured in M; [|done]. by destruct (chop _ w).
Qed.
Lemma step4_nonempty table w : w <> ""%string -> step4 table w <> ""%string.
Proof.
  intros N. induction table as [|s table IH]; simpl; [done|]. destruct (HasSuffix w s); [|done].
  destruct (1 <? _) eqn:M; rewrite ?andb_false_r, ?andb_true_r; repeat case_match; try done;
    by apply (measured _ 1).
Qed.
Lemma step5a_nonempty w : w <> ""%string -> step5a w <> ""%string.
Proof.
  intros N. unfold step5a. destruct (HasSuffix w "e"); [|done]. destruct (1 <? _) eqn:M; [by apply (measured _ 1)|].
  destruct (_ =? 1) eqn:M1; simpl; [|done]. destruct (negb _); [|done].
  apply (measured _ 0); [done|]. by apply Z.ltb_lt, Z.eqb_eq in M1 || lia.
Qed.
Lemma step5b_nonempty w : w <> ""%string -> step5b w <> ""%string.
Proof.
  intros N. unfold step5b. destruct (doubleConsonant w) eqn:D; simpl; [|done].
  apply doubled in D. case_match; [apply chop_nonempty; lia|done].
Qed.
Lemma porterStem_nonempty w : w <> ""%string -> porterStem w <> ""%string.
Proof.
  intros N. unfold porterStem. destruct (_ <=? 2)%nat eqn:L; [done|]. apply Nat.leb_gt in L.
  pose proof (step1b_nonempty (step1a w) (step1a_nonempty w L)) as B. destruct (step1b (step1a w)) as [w1 extra].
  simpl in B.
  apply step5b_nonempty, step5a_nonempty, step4_nonempty, replaceSuffix_nonempty, replaceSuffix_nonempty, step1c_nonempty.
  destruct extra; [by apply step1bTidy_nonempty|done].
Qed.

Lemma kept_stem buf : bool_decide (buf <> ""%string) && keeps buf = true -> porterStem buf <> ""%string.
Proof. intros [N _]%andb_prop. apply porterStem_nonempty. by apply bool_decide_eq_true in N. Qed.
Lemma tokenize_nonempty `{RuneTables} text : Forall (fun t => tok_Term t <> ""%string) (Tokenize text).
Proof.
  unfold Tokenize. assert (forall rs buf pos, Forall (fun t => tok_Term t <> ""%string) (tokenizeLoop rs buf pos)) as G;
    [|apply G].
  intros rs. induction rs as [|r rs IH]; intros buf pos; simpl.
  - destruct (_ && _) eqn:K; [|done]. apply Forall_singleton. exact (kept_stem _ K).
  - destruct (_ || _); [done|]. destruct (_ && _) eqn:K; [|done]. constructor; [exact (kept_stem _ K)|done].
Qed.

Section Highlights.
Context `{GoUnicode}.

Lemma Index_bound s sub i : Index s sub = Some i -> (i + String.length sub <= String.length s)%nat.
Proof.
  revert i. induction s as [|c s IH]; intros i; cbn [Index].
  - destruct (HasPrefix "" sub) eqn:P; [|done]. intros [= <-]. apply HasPrefix_spec in P as [t E].
    apply (f_equal String.length) in E. rewrite length_sapp in E. simpl in *. lia.
  - destruct (HasPrefix (String c s) sub) eqn:P.
    + intros [= <-]. apply HasPrefix_spec in P as [t E].
      apply (f_equal String.length) in E. rewrite length_sapp in E. lia.
    + destruct (Index s sub) as [j|]; [|done]. intros [= <-]. specialize (IH j eq_refl). simpl. lia.
Qed.
Lemma length_sdrop n s : String.length (sdrop n s) = (String.length s - n)%nat.
Proof. revert s. induction n as [|n IH]; intros [|c s]; simpl; try done. Qed.

Lemma highlightLoop_more term lower result fuel fuel' i acc r :
  highlightLoop fuel term lower result i acc = Some r -> (fuel <= fuel')%nat ->
  highlightLoop fuel' term lower result i acc = Some r.
Proof.
  revert fuel' i acc. induction fuel as [|fuel IH]; intros [|fuel'] i acc; simpl; [done..|lia|].
  intros E L. repeat case_match; try done. apply IH; [done|lia].
Qed.
Lemma highlightLoop_ends term lower result i acc fuel : term <> ""%string ->
  (String.length lower - i < fuel)%nat -> is_Some (highlightLoop fuel term lower result i acc).
Proof.
  intros N. revert i acc. induction fuel as [|fuel IH]; intros i acc L; [lia|]. simpl.
  destruct (Index _ _) as [idx|] eqn:E; [|by eexists].
  apply Index_bound in E. rewrite length_sdrop in E.
  assert (0 < String.length term)%nat by (by destruct term; [|simpl; lia]).
  repeat case_match; [apply IH; lia|by eexists..].
Qed.
Lemma HighlightTerms_more fuel fuel' text tokens r :
  HighlightTerms fuel text tokens = Some r -> (fuel <= fuel')%nat -> HighlightTerms fuel' text tokens = Some r.
Proof.
  revert text. induction tokens as [|t tokens IH]; intros text; simpl; [done|].
  destruct (highlightLoop fuel _ _ _ _ _) as [x|] eqn:E; [|done]. intros R L.
  rewrite (highlightLoop_more _ _ _ _ _ _ _ _ E L). destruct x; [by apply IH|done..].
Qed.

(** The loop that marks the words of a query in a text ends: the terms of
    a query are never empty, though stemming shortens them.  On an empty term it
    would not end. *)
Theorem highlight_terminates `{RuneTables} text query :
  (exists fuel r, forall fuel', (fuel <= fuel')%nat -> HighlightTerms fuel' text (Tokenize query) = Some r) /\
  (forall fuel lower result i acc, (i <= String.length result)%nat ->
     highlightLoop fuel "" lower result i acc = None).
Proof.
  split.
  - assert (exists fuel r, HighlightTerms fuel text (Tokenize query) = Some r) as (fuel & r & E).
    2:{ exists fuel, r. intros. by eapply HighlightTerms_more. }
    pose proof (tokenize_nonempty query) as F. revert text.
    induction F as [|t tokens N F IH]; intros text; [by exists 0%nat, (Ok text)|].
    destruct (highlightLoop_ends (tok_Term t) (ToLower text) text 0 "" (S (String.length (ToLower text))) N) as [x E];
      [lia|].
    destruct x as [text'|e|w]; [|eexists _, _; simpl; by rewrite E..].
    destruct (IH text') as (fuel & r & R). exists (S (String.length (ToLower text)) + fuel)%nat, r.
    cbn [HighlightTerms]. rewrite (highlightLoop_more _ _ _ _ _ _ _ _ E) by lia.
    eapply HighlightTerms_more; [exact R|lia].
  - intros fuel. induction fuel as [|fuel IH]; intros lower result i acc L; [done|]. cbn [highlightLoop].
    assert (forall s, Index s "" = Some 0%nat) as -> by (by intros []).
    change (String.length "") with 0%nat. rewrite !Nat.add_0_r.
    assert (slice result (Z.of_nat i) (Z.of_nat i) = Ok ""%string) as ->.
    { unfold slice. rewrite (proj2 (Z.leb_le 0 _)), (proj2 (Z.leb_le _ _)), (proj2 (Z.leb_le _ _)) by lia.
      simpl. f_equal. rewrite Z.sub_diag. by destruct (sdrop _ _). }
    by apply IH.
Qed.
End Highlights.

(** ** Segments hold the postings of their documents *)

Definition document : Type := Z * list Token.
Definition inTerm (term : string) (tokens : list Token) : list Token := filter (fun t => tok_Term t = term) tokens.
Definition posting (term : string) (d : document) : list Posting :=
  match inTerm term d.2 with
  | [] => []
  | l => [mkPosting d.1 (Z.of_nat (length l)) (tok_Position <$> l)]
  end.
Definition someList {A} (l : list A) : option (list A) := match l with [] => None | l => Some l end.
Definition holds (s : Segment) (docs : list document) : Prop :=
  forall term, seg_postings s !! term = someList (docs ≫= posting term).

Lemma someList_app {A} (l1 l2 : list A) :
  union_with (fun old new => Some (old ++ new)) (someList l1) (someList l2) = someList (l1 ++ l2).
Proof. destruct l1, l2; simpl; try done. by rewrite app_nil_r. Qed.
Lemma default_someList {A} (l : list A) : default [] (someList l) = l.
Proof. by destruct l. Qed.

Lemma inTerm_snoc term tokens t :
  inTerm term (tokens ++ [t]) = inTerm term tokens ++ (if decide (tok_Term t = term) then [t] else []).
Proof. unfold inTerm. rewrite filter_app, filter_cons. by destruct (decide _). Qed.
Lemma termPositions_spec tokens term :
  termPositions tokens !! term = someList (tok_Position <$> inTerm term tokens).
Proof.
  unfold termPositions. induction tokens as [|t tokens IH] using rev_ind; [done|].
  rewrite foldl_app, inTerm_snoc. simpl. destruct (decide (tok_Term t = term)) as [E|N].
  - subst term. rewrite lookup_insert_eq, IH, default_someList, fmap_app. simpl. by destruct (tok_Position <$> _).
  - by rewrite lookup_insert_ne, app_nil_r by done.
Qed.
Lemma termFreq_spec tokens term : default 0 (termFreq tokens !! term) = Z.of_nat (length (inTerm term tokens)).
Proof.
  unfold termFreq. induction tokens as [|t tokens IH] using rev_ind; [done|].
  rewrite foldl_app, inTerm_snoc, length_app. simpl. destruct (decide (tok_Term t = term)) as [E|N].
  - subst term. rewrite lookup_insert_eq, IH. simpl. lia.
  - rewrite lookup_insert_ne by done. simpl. lia.
Qed.
Lemma documentPostings_spec d tokens term :
  documentPostings d tokens !! term = someList (posting term (d, tokens)).
Proof.
  unfold documentPostings, posting. rewrite map_lookup_imap, termPositions_spec, termFreq_spec. simpl.
  by destruct (inTerm term tokens).
Qed.

Lemma holds_new id n : holds (NewSegment id n) [].
Proof. intros term. apply lookup_empty. Qed.
Lemma holds_add s docs d tokens : holds s docs -> holds (seg_AddDocument d tokens s).1 (docs ++ [(d, tokens)]).
Proof.
  intros Hs term. simpl. rewrite lookup_union_with, Hs, documentPostings_spec, someList_app.
  by rewrite bind_app; simpl; rewrite app_nil_r.
Qed.
Lemma posting_filter term d x :
  filter (fun p => p_DocID p <> d) (posting term x) = if decide (x.1 <> d) then posting term x else [].
Proof.
  unfold posting. destruct (inTerm term x.2); [by destruct (decide _)|]. rewrite filter_cons. by destruct (decide _).
Qed.
Lemma postings_filter term d (docs : list document) :
  filter (fun p => p_DocID p <> d) (docs ≫= posting term) = filter (fun x => x.1 <> d) docs ≫= posting term.
Proof.
  induction docs as [|x docs IH]; [done|]. csimpl. rewrite filter_app, filter_cons, posting_filter, IH.
  by destruct (decide _).
Qed.
Lemma holds_delete s docs d : holds s docs ->
  holds (seg_DeleteDocument d s) (filter (fun x => x.1 <> d) docs).
Proof.
  intros Hs term. simpl. rewrite lookup_omap, Hs, <- postings_filter.
  destruct (docs ≫= posting term) as [|p l]; [done|]. cbn. by destruct (decide _), (filter _ l).
Qed.
Lemma merge_holds l docs m done0 : Forall2 holds l docs -> (forall term, m !! term = someList (done0 ≫= posting term)) ->
  forall term, foldl (fun m s => union_with (fun old new => Some (old ++ new)) m (seg_postings s)) m l !! term
               = someList ((done0 ++ concat docs) ≫= posting term).
Proof.
  intros F. revert m done0. induction F as [|s d l docs Hs F IH]; intros m done0 M term; simpl.
  - by rewrite app_nil_r.
  - rewrite (IH _ (done0 ++ d)); [by rewrite <- app_assoc|].
    intros t. by rewrite lookup_union_with, M, Hs, someList_app, bind_app.
Qed.

(** ** The manager: the active segment is the last one *)

Record wellFormed (sm : SegmentManager) : Prop := mkWellFormed {
  wf_active : exists pre s, sm_segments sm = pre ++ [s] /\ seg_id s = sm_activeSeg sm /\
    Forall (fun x => seg_id x <> sm_activeSeg sm /\ seg_id x <= sm_nextSegID sm) pre;
  wf_next : sm_activeSeg sm <= sm_nextSegID sm }.
Definition contains (sm : SegmentManager) (docs : list document) : Prop :=
  wellFormed sm /\ exists parts, Forall2 holds (sm_segments sm) parts /\ concat parts = docs.

Lemma contains_search sm docs term : contains sm docs -> sm_Search term sm = docs ≫= posting term.
Proof.
  intros (_ & parts & F & <-). unfold sm_Search. induction F as [|s d l parts Hs F IH]; [done|].
  simpl. rewrite bind_app, <- IH. f_equal. unfold seg_Search. by rewrite Hs, default_someList.
Qed.
Lemma contains_new n k : contains (NewSegmentManager n k) [].
Proof.
  split.
  - split; [|done]. exists [], (NewSegment 1 (if n <=? 0 then DefaultSegmentSize else n)). done.
  - exists [[]]. split; [|done]. constructor; [apply holds_new|constructor].
Qed.

Lemma onSegment_pre id f l : Forall (fun x => seg_id x <> id) l -> onSegment id f l = l.
Proof.
  intros F. induction F as [|x l N F IH]; [done|]. simpl. rewrite (proj2 (Z.eqb_neq _ _)) by done. by rewrite IH.
Qed.
Lemma onSegment_last id f pre s : Forall (fun x => seg_id x <> id) pre -> seg_id s = id ->
  onSegment id f (pre ++ [s]) = pre ++ [f s].
Proof.
  intros F E. unfold onSegment. rewrite fmap_app. fold (onSegment id f pre). rewrite onSegment_pre by done.
  simpl. by rewrite (proj2 (Z.eqb_eq _ _)).
Qed.
Lemma Forall2_snoc_parts (pre : list Segment) s parts : Forall2 holds (pre ++ [s]) parts ->
  exists parts' d, parts = parts' ++ [d] /\ Forall2 holds pre parts' /\ holds s d.
Proof.
  intros (parts' & l & F & G & ->)%Forall2_app_inv_l. apply Forall2_cons_inv_l in G as (d & l' & Hs & G & ->).
  apply Forall2_nil_inv_l in G as ->. by exists parts', d.
Qed.
Lemma signalMerge_same sm docs : contains sm docs -> contains (signalMerge sm) docs.
Proof. intros ([A N] & F). unfold signalMerge. destruct (_ && _); by repeat split. Qed.

Lemma contains_add sm docs d tokens : contains sm docs -> contains (sm_AddDocument d tokens sm) (docs ++ [(d, tokens)]).
Proof.
  intros ([(pre & s & E & Id & P) Nx] & parts & F & <-). unfold sm_AddDocument. rewrite E in *.
  assert (Forall (fun x => seg_id x <> sm_activeSeg sm) pre) as P1 by (eapply Forall_impl; [exact P|]; by intros x []).
  apply Forall2_snoc_parts in F as (parts' & docs & -> & F & Hs).
  rewrite !onSegment_last by done. set (s1 := (seg_AddDocument d tokens s).1).
  assert (holds s1 (docs ++ [(d, tokens)])) as H1 by by apply holds_add.
  assert (concat (parts' ++ [docs]) ++ [(d, tokens)] = concat (parts' ++ [docs ++ [(d, tokens)]])) as ->
    by (rewrite !concat_app; simpl; by rewrite !app_nil_r, app_assoc).
  destruct (existsb _ _).
  - apply signalMerge_same. split; [split; [|simpl; lia]|].
    + exists (pre ++ [SetFlushed true s1]), (NewSegment (sm_nextSegID sm + 1) (sm_segmentSize sm)).
      split; [done|]. split; [done|]. simpl. apply Forall_app. split.
      * eapply Forall_impl; [exact P|]. intros x []. simpl. lia.
      * constructor; [simpl; lia|done].
    + exists ((parts' ++ [docs ++ [(d, tokens)]]) ++ [[]]). split.
      * simpl. apply Forall2_app; [apply Forall2_app; [done|by repeat constructor]|].
        constructor; [apply holds_new|done].
      * rewrite concat_app. simpl. by rewrite app_nil_r.
  - split; [split; [|done]|].
    + by exists pre, s1.
    + exists (parts' ++ [docs ++ [(d, tokens)]]). split; [|done]. simpl. apply Forall2_app; [done|by repeat constructor].
Qed.

Lemma Forall2_fmap_holds (f : Segment -> Segment) (g : list document -> list document) l parts :
  (forall s d, holds s d -> holds (f s) (g d)) -> Forall2 holds l parts -> Forall2 holds (f <$> l) (g <$> parts).
Proof. intros P F. induction F; simpl; constructor; eauto. Qed.
Lemma filter_concat (d : Z) (parts : list (list document)) :
  concat (filter (fun x => x.1 <> d) <$> parts) = filter (fun x => x.1 <> d) (concat parts).
Proof. induction parts as [|p parts IH]; [done|]. csimpl. by rewrite filter_app, IH. Qed.
Lemma contains_delete sm docs d : contains sm docs ->
  contains (sm_DeleteDocument d sm) (filter (fun x => x.1 <> d) docs).
Proof.
  intros ([(pre & s & E & Id & P) Nx] & parts & F & <-). split.
  - split; [|done]. exists (seg_DeleteDocument d <$> pre), (seg_DeleteDocument d s). simpl. rewrite E, fmap_app.
    split; [done|]. split; [done|]. by apply Forall_fmap.
  - exists (filter (fun x => x.1 <> d) <$> parts). split; [|apply filter_concat].
    apply Forall2_fmap_holds; [|done]. intros. by apply holds_delete.
Qed.

Lemma filter_true {A} (f : A -> bool) b l : Forall (fun x => f x = b) l -> filter (fun x => f x = b) l = l.
Proof. intros F. induction F; [done|]. rewrite filter_cons, decide_True by done. by f_equal. Qed.
Lemma filter_false {A} (f : A -> bool) b l : Forall (fun x => f x <> b) l -> filter (fun x => f x = b) l = [].
Proof. intros F. induction F; [done|]. by rewrite filter_cons, decide_False by done. Qed.

(** Merging turns the segments before the active one into one, in their order. *)
Lemma contains_merge sm docs : contains sm docs -> contains (MergeSegments sm) docs.
Proof.
  intros ([(pre & s & E & Id & P) Nx] & parts & F & <-). unfold MergeSegments. rewrite E in *.
  destruct (length (pre ++ [s]) <=? 1)%nat; [split; [split; [by exists pre, s|done]|by exists parts; rewrite E]|].
  apply Forall2_snoc_parts in F as (parts' & docs & -> & F & Hs).
  assert (Forall (fun x => (seg_id x =? sm_activeSeg sm) = false) pre) as Q.
  { eapply Forall_impl; [exact P|]. intros x [N _]. by apply Z.eqb_neq. }
  assert ((seg_id s =? sm_activeSeg sm) = true) as A by by apply Z.eqb_eq.
  cbv zeta. rewrite !filter_app, (filter_true _ false) by done.
  rewrite (filter_false _ false [s]) by (repeat constructor; by rewrite A).
  rewrite (filter_false _ true pre) by (eapply Forall_impl; [exact Q|]; by intros x ->).
  rewrite (filter_true _ true [s]) by by repeat constructor. rewrite app_nil_r. cbn [last app].
  destruct (length pre <=? 1)%nat.
  { split; [split; [by exists pre, s|done]|]. exists (parts' ++ [docs]). rewrite E. split; [|done].
    apply Forall2_app; [done|by repeat constructor]. }
  split; [split; [|simpl; lia]|].
  - eexists [_], s. split; [reflexivity|]. split; [done|]. constructor; [simpl; lia|done].
  - exists [concat parts'; docs]. split.
    + simpl. constructor; [|by repeat constructor]. intros term. simpl. unfold mergePostings.
      by apply (merge_holds pre parts' ∅ []).
    + rewrite concat_app. simpl. done.
Qed.

(** ** The manager refines a list of documents *)

Inductive indexOp :=
| OpAdd (docID : Z) (tokens : list Token)
| OpDelete (docID : Z)
| OpMerge.
Definition applyOp (sm : SegmentManager) (o : indexOp) : SegmentManager :=
  match o with
  | OpAdd d tokens => sm_AddDocument d tokens sm
  | OpDelete d => sm_DeleteDocument d sm
  | OpMerge => MergeSegments sm
  end.
Definition specOp (docs : list document) (o : indexOp) : list document :=
  match o with
  | OpAdd d tokens => docs ++ [(d, tokens)]
  | OpDelete d => filter (fun x => x.1 <> d) docs
  | OpMerge => docs
  end.

(** C7: Whatever documents are added and deleted and however often segments are
    merged, a search for a term finds exactly the documents that are there, in
    the order in which they were added, each with its number of occurrences and
    its positions. *)
Theorem search_refines_documents segmentSize maxSegments ops term :
  sm_Search term (foldl applyOp (NewSegmentManager segmentSize maxSegments) ops)
  = foldl specOp [] ops ≫= posting term.
Proof.
  apply contains_search. induction ops as [|o ops IH] using rev_ind; [apply contains_new|].
  rewrite !foldl_app. simpl. destruct o; [by apply contains_add|by apply contains_delete|by apply contains_merge].
Qed.

(** ** Deleting *)

Lemma docCounts l acc x : (foldl (fun acc s => let '(dc, _, adl) := seg_GetStats s in
     (acc.1 + dc, fadd acc.2 (fmul adl (fofZ dc)))) (acc, x) l).1 = acc + foldr Z.add 0 (seg_docCount <$> l).
Proof. revert acc x. induction l as [|s l IH]; intros acc x; simpl; [lia|]. rewrite IH. simpl.
  change (list_fmap Segment Z seg_docCount l) with (seg_docCount <$> l). lia. Qed.
Lemma GetStats_docs sm : (sm_GetStats sm).1 = foldr Z.add 0 (seg_docCount <$> sm_segments sm).
Proof.
  unfold sm_GetStats. pose proof (docCounts (sm_segments sm) 0 (fofZ 0)) as D.
  by destruct (foldl _ (0, fofZ 0) _) as [n x].
Qed.
(** Deleting a document, whether or not it is there, takes one off the count of
    documents for every segment. *)
Lemma delete_counts_every_segment d sm :
  (sm_GetStats (sm_DeleteDocument d sm)).1 = (sm_GetStats sm).1 - Z.of_nat (length (sm_segments sm)).
Proof.
  rewrite !GetStats_docs. simpl. induction (sm_segments sm) as [|s l IH]; [done|]. cbn [fmap list_fmap foldr length].
  cbn in IH |- *. lia.
Qed.

(** ** Records of documents *)

Lemma byteOf_low v k : 0 <= k -> k + 8 <= 32 -> byteOf (Z.shiftr (v mod 2 ^ 32) k) = byteOf (Z.shiftr v k).
Proof.
  intros K L. unfold byteOf. change 256 with (2 ^ 8). apply Z.bits_inj'. intros n N.
  rewrite !Z.testbit_mod_pow2, !Z.shiftr_spec, Z.testbit_mod_pow2 by lia.
  destruct (n <? 8) eqn:E; [|done]. by replace (n + k <? 32) with true by lia.
Qed.
Lemma be32_low v : be32 v = be32 (v mod 2 ^ 32).
Proof.
  unfold be32. rewrite !byteOf_low by lia. do 3 f_equal. f_equal.
  pose proof (byteOf_low v 0) as E. rewrite !Z.shiftr_0_r in E. symmetry. apply E; lia.
Qed.
Lemma be64_roundtrip v : isU64 v -> be64dec (be64 v) = v.
Proof.
  unfold isU64, be64dec, be64. intros B. 
  change (drop 4 (be32 (Z.shiftr v 32) ++ be32 v)) with (be32 v).
  change (be32dec (be32 (Z.shiftr v 32) ++ be32 v)) with (be32dec (be32 (Z.shiftr v 32))).
  rewrite (be32_low v), !be32_roundtrip; [|rewrite Z.shiftr_div_pow2 by lia; zlia|apply Z.mod_pos_bound; done].
  rewrite lor_disjoint_add; [|apply Z.mod_pos_bound; done|done].
  rewrite Z.shiftr_div_pow2 by lia. zlia.
Qed.
Lemma is_byte_byteOf z : is_byte (byteOf z).
Proof. unfold is_byte, byteOf. apply Z.mod_pos_bound. done. Qed.
Lemma bytes_string_roundtrip b : Forall is_byte b -> bytes_of_string (string_of_bytes b) = b.
Proof.
  unfold bytes_of_string, string_of_bytes. rewrite list_ascii_of_string_of_list_ascii, map_map.
  intros F. induction F as [|x b X F IH]; [done|]. simpl. rewrite IH. f_equal. unfold is_byte in X.
  rewrite nat_ascii_embedding by lia. lia.
Qed.
Lemma docKey_roundtrip d : isU64 d -> be64dec (bytes_of_string (docKey d)) = d.
Proof.
  intros B. unfold docKey. rewrite bytes_string_roundtrip; [by apply be64_roundtrip|].
  unfold be64, be32. repeat (constructor; [apply is_byte_byteOf|]). constructor.
Qed.

Definition short (s : string) : Prop := Z.of_nat (String.length s) < 2 ^ 16.
Lemma length_bytes s : length (bytes_of_string s) = String.length s.
Proof. unfold bytes_of_string. rewrite length_map. induction s; simpl; congruence. Qed.
Lemma be16_roundtrip v : 0 <= v < 2 ^ 16 -> be16dec (be16 v) = v.
Proof.
  intros B. unfold be16, be16dec, byteOf. rewrite lor_disjoint_add, Z.shiftr_div_pow2 by zlia.
  change (2 ^ 8) with 256. zlia.
Qed.
Lemma readField_lengthField s rest : short s -> readField (lengthField s ++ rest) = Some (s, rest).
Proof.
  unfold short, readField, lengthField. intros B.
  change (be16dec ((be16 (wrapU 16 (Z.of_nat (String.length s))) ++ bytes_of_string s) ++ rest))
    with (be16dec (be16 (wrapU 16 (Z.of_nat (String.length s))))).
  rewrite be16_roundtrip by (apply Z.mod_pos_bound; done). unfold wrapU. rewrite Z.mod_small, Nat2Z.id by lia.
  simpl length. rewrite length_app, length_bytes. rewrite (proj2 (Nat.ltb_ge _ _)) by lia.
  rewrite (proj2 (Nat.ltb_ge _ _)) by lia. simpl drop. rewrite !skipn_O.
  rewrite <- (length_bytes s), take_app_length, drop_app_length. by rewrite string_bytes_roundtrip.
Qed.

(** The record of a document comes back from its bytes, for names of fewer than
    65536 bytes and at least four bytes together. *)
Lemma doc_info_roundtrip d bkt key versionID n :
  short bkt -> short key -> short versionID -> 0 <= n < 2 ^ 32 ->
  (4 <= String.length bkt + String.length key + String.length versionID)%nat ->
  parseDoc d (docValue bkt key versionID n) = Some (mkDocInfo d bkt key versionID n).
Proof.
  intros B K V N L. unfold parseDoc, docValue.
  rewrite (proj2 (Nat.ltb_ge _ _)).
  2:{ rewrite !length_app. unfold lengthField. rewrite !length_app, !length_bytes. simpl. lia. }
  do 3 (rewrite readField_lengthField by done; cbn [mbind option_bind]). unfold wrapU32, wrapU. rewrite Z.mod_small by done.
  by rewrite be32_roundtrip by done.
Qed.

(** ** Restarts and the bound of the table *)

Section Indexes.
Context `{BoltLaws, RuneTables, FloatMath, Sha256, GoUnicode}.

Definition keysOk (db : bucket bytes) : Prop :=
  forall k v, bGet db k = Some v -> exists d, isU64 d /\ k = docKey d.

Lemma load_spec (l : list (string * bytes)) m0 d v :
  NoDup l.*1 -> Forall (fun x => exists d, isU64 d /\ x.1 = docKey d) l -> (docKey d, v) ∈ l -> isU64 d ->
  foldl loadDoc m0 l !! d
  = match parseDoc d v with Some i => Some i | None => m0 !! d end.
Proof.
  intros N F I D. assert (forall l m, docKey d ∉ l.*1 -> Forall (fun x => exists d, isU64 d /\ x.1 = docKey d) l ->
    foldl loadDoc m l !! d = m !! d) as G.
  { clear. intros l. induction l as [|[k w] l IH]; intros m NI F; [done|]. apply Forall_cons in F as [(d' & D' & E) F].
    simpl in *. subst k. apply not_elem_of_cons in NI as [Ne NI]. rewrite IH by done. unfold loadDoc. simpl. rewrite docKey_roundtrip by done.
    destruct (parseDoc d' w); [|done]. apply lookup_insert_ne. congruence. }
  revert m0. induction l as [|[k w] l IH]; intros m0; [by apply not_elem_of_nil in I|].
  apply NoDup_cons in N as [NI N]. apply Forall_cons in F as [K F]. apply elem_of_cons in I as [[= <- <-]|I].
  - simpl. rewrite G by done. unfold loadDoc. simpl. rewrite docKey_roundtrip by done. destruct (parseDoc d v); [apply lookup_insert_eq|done].
  - simpl. rewrite IH by done. destruct (parseDoc d v); [done|].
    destruct K as (d' & D' & E). simpl in E. subst k. unfold loadDoc. simpl. rewrite docKey_roundtrip by done.
    assert (d' <> d) as Ne. { intros ->. apply NI. apply list_elem_of_fmap. by exists (docKey d, v). }
    destruct (parseDoc d' w); [by apply lookup_insert_ne|done].
Qed.
Lemma forEach_keys (db : bucket bytes) : NoDup (bForEach db).*1.
Proof.
  pose proof (bForEach_sorted _ db) as S. induction S as [|x l S IH F]; [constructor|]. simpl. constructor; [|done].
  intros (y & E & I)%list_elem_of_fmap. rewrite Forall_forall in F. apply F in I. rewrite E, sltb_irrefl in I. done.
Qed.
Lemma reopened_docs db d v : keysOk db -> bGet db (docKey d) = Some v -> isU64 d ->
  GetDocInfo d (NewInvertedIndex db) = parseDoc d v.
Proof.
  intros K G D. unfold GetDocInfo. simpl. unfold loadDocsFromDB. rewrite (load_spec _ _ d v); [by destruct (parseDoc d v)|apply forEach_keys| |by apply bForEach_get|done].
  apply Forall_forall. intros [k w] I%bForEach_get. by eapply K.
Qed.

(** An index that is opened again knows the documents that were added to it,
    and no search finds any of them: posting lists are not written to the
    database. *)
Theorem reopened_index_finds_nothing bkt key versionID text ix ix' :
  AddDocumentWithInfo bkt key versionID text ix = (ix', Ok tt) -> keysOk (ix_db ix) ->
  isU64 (ComputeDocID bkt key versionID) -> short bkt -> short key -> short versionID ->
  (4 <= String.length bkt + String.length key + String.length versionID)%nat ->
  Z.of_nat (length (Tokenize text)) < 2 ^ 32 ->
  let reopened := NewInvertedIndex (ix_db ix') in
  let id := ComputeDocID bkt key versionID in
  GetDocInfo id reopened = Some (mkDocInfo id bkt key versionID (Z.of_nat (length (Tokenize text)))) /\
  forall order query topK, 0 <= topK -> Search order query topK reopened = Ok [].
Proof.
  intros E K U B Ke V L N reopened id. split.
  - unfold AddDocumentWithInfo in E. destruct (ix_closed ix); [done|]. destruct (IsQuotaExceeded ix); [done|].
    cbv zeta in E. match type of E with context [bPut (ix_db ?x) _ _] => set (ix1 := x) in E end.
    assert (ix_db ix1 = ix_db ix) as D1.
    { subst ix1. clear.
      assert (forall x, ix_db (refreshScorer x) = ix_db x) as R by (intros x; unfold refreshScorer; by destruct (sm_GetStats _)).
      assert (forall l x, ix_db (evictLoop l x) = ix_db x) as Ev.
      { intros l. induction l as [|d l IH]; intros x; simpl; [done|]. destruct (_ <=? _); [done|].
        destruct (_ !! _); [by rewrite IH, R|apply IH]. }
      unfold evictExcessDocs. rewrite Ev. unfold indexTokens. by rewrite R. }
    clearbody ix1. destruct (bPut _ _ _) as [db|?|?] eqn:P; [|done..]. injection E as <-. rewrite D1 in P.
    subst reopened. simpl. rewrite (reopened_docs _ _ (docValue bkt key versionID (Z.of_nat (length (Tokenize text))))).
    + apply doc_info_roundtrip; try done. lia.
    + intros k v. rewrite (bGet_put _ _ _ _ _ _ P). destruct (decide _) as [->|]; [|apply K]. intros _. by eexists.
    + by rewrite (bGet_put _ _ _ _ _ _ P), decide_True by done.
    + done.
  - intros order query topK T. unfold Search. simpl. destruct (Tokenize query) as [|t l]; [done|].
    rewrite (proj2 (Z.ltb_ge _ _)) by done.
    assert (docScores (t :: l) reopened = ∅) as ->.
    { unfold docScores. generalize (distinct [] (tok_Term <$> t :: l)). intros ts. induction ts as [|x ts IH]; [done|].
      simpl. exact IH. }
    unfold ranked. replace (omap _ order) with (@nil (Z * float64));
      [change (merge_sort score_le []) with (@nil (Z * float64)); by rewrite take_nil|].
    clear. induction order as [|d order IH]; [done|]. simpl. by rewrite lookup_empty.
Qed.

(** ** The table of documents *)

Definition listed (ix : InvertedIndex) : Prop := forall d, is_Some (ix_docs ix !! d) -> d ∈ ix_evictList ix.
Definition bounded (ix : InvertedIndex) : Prop :=
  listed ix /\ Z.of_nat (size (ix_docs ix)) <= Z.max 0 (ix_maxDocs ix).

Lemma refresh_docs ix : ix_docs (refreshScorer ix) = ix_docs ix /\ ix_evictList (refreshScorer ix) = ix_evictList ix /\
  ix_maxDocs (refreshScorer ix) = ix_maxDocs ix.
Proof. unfold refreshScorer. by destruct (sm_GetStats _). Qed.
Lemma evictLoop_bounded evict ix : (forall d, is_Some (ix_docs ix !! d) -> d ∈ evict) -> bounded (evictLoop evict ix).
Proof.
  revert ix. induction evict as [|x evict IH]; intros ix L; simpl.
  - assert (ix_docs ix = ∅) as E.
    { apply map_empty. intros d. apply eq_None_not_Some. intros I%L. by apply not_elem_of_nil in I. }
    split; [exact L|]. simpl. rewrite E, map_size_empty. lia.
  - destruct (_ <=? _) eqn:Sz; [split; [exact L|simpl; lia]|].
    destruct (ix_docs ix !! x) as [i|] eqn:Lk; apply IH.
    + destruct (refresh_docs (with_docs (delete x (ix_docs ix)) evict
        (with_segments (sm_DeleteDocument x (ix_segments ix)) ix))) as [-> _].
      simpl. intros d [j [N J]%lookup_delete_Some]. destruct (elem_of_cons evict d x) as [C _].
      destruct (C (L d (mk_is_Some _ _ J))); [congruence|done].
    + intros d [j J]. destruct (elem_of_cons evict d x) as [C _].
      destruct (C (L d (mk_is_Some _ _ J))); [congruence|done].
Qed.

Inductive tableOp :=
| TAdd (bkt key versionID text : string)
| TDelete (docID : Z)
| TSetMaxDocs (max : Z)
| TCompact
| TQuota (size : res Z).
Definition applyTable (ix : InvertedIndex) (o : tableOp) : InvertedIndex :=
  match o with
  | TAdd b k v t => (AddDocumentWithInfo b k v t ix).1
  | TDelete d => (DeleteDocument d ix).1
  | TSetMaxDocs n => SetMaxDocs n ix
  | TCompact => runCompaction ix
  | TQuota n => checkDiskQuota n ix
  end.
Lemma bounded_same ix ix' : bounded ix -> ix_docs ix' = ix_docs ix -> ix_evictList ix' = ix_evictList ix ->
  ix_maxDocs ix' = ix_maxDocs ix -> bounded ix'.
Proof. intros [L B] D E M. split; [intros d; rewrite D, E; apply L|by rewrite D, M]. Qed.
Lemma bounded_less ix ix' d : bounded ix -> ix_docs ix' = delete d (ix_docs ix) ->
  ix_evictList ix' = ix_evictList ix -> ix_maxDocs ix' = ix_maxDocs ix -> bounded ix'.
Proof.
  intros [L B] D E M. split.
  - intros x. rewrite D, E. intros [i [_ J]%lookup_delete_Some]. by apply L.
  - rewrite D, M. destruct (ix_docs ix !! d) eqn:J.
    + rewrite map_size_delete, J. simpl. lia.
    + by rewrite delete_id.
Qed.

(** The table of an index that was opened empty never holds more documents
    than its limit, whatever is added, deleted, merged or reconfigured. *)
Theorem index_bounded ops :
  let ix := foldl applyTable (NewInvertedIndex bEmpty) ops in
  Z.of_nat (size (ix_docs ix)) <= Z.max 0 (ix_maxDocs ix).
Proof.
  intros ix. assert (bounded ix) as [_ B]; [|exact B]. subst ix.
  induction ops as [|o ops IH] using rev_ind.
  - assert (bForEach (bEmpty (V := bytes)) = []) as E.
    { destruct (bForEach bEmpty) as [|[k v] l] eqn:E; [done|].
      assert ((k, v) ∈ bForEach (bEmpty (V := bytes))) as I by (rewrite E; apply elem_of_cons; by left).
      apply bForEach_get in I. by rewrite bGet_empty in I. }
    unfold bounded, listed. simpl. unfold loadDocsFromDB. rewrite E. simpl. split; [|rewrite map_size_empty; lia].
    intros d [i I]. by rewrite lookup_empty in I.
  - rewrite foldl_app. simpl. set (ix := foldl _ _ _) in *. clearbody ix. destruct o; simpl.
    + unfold AddDocumentWithInfo. destruct (ix_closed ix); [done|]. destruct (IsQuotaExceeded ix); [done|].
      match goal with |- context [evictExcessDocs ?x] => assert (bounded (evictExcessDocs x)) as Bd end.
      { apply evictLoop_bounded. intros d. unfold indexTokens.
        match goal with |- context [refreshScorer ?x] => destruct (refresh_docs x) as (-> & -> & _) end.
        simpl. intros [i [[<- _]|[_ J]]%lookup_insert_Some]; apply elem_of_app; [right; by apply list_elem_of_singleton|].
        left. by apply IH. }
      cbv zeta. destruct (bPut _ _ _); exact Bd.
    + unfold DeleteDocument. destruct (ix_closed ix); [done|]. cbv zeta.
      destruct (bDelete _ _); cbn [fst]; [|by eapply bounded_less; [exact IH|..]..].
      match goal with |- context [refreshScorer ?x] => destruct (refresh_docs x) as (R1 & R2 & R3) end.
      eapply bounded_less; [exact IH|by rewrite R1|by rewrite R2|by rewrite R3].
    + apply evictLoop_bounded. simpl. apply IH.
    + unfold runCompaction. destruct (_ <=? _)%nat; [done|]. unfold updateTermStats.
      match goal with |- context [refreshScorer ?x] => destruct (refresh_docs x) as (R1 & R2 & R3) end.
      by eapply bounded_same; [exact IH|..].
    + unfold checkDiskQuota. destruct size; [by eapply bounded_same; [exact IH|..]|done..].
Qed.
End Indexes.

(** ** Concrete runs *)

Module FtsDemo.
Import MapBolt AsciiOnly.
#[export] Instance asciiRunes : RuneTables :=
  {| rune_IsLetter _ := false; rune_IsDigit _ := false; rune_ToLower r := r |}.
(** Only the order of scores matters below. *)
#[export] Instance anyLog : FloatMath := {| math_Log x := x |}.
#[export] Instance toySha : Sha256 := {| sha256_Sum256 b := (b ++ zeros 32) |}.

Definition postings3 : list Posting :=
  [mkPosting (2 ^ 64 - 1) 2 [0; 7]; mkPosting 5 1 [300]; mkPosting 5 (-1) [int64_max; int64_min]].
Lemma postings_roundtrip_witness :
  DecodePostings (EncodePostings postings3) = Ok postings3 /\ length (EncodePostings postings3) = 41%nat.
Proof.
  split; [|by vm_compute]. apply postings_roundtrip. unfold postings3.
  assert (forall n l, Forall in_int64 l -> (length l <= 2)%nat -> isU64 n -> forall t, in_int64 t ->
    postingOk (mkPosting n t l)) as P.
  { intros n l F L U t T. split; [done|]. split; [done|]. split; [done|]. simpl. unfold maxInts. lia. }
  assert (forall x, int64_min <= x <= int64_max -> in_int64 x) as I by done. unfold int64_min, int64_max in I.
  apply Forall_cons_2; [|apply Forall_cons_2; [|apply Forall_cons_2; [|constructor]]].
  all: apply P; [repeat (apply Forall_cons_2; [apply I; unfold int64_min, int64_max; lia|]); constructor
                |simpl; lia|unfold isU64; lia|apply I; lia].
Defined.

Example stems :
  porterStem <$> ["caresses"; "ponies"; "agreed"; "hopping"; "relational"; "electricity"; "sky"]%string
  = ["caress"; "poni"; "agre"; "hop"; "relat"; "electr"; "sky"]%string.
Proof. by vm_compute. Qed.
Example tokens : Tokenize "The quick foxes were running"
  = [mkToken "quick" 0; mkToken "fox" 1; mkToken "run" 2].
Proof. by vm_compute. Qed.

Definition index1 : InvertedIndex := (AddDocumentWithInfo "bkt" "a" "v1" "a quick fox" (NewInvertedIndex bEmpty)).1.
Definition index2 : InvertedIndex := (AddDocumentWithInfo "bkt" "b" "v1" "the fox and the foxes" index1).1.
Definition found (order : list Z) (query : string) (ix : InvertedIndex) : list string :=
  match Search order query 10 ix with Ok l => sr_Key <$> l | _ => [] end.
Definition ids : list Z := [ComputeDocID "bkt" "a" "v1"; ComputeDocID "bkt" "b" "v1"].
Example searching : (found ids "foxes" index2, found ids "quickly quick" index2, found ids "the" index2)
  = (["b"; "a"], ["a"], [])%string.
Proof. by vm_compute. Qed.

Lemma reopened_index_finds_nothing_witness :
  found ids "fox" index1 = ["a"%string] /\
  GetDocInfo (ComputeDocID "bkt" "a" "v1") (NewInvertedIndex (ix_db index1))
    = Some (mkDocInfo (ComputeDocID "bkt" "a" "v1") "bkt" "a" "v1" 2) /\
  Search ids "fox" 10 (NewInvertedIndex (ix_db index1)) = Ok [].
Proof.
  split; [by vm_compute|].
  destruct (reopened_index_finds_nothing "bkt" "a" "v1" "a quick fox" (NewInvertedIndex bEmpty) index1) as [D F].
  - unfold index1. by vm_compute.
  - intros k v E. simpl in E. by rewrite lookup_empty in E.
  - by vm_compute.
  - by vm_compute.
  - by vm_compute.
  - by vm_compute.
  - simpl. lia.
  - by vm_compute.
  - split; [exact D|by apply F].
Defined.

Definition tableOps : list tableOp :=
  [TAdd "bkt" "a" "v1" "one"; TAdd "bkt" "b" "v1" "two"; TSetMaxDocs 1; TAdd "bkt" "c" "v1" "three"; TCompact].
Lemma index_bounded_witness :
  (size (ix_docs (foldl applyTable (NewInvertedIndex bEmpty) tableOps)),
   ix_maxDocs (foldl applyTable (NewInvertedIndex bEmpty) tableOps)) = (1%nat, 1) /\
  Z.of_nat (size (ix_docs (foldl applyTable (NewInvertedIndex bEmpty) tableOps)))
    <= Z.max 0 (ix_maxDocs (foldl applyTable (NewInvertedIndex bEmpty) tableOps)).
Proof. split; [vm_compute; reflexivity|]. exact (index_bounded tableOps). Defined.

(** "em" also stands in the marks of the term before it. *)
Example marks_are_marked :
  HighlightTerms 100 "fox them" [mkToken "fox" 0; mkToken "em" 1]
  = Some (Ok "<<em>em</em>>fox</<em>em</em>> th<em>em</em>"%string).
Proof. by vm_compute. Qed.

(** A document that only the vector search returns, though it is indexed, is
    listed twice. *)
Example hybrid_lists_twice :
  (match HybridSearch [] (ids ++ [ComputeDocID "bkt" "a" "vector"]) "zebra" 10 DefaultHybridWeights
           [mkVector "bkt" "a" (fofZ 1)] index2 with
   | Ok l => (fun h => (hr_Bucket h, hr_Key h)) <$> l | _ => [] end)
  = [("bkt", "a"); ("bkt", "a")]%string.
Proof. by vm_compute. Qed.

(** Three segments, two documents: deleting one that is not there leaves a count
    of minus one. *)
Example count_drifts :
  let sm := sm_AddDocument 2 [] (sm_AddDocument 1 [] (NewSegmentManager 1 10)) in
  ((sm_GetStats sm).1, (sm_GetStats (sm_DeleteDocument 9 sm)).1) = (2, -1).
Proof. by vm_compute. Qed.

(** A document that is added again is found twice. *)
Example added_twice : (length (sm_Search "fox" (ix_segments (AddDocumentWithInfo "bkt" "a" "v1" "fox" index1).1))) = 2%nat.
Proof. by vm_compute. Qed.
End FtsDemo.
