(* ===== verification/Events.v ===== *)
(** * Storage events (internal/events)

    Notification rules, the sender of webhooks with its check of addresses, the
    queue of failed deliveries, and the bus: publishers, a dispatcher, workers
    chosen by the hash of an object's key, the loop of retries, and the
    shutdown, as a step function over their channels.  A channel is the list of
    what is in it; a step is disabled where Go would block.  A choice of
    [select] is a choice of step.  DNS answers, the exchange with a webhook,
    writes to disk, clocks and UUIDs are inputs of the steps. *)

From S2P Require Import Prelude GoStrings CryptoLib PluginTrust PluginNet.
From Stdlib Require Import Ascii String.
From stdpp Require Import base list strings gmap.

#[local] Open Scope Z_scope.

(** ** Rules (rule.go) *)

Record Event := mkEvent {
  ev_EventID : string; ev_EventType : string; ev_Bucket : string; ev_Key : string; ev_VersionID : string;
  ev_ETag : string; ev_Size : Z; ev_Timestamp : Time; ev_RequesterARN : string; ev_SourceIP : string }.
Record SigningConfig := mkSigning { sg_Algorithm : string; sg_Secret : string }.
Record DestinationConfig := mkDestination { dc_Type : string; dc_URL : string; dc_Signing : option SigningConfig }.
Record NotificationRule := mkRule {
  nr_ID : string; nr_Events : list string; nr_Prefix : string; nr_Suffix : string;
  nr_Destination : DestinationConfig }.

Definition matchEventTypePattern (pattern eventType : string) : bool :=
  if bool_decide (pattern = eventType) then true
  else if HasSuffix pattern ":*"
  then HasPrefix eventType (stake (String.length pattern - 1) pattern)
  else false.
Definition matchEventType (eventType : string) (r : NotificationRule) : bool :=
  existsb (fun pattern => matchEventTypePattern pattern eventType) (nr_Events r).
Definition Matches (e : Event) (r : NotificationRule) : bool :=
  if negb (matchEventType (ev_EventType e) r) then false
  else if bool_decide (nr_Prefix r <> ""%string) && negb (HasPrefix (ev_Key e) (nr_Prefix r)) then false
  else if bool_decide (nr_Suffix r <> ""%string) && negb (HasSuffix (ev_Key e) (nr_Suffix r)) then false
  else true.

(** ** Webhooks (webhook.go) *)

(** An IP address of the net package: 4 or 16 bytes. *)
Definition IP := list Z.
Definition v4InV6Prefix : list Z := [0; 0; 0; 0; 0; 0; 0; 0; 0; 0; 255; 255].
Definition To4 (ip : IP) : option IP :=
  if (length ip =? 4)%nat then Some ip
  else if (length ip =? 16)%nat && bool_decide (take 12 ip = v4InV6Prefix) then Some (drop 12 ip) else None.
Definition octet (n : nat) (ip : IP) : Z := nth n ip 0.
Definition IPv6loopback : IP := repeat 0 15 ++ [1].
Definition IsLoopback (ip : IP) : bool :=
  match To4 ip with Some ip4 => octet 0 ip4 =? 127 | None => bool_decide (ip = IPv6loopback) end.
Definition IsLinkLocalUnicast (ip : IP) : bool :=
  match To4 ip with
  | Some ip4 => (octet 0 ip4 =? 169) && (octet 1 ip4 =? 254)
  | None => (length ip =? 16)%nat && (octet 0 ip =? 254) && (Z.land (octet 1 ip) 192 =? 128)
  end.
Definition IsLinkLocalMulticast (ip : IP) : bool :=
  match To4 ip with
  | Some ip4 => (octet 0 ip4 =? 224) && (octet 1 ip4 =? 0) && (octet 2 ip4 =? 0)
  | None => (length ip =? 16)%nat && (octet 0 ip =? 255) && (Z.land (octet 1 ip) 15 =? 2)
  end.
Definition IsPrivate (ip : IP) : bool :=
  match To4 ip with
  | Some ip4 => (octet 0 ip4 =? 10) || ((octet 0 ip4 =? 172) && (Z.land (octet 1 ip4) 240 =? 16)) ||
                ((octet 0 ip4 =? 192) && (octet 1 ip4 =? 168))
  | None => (length ip =? 16)%nat && (Z.land (octet 0 ip) 254 =? 252)
  end.
Definition IsUnspecified (ip : IP) : bool :=
  match To4 ip with Some ip4 => bool_decide (ip4 = repeat 0 4) | None => bool_decide (ip = repeat 0 16) end.
Definition isPrivateIP (ip : IP) : bool :=
  IsLoopback ip || IsLinkLocalUnicast ip || IsLinkLocalMulticast ip || IsPrivate ip || IsUnspecified ip.

(** [json.Marshal] of an event, http.NewRequest's check of a URL, and the text
    of an address. *)
Class EventLib := {
  event_Marshal : Event -> res bytes;
  http_NewRequest : string -> res unit;
  ip_String : IP -> string;
}.

Section Webhooks.
Context `{CryptoLib, UrlLib, EventLib}.

(** [lookup] is what net.LookupIP answers. *)
Definition validateWebhookURL (lookup : string -> res (list IP)) (rawURL : string) : res unit :=
  if bool_decide (rawURL = ""%string) then Err "URL is empty"
  else
    parsed ← wrapErr "invalid URL" (url_Parse rawURL);
    if negb (bool_decide (u_Scheme parsed = "http"%string)) && negb (bool_decide (u_Scheme parsed = "https"%string))
    then Err ("invalid scheme " +:+ u_Scheme parsed +:+ ": only http and https are allowed")
    else if bool_decide (u_Hostname parsed = ""%string) then Err "URL has no host"
    else
      ips ← wrapErr ("failed to resolve hostname " +:+ u_Hostname parsed) (lookup (u_Hostname parsed));
      match filter (fun ip => isPrivateIP ip = true) ips with
      | [] => Ok tt
      | ip :: _ => Err ("webhook URL resolves to private/internal IP " +:+ ip_String ip +:+ " (SSRF protection)")
      end.

Definition signPayload (payload : bytes) (secret : string) : string :=
  hexEncode (hmac_sha256 (bytes_of_string secret) payload).
Definition VerifySignature (payload : bytes) (secret signature : string) : bool :=
  bool_decide (signPayload payload secret = signature).

Record DeliveryResult := mkDelivery {
  dr_DeliveryID : string; dr_StatusCode : Z; dr_Retryable : bool; dr_Success : bool; dr_Error : option string }.
Record WebhookRequest := mkWebhook { wr_URL : string; wr_Headers : list (string * string); wr_Body : bytes }.

(** [Send] up to the exchange: the result of a call that is not made, or the
    request. *)
Definition prepare (ssrfBypass : bool) (lookup : string -> res (list IP)) (deliveryID : string) (e : Event)
    (dest : DestinationConfig) : DeliveryResult + WebhookRequest :=
  let refuse ctx err := inl (mkDelivery deliveryID 0 false false (Some (ctx +:+ ": " +:+ err)%string)) in
  match (if ssrfBypass then Ok tt else validateWebhookURL lookup (dc_URL dest)) with
  | Err x | Panic x => refuse "webhook URL validation failed"%string x
  | Ok _ =>
    match event_Marshal e with
    | Err x | Panic x => refuse "failed to marshal event"%string x
    | Ok payload =>
      match http_NewRequest (dc_URL dest) with
      | Err x | Panic x => refuse "failed to create request"%string x
      | Ok _ =>
        let signature := match dc_Signing dest with
                         | Some s => if bool_decide (sg_Secret s = ""%string) then []
                                     else [("X-CipherLake-Signature", signPayload payload (sg_Secret s))%string]
                         | None => [] end in
        inr (mkWebhook (dc_URL dest)
               ([("Content-Type", "application/json"); ("X-CipherLake-Delivery", deliveryID);
                 ("X-CipherLake-Event-Type", ev_EventType e)]%string ++ signature) payload)
      end
    end
  end.
Definition conclude (deliveryID : string) (status : res Z) : DeliveryResult :=
  match status with
  | Err x | Panic x => mkDelivery deliveryID 0 true false (Some ("request failed: " +:+ x)%string)
  | Ok code =>
    let success := (200 <=? code) && (code <? 300) in
    mkDelivery deliveryID code (negb success && ((500 <=? code) || (code =? 429))) success None
  end.
Definition Send (ssrfBypass : bool) (lookup : string -> res (list IP)) (deliveryID : string)
    (exchange : WebhookRequest -> res Z) (e : Event) (dest : DestinationConfig) : DeliveryResult :=
  match prepare ssrfBypass lookup deliveryID e dest with
  | inl r => r
  | inr req => conclude deliveryID (exchange req)
  end.
End Webhooks.

(** ** Failed deliveries (deadletter.go) *)

Record DeadLetterEntry := mkEntry {
  dl_ID : string; dl_Event : Event; dl_Rule : NotificationRule; dl_Attempts : Z; dl_LastAttempt : Time;
  dl_LastError : string; dl_CreatedAt : Time }.
Inductive retryState :=
| RetryIdle
| RetryWaiting (entry : DeadLetterEntry)
| RetryExited.
Record Metrics := mkMetrics {
  mt_DeadLetter : Z; mt_Failed : Z; mt_Success : Z; mt_Retry : Z }.
Definition countDeadLetter (m : Metrics) := mkMetrics (mt_DeadLetter m + 1) (mt_Failed m) (mt_Success m) (mt_Retry m).
Definition countFailed (m : Metrics) := mkMetrics (mt_DeadLetter m) (mt_Failed m + 1) (mt_Success m) (mt_Retry m).
Definition countSuccess (m : Metrics) := mkMetrics (mt_DeadLetter m) (mt_Failed m) (mt_Success m + 1) (mt_Retry m).
Definition countRetry (m : Metrics) := mkMetrics (mt_DeadLetter m) (mt_Failed m) (mt_Success m) (mt_Retry m + 1).

(** [dq_disk] has the entries whose file was written, [dq_lost] those whose file
    could not be, and the one that waits when the loop stops. *)
Record DeadLetterQueue := mkDLQ {
  dq_maxRetries : Z; dq_retryBaseMS : Z; dq_retryCh : list DeadLetterEntry; dq_loop : retryState;
  dq_disk : list DeadLetterEntry; dq_lost : list DeadLetterEntry }.
Definition NewDeadLetterQueue (maxRetries retryBaseMS : Z) : DeadLetterQueue :=
  mkDLQ (if maxRetries <=? 0 then 3 else maxRetries) (if retryBaseMS <=? 0 then 1000 else retryBaseMS) []
    RetryIdle [] [].

(** What [Enqueue] takes from outside: the UUID, the clock, and whether the file
    can be written. *)
Record EnqueueEnv := mkEnqueueEnv { ee_id : string; ee_now : Time; ee_disk : res unit }.
Definition writeToDisk (disk : res unit) (entry : DeadLetterEntry) (q : DeadLetterQueue) : DeadLetterQueue :=
  match disk with
  | Ok _ => mkDLQ (dq_maxRetries q) (dq_retryBaseMS q) (dq_retryCh q) (dq_loop q) (dq_disk q ++ [entry]) (dq_lost q)
  | _ => mkDLQ (dq_maxRetries q) (dq_retryBaseMS q) (dq_retryCh q) (dq_loop q) (dq_disk q) (dq_lost q ++ [entry])
  end.
Definition retryChCap : nat := 1000.
Definition dlq_Enqueue (env : EnqueueEnv) (e : Event) (rule : NotificationRule) (attempts : Z) (lastError : string)
    (q : DeadLetterQueue) (m : Metrics) : DeadLetterQueue * Metrics :=
  let entry := mkEntry (ee_id env) e rule attempts (ee_now env) lastError (ee_now env) in
  if (attempts <? dq_maxRetries q) && (length (dq_retryCh q) <? retryChCap)%nat
  then (mkDLQ (dq_maxRetries q) (dq_retryBaseMS q) (dq_retryCh q ++ [entry]) (dq_loop q) (dq_disk q) (dq_lost q), m)
  else (writeToDisk (ee_disk env) entry q, countDeadLetter m).

(** The wait before a retry: doubled per attempt in 64 bits, then capped. *)
Fixpoint doubled (n : nat) (d : Duration) : Duration :=
  match n with O => d | S n => doubled n (wrap64 (d * 2)) end.
Definition backoff (q : DeadLetterQueue) (entry : DeadLetterEntry) : Duration :=
  let d := doubled (Z.to_nat (dl_Attempts entry)) (wrap64 (dq_retryBaseMS q * Millisecond)) in
  if 16 * Second <? d then 16 * Second else d.

Definition set_loop (l : retryState) (q : DeadLetterQueue) : DeadLetterQueue :=
  mkDLQ (dq_maxRetries q) (dq_retryBaseMS q) (dq_retryCh q) l (dq_disk q) (dq_lost q).
(** The loop takes an entry and starts the timer. *)
Definition retryTake (q : DeadLetterQueue) : option DeadLetterQueue :=
  match dq_loop q, dq_retryCh q with
  | RetryIdle, entry :: rest =>
    Some (mkDLQ (dq_maxRetries q) (dq_retryBaseMS q) rest (RetryWaiting entry) (dq_disk q) (dq_lost q))
  | _, _ => None
  end.
(** The timer has fired and the call has ended with [result]. *)
Definition retryError (result : DeliveryResult) : string :=
  let errMsg := default "delivery failed"%string (dr_Error result) in
  if 0 <? dr_StatusCode result then ("HTTP " +:+ pretty (dr_StatusCode result) +:+ ": " +:+ errMsg)%string else errMsg.
Definition retryFire (env : EnqueueEnv) (result : DeliveryResult) (q : DeadLetterQueue) (m : Metrics)
  : option (DeadLetterQueue * Metrics) :=
  match dq_loop q with
  | RetryWaiting entry =>
    let q := set_loop RetryIdle q in
    Some (if dr_Success result then (q, countSuccess m)
          else dlq_Enqueue env (dl_Event entry) (dl_Rule entry) (dl_Attempts entry + 1) (retryError result) q
                 (countRetry m))
  | _ => None
  end.
(** [Stop], once the loop has seen it; the entry it waits with is gone. *)
Definition dlq_Stop (q : DeadLetterQueue) : DeadLetterQueue :=
  match dq_loop q with
  | RetryWaiting entry =>
    mkDLQ (dq_maxRetries q) (dq_retryBaseMS q) (dq_retryCh q) RetryExited (dq_disk q) (dq_lost q ++ [entry])
  | _ => set_loop RetryExited q
  end.

(** ** The bus (bus.go) *)

Definition delivery : Type := Event * list NotificationRule.
Record eventWorker := mkWorker { wk_ch : list delivery; wk_current : option delivery; wk_stopped : bool }.
Definition newEventWorker : eventWorker := mkWorker [] None false.
Definition workerChCap : nat := 256.
Definition eventChCap : nat := 4096.

(** The dispatcher between events; with an event it cannot yet hand to its
    worker; after it has seen the stop; and gone. *)
Inductive dispatcherState :=
| Dispatching (blocked : option delivery)
| DrainingEvents (blocked : option delivery)
| DispatcherExited.
(** How far [Stop] has come. *)
Inductive stopState := NotStopping | AwaitDispatcher | AwaitDrain | StoppingWorkers (i : nat) | BusStopped.
#[export] Instance stopState_dec : EqDecision stopState.
Proof. solve_decision. Defined.

Inductive outcome := Delivered | DeliveryFailed | Unsupported.
#[export] Instance outcome_dec : EqDecision outcome.
Proof. solve_decision. Defined.
(** A first attempt at a rule of an event. *)
Record attempt := mkAttempt { at_Event : Event; at_Rule : NotificationRule; at_Outcome : outcome }.

(** [bus_accepted], [bus_routed], [bus_first] and [bus_retried] are history: the
    events taken into the channel, the events dispatched with the rules that
    matched, what the workers did and which retries succeeded.  No operation
    reads them. *)
Record EventBus := mkBus {
  bus_subscriptions : gmap string (list NotificationRule); bus_callbacks : list (string * Z);
  bus_numWorkers : Z; bus_eventCh : list Event; bus_workers : list eventWorker;
  bus_dispatcher : dispatcherState; bus_stop : stopState; bus_dlq : DeadLetterQueue; bus_metrics : Metrics;
  bus_accepted : list Event; bus_routed : list delivery; bus_first : list attempt;
  bus_retried : list DeadLetterEntry }.
Definition NewEventBus (numWorkers maxRetries retryBaseMS : Z) : EventBus :=
  let n := if numWorkers <=? 0 then 16 else numWorkers in
  mkBus ∅ [] n [] (repeat newEventWorker (Z.to_nat n)) (Dispatching None) NotStopping
    (NewDeadLetterQueue maxRetries retryBaseMS) (mkMetrics 0 0 0 0) [] [] [] [].

Definition set_subs x b := mkBus x (bus_callbacks b) (bus_numWorkers b) (bus_eventCh b) (bus_workers b)
  (bus_dispatcher b) (bus_stop b) (bus_dlq b) (bus_metrics b) (bus_accepted b) (bus_routed b) (bus_first b) (bus_retried b).
Definition set_callbacks x b := mkBus (bus_subscriptions b) x (bus_numWorkers b) (bus_eventCh b) (bus_workers b)
  (bus_dispatcher b) (bus_stop b) (bus_dlq b) (bus_metrics b) (bus_accepted b) (bus_routed b) (bus_first b) (bus_retried b).
Definition set_eventCh x acc b := mkBus (bus_subscriptions b) (bus_callbacks b) (bus_numWorkers b) x (bus_workers b)
  (bus_dispatcher b) (bus_stop b) (bus_dlq b) (bus_metrics b) acc (bus_routed b) (bus_first b) (bus_retried b).
Definition set_workers x b := mkBus (bus_subscriptions b) (bus_callbacks b) (bus_numWorkers b) (bus_eventCh b) x
  (bus_dispatcher b) (bus_stop b) (bus_dlq b) (bus_metrics b) (bus_accepted b) (bus_routed b) (bus_first b) (bus_retried b).
Definition set_dispatcher x b := mkBus (bus_subscriptions b) (bus_callbacks b) (bus_numWorkers b) (bus_eventCh b)
  (bus_workers b) x (bus_stop b) (bus_dlq b) (bus_metrics b) (bus_accepted b) (bus_routed b) (bus_first b) (bus_retried b).
Definition set_stop x b := mkBus (bus_subscriptions b) (bus_callbacks b) (bus_numWorkers b) (bus_eventCh b)
  (bus_workers b) (bus_dispatcher b) x (bus_dlq b) (bus_metrics b) (bus_accepted b) (bus_routed b) (bus_first b) (bus_retried b).
Definition set_dlq q m b := mkBus (bus_subscriptions b) (bus_callbacks b) (bus_numWorkers b) (bus_eventCh b)
  (bus_workers b) (bus_dispatcher b) (bus_stop b) q m (bus_accepted b) (bus_routed b) (bus_first b) (bus_retried b).
Definition add_routed d b := mkBus (bus_subscriptions b) (bus_callbacks b) (bus_numWorkers b) (bus_eventCh b)
  (bus_workers b) (bus_dispatcher b) (bus_stop b) (bus_dlq b) (bus_metrics b) (bus_accepted b) (bus_routed b ++ [d])
  (bus_first b) (bus_retried b).
Definition add_first a b := mkBus (bus_subscriptions b) (bus_callbacks b) (bus_numWorkers b) (bus_eventCh b)
  (bus_workers b) (bus_dispatcher b) (bus_stop b) (bus_dlq b) (bus_metrics b) (bus_accepted b) (bus_routed b)
  (bus_first b ++ [a]) (bus_retried b).
Definition add_retried x b := mkBus (bus_subscriptions b) (bus_callbacks b) (bus_numWorkers b) (bus_eventCh b)
  (bus_workers b) (bus_dispatcher b) (bus_stop b) (bus_dlq b) (bus_metrics b) (bus_accepted b) (bus_routed b)
  (bus_first b) (bus_retried b ++ [x]).

Definition Subscribe (bkt : string) (rule : NotificationRule) (b : EventBus) : EventBus :=
  set_subs (<[bkt := default [] (bus_subscriptions b !! bkt) ++ [rule]]> (bus_subscriptions b)) b.
Definition Unsubscribe (bkt ruleID : string) (b : EventBus) : EventBus :=
  match bus_subscriptions b !! bkt with
  | None => b
  | Some subs => set_subs (<[bkt := filter (fun r => nr_ID r <> ruleID) subs]> (bus_subscriptions b)) b
  end.
Definition SubscribeCallback (bkt : string) (fn : Z) (b : EventBus) : EventBus :=
  set_callbacks (bus_callbacks b ++ [(bkt, fn)]) b.

(** FNV-1a. *)
Definition fnv32a (key : string) : Z :=
  foldl (fun h c => wrapU32 (Z.lxor h c * 16777619)) 2166136261 (bytes_of_string key).
Definition keyToWorker (key : string) (b : EventBus) : Z := fnv32a key mod bus_numWorkers b.

(** [starFirst]: the order in which Go walks the two entries of the map. *)
Definition getMatchingRules (starFirst : bool) (e : Event) (b : EventBus) : list NotificationRule :=
  let rulesOf bkt := filter (fun r => Matches e r = true) (default [] (bus_subscriptions b !! bkt)) in
  if bool_decide (ev_Bucket e = "*"%string) then rulesOf "*"%string
  else if starFirst then rulesOf "*"%string ++ rulesOf (ev_Bucket e)
  else rulesOf (ev_Bucket e) ++ rulesOf "*"%string.
(** The callbacks that [invokeCallbacks] calls. *)
Definition invokedCallbacks (e : Event) (b : EventBus) : list Z :=
  snd <$> filter (fun cb => cb.1 = "*"%string \/ cb.1 = ev_Bucket e) (bus_callbacks b).

Definition stamped (id : string) (now : Time) (e : Event) : Event :=
  mkEvent (if bool_decide (ev_EventID e = ""%string) then id else ev_EventID e) (ev_EventType e) (ev_Bucket e)
    (ev_Key e) (ev_VersionID e) (ev_ETag e) (ev_Size e)
    (if IsZero (ev_Timestamp e) then now else ev_Timestamp e) (ev_RequesterARN e) (ev_SourceIP e).

Inductive busStep :=
| Subscribes (bkt : string) (rule : NotificationRule)
| Unsubscribes (bkt ruleID : string)
| PublishAccepted (id : string) (now : Time) (e : Event)
| Dispatch (starFirst : bool)
| EnqueueBlocked
| DispatcherSeesStop
| DispatcherExits
| WorkerTakes (w : nat)
| WorkerDelivers (w : nat) (result : DeliveryResult) (env : EnqueueEnv)
| RetryTakes
| RetryFires (result : DeliveryResult) (env : EnqueueEnv)
| StopCalled
| StopSeesDispatcher
| StopSeesDrain (timeout : bool)
| StopWorker
| StopDLQ.

(** What the wait group of events in flight counts. *)
Definition blockedOf (d : dispatcherState) : list delivery :=
  match d with Dispatching (Some x) | DrainingEvents (Some x) => [x] | _ => [] end.
Definition inFlight (b : EventBus) : nat :=
  (length (bus_eventCh b) + length (blockedOf (bus_dispatcher b)) +
   sum_list ((fun w => length (wk_ch w) + length (option_list (wk_current w)))%nat <$> bus_workers b))%nat.

(** [dispatch]: an event without rules is done, another waits for its worker. *)
Definition dispatched (starFirst : bool) (wrap : option delivery -> dispatcherState) (b : EventBus) : option EventBus :=
  match bus_eventCh b with
  | [] => None
  | e :: rest =>
    let rules := getMatchingRules starFirst e b in
    let b := add_routed (e, rules) (set_eventCh rest (bus_accepted b) b) in
    Some (set_dispatcher (wrap match rules with [] => None | _ => Some (e, rules) end) b)
  end.
Definition enqueued (d : delivery) (wrap : option delivery -> dispatcherState) (b : EventBus) : option EventBus :=
  let i := Z.to_nat (keyToWorker (ev_Key d.1) b) in
  w ← bus_workers b !! i;
  if (length (wk_ch w) <? workerChCap)%nat
  then Some (set_dispatcher (wrap None)
              (set_workers (<[i := mkWorker (wk_ch w ++ [d]) (wk_current w) (wk_stopped w)]> (bus_workers b)) b))
  else None.
(** One rule of the current delivery; the delivery is over with its last rule. *)
Definition delivered (i : nat) (w : eventWorker) (e : Event) (rule : NotificationRule) (rest : list NotificationRule)
    (result : DeliveryResult) (env : EnqueueEnv) (b : EventBus) : EventBus :=
  let w := mkWorker (wk_ch w) (match rest with [] => None | _ => Some (e, rest) end) (wk_stopped w) in
  let b := set_workers (<[i := w]> (bus_workers b)) b in
  if bool_decide (dc_Type (nr_Destination rule) = "webhook"%string) then
    if dr_Success result
    then add_first (mkAttempt e rule Delivered) (set_dlq (bus_dlq b) (countSuccess (bus_metrics b)) b)
    else
      let '(q, m) := dlq_Enqueue env e rule 1 (default ""%string (dr_Error result)) (bus_dlq b)
                       (countFailed (bus_metrics b)) in
      add_first (mkAttempt e rule DeliveryFailed) (set_dlq q m b)
  else add_first (mkAttempt e rule Unsupported) (set_dlq (bus_dlq b) (countFailed (bus_metrics b)) b).

Definition step (s : busStep) (b : EventBus) : option EventBus :=
  match s with
  | Subscribes bkt rule => Some (Subscribe bkt rule b)
  | Unsubscribes bkt ruleID => Some (Unsubscribe bkt ruleID b)
  | PublishAccepted id now e =>
    if (length (bus_eventCh b) <? eventChCap)%nat
    then let e := stamped id now e in Some (set_eventCh (bus_eventCh b ++ [e]) (bus_accepted b ++ [e]) b)
    else None
  | Dispatch starFirst =>
    match bus_dispatcher b with
    | Dispatching None => dispatched starFirst Dispatching b
    | DrainingEvents None => dispatched starFirst DrainingEvents b
    | _ => None
    end
  | EnqueueBlocked =>
    match bus_dispatcher b with
    | Dispatching (Some d) => enqueued d Dispatching b
    | DrainingEvents (Some d) => enqueued d DrainingEvents b
    | _ => None
    end
  | DispatcherSeesStop =>
    match bus_dispatcher b with
    | Dispatching None => if decide (bus_stop b = NotStopping) then None
                          else Some (set_dispatcher (DrainingEvents None) b)
    | _ => None
    end
  | DispatcherExits =>
    match bus_dispatcher b, bus_eventCh b with
    | DrainingEvents None, [] => Some (set_dispatcher DispatcherExited b)
    | _, _ => None
    end
  | WorkerTakes i =>
    w ← bus_workers b !! i;
    match wk_ch w, wk_current w, wk_stopped w with
    | d :: rest, None, false => Some (set_workers (<[i := mkWorker rest (Some d) false]> (bus_workers b)) b)
    | _, _, _ => None
    end
  | WorkerDelivers i result env =>
    w ← bus_workers b !! i;
    match wk_current w with
    | Some (e, rule :: rest) => Some (delivered i w e rule rest result env b)
    | _ => None
    end
  | RetryTakes => q ← retryTake (bus_dlq b); Some (set_dlq q (bus_metrics b) b)
  | RetryFires result env =>
    match dq_loop (bus_dlq b) with
    | RetryWaiting entry =>
      '(q, m) ← retryFire env result (bus_dlq b) (bus_metrics b);
      let b := set_dlq q m b in
      Some (if dr_Success result then add_retried entry b else b)
    | _ => None
    end
  | StopCalled => if decide (bus_stop b = NotStopping) then Some (set_stop AwaitDispatcher b) else None
  | StopSeesDispatcher =>
    match bus_stop b, bus_dispatcher b with
    | AwaitDispatcher, DispatcherExited => Some (set_stop AwaitDrain b)
    | _, _ => None
    end
  | StopSeesDrain timeout =>
    match bus_stop b with
    | AwaitDrain => if timeout || (inFlight b =? 0)%nat then Some (set_stop (StoppingWorkers 0) b) else None
    | _ => None
    end
  | StopWorker =>
    match bus_stop b with
    | StoppingWorkers i =>
      w ← bus_workers b !! i;
      match wk_current w with
      | None => Some (set_stop (StoppingWorkers (S i))
                       (set_workers (<[i := mkWorker (wk_ch w) None true]> (bus_workers b)) b))
      | Some _ => None
      end
    | _ => None
    end
  | StopDLQ =>
    match bus_stop b with
    | StoppingWorkers i => if (i =? length (bus_workers b))%nat
                           then Some (set_stop BusStopped (set_dlq (dlq_Stop (bus_dlq b)) (bus_metrics b) b))
                           else None
    | _ => None
    end
  end.
Fixpoint runBus (l : list busStep) (b : EventBus) : option EventBus :=
  match l with [] => Some b | s :: l => b ← step s b; runBus l b end.
