(* ===== verification/EventsTheorems.v ===== *)
(** * Storage events: order, conservation, addresses

    Under every interleaving the first deliveries for a key follow the order of
    publication, and every rule of a dispatched event is delivered, on its way,
    to be retried, on disk, or lost in one of two ways; webhooks never call an
    address that the check refuses. *)

From S2P Require Import Prelude GoStrings CryptoLib PluginTrust PluginNet Events.
From Stdlib Require Import Ascii String.
From stdpp Require Import base list strings gmap.

#[local] Open Scope Z_scope.

(** ** Rules of events, one by one *)

#[local] Notation item := (Event * NotificationRule)%type.
Definition flat (l : list delivery) : list item := l ≫= (fun d => (d.1,.) <$> d.2).
Definition itemOf (a : attempt) : item := (at_Event a, at_Rule a).
Definition workerOf (n : Z) (e : Event) : Z := fnv32a (ev_Key e) mod n.
Definition onWorker (n : Z) (i : nat) (x : item) : Prop := workerOf n x.1 = Z.of_nat i.
#[local] Instance onWorker_dec n i x : Decision (onWorker n i x).
Proof. unfold onWorker. apply _. Defined.
Definition pendingAt (w : eventWorker) : list delivery := option_list (wk_current w) ++ wk_ch w.

Lemma pendingAt_push w d s : pendingAt (mkWorker (wk_ch w ++ [d]) (wk_current w) s) = pendingAt w ++ [d].
Proof. unfold pendingAt. apply app_assoc. Qed.
Lemma flat_app l1 l2 : flat (l1 ++ l2) = flat l1 ++ flat l2.
Proof. apply bind_app. Qed.
Lemma flat_one e rules : flat [(e, rules)] = (e,.) <$> rules.
Proof. unfold flat. simpl. apply app_nil_r. Qed.
Lemma filter_items n i e (rules : list NotificationRule) :
  filter (onWorker n i) ((e,.) <$> rules) = if decide (workerOf n e = Z.of_nat i) then (e,.) <$> rules else [].
Proof.
  induction rules as [|r rules IH]; [by destruct (decide _)|]. rewrite !fmap_cons, filter_cons, IH. unfold onWorker. simpl.
  by destruct (decide _).
Qed.

(** ** The queues of the workers *)

Record queues (n : Z) (ws : list eventWorker) (blocked routed : list delivery) (firsts : list item) : Prop := mkQueues {
  q_length : Z.of_nat (length ws) = n;
  q_own : forall i w, ws !! i = Some w -> Forall (fun d => workerOf n d.1 = Z.of_nat i) (pendingAt w);
  q_order : forall i w, ws !! i = Some w ->
    filter (onWorker n i) (flat routed) =
    filter (onWorker n i) firsts ++ flat (pendingAt w) ++ filter (onWorker n i) (flat blocked);
  q_all : flat routed ≡ₚ firsts ++ flat (ws ≫= pendingAt) ++ flat blocked }.

Lemma queues_new n : 0 <= n -> queues n (repeat newEventWorker (Z.to_nat n)) [] [] [].
Proof.
  intros N. assert (forall i w, repeat newEventWorker (Z.to_nat n) !! i = Some w -> w = newEventWorker) as R.
  { intros i w L. apply list_elem_of_lookup_2, list_elem_of_In, repeat_spec in L. done. }
  split.
  - rewrite repeat_length. lia.
  - intros i w ->%R. constructor.
  - by intros i w ->%R.
  - simpl. rewrite app_nil_r. clear R. induction (Z.to_nat n) as [|k IH]; [done|]. exact IH.
Qed.

(** An event is dispatched. *)
Lemma queues_dispatch n ws routed firsts e rules : queues n ws [] routed firsts ->
  queues n ws (match rules with [] => [] | _ => [(e, rules)] end) (routed ++ [(e, rules)]) firsts.
Proof.
  intros [L O Or A].
  assert (flat (match rules with [] => [] | _ => [(e, rules)] end) = flat [(e, rules)]) as F by by destruct rules.
  split; [done|done| |].
  - intros i w W. rewrite F, flat_app, filter_app, (Or i w W). simpl. rewrite app_nil_r. by rewrite <- app_assoc.
  - rewrite F, flat_app, A. simpl. rewrite app_nil_r. by rewrite <- app_assoc.
Qed.

(** A worker's part changes. *)
Lemma queues_update n ws blocked blocked' routed firsts firsts' i w w' :
  queues n ws blocked routed firsts -> ws !! i = Some w ->
  Forall (fun d => workerOf n d.1 = Z.of_nat i) (pendingAt w') ->
  (exists new, firsts' = firsts ++ new /\ Forall (onWorker n i) new /\
     (forall j, j <> i -> filter (onWorker n j) (flat blocked') = filter (onWorker n j) (flat blocked)) /\
     flat (pendingAt w) ++ flat blocked = new ++ flat (pendingAt w') ++ flat blocked' /\
     flat (pendingAt w) ++ filter (onWorker n i) (flat blocked)
       = new ++ flat (pendingAt w') ++ filter (onWorker n i) (flat blocked')) ->
  queues n (<[i:=w']> ws) blocked' routed firsts'.
Proof.
  intros [L O Or A] W F (new & -> & N & Bl & E1 & E2). pose proof (lookup_lt_Some _ _ _ W) as Lt.
  assert (forall j v, j <> i -> <[i:=w']> ws !! j = Some v -> ws !! j = Some v) as Ot
    by (intros j v Ne; by rewrite list_lookup_insert_ne by done).
  split.
  - by rewrite length_insert.
  - intros j v V. destruct (decide (j = i)) as [->|Ne]; [|by eapply O, Ot].
    rewrite list_lookup_insert_eq in V by done. by injection V as <-.
  - intros j v V. rewrite filter_app. destruct (decide (j = i)) as [->|Ne].
    + rewrite list_lookup_insert_eq in V by done. injection V as <-.
      assert (filter (onWorker n i) new = new) as ->.
      { clear -N. induction N as [|x new P N IH]; [done|]. rewrite filter_cons, decide_True by done. by f_equal. }
      rewrite (Or i w W), E2. by rewrite <- app_assoc.
    + assert (filter (onWorker n j) new = []) as ->.
      { clear -N Ne. induction N as [|x new P N IH]; [done|]. rewrite filter_cons, decide_False; [done|].
        unfold onWorker in *. intros Q. rewrite P in Q. lia. }
      rewrite app_nil_r, (Or j v) by by apply Ot. by rewrite (Bl j Ne).
  - destruct (bind_insert pendingAt ws i w w' W) as (rest & P1 & P2).
    assert (forall l l', l ≡ₚ l' -> flat l ≡ₚ flat l') as Fp by (intros l l' P; unfold flat; by rewrite P).
    rewrite A. rewrite (Fp _ _ P1), (Fp _ _ P2), !flat_app.
    rewrite <- !app_assoc. apply Permutation_app_head.
    rewrite (Permutation_app_comm (flat rest) (flat blocked)), (Permutation_app_comm (flat rest) (flat blocked')).
    rewrite !app_assoc. apply Permutation_app_tail. rewrite E1. by rewrite app_assoc.
Qed.

(** ** Failed deliveries *)

Definition entryItem (x : DeadLetterEntry) : item := (dl_Event x, dl_Rule x).
Definition waitingOf (l : retryState) : list DeadLetterEntry := match l with RetryWaiting x => [x] | _ => [] end.
Definition entriesOf (q : DeadLetterQueue) : list DeadLetterEntry :=
  dq_retryCh q ++ waitingOf (dq_loop q) ++ dq_disk q ++ dq_lost q.
Definition retryable (q : DeadLetterQueue) : Prop :=
  Forall (fun x => 1 <= dl_Attempts x < dq_maxRetries q) (dq_retryCh q ++ waitingOf (dq_loop q)).
Definition failedItems (b : EventBus) : list item :=
  itemOf <$> filter (fun a => at_Outcome a = DeliveryFailed) (bus_first b).

Lemma Enqueue_entries env e rule n err q m :
  let q' := (dlq_Enqueue env e rule n err q m).1 in
  (entryItem <$> entriesOf q') ≡ₚ (e, rule) :: (entryItem <$> entriesOf q) /\
  dq_maxRetries q' = dq_maxRetries q /\ dq_loop q' = dq_loop q /\
  (retryable q -> 1 <= n -> retryable q') /\
  (is_ok (ee_disk env) = true -> dq_lost q' = dq_lost q).
Proof.
  unfold dlq_Enqueue, entriesOf, retryable. destruct (_ && _) eqn:C; simpl.
  - split; [|split; [done|split; [done|split; [|done]]]].
    + rewrite <- app_assoc, !fmap_app. symmetry. apply Permutation_middle.
    + intros F N. apply andb_prop in C as [C _]. rewrite <- app_assoc. apply Forall_app in F as [F1 F2].
      apply Forall_app. split; [done|]. constructor; [simpl; lia|done].
  - unfold writeToDisk. destruct (ee_disk env) eqn:D; simpl; (split; [|split; [done|split; [done|split; [done|]]]]); try done.
    + rewrite !fmap_app. simpl. rewrite <- !app_assoc. simpl. rewrite !app_assoc. symmetry. apply Permutation_middle.
    + rewrite !fmap_app. simpl. rewrite !app_assoc. by rewrite <- Permutation_cons_append.
    + rewrite !fmap_app. simpl. rewrite !app_assoc. by rewrite <- Permutation_cons_append.
Qed.

(** ** The invariant of the bus *)

Record busOk (b : EventBus) : Prop := mkBusOk {
  ok_workers : 0 < bus_numWorkers b;
  ok_queues : queues (bus_numWorkers b) (bus_workers b) (blockedOf (bus_dispatcher b)) (bus_routed b)
                (itemOf <$> bus_first b);
  ok_accepted : bus_accepted b = (fst <$> bus_routed b) ++ bus_eventCh b;
  ok_failed : failedItems b ≡ₚ entryItem <$> (bus_retried b ++ entriesOf (bus_dlq b));
  ok_retries : retryable (bus_dlq b);
  ok_loop : dq_loop (bus_dlq b) = RetryExited -> bus_stop b = BusStopped }.

Lemma busOk_new n r base : busOk (NewEventBus n r base).
Proof.
  assert (0 < if n <=? 0 then 16 else n) by (destruct (n <=? 0) eqn:E; lia).
  split; simpl; try done; [apply queues_new; lia|constructor].
Qed.

(** Steps that touch neither queues nor history. *)
Lemma busOk_same b b' : busOk b -> bus_numWorkers b' = bus_numWorkers b -> bus_workers b' = bus_workers b ->
  blockedOf (bus_dispatcher b') = blockedOf (bus_dispatcher b) -> bus_routed b' = bus_routed b ->
  bus_first b' = bus_first b -> bus_accepted b' = bus_accepted b -> bus_eventCh b' = bus_eventCh b ->
  bus_retried b' = bus_retried b -> bus_dlq b' = bus_dlq b -> (bus_stop b = BusStopped -> bus_stop b' = BusStopped) -> busOk b'.
Proof.
  intros [N Q A F R L] E1 E2 E3 E4 E5 E6 E7 E8 E9 St. unfold failedItems in *.
  split; rewrite ?E1, ?E2, ?E3, ?E4, ?E5, ?E6, ?E7, ?E8, ?E9; try done; [|by auto].
  unfold failedItems. by rewrite E5.
Qed.

Lemma busOk_dispatch starFirst wrap b b' : (forall d, blockedOf (wrap d) = option_list d) ->
  blockedOf (bus_dispatcher b) = [] -> dispatched starFirst wrap b = Some b' -> busOk b -> busOk b'.
Proof.
  intros Wr Bl E [N Q A F R L]. unfold dispatched in E. destruct (bus_eventCh b) as [|e rest] eqn:Ch; [done|].
  cbv zeta in E. injection E as <-. split; try done.
  - simpl. rewrite Wr, Bl in *. pose proof (queues_dispatch _ _ _ _ e (getMatchingRules starFirst e b) Q) as Q'.
    by destruct (getMatchingRules starFirst e b).
  - simpl. rewrite A, fmap_app. simpl. by rewrite <- app_assoc.
Qed.
Lemma busOk_enqueue d wrap b b' : (forall x, blockedOf (wrap x) = option_list x) ->
  blockedOf (bus_dispatcher b) = [d] -> enqueued d wrap b = Some b' -> busOk b -> busOk b'.
Proof.
  intros Wr Bl E [N Q A F R L]. unfold enqueued in E.
  assert (0 <= keyToWorker (ev_Key d.1) b) as P by (apply Z.mod_pos_bound; done).
  set (i := Z.to_nat _) in E. destruct (bus_workers b !! i) as [w|] eqn:W; [|done]. simpl in E.
  destruct (_ <? _)%nat; [|done]. injection E as <-. split; try done.
  simpl. rewrite Wr. rewrite Bl in Q. simpl.
  assert (workerOf (bus_numWorkers b) d.1 = Z.of_nat i) as Own by (subst i; rewrite Z2Nat.id by done; done).
  eapply queues_update; [exact Q|exact W| |].
  - rewrite pendingAt_push. apply Forall_app. split; [by apply (q_own _ _ _ _ _ Q)|by repeat constructor].
  - exists []. rewrite app_nil_r. split; [done|]. split; [constructor|]. destruct d as [e rules]. rewrite flat_one. simpl in Own.
    split; [|split].
    + intros j J. rewrite filter_items, decide_False; [done|]. rewrite Own. lia.
    + rewrite pendingAt_push, flat_app, flat_one. simpl. by rewrite app_nil_r.
    + rewrite pendingAt_push, filter_items, decide_True, flat_app, flat_one by done. simpl. by rewrite app_nil_r.
Qed.
Lemma busOk_take i w d rest b : bus_workers b !! i = Some w -> wk_ch w = d :: rest -> wk_current w = None -> busOk b ->
  busOk (set_workers (<[i := mkWorker rest (Some d) false]> (bus_workers b)) b).
Proof.
  intros W C Cu [N Q A F R L]. split; try done. simpl.
  assert (pendingAt w = pendingAt (mkWorker rest (Some d) false)) as E by (unfold pendingAt; by rewrite C, Cu).
  eapply queues_update; [exact Q|exact W| |].
  - rewrite <- E. by apply (q_own _ _ _ _ _ Q).
  - exists []. rewrite app_nil_r, E. split; [done|]. split; [constructor|]. done.
Qed.
Lemma busOk_stopWorker i w st b : bus_workers b !! i = Some w -> wk_current w = None -> bus_stop b <> BusStopped -> busOk b ->
  busOk (set_stop st (set_workers (<[i := mkWorker (wk_ch w) None true]> (bus_workers b)) b)).
Proof.
  intros W Cu NS [N Q A F R L]. split; try done; simpl; [|by intros ?%L].
  assert (pendingAt w = pendingAt (mkWorker (wk_ch w) None true)) as E by (unfold pendingAt; by rewrite Cu).
  eapply queues_update; [exact Q|exact W| |].
  - rewrite <- E. by apply (q_own _ _ _ _ _ Q).
  - exists []. rewrite app_nil_r, E. split; [done|]. split; [constructor|]. done.
Qed.

(** A rule of a worker's delivery is done. *)
Lemma queues_deliver n ws blocked routed firsts i w e rule rest s :
  queues n ws blocked routed firsts -> ws !! i = Some w -> wk_current w = Some (e, rule :: rest) ->
  queues n (<[i := mkWorker (wk_ch w) (match rest with [] => None | _ => Some (e, rest) end) s]> ws) blocked routed
    (firsts ++ [(e, rule)]).
Proof.
  intros Q W Cu. pose proof (q_own _ _ _ _ _ Q i w W) as O. unfold pendingAt in O. rewrite Cu in O.
  apply Forall_cons in O as [O1 O2].
  eapply queues_update; [exact Q|exact W| |].
  - unfold pendingAt. simpl. apply Forall_app. split; [|done]. destruct rest; repeat constructor. exact O1.
  - exists [(e, rule)]. split; [done|]. split; [by repeat constructor|]. split; [done|].
    assert (flat (pendingAt w) = [(e, rule)] ++
      flat (pendingAt (mkWorker (wk_ch w) (match rest with [] => None | _ => Some (e, rest) end) s))) as ->.
    { unfold pendingAt. rewrite Cu, !flat_app. change (option_list (Some (e, rule :: rest))) with [(e, rule :: rest)].
      rewrite flat_one. destruct rest as [|r rest]; [done|].
      change (option_list _) with [(e, r :: rest)] at 1. by rewrite flat_one. }
    by rewrite <- !app_assoc.
Qed.
Lemma failedItems_add a b : failedItems (add_first a b) =
  failedItems b ++ (if decide (at_Outcome a = DeliveryFailed) then [itemOf a] else []).
Proof.
  unfold failedItems. simpl. rewrite filter_app, fmap_app. f_equal. rewrite filter_cons. by destruct (decide _).
Qed.
Lemma busOk_deliver i w e rule rest result env b : bus_workers b !! i = Some w ->
  wk_current w = Some (e, rule :: rest) -> busOk b -> busOk (delivered i w e rule rest result env b).
Proof.
  intros W Cu [N Q A F R L]. pose proof (queues_deliver _ _ _ _ _ _ _ _ _ _ (wk_stopped w) Q W Cu) as Q'.
  unfold delivered. set (ws := <[i := _]> (bus_workers b)).
  assert (forall m o, o <> DeliveryFailed -> busOk (add_first (mkAttempt e rule o) (set_dlq (bus_dlq b) m (set_workers ws b)))) as Plain.
  { intros m o No. split; try done; simpl.
    - by rewrite fmap_app.
    - rewrite failedItems_add, decide_False, app_nil_r by done. exact F. }
  destruct (bool_decide _); [|by apply Plain]. destruct (dr_Success result); [by apply Plain|].
  change (bus_dlq (set_workers ws b)) with (bus_dlq b). change (bus_metrics (set_workers ws b)) with (bus_metrics b).
  pose proof (Enqueue_entries env e rule 1 (default ""%string (dr_Error result)) (bus_dlq b)
                (countFailed (bus_metrics b))) as En.
  destruct (dlq_Enqueue _ _ _ _ _ _ _) as [q m]. simpl in En. destruct En as (P & Mx & Lp & Rt & _).
  split; try done; simpl.
  - by rewrite fmap_app.
  - rewrite failedItems_add, decide_True by done. change (failedItems (set_dlq q m (set_workers ws b))) with (failedItems b).
    rewrite F, !fmap_app, P. simpl. rewrite <- app_assoc. apply Permutation_app_head.
    symmetry. apply Permutation_cons_append.
  - apply Rt; [done|lia].
  - by rewrite Lp.
Qed.

(** The queue of failures and the retries that succeeded change. *)
Lemma busOk_dlq q m retried st b : busOk b ->
  entryItem <$> (retried ++ entriesOf q) ≡ₚ entryItem <$> (bus_retried b ++ entriesOf (bus_dlq b)) ->
  retryable q -> (dq_loop q = RetryExited -> st = BusStopped) ->
  busOk (mkBus (bus_subscriptions b) (bus_callbacks b) (bus_numWorkers b) (bus_eventCh b) (bus_workers b)
           (bus_dispatcher b) st q m (bus_accepted b) (bus_routed b) (bus_first b) retried).
Proof. intros [N Q A F R L] P Rt Lp. split; try done. simpl. rewrite P. exact F. Qed.

Lemma entries_take q q' : retryTake q = Some q' -> retryable q -> entriesOf q' ≡ₚ entriesOf q /\ retryable q'
  /\ dq_loop q' <> RetryExited.
Proof.
  unfold retryTake, retryable, entriesOf. destruct (dq_loop q) eqn:Lp; try done.
  destruct (dq_retryCh q) as [|x rest]; [done|]. intros E R. injection E as <-. simpl in *.
  split; [|split; [|done]].
  - symmetry. apply (Permutation_middle rest).
  - rewrite app_nil_r in R. rewrite <- (Permutation_cons_append rest x). exact R.
Qed.
Lemma entries_idle q x : dq_loop q = RetryWaiting x -> entriesOf q ≡ₚ x :: entriesOf (set_loop RetryIdle q).
Proof. intros E. unfold entriesOf. rewrite E. simpl. symmetry. apply Permutation_middle. Qed.
Lemma retryable_idle q x : dq_loop q = RetryWaiting x -> retryable q ->
  retryable (set_loop RetryIdle q) /\ 1 <= dl_Attempts x < dq_maxRetries q.
Proof.
  unfold retryable. intros E. rewrite E. simpl. rewrite app_nil_r, Forall_app, Forall_singleton. done.
Qed.
Lemma busOk_fire env result q m x b : dq_loop (bus_dlq b) = RetryWaiting x ->
  retryFire env result (bus_dlq b) (bus_metrics b) = Some (q, m) -> busOk b ->
  busOk (if dr_Success result then add_retried x (set_dlq q m b) else set_dlq q m b).
Proof.
  intros Lp E Ok. destruct (retryable_idle _ _ Lp (ok_retries _ Ok)) as [R [A _]].
  pose proof (entries_idle _ _ Lp) as P. unfold retryFire in E. rewrite Lp in E. cbv zeta in E.
  destruct (dr_Success result).
  - injection E as <- <-. apply (busOk_dlq _ _ _ _ b); try done. rewrite !fmap_app, P. simpl. rewrite <- app_assoc. done.
  - pose proof (Enqueue_entries env (dl_Event x) (dl_Rule x) (dl_Attempts x + 1) (retryError result)
      (set_loop RetryIdle (bus_dlq b)) (countRetry (bus_metrics b))) as En.
    destruct (dlq_Enqueue _ _ _ _ _ _ _) as [q1 m1]. injection E as <- <-. simpl in En.
    destruct En as (P1 & Mx & L1 & Rt & _). apply (busOk_dlq _ _ _ _ b); try done.
    + rewrite !fmap_app, P, P1. done.
    + apply Rt; [done|lia].
    + by rewrite L1.
Qed.
Lemma busOk_stopDLQ b : busOk b -> busOk (set_stop BusStopped (set_dlq (dlq_Stop (bus_dlq b)) (bus_metrics b) b)).
Proof.
  intros Ok. pose proof (ok_retries _ Ok) as R. apply (busOk_dlq _ _ _ _ b); try done.
  - rewrite !fmap_app. apply Permutation_app_head. unfold dlq_Stop, entriesOf.
    destruct (dq_loop (bus_dlq b)) as [|x|]; simpl; [done| |done].
    apply fmap_Permutation. apply Permutation_app_head.
    rewrite app_assoc. symmetry. apply Permutation_cons_append.
  - unfold retryable, dlq_Stop in *. destruct (dq_loop (bus_dlq b)); simpl in *; [done| |done].
    rewrite app_nil_r. by apply Forall_app in R as [R _].
Qed.

Lemma step_busOk s b b' : step s b = Some b' -> busOk b -> busOk b'.
Proof.
  intros E Ok. destruct s; cbn [step] in E.
  - injection E as <-. by eapply busOk_same.
  - injection E as <-. unfold Unsubscribe. destruct (bus_subscriptions b !! bkt); [|done]. by eapply busOk_same.
  - destruct (_ <? _)%nat; [|done]. injection E as <-. destruct Ok as [N Q A F R L]. split; try done.
    simpl. rewrite A. by rewrite app_assoc.
  - destruct (bus_dispatcher b) as [[]|[]|] eqn:D; try done.
    all: (eapply busOk_dispatch; [| |exact E|exact Ok]); [by intros []|by rewrite D].
  - destruct (bus_dispatcher b) as [[d|]|[d|]|] eqn:D; try done.
    all: (eapply (busOk_enqueue d); [| |exact E|exact Ok]); [by intros []|by rewrite D].
  - destruct (bus_dispatcher b) as [[]|[]|] eqn:D; try done. destruct (decide _); [done|]. injection E as <-.
    eapply busOk_same; try done. by rewrite D.
  - destruct (bus_dispatcher b) as [[]|[]|] eqn:D; try done. destruct (bus_eventCh b) eqn:Ch; [|done]. injection E as <-.
    eapply busOk_same; try done. by rewrite D.
  - destruct (bus_workers b !! w) as [wk|] eqn:W; [|done]. simpl in E.
    destruct (wk_ch wk) eqn:C, (wk_current wk) eqn:Cu, (wk_stopped wk); try done. injection E as <-.
    by eapply busOk_take.
  - destruct (bus_workers b !! w) as [wk|] eqn:W; [|done]. simpl in E.
    destruct (wk_current wk) as [[e [|rule rest]]|] eqn:Cu; try done. injection E as <-. by apply busOk_deliver.
  - destruct (retryTake (bus_dlq b)) as [q|] eqn:T; [|done]. injection E as <-.
    destruct (entries_take _ _ T (ok_retries _ Ok)) as (P & R & L). apply (busOk_dlq _ _ _ _ b); try done.
    by rewrite !fmap_app, P.
  - destruct (dq_loop (bus_dlq b)) eqn:Lp; try done.
    destruct (retryFire env result (bus_dlq b) (bus_metrics b)) as [[q m]|] eqn:Fi; [|done]. simpl in E.
    injection E as <-. by eapply busOk_fire.
  - destruct (decide _) as [S|]; [|done]. injection E as <-. eapply busOk_same; try done. by rewrite S.
  - destruct (bus_stop b) eqn:S; try done. destruct (bus_dispatcher b); try done. injection E as <-.
    eapply busOk_same; try done. by rewrite S.
  - destruct (bus_stop b) eqn:S; try done. destruct (_ || _); [|done]. injection E as <-.
    eapply busOk_same; try done. by rewrite S.
  - destruct (bus_stop b) eqn:S; try done. destruct (bus_workers b !! i) as [w|] eqn:W; [|done]. simpl in E.
    destruct (wk_current w) eqn:Cu; [done|]. injection E as <-. apply busOk_stopWorker; try done. by rewrite S.
  - destruct (bus_stop b) eqn:S; try done. destruct (_ =? _)%nat; [|done]. injection E as <-. by apply busOk_stopDLQ.
Qed.
Lemma runBus_busOk l : forall b b', runBus l b = Some b' -> busOk b -> busOk b'.
Proof.
  induction l as [|s l IH]; intros b b' E Ok; simpl in E; [by injection E as <-|].
  destruct (step s b) as [b1|] eqn:S; [|done]. simpl in E. eapply IH; [exact E|]. by eapply step_busOk.
Qed.

(** ** What is lost *)



(** ** Properties *)

Definition withKey (key : string) (x : item) : Prop := ev_Key x.1 = key.
#[export] Instance withKey_dec key x : Decision (withKey key x).
Proof. unfold withKey. apply _. Defined.
Lemma filter_key_on_worker n i key (l : list item) : fnv32a key mod n = Z.of_nat i ->
  filter (withKey key) (filter (onWorker n i) l) = filter (withKey key) l.
Proof.
  intros K. rewrite list_filter_filter_l; [done|]. intros x. unfold withKey, onWorker, workerOf. intros ->. done.
Qed.

(** C4: Events keep their order: under every interleaving of publishers, the
    dispatcher, the workers and the retries, the events accepted are the ones
    dispatched followed by the ones that wait, in order, and for each object
    key the first deliveries made are a prefix of the rules matched by the
    dispatched events of that key, in the order they were published. *)
Theorem deliveries_of_a_key_in_order n maxRetries base l b key :
  runBus l (NewEventBus n maxRetries base) = Some b ->
  bus_accepted b = (fst <$> bus_routed b) ++ bus_eventCh b /\
  filter (withKey key) (itemOf <$> bus_first b) `prefix_of` filter (withKey key) (flat (bus_routed b)).
Proof.
  intros E. destruct (runBus_busOk _ _ _ E (busOk_new n maxRetries base)) as [N Q A _ _ _]. split; [done|].
  set (i := Z.to_nat (fnv32a key mod bus_numWorkers b)).
  pose proof (Z.mod_pos_bound (fnv32a key) _ N) as B. pose proof (q_length _ _ _ _ _ Q) as Len.
  destruct (lookup_lt_is_Some_2 (bus_workers b) i) as [w W]; [subst i; lia|].
  pose proof (q_order _ _ _ _ _ Q i w W) as O. apply (f_equal (filter (withKey key))) in O.
  rewrite !filter_app, !filter_key_on_worker in O by (subst i; lia).
  rewrite O. by apply prefix_app_r.
Qed.


Section Addresses.
Context `{CryptoLib, UrlLib, EventLib}.


End Addresses.

(** ** Concrete runs *)

Module EventsDemo.
Definition url : UrlLib :=
  {| url_Parse s := Ok (mkURL "https" s (if bool_decide (s = "in"%string) then "in" else "out") "443" "/" "") |}.
Definition lib : EventLib :=
  {| event_Marshal e := Ok (bytes_of_string (ev_Key e)); http_NewRequest _ := Ok tt; ip_String _ := "ip"%string |}.
Definition dns (host : string) : res (list IP) :=
  if bool_decide (host = "in"%string) then Ok [[8; 8; 8; 8]; v4InV6Prefix ++ [10; 0; 0; 7]] else Ok [[8; 8; 8; 8]].
Definition event (id key : string) : Event := mkEvent id "s3:ObjectCreated:Put" "photos" key "" "" 1 5 "" "".
Definition hook (url : string) : DestinationConfig :=
  mkDestination "webhook" url (Some (mkSigning "hmac-sha256" "k")).
Definition rule (id : string) (dest : DestinationConfig) : NotificationRule :=
  mkRule id ["s3:ObjectCreated:*"%string] "" ".jpg" dest.
Definition send (url_ : string) : DeliveryResult :=
  @Send ToyCrypto.toy url lib false dns "d" (fun _ => Ok 200) (event "1" "a.jpg") (hook url_).

Example a_public_host : dr_Success (send "out") = true.
Proof. vm_compute. reflexivity. Qed.
Example a_mapped_private_address : dr_Success (send "in") = false /\
  dr_Error (send "in") = Some "webhook URL validation failed: webhook URL resolves to private/internal IP ip (SSRF protection)"%string.
Proof. vm_compute. done. Qed.


Definition good : DeliveryResult := mkDelivery "d" 200 false true None.
Definition bad : DeliveryResult := mkDelivery "d" 503 true false None.
Definition env (id : string) : EnqueueEnv := mkEnqueueEnv id 9 (Ok tt).
(** Two events of a key, the second delivered before the retry of the first. *)
Definition busy : list busStep :=
  [Subscribes "photos" (rule "r" (hook "out")); Subscribes "*" (rule "k" (mkDestination "kafka" "" None));
   PublishAccepted "1" 5 (event "" "a.jpg"); PublishAccepted "2" 5 (event "" "a.jpg"); PublishAccepted "3" 5 (event "" "b.txt");
   Dispatch true; EnqueueBlocked; Dispatch false; EnqueueBlocked; Dispatch false;
   WorkerTakes 1; WorkerDelivers 1 good (env "u"); WorkerDelivers 1 bad (env "v"); RetryTakes;
   WorkerTakes 1; WorkerDelivers 1 good (env "w")].
Definition after (l : list busStep) : EventBus := default (NewEventBus 0 0 0) (runBus l (NewEventBus 4 2 100)).

Example second_delivered_before_the_first :
  (fun a => (ev_EventID (at_Event a), nr_ID (at_Rule a), at_Outcome a)) <$> bus_first (after busy) =
    [("1", "k", Unsupported); ("1", "r", DeliveryFailed); ("2", "r", Delivered)]%string /\
  dq_loop (bus_dlq (after busy)) <> RetryIdle /\ inFlight (after busy) = 1%nat.
Proof. vm_compute. done. Qed.

Lemma deliveries_of_a_key_in_order_witness :
  runBus busy (NewEventBus 4 2 100) = Some (after busy) /\
  filter (withKey "a.jpg") (itemOf <$> bus_first (after busy)) `prefix_of`
    filter (withKey "a.jpg") (flat (bus_routed (after busy))).
Proof.
  split; [vm_compute; reflexivity|].
  apply (deliveries_of_a_key_in_order 4 2 100 busy (after busy) "a.jpg"). vm_compute. reflexivity.
Defined.

(** The stop while an entry waits, and an event accepted after the dispatcher
    is gone. *)
Definition stopping : list busStep :=
  busy ++ [WorkerDelivers 1 good (env "x"); StopCalled; DispatcherSeesStop; DispatcherExits; StopSeesDispatcher;
           PublishAccepted "4" 6 (event "" "c.jpg"); StopSeesDrain true;
           StopWorker; StopWorker; StopWorker; StopWorker; StopDLQ].
Example stop_loses_the_waiting_entry :
  runBus stopping (NewEventBus 4 2 100) = Some (after stopping) /\
  bus_stop (after stopping) = BusStopped /\ dl_ID <$> dq_lost (bus_dlq (after stopping)) = ["v"%string] /\
  ev_EventID <$> bus_eventCh (after stopping) = ["4"%string].
Proof. vm_compute. done. Qed.

End EventsDemo.
