(* ===== verification/Kms.v ===== *)
(** * Key managers (internal/kms)

    The interface KMSClient as a class, the local implementation (ECIES under a
    key pair kept in files) as an instance that satisfies the interface's laws,
    and FallbackKMS, which keeps recent data keys for the time its primary is
    down, over any client.  Randomness, files and whatever a remote client
    depends on are the environment of a call. *)

From S2P Require Import Prelude CryptoLib Keys.
From stdpp Require Import base list gmap strings.

#[local] Open Scope Z_scope.

(** ** The interface (kms.go) *)

Class KMSClient := {
  k_state : Type;
  k_env : Type;
  k_GenerateDataKey : k_env -> string -> Z -> k_state -> res (bytes * bytes) * k_state;
  k_DecryptDataKey : k_env -> string -> bytes -> k_state -> res bytes * k_state;
  k_GetPublicKey : k_env -> string -> k_state -> res bytes * k_state;
  k_Close : k_state -> res unit * k_state;
}.

(** What a client promises: [k_valid s encrypted plaintext] is a relation that
    its answers respect and its operations keep. *)
Class KMSLaws `{KMSClient} := {
  k_ok : k_state -> Prop;
  k_valid : k_state -> bytes -> bytes -> Prop;
  k_functional : forall s e p1 p2, k_valid s e p1 -> k_valid s e p2 -> p1 = p2;
  k_generate : forall v id n s r s', k_GenerateDataKey v id n s = (r, s') -> k_ok s ->
    k_ok s' /\ (forall e p, k_valid s e p -> k_valid s' e p) /\
    match r with Ok (p, e) => k_valid s' e p | _ => True end;
  k_decrypt : forall v id e0 s r s', k_DecryptDataKey v id e0 s = (r, s') -> k_ok s ->
    k_ok s' /\ (forall e p, k_valid s e p -> k_valid s' e p) /\
    match r with Ok p => k_valid s' e0 p | _ => True end;
  k_public : forall v id s r s', k_GetPublicKey v id s = (r, s') -> k_ok s ->
    k_ok s' /\ (forall e p, k_valid s e p -> k_valid s' e p);
}.

(** ** The local key manager (local.go) *)

Section Local.
Context `{CryptoLib}.

(** The public key belongs to the curve of the key that was loaded; [lk_curve]
    is P-256 always. *)
Record LocalKMS := mkLocal {
  lk_privateKey : option (Curve * ecPriv); lk_publicKey : Curve * bytes; lk_pubKeyBytes : bytes; lk_curve : Curve }.

(** The files of the pair: what reading the private one gave (not there, not a
    key, or a key), and what writing does. *)
Inductive keyFile := NoKeyFile | BadKeyFile | KeyFile (c : Curve) (k : ecPriv).
Record LocalFiles := mkLocalFiles {
  lf_priv : keyFile; lf_generate : res ecPriv; lf_mkdir : res unit; lf_writePriv : res unit; lf_writePub : res unit;
  lf_marshalPub : Curve -> bytes -> res bytes }.
(** The pair and the file that is left: a file that is not a key is replaced. *)
Definition NewLocalKMS (fs : LocalFiles) : res LocalKMS * keyFile :=
  let curve := P256 in
  match lf_priv fs with
  | KeyFile c k =>
    (pub ← wrapErr "kms/local: failed to marshal public key" (lf_marshalPub fs c (ecPub c k));
     Ok (mkLocal (Some (c, k)) (c, ecPub c k) pub curve), lf_priv fs)
  | _ =>
    match wrapErr "kms/local: failed to generate key pair" (lf_generate fs) with
    | Ok k =>
      match wrapErr "kms/local: failed to create key directory" (lf_mkdir fs) with
      | Ok _ =>
        match wrapErr "kms/local: failed to save private key" (lf_writePriv fs) with
        | Ok _ =>
          (pub ← wrapErr "kms/local: failed to marshal public key" (lf_marshalPub fs curve (ecPub curve k));
           _ ← wrapErr "kms/local: failed to save public key" (lf_writePub fs);
           Ok (mkLocal (Some (curve, k)) (curve, ecPub curve k) pub curve), KeyFile curve k)
        | Err x => (Err x, BadKeyFile)
        | Panic x => (Panic x, lf_priv fs)
        end
      | Err x => (Err x, lf_priv fs)
      | Panic x => (Panic x, lf_priv fs)
      end
    | Err x => (Err x, lf_priv fs)
    | Panic x => (Panic x, lf_priv fs)
    end
  end.

Record LocalEnv := mkLocalEnv { le_dek : res bytes; le_ephemeral : res ecPriv; le_nonce : res bytes }.

(** [curve.ScalarMult] panics on a point that is not on the curve. *)
Definition scalarMult (curve : Curve) (k : ecPriv) (pub : Curve * bytes) : res bytes :=
  if decide (pub.1 = curve) then Ok (ecdh curve k pub.2)
  else Panic "crypto/elliptic: ScalarMult was called on an invalid point".

Definition encryptWithECIES (v : LocalEnv) (plaintext : bytes) (l : LocalKMS) : res bytes :=
  ephemeralPriv ← wrapErr "failed to generate ephemeral key" (le_ephemeral v);
  sharedSecret ← scalarMult (lk_curve l) ephemeralPriv (lk_publicKey l);
  let ephemeralPubBytes := ecPub (lk_curve l) ephemeralPriv in
  let symKey := hkdf_sha256 sharedSecret ephemeralPubBytes in
  _ ← wrapErr "failed to create cipher" (aes_NewCipher symKey);
  nonce ← wrapErr "failed to generate nonce" (randBuf gcmNonceSize (le_nonce v));
  ciphertext ← gcm_Seal symKey nonce plaintext;
  Ok (ephemeralPubBytes ++ nonce ++ ciphertext).

(** Decryption with a key that is there. *)
Definition eciesOpen (curve : Curve) (key : ecPriv) (encrypted : bytes) : res bytes :=
  let pubKeyLen := 65%nat in
  let nonceLen := 12%nat in
  if decide (length encrypted < pubKeyLen)%nat then Err "invalid encrypted data: too short"
  else
    let ephemeralPubBytes := take pubKeyLen encrypted in
    if ecOnCurve curve ephemeralPubBytes then
      let symKey := hkdf_sha256 (ecdh curve key ephemeralPubBytes) ephemeralPubBytes in
      if decide (length encrypted < pubKeyLen + nonceLen)%nat then Err "invalid encrypted data: missing nonce"
      else
        let nonce := take nonceLen (drop pubKeyLen encrypted) in
        let ciphertext := drop (pubKeyLen + nonceLen) encrypted in
        _ ← wrapErr "failed to create cipher" (aes_NewCipher symKey);
        wrapErr "failed to decrypt" (gcm_Open symKey nonce ciphertext)
    else Err "failed to parse ephemeral public key".
Definition decryptWithECIES (encrypted : bytes) (l : LocalKMS) : res bytes :=
  match lk_privateKey l with
  | None => Err "private key not available"
  | Some (_, key) => eciesOpen (lk_curve l) key encrypted
  end.

Definition local_GenerateDataKey (v : LocalEnv) (keyID : string) (len : Z) (l : LocalKMS) : res (bytes * bytes) * LocalKMS :=
  let len := if len <=? 0 then 32 else len in
  (dek ← wrapErr "kms/local: failed to generate DEK" (randBuf (Z.to_nat len) (le_dek v));
   encrypted ← wrapErr "kms/local: failed to encrypt DEK" (encryptWithECIES v dek l);
   Ok (dek, encrypted), l).
Definition local_DecryptDataKey (v : LocalEnv) (keyID : string) (encrypted : bytes) (l : LocalKMS) : res bytes * LocalKMS :=
  (wrapErr "kms/local: failed to decrypt DEK" (decryptWithECIES encrypted l), l).
Definition local_GetPublicKey (v : LocalEnv) (keyID : string) (l : LocalKMS) : res bytes * LocalKMS :=
  (Ok (lk_pubKeyBytes l), l).
(** The bytes that [Close] clears are a copy; the key itself is dropped. *)
Definition local_Close (l : LocalKMS) : res unit * LocalKMS :=
  (Ok tt, mkLocal None (lk_publicKey l) (lk_pubKeyBytes l) (lk_curve l)).

#[export] Instance localClient : KMSClient := {|
  k_state := LocalKMS; k_env := LocalEnv; k_GenerateDataKey := local_GenerateDataKey;
  k_DecryptDataKey := local_DecryptDataKey; k_GetPublicKey := local_GetPublicKey; k_Close := local_Close |}.
End Local.

(** ** The fallback (fallback.go) *)

Section Fallback.
Context `{KMSClient}.

Record FallbackKMS := mkFallback {
  fk_primary : k_state; fk_mode : string; fk_available : bool; fk_cachedKeys : gmap bytes bytes;
  fk_cacheOrder : list bytes; fk_maxCache : nat; fk_lastFailure : Time }.
Definition maxCache : nat := 1000.
Definition NewFallbackKMS (primary : option k_state) (mode : string) : res FallbackKMS :=
  match primary with
  | None => Err "kms/fallback: primary KMS client is required"
  | Some p => Ok (mkFallback p (if bool_decide (mode = ""%string) then "reject_writes" else mode) true ∅ [] maxCache 0)
  end.
Definition set_primary (p : k_state) (f : FallbackKMS) : FallbackKMS :=
  mkFallback p (fk_mode f) (fk_available f) (fk_cachedKeys f) (fk_cacheOrder f) (fk_maxCache f) (fk_lastFailure f).

Definition markUnavailable (now : Time) (f : FallbackKMS) : FallbackKMS :=
  if fk_available f
  then mkFallback (fk_primary f) (fk_mode f) false (fk_cachedKeys f) (fk_cacheOrder f) (fk_maxCache f) now else f.
Definition markAvailable (f : FallbackKMS) : FallbackKMS :=
  if fk_available f then f
  else mkFallback (fk_primary f) (fk_mode f) true (fk_cachedKeys f) (fk_cacheOrder f) (fk_maxCache f) (fk_lastFailure f).

(** The loop that evicts, over the order. *)
Fixpoint evict (max : nat) (keys : gmap bytes bytes) (order : list bytes) : gmap bytes bytes * list bytes :=
  if (size keys <? max)%nat then (keys, order)
  else match order with
       | [] => (keys, order)
       | oldest :: rest => evict max (delete oldest keys) rest
       end.
Definition cacheKey (encrypted plaintext : bytes) (f : FallbackKMS) : FallbackKMS :=
  match fk_cachedKeys f !! encrypted with
  | Some _ => mkFallback (fk_primary f) (fk_mode f) (fk_available f) (<[encrypted := plaintext]> (fk_cachedKeys f))
                (fk_cacheOrder f) (fk_maxCache f) (fk_lastFailure f)
  | None =>
    let '(keys, order) := evict (fk_maxCache f) (fk_cachedKeys f) (fk_cacheOrder f) in
    mkFallback (fk_primary f) (fk_mode f) (fk_available f) (<[encrypted := plaintext]> keys) (order ++ [encrypted])
      (fk_maxCache f) (fk_lastFailure f)
  end.
Definition lookupCachedKey (encrypted : bytes) (f : FallbackKMS) : option bytes := fk_cachedKeys f !! encrypted.

Definition fb_GenerateDataKey (v : k_env) (now : Time) (keyID : string) (len : Z) (f : FallbackKMS)
  : res (bytes * bytes) * FallbackKMS :=
  if negb (fk_available f)
  then (Err ("kms/fallback: KMS unavailable, cannot generate new data key (mode: " +:+ fk_mode f +:+ ")"), f)
  else
    let '(r, p) := k_GenerateDataKey v keyID len (fk_primary f) in
    let f := set_primary p f in
    match r with
    | Ok (plaintext, encrypted) => (Ok (plaintext, encrypted), cacheKey encrypted plaintext f)
    | Err x => (Err ("kms/fallback: GenerateDataKey failed: " +:+ x), markUnavailable now f)
    | Panic x => (Panic x, f)
    end.
Definition fromCache (encrypted : bytes) (err : string) (f : FallbackKMS) : res bytes :=
  match lookupCachedKey encrypted f with Some p => Ok p | None => Err err end.
Definition fb_DecryptDataKey (v : k_env) (now : Time) (keyID : string) (encrypted : bytes) (f : FallbackKMS)
  : res bytes * FallbackKMS :=
  if fk_available f then
    let '(r, p) := k_DecryptDataKey v keyID encrypted (fk_primary f) in
    let f := set_primary p f in
    match r with
    | Ok plaintext => (Ok plaintext, cacheKey encrypted plaintext f)
    | Err x =>
      let f := markUnavailable now f in
      (fromCache encrypted ("kms/fallback: DecryptDataKey failed and no cached key available: " +:+ x) f, f)
    | Panic x => (Panic x, f)
    end
  else (fromCache encrypted ("kms/fallback: KMS unavailable and no cached key found (mode: " +:+ fk_mode f +:+ ")") f, f).
Definition fb_GetPublicKey (v : k_env) (now : Time) (keyID : string) (f : FallbackKMS) : res bytes * FallbackKMS :=
  if negb (fk_available f)
  then (Err ("kms/fallback: KMS unavailable, cannot get public key (mode: " +:+ fk_mode f +:+ ")"), f)
  else
    let '(r, p) := k_GetPublicKey v keyID (fk_primary f) in
    let f := set_primary p f in
    match r with
    | Ok pub => (Ok pub, f)
    | Err x => (Err ("kms/fallback: GetPublicKey failed: " +:+ x), markUnavailable now f)
    | Panic x => (Panic x, f)
    end.
(** A tick of the health check. *)
Definition checkHealth (v : k_env) (f : FallbackKMS) : res unit * FallbackKMS :=
  if fk_available f then (Ok tt, f)
  else
    let '(r, p) := k_GetPublicKey v "" (fk_primary f) in
    let f := set_primary p f in
    match r with Ok _ => (Ok tt, markAvailable f) | Err _ => (Ok tt, f) | Panic x => (Panic x, f) end.

Inductive kmsCall :=
| CallGenerate (v : k_env) (now : Time) (keyID : string) (len : Z)
| CallDecrypt (v : k_env) (now : Time) (keyID : string) (encrypted : bytes)
| CallPublic (v : k_env) (now : Time) (keyID : string)
| CallHealth (v : k_env).
Definition kms_call (c : kmsCall) (f : FallbackKMS) : FallbackKMS :=
  match c with
  | CallGenerate v now id n => (fb_GenerateDataKey v now id n f).2
  | CallDecrypt v now id e => (fb_DecryptDataKey v now id e f).2
  | CallPublic v now id => (fb_GetPublicKey v now id f).2
  | CallHealth v => (checkHealth v f).2
  end.
Definition kms_calls (l : list kmsCall) (f : FallbackKMS) : FallbackKMS := foldl (flip kms_call) f l.
End Fallback.

(** ** The local client keeps the interface's laws *)

Section LocalFacts.
Context `{CryptoLaws}.

Lemma ECIES_open p v dek l e : lk_curve l = P256 -> lk_publicKey l = (P256, ecPub P256 p) ->
  encryptWithECIES v dek l = Ok e -> eciesOpen P256 p e = Ok dek.
Proof.
  unfold encryptWithECIES, scalarMult. intros Cv Pub. rewrite Cv, Pub. simpl.
  destruct (le_ephemeral v) as [k| |]; simpl; [|done..].
  rewrite aes_NewCipher_32 by apply hkdf_size. simpl.
  destruct (randBuf gcmNonceSize _) as [n| |] eqn:En; simpl; [|done..].
  apply randBuf_length in En. rewrite gcm_Seal_ok by done. simpl. intros [= <-].
  assert (length (ecPub P256 k) = 65%nat) as Hp by apply pub_size. unfold eciesOpen.
  set (c := aes_gcm_seal _ _ _). destruct (ecies_parse (ecPub P256 k) n c Hp En) as (-> & -> & ->).
  rewrite !length_app, Hp, En, pub_on_curve, !decide_False by lia.
  rewrite aes_NewCipher_32 by apply hkdf_size. simpl. unfold c. by rewrite (ecdh_comm P256 p k), gcm_Open_Seal.
Qed.

(** The laws for the pair of a private key. *)
Definition localOk (p : ecPriv) (l : LocalKMS) : Prop :=
  lk_curve l = P256 /\ lk_publicKey l = (P256, ecPub P256 p) /\
  (lk_privateKey l = None \/ lk_privateKey l = Some (P256, p)).
Program Definition localLaws (p : ecPriv) : @KMSLaws localClient :=
  {| k_ok := localOk p; k_valid l e pt := eciesOpen P256 p e = Ok pt |}.
Next Obligation. simpl. intros. congruence. Qed.
Next Obligation.
  simpl. intros p v id n l r l' E Ok. injection E as <- <-. split; [done|]. split; [done|].
  destruct (randBuf _ _) as [dek| |]; simpl; [|done..].
  destruct (encryptWithECIES v dek l) as [e| |] eqn:En; simpl; [|done..].
  destruct Ok as (Cv & Pub & _). by eapply ECIES_open.
Qed.
Next Obligation.
  simpl. intros p v id e0 l r l' E Ok. injection E as <- <-. split; [done|]. split; [done|].
  unfold decryptWithECIES. destruct Ok as (Cv & _ & [->| ->]); [done|]. rewrite Cv.
  by destruct (eciesOpen P256 p e0).
Qed.
Next Obligation. simpl. intros p v id l r l' E Ok. injection E as <- <-. done. Qed.

Lemma NewLocalKMS_ok fs l file : NewLocalKMS fs = (Ok l, file) ->
  exists c p, file = KeyFile c p /\ lk_privateKey l = Some (c, p) /\ (c = P256 -> localOk p l) /\
    ((forall k, lf_priv fs <> KeyFile c k) -> c = P256).
Proof.
  unfold NewLocalKMS. destruct (lf_priv fs) as [| |c p] eqn:Pr.
  1-2: destruct (lf_generate fs) as [p| |]; simpl; [|done..]; destruct (lf_mkdir fs); simpl; [|done..];
    destruct (lf_writePriv fs); simpl; [|done..]; destruct (lf_marshalPub fs _ _); simpl; [|done..];
    destruct (lf_writePub fs); simpl; [|done..]; intros [= <- <-]; exists P256, p; unfold localOk; simpl; auto 10.
  destruct (lf_marshalPub fs _ _); simpl; [|done..]. intros [= <- <-]. exists c, p. split; [done|].
  split; [done|]. split; [|intros N; by destruct (N p)]. intros ->. unfold localOk. simpl. auto.
Qed.
End LocalFacts.

(** ** The cache of the fallback *)

Section FallbackFacts.
Context `{KMSLaws}.

Record fbOk (f : FallbackKMS) : Prop := mkFbOk {
  fb_max : fk_maxCache f = maxCache;
  fb_order : NoDup (fk_cacheOrder f);
  fb_dom : forall e, e ∈ fk_cacheOrder f <-> is_Some (fk_cachedKeys f !! e);
  fb_bound : (length (fk_cacheOrder f) <= maxCache)%nat;
  fb_primary : k_ok (fk_primary f);
  fb_valid : forall e p, fk_cachedKeys f !! e = Some p -> k_valid (fk_primary f) e p }.

Lemma size_order (keys : gmap bytes bytes) order : NoDup order ->
  (forall e, e ∈ order <-> is_Some (keys !! e)) -> size keys = length order.
Proof.
  intros N D. rewrite <- size_dom. replace (dom keys) with (list_to_set order : gset bytes); [by apply size_list_to_set|].
  apply set_eq. intros e. by rewrite elem_of_list_to_set, elem_of_dom, D.
Qed.
Lemma keyEvict_spec max keys order keys' order' : evict max keys order = (keys', order') -> NoDup order ->
  (forall e, e ∈ order <-> is_Some (keys !! e)) -> (0 < max)%nat ->
  (exists gone, order = gone ++ order' /\ (length order < max -> gone = [])%nat /\ (length order <= max -> length gone <= 1)%nat) /\
  (length order' < max)%nat /\ (forall e, e ∈ order' <-> is_Some (keys' !! e)) /\
  (forall e p, keys' !! e = Some p -> keys !! e = Some p) /\
  (forall e, e ∈ order' -> keys' !! e = keys !! e).
Proof.
  revert keys. induction order as [|x order IH]; intros keys E N D M; simpl in E;
    rewrite (size_order _ _ N D) in E; simpl in E.
  - destruct (_ <? _)%nat; injection E as <- <-; (split; [exists []; split; [done|]; simpl; auto with lia|]); done.
  - destruct (S (length order) <? max)%nat eqn:Lt.
    + apply Nat.ltb_lt in Lt. injection E as <- <-. split; [exists []; simpl; auto with lia|]. done.
    + apply Nat.ltb_ge in Lt. apply NoDup_cons in N as [Nx N].
      assert (forall e, e ∈ order <-> is_Some (delete x keys !! e)) as D'.
      { intros e. destruct (decide (e = x)) as [->|Ne].
        - rewrite lookup_delete_eq. split; [done|]. by intros [? ?].
        - rewrite lookup_delete_ne by done. rewrite <- D. set_solver. }
      destruct (IH _ E N D' M) as ((gone & -> & G0 & G1) & L & Dm & Sub & Eq).
      split; [|split; [done|split; [done|split]]].
      * exists (x :: gone). split; [done|]. simpl. rewrite length_app in *. split; [lia|].
        intros B. rewrite G0 by lia. simpl. lia.
      * intros e p K. apply Sub in K. by apply lookup_delete_Some in K as [_ K].
      * intros e I. rewrite Eq by done. apply lookup_delete_ne. intros ->. apply Nx. set_solver.
Qed.

Lemma cacheKey_ok e p f : fbOk f -> k_valid (fk_primary f) e p -> fbOk (cacheKey e p f) /\
  fk_cachedKeys (cacheKey e p f) !! e = Some p.
Proof.
  intros [Mx N D B P V] Vp. unfold cacheKey. destruct (fk_cachedKeys f !! e) as [q|] eqn:Q.
  - split; [|apply lookup_insert_eq]. split; try done; simpl.
    + intros x. rewrite D, lookup_insert_is_Some. split; [destruct (decide (e = x)); tauto|].
      intros [->|[_ ?]]; [|done]. by rewrite Q.
    + intros x y. destruct (decide (x = e)) as [->|Ne]; [rewrite lookup_insert_eq; by intros [= <-]|].
      rewrite lookup_insert_ne by done. apply V.
  - destruct (evict _ _ _) as [keys order] eqn:E.
    destruct (keyEvict_spec _ _ _ _ _ E N D) as ((gone & O & G0 & G1) & L & Dm & Sub & Eq); [rewrite Mx; unfold maxCache; lia|].
    rewrite Mx in *. rewrite O in N. apply NoDup_app in N as (_ & _ & N).
    assert (e ∉ order) as Ne by (intros I; apply Dm in I as [y Y]; apply Sub in Y; congruence).
    split; [|apply lookup_insert_eq]. split; try done; simpl.
    + apply NoDup_app. split; [done|]. split; [set_solver|apply NoDup_singleton].
    + intros x. rewrite elem_of_app, list_elem_of_singleton, Dm, lookup_insert_is_Some.
      destruct (decide (e = x)) as [->|Nx]; [tauto|]. split; [intros [?| ->]; tauto|]. intros [->|[_ ?]]; tauto.
    + rewrite length_app. simpl. lia.
    + intros x y. destruct (decide (x = e)) as [->|Nx]; [rewrite lookup_insert_eq; by intros [= <-]|].
      rewrite lookup_insert_ne by done. intros K. by apply V, Sub.
Qed.

Lemma set_primary_ok p f : fbOk f -> k_ok p -> (forall e q, k_valid (fk_primary f) e q -> k_valid p e q) ->
  fbOk (set_primary p f).
Proof. intros [Mx N D B P V] K Mono. split; try done. simpl. intros e q L. by apply Mono, V. Qed.
Lemma markUnavailable_ok now f : fbOk f -> fbOk (markUnavailable now f) /\
  fk_primary (markUnavailable now f) = fk_primary f /\ fk_cacheOrder (markUnavailable now f) = fk_cacheOrder f.
Proof. unfold markUnavailable. intros [Mx N D B P V]. by destruct (fk_available f). Qed.
Lemma markAvailable_ok f : fbOk f -> fbOk (markAvailable f) /\
  fk_primary (markAvailable f) = fk_primary f /\ fk_cacheOrder (markAvailable f) = fk_cacheOrder f.
Proof. unfold markAvailable. intros [Mx N D B P V]. by destruct (fk_available f). Qed.
Lemma cacheKey_primary e p f : fk_primary (cacheKey e p f) = fk_primary f.
Proof. unfold cacheKey. destruct (_ !! _); [done|]. by destruct (evict _ _ _). Qed.

(** An entry with at most [n] younger ones. *)
Definition younger (n : nat) (e : bytes) (f : FallbackKMS) : Prop :=
  exists pre post, fk_cacheOrder f = pre ++ e :: post /\ (length post <= n)%nat.
Lemma younger_S n e f f' : fk_cacheOrder f' = fk_cacheOrder f -> younger n e f -> younger (S n) e f'.
Proof. intros E (pre & post & O & L). exists pre, post. rewrite E. auto with lia. Qed.
Lemma cacheKey_younger n e x p f : fbOk f -> (S n < maxCache)%nat -> younger n e f -> younger (S n) e (cacheKey x p f).
Proof.
  intros [Mx N D B P V] Lt (pre & post & O & L). unfold cacheKey. destruct (_ !! x).
  - exists pre, post. auto with lia.
  - destruct (evict _ _ _) as [keys order] eqn:E.
    destruct (keyEvict_spec _ _ _ _ _ E N D) as ((gone & O' & G0 & G1) & Lo & _); [rewrite Mx; unfold maxCache; lia|].
    rewrite Mx in *. specialize (G1 B). simpl. assert (exists pre', order = pre' ++ e :: post) as [pre' ->].
    { destruct gone as [|g gone]; [by exists pre; rewrite <- O|]. destruct gone; [|simpl in G1; lia].
      rewrite O in O'. destruct pre as [|a pre].
      - simpl in O'. injection O' as _ O'. subst order. destruct (decide (length (fk_cacheOrder f) < maxCache)%nat) as [Sm|Bg].
        + by apply G0 in Sm.
        + rewrite O in Bg. simpl in Bg. lia.
      - simpl in O'. injection O' as _ <-. by exists pre. }
    exists pre', (post ++ [x]). rewrite <- app_assoc. split; [done|]. rewrite length_app. simpl. lia.
Qed.

(** What one call keeps, and what its answer is. *)
Definition keeps (f f' : FallbackKMS) : Prop :=
  fbOk f' /\ (forall e p, k_valid (fk_primary f) e p -> k_valid (fk_primary f') e p) /\
  (forall n e, (S n < maxCache)%nat -> younger n e f -> younger (S n) e f').
Lemma fb_keeps_same f : fbOk f -> keeps f f.
Proof. split; [done|]. split; [done|]. intros. by eapply younger_S. Qed.
Lemma keeps_primary p f : fbOk f -> k_ok p -> (forall e q, k_valid (fk_primary f) e q -> k_valid p e q) ->
  keeps f (set_primary p f).
Proof. intros. split; [by apply set_primary_ok|]. split; [done|]. intros. by eapply younger_S. Qed.
Lemma keeps_unavailable now p f : fbOk f -> k_ok p -> (forall e q, k_valid (fk_primary f) e q -> k_valid p e q) ->
  keeps f (markUnavailable now (set_primary p f)).
Proof.
  intros O K M. destruct (markUnavailable_ok now _ (set_primary_ok p f O K M)) as (A & B & C).
  split; [done|]. rewrite B. split; [done|]. intros. by eapply younger_S.
Qed.
Lemma keeps_cache e0 p0 p f : fbOk f -> k_ok p -> (forall e q, k_valid (fk_primary f) e q -> k_valid p e q) ->
  k_valid p e0 p0 -> keeps f (cacheKey e0 p0 (set_primary p f)).
Proof.
  intros O K M V. pose proof (set_primary_ok p f O K M) as O'. split; [by apply cacheKey_ok|].
  rewrite cacheKey_primary. split; [done|]. intros. by apply cacheKey_younger.
Qed.

Lemma generate_keeps v now id n f r f' : fb_GenerateDataKey v now id n f = (r, f') -> fbOk f ->
  keeps f f' /\ forall p e, r = Ok (p, e) -> fk_available f = true /\ k_valid (fk_primary f') e p /\
    (lookupCachedKey e f = None -> younger 0 e f').
Proof.
  unfold fb_GenerateDataKey. destruct (fk_available f) eqn:A; simpl.
  - destruct (k_GenerateDataKey v id n (fk_primary f)) as [r0 p] eqn:E. intros Eq O.
    destruct (k_generate _ _ _ _ _ _ E (fb_primary _ O)) as (K & M & R).
    destruct r0 as [[pt e]|x|x]; injection Eq as <- <-; (split; [|done || intros ? ? [= <- <-]]).
    + by apply keeps_cache.
    + split; [done|]. rewrite cacheKey_primary. split; [done|]. unfold lookupCachedKey, cacheKey. simpl. intros ->.
      destruct (evict _ _ _) as [keys order]. by exists order, [].
    + by apply keeps_unavailable.
    + by apply keeps_primary.
  - intros [= <- <-] O. split; [by apply fb_keeps_same|done].
Qed.
Lemma fromCache_ok e x f p : fbOk f -> fromCache e x f = Ok p -> k_valid (fk_primary f) e p.
Proof.
  unfold fromCache, lookupCachedKey. intros O. destruct (fk_cachedKeys f !! e) eqn:L; [|done]. intros [= <-].
  by apply (fb_valid _ O).
Qed.
Lemma decrypt_keeps v now id e f r f' : fb_DecryptDataKey v now id e f = (r, f') -> fbOk f ->
  keeps f f' /\ forall p, r = Ok p -> k_valid (fk_primary f') e p.
Proof.
  unfold fb_DecryptDataKey. destruct (fk_available f) eqn:A; simpl.
  - destruct (k_DecryptDataKey v id e (fk_primary f)) as [r0 p] eqn:E. intros Eq O.
    destruct (k_decrypt _ _ _ _ _ _ E (fb_primary _ O)) as (K & M & R).
    destruct r0 as [pt|x|x]; injection Eq as <- <-.
    + split; [by apply keeps_cache|]. rewrite cacheKey_primary. by intros ? [= <-].
    + pose proof (keeps_unavailable now p f O K M) as Kp. split; [done|]. intros pt F. by eapply fromCache_ok; [apply Kp|].
    + split; [by apply keeps_primary|done].
  - intros [= <- <-] O. split; [by apply fb_keeps_same|]. intros p F. by eapply fromCache_ok.
Qed.
Lemma public_keeps v now id f : fbOk f -> keeps f (fb_GetPublicKey v now id f).2.
Proof.
  unfold fb_GetPublicKey. intros O. destruct (fk_available f); simpl; [|by apply fb_keeps_same].
  destruct (k_GetPublicKey v id (fk_primary f)) as [r p] eqn:E.
  destruct (k_public _ _ _ _ _ E (fb_primary _ O)) as (K & M).
  destruct r; simpl; [by apply keeps_primary|by apply keeps_unavailable|by apply keeps_primary].
Qed.
Lemma health_keeps v f : fbOk f -> keeps f (checkHealth v f).2.
Proof.
  unfold checkHealth. intros O. destruct (fk_available f); simpl; [by apply fb_keeps_same|].
  destruct (k_GetPublicKey v "" (fk_primary f)) as [r p] eqn:E.
  destruct (k_public _ _ _ _ _ E (fb_primary _ O)) as (K & M).
  destruct r; simpl; [|by apply keeps_primary|by apply keeps_primary].
  destruct (markAvailable_ok _ (set_primary_ok p f O K M)) as (A & B & C).
  split; [done|]. rewrite B. split; [done|]. intros. by eapply younger_S.
Qed.
Lemma kms_call_keeps c f : fbOk f -> keeps f (kms_call c f).
Proof.
  intros O. destruct c; simpl.
  - destruct (fb_GenerateDataKey v now keyID len f) eqn:E. by eapply generate_keeps.
  - destruct (fb_DecryptDataKey v now keyID encrypted f) eqn:E. by eapply decrypt_keeps.
  - by apply public_keeps.
  - by apply health_keeps.
Qed.
Lemma kms_calls_keep l : forall f, fbOk f -> fbOk (kms_calls l f) /\
  (forall e p, k_valid (fk_primary f) e p -> k_valid (fk_primary (kms_calls l f)) e p) /\
  (forall n e, (n + length l < maxCache)%nat -> younger n e f -> younger (n + length l) e (kms_calls l f)).
Proof.
  induction l as [|c l IH]; intros f O; simpl.
  - split; [done|]. split; [done|]. intros n e _. by rewrite Nat.add_0_r.
  - destruct (kms_call_keeps c f O) as (O' & M & Y). destruct (IH _ O') as (O2 & M2 & Y2).
    split; [done|]. split; [auto|]. intros n e Lt Yn. rewrite Nat.add_succ_r in *. apply (Y2 (S n)); [lia|].
    apply Y; [unfold maxCache in *; lia|done].
Qed.
Lemma NewFallbackKMS_ok p mode f : NewFallbackKMS (Some p) mode = Ok f -> k_ok p -> fbOk f.
Proof.
  intros [= <-] K. split; simpl; try done; [constructor| |unfold maxCache; lia].
  intros e. rewrite lookup_empty. split; [by intros ?%elem_of_nil|by intros [? ?]].
Qed.

(** C12: A data key is only ever decrypted to itself: whatever calls and health
    checks come in between, once a fallback over a client that keeps the
    interface's laws has generated a key, a decryption of its encrypted form
    that succeeds, from the primary or from the cache, gives that key. *)
Theorem fallback_decrypts_to_the_key p mode f0 l1 v now id n f pt e l2 v' now' id' pt' f' :
  NewFallbackKMS (Some p) mode = Ok f0 -> k_ok p ->
  fb_GenerateDataKey v now id n (kms_calls l1 f0) = (Ok (pt, e), f) ->
  fb_DecryptDataKey v' now' id' e (kms_calls l2 f) = (Ok pt', f') -> pt' = pt.
Proof.
  intros N K G D. pose proof (NewFallbackKMS_ok _ _ _ N K) as O0.
  destruct (generate_keeps _ _ _ _ _ _ _ G (proj1 (kms_calls_keep l1 _ O0))) as ((O & _) & A).
  destruct (A _ _ eq_refl) as (_ & V & _). destruct (kms_calls_keep l2 _ O) as (O2 & M & _).
  destruct (decrypt_keeps _ _ _ _ _ _ _ D O2) as ((_ & M' & _) & V').
  eapply k_functional; [by apply V'|]. by apply M', M.
Qed.

(** C17: An outage does not lose recent keys: a new data key is decrypted from
    the cache, without a call of the primary, through any outage in which fewer
    than a thousand calls have been made since it was generated; while the
    manager is unavailable no key is generated and no primary is asked. *)
Theorem recent_keys_survive_outage p mode f0 l1 v now id n f pt e l2 v' now' id' :
  NewFallbackKMS (Some p) mode = Ok f0 -> k_ok p -> lookupCachedKey e (kms_calls l1 f0) = None ->
  fb_GenerateDataKey v now id n (kms_calls l1 f0) = (Ok (pt, e), f) -> (length l2 < 1000)%nat ->
  fk_available (kms_calls l2 f) = false ->
  fb_DecryptDataKey v' now' id' e (kms_calls l2 f) = (Ok pt, kms_calls l2 f) /\
  (forall v now id n, exists x, fb_GenerateDataKey v now id n (kms_calls l2 f) = (Err x, kms_calls l2 f)).
Proof.
  intros N K New G L Down. pose proof (NewFallbackKMS_ok _ _ _ N K) as O0.
  destruct (generate_keeps _ _ _ _ _ _ _ G (proj1 (kms_calls_keep l1 _ O0))) as ((O & _) & A).
  destruct (A _ _ eq_refl) as (_ & V & Y). destruct (kms_calls_keep l2 _ O) as (O2 & M & Y2).
  destruct (Y2 0%nat e L (Y New)) as (pre & post & Or & _).
  assert (is_Some (fk_cachedKeys (kms_calls l2 f) !! e)) as [q Q] by (apply (fb_dom _ O2); rewrite Or; set_solver).
  assert (q = pt) as -> by (eapply k_functional; [by apply (fb_valid _ O2)|by apply M]).
  unfold fb_DecryptDataKey, fb_GenerateDataKey, fromCache, lookupCachedKey. rewrite Down, Q. split; [done|]. simpl. eauto.
Qed.

(** The fallback's memory is bounded, and its order of eviction lists what
    is cached: after any calls at most a thousand keys, each once. *)
Theorem fallback_cache_bounded p mode f0 l : NewFallbackKMS (Some p) mode = Ok f0 -> k_ok p ->
  (size (fk_cachedKeys (kms_calls l f0)) <= 1000)%nat /\ NoDup (fk_cacheOrder (kms_calls l f0)) /\
  forall e, e ∈ fk_cacheOrder (kms_calls l f0) <-> is_Some (fk_cachedKeys (kms_calls l f0) !! e).
Proof.
  intros N K. destruct (kms_calls_keep l _ (NewFallbackKMS_ok _ _ _ N K)) as ([Mx Nd D B P V] & _).
  rewrite (size_order _ _ Nd D). done.
Qed.
End FallbackFacts.

(** ** Concrete runs, over the local manager *)

Module KmsDemo.
#[local] Existing Instance ToyCrypto.toy.
#[local] Existing Instance ToyCrypto.toy_laws.
#[local] Existing Instance localClient.

Definition env : LocalEnv := mkLocalEnv (Ok [1; 2; 3]) (Ok 5) (Ok [9]).
Definition files (k : keyFile) : LocalFiles :=
  mkLocalFiles k (Ok 7) (Ok tt) (Ok tt) (Ok tt) (fun _ pub => Ok (48 :: pub)).
Definition local : LocalKMS := mkLocal (Some (P256, 7)) (P256, ecPub P256 7) (48 :: ecPub P256 7) P256.
Definition fallback : FallbackKMS := mkFallback local "reject_writes" true ∅ [] maxCache 0.
Definition generated := fb_GenerateDataKey env 1 "k" 4 fallback.
Definition encrypted : bytes := match generated.1 with Ok (_, e) => e | _ => [] end.

Example a_new_pair : NewLocalKMS (files NoKeyFile) = (Ok local, KeyFile P256 7).
Proof. vm_compute. reflexivity. Qed.
(** A file that does not parse is replaced: what was wrapped under its key is
    out of reach. *)
Example a_bad_file_is_replaced : (NewLocalKMS (files BadKeyFile)).2 = KeyFile P256 7.
Proof. vm_compute. reflexivity. Qed.
(** A P-384 key loads, and the first data key panics. *)
Example another_curve_panics :
  match (NewLocalKMS (files (KeyFile P384 7))).1 with
  | Ok l => match (local_GenerateDataKey env "k" 4 l).1 with Panic _ => true | _ => false end
  | _ => false end = true.
Proof. vm_compute. reflexivity. Qed.
(** One ciphertext that cannot be opened marks the manager unavailable: the
    next write is refused until a health check. *)
Definition badCall : list (@kmsCall (@localClient ToyCrypto.toy)) := [CallDecrypt (env : k_env) 5 "k" [1; 2]].
Definition confused := kms_calls badCall generated.2.
Example bad_ciphertext_stops_writes : fk_available confused = false /\
  is_err (fb_GenerateDataKey env 6 "k" 4 confused).1 = true /\
  is_ok (fb_GenerateDataKey env 6 "k" 4 (kms_calls [CallHealth env] confused)).1 = true.
Proof. vm_compute. done. Qed.

Definition laws : @KMSLaws (@localClient ToyCrypto.toy) := @localLaws ToyCrypto.toy ToyCrypto.toy_laws 7.
Lemma local_ok : @k_ok _ laws local.
Proof. by repeat split; right. Qed.
Lemma fallback_decrypts_to_the_key_witness :
  (fb_DecryptDataKey env 9 "k" encrypted confused).1 = Ok [1; 2; 3; 0] /\ [1; 2; 3; 0] = [1; 2; 3; 0].
Proof.
  split; [vm_compute; reflexivity|].
  apply (@fallback_decrypts_to_the_key localClient laws local "" fallback [] env 1 "k" 4 generated.2 [1; 2; 3; 0] encrypted
    badCall env 9 "k" [1; 2; 3; 0] confused);
    [vm_compute; reflexivity|exact local_ok|vm_compute; reflexivity|vm_compute; reflexivity].
Defined.
Lemma recent_keys_survive_outage_witness :
  fb_DecryptDataKey env 9 "k" encrypted confused = (Ok [1; 2; 3; 0], confused).
Proof.
  apply (@recent_keys_survive_outage localClient laws local "" fallback [] env 1 "k" 4 generated.2 [1; 2; 3; 0] encrypted
    badCall env 9 "k");
    [vm_compute; reflexivity|exact local_ok|vm_compute; reflexivity|vm_compute; reflexivity|simpl; lia|vm_compute; reflexivity].
Defined.
Lemma fallback_cache_bounded_witness :
  (size (fk_cachedKeys (kms_calls badCall fallback)) <= 1000)%nat.
Proof.
  apply (@fallback_cache_bounded localClient laws local "" fallback badCall);
    [vm_compute; reflexivity|exact local_ok].
Defined.
End KmsDemo.
