(* ===== verification/Tiering.v ===== *)
(** * Tiering (internal/tiering/manager.go)

    The history of accesses, the score of an object on IEEE doubles, decisions,
    and migrations: calls of ExecuteMigrations whose workers run concurrently,
    as a step function over the set of keys being migrated.  The store behind it
    is the class TierStore, implemented by the tiered store of Storage. *)

From S2P Require Import Prelude GoStrings GoFloat GoJson Bolt Integrity MetadataStore Storage.
From Stdlib Require Import Ascii String SpecFloat.
From stdpp Require Import base list strings gmap.

#[local] Open Scope Z_scope.

(** ** The score *)

Definition Hour : Duration := 60 * Minute.
(** [Duration.Hours]. *)
Definition Hours (d : Duration) : float64 :=
  fadd (fofZ (Z.quot d Hour)) (fdiv (fofZ (Z.rem d Hour)) (fofZ 3600000000000)).
Definition isNaN (x : float64) : bool := match x with S754_nan => true | _ => false end.
Definition signbit (x : float64) : bool :=
  match x with S754_zero s | S754_infinity s | S754_finite s _ _ => s | S754_nan => false end.
Definition isInf (neg : bool) (x : float64) : bool :=
  match x with S754_infinity s => Bool.eqb s neg | _ => false end.
(** [math.Min] and [math.Max]. *)
Definition math_Min (x y : float64) : float64 :=
  if isInf true x || isInf true y then S754_infinity true
  else if isNaN x || isNaN y then S754_nan
  else if SFeqb x (fofZ 0) && SFeqb x y then (if signbit x then x else y)
  else if SFltb x y then x else y.
Definition math_Max (x y : float64) : float64 :=
  if isInf false x || isInf false y then S754_infinity false
  else if isNaN x || isNaN y then S754_nan
  else if SFeqb x (fofZ 0) && SFeqb x y then (if signbit x then y else x)
  else if fgt x y then x else y.
(** A decimal constant [n/10]: correctly rounded, as the compiler does. *)
Definition tenths (n : Z) : float64 := fdiv (fofZ n) (fofZ 10).

(** [math.Log], [math.Exp] and the text of a score ([%.2f]). *)
Class TierMath := { tm_Log : float64 -> float64; tm_Exp : float64 -> float64; tm_text : float64 -> string }.

Record AccessHistory := mkHistory {
  ah_ObjectKey : string; ah_Bucket : string; ah_AccessTimes : list Time; ah_AccessTypes : list string;
  ah_UserIDs : list string; ah_LastAccess : Time; ah_TotalAccesses : Z; ah_PriorityWeight : Z; ah_FixedTier : bool }.
Definition newHistory (bkt key : string) : AccessHistory := mkHistory key bkt [] [] [] 0 0 0 false.

Section Score.
Context `{TierMath}.

Record TierDecisionModel := mkModel {
  dm_decayHalfLife : Duration; dm_access_frequency : float64; dm_recent_access : float64; dm_content_type : float64;
  dm_size : float64; dm_priority : float64 }.
Definition NewTierDecisionModel : TierDecisionModel :=
  mkModel (7 * 24 * Hour) (tenths 4) (tenths 3) (tenths 1) (tenths (-1)) (tenths 1).

Definition calculateFrequencyScore (now : Time) (h : AccessHistory) (m : TierDecisionModel) : float64 :=
  match ah_AccessTimes h with
  | [] => fofZ 0
  | times =>
    let decayFactor := fdiv (tm_Log (fofZ 2)) (Seconds (dm_decayHalfLife m)) in
    let score := foldl (fun score t => fadd score (tm_Exp (fmul (SFopp decayFactor) (Seconds (Sub now t))))) (fofZ 0) times in
    math_Min (fofZ 100) (fdiv score (fofZ 10))
  end.
Definition calculateRecentScore (h : AccessHistory) (now : Time) : float64 :=
  if IsZero (ah_LastAccess h) then fofZ 0
  else
    let hours := Hours (Sub now (ah_LastAccess h)) in
    fofZ (if SFltb hours (fofZ 1) then 100 else if SFltb hours (fofZ 24) then 80
          else if SFltb hours (fofZ 168) then 50 else if SFltb hours (fofZ 720) then 20 else 0).
Definition calculateContentScore (md : CommonMetadata) : float64 :=
  let contentType := cm_ContentType md in
  fofZ (if bool_decide (contentType = ""%string) then 50
        else if HasPrefix contentType "image" then 80
        else if HasPrefix contentType "video" then 60
        else if HasPrefix contentType "text" then 70 else 50).
Definition calculateSizeScore (md : CommonMetadata) : float64 :=
  let size := cm_Size md in
  fofZ (if size <? 1024 * 1024 then 80 else if size <? 100 * 1024 * 1024 then 60
        else if size <? 1024 * 1024 * 1024 then 40 else 20).
Definition calculatePriorityScore (h : AccessHistory) : float64 := fofZ (ah_PriorityWeight h).
(** The weighted sum, clamped. *)
Definition totalScore (frequency recent content size priority : float64) (m : TierDecisionModel) : float64 :=
  math_Max (fofZ 0) (math_Min (fofZ 100)
    (fadd (fadd (fadd (fadd (fmul frequency (dm_access_frequency m)) (fmul recent (dm_recent_access m)))
                      (fmul content (dm_content_type m))) (fmul size (dm_size m))) (fmul priority (dm_priority m)))).
(** The clock is read twice. *)
Definition CalculateHotnessScore (now now2 : Time) (h : AccessHistory) (md : CommonMetadata) (m : TierDecisionModel)
  : float64 :=
  totalScore (calculateFrequencyScore now2 h m) (calculateRecentScore h now) (calculateContentScore md)
    (calculateSizeScore md) (calculatePriorityScore h) m.
Definition scoreToTier (score : float64) : StorageTier :=
  if fgt score (fofZ 80) then TierHot else if fgt score (fofZ 60) then TierWarm
  else if fgt score (fofZ 20) then TierCold else TierArchive.
End Score.

(** ** The manager *)

(** The part of the tiered store the manager calls; [ts_io] is what the outside
    does to a migration. *)
Class TierStore := {
  ts_store : Type;
  ts_io : Type;
  tier_Head : string -> string -> ts_store -> res CommonMetadata;
  tier_Migrate : ts_io -> string -> string -> StorageTier -> StorageTier -> ts_store -> ts_store * res unit;
}.
#[export] Instance tieredObjectStore {B} `{BackendStorage B} `{Bolt} `{AnyJson} `{MetaText} : TierStore := {|
  ts_store := TieredObjectStore B * option MetadataStore;
  ts_io := backendIO * backendIO * ioFail * metaIO;
  tier_Head bkt key s := ts_Head bkt key s.2;
  tier_Migrate io bkt key from to s :=
    let '(ioFrom, ioTo, closed, mio) := io in
    let '(t, meta, r) := ts_Migrate ioFrom ioTo closed mio bkt key from to s.1 s.2 in ((t, meta), r) |}.

Record HotspotDetection := mkHotspot {
  hs_Prefix : string; hs_Bucket : string; hs_AccessCount : Z; hs_BaselineAccess : Z; hs_DetectedAt : Time;
  hs_IsHotspot : bool }.
Record TieringConfig := mkTieringConfig { tc_Enabled : bool; tc_MigrationWorkers : Z; tc_CheckInterval : Duration; tc_HotMaxSize : Z }.
Definition defaultTieringConfig : TieringConfig := mkTieringConfig true 10 (6 * Hour) (Z.shiftl 32 30).
Record TierDecision := mkDecision {
  td_ObjectKey : string; td_Bucket : string; td_CurrentTier : StorageTier; td_TargetTier : StorageTier;
  td_HotnessScore : float64; td_Reason : string; td_MigratedAt : Time }.
Definition decisionKey (d : TierDecision) : string := td_Bucket d +:+ "/" +:+ td_ObjectKey d.

Section Manager.
Context `{TierMath, TierStore}.

(** One of a call's workers: it migrates a decision, or has sent the result and
    not yet removed the key. *)
Inductive migrating := Running (d : TierDecision) | Reported (d : TierDecision).
Definition decisionOf (x : migrating) : TierDecision := match x with Running d | Reported d => d end.
(** A call of ExecuteMigrations: what it claimed, the channel, the workers, the
    results. *)
Record execCall := mkExec {
  ec_claimed : list TierDecision; ec_queue : list TierDecision; ec_workers : list (option migrating);
  ec_results : list (res unit); ec_returned : option (res unit) }.
Record TieringManager := mkManager {
  tg_store : ts_store; tg_model : TierDecisionModel; tg_accessHistories : gmap string AccessHistory;
  tg_hotspots : gmap string HotspotDetection; tg_config : TieringConfig; tg_migrating : gset string;
  tg_calls : list execCall }.
Definition NewTieringManager (store : ts_store) (config : option TieringConfig) : TieringManager :=
  mkManager store NewTierDecisionModel ∅ ∅ (default defaultTieringConfig config) ∅ [].
Definition set_histories hs m := mkManager (tg_store m) (tg_model m) hs (tg_hotspots m) (tg_config m) (tg_migrating m) (tg_calls m).
Definition set_hotspots hs m := mkManager (tg_store m) (tg_model m) (tg_accessHistories m) hs (tg_config m) (tg_migrating m) (tg_calls m).
Definition set_store s m := mkManager s (tg_model m) (tg_accessHistories m) (tg_hotspots m) (tg_config m) (tg_migrating m) (tg_calls m).
Definition set_calls mg cs m := mkManager (tg_store m) (tg_model m) (tg_accessHistories m) (tg_hotspots m) (tg_config m) mg cs.

Definition lastN {A} (n : nat) (l : list A) : list A := drop (length l - n) l.
Definition trimHistory (h : AccessHistory) : AccessHistory :=
  if (1000 <? length (ah_AccessTimes h))%nat
  then mkHistory (ah_ObjectKey h) (ah_Bucket h) (lastN 1000 (ah_AccessTimes h)) (lastN 1000 (ah_AccessTypes h))
         (lastN 1000 (ah_UserIDs h)) (ah_LastAccess h) (ah_TotalAccesses h) (ah_PriorityWeight h) (ah_FixedTier h)
  else h.
Definition addAccess (now : Time) (accessType userID : string) (h : AccessHistory) : AccessHistory :=
  trimHistory (mkHistory (ah_ObjectKey h) (ah_Bucket h) (ah_AccessTimes h ++ [now]) (ah_AccessTypes h ++ [accessType])
    (ah_UserIDs h ++ [userID]) now (wrap64 (ah_TotalAccesses h + 1)) (ah_PriorityWeight h) (ah_FixedTier h)).
Definition updateHotspotDetection (now : Time) (bkt prefix : string) (m : TieringManager) : TieringManager :=
  let hotspotKey := bkt +:+ "/" +:+ prefix in
  let hs := default (mkHotspot prefix bkt 0 1 now false) (tg_hotspots m !! hotspotKey) in
  let count := wrap64 (hs_AccessCount hs + 1) in
  let windowStart := Prelude.Add now (- (10 * Minute)) in
  let recent := match tg_accessHistories m !! hotspotKey with
                | Some h => Z.of_nat (length (filter (fun t => After t windowStart = true) (ah_AccessTimes h)))
                | None => 0 end in
  let hot := (wrap64 (hs_BaselineAccess hs * 5) <? recent) && (10 <? recent) in
  set_hotspots (<[hotspotKey := mkHotspot (hs_Prefix hs) (hs_Bucket hs) count (hs_BaselineAccess hs)
                                  (if hot then now else hs_DetectedAt hs) (hot || hs_IsHotspot hs)]> (tg_hotspots m)) m.
(** The clock is read once for the access and once for the hotspot. *)
Definition RecordAccess (now now2 : Time) (bkt key accessType userID : string) (m : TieringManager) : TieringManager :=
  let historyKey := bkt +:+ "/" +:+ key in
  let h := default (newHistory bkt key) (tg_accessHistories m !! historyKey) in
  updateHotspotDetection now2 bkt key
    (set_histories (<[historyKey := addAccess now accessType userID h]> (tg_accessHistories m)) m).
Definition GetHotspots (order : list string) (m : TieringManager) : list HotspotDetection :=
  filter (fun h => hs_IsHotspot h = true) (omap (fun k => tg_hotspots m !! k) order).
Definition GetHotspotPrefetchCandidates (order : list string) (m : TieringManager) : list string :=
  (fun h => hs_Bucket h +:+ "/" +:+ hs_Prefix h) <$> GetHotspots order m.
Definition GetAccessHistory (bkt key : string) (m : TieringManager) : option AccessHistory :=
  tg_accessHistories m !! (bkt +:+ "/" +:+ key).

(** The decision for an object whose metadata was read; [clock] gives the three
    readings of the clock. *)
Definition decide1 (clock : string -> Time * Time * Time) (m : TieringManager) (obj : CommonMetadata) : option TierDecision :=
  let historyKey := cm_Bucket obj +:+ "/" +:+ cm_Key obj in
  let h := default (newHistory (cm_Bucket obj) (cm_Key obj)) (tg_accessHistories m !! historyKey) in
  let '(now, now2, now3) := clock historyKey in
  if ah_FixedTier h then None
  else
    let score := CalculateHotnessScore now now2 h obj (tg_model m) in
    let targetTier := scoreToTier score in
    if targetTier =? cm_StorageTier obj then None
    else Some (mkDecision (cm_Key obj) (cm_Bucket obj) (cm_StorageTier obj) targetTier score
                 ("score " +:+ tm_text score +:+ " warrants migration from " +:+ tierString (cm_StorageTier obj) +:+
                  " to " +:+ tierString targetTier) now3).
(** [order] is the order of the map, [sorted] what [sort.Slice] leaves. *)
Definition RunTieringDecision (order : list string) (sorted : list CommonMetadata -> list CommonMetadata)
    (clock : string -> Time * Time * Time) (m : TieringManager) : list TierDecision :=
  let objects := omap (fun k => h ← tg_accessHistories m !! k;
                                match tier_Head (ah_Bucket h) (ah_ObjectKey h) (tg_store m) with
                                | Ok md => Some md | _ => None end) order in
  omap (decide1 clock m) (sorted objects).

Definition SetFixedTier (io : ts_io) (bkt key : string) (fixed : bool) (tier : option StorageTier) (m : TieringManager)
  : TieringManager * res unit :=
  let historyKey := bkt +:+ "/" +:+ key in
  let h := default (newHistory bkt key) (tg_accessHistories m !! historyKey) in
  let h := mkHistory (ah_ObjectKey h) (ah_Bucket h) (ah_AccessTimes h) (ah_AccessTypes h) (ah_UserIDs h)
             (ah_LastAccess h) (ah_TotalAccesses h) (ah_PriorityWeight h) fixed in
  let m := set_histories (<[historyKey := h]> (tg_accessHistories m)) m in
  match fixed, tier with
  | true, Some tier =>
    match tier_Head bkt key (tg_store m) with
    | Ok md =>
      if cm_StorageTier md =? tier then (m, Ok tt)
      else let '(s, r) := tier_Migrate io bkt key (cm_StorageTier md) tier (tg_store m) in (set_store s m, r)
    | Err x => (m, Err x)
    | Panic x => (m, Panic x)
    end
  | _, _ => (m, Ok tt)
  end.

(** ** Migrations *)

(** The loop that claims: keys already there are skipped. *)
Fixpoint claim (mg : gset string) (decisions : list TierDecision) : gset string * list TierDecision :=
  match decisions with
  | [] => (mg, [])
  | d :: rest =>
    if decide (decisionKey d ∈ mg) then claim mg rest
    else let '(mg, l) := claim ({[decisionKey d]} ∪ mg) rest in (mg, d :: l)
  end.
Definition joinErrors (results : list (res unit)) : res unit :=
  match filter (fun r => is_ok r = false) results with
  | [] => Ok tt
  | errs => Err ("migration errors: [" +:+
                 String.concat " " ((fun r => match r with Err x | Panic x => x | _ => "" end) <$> errs) +:+ "]")
  end.

Inductive tierStep :=
| ExecuteCalled (decisions : list TierDecision)
| MigratorTakes (c w : nat)
| MigratorReports (c w : nat) (io : ts_io)
| MigratorReleases (c w : nat)
| ExecuteReturns (c : nat).

Definition set_worker (w : nat) (x : option migrating) (c : execCall) : execCall :=
  mkExec (ec_claimed c) (ec_queue c) (<[w := x]> (ec_workers c)) (ec_results c) (ec_returned c).
Definition tier_step (s : tierStep) (m : TieringManager) : option TieringManager :=
  match s with
  | ExecuteCalled decisions =>
    match decisions with
    | [] => Some m
    | _ =>
      let '(mg, claimed) := claim (tg_migrating m) decisions in
      let n := if tc_MigrationWorkers (tg_config m) <=? 0 then 10 else tc_MigrationWorkers (tg_config m) in
      Some (set_calls mg (tg_calls m ++ [mkExec claimed claimed (repeat None (Z.to_nat n)) [] None]) m)
    end
  | MigratorTakes c w =>
    call ← tg_calls m !! c;
    worker ← ec_workers call !! w;
    match worker, ec_queue call with
    | None, d :: rest =>
      let call := mkExec (ec_claimed call) rest (<[w := Some (Running d)]> (ec_workers call)) (ec_results call) (ec_returned call) in
      Some (set_calls (tg_migrating m) (<[c := call]> (tg_calls m)) m)
    | _, _ => None
    end
  | MigratorReports c w io =>
    call ← tg_calls m !! c;
    worker ← ec_workers call !! w;
    match worker with
    | Some (Running d) =>
      let '(st, r) := tier_Migrate io (td_Bucket d) (td_ObjectKey d) (td_CurrentTier d) (td_TargetTier d) (tg_store m) in
      let call := mkExec (ec_claimed call) (ec_queue call) (<[w := Some (Reported d)]> (ec_workers call))
                    (ec_results call ++ [r]) (ec_returned call) in
      match r with
      | Panic _ => None
      | _ => Some (set_calls (tg_migrating m) (<[c := call]> (tg_calls m)) (set_store st m))
      end
    | _ => None
    end
  | MigratorReleases c w =>
    call ← tg_calls m !! c;
    worker ← ec_workers call !! w;
    match worker with
    | Some (Reported d) =>
      Some (set_calls (tg_migrating m ∖ {[decisionKey d]}) (<[c := set_worker w None call]> (tg_calls m)) m)
    | _ => None
    end
  | ExecuteReturns c =>
    call ← tg_calls m !! c;
    match ec_queue call, ec_returned call with
    | [], None =>
      if forallb (fun w => match w with None => true | _ => false end) (ec_workers call)
      then Some (set_calls (tg_migrating m)
                  (<[c := mkExec (ec_claimed call) [] (ec_workers call) (ec_results call) (Some (joinErrors (ec_results call)))]>
                     (tg_calls m)) m)
      else None
    | _, _ => None
    end
  end.
Fixpoint tier_run (l : list tierStep) (m : TieringManager) : option TieringManager :=
  match l with [] => Some m | s :: l => m ← tier_step s m; tier_run l m end.
End Manager.

(** ** Facts *)

Section TierFacts.
Context `{TierMath, TierStore}.

(** The decisions a call has claimed and not released. *)
Definition workingOf (ws : list (option migrating)) : list TierDecision := ws ≫= (fun w => decisionOf <$> option_list w).
Definition runningOf (ws : list (option migrating)) : list TierDecision :=
  ws ≫= (fun w => match w with Some (Running d) => [d] | _ => [] end).
Definition outstanding (c : execCall) : list TierDecision := ec_queue c ++ workingOf (ec_workers c).

Record callOk (c : execCall) : Prop := mkCallOk {
  co_count : length (ec_claimed c) = (length (ec_results c) + length (ec_queue c) + length (runningOf (ec_workers c)))%nat;
  co_returned : forall r, ec_returned c = Some r ->
    ec_queue c = [] /\ Forall (fun w => w = None) (ec_workers c) /\ r = joinErrors (ec_results c) }.
Definition heldKeys (calls : list execCall) : list string := decisionKey <$> (calls ≫= outstanding).
Record tierOk (m : TieringManager) : Prop := mkTierOk {
  to_keys : NoDup (heldKeys (tg_calls m));
  to_set : forall k, k ∈ tg_migrating m <-> k ∈ heldKeys (tg_calls m);
  to_calls : Forall callOk (tg_calls m) }.

Lemma held_update calls c call call' gone : calls !! c = Some call -> outstanding call ≡ₚ gone ++ outstanding call' ->
  heldKeys calls ≡ₚ (decisionKey <$> gone) ++ heldKeys (<[c := call']> calls).
Proof.
  intros L P. destruct (bind_insert outstanding calls c call call' L) as (rest & P1 & P2). unfold heldKeys.
  rewrite P1, P2, P, <- fmap_app, app_assoc. done.
Qed.
Lemma working_update ws w x y : ws !! w = Some x -> exists rest,
  workingOf ws ≡ₚ (decisionOf <$> option_list x) ++ rest /\
  workingOf (<[w := y]> ws) ≡ₚ (decisionOf <$> option_list y) ++ rest.
Proof. apply (bind_insert (fun w => decisionOf <$> option_list w)). Qed.
Lemma running_update ws w x y : ws !! w = Some x ->
  let n z := match z with Some (Running _) => 1%nat | _ => 0%nat end in
  (length (runningOf (<[w := y]> ws)) + n x = length (runningOf ws) + n y)%nat.
Proof.
  intros L. destruct (bind_insert (fun w => match w with Some (Running d) => [d] | _ => [] end) ws w x y L) as (rest & P1 & P2).
  unfold runningOf. rewrite P1, P2, !length_app.
  destruct x as [[]|], y as [[]|]; simpl; lia.
Qed.

Lemma claim_spec decisions : forall mg mg' l, claim mg decisions = (mg', l) ->
  NoDup (decisionKey <$> l) /\ (forall d, d ∈ l -> decisionKey d ∉ mg /\ d ∈ decisions) /\
  (forall k, k ∈ mg' <-> k ∈ mg \/ k ∈ decisionKey <$> l) /\ (forall d, d ∈ decisions -> decisionKey d ∈ mg').
Proof.
  induction decisions as [|d rest IH]; intros mg mg' l E; simpl in E.
  - injection E as <- <-. split; [constructor|]. split; [by intros d ?%elem_of_nil|]. split; [set_solver|]. by intros d ?%elem_of_nil.
  - destruct (decide (decisionKey d ∈ mg)) as [I|I].
    + destruct (IH _ _ _ E) as (N & D & S & A). split; [done|]. split; [intros x X; destruct (D x X); set_solver|].
      split; [done|]. intros x X. apply elem_of_cons in X as [->|X]; [apply S; by left|by apply A].
    + destruct (claim ({[decisionKey d]} ∪ mg) rest) as [mg1 l1] eqn:C. injection E as <- <-.
      destruct (IH _ _ _ C) as (N & D & S & A). split; [|split; [|split]].
      * rewrite fmap_cons. apply NoDup_cons. split; [|done]. intros X. apply list_elem_of_fmap in X as (x & Kx & X).
        destruct (D x X) as [Nx _]. apply Nx. rewrite <- Kx. set_solver.
      * intros x X. apply elem_of_cons in X as [->|X]; [split; [done|set_solver]|]. destruct (D x X). set_solver.
      * intros k. rewrite S, fmap_cons, elem_of_cons. set_solver.
      * intros x X. apply elem_of_cons in X as [->|X]; [apply S; left; set_solver|by apply A].
Qed.

(** One call changes, and frees the keys of [gone]. *)
Lemma tierOk_update c call call' gone mg st m : tg_calls m !! c = Some call -> tierOk m ->
  outstanding call ≡ₚ gone ++ outstanding call' -> callOk call' ->
  (forall k, k ∈ mg <-> k ∈ tg_migrating m /\ k ∉ decisionKey <$> gone) ->
  tierOk (set_calls mg (<[c := call']> (tg_calls m)) (set_store st m)).
Proof.
  intros L [N S F] P C M. pose proof (held_update _ _ _ call' _ L P) as E. split; simpl.
  - rewrite E in N. by apply NoDup_app in N as (_ & _ & N).
  - intros k. rewrite M, S, E, elem_of_app. rewrite E in N. apply NoDup_app in N as (_ & D & _).
    specialize (D k). split; [intros [[?|?] ?]; tauto|]. intros K. split; [by right|]. intros I. by apply (D I).
  - apply Forall_insert; [done|done].
Qed.

Lemma callOk_at m c call : tierOk m -> tg_calls m !! c = Some call -> callOk call.
Proof. intros [_ _ F] L. rewrite Forall_lookup in F. by eapply F. Qed.
Lemma tier_step_ok s m m' : tier_step s m = Some m' -> tierOk m -> tierOk m'.
Proof.
  intros E Ok. destruct s as [decisions|c w|c w io|c w|c]; cbn [tier_step] in E.
  - destruct decisions as [|d ds]; [by injection E as <-|].
    destruct (claim (tg_migrating m) (d :: ds)) as [mg l] eqn:C. injection E as <-.
    destruct (claim_spec _ _ _ _ C) as (N & D & S & _). destruct Ok as [N0 S0 F0].
    set (ws := repeat None _). assert (workingOf ws = [] /\ runningOf ws = []) as [W R].
    { subst ws. induction (Z.to_nat _) as [|n IH]; [done|]. destruct IH. done. }
    assert (heldKeys (tg_calls m ++ [mkExec l l ws [] None]) = heldKeys (tg_calls m) ++ (decisionKey <$> l)) as Eq.
    { unfold heldKeys. rewrite bind_app, fmap_app. f_equal. simpl. unfold outstanding. simpl. by rewrite W, !app_nil_r. }
    split; simpl; rewrite ?Eq.
    + apply NoDup_app. split; [done|]. split; [|done]. intros k K I. apply list_elem_of_fmap in I as (x & -> & X).
      destruct (D x X) as [Nx _]. by apply Nx, S0.
    + intros k. rewrite S, S0, elem_of_app. done.
    + apply Forall_app. split; [done|]. constructor; [|done]. split; simpl; [rewrite R; simpl; lia|done].
  - destruct (tg_calls m !! c) as [call|] eqn:L; [|done]. simpl in E.
    destruct (ec_workers call !! w) as [[x|]|] eqn:W; [done| |done]. simpl in E.
    destruct (ec_queue call) as [|d rest] eqn:Q; [done|]. injection E as <-.
    destruct (callOk_at _ _ _ Ok L) as [Cn Cr]. rewrite Q in *.
    destruct (working_update _ _ _ (Some (Running d)) W) as (ws & P1 & P2).
    apply (tierOk_update c call _ [] _ (tg_store m) m L Ok).
    + unfold outstanding. rewrite Q. simpl. rewrite P1, P2. simpl. apply Permutation_middle.
    + split; simpl; [|intros r R; by destruct (Cr r R)].
      pose proof (running_update _ _ _ (Some (Running d)) W) as Rn. simpl in *. lia.
    + set_solver.
  - destruct (tg_calls m !! c) as [call|] eqn:L; [|done]. simpl in E.
    destruct (ec_workers call !! w) as [[[d|d]|]|] eqn:W; try done. simpl in E.
    destruct (tier_Migrate _ _ _ _ _ _) as [st r]. 
    destruct (callOk_at _ _ _ Ok L) as [Cn Cr].
    destruct (working_update _ _ _ (Some (Reported d)) W) as (ws & P1 & P2).
    assert (tierOk (set_calls (tg_migrating m) (<[c := mkExec (ec_claimed call) (ec_queue call)
      (<[w := Some (Reported d)]> (ec_workers call)) (ec_results call ++ [r]) (ec_returned call)]> (tg_calls m)) (set_store st m))) as G.
    { apply (tierOk_update c call _ [] _ st m L Ok).
      - unfold outstanding. simpl. rewrite P1, P2. done.
      - split; simpl.
        + pose proof (running_update _ _ _ (Some (Reported d)) W) as Rn. rewrite length_app. simpl in *. lia.
        + intros r0 R. destruct (Cr r0 R) as (_ & Nn & _). rewrite Forall_lookup in Nn. by specialize (Nn _ _ W).
      - set_solver. }
    destruct r; [by injection E as <-|by injection E as <-|done].
  - destruct (tg_calls m !! c) as [call|] eqn:L; [|done]. simpl in E.
    destruct (ec_workers call !! w) as [[[d|d]|]|] eqn:W; try done. simpl in E. injection E as <-.
    destruct (callOk_at _ _ _ Ok L) as [Cn Cr].
    destruct (working_update _ _ _ None W) as (ws & P1 & P2).
    apply (tierOk_update c call _ [d] _ (tg_store m) m L Ok).
    + unfold outstanding. simpl. rewrite P1, P2. simpl. symmetry. apply Permutation_middle.
    + split; simpl.
      * pose proof (running_update _ _ _ None W) as Rn. simpl in *. lia.
      * intros r0 R. destruct (Cr r0 R) as (_ & Nn & _). rewrite Forall_lookup in Nn. by specialize (Nn _ _ W).
    + set_solver.
  - destruct (tg_calls m !! c) as [call|] eqn:L; [|done]. simpl in E.
    destruct (ec_queue call) eqn:Q; [|done]. destruct (ec_returned call) eqn:R; [done|].
    destruct (forallb _ _) eqn:Fb; [|done]. injection E as <-. destruct (callOk_at _ _ _ Ok L) as [Cn Cr]. rewrite Q in Cn.
    apply (tierOk_update c call _ [] _ (tg_store m) m L Ok).
    + unfold outstanding. by rewrite Q.
    + split; simpl; [done|]. intros r [= <-]. split; [done|]. split; [|done]. apply Forall_forall. intros x X.
      rewrite forallb_forall in Fb. specialize (Fb x). rewrite <- list_elem_of_In in Fb. specialize (Fb X). by destruct x.
    + set_solver.
Qed.
Lemma tier_run_ok l : forall m m', tier_run l m = Some m' -> tierOk m -> tierOk m'.
Proof.
  induction l as [|s l IH]; intros m m' E Ok; simpl in E; [by injection E as <-|].
  destruct (tier_step s m) as [m1|] eqn:S; [|done]. simpl in E. eapply IH; [exact E|]. by eapply tier_step_ok.
Qed.

Lemma joinErrors_ok results : joinErrors results = Ok tt <-> Forall (fun r => is_ok r = true) results.
Proof.
  unfold joinErrors. destruct (filter (fun r => is_ok r = false) results) as [|x l] eqn:F.
  - split; [|done]. intros _. apply Forall_forall. intros r I. destruct (is_ok r) eqn:R; [done|].
    assert (r ∈ filter (fun r => is_ok r = false) results) as X by by apply list_elem_of_filter.
    rewrite F in X. by apply elem_of_nil in X.
  - split; [done|]. intros A. assert (x ∈ filter (fun r => is_ok r = false) results) as X by (rewrite F; set_solver).
    apply list_elem_of_filter in X as [R I]. rewrite Forall_forall in A. by rewrite (A x I) in R.
Qed.

(** C19: Migrations exclude each other and none is forgotten: whatever calls of
    ExecuteMigrations overlap, no key is claimed twice at a time, the manager's
    set holds exactly the keys claimed and not yet released, and a call that
    has returned has the result of every migration it claimed, holds no key, and
    reports no error exactly when all of them succeeded. *)
Theorem migrations_exclusive store config l m :
  tier_run l (NewTieringManager store config) = Some m ->
  NoDup (heldKeys (tg_calls m)) /\ (forall k, k ∈ tg_migrating m <-> k ∈ heldKeys (tg_calls m)) /\
  forall c call r, tg_calls m !! c = Some call -> ec_returned call = Some r ->
    length (ec_results call) = length (ec_claimed call) /\ outstanding call = [] /\
    (r = Ok tt <-> Forall (fun x => is_ok x = true) (ec_results call)).
Proof.
  intros E. assert (tierOk (NewTieringManager store config)) as O by (split; simpl; [constructor|set_solver|constructor]).
  apply tier_run_ok in E; [|done]. pose proof E as [N S F]. split; [done|]. split; [done|]. intros c call r L R.
  destruct (callOk_at _ _ _ E L) as [Cn Cr]. destruct (Cr r R) as (Q & W & ->).
  assert (workingOf (ec_workers call) = [] /\ runningOf (ec_workers call) = []) as [W1 W2].
  { clear -W. induction W as [|x ws -> W IH]; [done|]. destruct IH. done. }
  rewrite Q, W2 in Cn. unfold outstanding. rewrite Q, W1. split; [simpl in Cn; lia|]. split; [done|]. apply joinErrors_ok.
Qed.
End TierFacts.

(** ** Accesses *)

Section AccessFacts.
Context `{TierMath, TierStore}.

Record access := mkAccess {
  ac_Bucket : string; ac_Key : string; ac_type : string; ac_user : string; ac_now : Time; ac_now2 : Time }.
Definition accessKey (a : access) : string := ac_Bucket a +:+ "/" +:+ ac_Key a.
Definition record1 (m : TieringManager) (a : access) : TieringManager :=
  RecordAccess (ac_now a) (ac_now2 a) (ac_Bucket a) (ac_Key a) (ac_type a) (ac_user a) m.
Definition recordAll (l : list access) (m : TieringManager) : TieringManager := foldl record1 m l.

Lemma lastN_short {A} n (l : list A) : (length l <= n)%nat -> lastN n l = l.
Proof. intros L. unfold lastN. by replace (length l - n)%nat with 0%nat by lia. Qed.
Lemma length_lastN {A} n (l : list A) : length (lastN n l) = Nat.min n (length l).
Proof. unfold lastN. rewrite length_drop. lia. Qed.
Lemma lastN_snoc {A} n (l : list A) x : (0 < n)%nat -> lastN n (lastN n l ++ [x]) = lastN n (l ++ [x]).
Proof.
  intros N. unfold lastN at 1. rewrite length_app, length_lastN. unfold lastN. simpl. rewrite length_app. simpl.
  destruct (decide (n <= length l)%nat).
  - rewrite Nat.min_l by lia. rewrite !drop_app_le by (rewrite ?length_drop; lia). f_equal. rewrite drop_drop. f_equal. lia.
  - replace (length l - n)%nat with 0%nat by lia. rewrite Nat.min_r by lia. done.
Qed.
Lemma wrap64_plus_1 n : wrap64 (wrap64 n + 1) = wrap64 (n + 1).
Proof.
  unfold wrap64, wrapS. f_equal. replace ((n + 2 ^ (64 - 1)) mod 2 ^ 64 - 2 ^ (64 - 1) + 1 + 2 ^ (64 - 1))
    with ((n + 2 ^ (64 - 1)) mod 2 ^ 64 + 1) by lia.
  rewrite Zplus_mod_idemp_l. f_equal. lia.
Qed.

(** What a history says about the accesses it has seen. *)
Record sees (l : list access) (h : AccessHistory) : Prop := mkSees {
  see_times : ah_AccessTimes h = lastN 1000 (ac_now <$> l);
  see_types : ah_AccessTypes h = lastN 1000 (ac_type <$> l);
  see_users : ah_UserIDs h = lastN 1000 (ac_user <$> l);
  see_last : ah_LastAccess h = default 0 (last (ac_now <$> l));
  see_total : ah_TotalAccesses h = wrap64 (Z.of_nat (length l)) }.
Lemma addAccess_sees l h a : sees l h -> sees (l ++ [a]) (addAccess (ac_now a) (ac_type a) (ac_user a) h).
Proof.
  intros [T Y U L N]. unfold addAccess, trimHistory. cbn [ah_AccessTimes].
  assert (forall {A} (f : access -> A) (x : list A) b, x = lastN 1000 (f <$> l) ->
    b = (1000 <? length (ah_AccessTimes h ++ [ac_now a]))%nat ->
    (if b then lastN 1000 (x ++ [f a]) else x ++ [f a]) = lastN 1000 (f <$> l ++ [a])) as Fld.
  { intros A f x b -> ->. rewrite fmap_app. change (f <$> [a]) with [f a]. rewrite <- (lastN_snoc 1000 (f <$> l)) by lia.
    destruct (_ <? _)%nat eqn:C; [reflexivity|]. apply Nat.ltb_ge in C. rewrite T in C. symmetry. apply lastN_short.
    rewrite length_app, length_lastN, length_fmap in C. rewrite length_app, length_lastN, length_fmap. exact C. }
  pose proof (Fld _ ac_now _ _ T eq_refl) as F1. pose proof (Fld _ ac_type _ _ Y eq_refl) as F2.
  pose proof (Fld _ ac_user _ _ U eq_refl) as F3. clear Fld.
  assert (last (ac_now <$> l ++ [a]) = Some (ac_now a)) as La by (rewrite fmap_app; apply last_snoc).
  assert (wrap64 (ah_TotalAccesses h + 1) = wrap64 (Z.of_nat (length (l ++ [a])))) as Tt.
  { rewrite N, wrap64_plus_1, length_app. f_equal. simpl. lia. }
  revert F1 F2 F3. destruct (_ <? _)%nat; intros F1 F2 F3; split;
    cbn [ah_AccessTimes ah_AccessTypes ah_UserIDs ah_LastAccess ah_TotalAccesses]; first [exact F1|exact F2|exact F3|exact Tt|exact (eq_sym (f_equal (default 0) La))].
Qed.
Lemma sees_bounded l h : sees l h -> (length (ah_AccessTimes h) <= 1000)%nat.
Proof. intros S. rewrite (see_times _ _ S), length_lastN. lia. Qed.
Lemma record1_histories m a k : tg_accessHistories (record1 m a) !! k =
  if decide (k = accessKey a)
  then Some (addAccess (ac_now a) (ac_type a) (ac_user a)
              (default (newHistory (ac_Bucket a) (ac_Key a)) (tg_accessHistories m !! k)))
  else tg_accessHistories m !! k.
Proof.
  unfold record1, RecordAccess, updateHotspotDetection, accessKey. simpl. destruct (decide _) as [->|Ne].
  - by rewrite lookup_insert_eq.
  - by rewrite lookup_insert_ne by done.
Qed.

(** The history of a key is bounded and right: after any accesses it has
    the times, kinds and users of the last thousand accesses of that key, the
    time of the last one and the number of all; a key never accessed has none. *)
Theorem history_keeps_the_last_thousand store config l k :
  let mine := filter (fun a => accessKey a = k) l in
  match tg_accessHistories (recordAll l (NewTieringManager store config)) !! k with
  | None => mine = []
  | Some h => mine <> [] /\ sees mine h /\ (length (ah_AccessTimes h) <= 1000)%nat
  end.
Proof.
  cbv zeta. unfold recordAll. induction l as [|a l IH] using rev_ind; [done|].
  rewrite foldl_snoc, record1_histories, filter_app.
  destruct (tg_accessHistories (foldl _ _ l) !! k) as [h|] eqn:E.
  - destruct IH as (Ne & S & _). rewrite filter_cons. destruct (decide (k = accessKey a)) as [->|N].
    + rewrite decide_True by done. simpl. apply (addAccess_sees _ _ a) in S. split; [by destruct (filter _ l)|].
      split; [exact S|by eapply sees_bounded].
    + rewrite decide_False by done. rewrite app_nil_r. split; [done|]. split; [done|by eapply sees_bounded].
  - rewrite IH, filter_cons. destruct (decide (k = accessKey a)) as [->|N].
    + assert (sees ([] ++ [a]) (addAccess (ac_now a) (ac_type a) (ac_user a)
        (newHistory (ac_Bucket a) (ac_Key a)))) as S by by apply addAccess_sees.
      rewrite decide_True, filter_nil by done. cbn [from_option app] in *.
      split; [done|]. split; [exact S|by eapply sees_bounded].
    + by rewrite decide_False by done.
Qed.

(** Every decision follows from the score: it is about an object the store
    has, not fixed to its tier, whose tier differs from the one that its score
    at that moment asks for; and it names both. *)
Theorem decisions_follow_scores order sorted clock m d :
  (forall l, sorted l ≡ₚ l) -> d ∈ RunTieringDecision order sorted clock m ->
  exists b k md h, tier_Head b k (tg_store m) = Ok md /\ td_ObjectKey d = cm_Key md /\ td_Bucket d = cm_Bucket md /\
    h = default (newHistory (cm_Bucket md) (cm_Key md)) (tg_accessHistories m !! decisionKey d) /\ ah_FixedTier h = false /\
    td_CurrentTier d = cm_StorageTier md /\ td_TargetTier d = scoreToTier (td_HotnessScore d) /\
    td_TargetTier d <> td_CurrentTier d /\
    exists now now2, td_HotnessScore d = CalculateHotnessScore now now2 h md (tg_model m).
Proof.
  intros P I. unfold RunTieringDecision in I. apply list_elem_of_omap in I as (md & M & D). rewrite P in M.
  apply list_elem_of_omap in M as (k0 & _ & M). destruct (tg_accessHistories m !! k0) as [h0|]; [|done]. simpl in M.
  destruct (tier_Head _ _ _) as [md'| |] eqn:Hd; try done. injection M as ->. unfold decide1 in D.
  destruct (clock _) as [[now now2] now3]. destruct (ah_FixedTier _) eqn:Fx; [done|].
  destruct (_ =? _) eqn:T; [done|]. injection D as <-. apply Z.eqb_neq in T.
  eexists _, _, md, _. unfold decisionKey. simpl. eauto 15.
Qed.
End AccessFacts.

(** ** Concrete runs *)

Module TieringDemo.
(** A store of one hot object per key, on which migrations succeed or not. *)
#[export] Instance demoMath : TierMath := {| tm_Log x := tenths 7; tm_Exp x := fofZ 1; tm_text x := "s"%string |}.
#[export] Instance demoStore : TierStore := {|
  ts_store := gmap string Z; ts_io := bool;
  tier_Head bkt key s := match s !! key with
    | Some t => Ok (mkCommon key bkt 5 "text/plain" "" "" None t 0 0 0 0 false false "")
    | None => Err "object not found" end;
  tier_Migrate io bkt key from to s := if io then (<[key := to]> s, Ok tt) else (s, Err "disk full") |}.
Definition tiers : gmap string Z := {["a" := 0; "b" := 2]}%string.
Definition config : option TieringConfig := Some (mkTieringConfig true 2 0 0).
Definition manager : TieringManager := NewTieringManager tiers config.
Definition accesses : list access :=
  [mkAccess "m" "a" "GET" "u" (10 * Hour) 0; mkAccess "m" "b" "PUT" "v" (40 * Hour) 0; mkAccess "m" "a" "PUT" "w" (41 * Hour) 0].
Definition used : TieringManager := recordAll accesses manager.
Definition order : list string := ["m/a"; "m/b"; "m/c"]%string.
Definition sorted (l : list CommonMetadata) : list CommonMetadata := l.
Definition clock (k : string) : Time * Time * Time := (42 * Hour, 42 * Hour, 43 * Hour).
Definition decisions : list TierDecision := RunTieringDecision order sorted clock used.

Example decided : (fun d => (td_ObjectKey d, td_CurrentTier d, td_TargetTier d)) <$> decisions =
  [("a", TierHot, TierCold)]%string.
Proof. vm_compute. reflexivity. Qed.

(** With no priority weight, which no source sets, the most frequently used
    object does not reach the hot tier, whatever its type, size and age. *)
Example nothing_becomes_hot : forallb (fun recent => forallb (fun content => forallb (fun size =>
    negb (scoreToTier (totalScore (fofZ 100) (fofZ recent) (fofZ content) (fofZ size) (fofZ 0) NewTierDecisionModel) =? TierHot))
    [80; 60; 40; 20; 50]) [80; 60; 70; 50]) [100; 80; 50; 20; 0] = true.
Proof. vm_compute. reflexivity. Qed.

Definition migration : list tierStep :=
  [ExecuteCalled (decisions ++ decisions); ExecuteCalled decisions; MigratorTakes 0 1; MigratorReports 0 1 true;
   ExecuteReturns 1; MigratorReleases 0 1; ExecuteReturns 0].
Definition migrated_ : TieringManager := default manager (tier_run migration used).
Example one_migration : ec_returned <$> tg_calls migrated_ = [Some (Ok tt); Some (Ok tt)] /\
  length ∘ ec_results <$> tg_calls migrated_ = [1%nat; 0%nat] /\ tg_migrating migrated_ = ∅ /\
  tg_store migrated_ !! "a"%string = Some TierCold.
Proof. vm_compute. done. Qed.

Definition busyRun : list tierStep := [ExecuteCalled decisions; MigratorTakes 0 0].
Definition begun : TieringManager := default manager (tier_run busyRun manager).
Lemma migrations_exclusive_witness : tier_run busyRun manager = Some begun /\ NoDup (heldKeys (tg_calls begun)).
Proof.
  split; [vm_compute; reflexivity|].
  refine (proj1 (@migrations_exclusive demoStore tiers config busyRun begun _)). vm_compute. reflexivity.
Defined.
Lemma decisions_follow_scores_witness : exists d, d ∈ decisions /\ td_TargetTier d <> td_CurrentTier d.
Proof.
  assert (length decisions = 1%nat) as L by (vm_compute; reflexivity).
  assert (exists d, d ∈ decisions) as [d I].
  { destruct decisions as [|d l]; [discriminate L|]. exists d. by apply elem_of_cons; left. }
  exists d. split; [exact I|].
  destruct (@decisions_follow_scores demoMath demoStore order sorted clock used d (fun l => Permutation_refl l) I)
    as (b & k & md & h & _ & _ & _ & _ & _ & _ & _ & Ne & _).
  exact Ne.
Defined.
End TieringDemo.
