(* ===== verification/Flow.v ===== *)
(** * Pipelines and workflows (internal/pipeline, internal/flow)

    The executor of upload pipelines with its filters and its text plugins, and
    the workflow package: compiler, executor with the events it publishes, event
    bus, resource manager as a step function, timeline and secrets.  A plugin is
    a function that may read from its input's content, so it returns the input
    as it leaves it.  A reader is the bytes that are left of it.  YAML, the table
    of media types, UUIDs, clocks and the environment are parameters. *)

From S2P Require Import Prelude GoStrings Keys PluginTrust PluginNet.
From Stdlib Require Import Ascii String.
From stdpp Require Import base list strings gmap pretty.

#[local] Open Scope Z_scope.

(** ** Data *)

Definition TriggerOnUpload : string := "on_upload".
Definition StatusRunning : string := "running".
Definition StatusCompleted : string := "completed".
Definition StatusFailed : string := "failed".
Definition StatusSkipped : string := "skipped".

Record Step := mkStep {
  st_Name : string; st_Plugin : string; st_Params : gmap string string; st_Output : string;
  st_Tags : gmap string string; st_OutputMetadata : bool; st_Inline : bool; st_OnError : string }.
Record Workflow := mkWorkflow {
  wf_Name : string; wf_Trigger : string; wf_Filter : string; wf_Steps : list Step; wf_Enabled : bool;
  wf_Priority : Z }.
(** The pipeline package declares the same fields again. *)
Definition PipelineStep := Step.
Definition Pipeline := Workflow.

(** The pipeline package has no [Params]. *)
Record ObjectInput := mkInput {
  oi_Key : string; oi_Bucket : string; oi_Content : option bytes; oi_Size : Z; oi_ContentType : string;
  oi_UserMetadata : gmap string string; oi_Params : gmap string string }.
Record ObjectOutput := mkOutput {
  oo_Key : string; oo_Content : option bytes; oo_Size : Z; oo_ContentType : string; oo_Metadata : gmap string string }.
Record ProcessResult := mkProcess {
  pr_Outputs : list (option ObjectOutput); pr_UpdatedMetadata : option (gmap string string);
  pr_Error : option string; pr_Skipped : bool }.
(** What [Process] returns, a pointer that may be nil and an error; or it panics. *)
Record Plugin := mkPlugin {
  pg_Name : string;
  pg_Process : ObjectInput -> ObjectInput * res (option ProcessResult * option string) }.
Record StepResult := mkStepResult {
  sr_StepName : string; sr_Status : string; sr_OutputKeys : list string; sr_Error : string; sr_Duration : Duration }.
Definition noStepResult : StepResult := mkStepResult "" "" [] "" 0.
Record Execution := mkExecution {
  ex_ID : string; ex_Workflow : string; ex_ObjectKey : string; ex_Bucket : string; ex_Status : string;
  ex_StartedAt : Time; ex_CompletedAt : option Time; ex_Steps : list StepResult; ex_Error : string }.
Definition PipelineExecution := Execution.

Definition ErrUnsupportedContent : string := "unsupported content type".
Definition ErrPipelineNotFound : string := "pipeline not found".
Definition ErrWorkflowNotFound : string := "workflow not found".
Definition ErrInvalidWorkflow : string := "invalid workflow configuration".
Definition ErrPluginNotFound : string := "plugin not found".

Class FlowLib := {
  yaml_Unmarshal : bytes -> res (list Workflow);
  ExtensionsByType : string -> list string;
}.

(** [strings.ReplaceAll] for an old string that is not empty. *)
Definition ReplaceAll (s old new : string) : string := strJoin new (SplitOn old s).

(** What a call takes from outside: IDs and clocks; [xe_uuid i j] is the UUID
    drawn for output [j] of step [i]. *)
Record execEnv := mkExecEnv {
  xe_id : string; xe_uuid : nat -> nat -> string; xe_duration : nat -> Duration; xe_start : Time; xe_end : Time }.

Section Flow.
Context `{FlowLib, GoUnicode, GoQuote}.

Definition extensionFromMime (mimeType : string) : string :=
  match ExtensionsByType mimeType with ext :: _ => TrimPrefix ext "." | [] => "" end.
Definition expandOutputPath (pattern originalKey uuid : string) (output : ObjectOutput) : string :=
  let result := ReplaceAll (ReplaceAll pattern "{key}" originalKey) "{uuid}" (stake 8 uuid) in
  if bool_decide (oo_ContentType output = ""%string) then result
  else let ext := extensionFromMime (oo_ContentType output) in
       if bool_decide (ext = ""%string) then result else result +:+ "." +:+ ext.
(** The keys derived for the outputs that are not nil. *)
Definition outputKeys (pattern originalKey : string) (uuid : nat -> string) (outputs : list (option ObjectOutput)) : list string :=
  omap (fun x => x) (imap (fun j o => o ← o; Some (expandOutputPath pattern originalKey (uuid j) o)) outputs).

(** What a step's result does to the whole: metadata, outputs, and the content
    for the next step; [None] is the nil dereference of a first output. *)
Definition mergeMetadata (new : option (gmap string string)) (r : ProcessResult) : ProcessResult :=
  match new with
  | Some m => mkProcess (pr_Outputs r) (Some (m ∪ default ∅ (pr_UpdatedMetadata r))) (pr_Error r) (pr_Skipped r)
  | None => r
  end.
Definition addOutputs (l : list (option ObjectOutput)) (r : ProcessResult) : ProcessResult :=
  mkProcess (pr_Outputs r ++ l) (pr_UpdatedMetadata r) (pr_Error r) (pr_Skipped r).
Definition set_error (e : string) (r : ProcessResult) : ProcessResult :=
  mkProcess (pr_Outputs r) (pr_UpdatedMetadata r) (Some e) (pr_Skipped r).
Definition nextInput (o : ObjectOutput) (input : ObjectInput) : ObjectInput :=
  mkInput (oi_Key input) (oi_Bucket input) (oo_Content o)
    (if 0 <? oo_Size o then oo_Size o else oi_Size input)
    (if bool_decide (oo_ContentType o = ""%string) then oi_ContentType input else oo_ContentType o)
    (oi_UserMetadata input) (oi_Params input).
Definition absorb (step : Step) (p : ProcessResult) (input : ObjectInput) (r : ProcessResult)
  : option (ObjectInput * ProcessResult) :=
  let r := mergeMetadata (pr_UpdatedMetadata p) r in
  if st_Inline step
  then match pr_Outputs p with
       | [] => Some (input, r)
       | Some o :: _ => Some (nextInput o input, r)
       | None :: _ => None
       end
  else Some (input, addOutputs (pr_Outputs p) r).
Definition nilDeref : string := "runtime error: invalid memory address or nil pointer dereference".

(** ** Pipelines (pipeline/executor.go) *)

Definition pl_extractFilterValue (part : string) : string :=
  let idx := match Index part "'" with Some i => Some i | None => Index part (String (ascii_of_nat 34) EmptyString) end in
  match idx with
  | Some _ => ""
  | None => match Index part "matches" with
            | Some i => TrimSpace (TrimSpace (sdrop (i + 7) part))
            | None => "" end
  end.
(** A missing key reads as the empty string. *)
Definition metaValue (metadata : gmap string string) (k : string) : string := default ""%string (metadata !! k).
(** [metadata.<key> = <value>]; a part without exactly one [=] is ignored. *)
Definition metadataMatches (part : string) (metadata : gmap string string) : bool :=
  match Split "="%char part with
  | [a; b] => bool_decide (metaValue metadata (TrimPrefix (TrimSpace a) "metadata.") = TrimSpace b)
  | _ => true
  end.
(** The loop over the parts; a part that starts with "size" ends it. *)
Fixpoint pl_filterParts (parts : list string) (contentType : string) (metadata : gmap string string) : bool :=
  match parts with
  | [] => true
  | part :: rest =>
    let part := TrimSpace part in
    if HasPrefix part "content-type" && negb (Contains (ToLower contentType) (pl_extractFilterValue part)) then false
    else if HasPrefix part "size" then true
    else if HasPrefix part "metadata." && negb (metadataMatches part metadata) then false
    else pl_filterParts rest contentType metadata
  end.
Definition evaluateFilter (filter contentType : string) (metadata : gmap string string) : bool :=
  pl_filterParts (SplitOn "and" (ToLower filter)) contentType metadata.

(** [pe_busy] counts the slots taken by calls that run. *)
Record PipelineExecutor := mkPipelines {
  pe_plugins : gmap string Plugin; pe_config : option (list Pipeline); pe_results : gmap string PipelineExecution;
  pe_maxWorkers : Z; pe_busy : Z; pe_wasmProvider : option (string -> option Plugin) }.
Definition NewPipelineExecutor (maxWorkers : Z) : PipelineExecutor :=
  mkPipelines ∅ None ∅ (if maxWorkers <=? 0 then 100 else maxWorkers) 0 None.
Definition pl_RegisterPlugin (p : Plugin) (e : PipelineExecutor) : PipelineExecutor :=
  mkPipelines (<[pg_Name p := p]> (pe_plugins e)) (pe_config e) (pe_results e) (pe_maxWorkers e) (pe_busy e) (pe_wasmProvider e).
Definition SetWASMStepProvider (provider : string -> option Plugin) (e : PipelineExecutor) : PipelineExecutor :=
  mkPipelines (pe_plugins e) (pe_config e) (pe_results e) (pe_maxWorkers e) (pe_busy e) (Some provider).
Definition pl_LoadConfigData (data : bytes) (e : PipelineExecutor) : PipelineExecutor * res unit :=
  match wrapErr "failed to parse config" (yaml_Unmarshal data) with
  | Ok config => (mkPipelines (pe_plugins e) (Some config) (pe_results e) (pe_maxWorkers e) (pe_busy e) (pe_wasmProvider e), Ok tt)
  | Err x => (e, Err x)
  | Panic x => (e, Panic x)
  end.
(** [read] is what reading the file gives. *)
Definition pl_LoadConfig (read : res bytes) (e : PipelineExecutor) : PipelineExecutor * res unit :=
  match wrapErr "failed to read config" read with
  | Ok data => pl_LoadConfigData data e
  | Err x => (e, Err x)
  | Panic x => (e, Panic x)
  end.
Definition pl_GetMatchingPipelines (trigger contentType : string) (metadata : gmap string string) (e : PipelineExecutor)
  : list Pipeline :=
  filter (fun p => wf_Enabled p = true /\ wf_Trigger p = trigger /\
                   (wf_Filter p = ""%string \/ evaluateFilter (wf_Filter p) contentType metadata = true))
    (default [] (pe_config e)).
Definition findPipeline (name : string) (e : PipelineExecutor) : res Pipeline :=
  match filter (fun p => wf_Name p = name) (default [] (pe_config e)) with
  | p :: _ => Ok p
  | [] => Err ErrPipelineNotFound
  end.
Definition getPlugin (name : string) (e : PipelineExecutor) : option Plugin :=
  match pe_plugins e !! name with
  | Some p => Some p
  | None => provider ← pe_wasmProvider e; provider name
  end.

(** The loop over the steps: the input and the result it leaves, the results of
    the steps, and the panic that ended it. *)
Record stepsState := mkSteps { ss_input : ObjectInput; ss_result : ProcessResult; ss_steps : list StepResult; ss_panic : option string }.
Definition recordStep (r : StepResult) (s : stepsState) : stepsState :=
  mkSteps (ss_input s) (ss_result s) (r :: ss_steps s) (ss_panic s).
Definition stopped (input : ObjectInput) (r : ProcessResult) (this : list StepResult) (rest : list Step) (panic : option string) : stepsState :=
  mkSteps input r (this ++ repeat noStepResult (length rest)) panic.
Fixpoint pl_steps (env : execEnv) (e : PipelineExecutor) (i : nat) (steps : list Step) (input : ObjectInput) (r : ProcessResult)
  : stepsState :=
  match steps with
  | [] => mkSteps input r [] None
  | step :: rest =>
    match getPlugin (st_Plugin step) e with
    | None =>
      recordStep (mkStepResult (st_Name step) StatusFailed [] ("plugin not found: " +:+ st_Plugin step) 0)
        (pl_steps env e (S i) rest input r)
    | Some plugin =>
      let '(input, out) := pg_Process plugin input in
      match out with
      | Panic x | Err x => stopped input r [noStepResult] rest (Some x)
      | Ok (p, err) =>
        let failed := mkStepResult (st_Name step) StatusFailed [] (default ""%string err) 0 in
        let finish (_ : unit) :=
          let keys := match p with
                      | Some p => outputKeys (st_Output step) (oi_Key input) (xe_uuid env i) (pr_Outputs p)
                      | None => [] end in
          let done := mkStepResult (st_Name step) StatusCompleted keys (default ""%string err) (xe_duration env i) in
          match p with
          | None => recordStep done (pl_steps env e (S i) rest input r)
          | Some p =>
            match absorb step p input r with
            | Some (input, r) => recordStep done (pl_steps env e (S i) rest input r)
            | None => stopped input r [if err then failed else noStepResult] rest (Some nilDeref)
            end
          end in
        match err with
        | None => finish tt
        | Some x =>
          if bool_decide (st_OnError step = "fail"%string) then stopped input (set_error x r) [failed] rest None
          else if bool_decide (st_OnError step = "skip"%string) then finish tt
          else recordStep failed (pl_steps env e (S i) rest input r)
        end
      end
    end
  end.

Definition newResult : ProcessResult := mkProcess [] (Some ∅) None false.
(** How an execution ends; one whose plugin panicked stays running. *)
Definition finished (env : execEnv) (exec : Execution) (s : stepsState) : Execution :=
  match ss_panic s, pr_Error (ss_result s) with
  | Some _, _ => mkExecution (ex_ID exec) (ex_Workflow exec) (ex_ObjectKey exec) (ex_Bucket exec) (ex_Status exec)
                   (ex_StartedAt exec) None (ss_steps s) ""
  | None, Some x => mkExecution (ex_ID exec) (ex_Workflow exec) (ex_ObjectKey exec) (ex_Bucket exec) StatusFailed
                      (ex_StartedAt exec) (Some (xe_end env)) (ss_steps s) x
  | None, None => mkExecution (ex_ID exec) (ex_Workflow exec) (ex_ObjectKey exec) (ex_Bucket exec) StatusCompleted
                    (ex_StartedAt exec) (Some (xe_end env)) (ss_steps s) ""
  end.
Definition set_execution (x : Execution) (e : PipelineExecutor) : PipelineExecutor :=
  mkPipelines (pe_plugins e) (pe_config e) (<[ex_ID x := x]> (pe_results e)) (pe_maxWorkers e) (pe_busy e) (pe_wasmProvider e).
(** [None] while every slot is taken; the caller's input is changed in place. *)
Definition pl_Execute (env : execEnv) (pipelineName : string) (input : ObjectInput) (e : PipelineExecutor)
  : option (PipelineExecutor * ObjectInput * res ProcessResult) :=
  match findPipeline pipelineName e with
  | Err x => Some (e, input, Err x)
  | Panic x => Some (e, input, Panic x)
  | Ok pipeline =>
    let exec := mkExecution (xe_id env) (wf_Name pipeline) (oi_Key input) (oi_Bucket input) StatusRunning (xe_start env)
                  None (repeat noStepResult (length (wf_Steps pipeline))) "" in
    if pe_busy e <? pe_maxWorkers e then
      let s := pl_steps env e 0 (wf_Steps pipeline) input newResult in
      Some (set_execution (finished env exec s) e, ss_input s,
            match ss_panic s with Some x => Panic x | None => Ok (ss_result s) end)
    else None
  end.
Definition pl_GetExecution (id : string) (e : PipelineExecutor) : option PipelineExecution := pe_results e !! id.
Definition listExecutions (order : list string) (bkt objectKey : string) (results : gmap string Execution) : list Execution :=
  filter (fun x => (bkt = ""%string \/ ex_Bucket x = bkt) /\ (objectKey = ""%string \/ ex_ObjectKey x = objectKey))
    (omap (fun id => results !! id) order).
Definition pl_ListExecutions (order : list string) (bkt objectKey : string) (e : PipelineExecutor) : list PipelineExecution :=
  listExecutions order bkt objectKey (pe_results e).

(** *** The built-in plugins *)

Definition metadataOnly (m : gmap string string) : ProcessResult := mkProcess [] (Some m) None false.
Definition answer (r : ProcessResult) : res (option ProcessResult * option string) := Ok (Some r, None).
Definition refuse (e : string) : res (option ProcessResult * option string) := Ok (None, Some e).
Definition ImageCompressPlugin : Plugin := mkPlugin "image_compress" (fun input => (input,
  if negb (HasPrefix (oi_ContentType input) "image/") then refuse ErrUnsupportedContent
  else answer (metadataOnly {["compression" := "webp"; "quality" := "80"]}%string))).
Definition ImageResizePlugin : Plugin := mkPlugin "image_resize" (fun input => (input,
  if negb (HasPrefix (oi_ContentType input) "image/") then refuse ErrUnsupportedContent
  else answer (metadataOnly {["resized" := "true"]}%string))).
Definition MetadataExtractPlugin : Plugin := mkPlugin "metadata_extract" (fun input => (input,
  let ct := oi_ContentType input in
  let from s := metadataOnly {["extracted_from" := s]}%string in
  answer (if HasPrefix ct "image/" then from "image"%string else if HasPrefix ct "video/" then from "video"%string
          else if HasPrefix ct "audio/" then from "audio"%string
          else if bool_decide (ct = "application/pdf"%string) then from "pdf"%string else metadataOnly ∅))).
Definition VideoThumbnailPlugin : Plugin := mkPlugin "video_thumbnail" (fun input => (input,
  if negb (HasPrefix (oi_ContentType input) "video/") then refuse ErrUnsupportedContent
  else answer (metadataOnly {["thumbnail_generated" := "true"]}%string))).
Definition PDFToTextPlugin : Plugin := mkPlugin "pdf_to_text" (fun input => (input,
  if bool_decide (oi_ContentType input <> "application/pdf"%string) then refuse ErrUnsupportedContent
  else answer (metadataOnly {["pdf_converted" := "true"]}%string))).

(** The patterns: between word boundaries, digits, fixed digits, and an optional
    dash or space. *)
Inductive atom := Range (lo hi : nat) | OptSep.
Definition digit : atom := Range 48 57.
Definition isWord (c : ascii) : bool :=
  let n := nat_of_ascii c in ((48 <=? n) && (n <=? 57) || (65 <=? n) && (n <=? 90) || (97 <=? n) && (n <=? 122) || (n =? 95))%nat.
Definition isSep (c : ascii) : bool :=
  let n := nat_of_ascii c in ((n =? 45) || (n =? 32) || (n =? 9) || (n =? 10) || (n =? 12) || (n =? 13))%nat.
Definition piiPatterns : list (list atom) :=
  [repeat digit 15; repeat digit 18; Range 49 49 :: Range 51 57 :: repeat digit 9;
   repeat digit 4 ++ [OptSep] ++ repeat digit 4 ++ [OptSep] ++ repeat digit 4 ++ [OptSep] ++ repeat digit 4].
(** The match of a pattern at the start of [s] and what follows it; a separator
    is never a digit, so the optional one is taken when it is there. *)
Fixpoint matchAtoms (l : list atom) (s : string) : option (string * string) :=
  match l with
  | [] => Some (EmptyString, s)
  | Range lo hi :: l =>
    match s with
    | String c s =>
      if ((lo <=? nat_of_ascii c) && (nat_of_ascii c <=? hi))%nat
      then '(m, rest) ← matchAtoms l s; Some (String c m, rest) else None
    | EmptyString => None
    end
  | OptSep :: l =>
    match s with
    | String c s' => if isSep c then '(m, rest) ← matchAtoms l s'; Some (String c m, rest) else matchAtoms l s
    | EmptyString => matchAtoms l s
    end
  end.
Definition wordStart (s : string) : bool := match s with String c _ => isWord c | EmptyString => false end.
Definition maskString (s : string) : string :=
  let n := String.length s in
  if (n <=? 4)%nat then "****" else stake 2 s +:+ string_of_bytes (repeat 42 (n - 4)) +:+ sdrop (n - 2) s.
(** [ReplaceAllStringFunc]: [prev] tells whether the byte before is of a word. *)
Fixpoint redactLoop (fuel : nat) (pattern : list atom) (prev : bool) (s : string) : string :=
  match fuel with
  | O => s
  | S fuel =>
    match s with
    | EmptyString => EmptyString
    | String c s' =>
      match (if prev then None else matchAtoms pattern s) with
      | Some (m, rest) =>
        if wordStart rest then String c (redactLoop fuel pattern (isWord c) s')
        else maskString m +:+ redactLoop fuel pattern true rest
      | None => String c (redactLoop fuel pattern (isWord c) s')
      end
    end
  end.
Definition redact (s : string) : string :=
  foldl (fun s pattern => redactLoop (String.length s) pattern false s) s piiPatterns.
(** [io.LimitReader]: what is read, and what is left. *)
Definition readLimited (limit : Z) (c : bytes) : bytes * bytes :=
  if Z.of_nat (length c) <=? limit then (c, []) else (firstn (Z.to_nat limit) c, skipn (Z.to_nat limit) c).
Definition piiLimit : Z := 50 * 1024 * 1024.
Definition EncryptPIIPlugin : Plugin := mkPlugin "encrypt_pii" (fun input =>
  match oi_Content input with
  | None => (input, Panic nilDeref)
  | Some c =>
    let '(now, unread) := readLimited piiLimit c in
    let content := string_of_bytes now in
    let redacted := redact content in
    (mkInput (oi_Key input) (oi_Bucket input) (Some unread) (oi_Size input) (oi_ContentType input)
       (oi_UserMetadata input) (oi_Params input),
     answer (mkProcess (if bool_decide (redacted = content) then []
                        else [Some (mkOutput (oi_Key input +:+ ".redacted") (Some (bytes_of_string redacted))
                                      (Z.of_nat (String.length redacted)) (oi_ContentType input) ∅)])
              (Some {["pii_redacted" := "true"]}%string) None false))
  end).
Definition RegisterDefaultPlugins (e : PipelineExecutor) : PipelineExecutor :=
  foldl (flip pl_RegisterPlugin) e
    [ImageCompressPlugin; ImageResizePlugin; MetadataExtractPlugin; EncryptPIIPlugin; VideoThumbnailPlugin; PDFToTextPlugin].

(** ** Workflows (flow/compiler.go) *)

Record CompiledStep := mkCompiledStep { cs_Step : Step; cs_Plugin : Plugin; cs_Deps : list Z }.
Record CompiledWorkflow := mkCompiled { cw_Workflow : Workflow; cw_Steps : list CompiledStep; cw_Name : string }.
Definition LoadConfigData (data : bytes) : res (list Workflow) := wrapErr "failed to parse config" (yaml_Unmarshal data).
Definition LoadConfigFile (read : res bytes) : res (list Workflow) :=
  data ← wrapErr "failed to read config" read; LoadConfigData data.
Definition resolveDeps (idx : Z) : list Z := if 0 <? idx then [idx - 1] else [].
Fixpoint compileSteps (plugins : gmap string Plugin) (i : Z) (steps : list Step) : res (list CompiledStep) :=
  match steps with
  | [] => Ok []
  | s :: rest =>
    match plugins !! st_Plugin s with
    | None => Err ("step " +:+ pretty i +:+ ": plugin " +:+ Quote (st_Plugin s) +:+ " not found: " +:+ ErrPluginNotFound)
    | Some plugin => rest ← compileSteps plugins (i + 1) rest; Ok (mkCompiledStep s plugin (resolveDeps i) :: rest)
    end
  end.
Definition compileOne (plugins : gmap string Plugin) (w : Workflow) : res CompiledWorkflow :=
  match wf_Steps w with
  | [] => Err ErrInvalidWorkflow
  | steps => steps ← compileSteps plugins 0 steps; Ok (mkCompiled w steps (wf_Name w))
  end.
Fixpoint Compile (plugins : gmap string Plugin) (cfg : list Workflow) : res (list CompiledWorkflow) :=
  match cfg with
  | [] => Ok []
  | w :: rest =>
    if negb (wf_Enabled w) then Compile plugins rest
    else
      cw ← wrapErr ("workflow " +:+ Quote (wf_Name w)) (compileOne plugins w);
      rest ← Compile plugins rest;
      Ok (cw :: rest)
  end.

Definition quotes : list string := ["'"%string; String (ascii_of_nat 34) EmptyString].
Fixpoint quotedValue (qs : list string) (part : string) : option string :=
  match qs with
  | [] => None
  | q :: qs =>
    match Index part q with
    | Some i => let rest := sdrop (i + 1) part in
                Some match LastIndex rest q with Some e => stake e rest | None => rest end
    | None => quotedValue qs part
    end
  end.
Definition extractFilterValue (part : string) : string :=
  match quotedValue quotes part with
  | Some v => v
  | None => match Index part "matches" with Some i => TrimSpace (sdrop (i + 7) part) | None => "" end
  end.
Definition matchContentType (contentType pattern : string) : bool :=
  if bool_decide (pattern = "*/*"%string) || bool_decide (pattern = "*"%string) then true
  else if HasSuffix pattern "/*" then HasPrefix (ToLower contentType) (TrimSuffix pattern "/*" +:+ "/")
  else if HasSuffix pattern "*" then HasPrefix (ToLower contentType) (TrimSuffix pattern "*")
  else Contains (ToLower contentType) (ToLower pattern).
Definition filterPart (contentType : string) (metadata : gmap string string) (part : string) : bool :=
  let part := TrimSpace part in
  let val := extractFilterValue part in
  negb (HasPrefix part "content-type" && bool_decide (val <> ""%string) && negb (matchContentType contentType val)) &&
  negb (HasPrefix part "metadata." && negb (metadataMatches part metadata)).
Definition MatchFilter (filter contentType : string) (metadata : gmap string string) : bool :=
  if bool_decide (filter = ""%string) then true
  else forallb (filterPart contentType metadata) (SplitOn "and" (ToLower filter)).

(** ** The workflow executor (flow/executor.go) *)

(** An event as it is published, without its ID and time. *)
Record FlowEvent := mkFlowEvent {
  fe_Type : string; fe_Workflow : string; fe_Step : string; fe_Execution : string; fe_Error : string; fe_Duration : Duration }.
Record Executor := mkExecutor {
  fx_plugins : gmap string Plugin; fx_compiled : list CompiledWorkflow; fx_results : gmap string Execution;
  fx_maxWorkers : Z; fx_telemetry : bool }.
Definition NewExecutor (maxWorkers : Z) (telemetry : bool) : Executor :=
  mkExecutor ∅ [] ∅ (if maxWorkers <=? 0 then 100 else maxWorkers) telemetry.
(** With telemetry an event follows; [published] says which. *)
Definition published (e : Executor) (l : list FlowEvent) : list FlowEvent := if fx_telemetry e then l else [].
Definition RegisterPlugin (p : Plugin) (e : Executor) : Executor * list FlowEvent * res unit :=
  if bool_decide (pg_Name p = ""%string) then (e, [], Err "plugin name cannot be empty")
  else (mkExecutor (<[pg_Name p := p]> (fx_plugins e)) (fx_compiled e) (fx_results e) (fx_maxWorkers e) (fx_telemetry e),
        published e [mkFlowEvent "plugin.loaded" (pg_Name p) "" "" "" 0], Ok tt).
Definition LoadConfigDataRaw (cfg : list Workflow) (e : Executor) : Executor * res unit :=
  match Compile (fx_plugins e) cfg with
  | Ok compiled => (mkExecutor (fx_plugins e) compiled (fx_results e) (fx_maxWorkers e) (fx_telemetry e), Ok tt)
  | Err x => (e, Err x)
  | Panic x => (e, Panic x)
  end.
Definition fx_LoadConfigData (data : bytes) (e : Executor) : Executor * res unit :=
  match LoadConfigData data with
  | Ok cfg => LoadConfigDataRaw cfg e
  | Err x => (e, Err x)
  | Panic x => (e, Panic x)
  end.
Definition GetMatchingPipelines (trigger contentType : string) (metadata : gmap string string) (e : Executor) : list CompiledWorkflow :=
  filter (fun cw => wf_Trigger (cw_Workflow cw) = trigger /\
                    MatchFilter (wf_Filter (cw_Workflow cw)) contentType metadata = true) (fx_compiled e).

Definition withParams (params : gmap string string) (input : ObjectInput) : ObjectInput :=
  mkInput (oi_Key input) (oi_Bucket input) (oi_Content input) (oi_Size input) (oi_ContentType input) (oi_UserMetadata input) params.
Record flowState := mkFlow { fs_steps : stepsState; fs_events : list FlowEvent }.
Definition flowStep (r : StepResult) (events : list FlowEvent) (s : flowState) : flowState :=
  mkFlow (recordStep r (fs_steps s)) (events ++ fs_events s).
Definition flowStopped (input : ObjectInput) (r : ProcessResult) (this : StepResult) (rest : list CompiledStep)
    (panic : option string) (events : list FlowEvent) : flowState :=
  mkFlow (mkSteps input r (this :: repeat noStepResult (length rest)) panic) events.
Fixpoint flow_steps (env : execEnv) (wf id : string) (i : nat) (steps : list CompiledStep) (input : ObjectInput) (r : ProcessResult)
  : flowState :=
  match steps with
  | [] => mkFlow (mkSteps input r [] None) []
  | cs :: rest =>
    let step := cs_Step cs in
    let started := mkFlowEvent "step.started" wf (st_Name step) id "" 0 in
    let '(input, out) := pg_Process (cs_Plugin cs) (withParams (st_Params step) input) in
    match out with
    | Panic x | Err x => flowStopped input r noStepResult rest (Some x) [started]
    | Ok (p, Some x) =>
      let failed := mkStepResult (st_Name step) StatusFailed [] x 0 in
      let event := mkFlowEvent "step.failed" wf (st_Name step) id x (xe_duration env i) in
      if bool_decide (st_OnError step = "fail"%string) then flowStopped input (set_error x r) failed rest None [started; event]
      else flowStep failed ([started; event] ++
             (if bool_decide (st_OnError step = "skip"%string) then [mkFlowEvent "step.skipped" "" "" "" "" 0] else []))
             (flow_steps env wf id (S i) rest input r)
    | Ok (p, None) =>
      let keys := match p with
                  | Some p => outputKeys (st_Output step) (oi_Key input) (xe_uuid env i) (pr_Outputs p)
                  | None => [] end in
      let done := mkStepResult (st_Name step) StatusCompleted keys "" (xe_duration env i) in
      let events := [started; mkFlowEvent "step.completed" wf (st_Name step) id "" (xe_duration env i)] in
      match p with
      | None => flowStep done events (flow_steps env wf id (S i) rest input r)
      | Some p =>
        match absorb step p input r with
        | Some (input, r) => flowStep done events (flow_steps env wf id (S i) rest input r)
        | None => flowStopped input r noStepResult rest (Some nilDeref) [started]
        end
      end
    end
  end.
Definition fx_Execute (env : execEnv) (workflowName : string) (input : ObjectInput) (e : Executor)
  : Executor * ObjectInput * list FlowEvent * res ProcessResult :=
  match filter (fun cw => wf_Name (cw_Workflow cw) = workflowName) (fx_compiled e) with
  | [] => (e, input, [], Err ErrWorkflowNotFound)
  | cw :: _ =>
    let wf := wf_Name (cw_Workflow cw) in
    let exec := mkExecution (xe_id env) wf (oi_Key input) (oi_Bucket input) StatusRunning (xe_start env) None
                  (repeat noStepResult (length (cw_Steps cw))) "" in
    let s := flow_steps env wf (xe_id env) 0 (cw_Steps cw) input newResult in
    let x := finished env exec (fs_steps s) in
    let last := match ss_panic (fs_steps s), pr_Error (ss_result (fs_steps s)) with
                | Some _, _ => []
                | None, Some err => [mkFlowEvent "workflow.failed" wf "" (xe_id env) err 0]
                | None, None => [mkFlowEvent "workflow.completed" wf "" (xe_id env) "" (Sub (xe_end env) (xe_start env))] end in
    (mkExecutor (fx_plugins e) (fx_compiled e) (<[ex_ID x := x]> (fx_results e)) (fx_maxWorkers e) (fx_telemetry e),
     ss_input (fs_steps s),
     published e ([mkFlowEvent "workflow.started" wf "" (xe_id env) "" 0] ++ fs_events s ++ last),
     match ss_panic (fs_steps s) with Some x => Panic x | None => Ok (ss_result (fs_steps s)) end)
  end.
Definition GetExecution (id : string) (e : Executor) : option Execution := fx_results e !! id.
Definition ListExecutions (order : list string) (bkt objectKey : string) (e : Executor) : list Execution :=
  listExecutions order bkt objectKey (fx_results e).
End Flow.

(** ** The event bus (flow/telemetry_impl.go) *)

(** Subscribers by name, with the types they want ([None]: all); what
    [Subscribe] returns removes the position it had then. *)
Record FlowBus := mkFlowBus { fbus_subscribers : list string; fbus_typeSubs : list (list string * string); fbus_closed : bool }.
Definition NewFlowBus : FlowBus := mkFlowBus [] [] false.
(** The subscribers that a published event reaches, in order. *)
Definition flow_Publish (type : string) (b : FlowBus) : list string :=
  if fbus_closed b then []
  else fbus_subscribers b ++ (snd <$> filter (fun ts => type ∈ ts.1) (fbus_typeSubs b)).
Definition flow_Subscribe (fn : string) (b : FlowBus) : FlowBus * nat :=
  (mkFlowBus (fbus_subscribers b ++ [fn]) (fbus_typeSubs b) (fbus_closed b), length (fbus_subscribers b)).
Definition flow_SubscribeTypes (types : list string) (fn : string) (b : FlowBus) : FlowBus * nat :=
  (mkFlowBus (fbus_subscribers b) (fbus_typeSubs b ++ [(types, fn)]) (fbus_closed b), length (fbus_typeSubs b)).
(** [append(s[:idx], s[idx+1:]...)]. *)
Definition removeAt {A} (idx : nat) (l : list A) : res (list A) :=
  if (idx <? length l)%nat then Ok (take idx l ++ drop (S idx) l) else Panic "slice bounds out of range".
Definition flow_unsubscribe (idx : nat) (b : FlowBus) : res FlowBus :=
  l ← removeAt idx (fbus_subscribers b); Ok (mkFlowBus l (fbus_typeSubs b) (fbus_closed b)).
Definition flow_unsubscribeTypes (idx : nat) (b : FlowBus) : res FlowBus :=
  l ← removeAt idx (fbus_typeSubs b); Ok (mkFlowBus (fbus_subscribers b) l (fbus_closed b)).
Definition flow_Close (b : FlowBus) : FlowBus := mkFlowBus (fbus_subscribers b) (fbus_typeSubs b) true.

(** ** Resources (flow/resource.go) *)

Record ResourceConfig := mkResources { rc_MaxWorkers : nat; rc_MaxQueue : Z; rc_RateLimit : Z; rc_BurstSize : Z }.
Definition DefaultResourceConfig : ResourceConfig := mkResources 100 1000 0 0.
(** A call of Acquire: past the token and the check of the queue, counted and
    waiting, holding a slot, or over. *)
Inductive acquirePC := AcqNew | AcqChecked | AcqQueued | AcqHolding | AcqOver (err : option string).
#[export] Instance acquirePC_dec : EqDecision acquirePC.
Proof. solve_decision. Defined.
(** [rm_slots] is the number of values in the channel of slots. *)
Record ResourceManager := mkManagerR {
  rm_slots : nat; rm_maxWorkers : nat; rm_active : Z; rm_queueSize : Z; rm_maxQueue : Z; rm_shutdown : bool;
  rm_tokens : option Z; rm_bucketSize : Z; rm_calls : list acquirePC }.
Definition NewResourceManager (cfg : ResourceConfig) : ResourceManager :=
  let size := if rc_BurstSize cfg <=? 0 then Z.of_nat (rc_MaxWorkers cfg) else rc_BurstSize cfg in
  mkManagerR 0 (rc_MaxWorkers cfg) 0 0 (rc_MaxQueue cfg) false (if 0 <? rc_RateLimit cfg then Some size else None)
    (if 0 <? rc_RateLimit cfg then size else 0) [].
Definition ErrResourceExhausted : string := "resource exhausted".
Definition ErrShuttingDown : string := "resource manager shutting down".

Definition setCall (i : nat) (pc : acquirePC) (r : ResourceManager) : ResourceManager :=
  mkManagerR (rm_slots r) (rm_maxWorkers r) (rm_active r) (rm_queueSize r) (rm_maxQueue r) (rm_shutdown r) (rm_tokens r)
    (rm_bucketSize r) (<[i := pc]> (rm_calls r)).
Definition setQueue (n : Z) (r : ResourceManager) : ResourceManager :=
  mkManagerR (rm_slots r) (rm_maxWorkers r) (rm_active r) n (rm_maxQueue r) (rm_shutdown r) (rm_tokens r) (rm_bucketSize r) (rm_calls r).
Definition setSlots (n : nat) (active : Z) (r : ResourceManager) : ResourceManager :=
  mkManagerR n (rm_maxWorkers r) active (rm_queueSize r) (rm_maxQueue r) (rm_shutdown r) (rm_tokens r) (rm_bucketSize r) (rm_calls r).
Definition setTokens (t : option Z) (r : ResourceManager) : ResourceManager :=
  mkManagerR (rm_slots r) (rm_maxWorkers r) (rm_active r) (rm_queueSize r) (rm_maxQueue r) (rm_shutdown r) t (rm_bucketSize r) (rm_calls r).

Inductive resStep :=
| AcquireCalled
| AcquireChecks (i : nat)
| AcquireQueues (i : nat)
| AcquireGets (i : nat)
| AcquireGivesUp (i : nat) (err : string)
| Releases (i : nat)
| RefillTicks
| ShutdownCalled.
Definition res_step (s : resStep) (r : ResourceManager) : option ResourceManager :=
  match s with
  | AcquireCalled =>
    Some (mkManagerR (rm_slots r) (rm_maxWorkers r) (rm_active r) (rm_queueSize r) (rm_maxQueue r) (rm_shutdown r)
            (rm_tokens r) (rm_bucketSize r) (rm_calls r ++ [AcqNew]))
  | AcquireChecks i =>
    pc ← rm_calls r !! i;
    if decide (pc = AcqNew) then
      if rm_shutdown r then Some (setCall i (AcqOver (Some ErrShuttingDown)) r)
      else
        let checked r := if rm_maxQueue r <=? rm_queueSize r then setCall i (AcqOver (Some ErrResourceExhausted)) r
                         else setCall i AcqChecked r in
        match rm_tokens r with
        | None => Some (checked r)
        | Some t => if 0 <? t then Some (checked (setTokens (Some (t - 1)) r))
                    else Some (setCall i (AcqOver (Some ErrResourceExhausted)) r)
        end
    else None
  | AcquireQueues i =>
    pc ← rm_calls r !! i;
    if decide (pc = AcqChecked) then Some (setCall i AcqQueued (setQueue (rm_queueSize r + 1) r)) else None
  | AcquireGets i =>
    pc ← rm_calls r !! i;
    if decide (pc = AcqQueued) then
      if (rm_slots r <? rm_maxWorkers r)%nat
      then Some (setCall i AcqHolding (setQueue (rm_queueSize r - 1) (setSlots (S (rm_slots r)) (rm_active r + 1) r)))
      else None
    else None
  | AcquireGivesUp i err =>
    pc ← rm_calls r !! i;
    if decide (pc = AcqQueued) then Some (setCall i (AcqOver (Some err)) (setQueue (rm_queueSize r - 1) r)) else None
  | Releases i =>
    pc ← rm_calls r !! i;
    if decide (pc = AcqHolding) then
      match rm_slots r with
      | S n => Some (setCall i (AcqOver None) (setSlots n (rm_active r - 1) r))
      | O => None
      end
    else None
  | RefillTicks =>
    if rm_shutdown r then None
    else match rm_tokens r with
         | Some t => Some (if t <? rm_bucketSize r then setTokens (Some (t + 1)) r else r)
         | None => None
         end
  | ShutdownCalled =>
    Some (mkManagerR (rm_slots r) (rm_maxWorkers r) (rm_active r) (rm_queueSize r) (rm_maxQueue r) true (rm_tokens r)
            (rm_bucketSize r) (rm_calls r))
  end.
Fixpoint res_run (l : list resStep) (r : ResourceManager) : option ResourceManager :=
  match l with [] => Some r | s :: l => r ← res_step s r; res_run l r end.

(** ** Timeline (flow/timeline.go) *)

Record TimelineEvent := mkTimelineEvent { te_Time : Time; te_Type : string; te_Step : string; te_Duration : Duration; te_Error : string }.
Record Timeline := mkTimeline { tl_events : gmap string (list TimelineEvent); tl_maxSize : Z }.
Definition NewTimeline (maxEvents : Z) : Timeline := mkTimeline ∅ (if maxEvents <=? 0 then 1000 else maxEvents).
Definition Record_ (executionID : string) (e : TimelineEvent) (tl : Timeline) : Timeline :=
  let l := default [] (tl_events tl !! executionID) ++ [e] in
  let l := if tl_maxSize tl <? Z.of_nat (length l) then drop (length l - Z.to_nat (tl_maxSize tl)) l else l in
  mkTimeline (<[executionID := l]> (tl_events tl)) (tl_maxSize tl).
(** The subscriber: events without an execution are left out. *)
Definition timelineSubscriber (now : Time) (e : FlowEvent) (tl : Timeline) : Timeline :=
  if bool_decide (fe_Execution e = ""%string) then tl
  else Record_ (fe_Execution e) (mkTimelineEvent now (fe_Type e) (fe_Step e) (fe_Duration e) (fe_Error e)) tl.
(** [sorted] is what [sort.Slice] leaves. *)
Definition tl_Get (sorted : list TimelineEvent -> list TimelineEvent) (executionID : string) (tl : Timeline) : list TimelineEvent :=
  sorted (default [] (tl_events tl !! executionID)).

(** ** Secrets (flow/secrets.go) *)

Record SecretAudit := mkSecretAudit { sa_Time : Time; sa_Action : string; sa_Key : string }.
Record envSecretProvider := mkSecrets { sp_store : gmap string string; sp_audit : list SecretAudit }.
Definition NewEnvSecretProvider : envSecretProvider := mkSecrets ∅ [].
Definition audited (now : Time) (action key : string) (p : envSecretProvider) : envSecretProvider :=
  mkSecrets (sp_store p) (sp_audit p ++ [mkSecretAudit now action key]).
Section Secrets.
(** [env] is what os.LookupEnv answers, [upper] is strings.ToUpper. *)
Context `{GoQuote} (env : string -> option string) (upper : string -> string).
Definition secretVar (key : string) : string := "NEXUS_SECRET_" +:+ upper (ReplaceAll key "." "_").
Definition sp_Get (now : Time) (key : string) (p : envSecretProvider) : envSecretProvider * option string :=
  match env (secretVar key) with
  | Some v => (audited now "get" key p, Some v)
  | None => (p, sp_store p !! key)
  end.
Definition sp_Set (now : Time) (key value : string) (p : envSecretProvider) : envSecretProvider :=
  audited now "set" key (mkSecrets (<[key := value]> (sp_store p)) (sp_audit p)).
Definition sp_Delete (now : Time) (key : string) (p : envSecretProvider) : envSecretProvider :=
  audited now "delete" key (mkSecrets (delete key (sp_store p)) (sp_audit p)).
Definition Resolve (now : Time) (input : string) (p : envSecretProvider) : envSecretProvider * option string :=
  if negb (HasPrefix input "secret:") then (p, Some input) else sp_Get now (TrimPrefix input "secret:") p.
(** [order] is the order in which the map is walked. *)
Fixpoint ResolveMap (now : Time) (order : list (string * string)) (p : envSecretProvider)
  : envSecretProvider * res (gmap string string) :=
  match order with
  | [] => (p, Ok ∅)
  | (k, v) :: rest =>
    match Resolve now v p with
    | (p, None) => (p, Err ("secret " +:+ Quote (TrimPrefix v "secret:") +:+ " not found"))
    | (p, Some x) => let '(p, r) := ResolveMap now rest p in (p, m ← r; Ok (<[k := x]> m))
    end
  end.
End Secrets.
