(* ===== verification/FlowTheorems.v ===== *)
(** * Pipelines and workflows: what their theorems show

    Filters, compilation, what an execution reports, redaction, and the resource
    manager under every interleaving. *)

From S2P Require Import Prelude GoStrings Keys PluginTrust PluginNet Flow.
From Stdlib Require Import Ascii String.
From stdpp Require Import base list strings gmap.

#[local] Open Scope Z_scope.

(** ** Executions *)

Section Executions.
Context `{FlowLib, GoUnicode, GoQuote}.

(** A step is reached and failed, and asked to fail the whole. *)
Definition failing (cs : CompiledStep) (x : StepResult) : Prop :=
  st_OnError (cs_Step cs) = "fail"%string /\ sr_Status x = StatusFailed.

Record reports (steps : list CompiledStep) (s : stepsState) : Prop := mkReports {
  rp_length : length (ss_steps s) = length steps;
  rp_failed : ss_panic s = None ->
    (is_Some (pr_Error (ss_result s)) <-> exists i cs x, steps !! i = Some cs /\ ss_steps s !! i = Some x /\ failing cs x);
  rp_status : Forall (fun x => sr_Status x = StatusCompleted \/ sr_Status x = StatusFailed \/ x = noStepResult) (ss_steps s);
  rp_reached : forall i cs x, steps !! i = Some cs -> ss_steps s !! i = Some x -> failing cs x ->
    forall j y, (i < j)%nat -> ss_steps s !! j = Some y -> y = noStepResult;
  rp_all : ss_panic s = None -> pr_Error (ss_result s) = None ->
    Forall2 (fun cs x => sr_StepName x = st_Name (cs_Step cs)) steps (ss_steps s) }.

Lemma reports_stop cs steps input r this panic : pr_Error r <> None \/ panic <> None ->
  (panic = None -> failing cs this) -> (panic <> None -> this = noStepResult) ->
  sr_Status this = StatusFailed \/ this = noStepResult ->
  reports (cs :: steps) (mkSteps input r (this :: repeat noStepResult (length steps)) panic).
Proof.
  intros E Fl Np St. assert (forall j y, repeat noStepResult (length steps) !! j = Some y -> y = noStepResult) as R.
  { intros j y L. by apply list_elem_of_lookup_2, list_elem_of_In, repeat_spec in L. }
  split; simpl.
  - by rewrite repeat_length.
  - intros ->. split; [|intros _; destruct (pr_Error r); [eauto|by destruct E]]. intros _. exists 0%nat, cs, this.
    split; [done|]. split; [done|by apply Fl].
  - constructor; [tauto|]. apply Forall_forall. intros x I. apply list_elem_of_In, repeat_spec in I. auto.
  - intros [|i] c x L1 L2 Fx [|j] y Lt Ly; try lia; simpl in *; by eapply R.
  - intros -> P. by destruct E.
Qed.
Lemma reports_cons cs steps x s : reports steps s -> sr_StepName x = st_Name (cs_Step cs) ->
  sr_Status x = StatusCompleted \/ sr_Status x = StatusFailed -> ~ failing cs x ->
  reports (cs :: steps) (recordStep x s).
Proof.
  intros [L F Ss R A] N St Nf. split; simpl.
  - by rewrite L.
  - intros P. rewrite (F P). split.
    + intros (i & c & y & ?). by exists (S i), c, y.
    + intros ([|i] & c & y & L1 & L2 & Fy); simpl in L1, L2; [exfalso; by simplify_eq|]. by exists i, c, y.
  - constructor; [tauto|done].
  - intros [|i] c y L1 L2 Fy [|j] z Lt Lz; simpl in L1, L2, Lz; try lia; [exfalso; by simplify_eq|].
    apply (R i c y L1 L2 Fy j z); [lia|exact Lz].
  - intros P E. constructor; [done|by apply A].
Qed.

Lemma absorb_error step p input r input' r' : absorb step p input r = Some (input', r') -> pr_Error r' = pr_Error r.
Proof.
  unfold absorb, mergeMetadata. destruct (st_Inline step), (pr_UpdatedMetadata p).
  1-2: destruct (pr_Outputs p) as [|[o|] l]; intros E; try done; by injection E as <- <-.
  all: intros E; by injection E as <- <-.
Qed.
Lemma flow_steps_report env wf id steps : forall i input r, pr_Error r = None ->
  reports steps (fs_steps (flow_steps env wf id i steps input r)).
Proof.
  induction steps as [|cs steps IH]; intros i input r E.
  - split; simpl; try done. rewrite E. intros _. split; [by intros [? ?]|by intros (i' & ? & ? & ? & _)].
  - cbn [flow_steps]. cbv zeta. destruct (pg_Process (cs_Plugin cs) _) as [input' out]. destruct out as [[p [x|]]|x|x].
    + destruct (bool_decide (st_OnError (cs_Step cs) = "fail"%string)) eqn:B.
      * apply bool_decide_eq_true in B. apply reports_stop; simpl; [by left|by split|done|by left].
      * apply bool_decide_eq_false in B. apply reports_cons; [by apply IH|done|by right|]. by intros [? _].
    + destruct p as [p|]; [destruct (absorb _ _ _ _) as [[input2 r2]|] eqn:Ab|].
      * apply reports_cons; [apply IH; by rewrite (absorb_error _ _ _ _ _ _ Ab)|done|by left|]. intros [_ F]. simpl in F. discriminate F.
      * apply reports_stop; simpl; [by right|done|done|by right].
      * apply reports_cons; [by apply IH|done|by left|]. intros [_ F]. simpl in F. discriminate F.
    + apply reports_stop; simpl; [by right|done|done|by right].
    + apply reports_stop; simpl; [by right|done|done|by right].
Qed.

(** C23: An execution reports what happened: a workflow that returns has one
    result per step; it is recorded as failed, with the error, exactly when a
    step marked to fail it failed, and then nothing after that step ran;
    otherwise it is completed and every step has its result.  No step is ever
    recorded as skipped. *)
Theorem executions_report_their_steps env name input e e' input' events r :
  fx_Execute env name input e = (e', input', events, Ok r) ->
  exists cw x, cw ∈ fx_compiled e /\ wf_Name (cw_Workflow cw) = name /\ GetExecution (xe_id env) e' = Some x /\
    length (ex_Steps x) = length (cw_Steps cw) /\
    (ex_Status x = StatusFailed <-> exists i cs y, cw_Steps cw !! i = Some cs /\ ex_Steps x !! i = Some y /\ failing cs y) /\
    (ex_Status x = StatusFailed <-> pr_Error r = Some (ex_Error x)) /\
    (ex_Status x <> StatusFailed -> ex_Status x = StatusCompleted /\
       Forall2 (fun cs y => sr_StepName y = st_Name (cs_Step cs)) (cw_Steps cw) (ex_Steps x)) /\
    (forall i cs y j z, cw_Steps cw !! i = Some cs -> ex_Steps x !! i = Some y -> failing cs y ->
       (i < j)%nat -> ex_Steps x !! j = Some z -> z = noStepResult) /\
    Forall (fun y => sr_Status y <> StatusSkipped) (ex_Steps x).
Proof.
  unfold fx_Execute. destruct (filter _ (fx_compiled e)) as [|cw l] eqn:Fl; [done|]. cbv zeta.
  assert (cw ∈ filter (fun cw => wf_Name (cw_Workflow cw) = name) (fx_compiled e)) as I by (rewrite Fl; set_solver).
  apply list_elem_of_filter in I as [Nm I].
  pose proof (flow_steps_report env (wf_Name (cw_Workflow cw)) (xe_id env) (cw_Steps cw) 0 input newResult eq_refl) as [L F S R A].
  set (s := fs_steps _) in *. destruct (ss_panic s) as [|] eqn:P; [done|]. intros E. injection E as <- _ _ <-.
  exists cw, (finished env (mkExecution (xe_id env) (wf_Name (cw_Workflow cw)) (oi_Key input) (oi_Bucket input) StatusRunning
    (xe_start env) None (repeat noStepResult (length (cw_Steps cw))) "") s).
  unfold finished, GetExecution. rewrite P. specialize (F eq_refl). specialize (A eq_refl).
  assert (Forall (fun y => sr_Status y <> StatusSkipped) (ss_steps s)) as Sk.
  { eapply Forall_impl; [exact S|]. intros y [->|[->| ->]]; done. }
  destruct (pr_Error (ss_result s)) as [x|]; simpl; rewrite lookup_insert_eq; (split; [done|]; split; [done|]; split; [done|]; split; [done|]).
  - rewrite <- F. split; [split; [by eauto|done]|]. split; [done|]. split; [by intros []|]. split; [|done].
    intros. by eapply R.
  - rewrite <- F. split; [split; [done|by intros [? ?]]|]. split; [done|]. split; [by auto|]. split; [|done].
    intros. by eapply R.
Qed.
End Executions.

(** ** Compilation *)

Section Compilation.
Context `{FlowLib, GoUnicode, GoQuote}.

Definition runnable (plugins : gmap string Plugin) (w : Workflow) : Prop :=
  wf_Steps w <> [] /\ Forall (fun s => is_Some (plugins !! st_Plugin s)) (wf_Steps w).
(** A compiled workflow is its source with the plugins looked up. *)
Definition linked (plugins : gmap string Plugin) (w : Workflow) (cw : CompiledWorkflow) : Prop :=
  cw_Workflow cw = w /\ cs_Step <$> cw_Steps cw = wf_Steps w /\
  Forall (fun cs => plugins !! st_Plugin (cs_Step cs) = Some (cs_Plugin cs)) (cw_Steps cw).

Lemma compileSteps_spec plugins steps : forall i,
  match compileSteps plugins i steps with
  | Ok l => cs_Step <$> l = steps /\ Forall (fun cs => plugins !! st_Plugin (cs_Step cs) = Some (cs_Plugin cs)) l
  | Err _ => ~ Forall (fun s => is_Some (plugins !! st_Plugin s)) steps
  | Panic _ => False
  end.
Proof.
  induction steps as [|s steps IH]; intros i; cbn [compileSteps]; [done|].
  destruct (plugins !! st_Plugin s) as [p|] eqn:P.
  - specialize (IH (i + 1)). destruct (compileSteps plugins (i + 1) steps) as [l|x|x]; simpl.
    + destruct IH as [E F]. rewrite <- E. split; [done|]. by constructor.
    + by rewrite Forall_cons; intros [_ ?].
    + done.
  - rewrite Forall_cons, P. by intros [[? ?] _].
Qed.
Lemma compileOne_spec plugins w :
  match compileOne plugins w with Ok cw => runnable plugins w /\ linked plugins w cw | Err _ => ~ runnable plugins w | Panic _ => False end.
Proof.
  unfold compileOne, runnable, linked. destruct (wf_Steps w) as [|s steps] eqn:S; [by intros [? _]|].
  pose proof (compileSteps_spec plugins (s :: steps) 0) as C. destruct (compileSteps _ _ _) as [l|x|x]; simpl; [|tauto|done].
  destruct C as [E F]. split; [|done]. split; [done|]. rewrite <- E. clear E S. induction F as [|cs l L F IH]; [done|].
  csimpl. constructor; [by rewrite L|done].
Qed.

(** Compilation is all or nothing: it succeeds exactly when every enabled
    workflow has steps and only registered plugins, and then gives the enabled
    workflows in order, each with its own steps and their plugins. *)
Theorem compile_spec plugins cfg :
  (is_ok (Compile plugins cfg) = true <-> Forall (runnable plugins) (filter (fun w => wf_Enabled w = true) cfg)) /\
  forall l, Compile plugins cfg = Ok l -> Forall2 (linked plugins) (filter (fun w => wf_Enabled w = true) cfg) l.
Proof.
  induction cfg as [|w cfg [IH1 IH2]]; cbn [Compile].
  - split; [done|]. intros l [= <-]. constructor.
  - rewrite filter_cons. destruct (wf_Enabled w) eqn:En; simpl; [|done]. rewrite Forall_cons.
    pose proof (compileOne_spec plugins w) as C. destruct (compileOne plugins w) as [cw|x|x]; simpl; [|split; [split; [done|tauto]|done]|done].
    destruct C as [R L]. destruct (Compile plugins cfg) as [l|x|x]; simpl in *.
    + split; [tauto|]. intros l' [= <-]. constructor; [done|by apply IH2].
    + split; [|done]. split; [done|]. intros [_ F]. by apply IH1 in F.
    + split; [|done]. split; [done|]. intros [_ F]. by apply IH1 in F.
Qed.
End Compilation.

(** ** Filters of pipelines *)

Section Filters.
Context `{GoUnicode}.

(** A quoted content type restricts nothing: a filter in which every
    condition on the content type quotes its value, with either quote, and that
    has no condition on metadata accepts every object. *)
Theorem quoted_filters_accept_everything filter contentType metadata :
  Forall (fun part => HasPrefix (TrimSpace part) "metadata." = false /\
            (HasPrefix (TrimSpace part) "content-type" = true -> exists q, q ∈ quotes /\ Contains (TrimSpace part) q = true))
    (SplitOn "and" (ToLower filter)) ->
  evaluateFilter filter contentType metadata = true.
Proof.
  unfold evaluateFilter. induction 1 as [|part rest [M C] _ IH]; [done|]. cbn [pl_filterParts].
  destruct (HasPrefix (TrimSpace part) "content-type") eqn:P.
  - destruct (C eq_refl) as (q & Q & I). assert (pl_extractFilterValue (TrimSpace part) = ""%string) as ->.
    { unfold pl_extractFilterValue. apply bool_decide_eq_true in I as [i I].
      assert (q = "'"%string \/ q = String (ascii_of_nat 34) EmptyString) as [->| ->] by (unfold quotes in Q; set_solver).
      - by rewrite I.
      - rewrite I. by destruct (Index _ "'"). }
    assert (Contains (ToLower contentType) "" = true) as ->.
    { apply bool_decide_eq_true. exists 0%nat. by destruct (ToLower contentType). }
    simpl. rewrite M. simpl. by destruct (HasPrefix (TrimSpace part) "size").
  - simpl. rewrite M. simpl. by destruct (HasPrefix (TrimSpace part) "size").
Qed.
End Filters.

(** ** Redaction *)

Fixpoint chars (s : string) : list ascii := match s with EmptyString => [] | String c s => c :: chars s end.
Definition star : ascii := "*"%char.
(** Each byte is kept or replaced by a star. *)
Definition starred : list ascii -> list ascii -> Prop := Forall2 (fun a b => b = a \/ b = star).

Lemma chars_app s t : chars (s +:+ t) = chars s ++ chars t.
Proof. induction s as [|c s IH]; [done|]. simpl. by rewrite <- IH. Qed.
Lemma chars_stake n s : chars (stake n s) = take n (chars s).
Proof. revert s. induction n as [|n IH]; intros [|c s]; try done. simpl. by rewrite IH. Qed.
Lemma chars_sdrop n s : chars (sdrop n s) = drop n (chars s).
Proof. revert s. induction n as [|n IH]; intros [|c s]; try done. simpl. by rewrite IH. Qed.
Lemma chars_length s : length (chars s) = String.length s.
Proof. induction s as [|c s IH]; [done|]. simpl. by rewrite IH. Qed.
Lemma chars_stars n : chars (string_of_bytes (repeat 42 n)) = repeat star n.
Proof. induction n as [|n IH]; [done|]. change (star :: chars (string_of_bytes (repeat 42 n)) = star :: repeat star n). by rewrite IH. Qed.
Lemma chars_inj s t : chars s = chars t -> s = t.
Proof. revert t. induction s as [|c s IH]; intros [|d t] E; simplify_eq/=; [done|]. f_equal. by apply IH. Qed.

Lemma starred_refl l : starred l l.
Proof. apply Forall_Forall2_diag, Forall_forall. auto. Qed.
Lemma starred_trans l1 l2 l3 : starred l1 l2 -> starred l2 l3 -> starred l1 l3.
Proof.
  intros A. revert l3. induction A as [|a b l1 l2 P A IH]; intros l3 B; inversion B as [|? c ? l3' Q B']; subst; constructor.
  - destruct P as [->| ->]; tauto.
  - by apply IH.
Qed.
Lemma starred_stars l : starred l (repeat star (length l)).
Proof. induction l as [|c l IH]; constructor; [by right|done]. Qed.
Lemma mask_starred s : (4 < String.length s)%nat -> starred (chars s) (chars (maskString s)).
Proof.
  intros L. unfold maskString. destruct (_ <=? 4)%nat eqn:E; [apply Nat.leb_le in E; lia|].
  rewrite !chars_app, chars_stake, chars_sdrop, chars_stars. rewrite <- chars_length in *. set (l := chars s) in *.
  rewrite <- (take_drop 2 l) at 1. apply Forall2_app; [apply starred_refl|].
  rewrite <- (take_drop (length l - 4) (drop 2 l)) at 1. rewrite drop_drop. replace (2 + (length l - 4))%nat with (length l - 2)%nat by lia.
  apply Forall2_app; [|apply starred_refl].
  replace (length l - 4)%nat with (length (take (length l - 4) (drop 2 l))) at 2; [apply starred_stars|].
  rewrite length_take, length_drop. lia.
Qed.

(** Digits of a pattern: its matches are at least as long. *)
Fixpoint digits (l : list atom) : nat :=
  match l with [] => 0%nat | OptSep :: l => digits l | Range _ _ :: l => S (digits l) end.
Lemma matchAtoms_split l : forall s m rest, matchAtoms l s = Some (m, rest) -> s = m +:+ rest /\ (digits l <= String.length m)%nat.
Proof.
  induction l as [|[lo hi|] l IH]; intros s m rest E; cbn [matchAtoms] in E.
  - injection E as <- <-. by split.
  - destruct s as [|c s]; [done|]. destruct (_ && _); [|done]. destruct (matchAtoms l s) as [[m' r']|] eqn:M; [|done].
    injection E as <- <-. destruct (IH _ _ _ M) as [-> L]. split; [done|]. simpl. lia.
  - cbn [digits]. destruct s as [|c s]; [by apply IH|]. destruct (isSep c).
    + destruct (matchAtoms l s) as [[m' r']|] eqn:M; [|done]. injection E as <- <-. destruct (IH _ _ _ M) as [-> L].
      split; [done|]. simpl. lia.
    + by apply IH.
Qed.
Lemma redactLoop_starred pattern : (4 < digits pattern)%nat -> forall fuel prev s,
  starred (chars s) (chars (redactLoop fuel pattern prev s)).
Proof.
  intros D. induction fuel as [|fuel IH]; intros prev s; cbn [redactLoop]; [apply starred_refl|].
  destruct s as [|c s]; [constructor|].
  assert (starred (chars (String c s)) (chars (String c (redactLoop fuel pattern (isWord c) s)))) as K by (constructor; [by left|apply IH]).
  destruct (if prev then None else matchAtoms pattern (String c s)) as [[m rest]|] eqn:M; [|exact K].
  destruct (wordStart rest); [exact K|]. destruct prev; [done|]. destruct (matchAtoms_split _ _ _ _ M) as [-> L].
  rewrite !chars_app. apply Forall2_app; [apply mask_starred; lia|apply IH].
Qed.

(** Redaction only blanks: the content it gives has the length of the
    original, and every byte is the original byte or a star. *)
Theorem redaction_only_blanks s : String.length (redact s) = String.length s /\ starred (chars s) (chars (redact s)).
Proof.
  assert (starred (chars s) (chars (redact s))) as St.
  { unfold redact. assert (Forall (fun p => 4 < digits p)%nat piiPatterns) as D by (unfold piiPatterns; repeat (constructor; [cbn; lia|]); constructor).
    revert s. induction D as [|p l Dp D IH]; intros s; simpl; [apply starred_refl|].
    eapply starred_trans; [by apply redactLoop_starred|apply IH]. }
  split; [|done]. apply Forall2_length in St. by rewrite <- !chars_length.
Qed.

(** ** Resources *)

Definition calls (pc : acquirePC) (l : list acquirePC) : nat := length (filter (fun x => x = pc) l).
Definition sameCall (pc x : acquirePC) : nat := if decide (x = pc) then 1%nat else 0%nat.
Lemma calls_insert pc l i x y : l !! i = Some x -> (calls pc (<[i := y]> l) + sameCall pc x = calls pc l + sameCall pc y)%nat.
Proof.
  unfold calls, sameCall. revert i. induction l as [|z l IH]; intros [|i] L; simplify_eq/=.
  - rewrite !filter_cons. destruct (decide (x = pc)), (decide (y = pc)); simpl; lia.
  - rewrite !filter_cons. specialize (IH i L). destruct (decide (z = pc)); simpl; lia.
Qed.
Lemma calls_new pc l : pc <> AcqNew -> calls pc (l ++ [AcqNew]) = calls pc l.
Proof. intros N. unfold calls. rewrite filter_app, length_app, filter_cons, decide_False by congruence. simpl. lia. Qed.

Record resOk (r : ResourceManager) : Prop := mkResOk {
  ro_slots : rm_slots r = calls AcqHolding (rm_calls r);
  ro_max : (rm_slots r <= rm_maxWorkers r)%nat;
  ro_active : rm_active r = Z.of_nat (rm_slots r);
  ro_queue : rm_queueSize r = Z.of_nat (calls AcqQueued (rm_calls r));
  ro_tokens : forall t, rm_tokens r = Some t -> 0 <= t <= rm_bucketSize r }.

(** The counts after call [i] moves from [x] to [y]. *)
Ltac moves L y :=
  let H := fresh "H" in let Q := fresh "Q" in
  pose proof (calls_insert AcqHolding _ _ _ y L) as H; pose proof (calls_insert AcqQueued _ _ _ y L) as Q;
  unfold sameCall in H, Q; simpl in H, Q.
Lemma res_step_ok s r r' : res_step s r = Some r' -> resOk r -> resOk r'.
Proof.
  intros E [S M A Q T]. destruct s as [|i|i|i|i err|i| |]; cbn [res_step] in E.
  - injection E as <-. split; simpl; rewrite ?calls_new by done; done.
  - destruct (rm_calls r !! i) as [pc|] eqn:L; [|done]. simpl in E. destruct (decide (pc = AcqNew)) as [->|]; [|done].
    assert (forall pc' t, pc' = AcqChecked \/ (exists x, pc' = AcqOver x) -> (forall n, t = Some n -> 0 <= n <= rm_bucketSize r) ->
      resOk (setCall i pc' (setTokens t r))) as K.
    { intros pc' t P B. moves L pc'. destruct P as [->|[x ->]]; simpl in *; split; simpl; try lia; done. }
    assert (forall pc', pc' = AcqChecked \/ (exists x, pc' = AcqOver x) -> resOk (setCall i pc' r)) as K0.
    { intros pc' P. apply (K pc' (rm_tokens r) P). exact T. }
    destruct (rm_shutdown r); [injection E as <-; apply K0; eauto|].
    destruct (rm_tokens r) as [t|] eqn:Tk; [|destruct (_ <=? _); injection E as <-; apply K0; eauto].
    specialize (T t eq_refl). destruct (0 <? t) eqn:P; [|injection E as <-; apply K0; eauto]. apply Z.ltb_lt in P.
    simpl in E. destruct (_ <=? _); injection E as <-; apply K; eauto; intros n [= <-]; lia.
  - destruct (rm_calls r !! i) as [pc|] eqn:L; [|done]. simpl in E. destruct (decide (pc = AcqChecked)) as [->|]; [|done].
    injection E as <-. moves L AcqQueued. split; simpl; try lia; done.
  - destruct (rm_calls r !! i) as [pc|] eqn:L; [|done]. simpl in E. destruct (decide (pc = AcqQueued)) as [->|]; [|done].
    destruct (_ <? _)%nat eqn:Lt; [|done]. apply Nat.ltb_lt in Lt. injection E as <-. moves L AcqHolding. split; simpl; try lia; done.
  - destruct (rm_calls r !! i) as [pc|] eqn:L; [|done]. simpl in E. destruct (decide (pc = AcqQueued)) as [->|]; [|done].
    injection E as <-. moves L (AcqOver (Some err)). split; simpl; try lia; done.
  - destruct (rm_calls r !! i) as [pc|] eqn:L; [|done]. simpl in E. destruct (decide (pc = AcqHolding)) as [->|]; [|done].
    destruct (rm_slots r) as [|n] eqn:Sl; [done|]. injection E as <-. moves L (AcqOver None). split; simpl; try lia; done.
  - destruct (rm_shutdown r); [done|]. destruct (rm_tokens r) as [t|] eqn:Tk; [|done].
    destruct (t <? rm_bucketSize r) eqn:Lt; injection E as <-; [|split; try done; by rewrite Tk].
    apply Z.ltb_lt in Lt. specialize (T t eq_refl). split; simpl; try done. intros n [= <-]. lia.
  - injection E as <-. by split.
Qed.
Lemma res_run_ok l : forall r r', res_run l r = Some r' -> resOk r -> resOk r'.
Proof.
  induction l as [|s l IH]; intros r r' E Ok; simpl in E; [by injection E as <-|].
  destruct (res_step s r) as [r1|] eqn:St; [|done]. simpl in E. eapply IH; [exact E|]. by eapply res_step_ok.
Qed.

(** Workers are bounded: under every interleaving of acquiring, waiting,
    giving up, releasing, refilling and shutting down, at most MaxWorkers calls
    hold a slot, the two counters are exact, and the bucket never holds more
    tokens than its size. *)
Theorem workers_bounded cfg l r : 0 <= rc_BurstSize cfg -> res_run l (NewResourceManager cfg) = Some r ->
  (calls AcqHolding (rm_calls r) <= rc_MaxWorkers cfg)%nat /\ rm_active r = Z.of_nat (calls AcqHolding (rm_calls r)) /\
  rm_queueSize r = Z.of_nat (calls AcqQueued (rm_calls r)) /\
  forall t, rm_tokens r = Some t -> 0 <= t <= rm_bucketSize r.
Proof.
  intros B E. assert (resOk (NewResourceManager cfg)) as Ok.
  { split; simpl; try done; [lia|]. intros t. destruct (0 <? _); [|done]. intros [= <-].
    destruct (rc_BurstSize cfg <=? 0) eqn:Le; lia. }
  assert (forall l r r', res_run l r = Some r' -> rm_maxWorkers r' = rm_maxWorkers r) as Mx.
  { clear. induction l as [|s l IH]; intros r r' E; simpl in E; [by injection E as <-|].
    destruct (res_step s r) as [r1|] eqn:St; [|done]. simpl in E. rewrite (IH _ _ E).
    destruct s; cbn [res_step] in St; repeat case_match; simplify_eq/=; try done;
      try (destruct (rm_calls r !! i); simpl in St; [|done]); repeat case_match; simplify_eq/=; done. }
  specialize (Mx _ _ _ E). destruct (res_run_ok _ _ _ E Ok) as [S M A Q T]. rewrite Mx, S in M. rewrite S in A. done.
Qed.

(** ** Concrete runs *)

Module FlowDemo.
#[export] Instance lib : FlowLib := {|
  yaml_Unmarshal b := Err "yaml"; ExtensionsByType t := if bool_decide (t = "text/plain"%string) then [".txt"%string] else [] |}.
#[export] Instance quote : GoQuote := {| Quote s := s |}.
#[local] Existing Instance AsciiOnly.ascii_unicode.

Definition broken : Plugin := mkPlugin "broken" (fun input => (input, Ok (None, Some "boom"%string))).
Definition step (name plugin onError : string) : Step := mkStep name plugin ∅ "out/{key}-{uuid}" ∅ false false onError.
Definition workflow (steps : list Step) : Workflow := mkWorkflow "w" "on_upload" "" steps true 0.
Definition text : ObjectInput := mkInput "k" "b" (Some (bytes_of_string "call 13812345678 or 1234-5678-9012-3456")) 39 "text/plain" ∅ ∅.
Definition env : execEnv := mkExecEnv "e" (fun _ _ => "0123456789") (fun _ => 5) 1 9.
Definition steps : list Step := [step "pii" "encrypt_pii" ""; step "bad" "broken" "skip"; step "worse" "broken" "fail"; step "never" "encrypt_pii" ""].
Definition executor : Executor :=
  (LoadConfigDataRaw [workflow steps] (RegisterPlugin broken (RegisterPlugin EncryptPIIPlugin (NewExecutor 0 true)).1.1).1.1).1.

Example redacted : redact "call 13812345678 or 1234-5678-9012-3456" = "call 13*******78 or 12***************56".
Proof. vm_compute. reflexivity. Qed.

Definition executed := fx_Execute env "w" text executor.
Example steps_of_the_run :
  match GetExecution "e" executed.1.1.1 with
  | Some x => (ex_Status x, sr_Status <$> ex_Steps x, sr_OutputKeys <$> ex_Steps x)
  | None => (""%string, [], [])
  end = ("failed", ["completed"; "failed"; "failed"; ""], [["out/k-01234567.txt"]; []; []; []])%string.
Proof. vm_compute. reflexivity. Qed.

Lemma executions_report_their_steps_witness :
  match executed with
  | (e, _, _, Ok _) => exists x, GetExecution (xe_id env) e = Some x /\ Forall (fun y => sr_Status y <> StatusSkipped) (ex_Steps x)
  | _ => False
  end.
Proof.
  assert (is_ok executed.2 = true) as O by (vm_compute; reflexivity).
  destruct executed as [[[e i] events] [r|x|x]] eqn:E; [|discriminate O|discriminate O].
  destruct (executions_report_their_steps env "w" text executor e i events r E) as (cw & x & _ & _ & G & _ & _ & _ & _ & _ & Sk).
  exists x. split; [exact G|exact Sk].
Defined.

(** The pipeline executor does the same, but a skipped step counts as completed. *)
Definition pipelines : PipelineExecutor :=
  mkPipelines {["encrypt_pii" := EncryptPIIPlugin; "broken" := broken]}%string (Some [workflow steps]) ∅ 1 0 None.
Example a_skipped_step_completes :
  match pl_Execute env "w" text pipelines with
  | Some (e, _, _) => (fun x => sr_Status <$> ex_Steps x) <$> pl_GetExecution "e" e
  | None => None end = Some ["completed"; "completed"; "failed"; ""]%string.
Proof. vm_compute. reflexivity. Qed.

(** The word "and" inside a value splits it, and what is left of the condition
    is ignored. *)
Example a_brand_is_cut : MatchFilter "metadata.brand=acme" "image/png" ∅ = true /\
  MatchFilter "metadata.size=acme" "image/png" ∅ = false.
Proof. vm_compute. done. Qed.
(** Values are compared in lower case with the metadata as it is. *)
Example capitals_never_match : MatchFilter "metadata.Team=Red" "image/png" {["Team" := "Red"]}%string = false.
Proof. vm_compute. reflexivity. Qed.
Definition quoted : string := "content-type matches 'image/*' and size > 5".
Lemma quoted_filters_accept_everything_witness : evaluateFilter quoted "text/html" ∅ = true.
Proof.
  assert (SplitOn "and" (ToLower quoted) = ["content-type matches 'image/*' "; " size > 5"]%string) as Parts by (vm_compute; reflexivity).
  apply quoted_filters_accept_everything. rewrite Parts. constructor; [split|constructor; [split|constructor]].
  - vm_compute. reflexivity.
  - intros _. exists "'"%string. split; [left|vm_compute; reflexivity].
  - vm_compute. reflexivity.
  - vm_compute. discriminate.
Defined.

(** Two subscribers that leave in the order they came: the second removal finds
    nothing at its position. *)
Example unsubscribing_in_order_panics :
  let '(b, i) := flow_Subscribe "a" NewFlowBus in let '(b, j) := flow_Subscribe "b" b in
  (b ← flow_unsubscribe i b; flow_unsubscribe j b) = Panic "slice bounds out of range".
Proof. vm_compute. reflexivity. Qed.
(** With a third one, it removes that one. *)
Example unsubscribing_removes_another :
  let '(b, i) := flow_Subscribe "a" NewFlowBus in let '(b, j) := flow_Subscribe "b" b in
  let '(b, _) := flow_Subscribe "c" b in
  (fbus_subscribers <$> (b ← flow_unsubscribe i b; flow_unsubscribe j b)) = Ok ["b"%string].
Proof. vm_compute. reflexivity. Qed.

Definition crowd : list resStep :=
  [AcquireCalled; AcquireCalled; AcquireChecks 0; AcquireChecks 1; AcquireQueues 0; AcquireQueues 1; AcquireGets 0; RefillTicks].
Definition crowded : ResourceManager := default (NewResourceManager DefaultResourceConfig) (res_run crowd (NewResourceManager (mkResources 1 1 10 2))).
(** Both calls have passed the check of a queue of one. *)
Example the_queue_overflows : option_map rm_queueSize (res_run (take 6 crowd) (NewResourceManager (mkResources 1 1 10 2))) = Some 2.
Proof. vm_compute. reflexivity. Qed.
Lemma workers_bounded_witness : res_run crowd (NewResourceManager (mkResources 1 1 10 2)) = Some crowded /\
  (calls AcqHolding (rm_calls crowded) <= 1)%nat.
Proof.
  split; [vm_compute; reflexivity|].
  apply (workers_bounded (mkResources 1 1 10 2) crowd crowded); [simpl; lia|vm_compute; reflexivity].
Defined.
End FlowDemo.
